(* ===== verification/_CoqProject ===== *)
-Q . S2P
Prelude.v
Text.v
Subject.v
Auth.v
Calendar.v
Usage.v
Quota.v
Message.v
Compaction.v
Plan.v
PlanDag.v
PlanStore.v
Host.v
ActingFor.v
ChannelWire.v
Actors.v
ChannelLog.v
ChannelStore.v
ChannelCopies.v
ChannelHistory.v
ChannelRoster.v
ChannelFanOut.v
ChannelSync.v
ChannelSubscriber.v
ChannelBook.v
SessionLog.v
SessionPages.v
SessionIndex.v
SessionPaths.v
SessionHandle.v
Compactor.v
CompactionDriver.v
Floor.v
Stamps.v
SessionTree.v
MemoryGate.v
Proposals.v
Dispatch.v
Ledger.v
Policy.v
Gate.v
Chain.v
Retry.v
Schedule.v
CronStore.v
CronTool.v
CronEngine.v
