(* ===== verification/Prelude.v ===== *)
(** * Verification of the Peko runtime

    Peko runs long-lived assistants ("pekos", or principals) on behalf of an
    owner.  People and other pekos talk to them; the runtime decides who a
    caller is, what a run acting for that caller may do, what it costs, how its
    history, plans and memory are kept, and when it wakes up by itself.  This
    library models those decisions as executable functions, translated from
    peko-rs/ under src/, and proves the properties that make them correct.
    Modelled code is pure or made explicit: state is passed, a fallible
    function returns [result] or [option], a panic or an endless loop is a
    value ([option], [Schedule.Run]), and tasks that interleave are steps of a
    relation or events of a list in any order.

    ** Parts and files

    - [Prelude] (this file): results and their bind, machine integers with
      saturation, binary64 through [SpecFloat], Rust strings as byte strings,
      list lemmas, the hint databases [peko] and [peko_str].
    - [Text]: the string operations of the Rust library the code uses (lines,
      words, trimming, replacing, decimal numbers) and their laws.
    - [Subject] (subject/src/lib.rs): actors and their routes, text and
      canonical forms, bridge claims, and the [ActorKeys] interface that
      decides when two actors are the same.
    - [Auth] (auth/src): module [Caller] (caller.rs, types.rs,
      permissions.rs), module [Ownership] (ownership.rs; a client of
      [ActorKeys]), module [RateLimit] (rate_limit.rs).
    - [Calendar]: the calendar interface quota windows need, with its laws, and
      module [Gregorian], an instance that satisfies them.
    - [Usage], [Quota] (message/src/lib.rs, quota/src): token counts; windows,
      charging, checking, persistence ([Persistence] is the interleaving of
      charging and writing tasks) and aggregation.
    - [Message] (message/src/lib.rs, repair.rs): messages and the repair of
      stored histories into what providers accept.
    - [Compaction] (session/src/compaction, image_budget.rs): modules
      [Boundaries], [Eviction] and [Rewrite], clients of [Message.wire_ok].
    - [Plan], [PlanDag] (plan/src/schema.rs): plan records, views and the
      dependency check; the proof that its depth-first search is exact.
    - [PlanStore] (plan/src/storage.rs, plan_port.rs and the plan tool in
      core/src/tools/builtin/plan): plans as files, every operation on them,
      histories of calls, and [tool_step], the interleaving of tool actions
      whose lookups may fail.
      [PlanJson] and [PlanJsonLaws] are the interface to the JSON codec.
    - [Host]: paths, JSON values, and the file system interface with the laws
      of [canonicalize].
    - [ActingFor] (tools-core/src/acting_for.rs): the stamp of a run.
    - Channels, where people and pekos talk (channel/src, protocol/src/
      channel.rs).  [ChannelWire]: ids, events and the data of the port.
      [Actors]: the registry of known actors.  [ChannelLog]: the paged,
      append-only log of a channel, with the interface [EventJson] to the JSON
      of a line.  [ChannelStore], [ChannelCopies]: the operations of the store
      on local channels and on copies shared with other runtimes, as state
      passing.  [ChannelHistory]: those operations as one machine, and the
      small logic ([moves], [wp]) that carries invariants through it.
      [ChannelRoster], [ChannelFanOut], [ChannelSync]: membership and posting,
      the cap on principals, copies that catch up.  [ChannelSubscriber]:
      cursors, read marks and one member's subscription.  [ChannelBook]:
      invitations, requests, blocked people and the forwards of moved DMs.
    - Sessions, where a run keeps its conversation (session/src).
      [SessionLog] (events.rs, message.rs, jsonl.rs): transcripts as files that
      are paged aside when they grow; [SessionJson] and [SessionJsonLaws] are
      the interface to the JSON of a line and [SessionCodec] an instance.
      [SessionPages] (pages.rs, message_conversion.rs, unified.rs): pages
      between compactions, retention, the history that is reloaded.
      [SessionIndex] (index.rs, metadata_controller.rs): the index of sessions
      and peers as several controllers with caches write it, in the monad [M].
      [SessionHandle] (unified.rs): an open session, the client of the three.
      [Compactor] (compaction/compaction_top.rs, summary_format.rs,
      background.rs): summarising the older part of a history, and the worker
      with its quotas.  [CompactionDriver] (engine/src/compaction_driver.rs):
      compaction within a run, a client of [Compactor] and of the interface
      [SessionView] with [SessionViewLaws], which [SessionHandle]'s session
      satisfies ([handle_laws]); driver, worker and loop are a step relation.
      [SessionPaths] (path.rs, core/src/session/ownership.rs): slugs, paths,
      callers and descendants.  [SessionTree] (core/src/session/
      session_runtime_impl.rs, manager.rs): the tool that renames, moves,
      copies and deletes sessions, over [SessionIndex] and [Stamps].
    - [Floor] (core/src/security/floor.rs and the stamp tests of
      memory_gate.rs and judge.rs): what no run may do below a trust.
    - [Stamps] (core/src/security/stamps.rs, core/src/principal/trust.rs): how
      stamps are derived, and which sessions a run sees; uses the actor keys of
      [Subject], the grants of [Auth] and the channel port as an interface.
    - [MemoryGate], [Proposals] (core/src/security/memory_gate.rs,
      proposals.rs): the entries of a memory file, their sources, the review of
      what they claim, and the inbox where refused changes are filed.
    - [Dispatch] (core/src/tools/dispatcher.rs): what a tool call passes
      through before its body runs: parameters, floor, paths, the [PolicyGate]
      interface with its cache of verdicts, and the screening of memory; where the file
      tools open or search and what they write (core/src/tools/builtin/fs).
    - [Ledger] (dispatcher.rs, core/src/security/ledger): the records around a
      call, and the race of a detached call with its dispatcher.
    - [Policy], [Gate] (core/src/security/policy.rs, judge.rs and
      core/src/principal/policy_gate.rs): the text of POLICY.md, the prompts and
      answers of the reviewer, approvals and replays; [Gate.principal_gate] is
      the instance of the interface [Dispatch] is a client of.
    - [Chain] (observability/src/chain.rs): the hash-chained log, torn writes
      and restarts included; the hash is a parameter.
    - [Retry] (provider-api/src, providers/src/transport, core/src/common/
      disruption.rs): rate-limit headers, the error message that carries them,
      the two classifiers of errors, the retry loop, the shared budget as a
      relation on racing callers, and the waits of parked runs.
    - [Schedule] (cron/src/tools/mod.rs, idle.rs): schedules, their next fire,
      the grid of an interval job and the idle detector; [Chrono] with
      [ChronoLaws] is the interface to chrono and the cron parser.
    - [CronStore] (cron/src/lib.rs): jobs, runs and the schedule file with all
      its operations; [StoreOp] and [store_run] are its histories.
    - [CronTool] (cron/src/tools, core/src/daemon/cron_runtime.rs): the six
      actions of the scheduling tool, written against the interface
      [CronRuntime]; [CronRuntimeLaws] states what the tool relies on, the
      daemon's adapter over one file per principal satisfies it
      ([daemon_laws]), and the theorems on the tool are proved from the laws.
    - [CronEngine] (core/src/daemon/cron_engine, core/src/principal/
      quiet_tick.rs): admission, outcomes and ends of runs, retry budgets,
      fires that wait, recovery, reconciliation and nudges; [EngineOp] gives
      the interleavings, whole fires and their parts.

    ** What the theorems show

    - Authority: the permission check is exact, the public is admitted only by
      a public grant, API keys stay in their scopes, actor texts read back when
      well formed, trust only falls along a chain of runs, a lower trust is
      never granted more, and a run sees exactly its compartment.
    - The floor: each file access is allowed, proposed or denied for stated
      reasons on the resolved path; resolution is idempotent and leaves no link
      to follow; no message can carry a runtime tag.
    - Calls: every file a dispatched call names was allowed by the floor (a
      search tool only at the directory its parameter [path] names: the files
      below it are not asked about, and [glob] may climb out of it), and every
      call was cleared by the floor and by the reviewer where one is due; calls
      are recorded before they run, and a detached one ends in order.
    - Memory and policy: what a plain write or an edit puts into hot memory
      cites the owner or was reviewed (appended and base64 writes escape the
      screen), the screen is exact and fails closed, it judges the file the
      edit would write; the policy keeps every rule; replays were approved.
    - The log: two intact logs with the same last hash agree or exhibit a
      collision, and what was written verifies after any torn writes.
    - Budgets: windows partition time, counters are exactly what was spent in
      the window (saturating at u64), verdicts are those of the limits, a
      crossed limit stays crossed, the file ends with the last counters, and
      the rate limiter grants limit plus burst and forgets unobservably.
    - Providers: the retry loop ends with the outcome its rules give, whatever
      other calls take of the shared permits, these are never oversubscribed, and rate-limit metadata survives its message.
    - Histories: repair always gives the provider shape, loses nothing said,
      and is the declarative repair; compaction, eviction and rewriting keep
      that shape.
    - Channels: the log reads back what was appended whatever was rotated, and
      through every history of operations (moves of DMs to new ids apart) logs
      only grow, except those of remote DMs that a purge drops, stay readable,
      keep their channel's identity and answer earlier lines; posting, leaving and
      joining have their exact effect, admins are the owner's choice, the cap
      on principals holds but for joined copies; a copy that catches up gets
      each post once unless the batch repeats it apart, a subscriber hears each
      event once; the registry always loads and keeps identities; block
      decisions of different times converge between runtimes.
    - Sessions: what is appended is read back, wherever the file was paged, and
      what is added to an open session ends the reloaded history; pages
      partition the transcript and keep their addresses under retention;
      controllers that share the index change only the session they write;
      attribution is inherited exactly; walks over the stored parents end
      whatever cycles they hold; the tool, through any managers that read the
      index afresh, keeps the tree acyclic and its slugs apart, deletes exactly
      a subtree the caller sees, and the paths it shows resolve; with a stale
      cache two moves can make a cycle.
    - Compaction: a compacted history is the system prompt, a summary and the
      end of the conversation, of the shape providers accept; what the user
      said is kept newest first; over all runs of a session, whatever the
      interleaving, boundaries are numbered consecutively and the
      compactions that the gate before a turn starts stop at the quotas, which
      those in the middle of a turn ignore; the summary reads the same when the
      session is opened again.
    - Plans: the dependency check is exact and terminates; stored plans stay
      acyclic under interleaved actions as long as no lookup fails before the
      check (one that does lets a cycle in), are isolated by principal, only
      grow, and never get stuck; completing a step has its exact effect.
    - Schedules: interval jobs keep their grid, a schedule file keeps its shape
      under every history, ended runs are history, a call of the tool is
      confined to the jobs its run may see, seeded jobs survive, conversations
      keep their quota; a job has one open row of a run at a time, the end of a run
      under its own retry budget settles the job exactly, held fires have a deadline, nudges a budget.
    - Some theorems record where the code falls short of its intent or its
      documentation; their comments say so.  Among them: a local id that reads
      back as a hub account, verdicts cached across principals, a detached call
      recorded as done, text of a call that rewrites the policy, a lost
      [Retry-After], intervals and delays that overflow, failed turns that are
      never deferred, a failed run that counts twice, a torn append that takes
      the next event with it, a displayed path that names another session,
      hidden sessions orphaned by a delete, tokens counted twice, messages lost
      to a compaction that was under way, a pre-turn compaction that stops for
      good, a retry budget that is three when none is set, and block decisions of one instant that diverge.

    ** Bounds and fuel

    Integers keep their width where it matters ([sat_add_u64], [u64_wrap],
    [Schedule.as_i64], [CronStore.incr_u32]).  Fuel is given by a bound proved
    sufficient in each place: [Plan.dfs_run] takes at most one step per node
    and per edge ([dfs_fuel]); the walks over session ancestors in [Stamps] one
    step more than there are sessions; [Floor.resolve_loop] one step per path
    component; the scans of [MemoryGate] and [Retry] one step per byte; the
    retry loop one attempt more than its retries; [Schedule.skip_slots] one
    test per slot up to the next; the walks of [SessionPaths] one step more
    than there are sessions ([walks_end] proves that none runs out), the
    attribution of [SessionIndex] one step per entry; [ChannelBook.follow]
    the four hops of the source; the walk over search pages of [ChannelLog]
    one call more than there are events.  A session has at most 2^32 - 1
    pages, which the theorems on paging take as a hypothesis on the last page
    number, and a channel log fewer than 2^32 - 1 events ([ChannelLog.
    page_numbers_bounded]); likewise fewer than 2^32 - 1 compactions of a session are assumed,
    as a premise of the worker's step.  Calendar theorems hold for the instants the calendar interface
    calls [supported], and those on schedules for instants chrono represents.

    ** Not modelled

    Third-party code is a parameter with named laws: chrono, serde_json, the
    file system, the hash, the JSON schema check, the cron parser.  What a
    model or a tool body answers is an input.  I/O failures other than
    absent or unreadable files and failed plan lookups, file locks, cryptography and tokens, network
    transports and wire formats, audit events, the terminal and the process
    set-up are left out; directories are keyed by file name, and paths are Unix
    paths; an operation reads the clock once.  Of channels, the live broadcast
    and the migrations that move or rekey DMs are left out; of sessions, search
    (it folds case in Unicode), the context cache, and creating, routing and
    listing sessions in the manager.  The tunnel that serves remote requests,
    the IPC handlers and the rest of the agentic loop are asynchronous glue
    around network streams, model output and the parts above; their state is
    in tasks and connections this library has no model of. *)

From Stdlib Require Import ZArith Lia Ascii.
From Stdlib Require Import Floats.SpecFloat Sorting.Sorted.
From stdpp Require Import base tactics list gmap strings.

Open Scope Z_scope.

(** ** Results of fallible code *)

Inductive result (A E : Type) : Type :=
  | Ok (a : A)
  | Err (e : E).
Arguments Ok {A E} a.
Arguments Err {A E} e.

Declare Scope rust_scope.
Delimit Scope rust_scope with rust.

Definition rbind {A B E} (c : result A E) (k : A -> result B E) : result B E :=
  match c with Ok a => k a | Err e => Err e end.

Notation "x <-? c ; k" := (rbind c (fun x => k))
  (at level 90, c at next level, right associativity) : rust_scope.
Definition ok_or {A E} (o : option A) (e : E) : result A E :=
  match o with Some a => Ok a | None => Err e end.

Definition is_some {A} (o : option A) : bool :=
  match o with Some _ => true | None => false end.

(** The first of two optional values that is present. *)
Definition or_else {A} (a b : option A) : option A :=
  match a with Some _ => a | None => b end.

Lemma or_else_None {A} (a b : option A) : or_else a b = None <-> a = None /\ b = None.
Proof. destruct a; cbn; naive_solver. Qed.

(** ** Machine integers *)

Definition u32_max : Z := 2 ^ 32 - 1.
Definition u64_max : Z := 2 ^ 64 - 1.
Definition is_u32 (x : Z) : Prop := 0 <= x <= u32_max.
Definition is_u64 (x : Z) : Prop := 0 <= x <= u64_max.

(** [u64::saturating_add]; [usize] is 64 bits wide here. *)
Definition sat_add_u64 (a b : Z) : Z := Z.min (a + b) u64_max.
Definition sat_sub_u64 (a b : Z) : Z := Z.max (a - b) 0.

Lemma u64_max_pos : 0 <= u64_max.
Proof. unfold u64_max; lia. Qed.

Lemma sat_add_u64_is_u64 a b : is_u64 a -> is_u64 b -> is_u64 (sat_add_u64 a b).
Proof. unfold is_u64, sat_add_u64; lia. Qed.

Lemma sat_add_u64_ge a b : is_u64 a -> 0 <= b -> a <= sat_add_u64 a b.
Proof. unfold is_u64, sat_add_u64; lia. Qed.

Lemma sat_add_u64_exact a b : a + b <= u64_max -> sat_add_u64 a b = a + b.
Proof. unfold sat_add_u64; lia. Qed.

Lemma sat_add_u64_assoc a b c : 0 <= a -> 0 <= b -> 0 <= c ->
  sat_add_u64 (sat_add_u64 a b) c = sat_add_u64 a (sat_add_u64 b c).
Proof. unfold sat_add_u64; lia. Qed.

Lemma sat_add_u64_comm a b : sat_add_u64 a b = sat_add_u64 b a.
Proof. unfold sat_add_u64; lia. Qed.

Lemma sumZ_perm (l l' : list Z) : l ≡ₚ l' -> foldr Z.add 0 l = foldr Z.add 0 l'.
Proof. induction 1; cbn; lia. Qed.

(** ** [f64]: IEEE-754 binary64, computed exactly *)

Definition f64 : Type := spec_float.
Definition f64_zero : f64 := S754_zero false.
Definition f64_add (a b : f64) : f64 := SFadd 53 1024 a b.
Definition f64_mul (a b : f64) : f64 := SFmul 53 1024 a b.
Definition f64_gt (a b : f64) : bool :=
  match SFcompare a b with Some Gt => true | _ => false end.
Definition f64_finite (a : f64) : bool :=
  match a with S754_zero _ | S754_finite _ _ _ => true | _ => false end.
(** The double nearest to the integer [n]. *)
Definition f64_of_Z (n : Z) : f64 := binary_normalize 53 1024 n 0 false.

Definition f64_div (a b : f64) : f64 := SFdiv 53 1024 a b.
(** [x.ceil() as usize]: not-a-number and negative values give 0, values past
    the range saturate. *)
Definition f64_ceil_usize (a : f64) : Z :=
  match a with
  | S754_zero _ | S754_nan => 0
  | S754_infinity s => if s then 0 else u64_max
  | S754_finite true _ _ => 0
  | S754_finite false m e =>
      Z.min u64_max
        (if 0 <=? e then Z.pos m * 2 ^ e else - ((- Z.pos m) / 2 ^ (- e)))
  end.

(** ** Rust [str] as byte strings *)

Fixpoint strip_prefix (p s : string) : option string :=
  match p, s with
  | EmptyString, _ => Some s
  | String a p', String b s' => if decide (a = b) then strip_prefix p' s' else None
  | String _ _, EmptyString => None
  end.

Definition starts_with (p s : string) : bool :=
  match strip_prefix p s with Some _ => true | None => false end.

(** [str::split_once] on a one-byte delimiter: the first occurrence. *)
Fixpoint split_once (c : ascii) (s : string) : option (string * string) :=
  match s with
  | EmptyString => None
  | String a s' =>
      if decide (a = c) then Some (EmptyString, s')
      else match split_once c s' with
           | Some (l, r) => Some (String a l, r)
           | None => None
           end
  end.

Fixpoint str_has (c : ascii) (s : string) : bool :=
  match s with
  | EmptyString => false
  | String a s' => if decide (a = c) then true else str_has c s'
  end.

Definition str_len (s : string) : Z := Z.of_nat (String.length s).

Definition is_upper (c : ascii) : bool :=
  let n := nat_of_ascii c in Nat.leb 65 n && Nat.leb n 90.
Definition ascii_lower (c : ascii) : ascii :=
  if is_upper c then ascii_of_nat (nat_of_ascii c + 32) else c.
Fixpoint to_ascii_lowercase (s : string) : string :=
  match s with
  | EmptyString => EmptyString
  | String a s' => String (ascii_lower a) (to_ascii_lowercase s')
  end.

Lemma app_nil_l_str s : ("" +:+ s) = s.
Proof. done. Qed.
Lemma app_cons_str a s t : (String a s +:+ t) = String a (s +:+ t).
Proof. done. Qed.
Lemma app_nil_r_str s : (s +:+ "") = s.
Proof. induction s as [|a s IH]; [done|]. by rewrite app_cons_str, IH. Qed.
Lemma app_assoc_str s t u : (s +:+ (t +:+ u)) = ((s +:+ t) +:+ u).
Proof. induction s as [|a s IH]; [done|]. by rewrite !app_cons_str, IH. Qed.
Lemma app_inj_l_str s t u : s +:+ t = s +:+ u -> t = u.
Proof.
  induction s as [|a s IH]; [done|].
  rewrite !app_cons_str; intros [=]; auto.
Qed.
Lemma length_app_str s t :
  String.length (s +:+ t) = (String.length s + String.length t)%nat.
Proof.
  induction s as [|a s IH]; [done|].
  rewrite app_cons_str; cbn [String.length]. by rewrite IH.
Qed.

Lemma strip_prefix_Some p s r : strip_prefix p s = Some r <-> s = p +:+ r.
Proof.
  revert s; induction p as [|a p IH]; intros s; cbn [strip_prefix].
  - rewrite app_nil_l_str. split; congruence.
  - destruct s as [|b s]; rewrite app_cons_str; [done|].
    case_decide; subst; [rewrite IH|]; split; congruence.
Qed.

Lemma strip_prefix_app p r : strip_prefix p (p +:+ r) = Some r.
Proof. by apply strip_prefix_Some. Qed.

Lemma starts_with_true p s : starts_with p s = true <-> exists r, s = p +:+ r.
Proof.
  unfold starts_with. destruct (strip_prefix p s) as [r|] eqn:E.
  - apply strip_prefix_Some in E. naive_solver.
  - split; [done|]. intros [r Hr]. apply strip_prefix_Some in Hr. congruence.
Qed.

Lemma strip_prefix_None p s : starts_with p s = false <-> strip_prefix p s = None.
Proof. unfold starts_with. by destruct (strip_prefix p s). Qed.

Lemma str_has_app c s t : str_has c (s +:+ t) = str_has c s || str_has c t.
Proof.
  induction s as [|a s IH]; [done|].
  rewrite app_cons_str; cbn [str_has]. by case_decide.
Qed.

Lemma split_once_split c s l r :
  split_once c s = Some (l, r) -> s = l +:+ String c r /\ str_has c l = false.
Proof.
  revert l; induction s as [|a s IH]; intros l; cbn [split_once]; [done|].
  case_decide as Hac; [subst; by intros [= <- <-]|].
  destruct (split_once c s) as [[l' r']|]; [|done].
  intros [= <- <-]. destruct (IH l' eq_refl) as [-> Hl'].
  rewrite app_cons_str; cbn [str_has]. by rewrite decide_False.
Qed.

Lemma split_once_app c l r :
  str_has c l = false -> split_once c (l +:+ String c r) = Some (l, r).
Proof.
  induction l as [|a l IH]; intros H.
  - rewrite app_nil_l_str; cbn [split_once]. by rewrite decide_True.
  - rewrite app_cons_str; cbn [split_once]. cbn [str_has] in H.
    case_decide; [done|]. by rewrite IH.
Qed.

Lemma split_once_Some c s l r :
  split_once c s = Some (l, r) <-> s = l +:+ String c r /\ str_has c l = false.
Proof.
  split; [apply split_once_split|]. intros [-> H]. by apply split_once_app.
Qed.

Lemma split_once_None c s : split_once c s = None <-> str_has c s = false.
Proof.
  induction s as [|a s IH]; [done|]. cbn [split_once str_has].
  case_decide; [done|]. rewrite <- IH. by destruct (split_once c s) as [[]|].
Qed.

(** ** Slices *)

(** [iter().position(p)]. *)
Fixpoint position {A} (p : A -> bool) (l : list A) : option nat :=
  match l with
  | [] => None
  | x :: l => if p x then Some 0%nat else S <$> position p l
  end.

Lemma position_Some {A} (p : A -> bool) l i :
  position p l = Some i -> exists x, l !! i = Some x /\ p x = true.
Proof.
  revert i. induction l as [|x l IH]; intros i; cbn [position]; [done|].
  destruct (p x) eqn:E; [intros [= <-]; eauto|].
  destruct (position p l) as [j|]; [|done]. intros [= <-]. by apply IH.
Qed.

(** [Vec::remove(i)] for an index in range. *)
Lemma delete_length {A} (l : list A) i x :
  l !! i = Some x -> S (length (delete i l)) = length l.
Proof.
  intros H. rewrite length_delete by eauto. apply lookup_lt_Some in H. lia.
Qed.

(** ** Stable sorting: [sort_by], [sort_by_key] *)

Fixpoint insert_by {A} (le : A -> A -> bool) (x : A) (l : list A) : list A :=
  match l with
  | [] => [x]
  | y :: l => if le x y then x :: y :: l else y :: insert_by le x l
  end.
(** [le] is a total preorder; equal elements keep their order. *)
Fixpoint sort_by {A} (le : A -> A -> bool) (l : list A) : list A :=
  match l with [] => [] | x :: l => insert_by le x (sort_by le l) end.

Lemma insert_by_perm {A} (le : A -> A -> bool) x l : insert_by le x l ≡ₚ x :: l.
Proof.
  induction l as [|y l IH]; cbn [insert_by]; [done|]. destruct (le x y); [done|].
  rewrite IH. apply Permutation_swap.
Qed.
Lemma sort_by_perm {A} (le : A -> A -> bool) l : sort_by le l ≡ₚ l.
Proof. induction l as [|x l IH]; cbn [sort_by]; [done|]. by rewrite insert_by_perm, IH. Qed.

Lemma existsb_same {A} (f g : A -> bool) l : (forall x, f x = g x) -> existsb f l = existsb g l.
Proof. intros H. induction l as [|x l IH]; [done|]. cbn. by rewrite H, IH. Qed.

Section Sorted.
  Context {A : Type} (le : A -> A -> bool)
    (le_total : forall a b, le a b = true \/ le b a = true)
    (le_trans : forall a b c, le a b = true -> le b c = true -> le a c = true).

Lemma insert_by_sorted x l :
  StronglySorted (fun a b => le a b = true) l -> StronglySorted (fun a b => le a b = true) (insert_by le x l).
Proof.
  induction 1 as [|y l Hs IH Hf]; cbn [insert_by]; [by repeat constructor|].
  destruct (le x y) eqn:E.
  - constructor; [by constructor|]. constructor; [done|].
    eapply Forall_impl; [exact Hf|]. cbn. eauto.
  - constructor; [done|]. rewrite insert_by_perm. constructor; [|done].
    destruct (le_total x y); congruence.
Qed.
Lemma sort_by_sorted l : StronglySorted (fun a b => le a b = true) (sort_by le l).
Proof. induction l; cbn [sort_by]; [constructor|]. by apply insert_by_sorted. Qed.
End Sorted.

(** Passes a guard [if b then Err _ else _] that did not fail. *)
Ltac guard_in H :=
  match type of H with
  | (if ?b then Err _ else _) = Ok _ =>
      let E := fresh "Hg" in destruct b eqn:E; [discriminate H|]
  end.
(** Takes apart a bind that succeeded. *)
Ltac bind_in H x :=
  match type of H with
  | rbind ?c _ = Ok _ =>
      let E := fresh "Hb" in destruct c as [x|?] eqn:E; cbn [rbind] in H; [|discriminate H]
  end.

Create HintDb peko.
Create Rewrite HintDb peko_str.
#[export] Hint Rewrite app_nil_l_str app_cons_str app_nil_r_str
  strip_prefix_app str_has_app : peko_str.
#[export] Hint Resolve u64_max_pos sat_add_u64_is_u64 sat_add_u64_ge : peko.

(** ** Binary text

    A self-delimiting text for positive numbers, used where a theorem about a
    stored document is applied to a concrete encoding. *)

Fixpoint bits (p : positive) : string :=
  match p with
  | xH => EmptyString
  | xO p => String "0" (bits p)
  | xI p => String "1" (bits p)
  end.
Fixpoint unbits (s : string) : positive :=
  match s with
  | EmptyString => xH
  | String c s => if decide (c = "0"%char) then xO (unbits s) else xI (unbits s)
  end.
Lemma unbits_bits p : unbits (bits p) = p.
Proof. induction p; cbn; by f_equal. Qed.
Lemma bits_has c p : c <> "0"%char -> c <> "1"%char -> str_has c (bits p) = false.
Proof. intros H0 H1. induction p; cbn; [rewrite decide_False by done..|]; done. Qed.
