(* ===== verification/Text.v ===== *)
(** * Text: the parts of [str] the components share

    Rust strings are UTF-8; here they are byte strings, and the functions
    below are the ones of [std::str] the source calls: white space, [trim],
    [split_whitespace], [lines], [trim_matches], characters and their
    boundaries, [matches]/[replace] and [parse::<usize>].  The lemmas say what
    a text keeps when it is trimmed, split and joined again. *)

From Stdlib Require Import ZArith Lia Ascii.
From stdpp Require Import base tactics list strings pretty.
From S2P Require Import Prelude.

Local Open Scope nat_scope.

(** ** White space *)

(** Unicode white space at the head of UTF-8 text: its length in bytes. *)
Definition white_prefix (s : string) : option nat :=
  let code c := N_of_ascii c in
  match s with
  | String a s1 =>
      if ((9 <=? code a) && (code a <=? 13) || (code a =? 32))%N then Some 1
      else match s1 with
      | String b s2 =>
          if ((code a =? 0xC2) && ((code b =? 0x85) || (code b =? 0xA0)))%N then Some 2
          else match s2 with
          | String c _ =>
              if ((code a =? 0xE1) && (code b =? 0x9A) && (code c =? 0x80)
                  || (code a =? 0xE2) && (code b =? 0x80)
                     && ((0x80 <=? code c) && (code c <=? 0x8A)
                         || (code c =? 0xA8) || (code c =? 0xA9) || (code c =? 0xAF))
                  || (code a =? 0xE2) && (code b =? 0x81) && (code c =? 0x9F)
                  || (code a =? 0xE3) && (code b =? 0x80) && (code c =? 0x80))%N
              then Some 3 else None
          | _ => None
          end
      | _ => None
      end
  | EmptyString => None
  end.

(** [s.trim().is_empty()]: only white space. *)
Fixpoint is_blank (s : string) : bool :=
  match s with
  | EmptyString => true
  | String _ s1 =>
      match white_prefix s with
      | Some 1 => is_blank s1
      | Some 2 => match s1 with String _ s2 => is_blank s2 | _ => false end
      | Some 3 => match s1 with String _ (String _ s3) => is_blank s3 | _ => false end
      | _ => false
      end
  end.

Definition LF : ascii := "010"%char.
Definition CR : ascii := "013"%char.

Fixpoint drop_last_cr (s : string) : string :=
  match s with
  | EmptyString => EmptyString
  | String c EmptyString => if Ascii.eqb c CR then EmptyString else s
  | String c s => String c (drop_last_cr s)
  end.

(** [s.split('\n')]. *)
Fixpoint split_lines (s : string) : list string :=
  match s with
  | EmptyString => [EmptyString]
  | String c s =>
      if Ascii.eqb c LF then EmptyString :: split_lines s
      else match split_lines s with
           | l :: ls => String c l :: ls
           | [] => [String c EmptyString]
           end
  end.

(** [str::lines]: the text after the last line break is a line of its own,
    kept as it is, unless it is empty. *)
Fixpoint end_lines (l : list string) : list string :=
  match l with
  | [] => []
  | [last] => match last with EmptyString => [] | _ => [last] end
  | line :: l => drop_last_cr line :: end_lines l
  end.
Definition lines (s : string) : list string := end_lines (split_lines s).

Fixpoint drop_bytes (n : nat) (s : string) : string :=
  match n, s with
  | S n, String _ s => drop_bytes n s
  | _, _ => s
  end.
Fixpoint take_bytes (n : nat) (s : string) : string :=
  match n, s with
  | S n, String a s => String a (take_bytes n s)
  | _, _ => EmptyString
  end.

(** [str::trim_start]: [skip] bytes of the white-space character at hand are
    still to be dropped. *)
Fixpoint trim_start_from (skip : nat) (s : string) : string :=
  match s with
  | EmptyString => EmptyString
  | String _ s1 =>
      match skip with
      | S k => trim_start_from k s1
      | O => match white_prefix s with
             | Some n => trim_start_from (pred n) s1
             | None => s
             end
      end
  end.
Definition trim_start : string -> string := trim_start_from 0.

(** [str::trim_end]: the text up to the first place after which all is blank. *)
Fixpoint trim_end (s : string) : string :=
  match s with
  | EmptyString => EmptyString
  | String a s1 => if is_blank s then EmptyString else String a (trim_end s1)
  end.
Definition trim (s : string) : string := trim_end (trim_start s).

(** The words of a text with [skip] bytes of a white-space character still to
    be dropped: the word in progress and those after it. *)
Definition push_word (w : string) (ws : list string) : list string :=
  match w with EmptyString => ws | _ => w :: ws end.
Fixpoint words_from (skip : nat) (s : string) : string * list string :=
  match s with
  | EmptyString => (EmptyString, [])
  | String a s1 =>
      match skip with
      | S k => words_from k s1
      | O =>
          match white_prefix s with
          | Some n => let '(w, ws) := words_from (pred n) s1 in (EmptyString, push_word w ws)
          | None => let '(w, ws) := words_from 0 s1 in (String a w, ws)
          end
      end
  end.
(** [str::split_whitespace]. *)
Definition split_whitespace (s : string) : list string :=
  let '(w, ws) := words_from 0 s in push_word w ws.

(** [slice::join]. *)
Fixpoint join_with (sep : string) (l : list string) : string :=
  match l with
  | [] => EmptyString
  | [s] => s
  | s :: l => s +:+ sep +:+ join_with sep l
  end.

(** ** Patterns *)

(** [str::trim_start_matches] on a list of characters, each given by its
    bytes. *)
Fixpoint trim_start_matches_from (chars : list string) (skip : nat) (s : string) : string :=
  match s with
  | EmptyString => EmptyString
  | String _ s1 =>
      match skip with
      | S k => trim_start_matches_from chars k s1
      | O => match List.find (fun c => starts_with c s) chars with
             | Some c => trim_start_matches_from chars (pred (String.length c)) s1
             | None => s
             end
      end
  end.
Definition trim_start_matches (chars : list string) : string -> string := trim_start_matches_from chars 0.

Fixpoint all_bytes (p : ascii -> bool) (s : string) : bool :=
  match s with EmptyString => true | String a s => p a && all_bytes p s end.

(** [str::trim_end_matches] on an ASCII character. *)
Fixpoint trim_end_matches (c : ascii) (s : string) : string :=
  match s with
  | EmptyString => EmptyString
  | String a s1 => if all_bytes (Ascii.eqb c) s then EmptyString else String a (trim_end_matches c s1)
  end.
(** [str::trim_matches] on an ASCII character. *)
Definition trim_matches (c : ascii) (s : string) : string :=
  trim_end_matches c (trim_start_matches [String c EmptyString] s).

(** [str::split] on ASCII characters. *)
Fixpoint split_any (p : ascii -> bool) (s : string) : list string :=
  match s with
  | EmptyString => [EmptyString]
  | String a s =>
      if p a then EmptyString :: split_any p s
      else match split_any p s with
           | l :: ls => String a l :: ls
           | [] => [String a EmptyString]
           end
  end.

(** The length of the run of ASCII characters [p] holds of, at the head. *)
Fixpoint run_length (p : ascii -> bool) (s : string) : nat :=
  match s with
  | EmptyString => 0
  | String a s => if p a then S (run_length p s) else 0
  end.

(** [str::matches(p).count()] for a non-empty [p]: non-overlapping, from the
    left.  [skip] bytes of the last match are still to be passed. *)
Fixpoint count_from (p : string) (skip : nat) (s : string) : nat :=
  match s with
  | EmptyString => 0
  | String _ s1 =>
      match skip with
      | S k => count_from p k s1
      | O => if starts_with p s then S (count_from p (pred (String.length p)) s1)
             else count_from p 0 s1
      end
  end.
Definition matches_count (p s : string) : nat := count_from p 0 s.

(** [str::replacen(p, new, n)] for a non-empty [p]; [str::replace] is the same
    without the bound. *)
Fixpoint replace_from (p new : string) (n : option nat) (skip : nat) (s : string) : string :=
  match s with
  | EmptyString => EmptyString
  | String a s1 =>
      match skip with
      | S k => replace_from p new n k s1
      | O =>
          if starts_with p s && negb (bool_decide (n = Some 0))
          then new +:+ replace_from p new (option_map pred n) (pred (String.length p)) s1
          else String a (replace_from p new n 0 s1)
      end
  end.
Definition replacen (s p new : string) (n : nat) : string := replace_from p new (Some n) 0 s.
Definition replace (s p new : string) : string := replace_from p new None 0 s.

(** ** Characters *)

Definition is_continuation (a : ascii) : bool :=
  ((0x80 <=? N_of_ascii a) && (N_of_ascii a <=? 0xBF))%N.

(** [str::chars], each character as its bytes: a byte with the continuation
    bytes behind it. *)
Fixpoint chars (s : string) : list string :=
  match s with
  | EmptyString => []
  | String a s1 =>
      match s1 with
      | String b _ =>
          if is_continuation b
          then match chars s1 with c :: cs => String a c :: cs | [] => [] end
          else String a EmptyString :: chars s1
      | EmptyString => [String a EmptyString]
      end
  end.

(** [str::is_char_boundary]. *)
Definition is_char_boundary (s : string) (n : nat) : bool :=
  (n =? 0) ||
  match drop_bytes n s with
  | EmptyString => n =? String.length s
  | String a _ => negb (is_continuation a)
  end.

(** ** Numbers *)

Definition is_ascii_alphanumeric (a : ascii) : bool :=
  let n := N_of_ascii a in
  ((48 <=? n) && (n <=? 57) || (65 <=? n) && (n <=? 90) || (97 <=? n) && (n <=? 122))%N.
(** [str::ends_with]. *)
Definition ends_with (suffix s : string) : bool :=
  String.eqb (drop_bytes (String.length s - String.length suffix) s) suffix.

(** [str::strip_suffix]. *)
Definition strip_suffix (p s : string) : option string :=
  let n := String.length s - String.length p in
  if (String.length p <=? String.length s) && String.eqb (drop_bytes n s) p then Some (take_bytes n s) else None.

Definition is_digit (a : ascii) : bool :=
  ((48 <=? N_of_ascii a) && (N_of_ascii a <=? 57))%N.
Definition digit_value (a : ascii) : Z := Z.of_N (N_of_ascii a - 48).
Fixpoint digits_value (acc : Z) (s : string) : Z :=
  match s with
  | EmptyString => acc
  | String a s => digits_value (acc * 10 + digit_value a) s
  end.
(** [parse::<usize>] on a 64-bit host: an optional [+], then digits. *)
Definition parse_usize (s : string) : option Z :=
  let d := default s (strip_prefix "+" s) in
  match d with
  | EmptyString => None
  | _ => if all_bytes is_digit d && (digits_value 0 d <=? u64_max)%Z
         then Some (digits_value 0 d) else None
  end.

(** [parse::<u32>]. *)
Definition parse_u32 (s : string) : option Z :=
  match parse_usize s with Some n => if (n <=? u32_max)%Z then Some n else None | None => None end.
(** [to_string] of an unsigned integer. *)
Definition dec (n : Z) : string := pretty (Z.to_N n).

(** ** Searching *)

(** [str::contains]. *)
Fixpoint contains_str (p s : string) : bool :=
  starts_with p s || match s with EmptyString => false | String _ s => contains_str p s end.
Definition contains_any (s : string) (needles : list string) : bool := existsb (fun n => contains_str n s) needles.
(** What stands before and after the first occurrence of [p], as [find] gives
    it. *)
Fixpoint split_at_str (p s : string) : option (string * string) :=
  match strip_prefix p s with
  | Some rest => Some (EmptyString, rest)
  | None =>
      match s with
      | EmptyString => None
      | String c s => match split_at_str p s with Some (l, r) => Some (String c l, r) | None => None end
      end
  end.

(** ** Lemmas *)

Lemma join_cons sep x l : l <> [] -> join_with sep (x :: l) = x +:+ sep +:+ join_with sep l.
Proof. by destruct l. Qed.
Lemma join_app sep a b :
  a <> [] -> b <> [] -> join_with sep (a ++ b) = join_with sep a +:+ sep +:+ join_with sep b.
Proof.
  intros Ha Hb. induction a as [|x a IH]; [done|]. destruct (decide (a = [])) as [->|Hn].
  - cbn [app]. by rewrite join_cons.
  - rewrite <- app_comm_cons, !join_cons, IH; [by rewrite <- !app_assoc_str|done|done|by destruct a].
Qed.

Lemma split_any_nonempty p s : split_any p s <> [].
Proof. destruct s as [|a s]; cbn; [done|]. destruct (p a); [done|]. by destruct (split_any p s). Qed.
Lemma split_any_sep p a c b : p c = true -> split_any p (a +:+ String c b) = split_any p a ++ split_any p b.
Proof.
  intros Hc. induction a as [|x a IH]; rewrite ?app_nil_l_str, ?app_cons_str; cbn [split_any]; [by rewrite Hc|].
  rewrite IH. destruct (p x); [done|].
  destruct (split_any p a) as [|l ls] eqn:E; [by apply split_any_nonempty in E|done].
Qed.
Lemma split_any_pieces p s : Forall (fun w => all_bytes (fun a => negb (p a)) w = true) (split_any p s).
Proof.
  induction s as [|a s IH]; cbn; [by repeat constructor|]. destruct (p a) eqn:Ha; [by constructor|].
  destruct (split_any p s) as [|l ls]; [by repeat constructor; cbn; rewrite Ha|].
  inversion_clear IH. constructor; [|done]. cbn. by rewrite Ha.
Qed.
Lemma split_any_alone p s : all_bytes (fun a => negb (p a)) s = true -> split_any p s = [s].
Proof.
  induction s as [|a s IH]; cbn; [done|]. intros [Ha%negb_true_iff Hs]%andb_prop. by rewrite Ha, (IH Hs).
Qed.
Lemma split_any_join p c l : p c = true -> l <> [] -> Forall (fun w => all_bytes (fun a => negb (p a)) w = true) l ->
  split_any p (join_with (String c EmptyString) l) = l.
Proof.
  intros Hc Hl Hp. induction Hp as [|w l Hw Hp IH]; [done|]. destruct l as [|w' l]; [by apply split_any_alone|].
  rewrite join_cons by done. change (String c EmptyString +:+ join_with (String c EmptyString) (w' :: l))
    with (String c (join_with (String c EmptyString) (w' :: l))).
  by rewrite split_any_sep, (split_any_alone p w), IH by done.
Qed.

(** *** White space *)

Definition SPACE : ascii := " "%char.

(** White space is recognised by the bytes of one character, so what follows
    a word does not change where the word ends. *)
Lemma white_prefix_length s n : white_prefix s = Some n -> 1 <= n /\ n <= String.length s.
Proof.
  destruct s as [|a [|b [|c s]]]; cbn [white_prefix String.length]; intros H; try done;
    repeat case_match; simplify_eq; lia.
Qed.
Lemma white_prefix_app s t n : white_prefix s = Some n -> white_prefix (s +:+ t) = Some n.
Proof.
  destruct s as [|a [|b [|c s]]]; rewrite ?app_cons_str, ?app_nil_l_str; cbn [white_prefix]; intros H; try done;
    repeat case_match; simplify_eq; done.
Qed.
Lemma white_head c b n : white_prefix (String c b) = Some n -> (N_of_ascii c <= 32 \/ 0xC2 <= N_of_ascii c)%N.
Proof.
  unfold white_prefix. intros H. destruct (N.le_gt_cases (N_of_ascii c) 32) as [|Hc]; [by left|right].
  destruct (N.le_gt_cases 0xC2 (N_of_ascii c)) as [|Hd]; [done|exfalso].
  revert H. rewrite (proj2 (N.leb_gt _ 13)), (proj2 (N.eqb_neq _ 32)) by lia. rewrite andb_false_r. cbn [orb].
  rewrite (proj2 (N.eqb_neq _ 0xC2)), (proj2 (N.eqb_neq _ 0xE1)), (proj2 (N.eqb_neq _ 0xE2)),
    (proj2 (N.eqb_neq _ 0xE3)) by lia. cbn [andb orb]. by destruct b as [|? [|??]].
Qed.
Lemma not_continuation_code c k :
  (N_of_ascii c <= 32 \/ 0xC2 <= N_of_ascii c)%N -> (0x80 <= k <= 0xBF)%N -> (N_of_ascii c =? k)%N = false.
Proof. intros. apply N.eqb_neq. lia. Qed.
Lemma white_prefix_break s b n :
  white_prefix s = None -> s <> EmptyString -> white_prefix b = Some n -> white_prefix (s +:+ b) = None.
Proof.
  intros H Hs Hb. destruct b as [|c t]; [done|]. pose proof (white_head _ _ _ Hb) as Hc. clear Hb.
  destruct s as [|a [|b [|d s]]]; rewrite ?app_cons_str, ?app_nil_l_str; [done|..];
    unfold white_prefix in *; cbn beta zeta in *; revert H; (destruct (_ || _) eqn:E1; [done|]); intros H; clear E1; [..|exact H].
  - rewrite !(not_continuation_code c) by lia. rewrite andb_false_r.
    destruct t; [done|]. by rewrite !andb_false_r.
  - revert H; destruct (_ && _); [done|]; intros _.
    assert (Hr : ((0x80 <=? N_of_ascii c) && (N_of_ascii c <=? 0x8A))%N = false)
      by (apply andb_false_iff; rewrite !N.leb_gt; lia).
    rewrite Hr, !(not_continuation_code c) by lia. cbn [orb]. by rewrite !andb_false_r.
Qed.

(** A word: not a byte of it starts a white-space character. *)
Fixpoint solid (s : string) : bool :=
  match s with
  | EmptyString => true
  | String _ s1 => negb (is_some (white_prefix s)) && solid s1
  end.

Lemma words_from_solid skip s w ws :
  words_from skip s = (w, ws) -> solid w = true /\ Forall (fun w => solid w = true /\ w <> EmptyString) ws
                                /\ (skip = 0 -> exists t, s = w +:+ t).
Proof.
  revert skip w ws. induction s as [|a s IH]; intros skip w ws H; [by simplify_eq/=; split_and!; [..|exists EmptyString]|].
  cbn [words_from] in H. destruct skip as [|k]; [|destruct (IH _ _ _ H) as (?&?&_); by split_and!].
  destruct (white_prefix (String a s)) as [n|] eqn:Hw.
  - destruct (words_from (pred n) s) as [v vs] eqn:Hv. simplify_eq. destruct (IH _ _ _ Hv) as (Hs&Hvs&_).
    split_and!; [done| |intros _; by exists (String a s)].
    destruct v; [done|by constructor].
  - destruct (words_from 0 s) as [v vs] eqn:Hv. simplify_eq. destruct (IH _ _ _ Hv) as (Hs&Hvs&Ht).
    destruct (Ht eq_refl) as [t ->]. split_and!; [|done|intros _; exists t; by rewrite app_cons_str].
    cbn [solid]. rewrite Hs, andb_true_r. destruct (white_prefix (String a v)) eqn:E; [|done].
    apply white_prefix_app with (t := t) in E. rewrite app_cons_str in E. congruence.
Qed.

Lemma split_whitespace_solid s : Forall (fun w => solid w = true /\ w <> EmptyString) (split_whitespace s).
Proof.
  unfold split_whitespace. destruct (words_from 0 s) as [w ws] eqn:H.
  apply words_from_solid in H as (Hs & Hws & _). destruct w; [done|by constructor].
Qed.

(** Text that starts with white space, or none at all, starts no word's rest. *)
Definition breaks (b : string) : Prop := b = EmptyString \/ is_Some (white_prefix b).

Lemma push_word_app w ws vs : push_word w (ws ++ vs) = push_word w ws ++ vs.
Proof. by destruct w. Qed.
Lemma words_from_break b : breaks b -> words_from 0 b = (EmptyString, split_whitespace b).
Proof.
  intros [-> | [n Hn]]; [done|]. unfold split_whitespace. destruct b as [|c b]; [done|].
  cbn [words_from]. rewrite Hn. by destruct (words_from (pred n) b).
Qed.

Lemma words_from_app skip s b :
  breaks b -> skip <= String.length s ->
  words_from skip (s +:+ b) = let '(w, ws) := words_from skip s in (w, ws ++ split_whitespace b).
Proof.
  intros Hb. revert skip. induction s as [|a s IH]; intros skip Hl; cbn [String.length] in Hl.
  - assert (skip = 0) as -> by lia. rewrite app_nil_l_str. by rewrite words_from_break.
  - rewrite app_cons_str. cbn [words_from]. destruct skip as [|k]; [|apply IH; lia].
    destruct (white_prefix (String a s)) as [n|] eqn:Hw.
    + rewrite <- app_cons_str, (white_prefix_app _ _ _ Hw). apply white_prefix_length in Hw. cbn [String.length] in Hw.
      rewrite IH by lia. destruct (words_from (pred n) s). by rewrite push_word_app.
    + assert (Hn : white_prefix (String a (s +:+ b)) = None).
      { rewrite <- app_cons_str. destruct Hb as [-> | [m Hm]]; [by rewrite app_nil_r_str|by eapply white_prefix_break]. }
      rewrite Hn, IH by lia. by destruct (words_from 0 s).
Qed.

Lemma split_whitespace_app s b : breaks b -> split_whitespace (s +:+ b) = split_whitespace s ++ split_whitespace b.
Proof.
  intros Hb. unfold split_whitespace at 1 2. rewrite words_from_app by (done || lia).
  destruct (words_from 0 s). apply push_word_app.
Qed.

Lemma split_whitespace_byte c s : white_prefix (String c s) = Some 1 -> split_whitespace (String c s) = split_whitespace s.
Proof.
  intros H. unfold split_whitespace. cbn [words_from]. rewrite H. cbn [pred]. by destruct (words_from 0 s).
Qed.
Lemma split_whitespace_line s t : split_whitespace (s +:+ String LF t) = split_whitespace s ++ split_whitespace t.
Proof. rewrite split_whitespace_app by (right; by eexists). by rewrite split_whitespace_byte. Qed.

Lemma words_from_end w : solid w = true -> words_from 0 w = (w, []).
Proof.
  induction w as [|a w IH]; [done|]. cbn [solid words_from]. intros [Ha Hs]%andb_true_iff.
  destruct (white_prefix (String a w)); [done|]. by rewrite IH.
Qed.

(** Joining words and splitting them gives them back. *)
Lemma split_whitespace_join ws :
  Forall (fun w => solid w = true /\ w <> EmptyString) ws -> split_whitespace (join_with " " ws) = ws.
Proof.
  induction 1 as [|w ws [Hs Hn] Hws IH]; [done|]. destruct ws as [|v ws].
  - cbn [join_with]. unfold split_whitespace. rewrite words_from_end by done. by destruct w.
  - rewrite join_cons by done. change (" " +:+ join_with " " (v :: ws)) with (String SPACE (join_with " " (v :: ws))).
    rewrite split_whitespace_app by (right; by eexists). rewrite split_whitespace_byte by done. rewrite IH.
    unfold split_whitespace. rewrite words_from_end by done. by destruct w.
Qed.

(** A text's words, line by line. *)
Lemma split_whitespace_lines ls : split_whitespace (join_with (String LF EmptyString) ls) = concat (map split_whitespace ls).
Proof.
  induction ls as [|l ls IH]; [done|]. destruct ls as [|m ls].
  - cbn [join_with map concat]. by rewrite app_nil_r.
  - rewrite join_cons by done. rewrite app_cons_str, app_nil_l_str, split_whitespace_line, IH. done.
Qed.

Lemma words_from_skip k s : words_from k s = words_from 0 (drop_bytes k s).
Proof.
  revert s. induction k as [|k IH]; intros s; [by destruct s|]. destruct s as [|a s]; [done|]. cbn [words_from drop_bytes]. apply IH.
Qed.

Lemma is_blank_unfold s :
  is_blank s = match s with
               | EmptyString => true
               | _ => match white_prefix s with Some n => is_blank (drop_bytes n s) | None => false end
               end.
Proof.
  destruct s as [|a s]; [done|]. cbn [is_blank]. destruct (white_prefix (String a s)) as [n|] eqn:H; [|done].
  pose proof (white_prefix_length _ _ H) as [H1 H2]. cbn [String.length] in H2.
  assert (n <= 3) by (revert H; unfold white_prefix; repeat case_match; intros; simplify_eq; lia).
  destruct n as [|[|[|[|n]]]]; [lia|by destruct s|..|lia].
  - destruct s as [|b s]; cbn in H2; [lia|]. by destruct s.
  - destruct s as [|b [|c s]]; cbn in H2; [lia..|]. by destruct s.
Qed.

Lemma drop_bytes_length n s : String.length (drop_bytes n s) = String.length s - n.
Proof. revert s. induction n as [|n IH]; intros [|a s]; cbn; rewrite ?IH; lia. Qed.

Lemma is_blank_words s : is_blank s = true -> breaks s /\ split_whitespace s = [].
Proof.
  remember (String.length s) as k eqn:Hk. revert s Hk.
  induction k as [k IH] using lt_wf_ind; intros s -> Hb. rewrite is_blank_unfold in Hb.
  destruct s as [|a s]; [split; [by left|done]|]. destruct (white_prefix (String a s)) as [n|] eqn:Hw; [|done].
  split; [right; by eexists|]. pose proof (white_prefix_length _ _ Hw) as [H1 H2].
  destruct (IH (String.length (drop_bytes n (String a s)))
              ltac:(rewrite drop_bytes_length; cbn [String.length] in *; lia) _ eq_refl Hb) as [_ Hs].
  revert Hs. unfold split_whitespace. cbn [words_from]. rewrite Hw. destruct n as [|n]; [lia|]. cbn [pred drop_bytes].
  rewrite (words_from_skip n). by destruct (words_from 0 (drop_bytes n s)).
Qed.

Lemma trim_end_split s : exists b, s = trim_end s +:+ b /\ is_blank b = true.
Proof.
  induction s as [|a s (b & Hs & Hb)]; [by exists EmptyString|]. cbn [trim_end].
  destruct (is_blank (String a s)) eqn:E; [by exists (String a s)|].
  exists b. rewrite app_cons_str. by rewrite <- Hs.
Qed.
Lemma split_whitespace_trim_end s : split_whitespace (trim_end s) = split_whitespace s.
Proof.
  destruct (trim_end_split s) as (b & Hs & [Hb Hw]%is_blank_words).
  rewrite Hs at 2. by rewrite split_whitespace_app, Hw, app_nil_r.
Qed.

Lemma split_whitespace_trim_from k s :
  split_whitespace (trim_start_from k s) = let '(w, ws) := words_from k s in push_word w ws.
Proof.
  revert k. induction s as [|a s IH]; intros k; [done|]. cbn [trim_start_from words_from].
  destruct k as [|k]; [|apply IH]. destruct (white_prefix (String a s)) as [n|] eqn:Hw.
  - rewrite IH. by destruct (words_from (pred n) s).
  - unfold split_whitespace. cbn [words_from]. rewrite Hw. by destruct (words_from 0 s).
Qed.
Lemma split_whitespace_trim s : split_whitespace (trim s) = split_whitespace s.
Proof. unfold trim. rewrite split_whitespace_trim_end. apply split_whitespace_trim_from. Qed.

(** *** Lines *)

Lemma split_lines_not_nil s : split_lines s <> [].
Proof. destruct s as [|a s]; [done|]. cbn. destruct (Ascii.eqb a LF); [done|]. by destruct (split_lines s). Qed.
Lemma split_lines_app s t : split_lines (s +:+ String LF t) = split_lines s ++ split_lines t.
Proof.
  induction s as [|a s IH]; [done|]. rewrite app_cons_str. cbn [split_lines]. rewrite IH.
  destruct (Ascii.eqb a LF); [done|]. by destruct (split_lines s) eqn:E; [apply split_lines_not_nil in E|].
Qed.
Lemma split_lines_one s : str_has LF s = false -> split_lines (s +:+ String LF EmptyString) = [s; EmptyString].
Proof.
  induction s as [|c s IH]; intros H; [done|]. rewrite app_cons_str.
  cbn [str_has] in H. case_decide as Hc; [done|]. cbn [split_lines].
  rewrite (proj2 (Ascii.eqb_neq c LF)) by done. by rewrite IH.
Qed.

Lemma drop_last_cr_id s : str_has CR s = false -> drop_last_cr s = s.
Proof.
  induction s as [|c s IH]; intros H; [done|].
  cbn [str_has] in H. case_decide as Hc; [done|]. cbn [drop_last_cr].
  destruct s; [by rewrite (proj2 (Ascii.eqb_neq c CR))|]. by rewrite IH.
Qed.

Lemma lines_one s :
  str_has LF s = false -> str_has CR s = false -> lines (s +:+ String LF EmptyString) = [s].
Proof. intros Hl Hc. unfold lines. rewrite split_lines_one by done. cbn [end_lines]. by rewrite drop_last_cr_id. Qed.

(** ** Decimal numbers read back *)

Lemma pretty_char_digit x : (x < 10)%N ->
  is_digit (pretty_N_char x) = true /\ digit_value (pretty_N_char x) = Z.of_N x.
Proof.
  intros H. assert (x = 0 \/ x = 1 \/ x = 2 \/ x = 3 \/ x = 4 \/ x = 5 \/ x = 6 \/ x = 7 \/ x = 8 \/ x = 9)%N as Hx by lia.
  repeat destruct Hx as [->|Hx]; [by split..|]. by subst.
Qed.

Lemma pretty_go_digits x s :
  all_bytes is_digit (pretty_N_go x s) = all_bytes is_digit s
  /\ (s <> EmptyString \/ (0 < x)%N -> pretty_N_go x s <> EmptyString).
Proof.
  revert s. induction (N.lt_wf_0 x) as [x _ IH]; intros s. assert (x = 0 \/ 0 < x)%N as [->|H] by lia.
  - rewrite pretty_N_go_0. split; [done|]. intros [|]; [done|lia].
  - rewrite pretty_N_go_step by done. destruct (IH (x `div` 10)%N) with (s := String (pretty_N_char (x `mod` 10)) s) as (Ha & Hn).
    { by apply N.div_lt. }
    split; [|intros _; apply Hn; by left]. rewrite Ha. cbn.
    by destruct (pretty_char_digit (x `mod` 10)%N) as [-> _]; [apply N.mod_lt|].
Qed.

(** Reading [x]'s digits in front of [s]. *)
Lemma digits_value_go x s acc :
  exists p, digits_value acc (pretty_N_go x s) = digits_value (acc * 10 ^ p + Z.of_N x) s /\ (0 <= p)%Z.
Proof.
  revert s acc. induction (N.lt_wf_0 x) as [x _ IH]; intros s acc. assert (x = 0 \/ 0 < x)%N as [->|H] by lia.
  - exists 0%Z. rewrite pretty_N_go_0. split; [|done]. f_equal. lia.
  - rewrite pretty_N_go_step by done.
    destruct (IH (x `div` 10)%N) with (s := String (pretty_N_char (x `mod` 10)) s) (acc := acc) as (p & -> & Hp).
    { by apply N.div_lt. }
    exists (p + 1)%Z. split; [|lia]. cbn [digits_value]. destruct (pretty_char_digit (x `mod` 10)%N) as [_ ->]; [by apply N.mod_lt|].
    f_equal. rewrite (Z.pow_add_r 10 p 1), N2Z.inj_mod, N2Z.inj_div by lia. change (Z.of_N 10) with 10%Z. change (10 ^ 1)%Z with 10%Z.
    pose proof (Z.div_mod (Z.of_N x) 10 ltac:(lia)). nia.
Qed.

Lemma dec_digits n : all_bytes is_digit (dec n) = true /\ dec n <> EmptyString.
Proof.
  unfold dec, pretty, pretty_N. case_decide as H; [done|].
  destruct (pretty_go_digits (Z.to_N n) EmptyString) as (-> & Hn). split; [done|]. apply Hn. right. lia.
Qed.
Lemma digits_value_dec n : (0 <= n)%Z -> digits_value 0 (dec n) = n.
Proof.
  intros Hn. unfold dec, pretty, pretty_N. case_decide as H; [by assert (n = 0%Z) as -> by lia|].
  destruct (digits_value_go (Z.to_N n) EmptyString 0) as (p & -> & _). cbn. lia.
Qed.
Lemma parse_usize_dec n : (0 <= n <= u64_max)%Z -> parse_usize (dec n) = Some n.
Proof.
  intros Hn. destruct (dec_digits n) as [Hd He]. unfold parse_usize.
  assert (Hp : strip_prefix "+" (dec n) = None).
  { destruct (dec n) as [|c s]; [done|]. cbn in *. destruct (decide _) as [<-|]; [|done]. by vm_compute in Hd. }
  rewrite Hp. cbn [from_option default]. unfold id. destruct (dec n) eqn:E; [done|]. rewrite <- E.
  rewrite E, Hd, <- E, digits_value_dec by lia. cbn [andb]. destruct (Z.leb_spec n u64_max); [done|lia].
Qed.
Lemma parse_u32_dec n : (0 <= n <= u32_max)%Z -> parse_u32 (dec n) = Some n.
Proof.
  intros Hn. unfold parse_u32. rewrite parse_usize_dec by (unfold u32_max, u64_max in *; lia).
  destruct (Z.leb_spec n u32_max); [done|lia].
Qed.

(** ** Replacing every occurrence *)

Lemma replace_from_drop p new n k s :
  replace_from p new n k s = replace_from p new n 0 (drop_bytes k s).
Proof.
  revert k. induction s as [|a s IH]; intros k; [by destruct k|].
  destruct k as [|k]; [done|]. cbn [replace_from drop_bytes]. apply IH.
Qed.

Lemma app_inj_r_str s t u : s +:+ u = t +:+ u -> s = t.
Proof.
  revert t. induction s as [|a s IH]; intros t H.
  - destruct t as [|b t]; [done|]. apply (f_equal String.length) in H. rewrite !length_app_str in H. cbn in H. lia.
  - destruct t as [|b t].
    + apply (f_equal String.length) in H. rewrite !length_app_str in H. cbn in H. lia.
    + rewrite !app_cons_str in H. injection H as -> H. f_equal. by apply IH.
Qed.
Lemma drop_bytes_app p s : drop_bytes (String.length p) (p +:+ s) = s.
Proof. induction p as [|a p IH]; [by destruct s|]. by rewrite app_cons_str. Qed.

Lemma replace_match p new s : p <> EmptyString -> replace (p +:+ s) p new = new +:+ replace s p new.
Proof.
  intros Hp. destruct p as [|a p]; [done|]. unfold replace. rewrite app_cons_str. cbn [replace_from].
  replace (starts_with (String a p) (String a (p +:+ s))) with true
    by (symmetry; apply starts_with_true; by exists s).
  cbn [andb option_map]. rewrite bool_decide_eq_false_2 by done. cbn [negb String.length pred].
  by rewrite replace_from_drop, drop_bytes_app.
Qed.

Lemma replace_miss p new a s :
  starts_with p (String a s) = false -> replace (String a s) p new = String a (replace s p new).
Proof. intros H. unfold replace. cbn [replace_from]. by rewrite H. Qed.

Lemma digits_value_pos acc s : (0 <= acc)%Z -> (0 <= digits_value acc s)%Z.
Proof.
  revert acc. induction s as [|a s IH]; intros acc Ha; cbn [digits_value]; [done|].
  apply IH. unfold digit_value. lia.
Qed.
Lemma parse_usize_range s n : parse_usize s = Some n -> (0 <= n <= u64_max)%Z.
Proof.
  unfold parse_usize. destruct (default s (strip_prefix "+" s)) as [|a d] eqn:E; [done|].
  destruct (all_bytes is_digit _ && _) eqn:H; [|done]. intros [= <-].
  apply andb_true_iff in H as [_ H%Z.leb_le]. split; [by apply (digits_value_pos 0 (String a d))|done].
Qed.
Lemma take_drop_bytes n s : take_bytes n s +:+ drop_bytes n s = s.
Proof.
  revert s. induction n as [|n IH]; intros [|a s]; try done. cbn [take_bytes drop_bytes]. rewrite app_cons_str. by rewrite IH.
Qed.
Lemma take_bytes_app s t : take_bytes (String.length s) (s +:+ t) = s.
Proof. induction s as [|a s IH]; [by destruct t|]. rewrite app_cons_str. cbn. by rewrite IH. Qed.
Lemma take_bytes_length n s : String.length (take_bytes n s) <= n.
Proof. revert s. induction n as [|n IH]; intros [|a s]; cbn; [lia..|]. specialize (IH s). lia. Qed.
Lemma strip_suffix_Some p s r : strip_suffix p s = Some r <-> s = r +:+ p.
Proof.
  unfold strip_suffix. split.
  - generalize (String.length s - String.length p). intros n H. destruct (_ && _) eqn:E; [|done]. injection H as <-.
    apply andb_true_iff in E as [_ E%String.eqb_eq]. rewrite <- E. by rewrite take_drop_bytes.
  - intros ->. rewrite length_app_str. replace (String.length r + String.length p - String.length p) with (String.length r) by lia.
    rewrite drop_bytes_app, take_bytes_app, String.eqb_refl. destruct (Nat.leb_spec (String.length p) (String.length r + String.length p)); [done|lia].
Qed.
Lemma str_has_all p c s : all_bytes p s = true -> p c = false -> str_has c s = false.
Proof.
  intros H Hc. induction s as [|a s IH]; [done|]. cbn in *. apply andb_prop in H as [Ha Hs].
  case_decide as E; [congruence|auto].
Qed.
Lemma dec_lacks c n : is_digit c = false -> str_has c (dec n) = false.
Proof. eapply str_has_all, dec_digits. Qed.
