(* ===== verification/Subject.v ===== *)
(** * Subject: actor references (peko-rs/subject/src/lib.rs)

    [Route], [ActorRef], their textual forms and the key an actor is compared
    by.  Strings are byte strings, errors carry the message the code formats. *)

From Stdlib Require Import ZArith Lia Ascii.
From stdpp Require Import base tactics list gmap strings.
From S2P Require Import Prelude.

Open Scope Z_scope.

(** ** Data *)

Inductive Route :=
  | Local (id : string) (runtime : option string)
  | Hub (id : string).

Inductive ActorRef :=
  | User (route : Route)
  | Principal (route : Route)
  | Visitor (route : Route)
  | Public.

Inductive ActorKind := KUser | KPrincipal | KVisitor | KPublic.

#[export] Instance Route_eq_dec : EqDecision Route.
Proof. solve_decision. Defined.
#[export] Instance ActorRef_eq_dec : EqDecision ActorRef.
Proof. solve_decision. Defined.

(** ** Routes *)

Definition route_local (id : string) : Route := Local id None.
Definition route_hub (id : string) : Route := Hub id.

Definition route_parse (text : string) : Route :=
  match strip_prefix "hub:" text with
  | Some hub => Hub hub
  | None =>
      match strip_prefix "local:" text with
      | Some rest =>
          match split_once "@" rest with
          | Some (id, runtime) => Local id (Some runtime)
          | None => route_local rest
          end
      | None => route_local text
      end
  end.

Definition route_id (r : Route) : string :=
  match r with Local id _ | Hub id => id end.
Definition route_is_hub (r : Route) : bool :=
  match r with Hub _ => true | _ => false end.
Definition route_runtime (r : Route) : option string :=
  match r with Local _ rt => rt | Hub _ => None end.
Definition route_scope (r : Route) : string :=
  match r with Local _ _ => "local" | Hub _ => "hub" end.

(** [Display for Route], which [Serialize] writes too. *)
Definition route_display (r : Route) : string :=
  match r with
  | Local id None => id
  | Local id (Some runtime) => "local:" +:+ id +:+ "@" +:+ runtime
  | Hub id => "hub:" +:+ id
  end.

(** [Route::as_str] and [PartialEq<str>]. *)
Definition route_as_str (r : Route) : string :=
  match r with
  | Local id None => id
  | other => route_display other
  end.
Definition route_eq_str (r : Route) (other : string) : bool :=
  bool_decide (route_as_str r = other).

(** ** Actors *)

Definition kind_display (k : ActorKind) : string :=
  match k with
  | KUser => "user" | KPrincipal => "principal"
  | KVisitor => "visitor" | KPublic => "public"
  end.

Definition actor_default : ActorRef := User (route_local "").

Definition actor_route (a : ActorRef) : option Route :=
  match a with User r | Principal r | Visitor r => Some r | Public => None end.

Definition actor_kind (a : ActorRef) : ActorKind :=
  match a with
  | User _ => KUser | Principal _ => KPrincipal
  | Visitor _ => KVisitor | Public => KPublic
  end.

Definition with_route (a : ActorRef) (r : Route) : ActorRef :=
  match a with
  | User _ => User r | Principal _ => Principal r
  | Visitor _ => Visitor r | Public => Public
  end.

Definition canonical_address (a : ActorRef) : string :=
  match actor_route a with
  | None => "public"
  | Some (Hub id) => kind_display (actor_kind a) +:+ ":hub:" +:+ id
  | Some (Local id None) => kind_display (actor_kind a) +:+ ":local:" +:+ id
  | Some (Local id (Some runtime)) =>
      kind_display (actor_kind a) +:+ ":local:" +:+ id +:+ "@" +:+ runtime
  end.

Definition is_local_route (a : ActorRef) : bool :=
  match actor_route a with Some r => negb (route_is_hub r) | None => false end.
Definition is_hub_route (a : ActorRef) : bool :=
  match actor_route a with Some r => route_is_hub r | None => false end.
Definition actor_route_runtime (a : ActorRef) : option string :=
  match actor_route a with Some r => route_runtime r | None => None end.

Definition qualified_for (a : ActorRef) (runtime : string) : ActorRef :=
  match actor_route a with
  | Some (Local id None) => with_route a (Local id (Some runtime))
  | _ => a
  end.

Definition localized_on (a : ActorRef) (runtime : string) : ActorRef :=
  match actor_route a with
  | Some (Local id (Some qualifier)) =>
      if decide (qualifier = runtime) then with_route a (route_local id) else a
  | _ => a
  end.

Definition subject_id (a : ActorRef) : string :=
  match actor_route a with Some r => route_display r | None => "public" end.
Definition is_session_peer (a : ActorRef) : bool :=
  match actor_route a with Some _ => true | None => false end.

Definition actor_display (a : ActorRef) : string :=
  match a with
  | User r => "user:" +:+ route_display r
  | Principal r => "principal:" +:+ route_display r
  | Visitor r => "visitor:" +:+ route_display r
  | Public => "public"
  end.

(** [FromStr for ActorRef]. *)
Definition actor_from_str (s : string) : result ActorRef string :=
  if decide (s = "public") then Ok Public else
  match split_once ":" s with
  | None => Err ("expected 'kind:id', got '" +:+ s +:+ "'")
  | Some (kind, id) =>
      let route := route_parse id in
      if decide (route_id route = "") then
        Err ("empty id for kind '" +:+ kind +:+ "'")
      else if decide (kind = "user") then Ok (User route)
      else if decide (kind = "principal" \/ kind = "peko") then Ok (Principal route)
      else if decide (kind = "visitor") then Ok (Visitor route)
      else Err ("unknown kind '" +:+ kind +:+ "'")
  end.

Definition parse_scoped (text : string) : result ActorRef string :=
  let scoped :=
    match split_once ":" text with
    | Some (_, rest) => starts_with "local:" rest || starts_with "hub:" rest
    | None => false
    end in
  if negb scoped then
    Err ("use kind:local:<id> or kind:hub:<id> (got `" +:+ text +:+ "`)")
  else actor_from_str text.

Definition from_bridge_claim (kind sub : string) : result ActorRef string :=
  if decide (sub = "") then
    Err ("bridge claim kind '" +:+ kind +:+ "' carries an empty sub")
  else if str_has ":" sub then
    Err ("bridge claim sub must not contain ':' (namespace aliasing); got '" +:+ sub +:+ "'")
  else if decide (kind = "user") then Ok (User (route_hub sub))
  else if decide (kind = "visitor") then
    (if decide (sub = "local")
     then Err "visitor sub 'local' is reserved for the local owner"
     else Ok (Visitor (route_hub sub)))
  else Err ("unknown bridge claim kind '" +:+ kind +:+ "' (expected 'user' or 'visitor')").

(** ** Actor keys: the trait and its canonical implementation *)

Class ActorKeys := key_of : ActorRef -> string.

Definition is_public (a : ActorRef) : bool :=
  match a with Public => true | _ => false end.

Definition same_actor (K : ActorKeys) (a b : ActorRef) : bool :=
  negb (is_public a) && negb (is_public b) && bool_decide (key_of a = key_of b).

Definition CanonicalKeys : ActorKeys := canonical_address.

(** ** Textual well-formedness *)

(** Routes whose display form reads back as themselves. *)
Definition route_wf (r : Route) : Prop :=
  match r with
  | Local id None => starts_with "hub:" id = false /\ starts_with "local:" id = false
  | Local id (Some _) => str_has "@" id = false
  | Hub _ => True
  end.

(** Routes whose scoped (canonical) form reads back as themselves. *)
Definition route_canonical (r : Route) : Prop :=
  match r with
  | Local id _ => str_has "@" id = false
  | Hub _ => True
  end.

Definition actor_ok (P : Route -> Prop) (a : ActorRef) : Prop :=
  match actor_route a with Some r => P r /\ route_id r <> "" | None => True end.

(** ** Lemmas *)

Lemma app_neq_self_str p s : p <> "" -> s <> p +:+ s.
Proof.
  intros Hp H. apply (f_equal String.length) in H.
  rewrite length_app_str in H. destruct p; [done|]. cbn in H. lia.
Qed.

Lemma route_parse_hub id : route_parse ("hub:" +:+ id) = Hub id.
Proof. unfold route_parse. by rewrite strip_prefix_app. Qed.

Lemma strip_hub_local s : strip_prefix "hub:" ("local:" +:+ s) = None.
Proof. done. Qed.

Lemma route_parse_local_None id :
  str_has "@" id = false -> route_parse ("local:" +:+ id) = Local id None.
Proof.
  intros H. unfold route_parse. rewrite strip_hub_local, strip_prefix_app.
  apply split_once_None in H. by rewrite H.
Qed.

Lemma route_parse_local_Some id rt :
  str_has "@" id = false ->
  route_parse ("local:" +:+ id +:+ "@" +:+ rt) = Local id (Some rt).
Proof.
  intros H. unfold route_parse. rewrite strip_hub_local, strip_prefix_app.
  change ("@" +:+ rt) with (String "@" rt).
  by rewrite (split_once_app "@" id rt H).
Qed.

Lemma route_parse_plain id :
  starts_with "hub:" id = false -> starts_with "local:" id = false ->
  route_parse id = Local id None.
Proof.
  intros H1 H2. apply strip_prefix_None in H1, H2.
  unfold route_parse. by rewrite H1, H2.
Qed.

Lemma route_display_wf r : route_wf r -> route_parse (route_display r) = r.
Proof.
  destruct r as [id [rt|]|id]; cbn [route_wf route_display].
  - apply route_parse_local_Some.
  - intros [H1 H2]. by apply route_parse_plain.
  - intros _. apply route_parse_hub.
Qed.

(** A parsed local route is never longer than what it was read from. *)
Lemma route_parse_local_shorter s id rt :
  route_parse ("local:" +:+ s) = Local id rt -> id <> "local:" +:+ s.
Proof.
  unfold route_parse. rewrite strip_hub_local, strip_prefix_app.
  destruct (split_once "@" s) as [[l r]|] eqn:E.
  - apply split_once_Some in E as [-> _]. intros [= <- <-] H.
    apply (f_equal String.length) in H. rewrite !length_app_str in H. cbn in H. lia.
  - intros [= <- <-]. by apply app_neq_self_str.
Qed.

Lemma route_display_wf_inv r : route_parse (route_display r) = r -> route_wf r.
Proof.
  destruct r as [id [rt|]|id]; cbn [route_wf route_display]; [| |done].
  - unfold route_parse. rewrite strip_hub_local, strip_prefix_app.
    destruct (split_once "@" (id +:+ "@" +:+ rt)) as [[l r]|] eqn:E; [|done].
    apply split_once_Some in E as [_ E]. by intros [= <- <-].
  - intros H. split.
    + destruct (starts_with "hub:" id) eqn:E; [|done].
      apply starts_with_true in E as [r ->]. by rewrite route_parse_hub in H.
    + destruct (starts_with "local:" id) eqn:E; [|done].
      apply starts_with_true in E as [r ->].
      by apply route_parse_local_shorter in H.
Qed.

Lemma split_kind k rest :
  split_once ":" (kind_display k +:+ String ":" rest) = Some (kind_display k, rest).
Proof. apply split_once_app. by destruct k. Qed.

Lemma from_str_kind a r text :
  actor_route a = Some r -> route_parse text = r -> route_id r <> "" ->
  actor_from_str (kind_display (actor_kind a) +:+ String ":" text) = Ok a.
Proof.
  intros Ha Hr Hid. unfold actor_from_str.
  rewrite decide_False by (by destruct a).
  rewrite split_kind, Hr, decide_False by done.
  destruct a; naive_solver.
Qed.

Lemma actor_display_kind a r :
  actor_route a = Some r ->
  actor_display a = kind_display (actor_kind a) +:+ String ":" (route_display r).
Proof. destruct a; naive_solver. Qed.

Lemma canonical_address_kind a r :
  actor_route a = Some r ->
  canonical_address a =
    kind_display (actor_kind a) +:+ String ":"
      match r with
      | Local id None => "local:" +:+ id
      | Local id (Some rt) => "local:" +:+ id +:+ "@" +:+ rt
      | Hub id => "hub:" +:+ id
      end.
Proof. unfold canonical_address. intros ->. by destruct r as [id [rt|]|id]. Qed.

Lemma canonical_address_parses a :
  actor_ok route_canonical a -> actor_from_str (canonical_address a) = Ok a.
Proof.
  unfold actor_ok. destruct (actor_route a) as [r|] eqn:Hr; [|by destruct a].
  intros [Hc Hid]. rewrite (canonical_address_kind a r Hr).
  apply (from_str_kind a r); [done| |done].
  destruct r as [id [rt|]|id]; cbn [route_canonical] in Hc.
  - by apply route_parse_local_Some.
  - by apply route_parse_local_None.
  - apply route_parse_hub.
Qed.

Lemma canonical_address_inj a b :
  actor_ok route_canonical a -> actor_ok route_canonical b ->
  canonical_address a = canonical_address b -> a = b.
Proof.
  intros Ha Hb H. apply canonical_address_parses in Ha, Hb. congruence.
Qed.

Lemma localized_qualified a rt :
  actor_route_runtime a <> Some rt -> localized_on (qualified_for a rt) rt = a.
Proof.
  unfold actor_route_runtime, localized_on, qualified_for.
  destruct a as [[id [q|]|id]|[id [q|]|id]|[id [q|]|id]|]; cbn; intros H;
    try case_decide; naive_solver.
Qed.

(** ** Properties *)

(** the text an actor is displayed and stored as reads back as that actor
    exactly when its route is textually well formed: a plain local id must not
    begin with a scope, and a runtime-qualified id must not contain an at
    sign.  (Actors whose id is empty are rejected by the parser.) *)
Theorem actor_text_roundtrip (a : ActorRef) (r : Route) :
  actor_route a = Some r -> route_id r <> "" ->
  actor_from_str (actor_display a) = Ok a <-> route_wf r.
Proof.
  intros Hr Hid. rewrite (actor_display_kind a r Hr). split.
  - intros H. apply route_display_wf_inv. unfold actor_from_str in H.
    rewrite decide_False, split_kind in H by (by destruct a).
    case_decide; [done|].
    destruct a; [..|done]; injection Hr as ->;
      repeat case_decide; try done; congruence.
  - intros Hwf. apply (from_str_kind a r); auto using route_display_wf.
Qed.

Lemma actor_text_roundtrip_witness :
  actor_from_str (actor_display (Visitor (Local "ada" (Some "did:key:z6M"))))
    = Ok (Visitor (Local "ada" (Some "did:key:z6M"))).
Proof.
  apply (actor_text_roundtrip (Visitor (Local "ada" (Some "did:key:z6M")))
           (Local "ada" (Some "did:key:z6M"))); reflexivity || discriminate.
Defined.

(** under the canonical keys, two actors count as the same actor exactly
    when they are equal and not the public; so a grant to one address never
    covers another address (for ids free of the at sign). *)
Theorem canonical_keys_identify (a b : ActorRef) :
  actor_ok route_canonical a -> actor_ok route_canonical b ->
  same_actor CanonicalKeys a b = true <-> a = b /\ a <> Public.
Proof.
  intros Ha Hb. unfold same_actor, key_of, CanonicalKeys.
  rewrite !andb_true_iff, !negb_true_iff, bool_decide_eq_true. split.
  - intros [[Hpa _] Hk]. split; [by apply canonical_address_inj|].
    by intros ->.
  - intros [<- Hp]. by destruct a.
Qed.

Lemma canonical_keys_identify_witness :
  same_actor CanonicalKeys (User (Hub "ada")) (User (Hub "ada")) = true.
Proof.
  apply (canonical_keys_identify (User (Hub "ada")) (User (Hub "ada")));
    repeat split; discriminate.
Defined.

(** a hub claim accepted from the bridge always names a hub account or
    visitor (never a local identity of this runtime), and its canonical
    address reads back as the same actor. *)
Theorem bridge_claim_is_hub (kind sub : string) (a : ActorRef) :
  from_bridge_claim kind sub = Ok a ->
  is_hub_route a = true /\ is_local_route a = false /\
  subject_id a = "hub:" +:+ sub /\ str_has ":" sub = false /\
  actor_from_str (canonical_address a) = Ok a.
Proof.
  unfold from_bridge_claim. intros H.
  repeat case_decide; try done; destruct (str_has ":" sub) eqn:Hc; try done;
    injection H as <-; repeat split; by apply canonical_address_parses.
Qed.

Lemma bridge_claim_is_hub_witness :
  is_hub_route (Visitor (Hub "guest7")) = true /\
  is_local_route (Visitor (Hub "guest7")) = false /\
  subject_id (Visitor (Hub "guest7")) = "hub:guest7" /\
  str_has ":" "guest7" = false /\
  actor_from_str (canonical_address (Visitor (Hub "guest7"))) = Ok (Visitor (Hub "guest7")).
Proof. apply (bridge_claim_is_hub "visitor" "guest7"). reflexivity. Defined.

(** qualifying an actor with a runtime and localizing it there again is
    the identity, unless the actor already carried that runtime. *)
Theorem qualify_localize (a : ActorRef) (rt : string) :
  localized_on (qualified_for a rt) rt = a <-> actor_route_runtime a <> Some rt.
Proof.
  split; [|apply localized_qualified].
  unfold actor_route_runtime, localized_on, qualified_for.
  destruct a as [[id [q|]|id]|[id [q|]|id]|[id [q|]|id]|]; cbn; intros H [= <-];
    rewrite decide_True in H by done; discriminate H.
Qed.

(** an address parsed from a scoped local form whose id looks like a hub
    scope is stored as text that reads back as the hub account of that name:
    the stored form of a local grant becomes a grant to a hub account. *)
Theorem scoped_local_id_reads_back_as_hub (x : string) :
  x <> "" -> str_has "@" x = false ->
  let a := User (Local ("hub:" +:+ x) None) in
  parse_scoped ("user:local:hub:" +:+ x) = Ok a /\
  actor_from_str (actor_display a) = Ok (User (Hub x)) /\
  same_actor CanonicalKeys a (User (Hub x)) = false.
Proof.
  intros Hx Hat a.
  assert (Hlen : String.length ("user:local:hub:" +:+ x) <> String.length ("user:hub:" +:+ x))
    by (rewrite !length_app_str; cbn; lia).
  split; [|split].
  - unfold parse_scoped.
    change ("user:local:hub:" +:+ x) with ("user" +:+ String ":" ("local:" +:+ ("hub:" +:+ x))).
    rewrite (split_once_app ":" "user") by done.
    replace (starts_with "local:" ("local:" +:+ ("hub:" +:+ x))) with true
      by (symmetry; apply starts_with_true; eauto).
    cbn [orb negb].
    apply (from_str_kind a (Local ("hub:" +:+ x) None)); try done.
    by apply route_parse_local_None.
  - apply (from_str_kind (User (Hub x)) (Hub x)); [done|apply route_parse_hub|done].
  - unfold same_actor, key_of, CanonicalKeys. cbn [is_public negb andb].
    apply bool_decide_eq_false. intros H. apply Hlen.
    exact (f_equal String.length H).
Qed.

Lemma scoped_local_id_reads_back_as_hub_witness :
  actor_from_str (actor_display (User (Local "hub:ada" None))) = Ok (User (Hub "ada")).
Proof.
  apply (scoped_local_id_reads_back_as_hub "ada"); [discriminate | reflexivity].
Defined.
