(* ===== verification/Auth.v ===== *)
(** * Auth: who may do what, and how often (peko-rs/auth/src)

    [Caller] models caller.rs, types.rs and permissions.rs (identities and API
    key scopes), [Ownership] models ownership.rs (owner and grant checks on a
    peko), [RateLimit] models rate_limit.rs (the per-identity fixed window with
    burst, and its opportunistic pruning). *)

From Stdlib Require Import ZArith Lia Ascii.
From stdpp Require Import base tactics list gmap strings.
From S2P Require Import Prelude Subject.

Open Scope Z_scope.

(** ** Callers and API-key scopes *)

Module Caller.

Inductive ApiKeyScope := SRead | SWrite | SAdmin.
#[export] Instance ApiKeyScope_eq_dec : EqDecision ApiKeyScope.
Proof. solve_decision. Defined.

Definition scope_display (s : ApiKeyScope) : string :=
  match s with SRead => "read" | SWrite => "write" | SAdmin => "admin" end.

(** [FromStr for ApiKeyScope] folds case with [str::to_lowercase].  No
    character outside ASCII lowercases to a letter of the three names, so the
    ASCII fold decides the same comparisons. *)
Definition scope_from_str (s : string) : result ApiKeyScope string :=
  let l := to_ascii_lowercase s in
  if decide (l = "read") then Ok SRead
  else if decide (l = "write") then Ok SWrite
  else if decide (l = "admin") then Ok SAdmin
  else Err ("Unknown scope: " +:+ s).

Inductive Identity :=
  | ILocal
  | IUser (sub : string)
  | IVisitor (sub : string)
  | IApiKey (key_id : string).

Inductive AuthMethod := LocalTrust | PekohubJwt | ApiKeyMethod.

Definition identity_bucket (i : Identity) : string :=
  match i with
  | ILocal => "local"
  | IUser uid => "user:" +:+ uid
  | IVisitor uid => "visitor:" +:+ uid
  | IApiKey key_id => "apikey:" +:+ key_id
  end.

Record CallerContext := {
  identity : Identity;
  auth_method : AuthMethod;
  rate_limit_bucket : string;
  api_key_scopes : list ApiKeyScope;
}.

Definition caller_local : CallerContext :=
  {| identity := ILocal; auth_method := LocalTrust; rate_limit_bucket := "local";
     api_key_scopes := [SRead; SWrite; SAdmin] |}.

Definition local_with_did (runtime_did : string) : CallerContext :=
  {| identity := ILocal; auth_method := LocalTrust;
     rate_limit_bucket := "local:" +:+ runtime_did;
     api_key_scopes := [SRead; SWrite; SAdmin] |}.

Definition from_jwt (sub : string) : CallerContext :=
  let sub := match strip_prefix "user:" sub with Some s => s | None => sub end in
  {| identity := IUser sub; auth_method := PekohubJwt;
     rate_limit_bucket := "user:" +:+ sub; api_key_scopes := [] |}.

Definition from_visitor_jwt (sub : string) : CallerContext :=
  {| identity := IVisitor sub; auth_method := PekohubJwt;
     rate_limit_bucket := "visitor:" +:+ sub; api_key_scopes := [] |}.

Definition from_api_key (key_id : string) (scopes : list ApiKeyScope) : CallerContext :=
  {| identity := IApiKey key_id; auth_method := ApiKeyMethod;
     rate_limit_bucket := "apikey:" +:+ key_id; api_key_scopes := scopes |}.

Definition is_local (c : CallerContext) : bool :=
  match identity c with ILocal => true | _ => false end.

Definition is_operator (c : CallerContext) : bool :=
  is_local c ||
  (match identity c with IApiKey _ => true | _ => false end
   && bool_decide (SAdmin ∈ api_key_scopes c)).

Definition attribution_subject (c : CallerContext) : ActorRef :=
  match identity c with
  | ILocal | IApiKey _ => User (route_parse "local")
  | IUser sub => User (route_hub sub)
  | IVisitor sub => Visitor (route_hub sub)
  end.

Definition subject (c : CallerContext) : ActorRef :=
  match identity c with
  | ILocal => attribution_subject c
  | IUser sub => User (route_hub sub)
  | IVisitor sub => Visitor (route_hub sub)
  | IApiKey _ => attribution_subject c
  end.

Definition permission_subject (c : CallerContext) (owner : ActorRef) : ActorRef :=
  if is_operator c then owner else subject c.

Definition has_scope (c : CallerContext) (s : ApiKeyScope) : bool :=
  match identity c with
  | ILocal | IUser _ | IVisitor _ => true
  | IApiKey _ => bool_decide (s ∈ api_key_scopes c)
  end.

Inductive Action := ARead | AWrite | AAdmin | AExecute.

Definition required_scope (a : Action) : ApiKeyScope :=
  match a with ARead => SRead | AWrite => SWrite | AAdmin => SAdmin | AExecute => SWrite end.

Inductive AuthError :=
  PermissionDenied | InvalidCredential | ExpiredCredential | RateLimited | LocalTrustDisabled.

Inductive Resource :=
  | RSession (id : string)
  | RExtension (id : string)
  | RSystem
  | RRuntime.

(** The resource does not influence the verdict. *)
Definition check_permission (c : CallerContext) (_resource : Resource) (a : Action)
    : result unit AuthError :=
  if has_scope c (required_scope a) then Ok tt else Err PermissionDenied.

(** The contexts the four constructors build. *)
Inductive constructed : CallerContext -> Prop :=
  | con_local : constructed caller_local
  | con_local_did did : constructed (local_with_did did)
  | con_jwt sub : constructed (from_jwt sub)
  | con_visitor sub : constructed (from_visitor_jwt sub)
  | con_api_key k scopes : constructed (from_api_key k scopes).

End Caller.

(** ** Ownership and grants *)

Module Ownership.

Inductive Permission := Chat | ViewSettings | ManageSettings | Trusted.
#[export] Instance Permission_eq_dec : EqDecision Permission.
Proof. solve_decision. Defined.

(** [mem::discriminant] equality; the variants carry no data. *)
Definition covers (p other : Permission) : bool := bool_decide (p = other).

Record PermissionGrant := {
  grant_subject : ActorRef;
  grant_permission : Permission;
  granted_at : string;
  granted_by : ActorRef;
}.

Inductive Exposure := Private | PublicExposure | LocalOnly.

(** [Resource::Principal]. *)
Record Resource := {
  res_name : string;
  res_owner : ActorRef;
  res_permissions : list PermissionGrant;
  res_exposure : Exposure;
}.

Definition resource_id (r : Resource) : string := "principal:" +:+ res_name r.

Record PermissionDenied := {
  denied_resource : string;
  denied_action : Permission;
  denied_caller : string;
}.

Fixpoint grants_allow (keys : ActorKeys) (action : Permission) (caller : ActorRef)
    (grants : list PermissionGrant) : bool :=
  match grants with
  | [] => false
  | grant :: rest =>
      if negb (covers (grant_permission grant) action)
      then grants_allow keys action caller rest
      else if bool_decide (grant_subject grant = Public)
              || same_actor keys (grant_subject grant) caller
      then true
      else grants_allow keys action caller rest
  end.

Definition check_permission (r : Resource) (action : Permission) (caller : ActorRef)
    (keys : ActorKeys) : result unit PermissionDenied :=
  if same_actor keys (res_owner r) caller then Ok tt
  else if grants_allow keys action caller (res_permissions r) then Ok tt
  else Err {| denied_resource := resource_id r; denied_action := action;
              denied_caller := canonical_address caller |}.

(** What the check promises: the caller is the owner, or holds a grant of
    exactly this permission, or the public does. *)
Definition permitted (keys : ActorKeys) (r : Resource) (action : Permission)
    (caller : ActorRef) : Prop :=
  same_actor keys (res_owner r) caller = true \/
  exists g, g ∈ res_permissions r /\ grant_permission g = action /\
    (grant_subject g = Public \/ same_actor keys (grant_subject g) caller = true).

Lemma grants_allow_spec keys action caller gs :
  grants_allow keys action caller gs = true <->
  exists g, g ∈ gs /\ grant_permission g = action /\
    (grant_subject g = Public \/ same_actor keys (grant_subject g) caller = true).
Proof.
  induction gs as [|g gs IH]; cbn [grants_allow].
  - split; [done|]. intros (g & Hg & _). by apply elem_of_nil in Hg.
  - setoid_rewrite elem_of_cons. unfold covers.
    case_bool_decide as Hc; cbn [negb]; [|rewrite IH; naive_solver].
    case_bool_decide as Hp; cbn [orb]; [naive_solver|].
    destruct (same_actor keys (grant_subject g) caller) eqn:Hs; [naive_solver|].
    rewrite IH. naive_solver congruence.
Qed.

Lemma check_Ok_iff keys r action caller :
  check_permission r action caller keys = Ok tt <-> permitted keys r action caller.
Proof.
  unfold check_permission, permitted. rewrite <- grants_allow_spec.
  destruct (same_actor keys _ caller), (grants_allow _ _ _ _); naive_solver.
Qed.

End Ownership.

(** ** The rate limiter *)

Module RateLimit.

(** [Instant] is a count of nanoseconds on a monotonic clock. *)
Record RateLimitEntry := {
  window_start : Z;
  count : Z;
  burst_remaining : Z;
}.

Record RateLimiter := {
  jwt_limit : Z;
  api_key_limit : Z;
  jwt_burst : Z;
  api_key_burst : Z;
  window : Z;
}.

Record RateLimiterState := {
  buckets : gmap string RateLimitEntry;
  last_prune : Z;
}.

(** [Instant::duration_since] saturates at zero. *)
Definition duration_since (now earlier : Z) : Z := Z.max 0 (now - earlier).

Definition one_minute : Z := 60 * 10 ^ 9.

Definition new (jl al jb ab : Z) : RateLimiter :=
  {| jwt_limit := jl; api_key_limit := al; jwt_burst := jb; api_key_burst := ab;
     window := one_minute |}.
Definition new_state (now : Z) : RateLimiterState :=
  {| buckets := ∅; last_prune := now |}.
Definition default_limits : RateLimiter := new 30 100 10 20.

Definition limit_of (r : RateLimiter) (is_jwt : bool) : Z :=
  if is_jwt then jwt_limit r else api_key_limit r.
Definition burst_of (r : RateLimiter) (is_jwt : bool) : Z :=
  if is_jwt then jwt_burst r else api_key_burst r.

(** The decision on one bucket: the verdict and the entry to store. *)
Definition step_entry (w limit burst now : Z) (e : option RateLimitEntry)
    : bool * RateLimitEntry :=
  match e with
  | Some entry =>
      if Z.leb w (duration_since now (window_start entry)) then
        (true, {| window_start := now; count := 1; burst_remaining := burst |})
      else if Z.ltb (count entry) limit then
        (true, {| window_start := window_start entry; count := count entry + 1;
                  burst_remaining := burst_remaining entry |})
      else if Z.ltb 0 (burst_remaining entry) then
        (true, {| window_start := window_start entry; count := count entry;
                  burst_remaining := burst_remaining entry - 1 |})
      else (false, entry)
  | None => (true, {| window_start := now; count := 1; burst_remaining := burst |})
  end.

Definition live (w now : Z) (e : RateLimitEntry) : Prop :=
  duration_since now (window_start e) < w.
#[export] Instance live_dec w now e : Decision (live w now e).
Proof. unfold live. apply _. Defined.

Definition prune (w now : Z) (st : RateLimiterState) : RateLimiterState :=
  if Z.leb w (duration_since now (last_prune st)) then
    {| buckets := filter (fun kv => live w now kv.2) (buckets st); last_prune := now |}
  else st.

Definition check (r : RateLimiter) (st : RateLimiterState) (now : Z)
    (bucket : string) (is_jwt : bool) : bool * RateLimiterState :=
  let st := prune (window r) now st in
  let '(ok, e) := step_entry (window r) (limit_of r is_jwt) (burst_of r is_jwt) now
                    (buckets st !! bucket) in
  (ok, {| buckets := <[bucket := e]> (buckets st); last_prune := last_prune st |}).

Definition current_count (st : RateLimiterState) (bucket : string) : Z :=
  match buckets st !! bucket with Some e => count e | None => 0 end.

(** One request: when it arrives, whose bucket, which credential kind. *)
Record Request := { at_ : Z; req_bucket : string; req_jwt : bool }.

Fixpoint run (r : RateLimiter) (st : RateLimiterState) (reqs : list Request)
    : list bool * RateLimiterState :=
  match reqs with
  | [] => ([], st)
  | q :: rest =>
      let '(ok, st) := check r st (at_ q) (req_bucket q) (req_jwt q) in
      let '(oks, st) := run r st rest in
      (ok :: oks, st)
  end.

(** *** Reference: a limiter per bucket that never prunes *)

Fixpoint spec_run (r : RateLimiter) (m : gmap string RateLimitEntry) (reqs : list Request)
    : list bool :=
  match reqs with
  | [] => []
  | q :: rest =>
      let '(ok, e) := step_entry (window r) (limit_of r (req_jwt q)) (burst_of r (req_jwt q))
                        (at_ q) (m !! req_bucket q) in
      ok :: spec_run r (<[req_bucket q := e]> m) rest
  end.

Fixpoint ordered_from (t : Z) (reqs : list Request) : Prop :=
  match reqs with
  | [] => True
  | q :: rest => t <= at_ q /\ ordered_from (at_ q) rest
  end.

(** Two buckets maps agree at time [t] when they differ only in entries whose
    window is over. *)
Definition agree (w t : Z) (m m' : gmap string RateLimitEntry) : Prop :=
  forall k, m !! k = m' !! k \/
    (m !! k = None /\ exists e, m' !! k = Some e /\ w <= duration_since t (window_start e)).

Lemma duration_since_mono t t' s : t <= t' -> duration_since t s <= duration_since t' s.
Proof. unfold duration_since; lia. Qed.

Lemma agree_later w t t' m m' : t <= t' -> agree w t m m' -> agree w t' m m'.
Proof.
  intros Ht H k. destruct (H k) as [|(Hn & e & He & Hw)]; [by left|right].
  split; [done|]. exists e. split; [done|]. pose proof (duration_since_mono t t' (window_start e) Ht). lia.
Qed.

Lemma agree_prune w t st m' :
  agree w t (buckets st) m' -> agree w t (buckets (prune w t st)) m'.
Proof.
  intros H k. unfold prune. case_match; [|apply H]. cbn [buckets].
  destruct (H k) as [Heq|(Hn & He)].
  - destruct (buckets st !! k) as [e|] eqn:Hk.
    + destruct (decide (live w t e)) as [Hl|Hl].
      * left. rewrite <- Heq. by apply map_lookup_filter_Some.
      * right. split; [apply map_lookup_filter_None; naive_solver|].
        exists e. unfold live in Hl. split; [done|lia].
    + left. rewrite <- Heq. apply map_lookup_filter_None. by left.
  - right. split; [|done]. apply map_lookup_filter_None. by left.
Qed.

Lemma step_entry_agree w limit burst t m m' k :
  agree w t m m' -> step_entry w limit burst t (m !! k) = step_entry w limit burst t (m' !! k).
Proof.
  intros H. destruct (H k) as [->|(-> & e & -> & Hw)]; [done|].
  cbn [step_entry]. by rewrite (proj2 (Z.leb_le _ _) Hw).
Qed.

Lemma agree_insert w t m m' k e : agree w t m m' -> agree w t (<[k := e]> m) (<[k := e]> m').
Proof.
  intros H j. destruct (decide (k = j)) as [->|Hne].
  - left. by rewrite !lookup_insert_eq.
  - rewrite !lookup_insert_ne by done. apply H.
Qed.

Lemma run_agrees r t st m' reqs :
  ordered_from t reqs -> agree (window r) t (buckets st) m' ->
  fst (run r st reqs) = spec_run r m' reqs.
Proof.
  revert t st m'. induction reqs as [|q reqs IH]; intros t st m'; [done|].
  cbn [run spec_run ordered_from]. intros [Ht Ho] Ha.
  apply (agree_later _ _ _ _ _ Ht) in Ha. apply agree_prune in Ha.
  unfold check. rewrite (step_entry_agree _ _ _ _ _ _ (req_bucket q) Ha).
  destruct (step_entry _ _ _ _ (m' !! _)) as [ok e].
  specialize (IH (at_ q) {| buckets := <[req_bucket q := e]> (buckets (prune (window r) (at_ q) st));
                            last_prune := last_prune (prune (window r) (at_ q) st) |}
                 (<[req_bucket q := e]> m') Ho (agree_insert _ _ _ _ _ _ Ha)).
  destruct (run _ _ reqs) as [oks st']. cbn in *. by rewrite IH.
Qed.

(** *** What one bucket is granted within a window *)

Definition is_for (b : string) (q : Request) : bool := bool_decide (req_bucket q = b).

Fixpoint asked (b : string) (reqs : list Request) : Z :=
  match reqs with
  | [] => 0
  | q :: rest => (if is_for b q then 1 else 0) + asked b rest
  end.

Fixpoint accepted (b : string) (reqs : list Request) (oks : list bool) : Z :=
  match reqs, oks with
  | q :: rest, ok :: oks => (if is_for b q && ok then 1 else 0) + accepted b rest oks
  | _, _ => 0
  end.

Lemma asked_nonneg b reqs : 0 <= asked b reqs.
Proof. induction reqs as [|q reqs IH]; cbn [asked]; [lia|]. destruct (is_for b q); lia. Qed.

(** What a bucket's entry still allows in its window. *)
Definition capacity (limit : Z) (e : RateLimitEntry) : Z :=
  Z.max 0 (limit - count e) + Z.max 0 (burst_remaining e).

Lemma step_entry_live w limit burst now e :
  duration_since now (window_start e) < w ->
  let '(ok, e') := step_entry w limit burst now (Some e) in
  window_start e' = window_start e /\
  ((ok = true /\ 0 < capacity limit e /\ capacity limit e' = capacity limit e - 1) \/
   (ok = false /\ capacity limit e = 0 /\ e' = e)).
Proof.
  intros Hw. cbn [step_entry]. rewrite (proj2 (Z.leb_gt _ _) Hw). unfold capacity.
  destruct (Z.ltb_spec (count e) limit);
    [|destruct (Z.ltb_spec 0 (burst_remaining e))]; cbn;
    (split; [done|]);
    first [left; split_and!; [done|lia|lia] | right; split_and!; [done|lia|done]].
Qed.

(** Every request of bucket [b] has kind [jwt] and falls inside the window
    that starts at [s]. *)
Definition within (w s : Z) (b : string) (jwt : bool) (reqs : list Request) : Prop :=
  Forall (fun q => req_bucket q = b -> req_jwt q = jwt /\ at_ q < s + w) reqs.

Lemma spec_run_capacity r b jwt s reqs t m e :
  ordered_from t reqs -> s <= t -> m !! b = Some e -> window_start e = s ->
  within (window r) s b jwt reqs ->
  accepted b reqs (spec_run r m reqs) =
    Z.min (asked b reqs) (capacity (limit_of r jwt) e).
Proof.
  revert t m e. induction reqs as [|q reqs IH]; intros t m e Ho Hst Hb Hs Hw.
  { cbn. unfold capacity. lia. }
  cbn [ordered_from] in Ho. destruct Ho as [Ht Ho].
  apply Forall_cons in Hw as [Hq Hw]. cbn [spec_run asked accepted].
  destruct (step_entry _ _ _ _ (m !! req_bucket q)) as [ok e'] eqn:Hstep.
  unfold is_for. case_bool_decide as Hqb; cbn [accepted andb].
  - destruct (Hq Hqb) as [Hj Hin]. rewrite Hqb, Hb, Hj in Hstep.
    pose proof (step_entry_live (window r) (limit_of r jwt) (burst_of r jwt) (at_ q) e) as Hl.
    rewrite Hstep in Hl.
    destruct Hl as [Hs' Hl]; [unfold duration_since; lia|].
    rewrite Hqb, (IH (at_ q) _ e' Ho ltac:(lia) (lookup_insert_eq _ _ _) ltac:(lia) Hw).
    pose proof (asked_nonneg b reqs).
    destruct Hl as [(-> & Hpos & Hc)|(-> & Hc & ->)]; cbn iota; lia.
  - rewrite (IH (at_ q) _ e Ho ltac:(lia)); [lia|by rewrite lookup_insert_ne|done|done].
Qed.

Lemma spec_run_capacity_fresh r b jwt reqs t s m :
  ordered_from t reqs -> s <= t -> m !! b = None -> within (window r) s b jwt reqs ->
  0 <= burst_of r jwt ->
  accepted b reqs (spec_run r m reqs) =
    Z.min (asked b reqs) (Z.max 1 (limit_of r jwt) + burst_of r jwt).
Proof.
  revert t m. induction reqs as [|q reqs IH]; intros t m Ho Hst Hb Hw Hburst.
  { cbn. lia. }
  cbn [ordered_from] in Ho. destruct Ho as [Ht Ho].
  apply Forall_cons in Hw as [Hq Hw]. cbn [spec_run asked].
  destruct (step_entry _ _ _ _ (m !! req_bucket q)) as [ok e'] eqn:Hstep.
  unfold is_for. case_bool_decide as Hqb; cbn [accepted andb].
  - destruct (Hq Hqb) as [Hj Hin]. rewrite Hqb, Hb, Hj in Hstep.
    cbn [step_entry] in Hstep. injection Hstep as <- <-.
    assert (Hw' : within (window r) (at_ q) b jwt reqs).
    { eapply Forall_impl; [exact Hw|]. cbn. intros q' H Hq'. destruct (H Hq'). split; [done|lia]. }
    rewrite Hqb. erewrite (spec_run_capacity r b jwt (at_ q) reqs (at_ q));
      [|done|lia|apply lookup_insert_eq|done|done].
    unfold is_for, capacity; cbn. rewrite bool_decide_true by done. cbn.
    pose proof (asked_nonneg b reqs). lia.
  - unfold is_for. rewrite bool_decide_false by done. cbn.
    rewrite (IH (at_ q)); [lia|done|lia|by rewrite lookup_insert_ne|done|done].
Qed.

End RateLimit.

(** ** Properties *)

(** a caller passes the check on a peko exactly when it is the owner, or a
    grant of that very permission names it (by actor key) or the public; in
    every other case the denial names the resource, the permission and the
    caller's canonical address. *)
Theorem ownership_check_spec (keys : ActorKeys) (r : Ownership.Resource)
    (action : Ownership.Permission) (caller : ActorRef) :
  (Ownership.check_permission r action caller keys = Ok tt <->
     Ownership.permitted keys r action caller) /\
  (~ Ownership.permitted keys r action caller <->
     Ownership.check_permission r action caller keys =
       Err {| Ownership.denied_resource := Ownership.resource_id r;
              Ownership.denied_action := action;
              Ownership.denied_caller := canonical_address caller |}).
Proof.
  rewrite <- Ownership.check_Ok_iff. unfold Ownership.check_permission.
  destruct (same_actor keys (Ownership.res_owner r) caller),
    (Ownership.grants_allow keys action caller (Ownership.res_permissions r)); naive_solver.
Qed.

(** the public itself is only ever admitted through a grant to the public:
    it never passes as the owner nor under anybody's named grant. *)
Theorem public_needs_public_grant (keys : ActorKeys) (r : Ownership.Resource)
    (action : Ownership.Permission) :
  Ownership.check_permission r action Public keys = Ok tt <->
  exists g, g ∈ Ownership.res_permissions r /\ Ownership.grant_permission g = action /\
    Ownership.grant_subject g = Public.
Proof.
  assert (Hs : forall a, same_actor keys a Public = false)
    by (intros a; unfold same_actor; by destruct (is_public a)).
  rewrite Ownership.check_Ok_iff.
  unfold Ownership.permitted. setoid_rewrite Hs. naive_solver.
Qed.

(** an API key acts only within its scopes: for every caller context the
    constructors build, a write or admin action succeeds for an API key only
    if the key carries that scope, and only an admin key stands in for the
    owner. *)
Theorem api_key_confined (key : string) (scopes : list Caller.ApiKeyScope)
    (res : Caller.Resource) (owner : ActorRef) :
  let c := Caller.from_api_key key scopes in
  (forall a, Caller.check_permission c res a = Ok tt <-> Caller.required_scope a ∈ scopes) /\
  (Caller.SAdmin ∈ scopes -> Caller.permission_subject c owner = owner) /\
  (Caller.SAdmin ∉ scopes -> Caller.permission_subject c owner = User (Local "local" None)).
Proof.
  cbn. split; [|split].
  - intros a. unfold Caller.check_permission; cbn. by case_bool_decide.
  - intros H. unfold Caller.permission_subject, Caller.is_operator; cbn.
    by rewrite bool_decide_true.
  - intros H. unfold Caller.permission_subject, Caller.is_operator; cbn.
    by rewrite bool_decide_false.
Qed.

(** C40. pruning is unobservable: on every sequence of requests in clock order
    the limiter answers exactly like a limiter that keeps every bucket for
    ever. *)
Theorem rate_limit_prune_unobservable (r : RateLimit.RateLimiter) (now : Z)
    (reqs : list RateLimit.Request) :
  RateLimit.ordered_from now reqs ->
  fst (RateLimit.run r (RateLimit.new_state now) reqs) = RateLimit.spec_run r ∅ reqs.
Proof. intros Ho. apply (RateLimit.run_agrees r now); [done|]. intros k. by left. Qed.

Lemma rate_limit_prune_unobservable_witness :
  fst (RateLimit.run RateLimit.default_limits (RateLimit.new_state 0)
         [{| RateLimit.at_ := 5; RateLimit.req_bucket := "user:a"; RateLimit.req_jwt := true |}])
  = [true].
Proof.
  rewrite (rate_limit_prune_unobservable RateLimit.default_limits 0 [_]);
    [reflexivity | cbn; lia].
Defined.

(** within one window a bucket is granted exactly its limit (at least one
    request) plus its burst, whatever other callers do in between: of [n]
    requests the limiter accepts the smaller of [n] and that sum. *)
Theorem rate_limit_window_capacity (r : RateLimit.RateLimiter) (now : Z) (b : string)
    (jwt : bool) (reqs : list RateLimit.Request) :
  RateLimit.ordered_from now reqs -> 0 <= RateLimit.burst_of r jwt ->
  RateLimit.within (RateLimit.window r) now b jwt reqs ->
  RateLimit.accepted b reqs (fst (RateLimit.run r (RateLimit.new_state now) reqs)) =
    Z.min (RateLimit.asked b reqs)
          (Z.max 1 (RateLimit.limit_of r jwt) + RateLimit.burst_of r jwt).
Proof.
  intros Ho Hb Hw. rewrite (RateLimit.run_agrees r now _ ∅) by (done || (intros k; by left)).
  by apply (RateLimit.spec_run_capacity_fresh r b jwt reqs now now).
Qed.

Lemma rate_limit_window_capacity_witness :
  let q t := {| RateLimit.at_ := t; RateLimit.req_bucket := "user:a"; RateLimit.req_jwt := true |} in
  let r := RateLimit.new 1 1 1 1 in
  RateLimit.accepted "user:a" [q 1; q 2; q 3]
    (fst (RateLimit.run r (RateLimit.new_state 0) [q 1; q 2; q 3])) = 2.
Proof.
  intros q r.
  rewrite (rate_limit_window_capacity r 0 "user:a" true [q 1; q 2; q 3]);
    [reflexivity | cbn; lia | cbn; lia |].
  repeat apply Forall_cons_2; try apply Forall_nil_2; intros _; (split; [reflexivity | cbn; unfold RateLimit.one_minute; lia]).
Defined.
