(* ===== verification/Calendar.v ===== *)
(** * Calendar: the date arithmetic the runtime takes from chrono

    chrono is a library the sources only call.  [Calendar] lists the calls the
    modelled code makes, on instants counted in nanoseconds since the Unix
    epoch (UTC, no leap seconds); [CalendarLaws] states what chrono documents
    about them.  Code that uses dates is modelled over any [Calendar].
    [Gregorian] is an executable proleptic Gregorian calendar that satisfies
    the laws, used wherever a concrete calendar is needed. *)

From Stdlib Require Import ZArith Lia.
From stdpp Require Import base tactics.
From S2P Require Import Prelude.

Open Scope Z_scope.

Ltac Zify.zify_post_hook ::= Z.to_euclidean_division_equations.

Definition sec_ns : Z := 10 ^ 9.
Definition min_ns : Z := 60 * sec_ns.
Definition hour_ns : Z := 60 * min_ns.
Definition day_ns : Z := 24 * hour_ns.

(** ** The interface *)

Class Calendar := {
  cal_year : Z -> Z;
  cal_month : Z -> Z;
  cal_day : Z -> Z;
  cal_hour : Z -> Z;
  (** [weekday().num_days_from_monday()] *)
  cal_weekday : Z -> Z;
  (** [Utc.with_ymd_and_hms(y, mo, d, h, mi, s).single()] *)
  ymd_hms : Z -> Z -> Z -> Z -> Z -> Z -> option Z;
  (** instants whose month, and the first of the next one, chrono can represent *)
  supported : Z -> Prop;
}.

(** [date_naive], as days since the epoch, and midnight of such a day. *)
Definition date_naive (t : Z) : Z := t / day_ns.
Definition midnight (d : Z) : Z := d * day_ns.

Definition next_month (y m : Z) : Z * Z := if 12 <? m + 1 then (y + 1, 1) else (y, m + 1).

Class CalendarLaws (C : Calendar) := {
  cal_hour_law : forall t, cal_hour t = (t mod day_ns) / hour_ns;
  cal_weekday_law : forall t, cal_weekday t = (date_naive t + 3) mod 7;
  cal_month_range : forall t, 1 <= cal_month t <= 12;
  cal_same_day : forall t t' h, supported t -> date_naive t' = date_naive t -> 0 <= h < 24 ->
    ymd_hms (cal_year t') (cal_month t') (cal_day t') h 0 0
      = Some (midnight (date_naive t) + h * hour_ns);
  cal_month_span : forall t, supported t -> exists s e,
    ymd_hms (cal_year t) (cal_month t) 1 0 0 0 = Some s /\
    (let '(y, m) := next_month (cal_year t) (cal_month t) in ymd_hms y m 1 0 0 0 = Some e) /\
    s <= t < e /\
    forall t', s <= t' < e -> cal_year t' = cal_year t /\ cal_month t' = cal_month t;
}.

(** ** A Gregorian calendar *)

Module Gregorian.

Definition leap (y : Z) : bool :=
  (y mod 4 =? 0) && (negb (y mod 100 =? 0) || (y mod 400 =? 0)).

(** Days from 0001-01-01 to the first of January of year [y]. *)
Definition before_year (y : Z) : Z :=
  365 * (y - 1) + (y - 1) / 4 - (y - 1) / 100 + (y - 1) / 400.

Definition year_len (y : Z) : Z := if leap y then 366 else 365.

Definition before_month (l m : Z) : Z :=
  match m with
  | 1 => 0 | 2 => 31 | 3 => 59 + l | 4 => 90 + l | 5 => 120 + l | 6 => 151 + l
  | 7 => 181 + l | 8 => 212 + l | 9 => 243 + l | 10 => 273 + l | 11 => 304 + l
  | 12 => 334 + l | _ => 365 + l
  end.

Definition month_at (l d : Z) : Z :=
  if d <? 31 then 1 else if d <? 59 + l then 2 else if d <? 90 + l then 3
  else if d <? 120 + l then 4 else if d <? 151 + l then 5 else if d <? 181 + l then 6
  else if d <? 212 + l then 7 else if d <? 243 + l then 8 else if d <? 273 + l then 9
  else if d <? 304 + l then 10 else if d <? 334 + l then 11 else 12.

Definition epoch_day : Z := 719162.

Definition year_at (n : Z) : Z :=
  let y := n * 400 / 146097 + 1 in
  if n <? before_year y then y - 1
  else if before_year (y + 1) <=? n then y + 1 else y.

Definition leap_day (y : Z) : Z := if leap y then 1 else 0.
Definition day_index (t : Z) : Z := date_naive t + epoch_day.
Definition year_of (t : Z) : Z := year_at (day_index t).
Definition day_of_year (t : Z) : Z := day_index t - before_year (year_of t).
Definition month_of (t : Z) : Z := month_at (leap_day (year_of t)) (day_of_year t).
Definition day_of (t : Z) : Z :=
  day_of_year t - before_month (leap_day (year_of t)) (month_of t) + 1.

Definition first_of (y m : Z) : Z := before_year y + before_month (leap_day y) m.

Definition build (y mo d h mi s : Z) : option Z :=
  if (1 <=? mo) && (mo <=? 12) && (1 <=? d)
     && (d <=? before_month (leap_day y) (mo + 1) - before_month (leap_day y) mo)
     && (0 <=? h) && (h <? 24) && (0 <=? mi) && (mi <? 60) && (0 <=? s) && (s <? 60)
  then Some (midnight (first_of y mo + d - 1 - epoch_day)
             + h * hour_ns + mi * min_ns + s * sec_ns)
  else None.

#[export] Instance calendar : Calendar := {|
  cal_year := year_of; cal_month := month_of; cal_day := day_of;
  cal_hour t := (t mod day_ns) / hour_ns;
  cal_weekday t := (date_naive t + 3) mod 7;
  ymd_hms := build;
  supported _ := True;
|}.

Lemma leap_day_range y : 0 <= leap_day y <= 1.
Proof. unfold leap_day. destruct (leap y); lia. Qed.

Lemma before_year_succ y : before_year (y + 1) = before_year y + 365 + leap_day y.
Proof.
  unfold before_year, leap_day, leap.
  destruct (Z.eqb_spec (y mod 4) 0), (Z.eqb_spec (y mod 100) 0), (Z.eqb_spec (y mod 400) 0);
    cbn [andb orb negb]; lia.
Qed.

Lemma before_year_mono y y' : y <= y' -> before_year y + 365 * (y' - y) <= before_year y'.
Proof. unfold before_year. lia. Qed.

Lemma year_at_spec n : before_year (year_at n) <= n < before_year (year_at n + 1).
Proof.
  unfold year_at. set (y := n * 400 / 146097 + 1).
  assert (Hlo : before_year (y - 1) <= n) by (unfold before_year, y; lia).
  assert (Hhi : n < before_year (y + 2)) by (unfold before_year, y; lia).
  destruct (Z.ltb_spec n (before_year y)).
  - replace (y - 1 + 1) with y by lia. lia.
  - destruct (Z.leb_spec (before_year (y + 1)) n);
      [replace (y + 1 + 1) with (y + 2) by lia|]; lia.
Qed.

Lemma year_at_unique n y : before_year y <= n < before_year (y + 1) -> year_at n = y.
Proof.
  intros H. pose proof (year_at_spec n) as H'.
  destruct (Z.lt_trichotomy (year_at n) y) as [Hlt|[|Hlt]]; [|done|]; exfalso.
  - pose proof (before_year_mono (year_at n + 1) y). lia.
  - pose proof (before_year_mono (y + 1) (year_at n)). lia.
Qed.

Lemma month_at_spec l d : 0 <= l <= 1 -> 0 <= d < 365 + l ->
  1 <= month_at l d <= 12 /\
  before_month l (month_at l d) <= d < before_month l (month_at l d + 1).
Proof.
  intros Hl Hd. unfold month_at.
  repeat (match goal with |- context [?a <? ?b] => destruct (Z.ltb_spec a b) end);
    match goal with |- context [before_month l (?m + 1)] =>
      let k := eval compute in (m + 1) in change (m + 1) with k end;
    cbn; lia.
Qed.

Lemma before_month_mono l m m' : 0 <= l <= 1 -> 1 <= m <= m' -> m' <= 13 ->
  before_month l m + 28 * (m' - m) <= before_month l m'.
Proof.
  intros Hl Hm Hm'.
  assert (forall k, 1 <= k <= 13 -> k = 1 \/ k = 2 \/ k = 3 \/ k = 4 \/ k = 5 \/ k = 6 \/ k = 7
    \/ k = 8 \/ k = 9 \/ k = 10 \/ k = 11 \/ k = 12 \/ k = 13) as Hc by lia.
  pose proof (Hc m ltac:(lia)) as H1. pose proof (Hc m' ltac:(lia)) as H2. clear Hc.
  repeat (destruct H1 as [->|H1]); subst;
    repeat (destruct H2 as [->|H2]); subst; cbn; lia.
Qed.

Lemma month_at_unique l d m : 0 <= l <= 1 -> 0 <= d < 365 + l -> 1 <= m <= 12 ->
  before_month l m <= d < before_month l (m + 1) -> month_at l d = m.
Proof.
  intros Hl Hd Hm H. destruct (month_at_spec l d Hl Hd) as [Hr Hs].
  destruct (Z.lt_trichotomy (month_at l d) m) as [Hlt|[|Hlt]]; [|done|]; exfalso.
  - pose proof (before_month_mono l (month_at l d + 1) m). lia.
  - pose proof (before_month_mono l (m + 1) (month_at l d)). lia.
Qed.

Lemma day_of_year_range t : 0 <= day_of_year t < 365 + leap_day (year_of t).
Proof.
  unfold day_of_year, year_of. pose proof (year_at_spec (day_index t)).
  rewrite before_year_succ in *. lia.
Qed.

Lemma month_of_range t : 1 <= month_of t <= 12.
Proof. apply month_at_spec; auto using leap_day_range, day_of_year_range. Qed.

Lemma day_of_range t :
  1 <= day_of t <= before_month (leap_day (year_of t)) (month_of t + 1)
                   - before_month (leap_day (year_of t)) (month_of t).
Proof.
  pose proof (proj2 (month_at_spec _ _ (leap_day_range (year_of t)) (day_of_year_range t))).
  unfold day_of, month_of. lia.
Qed.

Lemma first_of_day t : first_of (year_of t) (month_of t) + day_of t - 1 = day_index t.
Proof. unfold first_of, day_of, day_of_year. lia. Qed.

Lemma first_of_next y m : 1 <= m <= 12 ->
  first_of (fst (next_month y m)) (snd (next_month y m)) =
    before_year y + before_month (leap_day y) (m + 1).
Proof.
  intros Hm. unfold next_month, first_of. destruct (Z.ltb_spec 12 (m + 1)); cbn [fst snd]; [|done].
  assert (m = 12) as -> by lia. rewrite before_year_succ. change (12 + 1) with 13. cbn. lia.
Qed.

Lemma in_month_iff t y m : 1 <= m <= 12 ->
  (year_of t = y /\ month_of t = m) <->
  first_of y m <= day_index t < first_of (fst (next_month y m)) (snd (next_month y m)).
Proof.
  intros Hm. rewrite first_of_next by done. unfold first_of. split.
  - intros [<- <-].
    pose proof (proj2 (month_at_spec _ _ (leap_day_range (year_of t)) (day_of_year_range t))).
    unfold month_of, day_of_year in *. lia.
  - intros H. pose proof (leap_day_range y).
    pose proof (before_month_mono (leap_day y) 1 m).
    pose proof (before_month_mono (leap_day y) (m + 1) 13).
    assert (Hy : year_of t = y).
    { apply year_at_unique. rewrite before_year_succ.
      change (before_month (leap_day y) 13) with (365 + leap_day y) in *.
      change (before_month (leap_day y) 1) with 0 in *. lia. }
    split; [done|]. unfold month_of. rewrite Hy. apply month_at_unique; [done| |done|].
    + rewrite <- Hy. apply day_of_year_range.
    + unfold day_of_year. rewrite Hy. lia.
Qed.

Lemma build_first y m : 1 <= m <= 12 ->
  build y m 1 0 0 0 = Some (midnight (first_of y m - epoch_day)).
Proof.
  intros Hm. unfold build. pose proof (leap_day_range y).
  pose proof (before_month_mono (leap_day y) m (m + 1)).
  replace (first_of y m + 1 - 1 - epoch_day) with (first_of y m - epoch_day) by lia.
  repeat (rewrite (proj2 (Z.leb_le _ _)) by lia). cbn [andb].
  rewrite !Z.mul_0_l, !Z.add_0_r. done.
Qed.

Lemma midnight_le d t : midnight d <= t <-> d <= date_naive t.
Proof. unfold midnight, date_naive, day_ns, hour_ns, min_ns, sec_ns. lia. Qed.

#[export] Instance calendar_laws : CalendarLaws calendar.
Proof.
  split; cbn [cal_year cal_month cal_day cal_hour cal_weekday ymd_hms calendar]; [done|done| | |].
  - apply month_of_range.
  - intros t t' h _ <- Hh. unfold build.
    pose proof (month_of_range t'). pose proof (day_of_range t').
    repeat (rewrite (proj2 (Z.leb_le _ _)) by lia).
    repeat (rewrite (proj2 (Z.ltb_lt _ _)) by lia). cbn [andb].
    rewrite first_of_day. unfold day_index.
    replace (date_naive t' + epoch_day - epoch_day) with (date_naive t') by lia.
    rewrite !Z.mul_0_l, !Z.add_0_r. done.
  - intros t _. set (y := year_of t). set (m := month_of t).
    assert (Hm : 1 <= m <= 12) by apply month_of_range.
    assert (Hn : 1 <= snd (next_month y m) <= 12)
      by (unfold next_month; destruct (Z.ltb_spec 12 (m + 1)); cbn; lia).
    assert (Hin : forall t', midnight (first_of y m - epoch_day) <= t' <
        midnight (first_of (fst (next_month y m)) (snd (next_month y m)) - epoch_day) <->
        year_of t' = y /\ month_of t' = m).
    { intros t'. rewrite (in_month_iff t' y m Hm), midnight_le.
      pose proof (midnight_le (first_of (fst (next_month y m)) (snd (next_month y m)) - epoch_day) t').
      unfold day_index. lia. }
    destruct (next_month y m) as [y' m']; cbn [fst snd] in *.
    eexists _, _. split; [by apply build_first|]. split; [by apply build_first|].
    split; [by apply Hin|]. intros t'. apply Hin.
Qed.

End Gregorian.
