(* ===== verification/Usage.v ===== *)
(** * Usage: token counts of one model call (peko-rs/message/src/lib.rs)

    [TokenUsage] is what a provider reports for a call; the quota meter folds
    it and messages carry it. *)

From Stdlib Require Import ZArith Lia.
From stdpp Require Import base tactics option.
From S2P Require Import Prelude.

Open Scope Z_scope.

Record TokenUsage := {
  usage_input : Z;
  usage_output : Z;
  usage_total : Z;
  usage_cache_creation : option Z;
  usage_cache_read : option Z;
  usage_reasoning : option Z;
}.

(** [TokenUsage::accumulate]; the additions are plain [u64] additions. *)
Definition add_opt (slot value : option Z) : option Z :=
  match value with
  | Some v => if 0 <? v then Some (default 0 slot + v) else slot
  | None => slot
  end.
Definition accumulate (self other : TokenUsage) : TokenUsage :=
  {| usage_input := usage_input self + usage_input other;
     usage_output := usage_output self + usage_output other;
     usage_total := usage_total self + usage_total other;
     usage_cache_creation := add_opt (usage_cache_creation self) (usage_cache_creation other);
     usage_cache_read := add_opt (usage_cache_read self) (usage_cache_read other);
     usage_reasoning := add_opt (usage_reasoning self) (usage_reasoning other) |}.

