(* ===== verification/Quota.v ===== *)
(** * Quota: budgets per calendar window (peko-rs/quota/src)

    [QuotaCycle] windows (config.rs), the window's counters (state.rs), the
    meter that checks, charges and rolls them (meter.rs) and the per-principal
    sum (aggregate.rs).  Dates come from a [Calendar]; the JSON codec of the
    state file is a parameter; the file system is the content of one path. *)

From Stdlib Require Import ZArith Lia Ascii Floats.SpecFloat.
From stdpp Require Import base tactics list gmap strings sorting.
From S2P Require Import Prelude Calendar Usage.

Open Scope Z_scope.

(** ** Cycles (config.rs) *)

Inductive QuotaCycle := Hourly | Daily | Weekly | Monthly.
#[export] Instance QuotaCycle_eq_dec : EqDecision QuotaCycle.
Proof. solve_decision. Defined.

Definition cycle_display (c : QuotaCycle) : string :=
  match c with
  | Hourly => "hourly" | Daily => "daily" | Weekly => "weekly" | Monthly => "monthly"
  end.

Definition cycle_from_str (s : string) : result QuotaCycle string :=
  let other := to_ascii_lowercase s in
  if decide (other = "hourly") then Ok Hourly
  else if decide (other = "daily") then Ok Daily
  else if decide (other = "weekly") then Ok Weekly
  else if decide (other = "monthly") then Ok Monthly
  else Err ("invalid quota cycle '" +:+ other +:+ "': expected hourly, daily, weekly, or monthly").

Record QuotaConfig := {
  cfg_input_tokens : option Z;
  cfg_output_tokens : option Z;
  cfg_request_count : option Z;
  cfg_cycle : QuotaCycle;
  cfg_cost_per_call_max : option f64;
  cfg_budget_per_cycle : option f64;
}.

Definition config_default : QuotaConfig :=
  {| cfg_input_tokens := None; cfg_output_tokens := None; cfg_request_count := None;
     cfg_cycle := Daily; cfg_cost_per_call_max := None; cfg_budget_per_cycle := None |}.

Definition has_any_limit (c : QuotaConfig) : bool :=
  is_some (cfg_input_tokens c) || is_some (cfg_output_tokens c)
  || is_some (cfg_request_count c) || is_some (cfg_cost_per_call_max c)
  || is_some (cfg_budget_per_cycle c).

(** ** State and usage *)

Record QuotaState := {
  window_start : Z;
  window_end : Z;
  cycle : QuotaCycle;
  input_tokens : Z;
  output_tokens : Z;
  request_count : Z;
  cost_usd : option f64;
  cache_read_tokens : Z;
  cache_creation_tokens : Z;
}.

Inductive QuotaError :=
  | InputTokensExceeded (used limit window_end : Z)
  | OutputTokensExceeded (used limit window_end : Z)
  | RequestCountExceeded (used limit window_end : Z)
  | BudgetExceeded (used limit : f64) (window_end : Z).

Section WithCalendar.
Context {C : Calendar}.

(** [None] is the panic of an [expect] on an unrepresentable date. *)
Definition next_boundary (c : QuotaCycle) (at_ : Z) : option Z :=
  match c with
  | Hourly => Some (at_ + hour_ns)
  | Daily => Some (at_ + day_ns)
  | Weekly => Some (at_ + 7 * day_ns)
  | Monthly =>
      let '(y, m) := (cal_year at_, cal_month at_) in
      let m := m + 1 in
      let '(y, m) := if 12 <? m then (y + 1, 1) else (y, m) in
      ymd_hms y m 1 0 0 0
  end.

Definition window_bounds (c : QuotaCycle) (now : Z) : option (Z * Z) :=
  let start :=
    match c with
    | Hourly => ymd_hms (cal_year now) (cal_month now) (cal_day now) (cal_hour now) 0 0
    | Daily => ymd_hms (cal_year now) (cal_month now) (cal_day now) 0 0 0
    | Weekly =>
        let days_since_monday := cal_weekday now in
        let monday_date := date_naive now - days_since_monday in
        Some (midnight monday_date)
    | Monthly => ymd_hms (cal_year now) (cal_month now) 1 0 0 0
    end in
  match start with
  | Some start =>
      match next_boundary c start with
      | Some end_ => Some (start, end_)
      | None => None
      end
  | None => None
  end.

Definition zeroed (c : QuotaCycle) (start end_ : Z) : QuotaState :=
  {| window_start := start; window_end := end_; cycle := c;
     input_tokens := 0; output_tokens := 0; request_count := 0;
     cost_usd := Some f64_zero; cache_read_tokens := 0; cache_creation_tokens := 0 |}.

Definition fresh (c : QuotaCycle) (now : Z) : option QuotaState :=
  match window_bounds c now with
  | Some (start, end_) => Some (zeroed c start end_)
  | None => None
  end.

(** ** The meter (meter.rs) *)

Definition check_inner (config : QuotaConfig) (s : QuotaState) : option QuotaError :=
  or_else (limit ← cfg_input_tokens config;
           if limit <? input_tokens s
           then Some (InputTokensExceeded (input_tokens s) limit (window_end s)) else None)
  (or_else (limit ← cfg_output_tokens config;
           if limit <? output_tokens s
           then Some (OutputTokensExceeded (output_tokens s) limit (window_end s)) else None)
  (or_else (limit ← cfg_request_count config;
           if limit <? request_count s
           then Some (RequestCountExceeded (request_count s) limit (window_end s)) else None)
  (limit ← cfg_budget_per_cycle config;
   let used := default f64_zero (cost_usd s) in
   if f64_gt used limit then Some (BudgetExceeded used limit (window_end s)) else None))).

(** [advance_if_needed]: the roll and whether it happened. *)
Definition advance_if_needed (config : QuotaConfig) (s : QuotaState) (now : Z)
    : option (QuotaState * bool) :=
  let drift := negb (bool_decide (cycle s = cfg_cycle config)) in
  if drift || (window_end s <=? now) then
    match window_bounds (cfg_cycle config) now with
    | Some (start, end_) => Some (zeroed (cfg_cycle config) start end_, true)
    | None => None
    end
  else Some (s, false).

Definition fold_usage (s : QuotaState) (u : TokenUsage) (cost : option f64) : QuotaState :=
  {| window_start := window_start s; window_end := window_end s; cycle := cycle s;
     input_tokens := sat_add_u64 (input_tokens s) (usage_input u);
     output_tokens := sat_add_u64 (output_tokens s) (usage_output u);
     request_count := sat_add_u64 (request_count s) 1;
     cost_usd :=
       match cost with
       | Some c => Some (f64_add (default f64_zero (cost_usd s)) c)
       | None => cost_usd s
       end;
     cache_read_tokens := sat_add_u64 (cache_read_tokens s)
       (default 0 (usage_cache_read u));
     cache_creation_tokens := sat_add_u64 (cache_creation_tokens s)
       (default 0 (usage_cache_creation u)) |}.

(** [charge_inner]: the new state and the verdict; the state is kept on error. *)
Definition charge_inner (config : QuotaConfig) (s : QuotaState) (u : TokenUsage)
    (cost : option f64) (now : Z) : option (QuotaState * result unit QuotaError) :=
  let drift := negb (bool_decide (cycle s = cfg_cycle config)) in
  let rolled :=
    if drift || (window_end s <=? now) then
      match window_bounds (cfg_cycle config) now with
      | Some (start, end_) => Some (zeroed (cfg_cycle config) start end_)
      | None => None
      end
    else Some s in
  match rolled with
  | None => None
  | Some s =>
      let s := fold_usage s u cost in
      Some (s, match check_inner config s with Some err => Err err | None => Ok tt end)
  end.

(** *** The meter with its state file *)

Record QuotaMeter := {
  config : QuotaConfig;
  state_path : option string;
  state : QuotaState;
}.

Definition with_state (m : QuotaMeter) (s : QuotaState) : QuotaMeter :=
  {| config := config m; state_path := state_path m; state := s |}.

(** The JSON codec of the state file. *)
Context (to_json : QuotaState -> string) (from_json : string -> option QuotaState).

(** [persist_state]: a failed save leaves the previous file and is only logged. *)
Definition persist_state (fs : gmap string string) (m : QuotaMeter) (io_ok : bool)
    : gmap string string :=
  match state_path m with
  | Some p => if io_ok then <[p := to_json (state m)]> fs else fs
  | None => fs
  end.

Inductive LoadError := ParseFailure | DatePanic.

Definition new (c : QuotaConfig) (path : option string) (now : Z) : option QuotaMeter :=
  s ← fresh (cfg_cycle c) now;
  Some {| config := c; state_path := path; state := s |}.

Definition unlimited (now : Z) : option QuotaMeter := new config_default None now.

Definition fresh_or_panic (c : QuotaConfig) (now : Z) : result QuotaState LoadError :=
  ok_or (fresh (cfg_cycle c) now) DatePanic.

Definition load_or_init (fs : gmap string string) (c : QuotaConfig) (path : option string)
    (now : Z) : result QuotaMeter LoadError :=
  let st :=
    match path with
    | Some p =>
        match fs !! p with
        | Some bytes => ok_or (from_json bytes) ParseFailure
        | None => fresh_or_panic c now
        end
    | None => fresh_or_panic c now
    end in
  match st with
  | Ok s => Ok {| config := c; state_path := path; state := s |}
  | Err e => Err e
  end.

Definition check (m : QuotaMeter) : option QuotaError := check_inner (config m) (state m).
Definition is_exhausted (m : QuotaMeter) : bool := is_some (check m).
Definition set_config (m : QuotaMeter) (c : QuotaConfig) : QuotaMeter :=
  {| config := c; state_path := state_path m; state := state m |}.

Definition try_charge_with (m : QuotaMeter) (u : TokenUsage) (cost : option f64) (now : Z)
    : option (QuotaMeter * result unit QuotaError) :=
  '(s, r) ← charge_inner (config m) (state m) u cost now;
  Some (with_state m s, r).

Definition try_charge m u now := try_charge_with m u None now.
Definition try_charge_with_cost m u cost now := try_charge_with m u (Some cost) now.

Definition charge_with (fs : gmap string string) (m : QuotaMeter) (u : TokenUsage)
    (cost : option f64) (now : Z) (io_ok : bool)
    : option (QuotaMeter * gmap string string * result unit QuotaError) :=
  '(m, r) ← try_charge_with m u cost now;
  Some (m, persist_state fs m io_ok, r).

Definition charge fs m u now io_ok := charge_with fs m u None now io_ok.
Definition charge_with_cost fs m u cost now io_ok := charge_with fs m u (Some cost) now io_ok.

Definition reset (fs : gmap string string) (m : QuotaMeter) (now : Z) (io_ok : bool)
    : option (QuotaMeter * gmap string string) :=
  '(start, end_) ← window_bounds (cfg_cycle (config m)) now;
  let m := with_state m (zeroed (cfg_cycle (config m)) start end_) in
  Some (m, persist_state fs m io_ok).

End WithCalendar.

(** ** Aggregation (aggregate.rs) *)

Definition add_state (total s : QuotaState) : QuotaState :=
  {| window_start := window_start total; window_end := window_end total; cycle := cycle total;
     input_tokens := sat_add_u64 (input_tokens total) (input_tokens s);
     output_tokens := sat_add_u64 (output_tokens total) (output_tokens s);
     request_count := sat_add_u64 (request_count total) (request_count s);
     cost_usd :=
       match cost_usd total, cost_usd s with
       | Some a, Some b => Some (f64_add a b)
       | Some a, None => Some a
       | None, Some b => Some b
       | None, None => None
       end;
     cache_read_tokens := sat_add_u64 (cache_read_tokens total) (cache_read_tokens s);
     cache_creation_tokens := sat_add_u64 (cache_creation_tokens total) (cache_creation_tokens s) |}.

Definition sum_states `{Calendar} (states : list QuotaState) (now : Z) : option QuotaState :=
  match states with
  | [] => fresh Daily now
  | first :: rest => Some (fold_left add_state rest first)
  end.

Definition sum_meters `{Calendar} (meters : list QuotaMeter) (now : Z) : option QuotaState :=
  match meters with
  | [] => fresh Daily now
  | _ => sum_states (map state meters) now
  end.

(** ** Windows *)

Ltac ns := unfold midnight, date_naive, day_ns, hour_ns, min_ns, sec_ns in *.

Section Windows.
Context {C : Calendar} {L : CalendarLaws C}.

(** A window is found, contains the instant, and is the window of each of its
    instants. *)
Definition is_window (c : QuotaCycle) (now s e : Z) : Prop :=
  window_bounds c now = Some (s, e) /\ s <= now < e /\
  forall t, s <= t < e -> window_bounds c t = Some (s, e).

Lemma hourly_window now : supported now ->
  is_window Hourly now (midnight (date_naive now) + cal_hour now * hour_ns)
            (midnight (date_naive now) + cal_hour now * hour_ns + hour_ns).
Proof.
  intros Hs.
  assert (Hb : forall t, midnight (date_naive now) + cal_hour now * hour_ns <= t <
      midnight (date_naive now) + cal_hour now * hour_ns + hour_ns ->
      window_bounds Hourly t = Some (midnight (date_naive now) + cal_hour now * hour_ns,
        midnight (date_naive now) + cal_hour now * hour_ns + hour_ns)).
  { intros t Ht. unfold window_bounds.
    assert (Hd : date_naive t = date_naive now) by (rewrite cal_hour_law in Ht; ns; lia).
    assert (Hh : cal_hour t = cal_hour now) by (rewrite !cal_hour_law in *; ns; lia).
    rewrite (cal_same_day now t) by (done || (rewrite cal_hour_law; ns; lia)).
    by rewrite Hh. }
  split; [|split; [|exact Hb]]; [apply Hb|]; rewrite cal_hour_law; ns; lia.
Qed.

Lemma daily_window now : supported now ->
  is_window Daily now (midnight (date_naive now)) (midnight (date_naive now) + day_ns).
Proof.
  intros Hs.
  assert (Hb : forall t, midnight (date_naive now) <= t < midnight (date_naive now) + day_ns ->
      window_bounds Daily t = Some (midnight (date_naive now), midnight (date_naive now) + day_ns)).
  { intros t Ht. unfold window_bounds.
    assert (Hd : date_naive t = date_naive now) by (ns; lia).
    rewrite (cal_same_day now t) by (done || lia). by rewrite Z.mul_0_l, Z.add_0_r. }
  split; [|split; [|exact Hb]]; [apply Hb|]; ns; lia.
Qed.

Definition monday (now : Z) : Z := date_naive now - (date_naive now + 3) mod 7.

Lemma weekly_window now :
  is_window Weekly now (midnight (monday now)) (midnight (monday now) + 7 * day_ns).
Proof.
  assert (Hb : forall t, midnight (monday now) <= t < midnight (monday now) + 7 * day_ns ->
      window_bounds Weekly t = Some (midnight (monday now), midnight (monday now) + 7 * day_ns)).
  { intros t Ht. unfold window_bounds. rewrite cal_weekday_law.
    assert (Hm : date_naive t - (date_naive t + 3) mod 7 = monday now)
      by (unfold monday in *; ns; lia).
    by rewrite Hm. }
  split; [|split; [|exact Hb]]; [apply Hb|]; unfold monday; ns; lia.
Qed.

Lemma monthly_window now : supported now -> exists s e, is_window Monthly now s e.
Proof.
  intros Hs. destruct (cal_month_span now Hs) as (s & e & H1 & H2 & H3 & H4).
  exists s, e.
  assert (Hb : forall t, s <= t < e -> window_bounds Monthly t = Some (s, e)).
  { intros t Ht. destruct (H4 t Ht) as [Hy Hm]. unfold window_bounds.
    rewrite Hy, Hm, H1. unfold next_boundary.
    destruct (H4 s ltac:(lia)) as [-> ->]. unfold next_month in H2.
    destruct (12 <? cal_month now + 1); by rewrite H2. }
  split; [by apply Hb|]. by split.
Qed.

Lemma window_exists c now : supported now -> exists s e, is_window c now s e.
Proof.
  intros Hs. destruct c.
  - eexists _, _. by apply hourly_window.
  - eexists _, _. by apply daily_window.
  - eexists _, _. apply weekly_window.
  - by apply monthly_window.
Qed.

(** Later windows start at or after the end of earlier ones. *)
Lemma window_disjoint c t s e t' s' e' :
  is_window c t s e -> is_window c t' s' e' -> e <= t' -> e <= s'.
Proof.
  intros (_ & Ht & H) (_ & Ht' & H') Hle.
  destruct (Z.le_gt_cases e s') as [|Hlt]; [done|]. exfalso.
  pose proof (H (Z.max s s') ltac:(lia)) as E1.
  pose proof (H' (Z.max s s') ltac:(lia)) as E2.
  rewrite E1 in E2. injection E2 as <- <-. lia.
Qed.

(** ** Charges *)

Record Charge := { ch_at : Z; ch_usage : TokenUsage; ch_cost : option f64 }.

Fixpoint charge_all (cfg : QuotaConfig) (s : QuotaState) (cs : list Charge)
    : option QuotaState :=
  match cs with
  | [] => Some s
  | c :: cs =>
      match charge_inner cfg s (ch_usage c) (ch_cost c) (ch_at c) with
      | Some (s, _) => charge_all cfg s cs
      | None => None
      end
  end.

(** What is spent from an instant on, for a measure of usage, capped at [u64]. *)
Fixpoint spent_exactly (f : TokenUsage -> Z) (from : Z) (cs : list Charge) : Z :=
  match cs with
  | [] => 0
  | c :: cs => (if from <=? ch_at c then f (ch_usage c) else 0) + spent_exactly f from cs
  end.
Definition spent (f : TokenUsage -> Z) (from : Z) (cs : list Charge) : Z :=
  Z.min u64_max (spent_exactly f from cs).

Definition usage_ok (u : TokenUsage) : Prop :=
  0 <= usage_input u /\ 0 <= usage_output u /\
  0 <= default 0 (usage_cache_read u) /\ 0 <= default 0 (usage_cache_creation u).

(** The counters of [s] are what the charges [cs] spent in its window. *)
Definition accounts (s : QuotaState) (cs : list Charge) : Prop :=
  input_tokens s = spent usage_input (window_start s) cs /\
  output_tokens s = spent usage_output (window_start s) cs /\
  request_count s = spent (fun _ => 1) (window_start s) cs /\
  cache_read_tokens s = spent (fun u => default 0 (usage_cache_read u)) (window_start s) cs /\
  cache_creation_tokens s = spent (fun u => default 0 (usage_cache_creation u)) (window_start s) cs.

Fixpoint charges_from (t : Z) (cs : list Charge) : Prop :=
  match cs with
  | [] => True
  | c :: cs => t <= ch_at c /\ supported (ch_at c) /\ usage_ok (ch_usage c) /\ charges_from (ch_at c) cs
  end.

Lemma spent_exactly_app f from cs cs' :
  spent_exactly f from (cs ++ cs') = spent_exactly f from cs + spent_exactly f from cs'.
Proof. induction cs as [|c cs IH]; cbn [app spent_exactly]; lia. Qed.

Lemma spent_exactly_nonneg f from cs :
  Forall (fun c => 0 <= f (ch_usage c)) cs -> 0 <= spent_exactly f from cs.
Proof. induction 1; cbn [spent_exactly]; [lia|]. case_match; lia. Qed.

Lemma spent_app f from cs c :
  Forall (fun c => 0 <= f (ch_usage c)) cs -> 0 <= f (ch_usage c) -> from <= ch_at c ->
  spent f from (cs ++ [c]) = sat_add_u64 (spent f from cs) (f (ch_usage c)).
Proof.
  intros Hcs Hc Hfrom. unfold spent, sat_add_u64. rewrite spent_exactly_app.
  cbn [spent_exactly]. rewrite (proj2 (Z.leb_le _ _) Hfrom).
  pose proof (spent_exactly_nonneg f from cs Hcs). lia.
Qed.

Lemma spent_before f from cs :
  Forall (fun c => ch_at c < from) cs -> spent f from cs = 0.
Proof.
  intros H. unfold spent. pose proof u64_max_pos. enough (spent_exactly f from cs = 0) by lia.
  induction H as [|c cs Hc _ IH]; cbn [spent_exactly]; [done|].
  by rewrite (proj2 (Z.leb_gt _ _) Hc), IH.
Qed.

(** The meter's state after the charges [cs], the last of them at [t]. *)
Record meter_inv (cfg : QuotaConfig) (t : Z) (cs : list Charge) (s : QuotaState) : Prop := {
  inv_cycle : cycle s = cfg_cycle cfg;
  inv_window : is_window (cfg_cycle cfg) t (window_start s) (window_end s);
  inv_past : Forall (fun c => ch_at c <= t) cs;
  inv_usage : Forall (fun c => usage_ok (ch_usage c)) cs;
  inv_accounts : accounts s cs;
}.

Lemma inv_fresh cfg t s : supported t -> fresh (cfg_cycle cfg) t = Some s -> meter_inv cfg t [] s.
Proof.
  intros Hs. destruct (window_exists (cfg_cycle cfg) t Hs) as (a & b & Hw).
  unfold fresh. rewrite (proj1 Hw). intros [= <-]. split; try done.
Qed.

Lemma accounts_fold s cs c :
  accounts s cs -> Forall (fun c => usage_ok (ch_usage c)) cs -> usage_ok (ch_usage c) ->
  window_start s <= ch_at c -> accounts (fold_usage s (ch_usage c) (ch_cost c)) (cs ++ [c]).
Proof.
  intros (H1 & H2 & H3 & H4 & H5) Hcs Hc Hle. unfold accounts. cbn [fold_usage window_start
    input_tokens output_tokens request_count cache_read_tokens cache_creation_tokens].
  assert (Hs : forall f, (forall u, usage_ok u -> 0 <= f u) ->
    spent f (window_start s) (cs ++ [c]) =
      sat_add_u64 (spent f (window_start s) cs) (f (ch_usage c))).
  { intros f Hf. apply spent_app; auto. eapply Forall_impl; [exact Hcs|]; cbn; auto. }
  rewrite H1, H2, H3, H4, H5.
  repeat split; symmetry; apply Hs; intros u Hu; unfold usage_ok in Hu; lia.
Qed.

Lemma accounts_roll cfg c cs t s e :
  is_window (cfg_cycle cfg) (ch_at c) s e -> Forall (fun c => ch_at c < s) cs ->
  usage_ok (ch_usage c) -> t = cfg_cycle cfg ->
  accounts (fold_usage (zeroed t s e) (ch_usage c) (ch_cost c)) (cs ++ [c]).
Proof.
  intros (_ & Hin & _) Hb Hc ->. unfold accounts; cbn [fold_usage zeroed window_start input_tokens
    output_tokens request_count cache_read_tokens cache_creation_tokens].
  unfold spent, sat_add_u64. rewrite !spent_exactly_app. cbn [spent_exactly].
  rewrite (proj2 (Z.leb_le s (ch_at c))) by lia.
  assert (Hz : forall f, spent_exactly f s cs = 0).
  { intros f. pose proof (spent_before f s cs Hb) as E. unfold spent in E.
    pose proof u64_max_pos. unfold u64_max in *. lia. }
  rewrite !Hz. unfold usage_ok in Hc. repeat split; lia.
Qed.

(** One charge keeps the invariant; it cannot hit the panic. *)
Lemma charge_inv cfg t cs s c :
  meter_inv cfg t cs s -> t <= ch_at c -> supported (ch_at c) -> usage_ok (ch_usage c) ->
  exists s' r, charge_inner cfg s (ch_usage c) (ch_cost c) (ch_at c) = Some (s', r) /\
    meter_inv cfg (ch_at c) (cs ++ [c]) s'.
Proof.
  intros [Hcy Hw Hpast Hus Hac] Ht Hsup Hok. unfold charge_inner.
  rewrite bool_decide_true by done. cbn [negb orb].
  assert (Hpast' : Forall (fun c' => ch_at c' <= ch_at c) (cs ++ [c])).
  { apply Forall_app; split; [|by apply Forall_singleton].
    eapply Forall_impl; [exact Hpast|]; cbn; lia. }
  assert (Hus' : Forall (fun c => usage_ok (ch_usage c)) (cs ++ [c]))
    by (apply Forall_app; split; [done|by apply Forall_singleton]).
  destruct (Z.leb_spec (window_end s) (ch_at c)) as [Hend|Hend].
  - destruct (window_exists (cfg_cycle cfg) (ch_at c) Hsup) as (a & b & Hw').
    rewrite (proj1 Hw'). eexists _, _. split; [done|]. split; try done.
    apply (accounts_roll cfg); try done.
    pose proof (window_disjoint _ _ _ _ _ _ _ Hw Hw' Hend).
    destruct Hw as (_ & Hin & _).
    eapply Forall_impl; [exact Hpast|]; cbn; lia.
  - eexists _, _. split; [done|]. destruct Hw as (Hb & Hin & Hall). split; try done.
    + split; [apply Hall; cbn; lia|]. split; [cbn; lia|done].
    + apply accounts_fold; try done. lia.
Qed.

Lemma charge_all_inv cfg t past s cs :
  meter_inv cfg t past s -> charges_from t cs ->
  exists s' t', charge_all cfg s cs = Some s' /\ meter_inv cfg t' (past ++ cs) s' /\
    t' = match last cs with Some c => ch_at c | None => t end.
Proof.
  revert t past s. induction cs as [|c cs IH]; intros t past s Hinv Hcs.
  - exists s, t. by rewrite app_nil_r.
  - destruct Hcs as (Ht & Hsup & Hok & Hcs).
    destruct (charge_inv cfg t past s c Hinv Ht Hsup Hok) as (s1 & r & E & Hinv1).
    cbn [charge_all]. rewrite E.
    destruct (IH (ch_at c) (past ++ [c]) s1 Hinv1 Hcs) as (s' & t' & E' & Hinv' & Hlast).
    exists s', t'. rewrite <- app_assoc in Hinv'. split; [done|]. split; [done|].
    rewrite Hlast, last_cons. by destruct (last cs).
Qed.

End Windows.

(** ** Limits *)

(** The counters are within every configured limit (inclusive). *)
Definition within_limit (limit : option Z) (used : Z) : Prop :=
  forall l, limit = Some l -> used <= l.
Definition within_limits (cfg : QuotaConfig) (s : QuotaState) : Prop :=
  within_limit (cfg_input_tokens cfg) (input_tokens s) /\
  within_limit (cfg_output_tokens cfg) (output_tokens s) /\
  within_limit (cfg_request_count cfg) (request_count s) /\
  (forall l, cfg_budget_per_cycle cfg = Some l -> f64_gt (default f64_zero (cost_usd s)) l = false).

Lemma limit_None (limit : option Z) (used : Z) (err : Z -> QuotaError) :
  (l ← limit; if l <? used then Some (err l) else None) = None <-> within_limit limit used.
Proof.
  unfold within_limit. destruct limit as [l|]; cbn; [|by split].
  destruct (Z.ltb_spec l used) as [Hlt|Hge]; split; try done.
  - intros H. specialize (H l eq_refl). lia.
  - intros _ l' [= <-]. done.
Qed.

Lemma budget_None (limit : option f64) (used : f64) (err : f64 -> QuotaError) :
  (l ← limit; if f64_gt used l then Some (err l) else None) = None <->
  (forall l, limit = Some l -> f64_gt used l = false).
Proof.
  destruct limit as [l|]; cbn; [|by split].
  destruct (f64_gt used l) eqn:E; split; try done.
  - intros H. specialize (H l eq_refl). congruence.
  - intros _ l' [= <-]. done.
Qed.

Lemma check_inner_None cfg s : check_inner cfg s = None <-> within_limits cfg s.
Proof.
  unfold check_inner, within_limits. rewrite !or_else_None, !limit_None.
  by rewrite (budget_None _ _ (fun l => BudgetExceeded _ l _)).
Qed.

Lemma charge_inner_result {C : Calendar} cfg s u cost now s' r :
  charge_inner cfg s u cost now = Some (s', r) ->
  r = match check_inner cfg s' with Some err => Err err | None => Ok tt end.
Proof. unfold charge_inner. case_match; [|done]. by intros [= <- <-]. Qed.

(** A fold only raises counters that are [u64]. *)
Lemma fold_usage_ge s u cost : is_u64 (input_tokens s) -> is_u64 (output_tokens s) ->
  is_u64 (request_count s) -> usage_ok u ->
  input_tokens s <= input_tokens (fold_usage s u cost) /\
  output_tokens s <= output_tokens (fold_usage s u cost) /\
  request_count s <= request_count (fold_usage s u cost).
Proof.
  intros H1 H2 H3 (Hu1 & Hu2 & _). cbn. split_and!; apply sat_add_u64_ge; auto; lia.
Qed.

(** ** Concurrent charges and the state file *)

(** Tasks charge under the state lock, then persist: under the persistence
    lock they take a snapshot and write it.  [pending] counts the tasks that
    have charged and not yet taken their snapshot; [writing] is the snapshot
    of the task that holds the persistence lock. *)
Module Persistence.
Section Steps.
Context {C : Calendar} (cfg : QuotaConfig).

Record sys := {
  mem : QuotaState;
  disk : option QuotaState;
  pending : nat;
  writing : option QuotaState;
  failed : bool;
}.

Inductive step : sys -> sys -> Prop :=
  | step_charge st u cost now s' r :
      charge_inner cfg (mem st) u cost now = Some (s', r) ->
      step st {| mem := s'; disk := disk st; pending := S (pending st);
                 writing := writing st; failed := failed st |}
  | step_snapshot st n :
      pending st = S n -> writing st = None ->
      step st {| mem := mem st; disk := disk st; pending := n;
                 writing := Some (mem st); failed := failed st |}
  | step_write st s :
      writing st = Some s ->
      step st {| mem := mem st; disk := Some s; pending := pending st;
                 writing := None; failed := failed st |}
  | step_write_error st s :
      writing st = Some s ->
      step st {| mem := mem st; disk := disk st; pending := pending st;
                 writing := None; failed := true |}.

Definition init (s : QuotaState) (d : option QuotaState) : sys :=
  {| mem := s; disk := d; pending := 0; writing := None; failed := false |}.

Definition inv (st : sys) : Prop :=
  failed st = false -> pending st = 0%nat ->
  match writing st with Some s => s = mem st | None => disk st = Some (mem st) end.

Lemma step_inv st st' : step st st' -> inv st -> inv st'.
Proof.
  unfold inv. intros [st0 u cost now s' r _|st0 n Hp Hw|st0 s Hw|st0 s Hw]; cbn; try done.
  intros H Hf H0. rewrite Hw in H. f_equal. by apply H.
Qed.

Lemma steps_inv st st' : rtc step st st' -> inv st -> inv st'.
Proof. induction 1; eauto using step_inv. Qed.

End Steps.
End Persistence.

(** JSON can express the recorded cost. *)
Definition cost_finite (s : QuotaState) : bool :=
  match cost_usd s with Some c => f64_finite c | None => true end.

(** ** Aggregation *)

Definition state_ok (s : QuotaState) : Prop :=
  is_u64 (input_tokens s) /\ is_u64 (output_tokens s) /\ is_u64 (request_count s).

Lemma fold_add_counter (f : QuotaState -> Z) (l : list QuotaState) (s : QuotaState) :
  (forall a b, f (add_state a b) = sat_add_u64 (f a) (f b)) ->
  is_u64 (f s) -> Forall (fun s => is_u64 (f s)) l ->
  f (fold_left add_state l s) = Z.min u64_max (foldr Z.add 0 (map f (s :: l))).
Proof.
  intros Hf. revert s. induction l as [|x l IH]; intros s Hs Hl.
  - cbn. unfold is_u64 in Hs. lia.
  - apply Forall_cons in Hl as [Hx Hl]. cbn [fold_left]. rewrite IH; [|rewrite Hf; auto with peko|done].
    cbn [map foldr]. rewrite Hf. unfold sat_add_u64.
    assert (0 <= foldr Z.add 0 (map f l)).
    { clear -Hl. induction Hl as [|y l [? _] _ IH]; cbn; lia. }
    unfold is_u64 in *. lia.
Qed.

(** ** Properties *)

(** for every cycle and every representable instant the window exists
    (no panic), contains the instant, and every instant of that window has the
    same window: the windows of a cycle partition time at calendar
    boundaries. *)
Theorem quota_windows_partition {C : Calendar} {L : CalendarLaws C} (c : QuotaCycle) (now : Z) :
  supported now ->
  exists s e, window_bounds c now = Some (s, e) /\ s <= now < e /\
    forall t, s <= t < e -> window_bounds c t = Some (s, e).
Proof. intros Hs. exact (window_exists c now Hs). Qed.

(** The week of Wednesday 2026-07-15 14:37:22 UTC starts on Monday the 13th. *)
Lemma quota_windows_partition_witness :
  (exists s e, window_bounds (C := Gregorian.calendar) Weekly (1784126242 * sec_ns) = Some (s, e) /\
     s <= 1784126242 * sec_ns < e /\
     forall t, s <= t < e -> window_bounds (C := Gregorian.calendar) Weekly t = Some (s, e)) /\
  window_bounds (C := Gregorian.calendar) Weekly (1784126242 * sec_ns)
    = Some (1783900800 * sec_ns, 1784505600 * sec_ns).
Proof.
  split; [apply (quota_windows_partition (L := Gregorian.calendar_laws)); exact I | vm_compute; reflexivity].
Defined.

(** C26. starting from a fresh meter, any sequence of charges in clock order
    runs without a panic and leaves counters equal to exactly what was spent
    in the current calendar window: charges of earlier windows no longer
    count, none of this window is lost, and each counter saturates at u64. *)
Theorem quota_meter_accounts {C : Calendar} {L : CalendarLaws C} (cfg : QuotaConfig) (t0 : Z)
    (s0 : QuotaState) (cs : list Charge) :
  supported t0 -> fresh (cfg_cycle cfg) t0 = Some s0 -> charges_from t0 cs ->
  exists s, charge_all cfg s0 cs = Some s /\ accounts s cs /\
    window_bounds (cfg_cycle cfg) (match last cs with Some c => ch_at c | None => t0 end)
      = Some (window_start s, window_end s).
Proof.
  intros Hsup Hf Hcs.
  destruct (charge_all_inv cfg t0 [] s0 cs (inv_fresh cfg t0 s0 Hsup Hf) Hcs) as (s & t & E & Hinv & ->).
  exists s. split; [done|]. split; [apply (inv_accounts _ _ _ _ Hinv)|].
  exact (proj1 (inv_window _ _ _ _ Hinv)).
Qed.

Definition usage_of (i o : Z) : TokenUsage :=
  {| usage_input := i; usage_output := o; usage_total := i + o;
     usage_cache_creation := None; usage_cache_read := None; usage_reasoning := None |}.

Lemma quota_meter_accounts_witness :
  let cfg := config_default in
  let c t i := {| ch_at := t; ch_usage := usage_of i 1; ch_cost := None |} in
  exists s, charge_all (C := Gregorian.calendar) cfg (zeroed Daily 0 day_ns)
      [c 5 100; c (day_ns + 1) 7; c (day_ns + 2) 9] = Some s /\
    accounts s [c 5 100; c (day_ns + 1) 7; c (day_ns + 2) 9] /\
    window_bounds (C := Gregorian.calendar) Daily (day_ns + 2) = Some (window_start s, window_end s).
Proof.
  intros cfg c.
  apply (quota_meter_accounts (L := Gregorian.calendar_laws) cfg 0 (zeroed Daily 0 day_ns)
           [c 5 100; c (day_ns + 1) 7; c (day_ns + 2) 9]);
    [exact I | vm_compute; reflexivity |].
  vm_compute. intuition congruence.
Defined.

(** the verdict of a charge is determined by the counters after it, and
    limits are inclusive: it succeeds exactly when every configured limit
    still holds, and otherwise reports the first limit crossed in the order
    input, output, requests, budget, with the true usage, limit and reset
    time. *)
Theorem quota_charge_verdict {C : Calendar} (cfg : QuotaConfig) (s : QuotaState) (u : TokenUsage)
    (cost : option f64) (now : Z) (s' : QuotaState) (r : result unit QuotaError) :
  charge_inner cfg s u cost now = Some (s', r) ->
  (r = Ok tt <-> within_limits cfg s') /\
  match r with
  | Ok _ => True
  | Err (InputTokensExceeded used l w) =>
      cfg_input_tokens cfg = Some l /\ used = input_tokens s' /\ l < used /\ w = window_end s'
  | Err (OutputTokensExceeded used l w) =>
      cfg_output_tokens cfg = Some l /\ used = output_tokens s' /\ l < used /\ w = window_end s' /\
      within_limit (cfg_input_tokens cfg) (input_tokens s')
  | Err (RequestCountExceeded used l w) =>
      cfg_request_count cfg = Some l /\ used = request_count s' /\ l < used /\ w = window_end s' /\
      within_limit (cfg_input_tokens cfg) (input_tokens s') /\
      within_limit (cfg_output_tokens cfg) (output_tokens s')
  | Err (BudgetExceeded used l w) =>
      cfg_budget_per_cycle cfg = Some l /\ used = default f64_zero (cost_usd s') /\
      f64_gt used l = true /\ w = window_end s' /\
      within_limit (cfg_input_tokens cfg) (input_tokens s') /\
      within_limit (cfg_output_tokens cfg) (output_tokens s') /\
      within_limit (cfg_request_count cfg) (request_count s')
  end.
Proof.
  intros H. apply charge_inner_result in H. subst r.
  pose proof (check_inner_None cfg s') as HN.
  destruct (check_inner cfg s') as [e|] eqn:E; [|split; [tauto|done]].
  split; [split; [done|]; intros Hw; apply HN in Hw; done|]. clear HN.
  unfold check_inner in E.
  destruct (l ← cfg_input_tokens cfg; _) as [ei|] eqn:Ei; cbn [or_else] in E.
  { destruct (cfg_input_tokens cfg) as [l|]; cbn in Ei; [|done].
    destruct (Z.ltb_spec l (input_tokens s')); [|done]. by simplify_eq. }
  rewrite (limit_None _ _ (fun l => InputTokensExceeded _ l _)) in Ei.
  destruct (l ← cfg_output_tokens cfg; _) as [eo|] eqn:Eo; cbn [or_else] in E.
  { destruct (cfg_output_tokens cfg) as [l|]; cbn in Eo; [|done].
    destruct (Z.ltb_spec l (output_tokens s')); [|done]. by simplify_eq. }
  rewrite (limit_None _ _ (fun l => OutputTokensExceeded _ l _)) in Eo.
  destruct (l ← cfg_request_count cfg; _) as [er|] eqn:Er; cbn [or_else] in E.
  { destruct (cfg_request_count cfg) as [l|]; cbn in Er; [|done].
    destruct (Z.ltb_spec l (request_count s')); [|done]. by simplify_eq. }
  rewrite (limit_None _ _ (fun l => RequestCountExceeded _ l _)) in Er.
  destruct (cfg_budget_per_cycle cfg) as [l|]; cbn in E; [|done].
  destruct (f64_gt _ l) eqn:Eg; [|done]. by simplify_eq.
Qed.

Definition one_request_cfg : QuotaConfig :=
  {| cfg_input_tokens := None; cfg_output_tokens := None; cfg_request_count := Some 1;
     cfg_cycle := Daily; cfg_cost_per_call_max := None; cfg_budget_per_cycle := None |}.

Lemma quota_charge_verdict_witness :
  let s' := fold_usage (fold_usage (zeroed Daily 0 day_ns) (usage_of 1 1) None) (usage_of 1 1) None in
  cfg_request_count one_request_cfg = Some 1 /\ 2 = request_count s' /\ 1 < 2 /\ day_ns = window_end s' /\
  within_limit None (input_tokens s') /\ within_limit None (output_tokens s').
Proof.
  apply (quota_charge_verdict (C := Gregorian.calendar) one_request_cfg
    (fold_usage (zeroed Daily 0 day_ns) (usage_of 1 1) None) (usage_of 1 1) None 7 _
    (Err (RequestCountExceeded 2 1 day_ns))).
  vm_compute. reflexivity.
Defined.

(** a token or request limit that has been crossed refuses every further
    charge until the window ends: no charge can bring the meter back under
    its limit. *)
Theorem quota_exhaustion_sticky {C : Calendar} (cfg : QuotaConfig) (s : QuotaState)
    (u : TokenUsage) (cost : option f64) (now : Z) :
  state_ok s -> cycle s = cfg_cycle cfg -> now < window_end s -> usage_ok u ->
  ~ (within_limit (cfg_input_tokens cfg) (input_tokens s) /\
     within_limit (cfg_output_tokens cfg) (output_tokens s) /\
     within_limit (cfg_request_count cfg) (request_count s)) ->
  exists s' e, charge_inner cfg s u cost now = Some (s', Err e) /\ window_end s' = window_end s.
Proof.
  intros (H1 & H2 & H3) Hcy Hnow Hu Hex. unfold charge_inner.
  rewrite bool_decide_true, (proj2 (Z.leb_gt _ _) Hnow) by done. cbn [negb orb].
  destruct (fold_usage_ge s u cost H1 H2 H3 Hu) as (Hi & Ho & Hr).
  destruct (check_inner cfg (fold_usage s u cost)) as [e|] eqn:E; [by eexists _, _|].
  exfalso. apply Hex. apply check_inner_None in E as (Wi & Wo & Wr & _).
  unfold within_limit in *. split_and!; intros l Hl;
    [specialize (Wi l Hl)|specialize (Wo l Hl)|specialize (Wr l Hl)]; lia.
Qed.

Lemma quota_exhaustion_sticky_witness :
  let s := fold_usage (fold_usage (zeroed Daily 0 day_ns) (usage_of 1 1) None) (usage_of 1 1) None in
  exists s' e, charge_inner (C := Gregorian.calendar) one_request_cfg s (usage_of 1 1) None 9
    = Some (s', Err e) /\ window_end s' = window_end s.
Proof.
  apply (quota_exhaustion_sticky (C := Gregorian.calendar)); [vm_compute; intuition congruence
    | reflexivity | vm_compute; reflexivity | vm_compute; intuition congruence |].
  intros (_ & _ & H). specialize (H 1 eq_refl). vm_compute in H. congruence.
Defined.

(** however charges and writes of concurrent tasks interleave, once at
    least one charge has happened, every task has finished persisting and no
    write failed, the file holds the final in-memory counters. *)
Theorem quota_persists_latest {C : Calendar} (cfg : QuotaConfig) (s : QuotaState)
    (d : option QuotaState) (st1 st : Persistence.sys) :
  Persistence.step cfg (Persistence.init s d) st1 -> rtc (Persistence.step cfg) st1 st ->
  Persistence.pending st = 0%nat -> Persistence.writing st = None ->
  Persistence.failed st = false ->
  Persistence.disk st = Some (Persistence.mem st).
Proof.
  intros H1 Hrtc Hp Hw Hf. enough (Persistence.inv st) as Hinv.
  { specialize (Hinv Hf Hp). by rewrite Hw in Hinv. }
  apply (Persistence.steps_inv cfg st1); [done|].
  unfold Persistence.inv. inversion H1; subst; cbn in *; discriminate.
Qed.

Lemma quota_persists_latest_witness :
  let s1 := fold_usage (zeroed Daily 0 day_ns) (usage_of 3 4) None in
  let s2 := fold_usage s1 (usage_of 5 6) None in
  let st := {| Persistence.mem := s2; Persistence.disk := Some s2; Persistence.pending := 0;
               Persistence.writing := None; Persistence.failed := false |} in
  Persistence.disk st = Some (Persistence.mem st).
Proof.
  intros s1 s2 st.
  apply (quota_persists_latest (C := Gregorian.calendar) config_default (zeroed Daily 0 day_ns) None
           {| Persistence.mem := s1; Persistence.disk := None; Persistence.pending := 1;
              Persistence.writing := None; Persistence.failed := false |} st);
    try reflexivity.
  - apply (Persistence.step_charge config_default (Persistence.init (zeroed Daily 0 day_ns) None)
             (usage_of 3 4) None 1 s1 (Ok tt)). vm_compute. reflexivity.
  - eapply rtc_l; [by apply (Persistence.step_snapshot _ _ 0)|cbn].
    eapply rtc_l; [apply (Persistence.step_charge _ _ (usage_of 5 6) None 2 s2 (Ok tt));
                   vm_compute; reflexivity|cbn].
    eapply rtc_l; [by eapply Persistence.step_write|cbn].
    eapply rtc_l; [by apply (Persistence.step_snapshot _ _ 0)|cbn].
    eapply rtc_l; [by eapply Persistence.step_write|apply rtc_refl].
Defined.

(** a restart loses nothing: after a persisted charge (accepted or over
    the limit), loading the state file gives a meter with the same counters
    and window, provided the JSON codec reads back states whose cost is a
    finite number (JSON has no other). *)
Theorem quota_restart_roundtrip {C : Calendar} (to_json : QuotaState -> string)
    (from_json : string -> option QuotaState) (fs fs' : gmap string string) (p : string)
    (m m' : QuotaMeter) (u : TokenUsage) (cost : option f64) (now later : Z)
    (r : result unit QuotaError) (cfg : QuotaConfig) :
  (forall s, cost_finite s = true -> from_json (to_json s) = Some s) ->
  state_path m = Some p ->
  charge_with to_json fs m u cost now true = Some (m', fs', r) ->
  cost_finite (state m') = true ->
  load_or_init from_json fs' cfg (Some p) later
    = Ok {| config := cfg; state_path := Some p; state := state m' |}.
Proof.
  intros Hc Hp. unfold charge_with, try_charge_with.
  destruct (charge_inner _ _ _ _ _) as [[s1 r1]|]; cbn; [|done].
  unfold persist_state; cbn. rewrite Hp. intros [= <- <- <-] Hfin.
  unfold load_or_init. by rewrite lookup_insert_eq, Hc.
Qed.

(** A state codec that reads back every state: the state's number, in binary. *)
Module BinaryCodec.

#[export] Instance spec_float_eq_dec : EqDecision spec_float.
Proof. solve_decision. Defined.
#[export] Instance spec_float_countable : Countable spec_float.
Proof.
  refine (inj_countable'
    (fun f => match f with
       | S754_zero b => inl (inl b) | S754_infinity b => inl (inr b)
       | S754_nan => inr (inl tt) | S754_finite b m e => inr (inr (b, m, e)) end)
    (fun x => match x with
       | inl (inl b) => S754_zero b | inl (inr b) => S754_infinity b
       | inr (inl _) => S754_nan | inr (inr (b, m, e)) => S754_finite b m e end) _).
  by intros [].
Defined.
#[export] Instance QuotaCycle_countable : Countable QuotaCycle.
Proof.
  refine (inj_countable'
    (fun c => match c with Hourly => 0%nat | Daily => 1%nat | Weekly => 2%nat | Monthly => 3%nat end)
    (fun n => match n with 0 => Hourly | 1 => Daily | 2 => Weekly | _ => Monthly end%nat) _).
  by intros [].
Defined.

Definition to_tuple (s : QuotaState) :=
  (window_start s, window_end s, cycle s, input_tokens s, output_tokens s,
   request_count s, cost_usd s : option spec_float, cache_read_tokens s, cache_creation_tokens s).
Definition of_tuple x :=
  let '(a, b, c, d, e, f, g, h, i) := x in
  {| window_start := a; window_end := b; cycle := c; input_tokens := d; output_tokens := e;
     request_count := f; cost_usd := g; cache_read_tokens := h; cache_creation_tokens := i |}.

Definition to_json (s : QuotaState) : string := bits (encode (to_tuple s)).
Definition from_json (s : string) : option QuotaState := of_tuple <$> decode (unbits s).
Lemma roundtrip s : from_json (to_json s) = Some s.
Proof. unfold from_json, to_json. rewrite unbits_bits, decode_encode. by destruct s. Qed.

End BinaryCodec.

Lemma quota_restart_roundtrip_witness :
  let s := zeroed Daily 0 day_ns in
  let m := {| config := config_default; state_path := Some "q.json"; state := s |} in
  let s' := fold_usage s (usage_of 1 2) None in
  load_or_init (C := Gregorian.calendar) BinaryCodec.from_json
      (<["q.json" := BinaryCodec.to_json s']> (∅ : gmap string string))
      config_default (Some "q.json") 5
    = Ok {| config := config_default; state_path := Some "q.json"; state := s' |}.
Proof.
  intros s m s'.
  refine (quota_restart_roundtrip (C := Gregorian.calendar) BinaryCodec.to_json
            BinaryCodec.from_json ∅ _ "q.json" m (with_state m s') (usage_of 1 2) None 3 5 (Ok tt)
            config_default (fun x _ => BinaryCodec.roundtrip x) eq_refl _ eq_refl).
  reflexivity.
Defined.

(** the per-principal total does not depend on the order of the agents'
    meters, and each of its counters is the sum of theirs capped at u64. *)
Theorem quota_sum_total {C : Calendar} (states states' : list QuotaState) (now : Z)
    (s s' : QuotaState) :
  Forall state_ok states -> states <> [] -> states ≡ₚ states' ->
  sum_states states now = Some s -> sum_states states' now = Some s' ->
  input_tokens s = Z.min u64_max (foldr Z.add 0 (map input_tokens states)) /\
  output_tokens s = Z.min u64_max (foldr Z.add 0 (map output_tokens states)) /\
  request_count s = Z.min u64_max (foldr Z.add 0 (map request_count states)) /\
  (input_tokens s', output_tokens s', request_count s')
    = (input_tokens s, output_tokens s, request_count s).
Proof.
  intros Hok Hne Hperm.
  assert (Hok' : Forall state_ok states') by (by rewrite <- Hperm).
  destruct states as [|x xs]; [done|].
  destruct states' as [|y ys]; [by apply Permutation_nil_r in Hperm|].
  cbn [sum_states]. intros [= <-] [= <-].
  apply Forall_cons in Hok as [Hx Hxs], Hok' as [Hy Hys].
  assert (Hfold : forall f, (forall a b, f (add_state a b) = sat_add_u64 (f a) (f b)) ->
    (forall s, state_ok s -> is_u64 (f s)) ->
    f (fold_left add_state xs x) = Z.min u64_max (foldr Z.add 0 (map f (x :: xs))) /\
    f (fold_left add_state ys y) = f (fold_left add_state xs x)).
  { intros f Hf Hu. rewrite !(fold_add_counter f) by
      (first [done | apply Hu; done | eapply Forall_impl; [eassumption|apply Hu]]).
    split; [done|]. f_equal. apply sumZ_perm. by rewrite Hperm. }
  destruct (Hfold input_tokens) as [-> ->]; [done|by unfold state_ok; intros ? [? _]|].
  destruct (Hfold output_tokens) as [-> ->]; [done|by unfold state_ok; intros ? (_ & ? & _)|].
  destruct (Hfold request_count) as [-> ->]; [done|by unfold state_ok; intros ? (_ & _ & ?)|].
  done.
Qed.

Lemma quota_sum_total_witness :
  let a := fold_usage (zeroed Daily 0 1) (usage_of 3 4) None in
  let b := fold_usage (zeroed Daily 0 1) (usage_of 5 6) None in
  input_tokens (add_state a b) = Z.min u64_max (3 + (5 + 0)).
Proof.
  intros a b.
  refine (proj1 (quota_sum_total (C := Gregorian.calendar) [a; b] [b; a] 0 (add_state a b)
    (add_state b a) _ _ _ eq_refl eq_refl)); [|discriminate|apply Permutation_swap].
  repeat apply Forall_cons_2; try apply Forall_nil_2; vm_compute; intuition congruence.
Defined.

(** a cycle is read from exactly the case variants of its name, so what
    is displayed reads back, and no two cycles share a spelling. *)
Theorem quota_cycle_text (s : string) (c : QuotaCycle) :
  cycle_from_str s = Ok c <-> to_ascii_lowercase s = cycle_display c.
Proof.
  unfold cycle_from_str. split.
  - repeat case_decide; intros [= <-]; done.
  - intros ->. by destruct c.
Qed.
