(* ===== verification/Message.v ===== *)
(** * Message: the conversation model and its repair

    [ContentBlock], [LlmMessage] and their helpers (peko-rs/message/src/lib.rs),
    and [repair_history] (peko-rs/message/src/repair.rs), which turns a damaged
    history into one a provider accepts.  A JSON value ([serde_json::Value]) is
    an opaque type [Value]; timestamps are nanoseconds since the epoch. *)

From Stdlib Require Import ZArith Lia Ascii.
From stdpp Require Import base tactics list gmap strings.
From S2P Require Import Prelude Usage.

Open Scope Z_scope.

(** ** Data *)

Record ImageDimensions := { width : Z; height : Z }.

(** Tokens of an image with known size; [u64] arithmetic. *)
Definition high_detail_tokens (d : ImageDimensions) : Z :=
  (width d * height d + 749) / 750.

Inductive ImageSource :=
  | Base64 (data : string) (dimensions : option ImageDimensions)
  | Url (url : string) (dimensions : option ImageDimensions).

Inductive ContentBlock (Value : Type) :=
  | Text (text : string)
  | Image (source : ImageSource) (mime_type : string)
  | Audio (source : ImageSource) (mime_type : string)
  | Video (source : ImageSource) (mime_type : string)
  | ToolCall (id name : string) (arguments : Value)
  | ToolResult (tool_call_id name : string) (content : list (ContentBlock Value)) (is_error : bool)
  | Thinking (text : string) (signature : option string).
Arguments Text {Value} text.
Arguments Image {Value} source mime_type.
Arguments Audio {Value} source mime_type.
Arguments Video {Value} source mime_type.
Arguments ToolCall {Value} id name arguments.
Arguments ToolResult {Value} tool_call_id name content is_error.
Arguments Thinking {Value} text signature.

Inductive MessageRole := System | User | Assistant | Tool.
#[export] Instance MessageRole_eq_dec : EqDecision MessageRole.
Proof. solve_decision. Defined.

Record LlmMessage (Value : Type) := {
  role : MessageRole;
  content : list (ContentBlock Value);
  timestamp : Z;
  metadata : gmap string Value;
  tool_call_id : option string;
  usage : option TokenUsage;
}.
Arguments role {Value} _.
Arguments content {Value} _.
Arguments timestamp {Value} _.
Arguments metadata {Value} _.
Arguments tool_call_id {Value} _.
Arguments usage {Value} _.

Section Messages.
Context {Value : Type}.
Abbreviation Block := (ContentBlock Value).
Abbreviation Msg := (LlmMessage Value).

Definition with_content (m : Msg) (c : list Block) : Msg :=
  {| role := role m; content := c; timestamp := timestamp m; metadata := metadata m;
     tool_call_id := tool_call_id m; usage := usage m |}.

Definition text_message (r : MessageRole) (t : string) (now : Z) : Msg :=
  {| role := r; content := [Text t]; timestamp := now; metadata := ∅;
     tool_call_id := None; usage := None |}.

Definition tool_result_message (id name res : string) (err : bool) (now : Z) : Msg :=
  {| role := Tool; content := [ToolResult id name [Text res] err]; timestamp := now;
     metadata := ∅; tool_call_id := Some id; usage := None |}.

(** ** [repair_history] *)

Definition INTERRUPTED_RESULT : string :=
  "[repair] tool execution was interrupted before a result was recorded".

(** Pass 1, on the reversed output: merge into the last message of the same
    role, else push. *)
Definition merge_push (merged_rev : list Msg) (msg : Msg) : list Msg :=
  match merged_rev with
  | last :: before =>
      if decide (role last = role msg) then
        {| role := role last; content := content last ++ content msg;
           timestamp := timestamp last; metadata := metadata last;
           tool_call_id := tool_call_id last;
           usage := match usage last with None => usage msg | Some u => Some u end |} :: before
      else msg :: last :: before
  | [] => [msg]
  end.

Definition merge_pass (messages : list Msg) : list Msg :=
  rev (fold_left merge_push messages []).

(** Recorded results: the block, its message's timestamp and [tool_call_id]. *)
Definition Recorded : Type := Block * Z * option string.
Abbreviation Results := (gmap string Recorded).

Definition result_id (b : Block) : option string :=
  match b with ToolResult id _ _ _ => Some id | _ => None end.
Definition is_result (b : Block) : bool :=
  match b with ToolResult _ _ _ _ => true | _ => false end.

(** [results.entry(id).or_insert(..)] for one block of a message. *)
Definition record_result (msg : Msg) (results : Results) (b : Block) : Results :=
  match result_id b with
  | Some id =>
      match results !! id with
      | Some _ => results
      | None => <[id := (b, timestamp msg, tool_call_id msg)]> results
      end
  | None => results
  end.

(** Pass 2: pull every result out of the history. *)
Fixpoint collect_pass (merged : list Msg) (results : Results) : Results * list Msg :=
  match merged with
  | [] => (results, [])
  | msg :: rest =>
      let results' := fold_left (record_result msg) (content msg) results in
      if decide (role msg = Tool) then collect_pass rest results'
      else
        let kept :=
          if existsb is_result (content msg)
          then with_content msg (List.filter (fun b => negb (is_result b)) (content msg))
          else msg in
        let '(r, out) := collect_pass rest results' in (r, kept :: out)
  end.

Definition call_id (b : Block) : option string :=
  match b with ToolCall id _ _ => Some id | _ => None end.

Definition call_ids (msg : Msg) : list string :=
  if decide (role msg = Assistant) then omap call_id (content msg) else [].

Definition synthetic (id : string) : Block :=
  ToolResult id "" [Text INTERRUPTED_RESULT] true.

(** The results of one assistant message, consumed from [results]; the
    timestamp and message id of the last recorded one are kept. *)
Fixpoint take_results (ids : list string) (results : Results) (ts : Z) (mid : option string)
    : list Block * Results * Z * option string :=
  match ids with
  | [] => ([], results, ts, mid)
  | id :: ids =>
      match results !! id with
      | Some (b, ts', mid') =>
          let '(bs, r, ts, mid) := take_results ids (delete id results) ts' mid' in
          (b :: bs, r, ts, mid)
      | None =>
          let '(bs, r, ts, mid) := take_results ids results ts mid in
          (synthetic id :: bs, r, ts, mid)
      end
  end.

Definition tool_message (ids : list string) (bs : list Block) (ts : Z) (mid : option string) : Msg :=
  {| role := Tool; content := bs; timestamp := ts; metadata := ∅;
     tool_call_id := if decide (length ids = 1%nat) then mid else None; usage := None |}.

(** Pass 3: drop empty messages and put each call's results behind it. *)
Fixpoint pair_pass (msgs : list Msg) (results : Results) : list Msg :=
  match msgs with
  | [] => []
  | msg :: rest =>
      if decide (content msg = []) then pair_pass rest results
      else
        let ids := call_ids msg in
        match ids with
        | [] => msg :: pair_pass rest results
        | _ =>
            let '(bs, results, ts, mid) := take_results ids results (timestamp msg) None in
            msg :: tool_message ids bs ts mid :: pair_pass rest results
        end
  end.

Definition repair_history (messages : list Msg) : list Msg :=
  let merged := merge_pass messages in
  let '(results, without_tools) := collect_pass merged ∅ in
  pair_pass without_tools results.

(** ** What providers accept *)

(** An assistant message with calls is followed by one tool message with one
    result per call in order; results appear nowhere else; nothing is empty. *)
Inductive wire_ok : list Msg -> Prop :=
  | wire_nil : wire_ok []
  | wire_plain m rest :
      role m <> Tool -> content m <> [] -> existsb is_result (content m) = false ->
      call_ids m = [] -> wire_ok rest -> wire_ok (m :: rest)
  | wire_calls m t rest :
      role m = Assistant -> existsb is_result (content m) = false -> call_ids m <> [] ->
      role t = Tool -> map result_id (content t) = map Some (call_ids m) ->
      wire_ok rest -> wire_ok (m :: t :: rest).

(** ** Lemmas on the three passes *)

(** A result stored under [id] answers [id]. *)
Definition keyed (results : Results) : Prop :=
  forall id b ts mid, results !! id = Some (b, ts, mid) -> result_id b = Some id.

(** What remains of a history once its results are pulled out. *)
Definition resultless (m : Msg) : Prop := existsb is_result (content m) = false.

Lemma existsb_filter_negb {A} (f : A -> bool) l :
  existsb f (List.filter (fun b => negb (f b)) l) = false.
Proof. induction l as [|b l IH]; cbn; [done|]. destruct (f b) eqn:E; cbn; [done|]. by rewrite E. Qed.

Lemma filter_negb_id {A} (f : A -> bool) l :
  existsb f l = false -> List.filter (fun b => negb (f b)) l = l.
Proof.
  induction l as [|b l IH]; cbn; [done|].
  intros [-> H]%orb_false_iff. cbn. by rewrite IH.
Qed.

Definition strip_one (m : Msg) : Msg :=
  with_content m (List.filter (fun b => negb (is_result b)) (content m)).

Definition strip (h : list Msg) : list Msg :=
  map strip_one (List.filter (fun m => negb (bool_decide (role m = Tool))) h).

Lemma collect_snd merged results : snd (collect_pass merged results) = strip merged.
Proof.
  revert results. induction merged as [|m rest IH]; intros results; [done|].
  cbn [collect_pass]. unfold strip; cbn [List.filter map].
  case_decide as Hr; [by rewrite bool_decide_true|]. rewrite bool_decide_false by done.
  specialize (IH (fold_left (record_result m) (content m) results)).
  destruct (collect_pass rest _) as [r out]. cbn [snd negb map] in *. rewrite IH.
  f_equal. destruct (existsb is_result (content m)) eqn:E; [done|].
  unfold strip_one. rewrite filter_negb_id by done. by destruct m.
Qed.

(** The first recorded result of an id, in history order. *)
Fixpoint first_in (m : Msg) (id : string) (bs : list Block) : option Recorded :=
  match bs with
  | [] => None
  | b :: bs =>
      if bool_decide (result_id b = Some id) then Some (b, timestamp m, tool_call_id m)
      else first_in m id bs
  end.
Fixpoint first_result (id : string) (h : list Msg) : option Recorded :=
  match h with
  | [] => None
  | m :: h => or_else (first_in m id (content m)) (first_result id h)
  end.

Lemma record_lookup m bs results id :
  fold_left (record_result m) bs results !! id = or_else (results !! id) (first_in m id bs).
Proof.
  revert results. induction bs as [|b bs IH]; intros results; cbn [fold_left first_in].
  { by destruct (results !! id). }
  rewrite IH. unfold record_result.
  destruct (result_id b) as [i|] eqn:Hb; [|by rewrite bool_decide_false].
  destruct (decide (i = id)) as [->|Hne].
  - rewrite bool_decide_true by done. destruct (results !! id) as [x|] eqn:E; [by rewrite E|].
    by rewrite lookup_insert_eq.
  - rewrite bool_decide_false by congruence.
    destruct (results !! i); [done|]. by rewrite lookup_insert_ne.
Qed.

Lemma or_else_assoc {A} (a b c : option A) : or_else (or_else a b) c = or_else a (or_else b c).
Proof. by destruct a. Qed.

Lemma collect_lookup merged results id :
  fst (collect_pass merged results) !! id = or_else (results !! id) (first_result id merged).
Proof.
  revert results. induction merged as [|m rest IH]; intros results; cbn [collect_pass first_result fst].
  { destruct (results !! id) eqn:E; cbn [or_else]; by rewrite ?E. }
  specialize (IH (fold_left (record_result m) (content m) results)).
  rewrite record_lookup, or_else_assoc in IH.
  case_decide; [done|]. destruct (collect_pass rest _). exact IH.
Qed.

Lemma first_in_keyed m id bs b ts mid :
  first_in m id bs = Some (b, ts, mid) -> result_id b = Some id.
Proof.
  induction bs as [|b' bs IH]; cbn [first_in]; [done|].
  case_bool_decide; [by intros [= <- <- <-]|done].
Qed.

Lemma first_result_keyed id h b ts mid :
  first_result id h = Some (b, ts, mid) -> result_id b = Some id.
Proof.
  induction h as [|m h IH]; cbn [first_result]; [done|].
  destruct (first_in m id (content m)) as [[[]]|] eqn:E; cbn [or_else]; [|done].
  intros [= <- <- <-]. by apply first_in_keyed in E.
Qed.

Lemma take_results_ids ids results ts mid bs r ts' mid' :
  keyed results -> take_results ids results ts mid = (bs, r, ts', mid') ->
  map result_id bs = map Some ids /\ keyed r.
Proof.
  revert results ts mid bs r ts' mid'.
  induction ids as [|id ids IH]; intros results ts mid bs r ts' mid' Hk; cbn [take_results].
  { by intros [= <- <- <- <-]. }
  destruct (results !! id) as [[[b ts1] mid1]|] eqn:E.
  - destruct (take_results ids (delete id results) ts1 mid1) as [[[bs1 r1] ts2] mid2] eqn:Et.
    intros [= <- <- <- <-]. apply IH in Et as [Hm Hr].
    + cbn [map]. by rewrite (Hk _ _ _ _ E), Hm.
    + intros i b' t' m'. rewrite lookup_delete_Some. intros [_ H]. by apply Hk in H.
  - destruct (take_results ids results ts mid) as [[[bs1 r1] ts2] mid2] eqn:Et.
    intros [= <- <- <- <-]. apply IH in Et as [Hm Hr]; [|done]. cbn [map]. by rewrite Hm.
Qed.

Lemma pair_pass_wire msgs results :
  Forall (fun m => role m <> Tool /\ resultless m) msgs -> keyed results ->
  wire_ok (pair_pass msgs results).
Proof.
  intros Hm. revert results. induction Hm as [|m rest [Hr Hn] Hrest IH]; intros results Hk;
    cbn [pair_pass]; [constructor|].
  case_decide as Hc; [by apply IH|].
  destruct (call_ids m) as [|i ids] eqn:Hids; [apply wire_plain; auto|].
  destruct (take_results (i :: ids) results (timestamp m) None) as [[[bs r] ts] mid] eqn:Et.
  apply take_results_ids in Et as [Hb Hr']; [|done].
  apply wire_calls; [|done|by rewrite Hids|done|by rewrite Hids|auto].
  unfold call_ids in Hids. by case_decide.
Qed.

Lemma strip_resultless h : Forall (fun m => role m <> Tool /\ resultless m) (strip h).
Proof.
  unfold strip. induction h as [|m h IH]; cbn [List.filter map]; [constructor|].
  case_bool_decide; cbn [negb map]; [done|]. constructor; [|done].
  split; [done|]. apply existsb_filter_negb.
Qed.

Lemma repair_unfold h :
  repair_history h = pair_pass (strip (merge_pass h)) (fst (collect_pass (merge_pass h) ∅)).
Proof.
  unfold repair_history. rewrite <- (collect_snd (merge_pass h) ∅).
  by destruct (collect_pass (merge_pass h) ∅).
Qed.

Lemma collect_keyed h : keyed (fst (collect_pass h ∅)).
Proof.
  intros id b ts mid. rewrite collect_lookup, lookup_empty. cbn [or_else].
  apply first_result_keyed.
Qed.

(** *** Reference: results attached without threading a map *)

Definition result_for (R : string -> option Recorded) (id : string) : Block :=
  match R id with Some (b, _, _) => b | None => synthetic id end.

(** Timestamp and message id of the last recorded result among [ids]. *)
Fixpoint stamp_for (R : string -> option Recorded) (ids : list string) (ts : Z) (mid : option string)
    : Z * option string :=
  match ids with
  | [] => (ts, mid)
  | id :: ids =>
      match R id with
      | Some (_, ts', mid') => stamp_for R ids ts' mid'
      | None => stamp_for R ids ts mid
      end
  end.

Definition attach (R : string -> option Recorded) (m : Msg) : list Msg :=
  if decide (content m = []) then []
  else match call_ids m with
       | [] => [m]
       | ids =>
           let '(ts, mid) := stamp_for R ids (timestamp m) None in
           [m; tool_message ids (map (result_for R) ids) ts mid]
       end.

Definition repair_spec (h : list Msg) : list Msg :=
  let merged := merge_pass h in
  flat_map (attach (fun id => first_result id merged)) (strip merged).

Lemma take_results_spec R ids results ts mid :
  NoDup ids -> (forall id, id ∈ ids -> results !! id = R id) ->
  let '(bs, r, ts', mid') := take_results ids results ts mid in
  bs = map (result_for R) ids /\ (ts', mid') = stamp_for R ids ts mid /\
  forall id, id ∉ ids -> r !! id = results !! id.
Proof.
  revert results ts mid. induction ids as [|id ids IH]; intros results ts mid Hnd HR;
    cbn [take_results]; [done|].
  apply NoDup_cons in Hnd as [Hni Hnd].
  pose proof (HR id ltac:(left)) as Hid.
  destruct (results !! id) as [[[b ts1] mid1]|] eqn:E.
  - assert (HR' : forall i, i ∈ ids -> delete id results !! i = R i).
    { intros i Hi. rewrite lookup_delete_ne by congruence. apply HR. by right. }
    specialize (IH (delete id results) ts1 mid1 Hnd HR').
    destruct (take_results ids _ ts1 mid1) as [[[bs r] ts2] mid2]. destruct IH as (-> & Hst & Hr).
    cbn [map stamp_for]. unfold result_for at 2. rewrite <- Hid. split; [done|]. split; [done|].
    intros i Hi. apply not_elem_of_cons in Hi as [Hne Hi].
    rewrite Hr by done. by rewrite lookup_delete_ne.
  - assert (HR' : forall i, i ∈ ids -> results !! i = R i) by (intros i Hi; apply HR; by right).
    specialize (IH results ts mid Hnd HR').
    destruct (take_results ids results ts mid) as [[[bs r] ts2] mid2]. destruct IH as (-> & Hst & Hr).
    cbn [map stamp_for]. unfold result_for at 2. rewrite <- Hid. split; [done|]. split; [done|].
    intros i Hi. apply not_elem_of_cons in Hi as [_ Hi]. by apply Hr.
Qed.

Lemma pair_pass_spec R msgs results :
  NoDup (flat_map call_ids msgs) ->
  (forall id, id ∈ flat_map call_ids msgs -> results !! id = R id) ->
  pair_pass msgs results = flat_map (attach R) msgs.
Proof.
  revert results. induction msgs as [|m msgs IH]; intros results Hnd HR; [done|].
  cbn [flat_map] in Hnd, HR. apply NoDup_app in Hnd as (Hnd1 & Hdis & Hnd2).
  setoid_rewrite elem_of_app in HR. cbn [pair_pass flat_map]. unfold attach at 1.
  case_decide as Hc; [apply IH; auto|].
  destruct (call_ids m) as [|i ids] eqn:Hids; [cbn [app]; f_equal; apply IH; auto|].
  pose proof (take_results_spec R (i :: ids) results (timestamp m) None Hnd1 ltac:(auto)) as Ht.
  destruct (take_results (i :: ids) results (timestamp m) None) as [[[bs r] ts] mid].
  destruct Ht as (-> & Hst & Hr). rewrite <- Hst. cbn [app]. f_equal. f_equal.
  apply IH; [done|]. intros id Hid. rewrite Hr; [auto|]. intros Hin. by apply (Hdis id).
Qed.

(** *** Merging and stripping keep calls and spoken content *)

Definition role_blocks (m : Msg) : list (MessageRole * Block) :=
  if decide (role m = Tool) then []
  else map (pair (role m)) (List.filter (fun b => negb (is_result b)) (content m)).

(** Everything said outside tool messages, in order, with who said it. *)
Definition spoken (h : list Msg) : list (MessageRole * Block) := flat_map role_blocks h.

Lemma omap_app_calls (l l' : list Block) :
  omap call_id (l ++ l') = omap call_id l ++ omap call_id l'.
Proof. induction l as [|b l IH]; cbn; [done|]. destruct (call_id b); cbn; by rewrite IH. Qed.

(** Measures that are additive on content survive the merge. *)
Lemma merge_additive {B} (f : Msg -> list B) h :
  (forall a b, role a = role b ->
     f {| role := role a; content := content a ++ content b; timestamp := timestamp a;
          metadata := metadata a; tool_call_id := tool_call_id a;
          usage := match usage a with None => usage b | Some u => Some u end |} = f a ++ f b) ->
  flat_map f (merge_pass h) = flat_map f h.
Proof.
  intros Hf. unfold merge_pass.
  enough (forall acc, flat_map f (rev (fold_left merge_push h acc)) = flat_map f (rev acc) ++ flat_map f h) as H
    by apply H.
  induction h as [|m h IH]; intros acc; cbn [fold_left]; [by rewrite app_nil_r|].
  rewrite IH. cbn [flat_map]. rewrite (app_assoc _ (f m)). f_equal.
  unfold merge_push. destruct acc as [|l acc]; [by cbn; rewrite app_nil_r|].
  case_decide as Hr; cbn [rev].
  - rewrite !flat_map_app. cbn [flat_map]. by rewrite Hf, !app_nil_r, app_assoc by done.
  - rewrite !flat_map_app. cbn [flat_map]. by rewrite !app_nil_r.
Qed.

Lemma merge_call_ids h : flat_map call_ids (merge_pass h) = flat_map call_ids h.
Proof.
  apply merge_additive. intros a b Hr. unfold call_ids. cbn [role content].
  rewrite <- Hr. case_decide; [|done]. apply omap_app_calls.
Qed.

Lemma merge_spoken h : spoken (merge_pass h) = spoken h.
Proof.
  apply merge_additive. intros a b Hr. unfold role_blocks. cbn [role content].
  rewrite <- Hr. case_decide; [done|]. by rewrite List.filter_app, map_app.
Qed.

Lemma omap_call_filter (l : list Block) :
  omap call_id (List.filter (fun b => negb (is_result b)) l) = omap call_id l.
Proof. induction l as [|[] l IH]; cbn; by rewrite ?IH. Qed.

Lemma strip_call_ids h : flat_map call_ids (strip h) = flat_map call_ids h.
Proof.
  unfold strip. induction h as [|m h IH]; [done|]. cbn [List.filter flat_map].
  case_bool_decide as Hr; cbn [negb map flat_map].
  - unfold call_ids at 2. rewrite decide_False by congruence. done.
  - rewrite IH. f_equal. unfold call_ids, strip_one. cbn [role content with_content].
    case_decide; [|done]. apply omap_call_filter.
Qed.

Lemma repair_is_spec h : NoDup (flat_map call_ids h) -> repair_history h = repair_spec h.
Proof.
  intros Hnd. rewrite repair_unfold. unfold repair_spec. apply pair_pass_spec.
  - by rewrite strip_call_ids, merge_call_ids.
  - intros id _. by rewrite collect_lookup, lookup_empty.
Qed.

Lemma pair_pass_spoken msgs results : spoken (pair_pass msgs results) = spoken msgs.
Proof.
  revert results. induction msgs as [|m msgs IH]; intros results; [done|]. cbn [pair_pass].
  case_decide as Hc.
  - rewrite IH. unfold spoken; cbn [flat_map]. unfold role_blocks at 2. rewrite Hc. by case_decide.
  - destruct (call_ids m) as [|i ids]; [by unfold spoken in *; cbn [flat_map]; rewrite IH|].
    destruct (take_results _ _ _ _) as [[[bs r] ts] mid].
    unfold spoken in *; cbn [flat_map]. rewrite IH. unfold role_blocks at 2; cbn [role tool_message].
    by rewrite decide_True.
Qed.

Lemma strip_spoken h : spoken (strip h) = spoken h.
Proof.
  unfold strip, spoken. induction h as [|m h IH]; [done|]. cbn [List.filter flat_map].
  case_bool_decide as Hr; cbn [negb map flat_map].
  - unfold role_blocks at 2. by rewrite decide_True.
  - rewrite IH. f_equal. unfold role_blocks, strip_one. cbn [role content with_content].
    case_decide; [done|]. f_equal. apply filter_negb_id, existsb_filter_negb.
Qed.

(** *** Histories that need no repair *)

Fixpoint roles_alternate (h : list Msg) : Prop :=
  match h with
  | m :: ((m' :: _) as rest) => role m <> role m' /\ roles_alternate rest
  | _ => True
  end.

Definition tool_normal (t : Msg) : Prop :=
  metadata t = ∅ /\ usage t = None /\ (length (content t) <> 1%nat -> tool_call_id t = None).

Record canonical (h : list Msg) : Prop := {
  can_wire : wire_ok h;
  can_alternate : roles_alternate h;
  can_calls : NoDup (flat_map call_ids h);
  can_tools : Forall (fun m => role m = Tool -> tool_normal m) h;
}.

Lemma merge_push_alternate h : forall acc,
  roles_alternate h ->
  match acc, h with l :: _, m :: _ => role l <> role m | _, _ => True end ->
  fold_left merge_push h acc = rev h ++ acc.
Proof.
  induction h as [|m h IH]; intros acc Ha Hd; [done|]. cbn [fold_left rev].
  assert (Hp : merge_push acc m = m :: acc).
  { destruct acc as [|l acc]; [done|]. cbn [merge_push]. by rewrite decide_False. }
  rewrite Hp, IH; [by rewrite <- app_assoc| |]; destruct h; [done|apply Ha|done|apply Ha].
Qed.

Lemma merge_alternate h : roles_alternate h -> merge_pass h = h.
Proof.
  intros Ha. unfold merge_pass. rewrite merge_push_alternate by done.
  by rewrite app_nil_r, rev_involutive.
Qed.

Lemma first_in_absent (t : Msg) id bs ids :
  map result_id bs = map Some ids -> id ∉ ids -> first_in t id bs = None.
Proof.
  revert ids. induction bs as [|b bs IH]; intros [|i ids]; try done. cbn [map first_in].
  intros [= Hb Hbs] [Hne Hni]%not_elem_of_cons.
  rewrite bool_decide_false by congruence. by apply (IH ids).
Qed.

Lemma first_in_resultless (t : Msg) id bs : existsb is_result bs = false -> first_in t id bs = None.
Proof.
  induction bs as [|b bs IH]; [done|]. cbn [existsb first_in].
  intros [Hb Hbs]%orb_false_iff. rewrite bool_decide_false by (by destruct b). auto.
Qed.

Lemma results_of_tool (t : Msg) R bs ids :
  map result_id bs = map Some ids -> NoDup ids ->
  (forall id, id ∈ ids -> R id = first_in t id bs) ->
  map (result_for R) ids = bs /\
  forall ts mid, stamp_for R ids ts mid =
    if decide (ids = []) then (ts, mid) else (timestamp t, tool_call_id t).
Proof.
  revert ids. induction bs as [|b bs IH]; intros [|i ids]; try done.
  cbn [map]. intros [= Hb Hbs] [Hni Hnd]%NoDup_cons HR.
  assert (Hi : R i = Some (b, timestamp t, tool_call_id t)).
  { rewrite (HR i ltac:(left)). cbn [first_in]. by rewrite bool_decide_true. }
  destruct (IH ids Hbs Hnd) as [Hm Hs].
  { intros id Hid. rewrite (HR id ltac:(by right)). cbn [first_in].
    rewrite bool_decide_false; [done|]. rewrite Hb. intros [= ->]. done. }
  unfold result_for at 1. rewrite Hi, Hm. split; [done|].
  intros ts mid. cbn [stamp_for]. rewrite Hi, Hs. by case_decide.
Qed.

Lemma first_in_present (t : Msg) id bs ids :
  map result_id bs = map Some ids -> id ∈ ids -> exists x, first_in t id bs = Some x.
Proof.
  revert ids. induction bs as [|b bs IH]; intros [|i ids]; try done.
  - by intros _ []%elem_of_nil.
  - cbn [map first_in]. intros [= Hb Hbs]. case_bool_decide as Hd; [eauto|].
    intros [->|Hid]%elem_of_cons; [done|]. by apply (IH ids).
Qed.

Lemma call_ids_content (m : Msg) : call_ids m <> [] -> content m <> [].
Proof. intros H Hc. apply H. unfold call_ids. rewrite Hc. by case_decide. Qed.

Lemma tool_message_normal (t : Msg) (ids : list string) :
  role t = Tool -> tool_normal t -> length (content t) = length ids ->
  tool_message ids (content t) (timestamp t) (tool_call_id t) = t.
Proof.
  intros Hr (Hm & Hu & Hc) Hl. unfold tool_message. rewrite <- Hl.
  destruct t as [r c ts me tc us]; cbn [role content timestamp metadata tool_call_id usage] in *.
  subst. case_decide as Hd; [done|]. by rewrite Hc.
Qed.

Lemma strip_one_id m : resultless m -> strip_one m = m.
Proof. intros H. unfold strip_one. rewrite filter_negb_id by done. by destruct m. Qed.

Lemma strip_cons m h : role m <> Tool -> resultless m -> strip (m :: h) = m :: strip h.
Proof.
  intros Hr Hn. unfold strip. cbn [List.filter]. rewrite bool_decide_false by done.
  cbn [negb map]. by rewrite strip_one_id.
Qed.

Lemma strip_tool t h : role t = Tool -> strip (t :: h) = strip h.
Proof. intros Hr. unfold strip. cbn [List.filter]. by rewrite bool_decide_true. Qed.

Lemma call_ids_tool t : role t = Tool -> call_ids t = [].
Proof. unfold call_ids. intros ->. by rewrite decide_False. Qed.

Lemma wire_attach R h :
  wire_ok h -> NoDup (flat_map call_ids h) -> Forall (fun m => role m = Tool -> tool_normal m) h ->
  (forall id, id ∈ flat_map call_ids h -> R id = first_result id h) ->
  flat_map (attach R) (strip h) = h.
Proof.
  intros Hw. induction Hw as [|m rest Hr Hc Hn Hids Hw IH|m t rest Hr Hn Hids Ht Hres Hw IH];
    intros Hnd Htn HR; [done| |].
  - cbn [flat_map] in Hnd, HR. rewrite Hids in Hnd, HR. apply Forall_cons in Htn as [_ Htn].
    rewrite strip_cons by done. cbn [flat_map]. rewrite IH; try done.
    + unfold attach. by rewrite decide_False, Hids by done.
    + intros id Hid. rewrite HR by done. cbn [first_result].
      by rewrite first_in_resultless.
  - cbn [flat_map] in Hnd, HR. rewrite (call_ids_tool t Ht) in Hnd, HR. cbn [app] in Hnd, HR.
    apply NoDup_app in Hnd as (Hnd1 & Hdis & Hnd2).
    apply Forall_cons in Htn as [_ Htn]. apply Forall_cons in Htn as [Ht1 Htn].
    assert (Hfirst : forall id, first_result id (m :: t :: rest) =
        or_else (first_in t id (content t)) (first_result id rest)).
    { intros id. cbn [first_result]. by rewrite (first_in_resultless m). }
    setoid_rewrite elem_of_app in HR. setoid_rewrite Hfirst in HR.
    rewrite strip_cons, strip_tool by (congruence || done). cbn [flat_map].
    rewrite IH; [|done|done|].
    2: { intros id Hid. rewrite HR by auto. rewrite (first_in_absent t id _ (call_ids m)); [done..|].
         intros Hin. by apply (Hdis id). }
    destruct (results_of_tool t R (content t) (call_ids m) Hres Hnd1) as [Hm Hs].
    { intros id Hid. rewrite HR by auto.
      by destruct (first_in_present t id (content t) (call_ids m) Hres Hid) as [x ->]. }
    pose proof (call_ids_content m Hids) as Hne.
    unfold attach. rewrite decide_False by done.
    destruct (call_ids m) as [|i ids] eqn:Eids; [done|].
    rewrite Hs. rewrite decide_False by done. rewrite Hm. cbn [app]. f_equal. f_equal.
    apply tool_message_normal; auto.
    apply (f_equal length) in Hres. by rewrite !length_map in Hres.
Qed.

End Messages.

(** ** Properties *)

(** C24. whatever the stored history, the repaired one has the shape providers
    require: every assistant message with calls is followed at once by a
    single tool message with one result per call, in call order; no other
    message carries a result; no message is empty. *)
Theorem repair_history_wire_ok {Value} (h : list (LlmMessage Value)) : wire_ok (repair_history h).
Proof. rewrite repair_unfold. apply pair_pass_wire; [apply strip_resultless|apply collect_keyed]. Qed.

(** repair loses nothing that was said: the blocks outside tool messages
    and results are the same, in the same order, under the same roles. *)
Theorem repair_history_keeps_spoken {Value} (h : list (LlmMessage Value)) :
  spoken (repair_history h) = spoken h.
Proof. by rewrite repair_unfold, pair_pass_spoken, strip_spoken, merge_spoken. Qed.

(** C25. when call ids are not reused, repair is the declarative repair: each
    call gets the first result recorded for it anywhere in the history, and a
    synthetic error result exactly when none was recorded. *)
Theorem repair_history_refines_spec {Value} (h : list (LlmMessage Value)) :
  NoDup (flat_map call_ids h) -> repair_history h = repair_spec h.
Proof. apply repair_is_spec. Qed.

(** a valid history (provider shape, alternating roles, unreused call
    ids, plain tool messages) is left exactly as it is. *)
Theorem repair_history_fixpoint {Value} (h : list (LlmMessage Value)) :
  canonical h -> repair_history h = h.
Proof.
  intros [Hw Ha Hc Ht]. rewrite repair_is_spec by done. unfold repair_spec.
  rewrite merge_alternate by done. by apply wire_attach.
Qed.

(** repair does not merge messages that become neighbours when an orphan
    tool message between them is dropped: two user messages around an orphan
    result stay separate, so roles do not alternate and a second repair
    changes the history again. *)
Theorem repair_history_not_idempotent {Value} (a b r : string) (t1 t2 t3 : Z) :
  let h : list (LlmMessage Value) :=
    [text_message User a t1; tool_result_message "gone" "" r false t2; text_message User b t3] in
  repair_history h = [text_message User a t1; text_message User b t3] /\
  ~ roles_alternate (repair_history h) /\
  repair_history (repair_history h) <> repair_history h.
Proof.
  intros h. assert (E : repair_history h = [text_message User a t1; text_message User b t3]) by done.
  rewrite E. split; [done|]. split; [cbn; tauto|]. done.
Qed.

Lemma repair_history_refines_spec_witness :
  let call := {| role := Assistant; content := [ToolCall "c1" "Read" tt]; timestamp := 1;
                 metadata := ∅; tool_call_id := None; usage := None |} in
  let late := tool_result_message "c1" "Read" "ok" false 3 in
  let h := [call; text_message User "hi" 2; late] in
  repair_history h = repair_spec h /\ repair_history h = [call; late; text_message User "hi" 2].
Proof.
  split; [apply repair_history_refines_spec; cbn; repeat constructor; by intros []%elem_of_nil
         | reflexivity].
Defined.

Lemma repair_history_fixpoint_witness :
  let call := {| role := Assistant; content := [ToolCall "c1" "Read" tt]; timestamp := 1;
                 metadata := ∅; tool_call_id := None; usage := None |} in
  let h := [text_message User "hi" 0; call; tool_result_message "c1" "Read" "ok" false 3] in
  repair_history h = h.
Proof.
  intros call h. apply repair_history_fixpoint. split.
  - apply wire_plain; try done. apply wire_calls; try done. apply wire_nil.
  - cbn. split_and!; done.
  - cbn. repeat constructor. by intros []%elem_of_nil.
  - repeat apply Forall_cons_2; try apply Forall_nil_2; cbn; try done.
Defined.
