(* ===== verification/Compaction.v ===== *)
(** * Compaction: shrinking a history without breaking call/result pairs

    [Boundaries] models session/src/compaction/turn_boundaries.rs (where a
    history may be cut), [Eviction] models eviction.rs (dropping the oldest
    message after a context-window error), [Rewrite] models output_rewrite.rs
    and image_budget.rs (replacing oversized tool results).  [usize] counts of
    a history's bytes are modelled as unbounded integers except where the code
    saturates. *)

From Stdlib Require Import ZArith Lia Ascii.
From stdpp Require Import base tactics list gmap strings pretty.
From S2P Require Import Prelude Usage Message.

Open Scope Z_scope.

(** ** Cut points *)

Module Boundaries.
Section Cut.
Context {Value : Type}.
Abbreviation Msg := (LlmMessage Value).

Inductive MessageKind := SystemPrompt | KUser | KAssistant | KToolResult | Summary | Other.
#[export] Instance MessageKind_eq_dec : EqDecision MessageKind.
Proof. solve_decision. Defined.

Definition classify_message (m : Msg) : MessageKind :=
  match role m with
  | System =>
      if existsb (fun b => match b with
           | Text t => starts_with "[Conversation Summary" t
                       || starts_with "[Conversation Summary #" t
           | _ => false
           end) (content m)
      then Summary else SystemPrompt
  | User => KUser
  | Assistant => KAssistant
  | Tool => KToolResult
  end.

Definition is_cut_kind (k : MessageKind) : bool :=
  match k with KUser | KAssistant | SystemPrompt => true | _ => false end.

Fixpoint cut_points_from (i : nat) (ms : list Msg) : list nat :=
  match ms with
  | [] => []
  | m :: ms =>
      if is_cut_kind (classify_message m) then i :: cut_points_from (S i) ms
      else cut_points_from (S i) ms
  end.
Definition find_cut_points (ms : list Msg) : list nat := cut_points_from 0 ms.

Definition block_len (b : ContentBlock Value) : Z :=
  match b with Text t => str_len t | _ => 50 end.
Definition estimate_message_tokens (m : Msg) : Z :=
  (foldr Z.add 0 (map block_len (content m)) + 20) / 4 + 4.

(** The backward scan over the newest messages: how many fit the budget. *)
Fixpoint keep_scan (budget tokens : Z) (newest_first : list Msg) : nat :=
  match newest_first with
  | [] => 0
  | m :: rest =>
      let t := estimate_message_tokens m in
      if budget <? tokens + t then 0
      else S (keep_scan budget (tokens + t) rest)
  end.

(** [cuts.iter().rev().find(|c| c < split)]. *)
Definition last_cut_before (split : nat) (cuts : list nat) : option nat :=
  List.find (fun c => Nat.ltb c split) (rev cuts).

Definition split_point (ms : list Msg) (keep_recent_tokens : Z) : nat :=
  let keep_count := keep_scan keep_recent_tokens 0 (rev ms) in
  let keep_count := Nat.min (Nat.max keep_count 2) (length ms) in
  let split := (length ms - keep_count)%nat in
  match ms !! split with
  | Some m =>
      if decide (classify_message m = KToolResult) then
        default 0%nat (last_cut_before split (find_cut_points ms))
      else split
  | None => split
  end.

Definition select_messages_respecting_boundaries (ms : list Msg) (keep_recent_tokens : Z)
    : list Msg * list Msg * bool :=
  if Nat.ltb (length ms) 3 then ([], ms, false)
  else
    let split := split_point ms keep_recent_tokens in
    let to_compact := take split ms in
    let to_keep := drop split ms in
    let is_split_turn :=
      bool_decide (to_compact = [])
      || negb (existsb (fun m => bool_decide (classify_message m = KUser)) to_compact) in
    (to_compact, to_keep, is_split_turn).

Definition extract_turn_prefix (ms : list Msg) (split : nat) : option (list Msg) :=
  if Nat.eqb split 0 || Nat.leb (length ms) split then None
  else
    let turn_start := default 0%nat (last_cut_before split (find_cut_points ms)) in
    if Nat.ltb turn_start split then Some (drop turn_start (take split ms)) else None.

Lemma cut_points_spec ms i c :
  c ∈ cut_points_from i ms <->
  exists m, (i <= c)%nat /\ ms !! (c - i)%nat = Some m /\ is_cut_kind (classify_message m) = true.
Proof.
  revert i. induction ms as [|m ms IH]; intros i; cbn [cut_points_from].
  { split; [by intros []%elem_of_nil|]. intros (m & _ & H & _). by rewrite lookup_nil in H. }
  assert (Hs : forall c, (exists m', (S i <= c)%nat /\ ms !! (c - S i)%nat = Some m' /\
      is_cut_kind (classify_message m') = true) <->
    (exists m', (i < c)%nat /\ (m :: ms) !! (c - i)%nat = Some m' /\
      is_cut_kind (classify_message m') = true)).
  { intros c'. split; intros (m' & Hc & Hl & Hk); exists m'; (split; [lia|split; [|done]]).
    - replace (c' - i)%nat with (S (c' - S i)) by lia. done.
    - by replace (c' - i)%nat with (S (c' - S i)) in Hl by lia. }
  destruct (is_cut_kind (classify_message m)) eqn:E; rewrite ?elem_of_cons, IH, Hs; split.
  - intros [->|(m' & ? & ? & ?)]; [exists m; rewrite Nat.sub_diag|exists m']; eauto with lia.
  - intros (m' & Hc & Hl & Hk). destruct (decide (c = i)) as [->|]; [by left|right].
    exists m'; eauto with lia.
  - intros (m' & ? & ? & ?). exists m'; eauto with lia.
  - intros (m' & Hc & Hl & Hk). exists m'. split; [|done].
    destruct (decide (c = i)) as [->|]; [|lia].
    rewrite Nat.sub_diag in Hl. cbn in Hl. congruence.
Qed.

Lemma last_cut_spec ms split c :
  last_cut_before split (find_cut_points ms) = Some c ->
  (c < split)%nat /\ exists m, ms !! c = Some m /\ is_cut_kind (classify_message m) = true.
Proof.
  unfold last_cut_before. intros [Hin Hlt]%List.find_some.
  apply Nat.ltb_lt in Hlt. split; [done|].
  apply list_elem_of_In, list_elem_of_In, In_rev, list_elem_of_In in Hin.
  apply cut_points_spec in Hin as (m & _ & Hl & Hk). rewrite Nat.sub_0_r in Hl. eauto.
Qed.

(** The chosen split is 0 or the index of a message that is not a tool result. *)
Lemma split_point_not_tool ms k m :
  ms !! split_point ms k = Some m -> split_point ms k <> 0%nat -> role m <> Tool.
Proof.
  unfold split_point. set (split := (length ms - _)%nat).
  destruct (ms !! split) as [m0|] eqn:E; [|congruence].
  case_decide as Hk.
  - destruct (last_cut_before split _) as [c|] eqn:Ec; cbn; [|done].
    apply last_cut_spec in Ec as (_ & m' & -> & Hc). intros [= ->] _ Hr.
    unfold classify_message in Hc. by rewrite Hr in Hc.
  - intros Hl _ Hr. rewrite E in Hl. injection Hl as ->. apply Hk.
    unfold classify_message. by rewrite Hr.
Qed.

Lemma wire_ok_split (h : list Msg) (n : nat) :
  wire_ok h -> (forall m, h !! n = Some m -> n <> 0%nat -> role m <> Tool) ->
  wire_ok (take n h) /\ wire_ok (drop n h).
Proof.
  intros Hw. revert n. induction Hw as [|m rest Hr Hc Hn Hids Hw IH|m t rest Hr Hn Hids Ht Hres Hw IH];
    intros n Hnt.
  - rewrite take_nil, drop_nil. split; constructor.
  - destruct n as [|n]; [split; [constructor|by apply wire_plain]|].
    destruct (IH n) as [H1 H2]. { intros m' Hm' _. by apply (Hnt m'). }
    split; [by apply wire_plain|done].
  - destruct n as [|[|n]].
    + split; [constructor|by apply wire_calls].
    + exfalso. by apply (Hnt t).
    + destruct (IH n) as [H1 H2]. { intros m' Hm' _. by apply (Hnt m'). }
      split; [by apply wire_calls|done].
Qed.

Lemma split_point_bound ms k : (3 <= length ms)%nat -> (split_point ms k + 2 <= length ms)%nat.
Proof.
  intros Hlen. unfold split_point. set (kc := Nat.max _ 2).
  assert (2 <= kc)%nat by (unfold kc; lia).
  destruct (ms !! _); [|lia]. case_decide; [|lia].
  destruct (last_cut_before _ _) as [c|] eqn:Ec; cbn; [|lia].
  apply last_cut_spec in Ec as [Hc _]. lia.
Qed.

End Cut.
End Boundaries.

(** ** Front eviction *)

Module Eviction.
Section Evict.
Context {Value : Type}.
Abbreviation Msg := (LlmMessage Value).

Definition first_tool_result_call_id (m : Msg) : option string :=
  head (omap result_id (content m)).
Definition first_tool_call_id (m : Msg) : option string :=
  head (omap call_id (content m)).

Definition has_tool_call_with_id (id : string) (m : Msg) : bool :=
  if decide (role m <> Assistant) then false
  else existsb (fun b => bool_decide (call_id b = Some id)) (content m).
Definition has_tool_result_with_id (id : string) (m : Msg) : bool :=
  if decide (role m <> Tool) then false
  else existsb (fun b => bool_decide (result_id b = Some id)) (content m).

(** Remove the first message satisfying [p], counting it. *)
Definition remove_first (p : Msg -> bool) (ms : list Msg) (removed : nat) : nat * list Msg :=
  match position p ms with
  | Some pos => (S removed, delete pos ms)
  | None => (removed, ms)
  end.

Definition drop_oldest_respecting_pairs (ms : list Msg) : nat * list Msg :=
  match ms with
  | [] => (0%nat, [])
  | oldest :: ms =>
      let '(removed, ms) :=
        match first_tool_result_call_id oldest with
        | Some id => remove_first (has_tool_call_with_id id) ms 1
        | None => (1%nat, ms)
        end in
      match first_tool_call_id oldest with
      | Some id => remove_first (has_tool_result_with_id id) ms removed
      | None => (removed, ms)
      end
  end.

(** Tool calls are only made by the assistant. *)
Definition calls_by_assistant (h : list Msg) : Prop :=
  Forall (fun m => role m <> Assistant -> omap call_id (content m) = []) h.

Lemma remove_first_count p ms n :
  let '(n', ms') := remove_first p ms n in
  (n' + length ms' = n + length ms)%nat /\ (n <= n' <= S n)%nat /\ sublist ms' ms.
Proof.
  unfold remove_first. destruct (position p ms) as [i|] eqn:E; [|by split_and!; try lia].
  apply position_Some in E as (x & Hx & _). pose proof (delete_length ms i x Hx).
  split_and!; [lia|lia|lia|]. apply sublist_delete.
Qed.

Lemma evict_count ms :
  let '(n, ms') := drop_oldest_respecting_pairs ms in
  (n + length ms' = length ms)%nat /\ (n <= 3)%nat /\ (ms <> [] -> 1 <= n)%nat /\ sublist ms' ms.
Proof.
  destruct ms as [|m ms]; [cbn; split_and!; [lia|lia|done|reflexivity]|].
  cbn [drop_oldest_respecting_pairs].
  assert (H : let '(n, ms1) := match first_tool_result_call_id m with
      | Some id => remove_first (has_tool_call_with_id id) ms 1 | None => (1%nat, ms) end in
    (n + length ms1 = S (length ms))%nat /\ (1 <= n <= 2)%nat /\ sublist ms1 ms).
  { destruct (first_tool_result_call_id m) as [id|]; [|by split_and!; try lia].
    pose proof (remove_first_count (has_tool_call_with_id id) ms 1).
    destruct (remove_first _ ms 1). split_and!; [lia|lia|lia|tauto]. }
  destruct (match first_tool_result_call_id m with Some _ => _ | None => _ end) as [n ms1].
  destruct H as (H1 & H2 & H3).
  destruct (first_tool_call_id m) as [id|].
  - pose proof (remove_first_count (has_tool_result_with_id id) ms1 n) as H.
    destruct (remove_first _ ms1 n) as [n2 ms2]. destruct H as (H4 & H5 & H6).
    cbn [length]. split_and!; [lia|lia|lia|]. apply sublist_cons. by etrans.
  - cbn [length]. split_and!; [lia|lia|lia|]. by apply sublist_cons.
Qed.

Lemma resultless_no_result_id (m : Msg) : resultless m -> first_tool_result_call_id m = None.
Proof.
  unfold resultless, first_tool_result_call_id. induction (content m) as [|b bs IH]; [done|].
  cbn [existsb]. intros [Hb Hbs]%orb_false_iff. destruct b; cbn in *; auto; done.
Qed.

Lemma tool_has_result (t : Msg) id ids :
  role t = Tool -> map result_id (content t) = map Some ids -> id ∈ ids ->
  has_tool_result_with_id id t = true.
Proof.
  intros Hr Hres Hid. unfold has_tool_result_with_id. rewrite decide_False by naive_solver.
  revert ids Hres Hid. induction (content t) as [|b bs IH]; intros [|i ids]; try done.
  - by intros _ []%elem_of_nil.
  - cbn [map existsb]. intros [= Hb Hbs] [->|Hid]%elem_of_cons.
    + by rewrite bool_decide_true.
    + rewrite (IH ids Hbs Hid). apply orb_true_r.
Qed.

Lemma evict_wire h :
  wire_ok h -> calls_by_assistant h -> wire_ok (snd (drop_oldest_respecting_pairs h)).
Proof.
  intros Hw Hca. destruct Hw as [|m rest Hr Hc Hn Hids Hw|m t rest Hr Hn Hids Ht Hres Hw].
  - constructor.
  - cbn [drop_oldest_respecting_pairs]. rewrite resultless_no_result_id by done.
    assert (Hnone : first_tool_call_id m = None).
    { unfold first_tool_call_id. apply Forall_cons in Hca as [Hm _].
      unfold call_ids in Hids. case_decide; [by rewrite Hids|by rewrite Hm]. }
    by rewrite Hnone.
  - cbn [drop_oldest_respecting_pairs]. rewrite resultless_no_result_id by done.
    unfold first_tool_call_id. unfold call_ids in Hids, Hres.
    rewrite decide_True in Hids, Hres by done.
    destruct (omap call_id (content m)) as [|id ids]; [done|]. cbn [head].
    unfold remove_first. cbn [position].
    rewrite (tool_has_result t id (id :: ids) Ht Hres ltac:(left)). exact Hw.
Qed.

End Evict.
End Eviction.

(** ** Rewriting oversized tool results *)

Module Rewrite.

Definition image_dimensions (s : ImageSource) : option ImageDimensions :=
  match s with Base64 _ d | Url _ d => d end.

Definition mime_type_token_floor (mime_type : string) : Z :=
  let m := to_ascii_lowercase mime_type in
  if decide (m = "image/jpeg" \/ m = "image/jpg" \/ m = "image/webp" \/ m = "image/gif") then 1500
  else if decide (m = "image/png" \/ m = "image/heic" \/ m = "image/heif") then 2500
  else 2500.

(** [0.75] as a double. *)
Definition three_quarters : f64 := f64_div (f64_of_Z 3) (f64_of_Z 4).

Definition estimate_image_tokens (s : ImageSource) (mime_type : string) : Z :=
  match (match image_dimensions s with
         | Some d => if (0 <? width d) && (0 <? height d) then Some d else None
         | None => None
         end) with
  | Some dims => high_detail_tokens dims
  | None =>
      match s with
      | Base64 data _ => f64_ceil_usize (f64_div (f64_of_Z (str_len data)) three_quarters)
      | Url _ _ => mime_type_token_floor mime_type
      end
  end.

Section Rewrite.
Context {Value : Type}.
(** Length of a JSON value printed by [Value::to_string]. *)
Context (value_len : Value -> Z).
Abbreviation Block := (ContentBlock Value).
Abbreviation Msg := (LlmMessage Value).

Definition message_image_tokens (bs : list Block) : Z :=
  foldr Z.add 0 (omap (fun b => match b with
    | Image s mt => Some (estimate_image_tokens s mt) | _ => None end) bs).

Record RewriteStats := {
  rewritten_count : Z;
  tokens_reclaimed_estimate : Z;
  inspected_count : Z;
}.
Definition stats_default : RewriteStats :=
  {| rewritten_count := 0; tokens_reclaimed_estimate := 0; inspected_count := 0 |}.
Definition did_rewrite (s : RewriteStats) : bool := 0 <? rewritten_count s.

Definition overflow_threshold (context_window reserve_tokens : Z) : Z :=
  sat_sub_u64 context_window reserve_tokens / 2.

(** One iteration of the loop of [tool_result_tokens]. *)
Fixpoint add_block (total : Z) (b : Block) : Z :=
  match b with
  | Text t => sat_add_u64 total (Z.max 1 ((str_len t + 3) / 4))
  | ToolResult _ _ c _ => sat_add_u64 total (fold_left add_block c 0)
  | ToolCall _ name arguments =>
      sat_add_u64 (sat_add_u64 total (str_len name / 4)) (value_len arguments / 4)
  | Image s mt => sat_add_u64 total (estimate_image_tokens s mt)
  | Audio s _ | Video s _ =>
      let len := match s with Base64 data _ => str_len data | Url url _ => str_len url end in
      sat_add_u64 total (len / 4)
  | Thinking t _ => sat_add_u64 total (str_len t / 4)
  end.
Definition tool_result_tokens (c : list Block) : Z := fold_left add_block c 0.

Definition truncation_sentinel (original_tokens : Z) (id : string) : list Block :=
  [Text ("[truncated by peko_runtime: tool result for call " +:+ id +:+ " was " +:+
         pretty (Z.to_N original_tokens) +:+ " tokens, reduced to sentinel. Re-invoke the " +:+
         "tool with a narrower scope (smaller limit, filter, or offset) " +:+
         "to get the full result.]")].

Definition rewrite_block (threshold : Z) (stats : RewriteStats) (b : Block)
    : RewriteStats * Block :=
  match b with
  | ToolResult id name c is_error =>
      let stats := {| rewritten_count := rewritten_count stats;
                      tokens_reclaimed_estimate := tokens_reclaimed_estimate stats;
                      inspected_count := inspected_count stats + 1 |} in
      let tokens := tool_result_tokens c in
      if tokens <=? threshold then (stats, b)
      else
        ({| rewritten_count := rewritten_count stats + 1;
            tokens_reclaimed_estimate :=
              sat_add_u64 (tokens_reclaimed_estimate stats) tokens;
            inspected_count := inspected_count stats |},
         ToolResult id name (truncation_sentinel tokens id) false)
  | _ => (stats, b)
  end.

Fixpoint rewrite_blocks (threshold : Z) (stats : RewriteStats) (bs : list Block)
    : RewriteStats * list Block :=
  match bs with
  | [] => (stats, [])
  | b :: bs =>
      let '(stats, b) := rewrite_block threshold stats b in
      let '(stats, bs) := rewrite_blocks threshold stats bs in
      (stats, b :: bs)
  end.

Fixpoint rewrite_messages (threshold : Z) (stats : RewriteStats) (ms : list Msg)
    : RewriteStats * list Msg :=
  match ms with
  | [] => (stats, [])
  | m :: ms =>
      let '(stats, c) := rewrite_blocks threshold stats (content m) in
      let '(stats, ms) := rewrite_messages threshold stats ms in
      (stats, with_content m c :: ms)
  end.

Definition rewrite_oversized_tool_results (ms : list Msg) (context_window reserve_tokens : Z)
    : RewriteStats * list Msg :=
  rewrite_messages (overflow_threshold context_window reserve_tokens) stats_default ms.

(** *** What it does to one block *)

Definition oversized (threshold : Z) (b : Block) : bool :=
  match b with ToolResult _ _ c _ => threshold <? tool_result_tokens c | _ => false end.

Definition shrink (threshold : Z) (b : Block) : Block :=
  match b with
  | ToolResult id name c e =>
      if oversized threshold b
      then ToolResult id name (truncation_sentinel (tool_result_tokens c) id) false else b
  | _ => b
  end.

Definition count_if {A} (p : A -> bool) (l : list A) : Z := Z.of_nat (length (List.filter p l)).

Lemma rewrite_blocks_spec th st bs :
  let '(st', bs') := rewrite_blocks th st bs in
  bs' = map (shrink th) bs /\
  inspected_count st' = inspected_count st + count_if is_result bs /\
  rewritten_count st' = rewritten_count st + count_if (oversized th) bs.
Proof.
  revert st. induction bs as [|b bs IH]; intros st; cbn [rewrite_blocks].
  { unfold count_if; cbn. split_and!; [done|lia|lia]. }
  assert (Hb : let '(st1, b1) := rewrite_block th st b in b1 = shrink th b /\
    inspected_count st1 = inspected_count st + (if is_result b then 1 else 0) /\
    rewritten_count st1 = rewritten_count st + (if oversized th b then 1 else 0)).
  { destruct b; cbn [rewrite_block shrink oversized is_result]; try (split_and!; [done|lia|lia]).
    rewrite Z.ltb_antisym. destruct (_ <=? th); cbn; split_and!; (done || lia). }
  destruct (rewrite_block th st b) as [st1 b1]. destruct Hb as (-> & Hi & Hr).
  specialize (IH st1). destruct (rewrite_blocks th st1 bs) as [st2 bs2].
  destruct IH as (-> & Hi2 & Hr2). unfold count_if in *. cbn [map List.filter].
  split_and!; [done| |].
  - destruct (is_result b); cbn [length]; lia.
  - destruct (oversized th b); cbn [length]; lia.
Qed.

Lemma rewrite_messages_spec th st ms :
  let '(st', ms') := rewrite_messages th st ms in
  ms' = map (fun m => with_content m (map (shrink th) (content m))) ms /\
  inspected_count st' = inspected_count st + count_if is_result (flat_map content ms) /\
  rewritten_count st' = rewritten_count st + count_if (oversized th) (flat_map content ms).
Proof.
  revert st. induction ms as [|m ms IH]; intros st; cbn [rewrite_messages].
  { unfold count_if; cbn. split_and!; [done|lia|lia]. }
  pose proof (rewrite_blocks_spec th st (content m)) as Hb.
  destruct (rewrite_blocks th st (content m)) as [st1 c]. destruct Hb as (-> & Hi & Hr).
  specialize (IH st1). destruct (rewrite_messages th st1 ms) as [st2 ms2].
  destruct IH as (-> & Hi2 & Hr2). cbn [map flat_map].
  unfold count_if in *. rewrite !List.filter_app, !length_app. split_and!; [done|lia|lia].
Qed.

Lemma shrink_result_id th b : result_id (shrink th b) = result_id b.
Proof. destruct b; cbn [shrink]; try done. by case_match. Qed.
Lemma shrink_call_id th b : call_id (shrink th b) = call_id b.
Proof. destruct b; cbn [shrink]; try done. by case_match. Qed.
Lemma shrink_is_result th b : is_result (shrink th b) = is_result b.
Proof. destruct b; cbn [shrink]; try done. by case_match. Qed.

Definition shrink_msg (th : Z) (m : Msg) : Msg := with_content m (map (shrink th) (content m)).

Lemma shrink_call_ids th m : call_ids (shrink_msg th m) = call_ids m.
Proof.
  unfold call_ids, shrink_msg; cbn [role content with_content]. case_decide; [|done].
  induction (content m) as [|b bs IH]; [done|]. cbn. by rewrite shrink_call_id, IH.
Qed.

Lemma existsb_shrink th (bs : list Block) : existsb is_result (map (shrink th) bs) = existsb is_result bs.
Proof. induction bs as [|b bs IH]; [done|]. cbn. by rewrite shrink_is_result, IH. Qed.

Lemma shrink_wire th h : wire_ok h -> wire_ok (map (shrink_msg th) h).
Proof.
  induction 1 as [|m rest Hr Hc Hn Hids Hw IH|m t rest Hr Hn Hids Ht Hres Hw IH]; cbn [map].
  - constructor.
  - apply wire_plain; try done.
    + cbn. by destruct (content m).
    + cbn. by rewrite existsb_shrink.
    + by rewrite shrink_call_ids.
  - apply wire_calls; try done.
    + cbn. by rewrite existsb_shrink.
    + by rewrite shrink_call_ids.
    + rewrite shrink_call_ids, <- Hres. cbn. rewrite map_map. apply map_ext.
      intros b. apply shrink_result_id.
Qed.

End Rewrite.
End Rewrite.

(** ** Properties *)

(** selecting what to compact splits the history in two without losing
    or reordering anything, keeps at least two messages (all of them when there
    are fewer than three), never cuts in front of a tool result, and so both
    halves of a provider-shaped history are provider-shaped. *)
Theorem compaction_split_sound {Value} (ms : list (LlmMessage Value)) (keep_recent_tokens : Z) :
  let '(to_compact, to_keep, _) :=
    Boundaries.select_messages_respecting_boundaries ms keep_recent_tokens in
  to_compact ++ to_keep = ms /\
  (Nat.min 2 (length ms) <= length to_keep)%nat /\
  (forall m, head to_keep = Some m -> to_compact <> [] -> role m <> Tool) /\
  (wire_ok ms -> wire_ok to_compact /\ wire_ok to_keep).
Proof.
  unfold Boundaries.select_messages_respecting_boundaries.
  destruct (Nat.ltb_spec (length ms) 3) as [Hl|Hl].
  { split_and!; [done|lia|done|]. intros Hw. split; [constructor|done]. }
  pose proof (Boundaries.split_point_bound ms keep_recent_tokens Hl) as Hb.
  split_and!.
  - apply take_drop.
  - rewrite length_drop. lia.
  - intros m Hm Hne. apply (Boundaries.split_point_not_tool ms keep_recent_tokens).
    + rewrite <- Hm, head_lookup, lookup_drop. by rewrite Nat.add_0_r.
    + intros H0. apply Hne. by rewrite H0.
  - intros Hw. apply Boundaries.wire_ok_split; [done|].
    intros m Hm. by apply (Boundaries.split_point_not_tool ms keep_recent_tokens).
Qed.

(** evicting the oldest message always makes progress on a non-empty
    history, reports exactly how many messages it removed (at most three),
    leaves the rest in order, and keeps a provider-shaped history
    provider-shaped (calls being made by the assistant only). *)
Theorem eviction_keeps_pairs {Value} (h : list (LlmMessage Value)) :
  let '(n, h') := Eviction.drop_oldest_respecting_pairs h in
  (n + length h' = length h)%nat /\ (n <= 3)%nat /\ (h <> [] -> 1 <= n)%nat /\ sublist h' h /\
  (wire_ok h -> Eviction.calls_by_assistant h -> wire_ok h').
Proof.
  pose proof (Eviction.evict_count h) as Hc. pose proof (Eviction.evict_wire h) as Hw.
  destruct (Eviction.drop_oldest_respecting_pairs h) as [n h']. destruct Hc as (? & ? & ? & ?). auto.
Qed.

(** rewriting oversized tool results changes exactly the results whose
    estimate exceeds the threshold, to a sentinel under the same call id and
    tool name; everything else is untouched, pairing survives, and the
    reported counts are the results seen and the results rewritten. *)
Theorem rewrite_oversized_exact {Value} (value_len : Value -> Z) (ms : list (LlmMessage Value))
    (context_window reserve_tokens : Z) :
  let th := Rewrite.overflow_threshold context_window reserve_tokens in
  let '(stats, ms') := Rewrite.rewrite_oversized_tool_results value_len ms context_window reserve_tokens in
  ms' = map (Rewrite.shrink_msg value_len th) ms /\
  Rewrite.inspected_count stats = Rewrite.count_if is_result (flat_map content ms) /\
  Rewrite.rewritten_count stats = Rewrite.count_if (Rewrite.oversized value_len th) (flat_map content ms) /\
  (wire_ok ms -> wire_ok ms').
Proof.
  intros th. unfold Rewrite.rewrite_oversized_tool_results.
  pose proof (Rewrite.rewrite_messages_spec value_len th Rewrite.stats_default ms) as H. fold th.
  destruct (Rewrite.rewrite_messages value_len th _ ms) as [stats ms'].
  destruct H as (-> & Hi & Hr). split_and!; [done|done|done|].
  intros Hw. by apply Rewrite.shrink_wire.
Qed.
