(* ===== verification/Plan.v ===== *)
(** * Plan: the plan record and its dependency check (peko-rs/plan/src/schema.rs)

    Node and plan records, the id syntax, the views the runtime schedules from
    (ready, focus, due, active) and [validate_nodes], the depth-first cycle
    check over node dependencies. *)

From Stdlib Require Import ZArith Lia Ascii.
From stdpp Require Import base tactics list gmap strings pretty relations.
From S2P Require Import Prelude.

Open Scope Z_scope.

(** ** Errors (error.rs) *)

(** The underlying JSON and I/O errors are opaque. *)
Inductive PlanError :=
  | NotFound
  | AlreadyClosed
  | PrincipalMismatch (expected got : string)
  | CorruptRecord (plan_id : string)
  | InvalidNodeId (msg : string)
  | Io.

(** ** Data *)

Definition NodeId : Type := string.

Inductive PlanNodeStatus :=
  | Pending
  | InProgress
  | Completed (completed_at : Z)
  | Blocked (reason : string) (since : Z)
  | Failed (reason : string) (last_attempt_at : Z).
#[export] Instance PlanNodeStatus_eq_dec : EqDecision PlanNodeStatus.
Proof. solve_decision. Defined.

Record NodeEvidence := {
  output : string;
  artifacts : list string;
  decided_by : option string;
}.

Record PlanNode := {
  node_id : NodeId;
  step : string;
  status : PlanNodeStatus;
  depends_on : list NodeId;
  evidence : option NodeEvidence;
  blocked_reason : option string;
  check_at : option Z;
  created_at : Z;
  updated_at : Z;
}.

Record ClosedState := { closed_at : Z; close_reason : string }.

Record PlanRecord := {
  plan_id : string;
  principal_id : string;
  schema_version : Z;
  title : string;
  plan_created_at : Z;
  plan_updated_at : Z;
  nodes : list PlanNode;
  closed : option ClosedState;
}.

(** ** Ids *)

Definition PLAN_SCHEMA_VERSION : Z := 1.
Definition ID_SUFFIX_LEN : nat := 8.
Definition BASE36 : string := "0123456789abcdefghijklmnopqrstuvwxyz".
Definition NODE_PREFIX : string := "node_".

Definition base36_digit (v : Z) : ascii :=
  default "0"%char (String.get (Z.to_nat (v mod 36)) BASE36).

(** The loop fills the slots from the last to the first. *)
Fixpoint base36_fill (slots : nat) (v : Z) (acc : string) : string :=
  match slots with
  | O => acc
  | S slots => base36_fill slots (v / 36) (String (base36_digit v) acc)
  end.
Definition base36_id (n : Z) : string := base36_fill ID_SUFFIX_LEN n "".

(** [rest.bytes().all(|b| BASE36.contains(&b))]. *)
Fixpoint all_base36 (s : string) : bool :=
  match s with
  | EmptyString => true
  | String c s => str_has c BASE36 && all_base36 s
  end.

(** The messages print [s] with [{:?}]; [dbg] is that printer. *)
Definition parse_id_suffix (dbg : string -> string) (s prefix : string) : result string PlanError :=
  match strip_prefix prefix s with
  | None => Err (InvalidNodeId ("missing " +:+ prefix +:+ " prefix: " +:+ dbg s))
  | Some rest =>
      if negb (Nat.eqb (String.length rest) ID_SUFFIX_LEN) then
        Err (InvalidNodeId ("expected 8 base36 chars after " +:+ dbg prefix +:+ ", got " +:+
               pretty (N.of_nat (String.length rest)) +:+ " in " +:+ dbg s))
      else if negb (all_base36 rest) then
        Err (InvalidNodeId ("non-base36 chars in suffix of " +:+ dbg s))
      else Ok rest
  end.

Definition node_id_parse (dbg : string -> string) (s : string) : result NodeId PlanError :=
  match parse_id_suffix dbg s NODE_PREFIX with Ok _ => Ok s | Err e => Err e end.

(** [NodeId::generate] and the plan id, from the 32-bit number drawn. *)
Definition node_id_generate (rand : Z) : NodeId := NODE_PREFIX +:+ base36_id rand.
Definition plan_id_generate (rand : Z) : string := "plan_" +:+ base36_id rand.

(** [rand_u32]: a splitmix64 finalizer over clock, counter and process id. *)
Definition u64_wrap (x : Z) : Z := x mod 2 ^ 64.
Definition rand_u32 (now pid ctr : Z) : Z :=
  let z := u64_wrap (u64_wrap (u64_wrap now + u64_wrap (ctr * 0x9E3779B97F4A7C15))
                     + u64_wrap (pid * 0xBF58476D1CE4E5B9)) in
  let z := u64_wrap (Z.lxor z (Z.shiftr z 30) * 0xBF58476D1CE4E5B9) in
  let z := u64_wrap (Z.lxor z (Z.shiftr z 27) * 0x94D049BB133111EB) in
  let z := Z.lxor z (Z.shiftr z 31) in
  Z.lxor (z mod 2 ^ 32) (Z.shiftr z 32 mod 2 ^ 32).

(** ** Plan records *)

Definition stamp_node (now : Z) (n : PlanNode) : PlanNode :=
  {| node_id := node_id n; step := step n; status := status n; depends_on := depends_on n;
     evidence := evidence n; blocked_reason := blocked_reason n; check_at := check_at n;
     created_at := now; updated_at := now |}.

Definition plan_new (rand now : Z) (principal title_ : string) (ns : list PlanNode) : PlanRecord :=
  {| plan_id := plan_id_generate rand; principal_id := principal;
     schema_version := PLAN_SCHEMA_VERSION; title := title_;
     plan_created_at := now; plan_updated_at := now;
     nodes := map (stamp_node now) ns; closed := None |}.

Definition is_completed (n : PlanNode) : bool :=
  match status n with Completed _ => true | _ => false end.

Definition has_unresolved_nodes (p : PlanRecord) : bool :=
  match closed p with
  | Some _ => false
  | None => existsb (fun n => negb (is_completed n)) (nodes p)
  end.

Definition completed_ids (p : PlanRecord) : gset NodeId :=
  list_to_set (map node_id (List.filter is_completed (nodes p))).

Definition ready_nodes (p : PlanRecord) : list PlanNode :=
  let completed := completed_ids p in
  List.filter (fun n => forallb (fun dep => bool_decide (dep ∈ completed)) (depends_on n))
    (List.filter (fun n => bool_decide (status n = Pending)) (nodes p)).

Definition current_focus_nodes (p : PlanRecord) : list PlanNode :=
  List.filter (fun n => bool_decide (status n = InProgress)) (nodes p).

Definition due_at (now : Z) (n : PlanNode) : bool :=
  match check_at n with Some at_ => at_ <=? now | None => false end.
Definition not_snoozed (now : Z) (n : PlanNode) : bool :=
  match check_at n with Some at_ => at_ <=? now | None => true end.

Definition due_check_ins (p : PlanRecord) (now : Z) : list PlanNode :=
  List.filter (due_at now) (List.filter (fun n => negb (is_completed n)) (nodes p)).

Definition active_nodes (p : PlanRecord) (now : Z) : list PlanNode :=
  List.filter (not_snoozed now) (current_focus_nodes p ++ ready_nodes p).

(** ** The dependency check *)

Inductive Color := White | Grey | Black.
#[export] Instance Color_eq_dec : EqDecision Color.
Proof. solve_decision. Defined.

(** First dependency that names no node of the list. *)
Definition missing_dep (ns : list PlanNode) : option (PlanNode * NodeId) :=
  let ids : gset NodeId := list_to_set (map node_id ns) in
  head (flat_map (fun n => map (pair n)
    (List.filter (fun dep => negb (bool_decide (dep ∈ ids))) (depends_on n))) ns).

(** [collect] into a map keeps the last index of an id. *)
Fixpoint index_by_id (i : nat) (ns : list PlanNode) (m : gmap NodeId nat) : gmap NodeId nat :=
  match ns with
  | [] => m
  | n :: ns => index_by_id (S i) ns (<[node_id n := i]> m)
  end.

(** [forward[j].push(i)] for each dependency of node [i]. *)
Definition push_dep (by_id : gmap NodeId nat) (i : nat) (fw : list (list nat)) (dep : NodeId)
    : list (list nat) :=
  match by_id !! dep with
  | Some j => alter (fun l => l ++ [i]) j fw
  | None => fw
  end.
Fixpoint build_forward (by_id : gmap NodeId nat) (i : nat) (ns : list PlanNode)
    (fw : list (list nat)) : list (list nat) :=
  match ns with
  | [] => fw
  | n :: ns => build_forward by_id (S i) ns (fold_left (push_dep by_id i) (depends_on n) fw)
  end.
Definition forward_of (ns : list PlanNode) : list (list nat) :=
  build_forward (index_by_id 0 ns ∅) 0 ns (replicate (length ns) []).

(** The traversal state.  [stack] and [frame_nodes] have their top first; a
    frame holds the successors still to visit, the next one ([pop] takes the
    last of the vector) first. *)
Record Dfs := {
  color : list Color;
  stack : list (list nat);
  frame_nodes : list nat;
}.

Definition enter (fw : list (list nat)) (v : nat) (d : Dfs) : Dfs :=
  {| color := <[v := Grey]> (color d);
     stack := rev (fw !!! v) :: stack d;
     frame_nodes := v :: frame_nodes d |}.

Inductive Outcome :=
  | Next (d : Dfs)
  | Finished (d : Dfs)
  | Cycle (v : nat)
  | Panic.

(** One turn of the [while] loop. *)
Definition dfs_step (fw : list (list nat)) (d : Dfs) : Outcome :=
  match stack d with
  | [] => Finished d
  | [] :: stack' =>
      match frame_nodes d with
      | done :: frames' =>
          Next {| color := <[done := Black]> (color d); stack := stack'; frame_nodes := frames' |}
      | [] => Panic
      end
  | (next :: rest) :: stack' =>
      let d := {| color := color d; stack := rest :: stack'; frame_nodes := frame_nodes d |} in
      match color d !! next with
      | Some White => Next (enter fw next d)
      | Some Grey => Cycle next
      | Some Black => Next d
      | None => Panic
      end
  end.

Fixpoint dfs_run (fuel : nat) (fw : list (list nat)) (d : Dfs) : Outcome :=
  match fuel with
  | O => Panic
  | S fuel =>
      match dfs_step fw d with
      | Next d => dfs_run fuel fw d
      | o => o
      end
  end.

(** The [for start] loop. *)
Fixpoint dfs_all (fuel : nat) (fw : list (list nat)) (starts : list nat) (d : Dfs) : Outcome :=
  match starts with
  | [] => Finished d
  | s :: starts =>
      match color d !! s with
      | Some White =>
          match dfs_run fuel fw (enter fw s d) with
          | Finished d => dfs_all fuel fw starts d
          | o => o
          end
      | Some _ => dfs_all fuel fw starts d
      | None => Panic
      end
  end.

(** Steps one traversal can take: a frame and its successors per node. *)
Definition dfs_fuel (fw : list (list nat)) : nat := S (length fw + length (concat fw)).

Definition validate_nodes (ns : list PlanNode) : option (result unit PlanError) :=
  match missing_dep ns with
  | Some (n, dep) =>
      Some (Err (InvalidNodeId ("node " +:+ node_id n +:+ " depends on missing node " +:+ dep)))
  | None =>
      let fw := forward_of ns in
      match dfs_all (dfs_fuel fw) fw (seq 0 (length ns))
              {| color := replicate (length ns) White; stack := []; frame_nodes := [] |} with
      | Finished _ => Some (Ok tt)
      | Cycle v =>
          match ns !! v with
          | Some n => Some (Err (InvalidNodeId ("plan has cycle through node " +:+ node_id n)))
          | None => None
          end
      | _ => None
      end
  end.
