(* ===== verification/PlanDag.v ===== *)
(** * PlanDag: the cycle check of [Plan.validate_nodes] is exact

    Invariants of the depth-first traversal (grey nodes are the open path,
    black nodes reach only black nodes and lie on no cycle), the measure that
    bounds its steps, and the link between dependency lists and edges. *)

From Stdlib Require Import ZArith Lia Ascii.
From stdpp Require Import base tactics list gmap strings relations.
From S2P Require Import Prelude Plan.

Local Open Scope nat_scope.

(** The first step of a path. *)
Lemma tc_first {A} (R : relation A) x y : tc R x y -> exists w, R x w /\ rtc R w y.
Proof. inversion 1; subst; [exists y; split; [done|apply rtc_refl]|eauto using tc_rtc]. Qed.

Lemma elem_of_rev {A} (l : list A) x : x ∈ rev l <-> x ∈ l.
Proof. by rewrite !list_elem_of_In, <- in_rev. Qed.

Section Traversal.
Context (fw : list (list nat)).

Definition edge (v w : nat) : Prop := exists l, fw !! v = Some l /\ w ∈ l.

(** Every successor is a node. *)
Definition in_range : Prop := forall v w, edge v w -> w < length fw.

Lemma edge_lookup v w : edge v w <-> w ∈ fw !!! v.
Proof.
  unfold edge. rewrite list_lookup_total_alt. destruct (fw !! v) as [l|]; cbn.
  - split; [by intros (? & [= <-] & ?)|eauto].
  - split; [by intros (? & ? & ?)|by intros []%elem_of_nil].
Qed.

(** Each open node is a successor of the one below it. *)
Fixpoint linked (ns : list nat) : Prop :=
  match ns with
  | a :: ((b :: _) as rest) => edge b a /\ linked rest
  | _ => True
  end.

(** Each successor of an open node is still to visit, black, or the open node
    above it. *)
Fixpoint frames_ok (c : list Color) (above : option nat) (ns : list nat) (st : list (list nat))
    : Prop :=
  match ns, st with
  | v :: ns, rem :: st =>
      (forall w, edge v w -> w ∈ rem \/ c !! w = Some Black \/ above = Some w) /\
      (forall w, w ∈ rem -> edge v w) /\ frames_ok c (Some v) ns st
  | [], [] => True
  | _, _ => False
  end.

Record inv (d : Dfs) : Prop := {
  inv_len : length (color d) = length fw;
  inv_grey : forall v, color d !! v = Some Grey <-> v ∈ frame_nodes d;
  inv_nodup : NoDup (frame_nodes d);
  inv_linked : linked (frame_nodes d);
  inv_frames : frames_ok (color d) None (frame_nodes d) (stack d);
  inv_black : forall v w, color d !! v = Some Black -> edge v w -> color d !! w = Some Black;
  inv_acyclic : forall v, color d !! v = Some Black -> ~ tc edge v v;
}.

Lemma linked_rtc v l u : linked (v :: l) -> u ∈ v :: l -> rtc edge u v.
Proof.
  revert v. induction l as [|b l IH]; intros v Hl Hu.
  - apply list_elem_of_singleton in Hu as ->. done.
  - destruct Hl as [He Hl]. apply elem_of_cons in Hu as [->|Hu]; [done|].
    eapply rtc_r; [by apply IH|done].
Qed.

Lemma frames_ok_mono c c' above ns st :
  (forall w, c !! w = Some Black -> c' !! w = Some Black) ->
  frames_ok c above ns st -> frames_ok c' above ns st.
Proof.
  intros Hc. revert above st. induction ns as [|v ns IH]; intros above [|rem st]; try done.
  intros (H1 & H2 & H3). split; [|split; [done|by apply IH]].
  intros w Hw. destruct (H1 w Hw) as [|[|]]; auto.
Qed.

(** Blackening the node above leaves the frames below in order. *)
Lemma frames_ok_above c v ns st :
  v < length c -> frames_ok c (Some v) ns st -> frames_ok (<[v := Black]> c) None ns st.
Proof.
  intros Hv. assert (Hm : forall w, c !! w = Some Black -> <[v := Black]> c !! w = Some Black).
  { intros w Hw. destruct (decide (v = w)) as [->|]; [by rewrite list_lookup_insert_eq|].
    by rewrite list_lookup_insert_ne. }
  destruct ns as [|u ns], st as [|rem st]; try done.
  intros (H1 & H2 & H3). split; [|split; [done|by apply (frames_ok_mono c)]].
  intros w Hw. destruct (H1 w Hw) as [|[|[= ->]]]; [auto|auto|].
  right. left. by apply list_lookup_insert_eq.
Qed.

Lemma black_rtc d v w : inv d -> color d !! v = Some Black -> rtc edge v w -> color d !! w = Some Black.
Proof. intros Hi Hv. induction 1; [done|]. eauto using inv_black. Qed.

(** *** The three moves *)

(** The invariant without its clause on the frames: what [enter] needs once
    the successor to enter has been taken off the top frame. *)
Lemma inv_enter d v rems :
  inv d -> color d !! v = Some White ->
  (forall u ns, frame_nodes d = u :: ns -> edge u v) ->
  frames_ok (color d) (Some v) (frame_nodes d) rems ->
  inv (enter fw v {| color := color d; stack := rems; frame_nodes := frame_nodes d |}).
Proof.
  intros [Hlen Hg Hnd Hl _ Hb Ha] Hv Htop Hfr.
  assert (Hvl : v < length (color d)) by (by eapply lookup_lt_Some).
  assert (Hblk : forall w, <[v := Grey]> (color d) !! w = Some Black <-> color d !! w = Some Black).
  { intros w. destruct (decide (v = w)) as [->|]; [|by rewrite list_lookup_insert_ne].
    rewrite list_lookup_insert_eq by done. by rewrite Hv. }
  split; cbn [enter color stack frame_nodes].
  - by rewrite length_insert.
  - intros u. rewrite elem_of_cons. destruct (decide (v = u)) as [->|Hne].
    + rewrite list_lookup_insert_eq by done. naive_solver.
    + rewrite list_lookup_insert_ne, Hg by done. naive_solver.
  - apply NoDup_cons. split; [|done]. rewrite <- Hg, Hv. done.
  - destruct (frame_nodes d) as [|u ns] eqn:E; [done|]. split; [by eapply Htop|done].
  - split; [|split].
    + intros w Hw%edge_lookup. left. by rewrite elem_of_rev.
    + intros w Hw. apply edge_lookup. by rewrite <- elem_of_rev.
    + apply (frames_ok_mono (color d)); [intros w; by rewrite Hblk|done].
  - intros u w. rewrite !Hblk. apply Hb.
  - intros u. rewrite Hblk. apply Ha.
Qed.

Lemma inv_finish d v ns st :
  inv d -> frame_nodes d = v :: ns -> stack d = [] :: st ->
  inv {| color := <[v := Black]> (color d); stack := st; frame_nodes := ns |}.
Proof.
  intros Hi En Es. pose proof Hi as [Hlen Hg Hnd Hl Hf Hb Ha]. rewrite En, Es in *.
  assert (Hv : color d !! v = Some Grey) by (apply Hg; left).
  assert (Hvl : v < length (color d)) by (by eapply lookup_lt_Some).
  apply NoDup_cons in Hnd as [Hni Hnd]. destruct Hf as (Hsucc & _ & Hf).
  assert (Hsb : forall w, edge v w -> color d !! w = Some Black).
  { intros w Hw. destruct (Hsucc w Hw) as [[]%elem_of_nil|[|[=]]]; done. }
  assert (Hblk : forall w, <[v := Black]> (color d) !! w = Some Black <->
                           w = v \/ color d !! w = Some Black).
  { intros w. destruct (decide (v = w)) as [->|]; [rewrite list_lookup_insert_eq by done; naive_solver|].
    rewrite list_lookup_insert_ne by done. naive_solver. }
  split; cbn [color stack frame_nodes].
  - by rewrite length_insert.
  - intros u. destruct (decide (v = u)) as [->|Hne].
    + rewrite list_lookup_insert_eq by done. naive_solver.
    + rewrite list_lookup_insert_ne, Hg, elem_of_cons by done. naive_solver.
  - done.
  - destruct ns; [done|]. apply Hl.
  - by apply frames_ok_above.
  - intros u w. rewrite !Hblk. intros [->|Hu] He; right; eauto.
  - intros u. rewrite Hblk. intros [->|Hu]; [|by apply Ha].
    intros Htc. destruct (tc_first _ _ _ Htc) as (w & Hw & Hrtc).
    pose proof (black_rtc d w v Hi (Hsb w Hw) Hrtc). congruence.
Qed.

(** Passing over a black successor. *)
Lemma inv_skip d v rest ns st w :
  inv d -> frame_nodes d = v :: ns -> stack d = (w :: rest) :: st -> color d !! w = Some Black ->
  inv {| color := color d; stack := rest :: st; frame_nodes := frame_nodes d |}.
Proof.
  intros [Hlen Hg Hnd Hl Hf Hb Ha] En Es Hw. split; cbn [color stack frame_nodes]; try done.
  rewrite En, Es in *. destruct Hf as (H1 & H2 & H3). split; [|split; [|done]].
  - intros u Hu. destruct (H1 u Hu) as [[->|?]%elem_of_cons|[?|?]]; auto.
  - intros u Hu. apply H2. by right.
Qed.

(** *** Termination *)

(** Successors of the white nodes, one more for each. *)
Fixpoint white_weight (c : list Color) (f : list (list nat)) : nat :=
  match c, f with
  | x :: c, l :: f => (if decide (x = White) then S (length l) else 0) + white_weight c f
  | _, _ => 0
  end.
Fixpoint frames_weight (st : list (list nat)) : nat :=
  match st with [] => 0 | l :: st => S (length l) + frames_weight st end.
Definition steps_left (d : Dfs) : nat := white_weight (color d) fw + frames_weight (stack d).

End Traversal.

Lemma white_weight_take c f v x l :
  c !! v = Some White -> f !! v = Some l -> x <> White ->
  white_weight (<[v := x]> c) f + S (length l) = white_weight c f.
Proof.
  revert v f. induction c as [|y c IH]; intros v f Hv Hf Hx; [done|].
  destruct f as [|m f]; [done|]. destruct v as [|v]; simpl in *; simplify_eq.
  - rewrite decide_False by done. rewrite decide_True by done. lia.
  - by rewrite <- Nat.add_assoc, (IH v f Hv Hf Hx).
Qed.

Lemma white_weight_keep c f v x y :
  c !! v = Some y -> y <> White -> x <> White ->
  white_weight (<[v := x]> c) f = white_weight c f.
Proof.
  revert v f. induction c as [|z c IH]; intros v f Hv Hy Hx; [done|].
  destruct f as [|m f]; [by destruct v|]. destruct v as [|v]; simpl in *; simplify_eq.
  - by rewrite !decide_False.
  - by rewrite IH.
Qed.

Lemma white_weight_le c f : white_weight c f <= length f + length (concat f).
Proof.
  revert f. induction c as [|x c IH]; intros [|l f]; cbn; try lia.
  rewrite length_app. specialize (IH f). case_decide; lia.
Qed.

Section Correctness.
Context (fw : list (list nat)) (Hrange : in_range fw).
Implicit Types d : Dfs.

(** One turn keeps the invariant and uses up one step, or stops. *)
Definition step_spec d (o : Outcome) : Prop :=
  match o with
  | Next d' => inv fw d' /\ steps_left fw d' < steps_left fw d /\
      (forall v, color d !! v <> Some White -> color d' !! v <> Some White)
  | Finished d' => d' = d /\ stack d = []
  | Cycle v => v < length fw /\ tc (edge fw) v v
  | Panic => False
  end.

Lemma finish_spec d v ns st :
  inv fw d -> frame_nodes d = v :: ns -> stack d = [] :: st ->
  step_spec d (Next {| color := <[v := Black]> (color d); stack := st; frame_nodes := ns |}).
Proof.
  intros Hi En Es. assert (Hv : color d !! v = Some Grey) by (apply (inv_grey _ _ Hi); rewrite En; left).
  split; [by apply inv_finish|split].
  - unfold steps_left; cbn [color stack]. rewrite Es, (white_weight_keep _ _ _ _ Grey) by done.
    cbn [frames_weight]. lia.
  - cbn [color]. intros w Hw. destruct (decide (v = w)) as [->|].
    + rewrite list_lookup_insert_eq; [done|by eapply lookup_lt_Some].
    + by rewrite list_lookup_insert_ne.
Qed.

Lemma enter_spec d v rest ns st w :
  inv fw d -> frame_nodes d = v :: ns -> stack d = (w :: rest) :: st -> color d !! w = Some White ->
  step_spec d (Next (enter fw w {| color := color d; stack := rest :: st; frame_nodes := frame_nodes d |})).
Proof.
  intros Hi En Es Hw. pose proof (inv_frames _ _ Hi) as Hf. rewrite En, Es in Hf.
  destruct Hf as (H1 & H2 & H3).
  assert (Hlt : w < length (color d)) by (by eapply lookup_lt_Some).
  split; [|split].
  - apply inv_enter; [done|done| |].
    + rewrite En. intros ? ? [= <- <-]. apply H2. left.
    + rewrite En. split; [|split; [|done]].
      * intros u Hu. destruct (H1 u Hu) as [[->|?]%elem_of_cons|[?|?]]; auto; done.
      * intros u Hu. apply H2. by right.
  - unfold steps_left, enter; cbn [color stack]. rewrite Es.
    destruct (lookup_lt_is_Some_2 fw w) as [l Hl]; [by rewrite <- (inv_len _ _ Hi)|].
    pose proof (white_weight_take _ _ _ Grey _ Hw Hl ltac:(done)).
    rewrite (list_lookup_total_correct _ _ _ Hl). cbn [frames_weight length].
    rewrite length_rev. lia.
  - cbn [enter color]. intros u Hu. destruct (decide (w = u)) as [->|].
    + by rewrite list_lookup_insert_eq.
    + by rewrite list_lookup_insert_ne.
Qed.

(** A grey successor closes a cycle through itself. *)
Lemma grey_cycle d v rest ns st w :
  inv fw d -> frame_nodes d = v :: ns -> stack d = (w :: rest) :: st -> color d !! w = Some Grey ->
  tc (edge fw) w w.
Proof.
  intros Hi En Es Hw. pose proof (inv_frames _ _ Hi) as Hf. rewrite En, Es in Hf.
  destruct Hf as (_ & H2 & _). apply (inv_grey _ _ Hi) in Hw.
  pose proof (inv_linked _ _ Hi) as Hl. rewrite En in Hl, Hw.
  eapply tc_rtc_l; [eapply linked_rtc; [exact Hl|exact Hw]|]. apply tc_once, H2. left.
Qed.

Lemma dfs_step_spec d : inv fw d -> step_spec d (dfs_step fw d).
Proof.
  intros Hi. pose proof (inv_frames _ _ Hi) as Hf. unfold dfs_step.
  destruct (stack d) as [|rem st] eqn:Es; [done|].
  destruct (frame_nodes d) as [|v ns] eqn:En; [done|].
  destruct rem as [|w rest]; [by apply finish_spec|]. rewrite <- En.
  cbn [color]. assert (Hw : w < length fw).
  { apply (Hrange v w). destruct Hf as (_ & H2 & _). apply H2. left. }
  destruct (color d !! w) as [[| |]|] eqn:Ec.
  - by eapply enter_spec.
  - split; [done|]. by eapply grey_cycle.
  - split; [by eapply inv_skip|split; [|done]].
    unfold steps_left; cbn [color stack]. rewrite Es. cbn [frames_weight length]. lia.
  - apply lookup_ge_None in Ec. rewrite (inv_len _ _ Hi) in Ec. lia.
Qed.

(** With enough fuel the traversal ends: on a cycle, or with nothing open. *)
Definition run_spec d (o : Outcome) : Prop :=
  match o with
  | Finished d' => inv fw d' /\ stack d' = [] /\
      (forall v, color d !! v <> Some White -> color d' !! v <> Some White)
  | Cycle v => v < length fw /\ tc (edge fw) v v
  | _ => False
  end.

Lemma dfs_run_spec fuel d : inv fw d -> steps_left fw d < fuel -> run_spec d (dfs_run fuel fw d).
Proof.
  revert d. induction fuel as [|fuel IH]; intros d Hi Hlt; [lia|]. cbn.
  pose proof (dfs_step_spec d Hi) as Hs. destruct (dfs_step fw d) as [d'|d'|v|]; [|naive_solver..].
  destruct Hs as (Hi' & Hd & Hc). specialize (IH d' Hi' ltac:(lia)).
  destruct (dfs_run fuel fw d'); naive_solver.
Qed.

Lemma inv_empty_stack d : inv fw d -> stack d = [] -> frame_nodes d = [].
Proof. intros Hi Es. pose proof (inv_frames _ _ Hi) as Hf. rewrite Es in Hf. by destruct (frame_nodes d). Qed.

(** Starting a traversal at a white node with nothing open. *)
Lemma start_spec d s :
  inv fw d -> stack d = [] -> color d !! s = Some White ->
  run_spec d (dfs_run (dfs_fuel fw) fw (enter fw s d)) /\
  forall d', dfs_run (dfs_fuel fw) fw (enter fw s d) = Finished d' -> color d' !! s <> Some White.
Proof.
  intros Hi Es Hs. pose proof (inv_empty_stack d Hi Es) as En.
  assert (Hlt : s < length (color d)) by (by eapply lookup_lt_Some).
  assert (Hi' : inv fw (enter fw s d)).
  { destruct d as [c st ns]; cbn [color stack frame_nodes] in *; subst.
    apply (inv_enter fw {| color := c; stack := []; frame_nodes := [] |} s []); done. }
  assert (Hm : steps_left fw (enter fw s d) < dfs_fuel fw).
  { unfold steps_left, enter, dfs_fuel; cbn [color stack]. rewrite Es.
    destruct (lookup_lt_is_Some_2 fw s) as [l Hl]; [by rewrite <- (inv_len _ _ Hi)|].
    pose proof (white_weight_take _ _ _ Grey _ Hs Hl ltac:(done)).
    pose proof (white_weight_le (color d) fw).
    rewrite (list_lookup_total_correct _ _ _ Hl). cbn [frames_weight length].
    rewrite length_rev. lia. }
  pose proof (dfs_run_spec _ _ Hi' Hm) as Hr.
  assert (Hgs : color (enter fw s d) !! s <> Some White) by (cbn; by rewrite list_lookup_insert_eq).
  destruct (dfs_run (dfs_fuel fw) fw (enter fw s d)) as [|d'|v|]; [done| |done|done].
  destruct Hr as (Hid & Hst & Hc). split; [split; [done|split; [done|]]|].
  - intros v Hv. apply Hc. cbn. destruct (decide (s = v)) as [->|]; [done|].
    by rewrite list_lookup_insert_ne.
  - intros ? [= <-]. by apply Hc.
Qed.

Lemma dfs_all_spec starts d :
  inv fw d -> stack d = [] -> (forall s, s ∈ starts -> s < length fw) ->
  match dfs_all (dfs_fuel fw) fw starts d with
  | Finished d' => inv fw d' /\ stack d' = [] /\
      (forall v, color d !! v <> Some White \/ v ∈ starts -> color d' !! v <> Some White)
  | Cycle v => v < length fw /\ tc (edge fw) v v
  | _ => False
  end.
Proof.
  revert d. induction starts as [|s starts IH]; intros d Hi Es Hb; cbn [dfs_all].
  { split; [done|split; [done|]]. intros v [?|[]%elem_of_nil]; done. }
  assert (Hs : s < length fw) by (apply Hb; left).
  assert (Hb' : forall u, u ∈ starts -> u < length fw) by (intros u Hu; apply Hb; by right).
  assert (Hskip : color d !! s <> Some White ->
    forall d', (forall v, color d !! v <> Some White \/ v ∈ starts -> color d' !! v <> Some White) ->
    forall v, color d !! v <> Some White \/ v ∈ s :: starts -> color d' !! v <> Some White).
  { intros Hn d' Hd v [?|[->|?]%elem_of_cons]; auto. }
  destruct (color d !! s) as [[| |]|] eqn:Ec.
  - destruct (start_spec d s Hi Es Ec) as [Hr Hd].
    destruct (dfs_run (dfs_fuel fw) fw (enter fw s d)) as [|d'|v|]; [done| |done|done].
    destruct Hr as (Hi' & Es' & Hc). specialize (Hd d' eq_refl). specialize (IH d' Hi' Es' Hb').
    destruct (dfs_all (dfs_fuel fw) fw starts d') as [|d''|v|]; [done| |done|done].
    destruct IH as (? & ? & H3). split; [done|split; [done|]].
    intros v [?|[->|?]%elem_of_cons]; auto.
  - specialize (IH d Hi Es Hb').
    destruct (dfs_all (dfs_fuel fw) fw starts d) as [|d''|v|]; naive_solver.
  - specialize (IH d Hi Es Hb').
    destruct (dfs_all (dfs_fuel fw) fw starts d) as [|d''|v|]; naive_solver.
  - apply lookup_ge_None in Ec. rewrite (inv_len _ _ Hi) in Ec. lia.
Qed.

Definition dfs_init : Dfs :=
  {| color := replicate (length fw) White; stack := []; frame_nodes := [] |}.

Lemma inv_init : inv fw dfs_init.
Proof.
  assert (Hw : forall v x, replicate (length fw) White !! v = Some x -> x = White).
  { intros v x Hx. by apply lookup_replicate in Hx as [-> _]. }
  split; cbn [dfs_init color stack frame_nodes]; try done.
  - by rewrite length_replicate.
  - intros v. split; [intros H%Hw; done|by intros []%elem_of_nil].
  - constructor.
  - intros v w H%Hw. done.
  - intros v H%Hw. done.
Qed.

(** The whole check: it finishes exactly on acyclic graphs. *)
Lemma dfs_all_exact :
  match dfs_all (dfs_fuel fw) fw (seq 0 (length fw)) dfs_init with
  | Finished _ => forall v, ~ tc (edge fw) v v
  | Cycle v => v < length fw /\ tc (edge fw) v v
  | _ => False
  end.
Proof.
  pose proof (dfs_all_spec (seq 0 (length fw)) dfs_init inv_init eq_refl
    ltac:(intros s Hs%elem_of_seq; lia)) as H.
  destruct (dfs_all _ _ _ _) as [|d'|v|]; [done| |done|done].
  destruct H as (Hi & Es & Hc). intros v Hv. apply (inv_acyclic _ _ Hi v); [|done].
  destruct (tc_first _ _ _ Hv) as (w & (l & Hl & _) & _).
  apply lookup_lt_Some in Hl. specialize (Hc v (or_intror (proj2 (elem_of_seq 0 (length fw) v) ltac:(lia)))).
  destruct (color d' !! v) as [[| |]|] eqn:Ec; [done| |done|].
  - apply (inv_grey _ _ Hi) in Ec. rewrite (inv_empty_stack _ Hi Es) in Ec. by apply elem_of_nil in Ec.
  - apply lookup_ge_None in Ec. rewrite (inv_len _ _ Hi) in Ec. lia.
Qed.
End Correctness.

(** ** From dependency lists to edges *)

(** [dep] resolves to the last node carrying that id. *)
Definition resolves (ns : list PlanNode) (dep : NodeId) (j : nat) : Prop :=
  (exists n, ns !! j = Some n /\ node_id n = dep) /\
  forall k n, ns !! k = Some n -> node_id n = dep -> k <= j.

(** Node [i] depends on node [j]. *)
Definition enables (ns : list PlanNode) (j i : nat) : Prop :=
  exists n dep, ns !! i = Some n /\ dep ∈ depends_on n /\ resolves ns dep j.

(** Every dependency names a node of the list. *)
Definition resolved (ns : list PlanNode) : Prop :=
  forall n dep, n ∈ ns -> dep ∈ depends_on n -> exists n', n' ∈ ns /\ node_id n' = dep.

(** No node waits, through any chain of dependencies, for itself. *)
Definition acyclic (ns : list PlanNode) : Prop := forall i, ~ tc (enables ns) i i.

(** What the runtime needs of a plan: distinct ids and a dependency DAG. *)
Record valid_dag (ns : list PlanNode) : Prop := {
  dag_ids : NoDup (map node_id ns);
  dag_resolved : resolved ns;
  dag_acyclic : acyclic ns;
}.

Lemma index_by_id_lookup ns i m dep j :
  index_by_id i ns m !! dep = Some j <->
  (exists k, j = i + k /\ resolves ns dep k) \/
  (m !! dep = Some j /\ forall n, n ∈ ns -> node_id n <> dep).
Proof.
  revert i m. induction ns as [|n ns IH]; intros i m; cbn [index_by_id].
  - split; [intros H; right; split; [done|by intros ? []%elem_of_nil]|].
    intros [(k & _ & (? & H & _) & _)|[? _]]; [done|done].
  - rewrite IH. split.
    + intros [(k & -> & (n' & Hn' & Hid) & Hlast)|[Hm Hno]].
      * left. exists (S k). split; [lia|]. split; [by exists n'|].
        intros [|k'] n'' Hk Hid'; [lia|]. specialize (Hlast k' n'' Hk Hid'). lia.
      * destruct (decide (node_id n = dep)) as [<-|Hne].
        -- rewrite lookup_insert_eq in Hm. simplify_eq. left. exists 0. split; [lia|].
           split; [by exists n|]. intros [|k] n' Hk Hid; [lia|].
           destruct (Hno n'); [|done]. by eapply list_elem_of_lookup_2.
        -- rewrite lookup_insert_ne in Hm by done. right. split; [done|].
           intros n' [->|?]%elem_of_cons; auto.
    + intros [(k & -> & (n' & Hn' & Hid) & Hlast)|[Hm Hno]].
      * destruct k as [|k].
        -- cbn in Hn'. simplify_eq. right. rewrite lookup_insert_eq, Nat.add_0_r. split; [done|].
           intros u (k & Hk)%list_elem_of_lookup_1 Hid. specialize (Hlast (S k) u Hk Hid). lia.
        -- left. exists k. split; [lia|]. split; [by exists n'|].
           intros k' n'' Hk Hid'. specialize (Hlast (S k') n'' Hk Hid'). lia.
      * right. split; [|intros n' ?; apply Hno; by right].
        rewrite lookup_insert_ne; [done|]. apply Hno. left.
Qed.

Lemma edge_push_dep by_id i fw dep v w :
  edge (push_dep by_id i fw dep) v w <->
  edge fw v w \/ (by_id !! dep = Some v /\ w = i /\ v < length fw).
Proof.
  unfold push_dep. destruct (by_id !! dep) as [j|] eqn:Ej; [|naive_solver].
  unfold edge. destruct (decide (j = v)) as [->|Hne].
  - rewrite list_lookup_alter_eq. destruct (fw !! v) as [l|] eqn:Ev; cbn.
    + apply lookup_lt_Some in Ev. split.
      * intros (? & [= <-] & [H|H%list_elem_of_singleton]%elem_of_app); [left; eauto|right; auto].
      * intros [(? & [= <-] & H)|(_ & -> & _)]; eexists; split; [done| |done|]; set_solver.
    + apply lookup_ge_None in Ev. split; [by intros (? & ? & _)|].
      intros [(? & ? & _)|(_ & _ & ?)]; [done|lia].
  - rewrite list_lookup_alter_ne by done. split; [auto|]. intros [?|([= ->] & _)]; done.
Qed.

Lemma length_push_dep by_id i fw dep : length (push_dep by_id i fw dep) = length fw.
Proof. unfold push_dep. destruct (by_id !! dep); [apply length_alter|done]. Qed.

Lemma edge_push_deps by_id i deps fw v w :
  (edge (fold_left (push_dep by_id i) deps fw) v w <->
   edge fw v w \/ (exists dep, dep ∈ deps /\ by_id !! dep = Some v /\ w = i /\ v < length fw)) /\
  length (fold_left (push_dep by_id i) deps fw) = length fw.
Proof.
  revert fw. induction deps as [|dep deps IH]; intros fw; cbn.
  - split; [|done]. split; [auto|]. intros [?|(? & []%elem_of_nil & _)]; done.
  - destruct (IH (push_dep by_id i fw dep)) as [-> ->].
    rewrite edge_push_dep, length_push_dep. split; [|done]. set_solver.
Qed.

Lemma edge_build_forward by_id i ns fw v w :
  (edge (build_forward by_id i ns fw) v w <->
   edge fw v w \/ (exists k n dep, ns !! k = Some n /\ w = i + k /\ dep ∈ depends_on n /\
                     by_id !! dep = Some v /\ v < length fw)) /\
  length (build_forward by_id i ns fw) = length fw.
Proof.
  revert i fw. induction ns as [|n ns IH]; intros i fw; cbn [build_forward].
  - split; [|done]. split; [auto|]. intros [?|(? & ? & ? & ? & _)]; done.
  - destruct (IH (S i) (fold_left (push_dep by_id i) (depends_on n) fw)) as [-> ->].
    destruct (edge_push_deps by_id i (depends_on n) fw v w) as [-> ->]. split; [|done]. split.
    + intros [[?|(dep & ? & ? & -> & ?)]|(k & n' & dep & ? & -> & ?)]; [by left| |].
      * right. exists 0, n, dep. repeat split; try done; lia.
      * right. exists (S k), n', dep. split; [done|]. split; [lia|done].
    + intros [?|([|k] & n' & dep & Hk & -> & ? & ? & ?)]; [by left; left| |].
      * cbn in Hk. simplify_eq. left; right. exists dep. repeat split; try done; lia.
      * right. exists k, n', dep. split; [done|]. split; [lia|done].
Qed.

Lemma forward_of_spec ns :
  length (forward_of ns) = length ns /\
  forall v w, edge (forward_of ns) v w <-> enables ns v w.
Proof.
  unfold forward_of. split.
  - by rewrite (proj2 (edge_build_forward _ 0 ns _ 0 0)), length_replicate.
  - intros v w. rewrite (proj1 (edge_build_forward _ 0 ns _ v w)), length_replicate. unfold enables. split.
    + intros [(l & Hl & Hw)|(k & n & dep & Hk & -> & Hdep & Hv & _)].
      * apply lookup_replicate in Hl as [-> _]. by apply elem_of_nil in Hw.
      * exists n, dep. split; [done|]. split; [done|].
        apply index_by_id_lookup in Hv as [(? & -> & ?)|[Hm _]]; [done|]. by rewrite lookup_empty in Hm.
    + intros (n & dep & Hn & Hdep & Hres). right. exists w, n, dep. repeat split; try done.
      * apply index_by_id_lookup. left. by exists v.
      * destruct Hres as [(? & H & _) _]. by eapply lookup_lt_Some.
Qed.

Lemma missing_dep_spec ns :
  match missing_dep ns with
  | Some (n, dep) => n ∈ ns /\ dep ∈ depends_on n /\ forall n', n' ∈ ns -> node_id n' <> dep
  | None => resolved ns
  end.
Proof.
  unfold missing_dep. set (ids := list_to_set _ : gset NodeId).
  assert (Hids : forall dep, dep ∈ ids <-> exists n', n' ∈ ns /\ node_id n' = dep).
  { intros dep. unfold ids. rewrite elem_of_list_to_set, list_elem_of_In, in_map_iff.
    setoid_rewrite <- list_elem_of_In. naive_solver. }
  set (L := flat_map _ ns).
  assert (HL : forall n dep, In (n, dep) L <-> In n ns /\ In dep (depends_on n) /\ dep ∉ ids).
  { intros n dep. unfold L. rewrite in_flat_map. setoid_rewrite in_map_iff.
    setoid_rewrite filter_In. setoid_rewrite negb_true_iff. setoid_rewrite bool_decide_eq_false.
    naive_solver. }
  destruct L as [|[n dep] L'] eqn:EL; cbn.
  - intros n dep Hn Hd. apply Hids. destruct (decide (dep ∈ ids)); [done|].
    exfalso. apply (HL n dep). by rewrite <- !list_elem_of_In.
  - destruct (proj1 (HL n dep) (or_introl eq_refl)) as (? & ? & Hno).
    rewrite !list_elem_of_In. split; [done|split; [done|]].
    intros n' Hn' Hid. apply Hno, Hids. eauto.
Qed.

(** What the check establishes, in the form the other files use. *)
Lemma validate_nodes_cases ns :
  (validate_nodes ns = Some (Ok tt) /\ resolved ns /\ acyclic ns) \/
  (exists msg, validate_nodes ns = Some (Err (InvalidNodeId msg)) /\ ~ (resolved ns /\ acyclic ns)).
Proof.
  unfold validate_nodes. pose proof (missing_dep_spec ns) as Hm.
  destruct (missing_dep ns) as [[n dep]|].
  { right. eexists. split; [done|]. intros [Hr _]. destruct Hm as (Hn & Hd & Hno).
    destruct (Hr n dep Hn Hd) as (n' & Hn' & Hid). by destruct (Hno n'). }
  destruct (forward_of_spec ns) as [Hlen Hedge].
  assert (Htc : forall v, tc (edge (forward_of ns)) v v <-> tc (enables ns) v v).
  { intros v. split; apply (tc_congruence id); intros x y; apply Hedge. }
  assert (Hrange : in_range (forward_of ns)).
  { intros v w (n & _ & Hn & _)%Hedge. rewrite Hlen. by eapply lookup_lt_Some. }
  pose proof (dfs_all_exact (forward_of ns) Hrange) as Hd. unfold dfs_init in Hd. rewrite !Hlen in Hd.
  destruct (dfs_all _ _ _ _) as [|d|v|]; [done| |  |done].
  - left. split; [done|split; [done|]]. intros i Hi%Htc. by apply (Hd i).
  - destruct Hd as [Hlt Hv%Htc]. destruct (lookup_lt_is_Some_2 ns v Hlt) as [n Hn]. rewrite Hn.
    right. eexists. split; [done|]. intros [_ Ha]. by apply (Ha v).
Qed.

(**  C17. The dependency check is exact and always returns: a node list is
    accepted precisely when every dependency names a node of the list and no
    node is, through any chain of dependencies, a prerequisite of itself; each
    other list is refused with [InvalidNodeId].  The traversal never indexes
    out of range and never runs out of the steps counted for it. *)
Theorem validate_nodes_exact (ns : list PlanNode) :
  (validate_nodes ns = Some (Ok tt) /\ resolved ns /\ acyclic ns) \/
  (exists msg, validate_nodes ns = Some (Err (InvalidNodeId msg)) /\ ~ (resolved ns /\ acyclic ns)).
Proof. apply validate_nodes_cases. Qed.


(** ** Growing and updating a valid plan *)

(** With distinct ids, a dependency resolves to the node that has the id. *)
Lemma resolves_unique ns j n :
  NoDup (map node_id ns) -> ns !! j = Some n -> resolves ns (node_id n) j.
Proof.
  intros Hnd Hj. split; [by exists n|]. intros k n' Hk Hid.
  assert (k = j) as ->; [|done].
  apply (NoDup_lookup (map node_id ns) k j (node_id n)); [done|..];
    rewrite list_lookup_fmap; [by rewrite Hk; cbn; f_equal|by rewrite Hj].
Qed.

(** Ids and dependencies, the part of a node the check reads. *)
Definition shape (ns : list PlanNode) : list (NodeId * list NodeId) :=
  map (fun n => (node_id n, depends_on n)) ns.

Lemma shape_lookup ns ns' i n :
  shape ns = shape ns' -> ns !! i = Some n ->
  exists n', ns' !! i = Some n' /\ node_id n' = node_id n /\ depends_on n' = depends_on n.
Proof.
  intros Hs Hi. assert (Hl : shape ns' !! i = Some (node_id n, depends_on n)).
  { rewrite <- Hs. unfold shape. by rewrite list_lookup_fmap, Hi. }
  unfold shape in Hl. rewrite list_lookup_fmap in Hl.
  destruct (ns' !! i) as [n'|]; [|done]. exists n'. cbn in Hl. by simplify_eq.
Qed.

Lemma enables_shape ns ns' j i : shape ns = shape ns' -> enables ns j i -> enables ns' j i.
Proof.
  intros Hs (n & dep & Hi & Hd & (m & Hj & Hm) & Hlast).
  destruct (shape_lookup _ _ _ _ Hs Hi) as (n' & Hi' & _ & Hd').
  destruct (shape_lookup _ _ _ _ Hs Hj) as (m' & Hj' & Hm' & _).
  exists n', dep. rewrite Hd'. split; [done|split; [done|]]. split; [exists m'; split; congruence|].
  intros k u Hk Hu. symmetry in Hs. destruct (shape_lookup _ _ _ _ Hs Hk) as (u' & Hk' & Hu' & _).
  apply (Hlast k u'); congruence.
Qed.

Lemma valid_dag_shape ns ns' : shape ns = shape ns' -> valid_dag ns -> valid_dag ns'.
Proof.
  intros Hs [Hnd Hr Ha]. pose proof (eq_sym Hs) as Hs'. split.
  - assert (He : forall l, map node_id l = map fst (shape l)) by (intros; unfold shape; by rewrite map_map).
    by rewrite He, <- Hs, <- He.
  - intros n dep (i & Hi)%list_elem_of_lookup_1 Hd.
    destruct (shape_lookup _ _ _ _ Hs' Hi) as (m & Hm & _ & Hmd).
    destruct (Hr m dep) as (u & (k & Hu)%list_elem_of_lookup_1 & Hid);
      [by eapply list_elem_of_lookup_2|by rewrite Hmd|].
    destruct (shape_lookup _ _ _ _ Hs Hu) as (u' & Hu' & Hid' & _).
    exists u'. split; [by eapply list_elem_of_lookup_2|congruence].
  - intros i Hi. apply (Ha i). revert Hi. apply (tc_congruence id). intros x y. by apply enables_shape.
Qed.

Section Append.
Context (ns : list PlanNode) (n : PlanNode).
Context (Hvalid : valid_dag ns) (Hnew : node_id n ∉ map node_id ns).
Context (Hdeps : forall dep, dep ∈ depends_on n -> dep ∈ map node_id ns).

Lemma elem_of_ids dep : dep ∈ map node_id ns <-> exists m, m ∈ ns /\ node_id m = dep.
Proof. rewrite list_elem_of_fmap. naive_solver. Qed.

(** Nothing waits for the appended node. *)
Lemma append_edge j i :
  enables (ns ++ [n]) j i -> j < length ns /\ (i < length ns -> enables ns j i).
Proof.
  intros (m & dep & Hi & Hd & (u & Hj & Hu) & Hlast).
  assert (Hdep : dep ∈ map node_id ns).
  { apply lookup_app_Some in Hi as [Hi|[_ Hi]].
    - apply elem_of_ids. eapply dag_resolved; [done|by eapply list_elem_of_lookup_2|done].
    - apply list_lookup_singleton_Some in Hi as [_ <-]. by apply Hdeps. }
  assert (Hj' : ns !! j = Some u).
  { apply lookup_app_Some in Hj as [?|[_ Hj]]; [done|].
    apply list_lookup_singleton_Some in Hj as [_ <-]. congruence. }
  split; [by eapply lookup_lt_Some|]. intros Hlt. rewrite lookup_app_l in Hi by done.
  exists m, dep. split; [done|split; [done|]]. split; [by exists u|].
  intros k u' Hk. apply Hlast. by apply lookup_app_l_Some.
Qed.

Lemma append_path j i : tc (enables (ns ++ [n])) j i -> i < length ns -> tc (enables ns) j i.
Proof.
  induction 1 as [j i H|j k i H Hr IH]; intros Hi.
  - apply tc_once. by apply append_edge.
  - eapply tc_l; [|by apply IH]. apply append_edge; [done|].
    destruct (tc_first _ _ _ Hr) as (? & Hk & _). by apply append_edge in Hk as [? _].
Qed.

Lemma valid_dag_append : valid_dag (ns ++ [n]).
Proof.
  destruct Hvalid as [Hnd Hr Ha]. split.
  - rewrite map_app. apply NoDup_app. split; [done|split; [|by apply NoDup_singleton]].
    intros x Hx ->%list_elem_of_singleton. done.
  - intros m dep [Hm| ->%list_elem_of_singleton]%elem_of_app Hd.
    + destruct (Hr m dep Hm Hd) as (u & ? & ?). exists u. rewrite elem_of_app. auto.
    + destruct (proj1 (elem_of_ids dep) (Hdeps dep Hd)) as (u & ? & ?). exists u. rewrite elem_of_app. auto.
  - intros i Hi. destruct (tc_first _ _ _ Hi) as (w & Hw & _).
    apply append_edge in Hw as [Hlt _]. by apply (Ha i), append_path.
Qed.
End Append.

(** ** Progress *)

Lemma tc_converse {A} (R : relation A) x y : tc (fun a b => R b a) x y -> tc R y x.
Proof. induction 1; [by apply tc_once|by eapply tc_r]. Qed.

(** Following prerequisites always comes to an end. *)
Lemma prerequisites_sn ns i : acyclic ns -> sn (fun a b => enables ns b a) i.
Proof.
  intros Ha. apply tc_finite_sn.
  - intros x Hx. by apply (Ha x), tc_converse.
  - exists (seq 0 (length ns)). intros j Hj.
    assert (Hk : exists k, enables ns j k) by (induction Hj; eauto).
    destruct Hk as (k & ? & ? & _ & _ & (u & Hu & _) & _). apply elem_of_seq.
    apply lookup_lt_Some in Hu. lia.
Qed.

Lemma elem_of_completed_ids p m : m ∈ nodes p -> is_completed m = true -> node_id m ∈ completed_ids p.
Proof.
  intros Hm Hc. unfold completed_ids. rewrite elem_of_list_to_set, list_elem_of_fmap.
  exists m. split; [done|]. rewrite list_elem_of_In, filter_In, <- list_elem_of_In. done.
Qed.

Lemma elem_of_ready p n :
  n ∈ ready_nodes p <->
  n ∈ nodes p /\ status n = Pending /\ Forall (fun dep => dep ∈ completed_ids p) (depends_on n).
Proof.
  unfold ready_nodes. rewrite list_elem_of_In, !filter_In, bool_decide_eq_true, forallb_forall, Forall_forall.
  setoid_rewrite bool_decide_eq_true. setoid_rewrite list_elem_of_In. tauto.
Qed.

(**  A valid plan never gets stuck: while some node is unresolved and
    every such node is still pending (none blocked, failed or in progress), at
    least one node is ready to start. *)
Theorem valid_plan_progress (p : PlanRecord) :
  valid_dag (nodes p) -> has_unresolved_nodes p = true ->
  (forall n, n ∈ nodes p -> status n = Pending \/ is_completed n = true) ->
  exists n, n ∈ ready_nodes p.
Proof.
  intros [Hnd Hr Ha] Hun Hst.
  assert (Hgo : forall i, sn (fun a b => enables (nodes p) b a) i ->
                forall n, nodes p !! i = Some n -> status n = Pending -> exists m, m ∈ ready_nodes p).
  { induction 1 as [i _ IH]. intros n Hi Hp.
    assert (Hn : n ∈ nodes p) by (by eapply list_elem_of_lookup_2).
    destruct (decide (Forall (fun dep => dep ∈ completed_ids p) (depends_on n))) as [Hall|Hex].
    { exists n. by apply elem_of_ready. }
    apply not_Forall_Exists, Exists_exists in Hex as (dep & Hdep & Hno); [|intros ?; apply _].
    destruct (Hr n dep Hn Hdep) as (m & Hm & Hid).
    destruct (list_elem_of_lookup_1 _ _ Hm) as (j & Hj).
    apply (IH j) with (n := m); [|done|].
    - exists n, dep. split; [done|split; [done|]]. rewrite <- Hid. by apply resolves_unique.
    - destruct (Hst m Hm) as [?|Hc]; [done|]. destruct Hno. rewrite <- Hid.
      by apply elem_of_completed_ids. }
  unfold has_unresolved_nodes in Hun. destruct (closed p); [done|].
  apply existsb_exists in Hun as (n & Hn & Hc). rewrite <- list_elem_of_In in Hn.
  destruct (Hst n Hn) as [Hp|Hc']; [|by rewrite Hc' in Hc].
  destruct (list_elem_of_lookup_1 _ _ Hn) as (i & Hi). by apply (Hgo i (prerequisites_sn _ i Ha) n).
Qed.

(** Two steps, the second waiting for the first. *)
Definition sample_node (id : NodeId) (deps : list NodeId) : PlanNode :=
  {| node_id := id; step := "do"; status := Pending; depends_on := deps; evidence := None;
     blocked_reason := None; check_at := None; created_at := 0%Z; updated_at := 0%Z |}.
Definition sample_plan : PlanRecord :=
  plan_new 7 0 "p" "t" [sample_node "node_00000002" ["node_00000001"]; sample_node "node_00000001" []].

Lemma sample_plan_valid : valid_dag (nodes sample_plan).
Proof.
  destruct (validate_nodes_cases (nodes sample_plan)) as [(_ & Hr & Ha)|(msg & Hm & _)].
  - split; [|done|done]. cbn. apply NoDup_cons. split; [|apply NoDup_singleton].
    by intros H%list_elem_of_singleton.
  - vm_compute in Hm. congruence.
Qed.

Lemma valid_plan_progress_witness : exists n, n ∈ ready_nodes sample_plan.
Proof.
  apply (valid_plan_progress sample_plan); [exact sample_plan_valid|reflexivity|].
  intros n Hn. left. unfold sample_plan in Hn. cbn in Hn.
  rewrite !elem_of_cons, elem_of_nil in Hn. destruct Hn as [->|[->|[]]]; reflexivity.
Defined.
