(* ===== verification/PlanStore.v ===== *)
(** * PlanStore: plans on disk and the operations on them

    [PlanStorage] (peko-rs/plan/src/storage.rs), its [PlanPort] face
    (plan_port.rs) and the [Plan] tool's actions that change plans
    (peko-rs/core/src/tools/builtin/plan).  A directory is a finite map from
    file names to contents; every operation reads and writes it under the
    file lock, so operations are steps of one sequence.  An operation that does
    not get its lock in time, or whose file cannot be read or written, changes
    nothing and fails; a lookup with that outcome is [get_for_principal false]. *)

From Stdlib Require Import ZArith Lia Ascii.
From stdpp Require Import base tactics list gmap strings relations sorting.
From S2P Require Import Prelude Text Plan PlanDag.

Open Scope Z_scope.
Open Scope rust_scope.

(** ** Text files *)

Definition first_line (raw : string) : option string :=
  head (List.filter (fun l => negb (is_blank l)) (lines raw)).

(** ** The record's JSON *)

(** serde_json on [PlanRecord]. *)
Class PlanJson := {
  to_json : PlanRecord -> string;
  from_json : string -> option PlanRecord;
}.

(** A record is one object, printed without control characters, and reads
    back. *)
Class PlanJsonLaws (J : PlanJson) : Prop := {
  json_roundtrip : forall r, from_json (to_json r) = Some r;
  json_object : forall r, starts_with "{" (to_json r) = true;
  json_one_line : forall r, str_has LF (to_json r) = false;
  json_no_cr : forall r, str_has CR (to_json r) = false;
}.

Abbreviation Dir := (gmap string string).

Section Storage.
Context `{J : PlanJson}.

(** ** storage.rs *)

Definition file_path (id : string) : string := id +:+ ".jsonl".

Definition parse_plan (raw id : string) : result PlanRecord PlanError :=
  match first_line raw with
  | None => Err (CorruptRecord id)
  | Some line =>
      match from_json line with Some r => Ok r | None => Err (CorruptRecord id) end
  end.

Definition read_locked (d : Dir) (path id : string) : result (option PlanRecord) PlanError :=
  match d !! path with
  | None => Ok None
  | Some s =>
      if is_blank s then Ok None
      else match parse_plan s id with Ok r => Ok (Some r) | Err e => Err e end
  end.

(** The temporary file is renamed over the plan file. *)
Definition write_locked (d : Dir) (path : string) (r : PlanRecord) : Dir :=
  <[path := to_json r +:+ String LF EmptyString]> d.

Definition check_principal (r : PlanRecord) (expected : string) : result unit PlanError :=
  if decide (principal_id r = expected) then Ok tt
  else Err (PrincipalMismatch expected (principal_id r)).

(** First node whose id occurs again later. *)
Fixpoint duplicate_id (ns : list PlanNode) : option NodeId :=
  match ns with
  | [] => None
  | n :: ns =>
      if existsb (fun m => bool_decide (node_id m = node_id n)) ns then Some (node_id n)
      else duplicate_id ns
  end.

Definition create (d : Dir) (principal title_ : string) (ns : list PlanNode) (rand now : Z)
    : Dir * result PlanRecord PlanError :=
  match duplicate_id ns with
  | Some id =>
      (d, Err (InvalidNodeId ("plan has duplicate node ids in initial nodes: " +:+ id)))
  | None =>
      let r := plan_new rand now principal title_ ns in
      (write_locked d (file_path (plan_id r)) r, Ok r)
  end.

Definition get (d : Dir) (id : string) : result (option PlanRecord) PlanError :=
  read_locked d (file_path id) id.

(** What [get_for_principal], [update] and [close] do first once they hold the
    lock and the file could be read. *)
Definition read_for_principal (d : Dir) (id principal : string) : result PlanRecord PlanError :=
  o <-? read_locked d (file_path id) id ;
  r <-? ok_or o NotFound ;
  u <-? check_principal r principal ;
  Ok r.

(** [reached]: the lock was granted before [PLAN_LOCK_TIMEOUT_MS] and the file
    could be read. *)
Definition get_for_principal (reached : bool) (d : Dir) (id principal : string) : result PlanRecord PlanError :=
  if reached then read_for_principal d id principal else Err Io.

Definition set_updated_at (r : PlanRecord) (now : Z) : PlanRecord :=
  {| plan_id := plan_id r; principal_id := principal_id r; schema_version := schema_version r;
     title := title r; plan_created_at := plan_created_at r; plan_updated_at := now;
     nodes := nodes r; closed := closed r |}.

Definition update (d : Dir) (id principal : string) (now : Z)
    (f : PlanRecord -> result PlanRecord PlanError) : Dir * result PlanRecord PlanError :=
  match read_for_principal d id principal with
  | Err e => (d, Err e)
  | Ok r =>
      match f r with
      | Err e => (d, Err e)
      | Ok r' =>
          let r' := set_updated_at r' now in
          (write_locked d (file_path id) r', Ok r')
      end
  end.

Definition set_closed (r : PlanRecord) (c : ClosedState) : PlanRecord :=
  {| plan_id := plan_id r; principal_id := principal_id r; schema_version := schema_version r;
     title := title r; plan_created_at := plan_created_at r; plan_updated_at := plan_updated_at r;
     nodes := nodes r; closed := Some c |}.

Definition close (d : Dir) (id principal reason : string) (now1 now2 : Z)
    : Dir * result unit PlanError :=
  match read_for_principal d id principal with
  | Err e => (d, Err e)
  | Ok r =>
      if is_some (closed r) then (d, Err AlreadyClosed)
      else
        let r := set_closed r {| closed_at := now1; close_reason := reason |} in
        (write_locked d (file_path id) (set_updated_at r now2), Ok tt)
  end.

(** [Path::extension] and [Path::file_stem] of a file name. *)
Fixpoint last_dot (s : string) : option (string * string) :=
  match s with
  | EmptyString => None
  | String c s =>
      match last_dot s with
      | Some (a, b) => Some (String c a, b)
      | None => if Ascii.eqb c "." then Some (EmptyString, s) else None
      end
  end.
Definition plan_file_stem (name : string) : option string :=
  match last_dot name with
  | Some (EmptyString, _) | None => None
  | Some (stem, ext) => if String.eqb ext "jsonl" then Some stem else None
  end.

Fixpoint read_all (d : Dir) (entries : list string) : result (list PlanRecord) PlanError :=
  match entries with
  | [] => Ok []
  | name :: entries =>
      match plan_file_stem name with
      | None => read_all d entries
      | Some id =>
          o <-? read_locked d name id ;
          rs <-? read_all d entries ;
          Ok (match o with Some r => r :: rs | None => rs end)
      end
  end.

(** [sort_by_key], a stable sort. *)
Fixpoint insert_by_created (r : PlanRecord) (l : list PlanRecord) : list PlanRecord :=
  match l with
  | [] => [r]
  | x :: l => if plan_created_at r <=? plan_created_at x then r :: x :: l
              else x :: insert_by_created r l
  end.
Definition sort_by_created (l : list PlanRecord) : list PlanRecord := foldr insert_by_created [] l.

(** [entries] is what the directory lists, in its own order. *)
Definition list_plans (d : Dir) (entries : list string) : result (list PlanRecord) PlanError :=
  rs <-? read_all d entries ; Ok (sort_by_created rs).

Definition list_for_principal (d : Dir) (entries : list string) (principal : string)
    : result (list PlanRecord) PlanError :=
  rs <-? list_plans d entries ;
  Ok (List.filter (fun r => bool_decide (principal_id r = principal)) rs).

Definition load_resumable (d : Dir) (entries : list string) (principal : string)
    : result (list PlanRecord) PlanError :=
  rs <-? list_for_principal d entries principal ;
  Ok (List.filter has_unresolved_nodes rs).

(** ** plan_port.rs *)

(** [iter_mut().find(..)], then the assignments of [f]. *)
Fixpoint modify_first (id : NodeId) (f : PlanNode -> PlanNode) (ns : list PlanNode)
    : option (list PlanNode) :=
  match ns with
  | [] => None
  | n :: ns =>
      if decide (node_id n = id) then Some (f n :: ns) else cons n <$> modify_first id f ns
  end.

Definition set_nodes (r : PlanRecord) (ns : list PlanNode) : PlanRecord :=
  {| plan_id := plan_id r; principal_id := principal_id r; schema_version := schema_version r;
     title := title r; plan_created_at := plan_created_at r; plan_updated_at := plan_updated_at r;
     nodes := ns; closed := closed r |}.

Definition modify_node (id : NodeId) (f : PlanNode -> PlanNode) (r : PlanRecord)
    : result PlanRecord PlanError :=
  match modify_first id f (nodes r) with
  | Some ns => Ok (set_nodes r ns)
  | None => Err (InvalidNodeId ("node " +:+ id +:+ " not found in plan " +:+ plan_id r))
  end.

Definition with_status (st : PlanNodeStatus) (now : Z) (n : PlanNode) : PlanNode :=
  {| node_id := node_id n; step := step n; status := st; depends_on := depends_on n;
     evidence := evidence n;
     blocked_reason := match st with Blocked reason _ => Some reason | _ => None end;
     check_at := match st with Completed _ => None | _ => check_at n end;
     created_at := created_at n; updated_at := now |}.

Definition with_check_at (at_ : option Z) (now : Z) (n : PlanNode) : PlanNode :=
  {| node_id := node_id n; step := step n; status := status n; depends_on := depends_on n;
     evidence := evidence n; blocked_reason := blocked_reason n; check_at := at_;
     created_at := created_at n; updated_at := now |}.

Definition with_evidence (ev : NodeEvidence) (now : Z) (n : PlanNode) : PlanNode :=
  {| node_id := node_id n; step := step n; status := status n; depends_on := depends_on n;
     evidence := Some ev; blocked_reason := blocked_reason n; check_at := check_at n;
     created_at := created_at n; updated_at := now |}.

(** [now1] stamps the node, [now2] the plan. *)
Definition mark_node_status (d : Dir) (id principal : string) (node : NodeId)
    (st : PlanNodeStatus) (now1 now2 : Z) : Dir * result PlanRecord PlanError :=
  update d id principal now2 (modify_node node (with_status st now1)).

Definition set_node_check_at (d : Dir) (id principal : string) (node : NodeId)
    (at_ : option Z) (now1 now2 : Z) : Dir * result PlanRecord PlanError :=
  update d id principal now2 (modify_node node (with_check_at at_ now1)).

Definition set_node_evidence (d : Dir) (id principal : string) (node : NodeId)
    (ev : NodeEvidence) (now1 now2 : Z) : Dir * result PlanRecord PlanError :=
  update d id principal now2 (modify_node node (with_evidence ev now1)).

Definition has_node (r : PlanRecord) (id : NodeId) : bool :=
  existsb (fun n => bool_decide (node_id n = id)) (nodes r).

Definition append_node (n : PlanNode) (r : PlanRecord) : result PlanRecord PlanError :=
  if is_some (closed r) then Err AlreadyClosed
  else if has_node r (node_id n) then Ok r
  else Ok (set_nodes r (nodes r ++ [n])).

Definition add_node (d : Dir) (id principal : string) (n : PlanNode) (now : Z)
    : Dir * result PlanRecord PlanError :=
  update d id principal now (append_node n).

(** ** The tool's actions *)

Inductive ActionError :=
  | NodeNotInPlan (missing : NodeId) (plan : string)
  | UnknownStatus (s : string)
  | Failed_with (e : PlanError)
  | Panicked.

Inductive CheckAtParam := Unchanged | Clear | At (t : Z).

Definition lift_plan {A} (r : result A PlanError) : result A ActionError :=
  match r with Ok a => Ok a | Err e => Err (Failed_with e) end.

Definition parse_status_param (s : string) (now : Z) : result PlanNodeStatus ActionError :=
  if String.eqb s "pending" then Ok Pending
  else if String.eqb s "in_progress" then Ok InProgress
  else if String.eqb s "completed" then Ok (Completed now)
  else if String.eqb s "blocked" then Ok (Blocked "set by tool" now)
  else if String.eqb s "failed" then Ok (Failed "set by tool" now)
  else Err (UnknownStatus s).

(** Parameters of one step, as read from the tool call. *)
Record StepParams := {
  sp_node_id : option string;
  sp_step : string;
  sp_depends_on : list string;
  sp_status : option string;
  sp_check_at : CheckAtParam;
}.

(** [resolve_node_id]; [rand] is what [NodeId::generate] draws. *)
Definition resolve_node_id (dbg : string -> string) (s : option string) (rand : Z)
    : result NodeId ActionError :=
  match s with
  | Some raw => lift_plan (node_id_parse dbg raw)
  | None => Ok (node_id_generate rand)
  end.

Fixpoint parse_depends_on (dbg : string -> string) (entries : list string)
    : result (list NodeId) ActionError :=
  match entries with
  | [] => Ok []
  | raw :: entries =>
      n <-? lift_plan (node_id_parse dbg raw) ;
      ns <-? parse_depends_on dbg entries ;
      Ok (n :: ns)
  end.

Definition time (c : CheckAtParam) : option Z :=
  match c with At t => Some t | Unchanged | Clear => None end.

(** One element of [parse_nodes]; add_step.rs builds its node the same way. *)
Definition build_node (dbg : string -> string) (sp : StepParams) (rand now : Z)
    : result PlanNode ActionError :=
  id <-? resolve_node_id dbg (sp_node_id sp) rand ;
  deps <-? parse_depends_on dbg (sp_depends_on sp) ;
  st <-? match sp_status sp with Some s => parse_status_param s now | None => Ok Pending end ;
  Ok {| node_id := id; step := sp_step sp; status := st; depends_on := deps; evidence := None;
        blocked_reason := None; check_at := time (sp_check_at sp);
        created_at := now; updated_at := now |}.

(** create.rs, from the parsed nodes on. *)
Definition create_action (d : Dir) (principal title_ : string) (ns : list PlanNode) (rand now : Z)
    : Dir * result PlanRecord ActionError :=
  match validate_nodes ns with
  | None => (d, Err Panicked)
  | Some (Err e) => (d, Err (Failed_with e))
  | Some (Ok _) => let '(d, r) := create d principal title_ ns rand now in (d, lift_plan r)
  end.

(** add_step.rs: the dependencies are looked up in the plan as read first; a
    lookup that fails, for whatever reason, passes. *)
Definition missing_in (deps : list NodeId) (seen : result PlanRecord PlanError) : option NodeId :=
  match seen with
  | Ok r => List.find (fun dep => negb (has_node r dep)) deps
  | Err _ => None
  end.
Definition add_step_action (reached : bool) (seen d : Dir) (id principal : string) (n : PlanNode) (now : Z)
    : Dir * result PlanRecord ActionError :=
  match (if bool_decide (depends_on n = []) then None
         else missing_in (depends_on n) (get_for_principal reached seen id principal)) with
  | Some missing => (d, Err (NodeNotInPlan missing id))
  | None => let '(d, r) := add_node d id principal n now in (d, lift_plan r)
  end.

Definition override_reason (st : PlanNodeStatus) (reason : option string) (now : Z) : PlanNodeStatus :=
  match reason, st with
  | Some r, Blocked _ _ => Blocked r now
  | Some r, Failed _ _ => Failed r now
  | _, _ => st
  end.

(** mark_step.rs, from the parsed parameters on. *)
Definition mark_step_action (dbg : string -> string) (d : Dir) (id principal node_str status_str : string)
    (reason : option string) (check : CheckAtParam) (now : Z) : Dir * result PlanRecord ActionError :=
  match node_id_parse dbg node_str with
  | Err e => (d, Err (Failed_with e))
  | Ok node =>
      match parse_status_param status_str now with
      | Err e => (d, Err e)
      | Ok st =>
          let st := override_reason st reason now in
          let completed := match st with Completed _ => true | _ => false end in
          let '(d, r) := mark_node_status d id principal node st now now in
          let change := match check with Unchanged => None | Clear => Some None | At t => Some (Some t) end in
          match r, change with
          | Ok _, Some at_ =>
              if completed then (d, lift_plan r)
              else let '(d, r) := set_node_check_at d id principal node at_ now now in (d, lift_plan r)
          | _, _ => (d, lift_plan r)
          end
      end
  end.

End Storage.

(** ** Reading back what was written *)

Lemma is_blank_brace s : starts_with "{" s = true -> is_blank s = false.
Proof. intros (r & ->)%starts_with_true. by destruct r as [|b [|c r]]. Qed.

Section Laws.
Context `{J : PlanJson} `{L : !PlanJsonLaws J}.

Lemma read_write_same d path id r : read_locked (write_locked d path r) path id = Ok (Some r).
Proof.
  unfold read_locked, write_locked. rewrite lookup_insert_eq.
  pose proof (json_object r) as Ho. pose proof Ho as (t & Ht)%starts_with_true.
  rewrite is_blank_brace; [|apply starts_with_true; rewrite Ht; eexists; symmetry; apply app_assoc_str].
  unfold parse_plan, first_line. rewrite lines_one by (apply json_one_line || apply json_no_cr). cbn [List.filter].
  rewrite is_blank_brace by done. cbn. by rewrite json_roundtrip.
Qed.

Lemma read_write_other d path path' id r :
  path <> path' -> read_locked (write_locked d path r) path' id = read_locked d path' id.
Proof. intros. unfold read_locked, write_locked. by rewrite lookup_insert_ne. Qed.

End Laws.

Lemma last_dot_file_path id : last_dot (file_path id) = Some (id, "jsonl").
Proof.
  induction id as [|c id IH]; [done|]. unfold file_path in *. rewrite app_cons_str. cbn [last_dot].
  by rewrite IH.
Qed.

Lemma file_path_inj id id' : file_path id = file_path id' -> id = id'.
Proof. intros H. apply (f_equal last_dot) in H. rewrite !last_dot_file_path in H. congruence. Qed.

(** ** Calls on the port *)

Inductive PortCall :=
  | CallCreate (principal title_ : string) (ns : list PlanNode) (rand now : Z)
  | CallClose (id principal reason : string) (now1 now2 : Z)
  | CallMark (id principal : string) (node : NodeId) (st : PlanNodeStatus) (now1 now2 : Z)
  | CallCheckAt (id principal : string) (node : NodeId) (at_ : option Z) (now1 now2 : Z)
  | CallEvidence (id principal : string) (node : NodeId) (ev : NodeEvidence) (now1 now2 : Z)
  | CallAdd (id principal : string) (n : PlanNode) (now : Z).

Definition caller (c : PortCall) : string :=
  match c with
  | CallCreate p _ _ _ _ | CallClose _ p _ _ _ | CallMark _ p _ _ _ _ | CallCheckAt _ p _ _ _ _
  | CallEvidence _ p _ _ _ _ | CallAdd _ p _ _ => p
  end.
Definition target (c : PortCall) : string :=
  match c with
  | CallCreate _ _ _ rand _ => plan_id_generate rand
  | CallClose id _ _ _ _ | CallMark id _ _ _ _ _ | CallCheckAt id _ _ _ _ _
  | CallEvidence id _ _ _ _ _ | CallAdd id _ _ _ => id
  end.
Definition is_create (c : PortCall) : bool := match c with CallCreate _ _ _ _ _ => true | _ => false end.

Definition error_of {A} (r : result A PlanError) : option PlanError :=
  match r with Ok _ => None | Err e => Some e end.

Definition exec `{J : PlanJson} (c : PortCall) (d : Dir) : Dir * option PlanError :=
  match c with
  | CallCreate p t ns rand now => let '(d, r) := create d p t ns rand now in (d, error_of r)
  | CallClose id p reason n1 n2 => let '(d, r) := close d id p reason n1 n2 in (d, error_of r)
  | CallMark id p n st n1 n2 => let '(d, r) := mark_node_status d id p n st n1 n2 in (d, error_of r)
  | CallCheckAt id p n at_ n1 n2 => let '(d, r) := set_node_check_at d id p n at_ n1 n2 in (d, error_of r)
  | CallEvidence id p n ev n1 n2 => let '(d, r) := set_node_evidence d id p n ev n1 n2 in (d, error_of r)
  | CallAdd id p n now => let '(d, r) := add_node d id p n now in (d, error_of r)
  end.

(** The node a call may append. *)
Definition added (c : PortCall) : option PlanNode :=
  match c with CallAdd _ _ n _ => Some n | _ => None end.

(** How one call may change a plan. *)
Record evolves (add : option PlanNode) (r r' : PlanRecord) : Prop := {
  ev_plan_id : plan_id r' = plan_id r;
  ev_principal : principal_id r' = principal_id r;
  ev_schema : schema_version r' = schema_version r;
  ev_title : title r' = title r;
  ev_created : plan_created_at r' = plan_created_at r;
  ev_closed : forall c, closed r = Some c -> closed r' = Some c;
  ev_nodes : shape (nodes r') = shape (nodes r) \/
    exists n, add = Some n /\ nodes r' = nodes r ++ [n] /\ closed r = None /\ node_id n ∉ map node_id (nodes r);
}.

Lemma modify_first_shape id f ns ns' :
  (forall n, node_id (f n) = node_id n /\ depends_on (f n) = depends_on n) ->
  modify_first id f ns = Some ns' -> shape ns' = shape ns.
Proof.
  intros Hf. revert ns'. induction ns as [|n ns IH]; intros ns' H; [done|].
  cbn [modify_first] in H. case_decide.
  - injection H as <-. destruct (Hf n) as [H1 H2]. unfold shape; cbn. by rewrite H1, H2.
  - destruct (modify_first id f ns) as [l|]; [|done]. injection H as <-.
    unfold shape in *; cbn. f_equal. by apply IH.
Qed.

Lemma modify_node_evolves id f now r r' :
  (forall n, node_id (f n) = node_id n /\ depends_on (f n) = depends_on n) ->
  modify_node id f r = Ok r' -> evolves None r (set_updated_at r' now).
Proof.
  unfold modify_node. intros Hf H. destruct (modify_first id f (nodes r)) as [ns|] eqn:E; [|done].
  injection H as <-. split; cbn; auto. left. by eapply modify_first_shape.
Qed.

Lemma has_node_true r id : has_node r id = true <-> id ∈ map node_id (nodes r).
Proof.
  unfold has_node. rewrite existsb_exists. setoid_rewrite bool_decide_eq_true.
  rewrite list_elem_of_fmap. setoid_rewrite list_elem_of_In. naive_solver.
Qed.

Lemma append_node_evolves n now r r' :
  append_node n r = Ok r' -> evolves (Some n) r (set_updated_at r' now).
Proof.
  unfold append_node. destruct (closed r) eqn:Ec; cbn [is_some]; [done|].
  destruct (has_node r (node_id n)) eqn:Eh; intros [= <-].
  - split; cbn; auto.
  - split; cbn; auto. right. exists n. do 3 (split; [done|]).
    rewrite <- has_node_true. by rewrite Eh.
Qed.

Section Calls.
Context `{J : PlanJson} `{L : !PlanJsonLaws J}.

(** A call that writes replaces one plan it was entitled to by a later version. *)
Definition wrote (add : option PlanNode) (d : Dir) (id principal : string) (d' : Dir) : Prop :=
  exists r r', read_for_principal d id principal = Ok r /\ evolves add r r' /\
    d' = write_locked d (file_path id) r'.

Lemma update_cases add d id p now f :
  (forall r r', f r = Ok r' -> evolves add r (set_updated_at r' now)) ->
  (update d id p now f).1 = d \/ wrote add d id p (update d id p now f).1.
Proof.
  intros Hf. unfold update. destruct (read_for_principal d id p) as [r|e] eqn:Eg; [|by left].
  destruct (f r) as [r'|e] eqn:Ef; [|by left]. right. exists r, (set_updated_at r' now). eauto.
Qed.

Lemma close_cases d id p reason n1 n2 :
  (close d id p reason n1 n2).1 = d \/ wrote None d id p (close d id p reason n1 n2).1.
Proof.
  unfold close. destruct (read_for_principal d id p) as [r|e] eqn:Eg; [|by left].
  destruct (closed r) eqn:Ec; [by left|]. right. do 2 eexists. split; [done|]. split; [|done].
  split; cbn; auto. by rewrite Ec.
Qed.

Lemma exec_cases c d :
  (exec c d).1 = d \/
  (is_create c = true /\ exists r, (exec c d).1 = write_locked d (file_path (target c)) r /\
                                   principal_id r = caller c) \/
  (is_create c = false /\ wrote (added c) d (target c) (caller c) (exec c d).1).
Proof.
  assert (Hfst : forall A (x : Dir * result A PlanError),
    (let '(d', r) := x in (d', error_of r)).1 = x.1) by (by intros A []).
  destruct c; cbn [exec is_create target caller added]; rewrite Hfst.
  - unfold create. destruct (duplicate_id ns); [by left|]. right; left. split; [done|].
    eexists. split; done.
  - destruct (close_cases d id principal reason now1 now2); auto.
  - destruct (update_cases None d id principal now2 (modify_node node (with_status st now1))); auto.
    intros r r'. by apply modify_node_evolves.
  - destruct (update_cases None d id principal now2 (modify_node node (with_check_at at_ now1))); auto.
    intros r r'. by apply modify_node_evolves.
  - destruct (update_cases None d id principal now2 (modify_node node (with_evidence ev now1))); auto.
    intros r r'. by apply modify_node_evolves.
  - destruct (update_cases (Some n) d id principal now (append_node n)); auto.
    intros r r'. apply append_node_evolves.
Qed.

Lemma read_for_principal_Ok d id p r :
  read_for_principal d id p = Ok r <-> get d id = Ok (Some r) /\ principal_id r = p.
Proof.
  unfold read_for_principal, get, rbind, ok_or, check_principal.
  destruct (read_locked d (file_path id) id) as [[x|]|e]; cbn; [|naive_solver..].
  case_decide; split; [intros [= ->]|intros [[= ->] _]|done|intros [[= ->] ?]]; auto; done.
Qed.

(** Histories in which a created plan gets a name not in use. *)
Inductive history : Dir -> list PortCall -> Dir -> Prop :=
  | history_nil d : history d [] d
  | history_cons d c cs d' :
      (is_create c = true -> d !! file_path (target c) = None) ->
      history (exec c d).1 cs d' ->
      history d (c :: cs) d'.

(**  Isolation of principals: whatever sequence of calls others make, the
    stored bytes of a principal's plan do not change. *)
Theorem plans_isolated d cs d' id r p :
  history d cs d' -> read_for_principal d id p = Ok r -> Forall (fun c => caller c <> p) cs ->
  d' !! file_path id = d !! file_path id.
Proof.
  intros Hh. revert r. induction Hh as [|d c cs d' Hfresh Hh IH]; intros r Hg Hcs; [done|].
  apply Forall_cons in Hcs as [Hc Hcs].
  assert (Hsame : (exec c d).1 !! file_path id = d !! file_path id).
  { apply read_for_principal_Ok in Hg as [Hg Hp].
    destruct (exec_cases c d) as [->|[[Hcr (r' & -> & _)]|[_ (r1 & r' & H1 & _ & ->)]]]; [done|..];
      unfold write_locked; rewrite lookup_insert_ne; try done; intros Heq.
    - specialize (Hfresh Hcr). unfold get, read_locked in Hg. rewrite <- Heq, Hfresh in Hg. done.
    - apply file_path_inj in Heq as Hid. rewrite Hid in H1.
      apply read_for_principal_Ok in H1 as [H1 Hp1]. congruence. }
  rewrite <- Hsame. apply (IH r); [|done]. apply read_for_principal_Ok in Hg as [Hg Hp].
  apply read_for_principal_Ok. split; [|done]. unfold get, read_locked in *. by rewrite Hsame.
Qed.

(** What any later version of a plan keeps. *)
Definition extends (r r' : PlanRecord) : Prop :=
  plan_id r' = plan_id r /\ principal_id r' = principal_id r /\ title r' = title r /\
  plan_created_at r' = plan_created_at r /\
  shape (nodes r) `prefix_of` shape (nodes r') /\
  forall c, closed r = Some c -> closed r' = Some c /\ shape (nodes r') = shape (nodes r).

Lemma extends_refl r : extends r r.
Proof. repeat split; auto. Qed.

Lemma extends_trans r1 r2 r3 : extends r1 r2 -> extends r2 r3 -> extends r1 r3.
Proof.
  intros (A1 & A2 & A3 & A4 & A5 & A6) (B1 & B2 & B3 & B4 & B5 & B6).
  do 4 (split; [congruence|]). split; [by etrans|].
  intros c Hc. destruct (A6 c Hc) as [H1 H2], (B6 c) as [H3 H4]; [done|]. split; congruence.
Qed.

Lemma evolves_extends add r r' : evolves add r r' -> extends r r'.
Proof.
  intros [H1 H2 H3 H4 H5 H6 H7]. do 4 (split; [done|]).
  destruct H7 as [Hs|(n & _ & Hn & Hc & _)].
  - rewrite Hs. split; [done|]. auto.
  - rewrite Hn, Hc. split; [|done]. unfold shape. rewrite map_app. by apply prefix_app_r.
Qed.

Lemma get_write d id id' r :
  get (write_locked d (file_path id) r) id' = if decide (id = id') then Ok (Some r) else get d id'.
Proof.
  unfold get. case_decide as H; [subst; apply read_write_same|].
  apply read_write_other. by intros ?%file_path_inj.
Qed.

Lemma exec_extends c d id r :
  (is_create c = true -> d !! file_path (target c) = None) ->
  get d id = Ok (Some r) -> exists r', get (exec c d).1 id = Ok (Some r') /\ extends r r'.
Proof.
  intros Hfresh Hg.
  destruct (exec_cases c d) as [->|[[Hcr (r' & -> & _)]|[_ (r1 & r' & H1 & He & ->)]]];
    [eauto using extends_refl|..]; rewrite get_write; case_decide as Heq; subst;
    eauto using extends_refl.
  - specialize (Hfresh Hcr). unfold get, read_locked in Hg. by rewrite Hfresh in Hg.
  - apply read_for_principal_Ok in H1 as [H1 _]. rewrite H1 in Hg. simplify_eq.
    eauto using evolves_extends.
Qed.

(**  A stored plan is never lost and never rewound: after any sequence of
    calls it still reads, with its id, owner, title and creation time, its
    nodes in place with their ids and dependencies and only new ones behind
    them; once closed it stays closed as it was, and gains no node. *)
Theorem plans_only_grow d cs d' id r :
  history d cs d' -> get d id = Ok (Some r) ->
  exists r', get d' id = Ok (Some r') /\ extends r r'.
Proof.
  intros Hh. revert r. induction Hh as [|d c cs d' Hfresh Hh IH]; intros r Hg;
    [eauto using extends_refl|].
  destruct (exec_extends c d id r Hfresh Hg) as (r1 & Hg1 & He1).
  destruct (IH r1 Hg1) as (r2 & Hg2 & He2). eauto using extends_trans.
Qed.

(** ** Concurrent tool actions *)

(** Additions that passed their dependency lookup and wait for the lock, as
    (plan id, principal, node). *)
Record World := { dir : Dir; in_flight : list (string * string * PlanNode) }.

Definition is_node_call (c : PortCall) : bool :=
  match c with CallCreate _ _ _ _ _ | CallAdd _ _ _ _ => false | _ => true end.

(** [add_step_action] is [step_lookup] then [step_add], or [step_give_up] when
    the lock or the write fails; anything may happen in between.  [lapses] says
    whether a lookup may go unanswered.  A created plan's id, 32 bits drawn at
    random, is not one that a step is being added to. *)
Inductive tool_step (lapses : bool) : World -> World -> Prop :=
  | step_create w p t ns rand now :
      (forall q n, (plan_id_generate rand, q, n) ∉ in_flight w) ->
      tool_step lapses w {| dir := (create_action (dir w) p t ns rand now).1; in_flight := in_flight w |}
  | step_lookup w reached id p n :
      reached || lapses = true ->
      missing_in (depends_on n) (get_for_principal reached (dir w) id p) = None ->
      tool_step lapses w {| dir := dir w; in_flight := (id, p, n) :: in_flight w |}
  | step_add w id p n now before after :
      in_flight w = before ++ (id, p, n) :: after ->
      tool_step lapses w {| dir := (add_node (dir w) id p n now).1; in_flight := before ++ after |}
  | step_give_up w x before after :
      in_flight w = before ++ x :: after ->
      tool_step lapses w {| dir := dir w; in_flight := before ++ after |}
  | step_node w c :
      is_node_call c = true ->
      tool_step lapses w {| dir := (exec c (dir w)).1; in_flight := in_flight w |}.

Record world_ok (w : World) : Prop := {
  world_dags : forall id r, get (dir w) id = Ok (Some r) -> valid_dag (nodes r);
  world_flight : forall id p n r, (id, p, n) ∈ in_flight w ->
    read_for_principal (dir w) id p = Ok r ->
    forall dep, dep ∈ depends_on n -> dep ∈ map node_id (nodes r);
}.

Lemma missing_in_None deps r :
  missing_in deps (Ok r) = None -> forall dep, dep ∈ deps -> dep ∈ map node_id (nodes r).
Proof.
  intros H dep Hd. apply has_node_true. rewrite list_elem_of_In in Hd.
  pose proof (find_none _ _ H dep Hd) as Hn. by apply negb_false_iff.
Qed.

Lemma extends_ids r r' dep : extends r r' -> dep ∈ map node_id (nodes r) -> dep ∈ map node_id (nodes r').
Proof.
  intros (_ & _ & _ & _ & [k Hk] & _) Hd.
  assert (He : forall l, map node_id l = map fst (shape l)) by (intros; unfold shape; by rewrite map_map).
  rewrite He in *. rewrite Hk, map_app, elem_of_app. auto.
Qed.

(** Writing a later, valid version of one plan keeps the world in order. *)
Lemma world_ok_write add w id p r r' fl :
  world_ok w -> read_for_principal (dir w) id p = Ok r -> evolves add r r' -> valid_dag (nodes r') ->
  (forall x, x ∈ fl -> x ∈ in_flight w) ->
  world_ok {| dir := write_locked (dir w) (file_path id) r'; in_flight := fl |}.
Proof.
  intros [Hd Hf] Hg He Hv Hsub. split; cbn [dir in_flight].
  - intros id' r1. rewrite get_write. case_decide; [|by apply Hd]. by intros [= <-].
  - intros id' q n r1 Hin%Hsub [Hg1 Hq]%read_for_principal_Ok dep Hdep.
    rewrite get_write in Hg1. case_decide as Heq.
    + injection Hg1 as <-. subst id'. apply (extends_ids r); [by eapply evolves_extends|].
      apply (Hf id q n r Hin); [|done]. apply read_for_principal_Ok.
      apply read_for_principal_Ok in Hg as [Hg _]. split; [done|]. rewrite <- (ev_principal _ _ _ He). done.
    + apply (Hf id' q n r1 Hin); [|done]. by apply read_for_principal_Ok.
Qed.

Lemma world_ok_sub w fl :
  world_ok w -> (forall x, x ∈ fl -> x ∈ in_flight w) -> world_ok {| dir := dir w; in_flight := fl |}.
Proof. intros [Hd Hf] Hsub. split; cbn [dir in_flight]; [done|]. intros id p n r ?%Hsub. by apply Hf. Qed.

Lemma evolves_valid add r r' :
  evolves add r r' -> valid_dag (nodes r) ->
  (forall n, add = Some n -> forall dep, dep ∈ depends_on n -> dep ∈ map node_id (nodes r)) ->
  valid_dag (nodes r').
Proof.
  intros He Hv Hadd. destruct (ev_nodes _ _ _ He) as [Hs|(n & Ha & -> & _ & Hn)].
  - by apply (valid_dag_shape (nodes r)).
  - apply valid_dag_append; [done|done|by apply Hadd].
Qed.

Lemma duplicate_id_None ns : duplicate_id ns = None -> NoDup (map node_id ns).
Proof.
  induction ns as [|n ns IH]; cbn; [constructor|].
  destruct (existsb _ ns) eqn:E; [done|]. intros Hd. apply NoDup_cons. split; [|by apply IH].
  rewrite list_elem_of_fmap. intros (m & Heq & Hm%list_elem_of_In).
  apply not_true_iff_false in E. apply E, existsb_exists. exists m.
  split; [done|]. by apply bool_decide_eq_true.
Qed.

Lemma create_action_cases d p t ns rand now :
  (create_action d p t ns rand now).1 = d \/
  (valid_dag (nodes (plan_new rand now p t ns)) /\
   (create_action d p t ns rand now).1
     = write_locked d (file_path (plan_id_generate rand)) (plan_new rand now p t ns)).
Proof.
  unfold create_action.
  destruct (validate_nodes_cases ns) as [(-> & Hr & Ha)|(msg & -> & _)]; [|by left].
  unfold create. destruct (duplicate_id ns) eqn:Ed; [by left|]. right. split; [|done].
  apply (valid_dag_shape ns); [unfold shape; cbn; by rewrite map_map|].
  split; [by apply duplicate_id_None|done|done].
Qed.

Lemma tool_step_ok w w' : tool_step false w w' -> world_ok w -> world_ok w'.
Proof.
  intros Hstep Hok. pose proof Hok as [Hd Hf]. destruct Hstep as [w p t ns rand now Hfl
      |w reached id p n Hreached Hmiss|w id p n now before after Hin|w x before after Hin|w c Hc].
  - destruct (create_action_cases (dir w) p t ns rand now) as [->|[Hv ->]]; [by apply world_ok_sub|].
    split; cbn [dir in_flight].
    + intros id r. rewrite get_write. case_decide; [by intros [= <-]|apply Hd].
    + intros id q n r Hin [Hg Hq]%read_for_principal_Ok. rewrite get_write in Hg.
      case_decide; [subst id; by destruct (Hfl q n)|].
      apply (Hf id q n r Hin). by apply read_for_principal_Ok.
  - rewrite orb_false_r in Hreached. subst reached. cbn [get_for_principal] in Hmiss.
    split; cbn [dir in_flight]; [done|].
    intros id' q m r [[= -> -> ->]|Hin]%elem_of_cons Hg; [|by apply (Hf id' q m r)].
    rewrite Hg in Hmiss. by apply missing_in_None.
  - assert (Hsub : forall x, x ∈ before ++ after -> x ∈ in_flight w) by (rewrite Hin; set_solver).
    pose proof (exec_cases (CallAdd id p n now) (dir w)) as Hc. cbn [exec is_create target caller added] in Hc.
    destruct (add_node (dir w) id p n now) as [d' res]. cbn [fst] in *.
    destruct Hc as [->|[[? _]|[_ (r & r' & Hg & He & ->)]]]; [by apply world_ok_sub|done|].
    eapply world_ok_write; try done. eapply evolves_valid; [done|..].
    + apply read_for_principal_Ok in Hg as [Hg _]. by apply (Hd id).
    + intros ? [= <-]. apply (Hf id p n r); [|done]. rewrite Hin. set_solver.
  - apply world_ok_sub; [done|]. rewrite Hin. set_solver.
  - destruct (exec_cases c (dir w)) as [->|[[Hcr _]|[_ (r & r' & Hg & He & ->)]]];
      [by apply world_ok_sub|by destruct c|].
    eapply world_ok_write; try done. eapply evolves_valid; [done|..].
    + apply read_for_principal_Ok in Hg as [Hg _]. by eapply Hd.
    + intros n Hn. by destruct c.
Qed.

(**  C16. Plans stay executable: however the tool's actions interleave, as long as
    every lookup of dependencies gets its lock and reads its file, and no plan
    is created under an id a step is just being added to, every plan on disk
    has distinct node ids, dependencies that exist, and no dependency cycle;
    the addition of a step is covered although its dependencies are looked up
    before the lock it writes under is taken. *)
Theorem plans_stay_valid w id r :
  rtc (tool_step false) {| dir := ∅; in_flight := [] |} w -> get (dir w) id = Ok (Some r) ->
  valid_dag (nodes r).
Proof.
  intros Hsteps. assert (Hok : world_ok w); [|by apply Hok].
  refine (rtc_ind_r (fun w => world_ok w) _ _ _ w Hsteps).
  - split; cbn [dir in_flight]; [|by intros ? ? ? ? []%elem_of_nil].
    intros id' r' Hg. unfold get, read_locked in Hg. by rewrite lookup_empty in Hg.
  - intros w1 w2 _ Hstep IH. by eapply tool_step_ok.
Qed.
End Calls.

(** ** Completing a step *)

Lemma modify_first_Some id f ns :
  id ∈ map node_id ns -> exists ns', modify_first id f ns = Some ns'.
Proof.
  induction ns as [|n ns IH]; cbn; [by intros []%elem_of_nil|]. intros Hin. case_decide; [eauto|].
  apply elem_of_cons in Hin as [->|Hin]; [done|]. destruct (IH Hin) as [l ->]. cbn. eauto.
Qed.

Lemma elem_of_modify_first id f ns ns' m :
  NoDup (map node_id ns) -> modify_first id f ns = Some ns' ->
  m ∈ ns' <-> (m ∈ ns /\ node_id m <> id) \/ exists n, n ∈ ns /\ node_id n = id /\ m = f n.
Proof.
  revert ns'. induction ns as [|n ns IH]; intros ns' Hnd H; [done|].
  cbn [map] in Hnd. apply NoDup_cons in Hnd as [Hni Hnd].
  assert (Hother : forall u, u ∈ ns -> node_id u <> node_id n).
  { intros u Hu Heq. apply Hni. rewrite <- Heq. by apply list_elem_of_fmap_2. }
  cbn [modify_first] in H. case_decide as Hid.
  - injection H as <-. subst id. rewrite !elem_of_cons. split.
    + intros [->|Hm]; [right; exists n; rewrite elem_of_cons; auto|left; auto].
    + intros [[[->|Hm] Hne]|(u & [->|Hu]%elem_of_cons & Heq & ->)]; auto; [done|].
      by destruct (Hother u Hu).
  - destruct (modify_first id f ns) as [l|]; [|done]. injection H as <-.
    rewrite !elem_of_cons, (IH l Hnd eq_refl). split.
    + intros [->|[[? ?]|(u & ? & ? & ->)]]; auto. right. exists u. rewrite elem_of_cons. auto.
    + intros [[[->|?] ?]|(u & [->|?]%elem_of_cons & ? & ->)]; auto; [done|]. eauto 6.
Qed.

Lemma elem_of_completed p id :
  id ∈ completed_ids p <-> exists n, n ∈ nodes p /\ is_completed n = true /\ node_id n = id.
Proof.
  unfold completed_ids. rewrite elem_of_list_to_set, list_elem_of_fmap.
  setoid_rewrite list_elem_of_In. setoid_rewrite filter_In. naive_solver.
Qed.

Section Complete.
Context `{J : PlanJson} `{L : !PlanJsonLaws J}.

(**  Completing a step is stored at once and takes effect in every view:
    the step counts as completed, it is no longer due, ready or active at any
    time, and the steps that become ready are exactly the other pending ones
    whose prerequisites were all completed but possibly for this one. *)
Theorem mark_completed_effect d id p r node at_ now1 now2 :
  read_for_principal d id p = Ok r -> valid_dag (nodes r) -> node ∈ map node_id (nodes r) ->
  exists d' r', mark_node_status d id p node (Completed at_) now1 now2 = (d', Ok r') /\
    read_for_principal d' id p = Ok r' /\
    completed_ids r' = completed_ids r ∪ {[node]} /\
    (forall t m, m ∈ due_check_ins r' t \/ m ∈ active_nodes r' t -> node_id m <> node) /\
    (forall m, m ∈ ready_nodes r' <->
       m ∈ nodes r /\ node_id m <> node /\ status m = Pending /\
       forall dep, dep ∈ depends_on m -> dep ∈ completed_ids r \/ dep = node).
Proof.
  intros Hg [Hnd _ _] Hin. set (f := with_status (Completed at_) now1).
  destruct (modify_first_Some node f _ Hin) as [ns' Hm].
  assert (Hel : forall m, m ∈ ns' <-> (m ∈ nodes r /\ node_id m <> node) \/
                  exists n, n ∈ nodes r /\ node_id n = node /\ m = f n)
    by (intros m; by apply elem_of_modify_first).
  exists (write_locked d (file_path id) (set_updated_at (set_nodes r ns') now2)),
         (set_updated_at (set_nodes r ns') now2).
  assert (Hc : completed_ids (set_updated_at (set_nodes r ns') now2) = completed_ids r ∪ {[node]}).
  { apply set_eq. intros x. rewrite elem_of_union, elem_of_singleton, !elem_of_completed.
    cbn [set_updated_at set_nodes nodes]. setoid_rewrite Hel. split.
    - intros (n & [[? ?]|(u & ? & ? & ->)] & ? & <-); eauto.
    - apply list_elem_of_fmap in Hin as (u & Hu & Hun).
      intros [(n & Hn & Hcn & <-)| ->]; [|exists (f u); split; [eauto|done]].
      destruct (decide (node_id n = node)).
      + exists (f n). split; [right; eauto|done].
      + exists n. auto. }
  split; [|split; [|split; [exact Hc|split]]].
  - unfold mark_node_status, update. rewrite Hg. fold f. unfold modify_node. by rewrite Hm.
  - apply read_for_principal_Ok. rewrite get_write, decide_True by done.
    apply read_for_principal_Ok in Hg as [_ Hp]. done.
  - intros t m Ht. unfold due_check_ins, active_nodes, current_focus_nodes, ready_nodes in Ht.
    rewrite !list_elem_of_In, !filter_In, in_app_iff, !filter_In, !bool_decide_eq_true in Ht.
    rewrite <- !list_elem_of_In in Ht. cbn [set_updated_at set_nodes nodes] in Ht. rewrite Hel in Ht.
    intros <-. destruct Ht as [[[[[_ ?]|(n & _ & _ & ->)] ?] _]|[[[[[_ ?]|(n & _ & _ & ->)] ?]|[[[[_ ?]|(n & _ & _ & ->)] ?] _]] _]]; done.
  - intros m. rewrite elem_of_ready, Hc, Forall_forall. cbn [set_updated_at set_nodes nodes].
    rewrite Hel. setoid_rewrite elem_of_union. setoid_rewrite elem_of_singleton. split.
    + intros ([[? ?]|(n & _ & _ & ->)] & ? & ?); [auto|done].
    + intros (? & ? & ? & ?). auto.
Qed.

(** ** Listing *)

Lemma insert_by_created_perm r l : insert_by_created r l ≡ₚ r :: l.
Proof.
  induction l as [|x l IH]; cbn; [done|]. destruct (_ <=? _); [done|].
  rewrite IH. apply Permutation_swap.
Qed.
Lemma sort_by_created_perm l : sort_by_created l ≡ₚ l.
Proof. induction l as [|x l IH]; cbn; [done|]. by rewrite insert_by_created_perm, IH. Qed.

Definition created_le (a b : PlanRecord) : Prop := plan_created_at a <= plan_created_at b.

Lemma insert_by_created_sorted r l :
  StronglySorted created_le l -> StronglySorted created_le (insert_by_created r l).
Proof.
  unfold created_le. induction 1 as [|x l Hs IH Hx]; cbn; [repeat constructor|].
  destruct (plan_created_at r <=? plan_created_at x) eqn:E.
  - constructor; [by constructor|]. constructor; [lia|].
    eapply Forall_impl; [exact Hx|]. cbn. intros. lia.
  - constructor; [done|]. rewrite insert_by_created_perm. constructor; [lia|done].
Qed.
Lemma sort_by_created_sorted l : StronglySorted created_le (sort_by_created l).
Proof. induction l; cbn; [constructor|]. by apply insert_by_created_sorted. Qed.

Lemma StronglySorted_filter_list {A} (R : relation A) (f : A -> bool) l :
  StronglySorted R l -> StronglySorted R (List.filter f l).
Proof.
  induction 1 as [|x l Hs IH Hx]; cbn; [constructor|]. destruct (f x); [|done].
  constructor; [done|]. rewrite Forall_forall in *. intros y.
  rewrite list_elem_of_In, filter_In, <- list_elem_of_In. naive_solver.
Qed.

Lemma read_all_spec d entries :
  match read_all d entries with
  | Ok rs => forall r, r ∈ rs <-> exists name id, name ∈ entries /\ plan_file_stem name = Some id /\
                                   read_locked d name id = Ok (Some r)
  | Err e => exists name id, name ∈ entries /\ plan_file_stem name = Some id /\ read_locked d name id = Err e
  end.
Proof.
  induction entries as [|name entries IH]; cbn [read_all].
  { intros r. split; [by intros []%elem_of_nil|]. intros (? & ? & []%elem_of_nil & _). }
  destruct (plan_file_stem name) as [id|] eqn:Es; cbn [rbind].
  - destruct (read_locked d name id) as [o|e] eqn:Er; cbn [rbind].
    + destruct (read_all d entries) as [rs|e]; cbn [rbind].
      * intros r. specialize (IH r). destruct o as [r0|]; [rewrite elem_of_cons|]; rewrite IH; split.
        -- intros [->|(n & i & ? & ? & ?)]; [exists name, id|exists n, i]; rewrite elem_of_cons; auto.
        -- intros (n & i & [->|?]%elem_of_cons & ? & ?); [left; congruence|right; eauto].
        -- intros (n & i & ? & ? & ?); exists n, i; rewrite elem_of_cons; auto.
        -- intros (n & i & [->|?]%elem_of_cons & ? & ?); [congruence|eauto].
      * destruct IH as (n & i & ? & ? & ?). exists n, i. rewrite elem_of_cons. auto.
    + exists name, id. rewrite elem_of_cons. auto.
  - destruct (read_all d entries) as [rs|e].
    + intros r. rewrite IH. split; intros (n & i & Hn & ? & ?); exists n, i; rewrite elem_of_cons in *; auto.
      destruct Hn as [->|]; [congruence|auto].
    + destruct IH as (n & i & ? & ? & ?). exists n, i. rewrite elem_of_cons. auto.
Qed.

Lemma last_dot_Some s a b : last_dot s = Some (a, b) -> s = a +:+ "." +:+ b.
Proof.
  revert a b. induction s as [|c s IH]; intros a b H; [done|]. cbn [last_dot] in H.
  destruct (last_dot s) as [[a' b']|].
  - injection H as <- <-. rewrite app_cons_str. f_equal. by apply IH.
  - destruct (Ascii.eqb_spec c "."%char) as [->|]; [|done]. by injection H as <- <-.
Qed.

Lemma plan_file_stem_Some name id : plan_file_stem name = Some id <-> name = file_path id /\ id <> "".
Proof.
  unfold plan_file_stem. split.
  - destruct (last_dot name) as [[[|c a] b]|] eqn:E; [done| |done].
    destruct (String.eqb_spec b "jsonl") as [->|]; [|done]. intros [= <-].
    apply last_dot_Some in E as ->. done.
  - intros [-> Hne]. rewrite last_dot_file_path. by destruct id.
Qed.

(**  Resuming: when the directory lists its files, [load_resumable] gives
    exactly the principal's open plans with unfinished steps, oldest first; it
    fails only when some plan file is corrupt. *)
Theorem load_resumable_spec d entries p :
  (forall name, name ∈ entries <-> is_Some (d !! name)) ->
  match load_resumable d entries p with
  | Ok rs => StronglySorted created_le rs /\
      forall r, r ∈ rs <-> principal_id r = p /\ has_unresolved_nodes r = true /\
                           exists id, id <> "" /\ get d id = Ok (Some r)
  | Err e => exists id, get d id = Err e
  end.
Proof.
  intros Hent. unfold load_resumable, list_for_principal, list_plans.
  pose proof (read_all_spec d entries) as Hr. destruct (read_all d entries) as [rs|e]; cbn [rbind].
  - split; [do 2 apply StronglySorted_filter_list; apply sort_by_created_sorted|].
    intros r. rewrite list_elem_of_In, !filter_In, bool_decide_eq_true, <- list_elem_of_In.
    rewrite (sort_by_created_perm rs), Hr. split.
    + intros ((( name & id & _ & [-> Hne]%plan_file_stem_Some & Hg) & ?) & ?). eauto.
    + intros (? & ? & id & Hne & Hg). split; [split; [|done]|done].
      exists (file_path id), id. rewrite plan_file_stem_Some, Hent. repeat split; try done.
      unfold get, read_locked in Hg. by destruct (d !! file_path id).
  - destruct Hr as (name & id & _ & [-> _]%plan_file_stem_Some & Hg). by exists id.
Qed.
End Complete.

(** ** A concrete encoding *)

(** Stands in for serde_json where a theorem is applied to a concrete store. *)
Module PlanCodec.

(** Records as trees of texts and numbers. *)
Abbreviation Tree := (gen_tree (string + Z)).
Definition text (s : string) : Tree := GenLeaf (inl s).
Definition num (z : Z) : Tree := GenLeaf (inr z).
Definition opt {A} (f : A -> Tree) (o : option A) : Tree :=
  match o with Some a => GenNode 1 [f a] | None => GenNode 0 [] end.
Definition of_text (t : Tree) : option string := match t with GenLeaf (inl s) => Some s | _ => None end.
Definition of_num (t : Tree) : option Z := match t with GenLeaf (inr z) => Some z | _ => None end.
Definition of_opt {A} (f : Tree -> option A) (t : Tree) : option (option A) :=
  match t with GenNode 1 [a] => Some <$> f a | GenNode 0 [] => Some None | _ => None end.
Definition of_list {A} (f : Tree -> option A) (t : Tree) : option (list A) :=
  match t with GenNode _ l => mapM f l | _ => None end.

Definition status_tree (st : PlanNodeStatus) : Tree :=
  match st with
  | Pending => GenNode 0 [] | InProgress => GenNode 1 []
  | Completed t => GenNode 2 [num t]
  | Blocked r t => GenNode 3 [text r; num t] | Failed r t => GenNode 4 [text r; num t]
  end.
Definition of_status (t : Tree) : option PlanNodeStatus :=
  match t with
  | GenNode 0 [] => Some Pending | GenNode 1 [] => Some InProgress
  | GenNode 2 [a] => t ← of_num a; Some (Completed t)
  | GenNode 3 [a; b] => r ← of_text a; t ← of_num b; Some (Blocked r t)
  | GenNode 4 [a; b] => r ← of_text a; t ← of_num b; Some (Failed r t)
  | _ => None
  end.

Definition ev_tree (e : NodeEvidence) : Tree :=
  GenNode 0 [text (output e); GenNode 0 (map text (artifacts e)); opt text (decided_by e)].
Definition of_ev (t : Tree) : option NodeEvidence :=
  match t with
  | GenNode _ [a; b; c] =>
      a ← of_text a; b ← of_list of_text b; c ← of_opt of_text c;
      Some {| output := a; artifacts := b; decided_by := c |}
  | _ => None
  end.

Definition node_tree (n : PlanNode) : Tree :=
  GenNode 0 [text (node_id n); text (step n); status_tree (status n);
             GenNode 0 (map text (depends_on n)); opt ev_tree (evidence n);
             opt text (blocked_reason n); opt num (check_at n); num (created_at n); num (updated_at n)].
Definition of_node (t : Tree) : option PlanNode :=
  match t with
  | GenNode _ [a; b; c; d; e; f; g; h; i] =>
      a ← of_text a; b ← of_text b; c ← of_status c; d ← of_list of_text d; e ← of_opt of_ev e;
      f ← of_opt of_text f; g ← of_opt of_num g; h ← of_num h; i ← of_num i;
      Some {| node_id := a; step := b; status := c; depends_on := d; evidence := e;
              blocked_reason := f; check_at := g; created_at := h; updated_at := i |}
  | _ => None
  end.

Definition closed_tree (c : ClosedState) : Tree := GenNode 0 [num (closed_at c); text (close_reason c)].
Definition of_closed (t : Tree) : option ClosedState :=
  match t with
  | GenNode _ [a; b] => a ← of_num a; b ← of_text b; Some {| closed_at := a; close_reason := b |}
  | _ => None
  end.

Definition plan_tree (r : PlanRecord) : Tree :=
  GenNode 0 [text (plan_id r); text (principal_id r); num (schema_version r); text (title r);
             num (plan_created_at r); num (plan_updated_at r);
             GenNode 0 (map node_tree (nodes r)); opt closed_tree (closed r)].
Definition of_plan (t : Tree) : option PlanRecord :=
  match t with
  | GenNode _ [a; b; c; d; e; f; g; h] =>
      a ← of_text a; b ← of_text b; c ← of_num c; d ← of_text d; e ← of_num e; f ← of_num f;
      g ← of_list of_node g; h ← of_opt of_closed h;
      Some {| plan_id := a; principal_id := b; schema_version := c; title := d; plan_created_at := e;
              plan_updated_at := f; nodes := g; closed := h |}
  | _ => None
  end.

Lemma of_list_map {A} (f : A -> Tree) (g : Tree -> option A) l :
  (forall a, g (f a) = Some a) -> of_list g (GenNode 0 (map f l)) = Some l.
Proof. intros H. induction l as [|a l IH]; cbn in *; [done|]. by rewrite H, IH. Qed.
Lemma of_opt_opt {A} (f : A -> Tree) (g : Tree -> option A) o :
  (forall a, g (f a) = Some a) -> of_opt g (opt f o) = Some o.
Proof. intros H. destruct o; cbn; [by rewrite H|done]. Qed.

Lemma of_ev_tree e : of_ev (ev_tree e) = Some e.
Proof. destruct e. unfold of_ev, ev_tree. rewrite of_list_map, of_opt_opt by done. done. Qed.
Lemma of_node_tree n : of_node (node_tree n) = Some n.
Proof.
  destruct n as [a b st d e f g h i]. unfold of_node, node_tree.
  assert (Hs : of_status (status_tree st) = Some st) by (by destruct st).
  cbn [of_text text mbind option_bind node_id step status depends_on evidence blocked_reason check_at].
  rewrite Hs. cbn [option_bind]. rewrite of_list_map by done. cbn [option_bind].
  rewrite !of_opt_opt by (done || apply of_ev_tree). done.
Qed.
Lemma of_plan_tree r : of_plan (plan_tree r) = Some r.
Proof.
  destruct r as [a b c d e f ns cl]. unfold of_plan, plan_tree.
  cbn [of_text text of_num num mbind option_bind plan_id principal_id schema_version title
       plan_created_at plan_updated_at nodes closed].
  rewrite of_list_map by apply of_node_tree. cbn [option_bind].
  rewrite of_opt_opt by (by intros []). done.
Qed.

Definition json : PlanJson :=
  {| to_json r := String "{" (bits (encode (plan_tree r)));
     from_json s := match s with String _ s => decode (unbits s) ≫= of_plan | _ => None end |}.

Lemma json_laws : PlanJsonLaws json.
Proof.
  split; intros r; cbn [to_json from_json json].
  - rewrite unbits_bits, decode_encode. apply of_plan_tree.
  - done.
  - cbn [str_has]. rewrite decide_False by done. by apply bits_has.
  - cbn [str_has]. rewrite decide_False by done. by apply bits_has.
Qed.
End PlanCodec.

(** ** Concrete stores *)

Definition alice_id : string := plan_id_generate 7.
Definition alice_plan : PlanRecord := plan_new 7 0 "alice" "t" (nodes sample_plan).
Definition alice_dir : Dir := write_locked (J := PlanCodec.json) ∅ (file_path alice_id) alice_plan.

Lemma alice_get : get (J := PlanCodec.json) alice_dir alice_id = Ok (Some alice_plan).
Proof.
  unfold alice_dir. rewrite (get_write (L := PlanCodec.json_laws)). by rewrite decide_True.
Qed.
Lemma alice_get_for : read_for_principal (J := PlanCodec.json) alice_dir alice_id "alice" = Ok alice_plan.
Proof. apply read_for_principal_Ok. split; [apply alice_get|done]. Qed.

Definition mallory_calls : list PortCall :=
  [CallMark alice_id "mallory" "node_00000001" (Completed 9) 9 9;
   CallCreate "mallory" "t" [] 8 9; CallClose alice_id "mallory" "x" 9 9].

Lemma mallory_history : exists d', history (J := PlanCodec.json) alice_dir mallory_calls d'.
Proof. eexists. repeat (constructor; [by vm_compute|]). constructor. Qed.

Lemma plans_isolated_witness :
  exists d', history (J := PlanCodec.json) alice_dir mallory_calls d' /\
    d' !! file_path alice_id = alice_dir !! file_path alice_id.
Proof.
  destruct mallory_history as [d' Hd]. exists d'. split; [exact Hd|].
  apply (plans_isolated (J := PlanCodec.json) alice_dir mallory_calls d' alice_id alice_plan "alice" Hd alice_get_for).
  repeat constructor; discriminate.
Defined.

Lemma plans_only_grow_witness :
  exists d' r', history (J := PlanCodec.json) alice_dir mallory_calls d' /\
    get (J := PlanCodec.json) d' alice_id = Ok (Some r') /\ extends alice_plan r'.
Proof.
  destruct mallory_history as [d' Hd]. exists d'.
  destruct (plans_only_grow (L := PlanCodec.json_laws) alice_dir mallory_calls d' alice_id alice_plan Hd alice_get)
    as (r' & Hg & He).
  exists r'. auto.
Defined.

Lemma mark_completed_effect_witness :
  exists d' r', mark_node_status (J := PlanCodec.json) alice_dir alice_id "alice" "node_00000001"
      (Completed 9) 9 9 = (d', Ok r') /\
    completed_ids r' = completed_ids alice_plan ∪ {["node_00000001"]}.
Proof.
  destruct (mark_completed_effect (L := PlanCodec.json_laws) alice_dir alice_id "alice" alice_plan
    "node_00000001" 9 9 9) as (d' & r' & H1 & _ & H2 & _).
  - exact alice_get_for.
  - exact sample_plan_valid.
  - apply list_elem_of_In. cbn. auto.
  - exists d', r'. auto.
Defined.

Lemma load_resumable_spec_witness :
  match load_resumable (J := PlanCodec.json) alice_dir [file_path alice_id] "alice" with
  | Ok rs => alice_plan ∈ rs
  | Err _ => False
  end.
Proof.
  pose proof (load_resumable_spec (J := PlanCodec.json) alice_dir [file_path alice_id] "alice") as H.
  assert (He : forall name, name ∈ [file_path alice_id] <-> is_Some (alice_dir !! name)).
  { intros name. unfold alice_dir, write_locked. rewrite list_elem_of_singleton.
    destruct (decide (file_path alice_id = name)) as [<-|Hne].
    - rewrite lookup_insert_eq. split; [eauto|done].
    - rewrite lookup_insert_ne, lookup_empty by done. split; [congruence|by intros []]. }
  specialize (H He).
  destruct (load_resumable (J := PlanCodec.json) alice_dir [file_path alice_id] "alice") as [rs|e].
  - apply (proj2 H). split; [reflexivity|split; [reflexivity|]].
    exists alice_id. split; [discriminate|apply alice_get].
  - destruct H as [id Hid]. unfold get, read_locked, alice_dir, write_locked in Hid.
    destruct (decide (alice_id = id)) as [<-|Hne].
    + pose proof alice_get as Hg. unfold get, read_locked, alice_dir, write_locked in Hg. congruence.
    + rewrite lookup_insert_ne, lookup_empty in Hid; [done|by intros ?%file_path_inj].
Defined.

Definition empty_world : World := {| dir := ∅; in_flight := [] |}.
Definition later_step : PlanNode := sample_node "node_00000003" ["node_00000002"].

(** Alice creates a plan, looks up a dependency, closes a node, then adds. *)
Lemma plans_stay_valid_witness :
  exists w r, rtc (tool_step (J := PlanCodec.json) false) empty_world w /\
    get (J := PlanCodec.json) (dir w) alice_id = Ok (Some r) /\ length (nodes r) = 3%nat /\
    valid_dag (nodes r).
Proof.
  set (J := PlanCodec.json).
  set (d1 := (create_action (J := J) ∅ "alice" "t" (nodes sample_plan) 7 5).1).
  set (w1 := {| dir := d1; in_flight := [] |}).
  set (w2 := {| dir := d1; in_flight := [(alice_id, "alice", later_step)] |}).
  set (w3 := {| dir := (add_node (J := J) d1 alice_id "alice" later_step 6).1; in_flight := [] |}).
  assert (Hg : exists r, get (J := J) (dir w3) alice_id = Ok (Some r) /\ length (nodes r) = 3%nat).
  { eexists. vm_compute. split; reflexivity. }
  destruct Hg as (r & Hg & Hlen). exists w3, r.
  assert (Hsteps : rtc (tool_step (J := J) false) empty_world w3).
  { apply (rtc_l _ _ w1); [apply (step_create (J := J) false empty_world "alice" "t" (nodes sample_plan) 7 5);
      by intros ? ? []%elem_of_nil|].
    apply (rtc_l _ _ w2); [apply (step_lookup (J := J) false w1 true alice_id "alice" later_step); by vm_compute|].
    apply (rtc_l _ _ w3); [|reflexivity].
    apply (step_add (J := J) false w2 alice_id "alice" later_step 6 [] []). reflexivity. }
  split; [exact Hsteps|]. split; [exact Hg|]. split; [exact Hlen|].
  exact (plans_stay_valid (L := PlanCodec.json_laws) w3 alice_id r Hsteps Hg).
Defined.

(** A lookup that times out on the plan's lock counts as passed: the step is
    then added with a dependency on itself, and the plan is one [create] would
    refuse. *)
Definition own_step : PlanNode := sample_node "node_00000003" ["node_00000003"].
Theorem timed_out_lookup_adds_cycle :
  let d1 := (create_action (J := PlanCodec.json) ∅ "alice" "t" (nodes sample_plan) 7 5).1 in
  let add := fun reached => (add_step_action (J := PlanCodec.json) reached d1 d1 alice_id "alice" own_step 6).2 in
  add true = Err (NodeNotInPlan "node_00000003" alice_id)
  /\ match add false with
     | Ok p => map node_id (nodes p) = map node_id (nodes sample_plan ++ [own_step])
               /\ match validate_nodes (nodes p) with Some (Err _) => True | _ => False end
     | Err _ => False
     end.
Proof. by vm_compute. Qed.

(** ** The mirrored reason *)

(**  [blocked_reason] mirrors the status only for steps marked blocked
    later: a step that is created or added as blocked carries a reason in its
    status and none in the mirror, for all the comment at [mark_node_status]
    calls itself the only place that produces [Blocked]. *)
Theorem created_blocked_not_mirrored dbg id step_ deps rand now (deps' : list NodeId) :
  parse_depends_on dbg deps = Ok deps' -> node_id_parse dbg id = Ok id ->
  exists n, build_node dbg {| sp_node_id := Some id; sp_step := step_; sp_depends_on := deps;
                              sp_status := Some "blocked"; sp_check_at := Unchanged |} rand now = Ok n /\
    status n = Blocked "set by tool" now /\ blocked_reason n = None /\
    forall reason, blocked_reason (with_status (Blocked reason now) now n) = Some reason.
Proof.
  intros Hd Hi. unfold build_node, resolve_node_id; cbn [sp_node_id sp_depends_on sp_status].
  rewrite Hi, Hd. cbn. eauto 10.
Qed.
Lemma created_blocked_not_mirrored_witness :
  exists n, build_node id {| sp_node_id := Some "node_00000001"; sp_step := "s"; sp_depends_on := [];
                             sp_status := Some "blocked"; sp_check_at := Unchanged |} 0 3 = Ok n /\
    status n = Blocked "set by tool" 3 /\ blocked_reason n = None.
Proof.
  destruct (created_blocked_not_mirrored id "node_00000001" "s" [] 0 3 []) as (n & H1 & H2 & H3 & _);
    [reflexivity|reflexivity|eauto].
Defined.
