(* ===== verification/Host.v ===== *)
(** * Host: paths, JSON values and the file system

    What the security code uses of its host: [std::path] on Unix as component
    lists, [serde_json::Value], and the file system as an interface with the
    documented laws of [canonicalize]. *)

From Stdlib Require Import ZArith Lia Ascii.
From stdpp Require Import base tactics list gmap strings.
From S2P Require Import Prelude Text.

Local Open Scope nat_scope.

(** ** JSON values *)

Inductive Json :=
  | JNull
  | JBool (b : bool)
  | JNumber (text : string)
  | JString (s : string)
  | JArray (l : list Json)
  | JObject (fields : list (string * Json)).

(** [value[key]]: [Null] when there is no such field. *)
Fixpoint field (key : string) (fields : list (string * Json)) : Json :=
  match fields with
  | [] => JNull
  | (k, v) :: fields => if String.eqb k key then v else field key fields
  end.
Definition index (v : Json) (key : string) : Json :=
  match v with JObject fields => field key fields | _ => JNull end.
Definition as_str (v : Json) : option string := match v with JString s => Some s | _ => None end.
Definition as_array (v : Json) : option (list Json) := match v with JArray l => Some l | _ => None end.
Definition as_bool (v : Json) : option bool := match v with JBool b => Some b | _ => None end.
Definition contains_key (key : string) (fields : list (string * Json)) : bool :=
  existsb (fun kv => String.eqb kv.1 key) fields.
(** [Map::insert] and [Map::remove]; a map keeps its keys in order. *)
Fixpoint insert_field (key : string) (v : Json) (fields : list (string * Json)) : list (string * Json) :=
  match fields with
  | [] => [(key, v)]
  | (k, x) :: rest =>
      if String.eqb k key then (key, v) :: rest
      else if String.ltb key k then (key, v) :: fields
      else (k, x) :: insert_field key v rest
  end.
Definition remove_field (key : string) (fields : list (string * Json)) : list (string * Json) :=
  List.filter (fun kv => negb (String.eqb kv.1 key)) fields.

Lemma field_insert_same key v fields : field key (insert_field key v fields) = v.
Proof.
  induction fields as [|[k x] fields IH]; cbn; [by rewrite String.eqb_refl|].
  destruct (String.eqb k key) eqn:E; cbn; [by rewrite String.eqb_refl|].
  destruct (String.ltb key k); cbn; [by rewrite String.eqb_refl|]. by rewrite E.
Qed.
Lemma field_insert_other key key' v fields : key <> key' -> field key' (insert_field key v fields) = field key' fields.
Proof.
  intros H. assert (E : String.eqb key key' = false) by (by apply String.eqb_neq).
  induction fields as [|[k x] fields IH]; cbn; [by rewrite E|].
  destruct (String.eqb k key) eqn:Ek; cbn.
  - apply String.eqb_eq in Ek as ->. by rewrite E.
  - destruct (String.ltb key k); cbn; [by rewrite E|]. by rewrite IH.
Qed.

(** ** Paths *)

Inductive Component := RootDir | CurDir | ParentDir | Normal (s : string).
#[export] Instance Component_eq_dec : EqDecision Component.
Proof. solve_decision. Defined.

(** A path is its components; [RootDir] comes first in an absolute one. *)
Definition Path : Type := list Component.
#[export] Instance Path_eq_dec : EqDecision Path.
Proof. unfold Path. apply _. Defined.

Definition SLASH : ascii := "/"%char.

Fixpoint split_on (c : ascii) (s : string) : list string :=
  match s with
  | EmptyString => [EmptyString]
  | String a s =>
      if Ascii.eqb a c then EmptyString :: split_on c s
      else match split_on c s with
           | l :: ls => String a l :: ls
           | [] => [String a EmptyString]
           end
  end.

(** A part after the first: empty parts and [.] vanish. *)
Definition inner_component (part : string) : list Component :=
  if String.eqb part "" then [] else if String.eqb part "." then []
  else if String.eqb part ".." then [ParentDir] else [Normal part].
Definition components (s : string) : Path :=
  match split_on SLASH s with
  | [] => []
  | first :: rest =>
      let rest := flat_map inner_component rest in
      if String.eqb first "" then (if String.eqb s "" then [] else RootDir :: rest)
      else if String.eqb first "." then CurDir :: rest
      else inner_component first ++ rest
  end.

Definition component_text (c : Component) : string :=
  match c with RootDir => "/" | CurDir => "." | ParentDir => ".." | Normal s => s end.
(** The text of a path built by pushes. *)
Definition display (p : Path) : string :=
  match p with
  | RootDir :: rest => "/" +:+ join_with "/" (map component_text rest)
  | _ => join_with "/" (map component_text p)
  end.

(** [Path::starts_with], whole components. *)
Fixpoint path_starts_with (p base : Path) : bool :=
  match base, p with
  | [], _ => true
  | b :: base, c :: p => bool_decide (b = c) && path_starts_with p base
  | _ :: _, [] => false
  end.
Fixpoint path_strip_prefix (base p : Path) : option Path :=
  match base, p with
  | [], _ => Some p
  | b :: base, c :: p => if decide (b = c) then path_strip_prefix base p else None
  | _ :: _, [] => None
  end.

Definition parent (p : Path) : option Path :=
  match last p with
  | None | Some RootDir => None
  | Some _ => Some (removelast p)
  end.
Definition file_name (p : Path) : option string :=
  match last p with Some (Normal s) => Some s | _ => None end.

(** [PathBuf::push]: an absolute path replaces. *)
Definition push (p q : Path) : Path :=
  match q with RootDir :: _ => q | _ => p ++ q end.
Definition pop (p : Path) : Path := default p (parent p).

(** [Path::ancestors]: the path, its parent, and so on. *)
Fixpoint ancestors_fuel (fuel : nat) (p : Path) : list Path :=
  match fuel with
  | O => []
  | S fuel => p :: match parent p with Some q => ancestors_fuel fuel q | None => [] end
  end.
Definition ancestors (p : Path) : list Path := ancestors_fuel (S (length p)) p.

(** ** The file system *)

Class FileSystem := {
  canonicalize : Path -> option Path;
  read : Path -> option string;
  read_dir : Path -> option (list Path);
  from_slice : string -> option Json;
}.

Definition is_normal (c : Component) : bool := match c with Normal _ => true | _ => false end.
(** Absolute, without [.] or [..]. *)
Definition clean (p : Path) : Prop := exists q, p = RootDir :: q /\ Forall (fun c => is_normal c = true) q.

(** [canonicalize]: the absolute form with all links resolved. *)
Class FileSystemLaws (F : FileSystem) : Prop := {
  canonicalize_root : canonicalize [RootDir] = Some [RootDir];
  canonicalize_clean : forall p q, canonicalize p = Some q -> clean q;
  canonicalize_fixed : forall p q, canonicalize p = Some q -> canonicalize q = Some q;
  (** A name is looked up in the directory its prefix denotes. *)
  canonicalize_step : forall p q c, canonicalize p = Some q -> is_normal c = true ->
    canonicalize (p ++ [c]) = canonicalize (q ++ [c]);
  (** A file exists only in a directory that exists. *)
  canonicalize_parent : forall p c, p <> [] -> canonicalize p = None -> is_normal c = true ->
    canonicalize (p ++ [c]) = None;
}.

(** ** Paths as text *)

Definition is_absolute (s : string) : bool := starts_with "/" s.
Fixpoint ends_with_slash (s : string) : bool :=
  match s with
  | EmptyString => false
  | String c EmptyString => Ascii.eqb c SLASH
  | String _ s => ends_with_slash s
  end.
(** [PathBuf::push] on the text of two paths. *)
Definition push_text (base rel : string) : string :=
  if is_absolute rel then rel
  else match base with
       | EmptyString => rel
       | _ => if ends_with_slash base then base +:+ rel else base +:+ "/" +:+ rel
       end.

Lemma push_text_absolute base rel : is_absolute base = true -> is_absolute (push_text base rel) = true.
Proof.
  unfold push_text. intros H. destruct (is_absolute rel) eqn:E; [done|].
  destruct base as [|c base]; [done|]. unfold is_absolute, starts_with in *. cbn [strip_prefix] in H.
  case_decide as Hc; [subst c|done]. destruct (ends_with_slash _); rewrite app_cons_str; done.
Qed.

(** ** Lemmas on paths *)

Lemma path_strip_prefix_starts base p :
  is_some (path_strip_prefix base p) = path_starts_with p base.
Proof.
  revert p. induction base as [|b base IH]; intros [|c p]; cbn; try done.
  case_decide as H; [subst; by rewrite bool_decide_eq_true_2|by rewrite bool_decide_eq_false_2].
Qed.

Lemma path_strip_prefix_Some base p r : path_strip_prefix base p = Some r <-> p = base ++ r.
Proof.
  revert p. induction base as [|b base IH]; intros p; cbn; [split; congruence|].
  destruct p as [|c p]; [done|]. case_decide; [subst; rewrite IH; split; congruence|].
  split; [done|congruence].
Qed.

Lemma path_starts_with_prefix p base : path_starts_with p base = true <-> base `prefix_of` p.
Proof.
  rewrite <- path_strip_prefix_starts. split.
  - destruct (path_strip_prefix base p) as [r|] eqn:E; [|done]. intros _.
    apply path_strip_prefix_Some in E as ->. by apply prefix_app_r.
  - intros [r Hr]. by rewrite (proj2 (path_strip_prefix_Some base p r) Hr).
Qed.

Lemma parent_snoc p c : c <> RootDir -> parent (p ++ [c]) = Some p.
Proof.
  intros H. unfold parent. rewrite last_snoc, removelast_last. by destruct c.
Qed.
Lemma file_name_snoc p s : file_name (p ++ [Normal s]) = Some s.
Proof. unfold file_name. by rewrite last_snoc. Qed.

Lemma clean_app p q : clean p -> Forall (fun c => is_normal c = true) q -> clean (p ++ q).
Proof. intros (r & -> & Hr) Hq. exists (r ++ q). split; [done|]. by apply Forall_app. Qed.
