(* ===== verification/ActingFor.v ===== *)
(** * ActingFor: whom a run acts for (peko-rs/tools-core/src/acting_for.rs)

    The stamp every run carries, its trust and compartment, and the text
    filter that keeps people from writing the runtime's own tags. *)

From Stdlib Require Import ZArith Lia Ascii.
From stdpp Require Import base tactics list strings.
From S2P Require Import Prelude.

Inductive Trust := Untrusted | Trusted | Owner.
#[export] Instance Trust_eq_dec : EqDecision Trust.
Proof. solve_decision. Defined.

Definition trust_as_str (t : Trust) : string :=
  match t with Untrusted => "untrusted" | Trusted => "trusted" | Owner => "owner" end.

(** The derived [Ord]: declaration order. *)
Definition trust_rank (t : Trust) : nat := match t with Untrusted => 0 | Trusted => 1 | Owner => 2 end.
Definition trust_le (a b : Trust) : Prop := (trust_rank a <= trust_rank b)%nat.
Definition trust_min (a b : Trust) : Trust :=
  if (trust_rank b <? trust_rank a)%nat then b else a.

Inductive Compartment :=
  | Internal
  | Conversation (channel : string)
  | Detached.
#[export] Instance Compartment_eq_dec : EqDecision Compartment.
Proof. solve_decision. Defined.

Definition compartment_channel (c : Compartment) : option string :=
  match c with Conversation channel => Some channel | _ => None end.

Inductive Origin :=
  | Ingress (channel : option string)
  | Cron (job_id : string)
  | Wake
  | Runtime
  | Approval (request_id : string).

Record ActingFor := {
  actor : string;
  actor_name : option string;
  trust : Trust;
  compartment : Compartment;
  origin : Origin;
}.

Definition unattributed : ActingFor :=
  {| actor := "unattributed"; actor_name := None; trust := Untrusted; compartment := Detached;
     origin := Runtime |}.
Definition runtime : ActingFor :=
  {| actor := "runtime"; actor_name := None; trust := Owner; compartment := Internal;
     origin := Runtime |}.

Definition is_owner (s : ActingFor) : bool := bool_decide (trust s = Owner).
Definition is_untrusted (s : ActingFor) : bool := bool_decide (trust s = Untrusted).

Definition capped (s : ActingFor) (ceiling : Trust) : ActingFor :=
  {| actor := actor s; actor_name := actor_name s; trust := trust_min (trust s) ceiling;
     compartment := compartment s; origin := origin s |}.

Definition may_reach (s : ActingFor) (target : Compartment) : bool :=
  if is_owner s then true
  else negb (bool_decide (compartment s = Detached)) && bool_decide (compartment s = target).

(** ** Runtime tags *)

Definition RUNTIME_TAGS : list string := ["acting-for"; "runtime-context"].

(** U+2039 in UTF-8. *)
Definition ANGLE : string := String "226" (String "128" (String "185" EmptyString)).
Definition LT : ascii := "<"%char.

(** Whether the text after a [<] spells a runtime tag, opening or closing. *)
Definition tag_follows (rest : string) : bool :=
  let rest := to_ascii_lowercase rest in
  let rest := default rest (strip_prefix "/" rest) in
  existsb (fun tag => starts_with tag rest) RUNTIME_TAGS.

(** The scan over the [<] of the text, copying what lies between. *)
Fixpoint neutralize_runtime_tags (text : string) : string :=
  match text with
  | EmptyString => EmptyString
  | String c rest =>
      if Ascii.eqb c LT && tag_follows rest then ANGLE +:+ neutralize_runtime_tags rest
      else String c (neutralize_runtime_tags rest)
  end.

(** ** Lemmas *)

Lemma trust_min_le_l a b : trust_le (trust_min a b) a.
Proof. by destruct a, b; unfold trust_le; cbn; lia. Qed.
Lemma trust_min_le_r a b : trust_le (trust_min a b) b.
Proof. by destruct a, b; unfold trust_le; cbn; lia. Qed.
Lemma trust_min_glb a b c : trust_le c a -> trust_le c b -> trust_le c (trust_min a b).
Proof. unfold trust_le. destruct a, b, c; cbn; lia. Qed.
#[export] Instance trust_le_preorder : PreOrder trust_le.
Proof. split; unfold trust_le; [intros a; lia|intros a b c; lia]. Qed.
Lemma trust_le_owner a b : trust_le a b -> a = Owner -> b = Owner.
Proof. unfold trust_le. intros H ->. destruct b; cbn in *; [lia|lia|done]. Qed.
Lemma trust_le_untrusted a b : trust_le a b -> b = Untrusted -> a = Untrusted.
Proof. unfold trust_le. intros H ->. destruct a; cbn in *; [done|lia|lia]. Qed.

(** ** No tag gets through *)

(** Some [<] of the text opens a runtime tag. *)
Fixpoint has_runtime_tag (s : string) : bool :=
  match s with
  | EmptyString => false
  | String c rest => Ascii.eqb c LT && tag_follows rest || has_runtime_tag rest
  end.

(** The same text up to [<] written as U+2039 in places. *)
Inductive defused : string -> string -> Prop :=
  | defused_nil : defused EmptyString EmptyString
  | defused_keep c s t : defused s t -> defused (String c s) (String c t)
  | defused_swap s t : defused s t -> defused (String LT s) (ANGLE +:+ t).

Lemma starts_with_cons a t c s :
  starts_with (String a t) (String c s) = bool_decide (a = c) && starts_with t s.
Proof.
  apply eq_true_iff_eq. rewrite andb_true_iff, bool_decide_eq_true, !starts_with_true. split.
  - intros [r H]. rewrite app_cons_str in H. injection H as -> ->. eauto.
  - intros [-> [r ->]]. exists r. by rewrite app_cons_str.
Qed.

(** Text without the swapped characters is found after the scan only where it
    was before. *)
Lemma starts_with_neutralized t s :
  str_has LT t = false -> str_has "226" t = false ->
  starts_with t (to_ascii_lowercase (neutralize_runtime_tags s)) = true ->
  starts_with t (to_ascii_lowercase s) = true.
Proof.
  revert t. induction s as [|c s IH]; intros t H1 H2 H; [done|].
  destruct t as [|a t]; [done|]. cbn [str_has] in H1, H2.
  case_decide as Ha1; [done|]. case_decide as Ha2; [done|].
  cbn [neutralize_runtime_tags] in H. destruct (Ascii.eqb c LT && tag_follows s) eqn:E.
  - exfalso. unfold ANGLE in H. rewrite app_cons_str in H. cbn [to_ascii_lowercase] in H.
    rewrite starts_with_cons in H. apply andb_true_iff in H as [H _].
    apply bool_decide_eq_true in H. by apply Ha2.
  - cbn [to_ascii_lowercase] in *. rewrite starts_with_cons in *.
    apply andb_true_iff in H as [-> H]. cbn. by apply IH.
Qed.

Lemma tag_follows_iff s :
  tag_follows s = true <->
  exists tag, tag ∈ RUNTIME_TAGS /\ (starts_with tag (to_ascii_lowercase s) = true \/
                                    starts_with ("/" +:+ tag) (to_ascii_lowercase s) = true).
Proof.
  unfold tag_follows. rewrite existsb_exists. setoid_rewrite list_elem_of_In.
  set (l := to_ascii_lowercase s).
  assert (Hsl : forall tag, starts_with ("/" +:+ tag) l = true <->
                  exists r, strip_prefix "/" l = Some r /\ starts_with tag r = true).
  { intros tag. rewrite starts_with_true. setoid_rewrite strip_prefix_Some.
    setoid_rewrite starts_with_true. split.
    - intros [r ->]. exists (tag +:+ r). split; [by rewrite app_assoc_str|eauto].
    - intros (r & -> & u & ->). exists u. by rewrite app_assoc_str. }
  setoid_rewrite Hsl. destruct (strip_prefix "/" l) as [r|] eqn:E; cbn [default from_option id].
  - apply strip_prefix_Some in E. split; [intros (t & ? & ?); eauto 6|].
    intros (t & Ht & [H|(r' & [= <-] & H)]); [|eauto].
    exfalso. rewrite E in H. cbn in Ht. destruct Ht as [<-|[<-|[]]]; by cbn in H.
  - split; [intros (t & ? & ?); eauto|]. intros (t & Ht & [H|(r' & [=] & _)]). eauto.
Qed.

Lemma tag_follows_neutralized s : tag_follows (neutralize_runtime_tags s) = true -> tag_follows s = true.
Proof.
  rewrite !tag_follows_iff. intros (tag & Ht & H). exists tag. split; [done|].
  apply list_elem_of_In in Ht. cbn in Ht.
  destruct H as [H|H]; [left|right]; (apply starts_with_neutralized; [..|done]);
    destruct Ht as [<-|[<-|[]]]; reflexivity.
Qed.

Lemma has_tag_neutralized s : has_runtime_tag (neutralize_runtime_tags s) = false.
Proof.
  induction s as [|c s IH]; [done|]. cbn [neutralize_runtime_tags].
  destruct (Ascii.eqb c LT && tag_follows s) eqn:E; [by rewrite <- IH|].
  cbn [has_runtime_tag]. rewrite IH, orb_false_r.
  destruct (Ascii.eqb c LT); [|done]. rewrite andb_true_l in *. destruct (tag_follows (neutralize_runtime_tags s)) eqn:Et; [|done].
  by rewrite (tag_follows_neutralized s Et) in E.
Qed.

Lemma neutralize_untouched s : has_runtime_tag s = false -> neutralize_runtime_tags s = s.
Proof.
  induction s as [|c s IH]; [done|]. cbn [has_runtime_tag neutralize_runtime_tags].
  intros [-> H]%orb_false_iff. by rewrite IH.
Qed.

(**  A message cannot speak as the runtime: after the filter no [<] opens
    an [acting-for] or [runtime-context] tag, opening or closing, in any letter
    case; apart from those [<] the text is what it was, text without such tags
    is untouched, and filtering twice changes nothing more. *)
Theorem runtime_tags_neutralized s :
  has_runtime_tag (neutralize_runtime_tags s) = false /\
  defused s (neutralize_runtime_tags s) /\
  (has_runtime_tag s = false -> neutralize_runtime_tags s = s) /\
  neutralize_runtime_tags (neutralize_runtime_tags s) = neutralize_runtime_tags s.
Proof.
  split; [apply has_tag_neutralized|]. split; [|split; [apply neutralize_untouched|]].
  - induction s as [|c s IH]; [constructor|]. cbn [neutralize_runtime_tags].
    destruct (Ascii.eqb_spec c LT) as [->|]; [|by constructor].
    destruct (tag_follows s); by constructor.
  - apply neutralize_untouched, has_tag_neutralized.
Qed.
