(* ===== verification/ChannelWire.v ===== *)
(** * ChannelWire: the data channels exchange and store

    peko-rs/protocol/src/channel.rs (ids, events, rosters), the data types and
    pure functions of peko-rs/channel/src/port.rs, and the directory names of
    peko-rs/channel/src/fs.rs.  Times are the RFC 3339 strings the code stores;
    the SHA-256 of pair ids is a parameter. *)

From Stdlib Require Import ZArith Lia Ascii.
From stdpp Require Import base tactics list gmap strings.
From S2P Require Import Prelude Text Subject Plan.

Local Open Scope nat_scope.

(** ** Channel ids *)

Definition ChannelId : Type := string.

Inductive ChannelKind := CBare | CPrincipal | CUser | CGroup.

Definition channel_kind_prefix (k : ChannelKind) : string :=
  match k with
  | CBare => "chan_" | CPrincipal => "principal:" | CUser => "user:" | CGroup => "group:"
  end.

Inductive ConversationKind := Dm | Group.

#[export] Instance ConversationKind_eq_dec : EqDecision ConversationKind.
Proof. solve_decision. Defined.

Definition conversation_kind_as_str (k : ConversationKind) : string :=
  match k with Dm => "dm" | Group => "group" end.
Definition conversation_kind_parse (s : string) : option ConversationKind :=
  if decide (s = "dm") then Some Dm else if decide (s = "group") then Some Group else None.

Definition CHANNEL_PREFIX : string := "chan_".
Definition SUFFIX_LEN : nat := 8.

(** [generate_base36_suffix] mixes clock, counter and process id as
    [rand_u32] does. *)
Definition generate (now pid ctr : Z) : ChannelId := CHANNEL_PREFIX +:+ base36_id (rand_u32 now pid ctr).

Definition for_principal (did : string) : ChannelId := "principal:" +:+ did.
Definition for_user (id : string) : ChannelId := "user:" +:+ id.
Definition for_group (slug : string) : ChannelId := "group:" +:+ slug.

Definition channel_kind (id : ChannelId) : ChannelKind :=
  if starts_with "principal:" id then CPrincipal
  else if starts_with "user:" id || starts_with "visitor:" id then CUser
  else if starts_with "group:" id then CGroup
  else CBare.

(** [u8::is_ascii_hexdigit], [is_ascii_uppercase], [is_ascii_lowercase]. *)
Definition byte_in (lo hi : nat) (c : ascii) : bool :=
  Nat.leb lo (nat_of_ascii c) && Nat.leb (nat_of_ascii c) hi.
Definition is_hexdigit (c : ascii) : bool := byte_in 48 57 c || byte_in 65 70 c || byte_in 97 102 c.
Definition is_lower (c : ascii) : bool := byte_in 97 122 c.
Definition is_lower_hex (c : ascii) : bool := is_hexdigit c && negb (is_upper c).

Definition parse_chan (rest : string) : option ChannelId :=
  if negb (Nat.eqb (String.length rest) SUFFIX_LEN) then None
  else if negb (all_bytes is_lower_hex rest) && negb (all_bytes (fun c => is_digit c || is_lower c) rest)
  then None
  else Some (CHANNEL_PREFIX +:+ rest).

Definition parse_typed (prefix rest : string) : option ChannelId :=
  if decide (rest = "") then None else Some (prefix +:+ rest).

Definition channel_parse (s : string) : option ChannelId :=
  match strip_prefix "dm_" s with
  | Some hash => if Nat.eqb (String.length hash) 64 && all_bytes is_lower_hex hash then Some s else None
  | None =>
  match strip_prefix CHANNEL_PREFIX s with
  | Some rest => parse_chan rest
  | None =>
  match strip_prefix (channel_kind_prefix CPrincipal) s with
  | Some rest => parse_typed (channel_kind_prefix CPrincipal) rest
  | None =>
  match strip_prefix "visitor:" s with
  | Some rest => parse_typed "visitor:" rest
  | None =>
  match strip_prefix (channel_kind_prefix CUser) s with
  | Some rest => parse_typed (channel_kind_prefix CUser) rest
  | None =>
  match strip_prefix (channel_kind_prefix CGroup) s with
  | Some rest => parse_typed (channel_kind_prefix CGroup) rest
  | None => None
  end end end end end end.

Definition is_pair_id (id : ChannelId) : bool := starts_with "dm_" id && is_some (channel_parse id).

(** ** Directory names *)

Definition MARKER : string := ".3A.".
Definition channel_dir_name (id : ChannelId) : string := replace id ":" MARKER.
Definition channel_dir_name_inverse (s : string) : option ChannelId := channel_parse (replace s MARKER ":").
Definition id_needs_colon_normalization (id : ChannelId) : bool :=
  match channel_kind id with CBare => false | _ => true end.

(** ** Events *)

Record Attachment := {
  att_name : string;
  att_path : string;
  att_mime : string;
  att_size : Z;
  att_sha256 : option string;
}.

Record Post := {
  p_channel : ChannelId;
  p_author : string;
  p_parent : option string;
  p_text : string;
  p_at : string;
  p_via : option string;
  p_msg_id : option string;
  p_reply_to : option string;
  p_attachments : list Attachment;
  p_options : list string;
  p_model : option string;
}.

Inductive ChannelEvent :=
  | Created (channel : ChannelId) (creator name at_ : string)
  | Posted (post : Post)
  | MemberJoined (channel : ChannelId) (member at_ : string)
  | MemberLeft (channel : ChannelId) (member at_ : string)
  | Received (channel : ChannelId) (request_ids : list string) (at_ : string).

#[export] Instance Attachment_eq_dec : EqDecision Attachment.
Proof. solve_decision. Defined.
#[export] Instance Post_eq_dec : EqDecision Post.
Proof. solve_decision. Defined.
#[export] Instance ChannelEvent_eq_dec : EqDecision ChannelEvent.
Proof. solve_decision. Defined.

Definition event_kind (e : ChannelEvent) : string :=
  match e with
  | Created _ _ _ _ => "created" | Posted _ => "posted" | MemberJoined _ _ _ => "member_joined"
  | MemberLeft _ _ _ => "member_left" | Received _ _ _ => "received"
  end.
Definition event_time (e : ChannelEvent) : string :=
  match e with
  | Created _ _ _ t | MemberJoined _ _ t | MemberLeft _ _ t | Received _ _ t => t
  | Posted p => p_at p
  end.
Definition event_channel (e : ChannelEvent) : ChannelId :=
  match e with
  | Created c _ _ _ | MemberJoined c _ _ | MemberLeft c _ _ | Received c _ _ => c
  | Posted p => p_channel p
  end.

Record MemberProvenance := { mp_principal : string; mp_runtime_id : option string }.

Record ChannelMembership := {
  cm_channel : ChannelId;
  cm_name : string;
  cm_creator : string;
  cm_members : list string;
  cm_provenance : list MemberProvenance;
  cm_created_at : string;
  cm_last_change : option string;
}.

Record InitialMember := {
  im_principal_did : string;
  im_hub_id : option string;
  im_identity_key : option string;
  im_name : option string;
  im_runtime_id : option string;
}.

(** ** The port's data *)

Inductive ChannelError :=
  | NotFound (channel : ChannelId)
  | NotMember
  | CursorError (msg : string)
  | FanOutCap (current : nat)
  | Adapter (msg : string).

Inductive Tier := Runtime | Shared.
#[export] Instance Tier_eq_dec : EqDecision Tier.
Proof. solve_decision. Defined.

Inductive WakePolicy := WakeHuman | WakeMention | WakeOff.
#[export] Instance WakePolicy_eq_dec : EqDecision WakePolicy.
Proof. solve_decision. Defined.

Definition default_for (k : ConversationKind) : WakePolicy :=
  match k with Dm => WakeHuman | Group => WakeMention end.
Definition wake_as_str (w : WakePolicy) : string :=
  match w with WakeHuman => "human" | WakeMention => "mention" | WakeOff => "off" end.
Definition wake_parse (s : string) : option WakePolicy :=
  if decide (s = "human") then Some WakeHuman
  else if decide (s = "mention") then Some WakeMention
  else if decide (s = "off") then Some WakeOff else None.

Record Binding := { b_session : string; b_wake : WakePolicy; b_role : option string }.
#[export] Instance Binding_eq_dec : EqDecision Binding.
Proof. solve_decision. Defined.
Definition binding_new (session : string) (wake : WakePolicy) : Binding :=
  {| b_session := session; b_wake := wake; b_role := None |}.
Definition with_role (b : Binding) (role : option string) : Binding :=
  {| b_session := b_session b; b_wake := b_wake b; b_role := role |}.

Record RemoteMember := { rm_runtime_id : string; rm_principal_id : string }.
#[export] Instance RemoteMember_eq_dec : EqDecision RemoteMember.
Proof. solve_decision. Defined.

Record PostMsg := {
  m_text : string;
  m_parent : option string;
  m_via : option string;
  m_msg_id : option string;
  m_attachments : list Attachment;
  m_options : list string;
  m_model : option string;
}.
Definition post_root (text : string) : PostMsg :=
  {| m_text := text; m_parent := None; m_via := None; m_msg_id := None;
     m_attachments := []; m_options := []; m_model := None |}.
Definition post_reply (parent text : string) : PostMsg :=
  {| m_text := text; m_parent := Some parent; m_via := None; m_msg_id := None;
     m_attachments := []; m_options := []; m_model := None |}.

Record CreateOpts := {
  o_name : string;
  o_tier : Tier;
  o_id : option ChannelId;
  o_kind : ConversationKind;
}.
Definition opts_runtime (name : string) : CreateOpts :=
  {| o_name := name; o_tier := Runtime; o_id := None; o_kind := Group |}.
Definition opts_shared (name : string) : CreateOpts :=
  {| o_name := name; o_tier := Shared; o_id := None; o_kind := Group |}.
Definition with_kind (o : CreateOpts) (k : ConversationKind) : CreateOpts :=
  {| o_name := o_name o; o_tier := o_tier o; o_id := o_id o; o_kind := k |}.
Definition with_id (o : CreateOpts) (id : ChannelId) : CreateOpts :=
  {| o_name := o_name o; o_tier := o_tier o; o_id := Some id; o_kind := o_kind o |}.

Definition TaskId : Type := string.

Record TailPage := { tp_events : list (TaskId * ChannelEvent); tp_has_more : bool }.

Record ChannelQuery := {
  q_text : option string;
  q_author : option string;
  q_before : option TaskId;
  q_limit : nat;
}.

Record SearchPage := {
  sp_events : list (TaskId * ChannelEvent);
  sp_has_more : bool;
  sp_resume_before : option TaskId;
}.

(** [query_matches]; lowercasing is Unicode's, a parameter. *)
Definition query_matches (lower : string -> string) (ev : ChannelEvent) (needle author : option string) : bool :=
  match ev with
  | Posted p =>
      match needle with Some n => contains_str n (lower (p_text p)) | None => true end
      && match author with Some want => String.eqb (p_author p) want | None => true end
  | _ => false
  end.

(** ** Suggested replies *)

Definition MIN_OPTIONS : nat := 2.
Definition MAX_OPTIONS : nat := 4.
Definition MAX_OPTION_CHARS : nat := 60.

Inductive OptionsError :=
  | WrongCount (n : nat)
  | EmptyOption
  | SpansLines (option_ : string)
  | TooLong (option_ : string)
  | OfferedTwice (option_ : string).

Fixpoint validate_each (options out : list string) : result (list string) OptionsError :=
  match options with
  | [] => Ok out
  | o :: rest =>
      let o := trim o in
      if decide (o = "") then Err EmptyOption
      else if str_has LF o || str_has CR o then Err (SpansLines o)
      else if Nat.ltb MAX_OPTION_CHARS (length (chars o)) then Err (TooLong o)
      else if existsb (String.eqb o) out then Err (OfferedTwice o)
      else validate_each rest (out ++ [o])
  end.

Definition validate_options (options : list string) : result (list string) OptionsError :=
  match options with
  | [] => Ok []
  | _ => if negb (Nat.leb MIN_OPTIONS (length options) && Nat.leb (length options) MAX_OPTIONS)
         then Err (WrongCount (length options))
         else validate_each options []
  end.

(** ** A post as it leaves the runtime *)

Definition without_path (a : Attachment) : Attachment :=
  {| att_name := att_name a; att_path := ""; att_mime := att_mime a;
     att_size := att_size a; att_sha256 := att_sha256 a |}.
Definition portable_post (event : ChannelEvent) (author : string) : ChannelEvent :=
  match event with
  | Posted p =>
      Posted {| p_channel := p_channel p; p_author := author; p_parent := None; p_text := p_text p;
                p_at := p_at p; p_via := None; p_msg_id := p_msg_id p; p_reply_to := p_reply_to p;
                p_attachments := map without_path (p_attachments p);
                p_options := p_options p; p_model := p_model p |}
  | other => other
  end.

(** ** Pair ids *)

(** [u64::to_be_bytes]. *)
Fixpoint be_bytes (width : nat) (n : N) : string :=
  match width with
  | O => ""
  | S w => be_bytes w (n / 256) +:+ String (ascii_of_N (n mod 256)) ""
  end.
Definition with_length (address : string) : string :=
  be_bytes 8 (N.of_nat (String.length address)) +:+ address.
Definition pair_of (a b : string) : string * string := if String.leb a b then (a, b) else (b, a).
Definition DM_TAG : string := "peko-dm-v1" +:+ String "000" "".
Definition pair_text (a b : string) : string :=
  let '(a, b) := pair_of a b in
  DM_TAG +:+ (with_length a +:+ with_length b).
Definition dm_channel_id (sha256 : string -> string) (a b : string) : ChannelId :=
  "dm_" +:+ sha256 (pair_text a b).

(** ** Lemmas *)

(** *** Ids *)

Lemma parse_typed_id prefix rest s id :
  strip_prefix prefix s = Some rest -> parse_typed prefix rest = Some id -> id = s.
Proof.
  intros ->%strip_prefix_Some. unfold parse_typed. case_decide; [done|]. by intros [= <-].
Qed.

Lemma channel_parse_id s id : channel_parse s = Some id -> id = s.
Proof.
  unfold channel_parse.
  destruct (strip_prefix "dm_" s) as [h|] eqn:E; [case_match; naive_solver|].
  destruct (strip_prefix CHANNEL_PREFIX s) as [r|] eqn:E1.
  { apply strip_prefix_Some in E1 as ->. unfold parse_chan. repeat case_match; naive_solver. }
  do 4 (case_match; [by eapply parse_typed_id|]). done.
Qed.

Lemma all_base36_digit v : is_digit (base36_digit v) || is_lower (base36_digit v) = true.
Proof.
  unfold base36_digit. pose proof (Z.mod_pos_bound v 36 eq_refl) as H.
  set (k := Z.to_nat (v mod 36)). assert (Hk : k < 36) by lia. clearbody k. clear H.
  do 36 (destruct k as [|k]; [reflexivity|]). lia.
Qed.

Lemma base36_fill_spec k v acc :
  String.length (base36_fill k v acc) = k + String.length acc /\
  (all_bytes (fun c => is_digit c || is_lower c) acc = true ->
   all_bytes (fun c => is_digit c || is_lower c) (base36_fill k v acc) = true).
Proof.
  revert v acc. induction k as [|k IH]; intros v acc; cbn [base36_fill]; [done|].
  destruct (IH (v / 36)%Z (String (base36_digit v) acc)) as [H1 H2].
  split; [rewrite H1; cbn; lia|]. intros Ha. apply H2. cbn [all_bytes].
  by rewrite all_base36_digit.
Qed.

(** A digest: 64 lower-case hexadecimal digits. *)
Definition hex_digest (s : string) : Prop := String.length s = 64 /\ all_bytes is_lower_hex s = true.

Lemma dm_id_is_pair s : is_pair_id ("dm_" +:+ s) = true <-> hex_digest s.
Proof.
  unfold is_pair_id, channel_parse, hex_digest. rewrite strip_prefix_app.
  replace (starts_with "dm_" ("dm_" +:+ s)) with true by (symmetry; apply starts_with_true; eauto).
  destruct (Nat.eqb (String.length s) 64) eqn:E1, (all_bytes is_lower_hex s) eqn:E2; cbn;
    rewrite ?Nat.eqb_eq, ?Nat.eqb_neq in E1; naive_solver.
Qed.

(** *** Directory names *)

Lemma dir_name_nil : channel_dir_name "" = "".
Proof. done. Qed.
Lemma dir_name_colon s : channel_dir_name (String ":" s) = MARKER +:+ channel_dir_name s.
Proof. exact (replace_match ":" MARKER s ltac:(done)). Qed.
Lemma dir_name_other c s : c <> ":"%char -> channel_dir_name (String c s) = String c (channel_dir_name s).
Proof.
  intros H. apply replace_miss. apply strip_prefix_None. cbn [strip_prefix].
  by rewrite decide_False by congruence.
Qed.

(** The first byte of a directory name. *)
Lemma dir_name_head c s r :
  channel_dir_name s = String c r ->
  (exists s', s = String ":" s' /\ c = "."%char /\ r = "3A." +:+ channel_dir_name s') \/
  (exists s', s = String c s' /\ c <> ":"%char /\ r = channel_dir_name s').
Proof.
  destruct s as [|a s]; [done|]. destruct (decide (a = ":"%char)) as [->|H].
  - rewrite dir_name_colon. intros [= <- <-]. left. by exists s.
  - rewrite dir_name_other by done. intros [= <- <-]. right. by exists s.
Qed.

(** No marker appears in a directory name except those written for colons,
    unless the id holds a marker, or one cut short by a colon. *)
Definition marker_free (id : string) : bool :=
  negb (contains_str MARKER id) && negb (contains_str ".3A:" id).

Lemma marker_free_cons c s : marker_free (String c s) = true ->
  marker_free s = true /\ starts_with MARKER (String c s) = false /\ starts_with ".3A:" (String c s) = false.
Proof.
  unfold marker_free. cbn [contains_str]. rewrite !andb_true_iff, !negb_true_iff, !orb_false_iff. tauto.
Qed.

Lemma dir_name_no_marker c s :
  c <> ":"%char -> starts_with MARKER (String c s) = false -> starts_with ".3A:" (String c s) = false ->
  starts_with MARKER (String c (channel_dir_name s)) = false.
Proof.
  intros Hc H1 H2. apply not_true_iff_false. intros [r H]%starts_with_true.
  injection H as -> H. change (channel_dir_name s = String "3" ("A." +:+ r)) in H.
  destruct (dir_name_head _ _ _ H) as [(s1 & _ & ? & _)|(s1 & -> & _ & H3)]; [done|].
  destruct (dir_name_head _ _ _ (eq_sym H3)) as [(s2 & _ & ? & _)|(s2 & -> & _ & H4)]; [done|].
  destruct (dir_name_head _ _ _ (eq_sym H4)) as [(s3 & -> & _ & _)|(s3 & -> & _ & _)].
  - apply not_true_iff_false in H2. apply H2, starts_with_true. by exists s3.
  - apply not_true_iff_false in H1. apply H1, starts_with_true. by exists s3.
Qed.

Lemma dir_name_inverse id : marker_free id = true -> replace (channel_dir_name id) MARKER ":" = id.
Proof.
  induction id as [|c id IH]; [done|]. intros (Hf & H1 & H2)%marker_free_cons.
  destruct (decide (c = ":"%char)) as [->|Hc].
  - rewrite dir_name_colon, replace_match by done. by rewrite IH.
  - rewrite dir_name_other, replace_miss by auto using dir_name_no_marker. by rewrite IH.
Qed.

(** *** Pair ids *)

Lemma be_bytes_length w n : String.length (be_bytes w n) = w.
Proof. revert n. induction w as [|w IH]; intros n; [done|]. cbn [be_bytes]. rewrite length_app_str, IH. cbn; lia. Qed.

Lemma app_inj_length_str a b c d :
  String.length a = String.length c -> a +:+ b = c +:+ d -> a = c /\ b = d.
Proof.
  revert c. induction a as [|x a IH]; intros [|y c] Hl; try done.
  rewrite !app_cons_str. intros [= -> H]. destruct (IH c) as [-> ->]; auto.
Qed.

Lemma be_bytes_inj w n m :
  (n < 256 ^ N.of_nat w)%N -> (m < 256 ^ N.of_nat w)%N -> be_bytes w n = be_bytes w m -> n = m.
Proof.
  revert n m. induction w as [|w IH]; intros n m; [cbn; lia|].
  rewrite Nnat.Nat2N.inj_succ, N.pow_succ_r' . intros Hn Hm. cbn [be_bytes].
  intros [H1 H2]%app_inj_length_str; [|by rewrite !be_bytes_length].
  assert (n / 256 = m / 256)%N by (apply IH; try apply N.Div0.div_lt_upper_bound; lia || done).
  injection H2 as H2. apply (f_equal N_of_ascii) in H2.
  rewrite !N_ascii_embedding in H2 by (by apply N.mod_lt).
  pose proof (N.div_mod' n 256). pose proof (N.div_mod' m 256). lia.
Qed.

(** [a] fits in memory: its length is a [u64]. *)
Definition fits (a : string) : Prop := (Z.of_nat (String.length a) <= u64_max)%Z.

Lemma with_length_inj a b s t : fits a -> fits b ->
  with_length a +:+ s = with_length b +:+ t -> a = b /\ s = t.
Proof.
  unfold with_length, fits, u64_max. intros Ha Hb. rewrite <- !app_assoc_str.
  intros [Hl H]%app_inj_length_str; [|by rewrite !be_bytes_length].
  apply be_bytes_inj in Hl; [|cbn; lia..]. apply app_inj_length_str in H; [done|lia].
Qed.

Lemma pair_of_comm a b : pair_of a b = pair_of b a.
Proof.
  unfold pair_of. destruct (String.leb a b) eqn:E1, (String.leb b a) eqn:E2; try done.
  - by rewrite (String.leb_antisym _ _ E1 E2).
  - destruct (String.leb_total a b); congruence.
Qed.

Lemma pair_of_inj a b c d : pair_of a b = pair_of c d -> (a = c /\ b = d) \/ (a = d /\ b = c).
Proof. unfold pair_of. repeat case_match; intros [= -> ->]; auto. Qed.

Lemma pair_text_inj a b c d : fits a -> fits b -> fits c -> fits d ->
  pair_text a b = pair_text c d -> (a = c /\ b = d) \/ (a = d /\ b = c).
Proof.
  intros Ha Hb Hc Hd. unfold pair_text. destruct (pair_of a b) as [x y] eqn:E1, (pair_of c d) as [z w] eqn:E2.
  assert (fits x /\ fits y /\ fits z /\ fits w) as (Hx & Hy & Hz & Hw)
    by (unfold pair_of in *; repeat case_match; naive_solver).
  intros H%app_inj_l_str. apply with_length_inj in H as [-> H]; [|done..].
  rewrite <- (app_nil_r_str (with_length y)), <- (app_nil_r_str (with_length w)) in H.
  apply with_length_inj in H as [-> _]; [|done..]. apply pair_of_inj. congruence.
Qed.

(** *** Suggested replies *)

(** An option as readers see it: 1 to 60 characters on one line. *)
Definition option_ok (o : string) : Prop :=
  o <> "" /\ str_has LF o = false /\ str_has CR o = false /\ length (chars o) <= MAX_OPTION_CHARS.

Lemma validate_each_exact options out res :
  NoDup out ->
  validate_each options out = Ok res <->
  res = out ++ map trim options /\ Forall option_ok (map trim options) /\ NoDup (out ++ map trim options).
Proof.
  revert out. induction options as [|o options IH]; intros out Hout; cbn [validate_each map].
  { rewrite app_nil_r. split; [intros [= <-]; auto | by intros [-> _]]. }
  set (t := trim o). rewrite Forall_cons.
  case_decide as He; [split; [done|]; by intros (_ & [(? & _) _] & _)|].
  destruct (str_has LF t) eqn:Hl; [split; [done|]; intros (_ & [(_ & ? & _) _] & _); congruence|].
  destruct (str_has CR t) eqn:Hr; [split; [done|]; intros (_ & [(_ & _ & ? & _) _] & _); congruence|].
  cbn [orb]. destruct (Nat.ltb MAX_OPTION_CHARS (length (chars t))) eqn:Hc.
  { apply Nat.ltb_lt in Hc. split; [done|]. intros (_ & [(_ & _ & _ & Ho) _] & _). lia. }
  apply Nat.ltb_ge in Hc. assert (Hok : option_ok t) by done.
  destruct (existsb (String.eqb t) out) eqn:Hx.
  - apply existsb_exists in Hx as (x & Hin & ->%String.eqb_eq). split; [done|].
    intros (_ & _ & Hnd). apply NoDup_app in Hnd as (_ & Hnd & _).
    exfalso. apply (Hnd x); [by apply list_elem_of_In|left].
  - rewrite IH, <- !app_assoc; [cbn [app]; naive_solver|].
    apply NoDup_app. split_and!; [done| |apply NoDup_singleton].
    intros x Hin ->%list_elem_of_singleton. apply not_true_iff_false in Hx. apply Hx, existsb_exists.
    exists t. rewrite String.eqb_refl. split; [by apply list_elem_of_In|done].
Qed.

(** ** Properties *)

(** Two pairs of actor keys have the same direct-message id only when they are
    the same pair in either order, or the hash collides on two texts the
    runtime hashes; the id does not depend on the order of the pair. *)
Theorem pair_id_names_pair (sha256 : string -> string) (a b c d : string) :
  fits a -> fits b -> fits c -> fits d ->
  dm_channel_id sha256 a b = dm_channel_id sha256 b a /\
  (dm_channel_id sha256 a b = dm_channel_id sha256 c d ->
   (a = c /\ b = d) \/ (a = d /\ b = c) \/
   (pair_text a b <> pair_text c d /\ sha256 (pair_text a b) = sha256 (pair_text c d))).
Proof.
  intros Ha Hb Hc Hd. split; [unfold dm_channel_id, pair_text; by rewrite pair_of_comm|].
  intros H%app_inj_l_str. destruct (decide (pair_text a b = pair_text c d)) as [E|E]; [|auto].
  destruct (pair_text_inj _ _ _ _ Ha Hb Hc Hd E); auto.
Qed.

Lemma pair_id_names_pair_witness :
  dm_channel_id (fun s => s) "user:hub:7" "did:key:z1" = dm_channel_id (fun s => s) "did:key:z1" "user:hub:7".
Proof.
  apply (pair_id_names_pair (fun s => s) "user:hub:7" "did:key:z1" "user:hub:7" "did:key:z1");
    unfold fits; vm_compute; discriminate.
Defined.

(** The directory a channel is kept in names that channel alone: an id without
    the marker, whole or cut short by a colon, reads back from its directory
    name, and no other such id has the same directory. *)
Theorem channel_dir_roundtrip (id : ChannelId) :
  channel_parse id = Some id -> marker_free id = true ->
  channel_dir_name_inverse (channel_dir_name id) = Some id /\
  (forall id', marker_free id' = true -> channel_dir_name id' = channel_dir_name id -> id' = id).
Proof.
  intros Hp Hf. split.
  - unfold channel_dir_name_inverse. by rewrite dir_name_inverse.
  - intros id' Hf' He. rewrite <- (dir_name_inverse id') by done. by rewrite He, dir_name_inverse.
Qed.

Lemma channel_dir_roundtrip_witness :
  channel_dir_name_inverse (channel_dir_name "principal:did:key:zAlice") = Some "principal:did:key:zAlice".
Proof. apply (channel_dir_roundtrip "principal:did:key:zAlice"); reflexivity. Defined.

(** Contrary to what [fs.rs] says of the two functions, the wire form is not
    always recoverable: an accepted group id that holds the marker shares its
    directory with another accepted id and reads back as that one.  A slug may
    hold slashes too, so that the name of a channel's directory is a path. *)
Theorem channel_dir_collision :
  channel_parse "group:a.3A.b" = Some "group:a.3A.b" /\
  channel_parse "group:a:b" = Some "group:a:b" /\
  channel_dir_name "group:a.3A.b" = channel_dir_name "group:a:b" /\
  channel_dir_name_inverse (channel_dir_name "group:a.3A.b") = Some "group:a:b" /\
  channel_parse "group:/../../x" = Some "group:/../../x" /\
  channel_dir_name "group:/../../x" = "group.3A./../../x".
Proof. repeat split. Qed.

(** A generated id is accepted by the parser, is a plain channel and no pair. *)
Theorem generated_id_parses (now pid ctr : Z) :
  channel_parse (generate now pid ctr) = Some (generate now pid ctr) /\
  channel_kind (generate now pid ctr) = CBare /\ is_pair_id (generate now pid ctr) = false.
Proof.
  unfold generate. set (v := rand_u32 now pid ctr).
  destruct (base36_fill_spec ID_SUFFIX_LEN v "") as [Hl Ha]. specialize (Ha eq_refl).
  assert (Hp : channel_parse (CHANNEL_PREFIX +:+ base36_id v) = Some (CHANNEL_PREFIX +:+ base36_id v)).
  { unfold channel_parse. replace (strip_prefix "dm_" (CHANNEL_PREFIX +:+ base36_id v)) with (@None string) by done.
    rewrite strip_prefix_app. unfold parse_chan, base36_id. rewrite Hl, Ha. cbn [negb Nat.eqb]. by rewrite andb_false_r. }
  split_and!; [done..|]. reflexivity.
Qed.

(** Suggested replies are accepted exactly when there are none, or two to four
    that differ and, trimmed, are one line of 1 to 60 characters each; accepted
    ones are stored trimmed, in order. *)
Theorem validate_options_exact (options res : list string) :
  validate_options options = Ok res <->
  res = map trim options /\
  (options = [] \/ (MIN_OPTIONS <= length options <= MAX_OPTIONS /\
                   Forall option_ok (map trim options) /\ NoDup (map trim options))).
Proof.
  unfold validate_options. destruct options as [|o options]; [naive_solver|].
  destruct (Nat.leb_spec MIN_OPTIONS (length (o :: options))), (Nat.leb_spec (length (o :: options)) MAX_OPTIONS);
    cbn [andb negb]; try (split; [done|]; intros [_ [?|[? _]]]; [done|lia]).
  rewrite validate_each_exact by apply NoDup_nil_2. cbn [app]. naive_solver.
Qed.
