(* ===== verification/Actors.v ===== *)
(** * Actors: the registry of known actors

    The identities of peko-rs/channel/src/port.rs ([ActorInfo]) and the actor
    registry of peko-rs/channel/src/store.rs: the records of [actors.json], the
    index by alias kept in memory, and every operation that changes them.  The
    file holds the list of records; a read that finds no file reads none.  A
    call that would panic ends in [Panics]. *)

From Stdlib Require Import ZArith Lia Ascii Sorting.Sorted.
From stdpp Require Import base tactics list gmap strings.
From S2P Require Import Prelude Text Subject ChannelWire.

Local Open Scope nat_scope.
Open Scope rust_scope.

(** ** Identities *)

Inductive Registration := LocalOnly | Private | PublicReg | Registered.
#[export] Instance Registration_eq_dec : EqDecision Registration.
Proof. solve_decision. Defined.

Definition registration_as_str (r : Registration) : string :=
  match r with
  | LocalOnly => "local_only" | Private => "private" | PublicReg => "public" | Registered => "registered"
  end.
Definition is_registered (r : Registration) : bool :=
  match r with LocalOnly => false | _ => true end.
Definition registration_of_text (t : string) : Registration :=
  if decide (t = "private") then Private
  else if decide (t = "public") then PublicReg
  else if decide (t = "registered") then Registered
  else LocalOnly.

Record ActorInfo := {
  address : string;
  local_id : option string;
  hub_id : option string;
  info_kind : string;
  registration : Registration;
  identity_key : string;
  info_name : option string;
  mention : option string;
}.
#[export] Instance ActorInfo_eq_dec : EqDecision ActorInfo.
Proof. solve_decision. Defined.

Definition from_subject (subject : ActorRef) (name : option string) : ActorInfo :=
  let address_ := canonical_address subject in
  let route := actor_route subject in
  {| address := address_;
     local_id := match route with
                 | Some r => if route_is_hub r then None
                             else Some (match route_runtime r with
                                        | Some runtime => route_id r +:+ "@" +:+ runtime
                                        | None => route_id r
                                        end)
                 | None => None
                 end;
     hub_id := match route with
               | Some r => if route_is_hub r then Some (route_id r) else None
               | None => None
               end;
     info_kind := kind_display (actor_kind subject);
     registration := match route with
                     | Some r => if route_is_hub r then Registered else LocalOnly
                     | None => LocalOnly
                     end;
     identity_key := address_;
     info_name := name;
     mention := match subject with Principal _ => Some ("@" +:+ address_) | _ => None end |}.

Definition with_hub_id (i : ActorInfo) (h : option string) : ActorInfo :=
  {| address := address i; local_id := local_id i; hub_id := h; info_kind := info_kind i;
     registration := registration i; identity_key := identity_key i; info_name := info_name i;
     mention := mention i |}.
Definition with_registration (i : ActorInfo) (r : Registration) : ActorInfo :=
  {| address := address i; local_id := local_id i; hub_id := hub_id i; info_kind := info_kind i;
     registration := r; identity_key := identity_key i; info_name := info_name i; mention := mention i |}.
Definition with_key (i : ActorInfo) (k : string) : ActorInfo :=
  {| address := address i; local_id := local_id i; hub_id := hub_id i; info_kind := info_kind i;
     registration := registration i; identity_key := k; info_name := info_name i; mention := mention i |}.
Definition with_local (i : ActorInfo) (l : option string) (a : string) (m : option string) : ActorInfo :=
  {| address := a; local_id := l; hub_id := hub_id i; info_kind := info_kind i;
     registration := registration i; identity_key := identity_key i; info_name := info_name i; mention := m |}.
Definition with_name (i : ActorInfo) (n : option string) : ActorInfo :=
  {| address := address i; local_id := local_id i; hub_id := hub_id i; info_kind := info_kind i;
     registration := registration i; identity_key := identity_key i; info_name := n; mention := mention i |}.

Definition actor_kind_text (k : string) : bool :=
  String.eqb k "principal" || String.eqb k "user" || String.eqb k "visitor".
(** An id the registry refuses: empty or holding a colon. *)
Definition bad_id (id : string) : bool := String.eqb id "" || str_has ":" id.
Definition opt_bad (o : option string) : bool := match o with Some id => bad_id id | None => false end.

Definition bind_hub_id (i : ActorInfo) (hub : option string) : result ActorInfo ChannelError :=
  if negb (actor_kind_text (info_kind i))
     || (negb (is_some (local_id i)) && negb (is_some (hub_id i)))
     || opt_bad (local_id i) || opt_bad (hub_id i) || opt_bad hub
  then Err (Adapter "Invalid actor identity")
  else match local_id i with
       | None => if is_some hub && negb (bool_decide (hub_id i = hub))
                 then Err (Adapter "Hub reference and identity disagree")
                 else Ok i
       | Some _ => Ok (with_hub_id i hub)
       end.

Definition hub_text (kind hub : string) : string := kind +:+ ":hub:" +:+ hub.
Definition hub_address (i : ActorInfo) : option string := hub_text (info_kind i) <$> hub_id i.

Definition dm_key (i : ActorInfo) : string :=
  match hub_id i with
  | Some hub => if String.eqb (info_kind i) "user" && starts_with "local@" (identity_key i)
                then "user:hub:" +:+ hub else identity_key i
  | None => identity_key i
  end.

(** [ActorInfo::subject]; [None] where the code is unreachable. *)
Definition subject_of (i : ActorInfo) : option ActorRef :=
  let route := match local_id i, hub_id i with
               | Some id, _ => Some (route_parse ("local:" +:+ id))
               | None, Some hub => Some (route_hub hub)
               | None, None => None
               end in
  match route with
  | None => None
  | Some route =>
      if String.eqb (info_kind i) "user" then Some (User route)
      else if String.eqb (info_kind i) "visitor" then Some (Visitor route)
      else if String.eqb (info_kind i) "principal" then Some (Principal route)
      else None
  end.

(** [short_name_unambiguous]; names are compared without ASCII case. *)
Definition is_me (addr : string) (p : ActorInfo) : bool :=
  String.eqb (address p) addr
  || bool_decide (local_id p = Some (default addr (or_else (strip_prefix "principal:local:" addr)
                                                           (strip_prefix "principal:" addr)))).
Definition short_name_unambiguous (roster : list ActorInfo) (name addr : string) : bool :=
  forallb (fun p => is_me addr p || is_some (info_name p))
          (List.filter (fun p => starts_with "principal:" (address p)) roster)
  && Nat.eqb 1 (length (List.filter (fun p => is_me addr p
       || match info_name p with
          | Some n => String.eqb (to_ascii_lowercase n) (to_ascii_lowercase name)
          | None => false
          end) roster)).

(** ** Records *)

Record ActorRecord := {
  info : ActorInfo;
  rec_key : string;
  signing_did : option string;
  historical_aliases : gset string;
}.

Definition opt_list {A} (o : option A) : list A := match o with Some x => [x] | None => [] end.

Definition aliases (r : ActorRecord) : list string :=
  [address (info r)]
  ++ match local_id (info r) with
     | Some id => [info_kind (info r) +:+ ":" +:+ id]
                  ++ (if String.eqb (info_kind (info r)) "principal" then [id] else [])
     | None => []
     end
  ++ opt_list (hub_address (info r))
  ++ match signing_did r with Some did => [did; "principal:" +:+ did] | None => [] end
  ++ elements (historical_aliases r).

Definition rec_info (r : ActorRecord) : ActorInfo := with_key (info r) (rec_key r).

Definition remember_aliases (r : ActorRecord) : gset string :=
  historical_aliases r ∪ list_to_set (aliases r).

(** [ActorRecord::unhost]; [None] where it panics. *)
Definition unhost (r : ActorRecord) : option ActorRecord :=
  match hub_id (info r) with
  | None => None
  | Some hub =>
      match actor_from_str (hub_text (info_kind (info r)) hub) with
      | Err _ => None
      | Ok subject =>
          Some {| info := with_registration (from_subject subject (info_name (info r))) (registration (info r));
                  rec_key := rec_key r; signing_did := signing_did r;
                  historical_aliases := remember_aliases r |}
      end
  end.

Definition is_local_user (r : ActorRecord) : bool :=
  String.eqb (info_kind (info r)) "user" && starts_with "local@" (rec_key r).

Definition local_user : ActorRef := User (route_local "local").

Definition rehost_local_user (r : ActorRecord) : ActorRecord :=
  let i := from_subject local_user (info_name (info r)) in
  {| info := with_registration (with_hub_id i (hub_id (info r))) (registration (info r));
     rec_key := rec_key r; signing_did := signing_did r; historical_aliases := remember_aliases r |}.

(** ** The file and the index *)

(** [actor_index]: of two records with an alias the later wins. *)
Definition index_record (m : gmap string ActorRecord) (r : ActorRecord) : gmap string ActorRecord :=
  foldl (fun m a => <[a := r]> m) m (aliases r).
Definition actor_index (records : list ActorRecord) : gmap string ActorRecord := foldl index_record ∅ records.

Definition expected_address (i : ActorInfo) : option string :=
  match local_id i with
  | Some id => Some (info_kind i +:+ ":local:" +:+ id)
  | None => hub_address i
  end.
(** The check of [load_actors] on one record. *)
Definition check_record (r : ActorRecord) : result () ChannelError :=
  i <-? bind_hub_id (info r) (hub_id (info r));
  if bool_decide (Some (address i) = expected_address i) then Ok ()
  else Err (Adapter "Actor address does not match its IDs").
Fixpoint check_records (l : list ActorRecord) : result () ChannelError :=
  match l with [] => Ok () | r :: l => _ <-? check_record r; check_records l end.
Definition load_actors (file : list ActorRecord) : result (list ActorRecord) ChannelError :=
  _ <-? check_records file; Ok file.

Record Registry := { reg_file : list ActorRecord; reg_index : gmap string ActorRecord }.
Definition written (records : list ActorRecord) : Registry :=
  {| reg_file := records; reg_index := actor_index records |}.

Inductive Fault := Fails (e : ChannelError) | Panics (msg : string).
Definition fails {A} (r : result A ChannelError) : result A Fault :=
  match r with Ok a => Ok a | Err e => Err (Fails e) end.

(** [ChannelStore::new] on an existing file. *)
Definition open_registry (file : list ActorRecord) : result Registry Fault :=
  match load_actors file with
  | Ok records => Ok (written records)
  | Err _ => Err (Panics "actor registry must be readable")
  end.

(** ** Reading *)

(** [key_of]: the index is read again; an unreadable file leaves the last. *)
Definition reread (g : Registry) : Registry :=
  match load_actors (reg_file g) with
  | Ok records => written records
  | Err _ => g
  end.
Definition lookup_key (ix : gmap string ActorRecord) (subject : ActorRef) : string :=
  match or_else (ix !! actor_display subject) (ix !! canonical_address subject) with
  | Some r => rec_key r
  | None => canonical_address subject
  end.
Definition registry_key_of (g : Registry) (subject : ActorRef) : string :=
  lookup_key (reg_index (reread g)) subject.
Definition registry_keys (g : Registry) : ActorKeys := registry_key_of g.

(** [actor_info]; an unreadable file panics. *)
Definition lookup_info (ix : gmap string ActorRecord) (subject : ActorRef) : ActorInfo :=
  match ix !! actor_display subject with
  | Some r => rec_info r
  | None => from_subject subject None
  end.
Definition actor_info (g : Registry) (subject : ActorRef) : result ActorInfo Fault :=
  match load_actors (reg_file g) with
  | Ok records => Ok (lookup_info (actor_index records) subject)
  | Err _ => Err (Panics "actor registry must be readable")
  end.

Definition known_actors (g : Registry) : result (list ActorInfo) ChannelError :=
  records <-? load_actors (reg_file g);
  Ok (sort_by (fun a b => String.leb (address a) (address b)) (map rec_info records)).

Definition resolve_actor (g : Registry) (reference : string) : result ActorInfo ChannelError :=
  match parse_scoped reference with
  | Err _ => Err (Adapter "Use kind:local:<id> or kind:hub:<id>")
  | Ok _ =>
      records <-? load_actors (reg_file g);
      match actor_index records !! reference with
      | Some r => if String.eqb (address (info r)) reference
                     || bool_decide (hub_address (info r) = Some reference)
                  then Ok (rec_info r)
                  else Err (Adapter ("Unknown actor " +:+ reference +:+ "; resolve it through Contacts"))
      | None => Err (Adapter ("Unknown actor " +:+ reference +:+ "; resolve it through Contacts"))
      end
  end.

(** [canonical_address] of the store: the index as it is, then the text. *)
Definition store_address (ix : gmap string ActorRecord) (a : string) : string :=
  match ix !! a with
  | Some r => address (info r)
  | None =>
      if starts_with "did:" a then "principal:" +:+ a
      else match actor_from_str a with
           | Ok s => address (from_subject s None)
           | Err _ => a
           end
  end.

Definition former_local_id (g : Registry) (key : string) : result (option string) ChannelError :=
  records <-? load_actors (reg_file g);
  Ok (match List.find (fun r => String.eqb (info_kind (info r)) "principal" && String.eqb (rec_key r) key) records with
      | None => None
      | Some r =>
          or_else (local_id (info r))
            (match List.filter (starts_with "principal:local:")
                     (sort_by String.leb (elements (historical_aliases r))) with
             | a :: _ => strip_prefix "principal:local:" a
             | [] => None
             end)
      end).

(** ** Registering *)

Record Request := {
  rq_subject : ActorRef;
  rq_hub_id : option string;
  rq_signing_did : option string;
  rq_identity_key : option string;
  rq_name : option string;
  rq_registration : Registration;
}.

Definition holds (a : string) (r : ActorRecord) : bool := existsb (String.eqb a) (aliases r).
Definition opt_is (o : option string) (s : string) : bool :=
  match o with Some x => String.eqb x s | None => false end.
Definition differ (a b : option string) : bool :=
  is_some a && is_some b && negb (bool_decide (a = b)).

(** The record a request is about. *)
Definition about (rq : Request) (i : ActorInfo) (r : ActorRecord) : bool :=
  holds (actor_display (rq_subject rq)) r || String.eqb (address (info r)) (address i)
  || opt_is (rq_identity_key rq) (rec_key r).

Definition hub_taken (records : list ActorRecord) (old : option nat) (i : ActorInfo) : bool :=
  match hub_id i with
  | None => false
  | Some h =>
      existsb (fun '(k, r) => negb (bool_decide (Some k = old)) && String.eqb (info_kind (info r)) (info_kind i)
                              && holds (hub_text (info_kind i) h) r)
              (imap pair records)
  end.

(** The checks against the record found, and what the request then says. *)
Definition reconcile_request (rq : Request) (r : ActorRecord) (i : ActorInfo) : result ActorInfo ChannelError :=
  if negb (String.eqb (info_kind (info r)) (info_kind i))
     || differ (local_id (info r)) (local_id i) || differ (hub_id (info r)) (hub_id i)
  then Err (Adapter "Actor key already belongs to another actor")
  else if match rq_identity_key rq with Some key => negb (String.eqb key (rec_key r)) | None => false end
  then Err (Adapter "Actor identity key cannot change")
  else if match signing_did r with
          | Some old => starts_with "did:key:" old
                        && match rq_signing_did rq with Some new => negb (String.eqb new old) | None => false end
          | None => false
          end
  then Err (Adapter "Actor signing identity cannot change")
  else if negb (is_some (local_id i)) && is_some (local_id (info r))
          && negb (bool_decide (hub_id (info r) = hub_id i))
  then Err (Adapter "A directory claim cannot attach a Hub route to a hosted actor")
  else if negb (is_some (local_id i)) && is_some (local_id (info r))
  then Ok (with_local i (local_id (info r)) (address (info r)) (mention (info r)))
  else Ok i.

Definition new_record (rq : Request) (i : ActorInfo) (uuid : string) : ActorRecord :=
  {| info := i;
     rec_key := match or_else (rq_identity_key rq) (rq_signing_did rq) with
                | Some k => k
                | None => default uuid (hub_address i)
                end;
     signing_did := rq_signing_did rq;
     historical_aliases := ∅ |}.

Definition update_record (rq : Request) (r : ActorRecord) (i : ActorInfo) : ActorRecord :=
  {| info := with_registration
               (with_name (with_hub_id (with_local (info r) (local_id i) (address i) (mention i)) (hub_id i))
                          (or_else (rq_name rq) (info_name (info r))))
               (rq_registration rq);
     rec_key := rec_key r;
     signing_did := or_else (rq_signing_did rq) (signing_did r);
     historical_aliases :=
       if negb (String.eqb (address (info r)) (address i)) || negb (bool_decide (hub_id (info r) = hub_id i))
       then remember_aliases r else historical_aliases r |}.

Definition register_records (records : list ActorRecord) (rq : Request) (uuid : string) :
    result (ActorInfo * list ActorRecord) ChannelError :=
  i <-? bind_hub_id (from_subject (rq_subject rq) (rq_name rq)) (rq_hub_id rq);
  let old := position (about rq i) records in
  if hub_taken records old i then Err (Adapter "Hub identity already belongs to a different local actor") else
  match old ≫= fun k => pair k <$> records !! k with
  | Some (k, r) =>
      i <-? reconcile_request rq r i;
      let r' := update_record rq r i in
      Ok (rec_info r', delete k records ++ [r'])
  | None =>
      let r' := update_record rq (new_record rq i uuid) i in
      Ok (rec_info r', records ++ [r'])
  end.

(** [register_actor]; [uuid] is the key made up for an actor without one. *)
Definition register_actor (g : Registry) (rq : Request) (uuid : string) : result (ActorInfo * Registry) ChannelError :=
  records <-? load_actors (reg_file g);
  x <-? register_records records rq uuid;
  let '(answer, records) := x in Ok (answer, written records).

Definition plain_request (subject : ActorRef) (hub : option string) : Request :=
  {| rq_subject := subject; rq_hub_id := hub; rq_signing_did := None; rq_identity_key := None; rq_name := None;
     rq_registration := if is_some hub then Registered else LocalOnly |}.

Definition principal_ref (id : string) : ActorRef := Principal (Local id None).

Definition register_principal (g : Registry) (id did name uuid : string) : result Registry ChannelError :=
  x <-? register_actor g {| rq_subject := principal_ref id; rq_hub_id := None; rq_signing_did := Some did;
                            rq_identity_key := Some did; rq_name := Some name; rq_registration := LocalOnly |} uuid;
  Ok (snd x).

(** ** The local user *)

Definition ensure_local_user (g : Registry) (runtime_did uuid : string) : result (ActorInfo * Registry) Fault :=
  known <-? actor_info g local_user;
  if negb (String.eqb (identity_key known) (address known)) then Ok (known, reread g)
  else fails (register_actor g {| rq_subject := local_user; rq_hub_id := None; rq_signing_did := None;
                                  rq_identity_key := Some ("local@" +:+ runtime_did); rq_name := Some "local";
                                  rq_registration := LocalOnly |} uuid).

Definition link_local_user (g : Registry) (runtime_did account uuid : string) : result (ActorInfo * Registry) Fault :=
  x <-? ensure_local_user g runtime_did uuid;
  let '(local, g) := x in
  match hub_id local with
  | Some existing =>
      if negb (String.eqb existing account)
      then Err (Fails (Adapter ("This runtime is registered under Hub account " +:+ existing +:+
                                "; unregister it before registering under another account")))
      else fails (register_actor g {| rq_subject := local_user; rq_hub_id := Some account; rq_signing_did := None;
                                      rq_identity_key := None; rq_name := Some "local";
                                      rq_registration := Registered |} uuid)
  | None => fails (register_actor g {| rq_subject := local_user; rq_hub_id := Some account; rq_signing_did := None;
                                       rq_identity_key := None; rq_name := Some "local";
                                       rq_registration := Registered |} uuid)
  end.

(** [name_local_user_from_hub]; [display] is the stored display name. *)
Definition name_local_user_from_hub (g : Registry) (display : option string) (uuid : string) : result Registry Fault :=
  match display with
  | None => Ok g
  | Some name =>
      i <-? actor_info g local_user;
      match hub_id i with
      | None => Ok (reread g)
      | Some hub =>
          if opt_is (info_name i) name then Ok (reread g)
          else x <-? fails (register_actor g {| rq_subject := local_user; rq_hub_id := Some hub;
                              rq_signing_did := None; rq_identity_key := None; rq_name := Some name;
                              rq_registration := Registered |} uuid); Ok (snd x)
      end
  end.

Definition is_unlinkable (r : ActorRecord) : bool :=
  String.eqb (info_kind (info r)) "user" && opt_is (local_id (info r)) "local".
Definition unlinked (r : ActorRecord) : ActorRecord :=
  {| info := with_registration (with_hub_id (info r) None) LocalOnly;
     rec_key := rec_key r; signing_did := signing_did r; historical_aliases := historical_aliases r |}.

Definition unlink_local_user (g : Registry) : result Registry ChannelError :=
  records <-? load_actors (reg_file g);
  match position is_unlinkable records ≫= fun k => pair k <$> records !! k with
  | None => Ok g
  | Some (k, r) => if is_some (hub_id (info r)) then Ok (written (<[k := unlinked r]> records)) else Ok g
  end.

(** ** Hosting *)

Definition reconcile_record (hosted : list string) (r : ActorRecord) : option (bool * ActorRecord) :=
  if is_local_user r
  then Some (if is_some (local_id (info r)) then (false, r) else (true, rehost_local_user r))
  else if is_some (hub_id (info r))
          && match local_id (info r) with
             | Some id => negb (String.eqb (info_kind (info r)) "principal") || negb (existsb (String.eqb id) hosted)
             | None => false
             end
  then pair true <$> unhost r
  else Some (false, r).

Definition reconcile_actor_locality (g : Registry) (hosted : list string) : result Registry Fault :=
  records <-? fails (load_actors (reg_file g));
  match mapM (reconcile_record hosted) records with
  | None => Err (Panics "Hub actor")
  | Some l => Ok {| reg_file := if existsb fst l then map snd l else reg_file g;
                    reg_index := actor_index (map snd l) |}
  end.

Definition is_hosted_as (id : string) (r : ActorRecord) : bool :=
  String.eqb (info_kind (info r)) "principal" && opt_is (local_id (info r)) id && is_some (hub_id (info r)).

Definition unhost_principal (g : Registry) (id : string) : result Registry Fault :=
  records <-? fails (load_actors (reg_file g));
  match position (is_hosted_as id) records ≫= fun k => pair k <$> records !! k with
  | None => Ok g
  | Some (k, r) =>
      match unhost r with
      | None => Err (Panics "Hub actor")
      | Some r' => Ok (written (<[k := r']> records))
      end
  end.

(** ** Histories of the registry *)

(** The operations that write the file.  [register_principal] and those on the
    local user are registrations after reads. *)
Inductive RegOp :=
  | RRegister (rq : Request) (uuid : string)
  | RUnlink
  | RReconcile (hosted : list string)
  | RUnhost (id : string).

Definition reg_step (g : Registry) (op : RegOp) : result Registry Fault :=
  match op with
  | RRegister rq uuid => x <-? fails (register_actor g rq uuid); Ok (snd x)
  | RUnlink => fails (unlink_local_user g)
  | RReconcile hosted => reconcile_actor_locality g hosted
  | RUnhost id => unhost_principal g id
  end.
(** An operation that fails leaves file and index as they were. *)
Definition reg_after (g : Registry) (op : RegOp) : Registry :=
  match reg_step g op with Ok g' => g' | Err _ => g end.
Definition reg_run : Registry -> list RegOp -> Registry := foldl reg_after.

(** ** Lemmas *)

(** *** Valid identities *)

Definition valid_info (i : ActorInfo) : Prop :=
  actor_kind_text (info_kind i) = true /\ (is_some (local_id i) = true \/ is_some (hub_id i) = true) /\
  opt_bad (local_id i) = false /\ opt_bad (hub_id i) = false /\ Some (address i) = expected_address i.

Definition valid_record (r : ActorRecord) : Prop := valid_info (info r).

Lemma with_hub_id_same i : with_hub_id i (hub_id i) = i.
Proof. by destruct i. Qed.

Lemma check_record_valid r : check_record r = Ok () <-> valid_record r.
Proof.
  unfold check_record, valid_record, valid_info, bind_hub_id. set (i := info r).
  destruct (actor_kind_text (info_kind i)); cbn [negb orb rbind]; [|naive_solver].
  destruct (opt_bad (local_id i)) eqn:H1, (opt_bad (hub_id i)) eqn:H2; rewrite ?orb_true_r; cbn [orb rbind]; try naive_solver.
  destruct (local_id i) as [l|] eqn:Hl, (hub_id i) as [h|] eqn:Hh; cbn [is_some andb orb negb rbind];
    try (rewrite <- Hh, with_hub_id_same); rewrite ?bool_decide_eq_true_2 by done; cbn [negb rbind andb]; try naive_solver;
    case_bool_decide; naive_solver.
Qed.

Lemma load_actors_valid file l : load_actors file = Ok l <-> l = file /\ Forall valid_record file.
Proof.
  unfold load_actors. assert (H : check_records file = Ok () <-> Forall valid_record file).
  { induction file as [|r file IH]; cbn [check_records]; [by split|].
    rewrite Forall_cons, <- check_record_valid, <- IH. destruct (check_record r) as [[]|]; cbn [rbind]; naive_solver. }
  destruct (check_records file) as [[]|e]; cbn [rbind]; naive_solver.
Qed.

Lemma load_actors_ok file : Forall valid_record file -> load_actors file = Ok file.
Proof. intros H. by apply load_actors_valid. Qed.

Lemma from_subject_expected s n : s <> Public ->
  Some (address (from_subject s n)) = expected_address (from_subject s n).
Proof.
  unfold expected_address, from_subject, canonical_address, hub_address, hub_text.
  destruct s as [r|r|r|]; [destruct r as [id [rt|]|id]..|]; done.
Qed.

Lemma bind_hub_id_valid s n h i : bind_hub_id (from_subject s n) h = Ok i ->
  valid_info i /\ s <> Public /\ address i = canonical_address s /\ info_kind i = kind_display (actor_kind s) /\
  local_id i = local_id (from_subject s n) /\ mention i = mention (from_subject s n).
Proof.
  unfold bind_hub_id. set (j := from_subject s n).
  destruct (actor_kind_text (info_kind j)) eqn:Hk; cbn [negb orb]; [|done].
  assert (Hs : s <> Public) by (by intros ->).
  pose proof (from_subject_expected s n Hs) as He. fold j in He.
  assert (Ha : address j = canonical_address s) by done.
  assert (Hkj : info_kind j = kind_display (actor_kind s)) by done. clearbody j.
  destruct (opt_bad (local_id j)) eqn:H1; [by rewrite !orb_true_r|].
  destruct (opt_bad (hub_id j)) eqn:H2; [by rewrite !orb_true_r|].
  destruct (opt_bad h) eqn:H3; [by rewrite !orb_true_r|]. rewrite !orb_false_r.
  destruct (local_id j) as [l|] eqn:Hl; cbn [is_some negb andb].
  - intros [= <-]. unfold valid_info, expected_address in *. cbn. rewrite Hl in *. split_and!; auto.
  - destruct (hub_id j) as [hj|] eqn:Hh; cbn [is_some negb]; [|done].
    case_match; [done|]. intros [= <-]. unfold valid_info. rewrite Hl, Hh. split_and!; auto.
Qed.

Lemma reconcile_request_valid rq r i i' :
  valid_record r -> valid_info i -> reconcile_request rq r i = Ok i' ->
  valid_info i' /\ info_kind i' = info_kind (info r) /\ hub_id i' = hub_id i /\
  (local_id i' = local_id i /\ address i' = address i \/
   local_id i = None /\ local_id i' = local_id (info r) /\ address i' = address (info r)).
Proof.
  unfold reconcile_request, valid_record, valid_info, expected_address, hub_address.
  intros (Hk & Ho & Hb & Hb' & He) (Hk' & Ho' & Hb1 & Hb1' & He').
  destruct (String.eqb_spec (info_kind (info r)) (info_kind i)) as [Hkk|]; cbn [negb orb]; [|done].
  intros H. do 4 guard_in H. revert H.
  destruct (local_id i) as [l|] eqn:Hl, (local_id (info r)) as [l'|] eqn:Hl'; cbn [is_some negb andb] in *;
    intros [= <-]; cbn; rewrite ?Hl, ?Hl', ?Hkk in *; split_and!; auto.
Qed.

Lemma update_record_valid rq r i :
  valid_info i -> info_kind i = info_kind (info r) -> valid_record (update_record rq r i).
Proof.
  unfold valid_record, valid_info, expected_address, hub_address. cbn. intros H <-. exact H.
Qed.

Lemma register_records_valid records rq uuid a records' :
  Forall valid_record records -> register_records records rq uuid = Ok (a, records') -> Forall valid_record records'.
Proof.
  intros Hv. unfold register_records.
  destruct (bind_hub_id _ _) as [i|] eqn:Hi; cbn [rbind]; [|done].
  apply bind_hub_id_valid in Hi as (Hi & _ & _ & Hk & _). case_match; [done|].
  destruct (position _ records) as [k|] eqn:Hp; cbn [mbind option_bind].
  - apply position_Some in Hp as (r & Hr & _). rewrite Hr. cbn.
    destruct (reconcile_request rq r i) as [i'|] eqn:Hq; cbn [rbind]; [|done]. intros [= <- <-].
    pose proof (Forall_lookup_1 _ _ _ _ Hv Hr) as Hvr.
    destruct (reconcile_request_valid _ _ _ _ Hvr Hi Hq) as (Hi' & Hk' & _).
    apply Forall_app_2; [by apply Forall_delete|]. constructor; [|done]. by apply update_record_valid.
  - intros [= <- <-]. apply Forall_app_2; [done|]. constructor; [|done]. by apply update_record_valid.
Qed.

Lemma unhost_valid r : valid_record r -> is_some (hub_id (info r)) = true ->
  exists r', unhost r = Some r' /\ valid_record r' /\ rec_key r' = rec_key r /\
    info_kind (info r') = info_kind (info r) /\ signing_did r' = signing_did r /\
    historical_aliases r' = remember_aliases r /\ address (info r') = default "" (hub_address (info r)).
Proof.
  intros (Hk & _ & _ & Hb & _) Hs. unfold unhost, hub_address. destruct (hub_id (info r)) as [h|]; [|done]. cbn in Hb |- *.
  pose proof Hb as [Hne%String.eqb_neq _]%orb_false_iff.
  unfold actor_kind_text in Hk. rewrite !orb_true_iff, !String.eqb_eq in Hk.
  assert (exists k, info_kind (info r) = kind_display k /\ k <> KPublic) as (k & -> & Hkp)
    by (destruct Hk as [[->| ->]| ->]; [exists KPrincipal|exists KUser|exists KVisitor]; done).
  set (s := match k with KUser => User (Hub h) | KPrincipal => Principal (Hub h) | _ => Visitor (Hub h) end).
  replace (actor_from_str (hub_text (kind_display k) h)) with (Ok (E:=string) s).
  - eexists. split; [done|]. unfold valid_record, valid_info, expected_address, hub_address.
    destruct k; [cbn; split_and!; auto..|done].
  - symmetry. replace (hub_text (kind_display k) h) with (kind_display (actor_kind s) +:+ String ":" ("hub:" +:+ h))
      by (by destruct k). apply (from_str_kind s (Hub h)); [by destruct k|apply route_parse_hub|done].
Qed.

(** *** The invariant of the registry *)

Record reg_ok (g : Registry) : Prop := {
  ok_valid : Forall valid_record (reg_file g);
  ok_index : reg_index g = actor_index (reg_file g);
}.

Lemma written_ok records : Forall valid_record records -> reg_ok (written records).
Proof. by constructor. Qed.

Lemma reread_ok g : reg_ok g -> reread g = g.
Proof. intros [Hv Hi]. unfold reread. rewrite load_actors_ok by done. destruct g; cbn in *. by subst. Qed.

Lemma register_ok g rq uuid a g' : reg_ok g -> register_actor g rq uuid = Ok (a, g') -> reg_ok g'.
Proof.
  intros [Hv _] H. unfold register_actor in H. rewrite load_actors_ok in H by done. cbn [rbind] in H.
  bind_in H x. destruct x as [a' records]. injection H as <- <-. by eapply written_ok, register_records_valid.
Qed.

Lemma reconcile_record_ok hosted r : valid_record r ->
  exists b r', reconcile_record hosted r = Some (b, r') /\ valid_record r' /\ (b = false -> r' = r) /\
    rec_key r' = rec_key r /\ info_kind (info r') = info_kind (info r) /\ signing_did r' = signing_did r /\
    (b = true -> historical_aliases r' = remember_aliases r).
Proof.
  intros Hv. unfold reconcile_record. destruct (is_local_user r) eqn:Hu.
  - destruct (is_some (local_id (info r))) eqn:Hl.
    { exists false, r. by split_and!. }
    apply andb_true_iff in Hu as [Hk _]. apply String.eqb_eq in Hk.
    exists true, (rehost_local_user r). split_and!; try done.
    destruct Hv as (_ & _ & _ & Hb & _). repeat split; cbn; auto.
  - destruct (is_some (hub_id (info r)) && _) eqn:Hc.
    + apply andb_true_iff in Hc as [Hh _].
      destruct (unhost_valid r Hv Hh) as (r' & -> & ? & ? & ? & ? & ? & ?). exists true, r'. by split_and!.
    + exists false, r. by split_and!.
Qed.

Lemma reconcile_all_ok hosted records : Forall valid_record records ->
  exists l, mapM (reconcile_record hosted) records = Some l /\ Forall valid_record (map snd l) /\
    (existsb fst l = false -> map snd l = records).
Proof.
  induction 1 as [|r records Hr _ (l & Hl & Hv & He)]; [by exists []|].
  destruct (reconcile_record_ok hosted r Hr) as (b & r' & Hq & Hv' & Hb & _).
  exists ((b, r') :: l). cbn [mapM]. unfold mapM in *. cbn. rewrite Hq. cbn. rewrite Hl. cbn.
  split_and!; [done|by constructor|]. intros [-> H]%orb_false_iff. by rewrite Hb, He.
Qed.

Lemma position_pair {A} (p : A -> bool) l k :
  position p l = Some k -> exists x, (fun k => pair k <$> l !! k) k = Some (k, x) /\ l !! k = Some x /\ p x = true.
Proof. intros (x & Hx & Hp)%position_Some. exists x. rewrite Hx. by split_and!. Qed.

(** Every operation keeps the registry readable and its index in step, and no
    operation panics. *)
Lemma reg_step_ok g op : reg_ok g ->
  (forall g', reg_step g op = Ok g' -> reg_ok g') /\ (forall msg, reg_step g op <> Err (Panics msg)).
Proof.
  intros Hg. pose proof Hg as [Hv Hi]. destruct op as [rq uuid| |hosted|id]; cbn [reg_step].
  - destruct (register_actor g rq uuid) as [[a g1]|e] eqn:H; cbn; [|done]. split; [|done].
    intros g' [= <-]. by eapply register_ok.
  - unfold unlink_local_user. rewrite load_actors_ok by done. cbn [rbind].
    destruct (position is_unlinkable (reg_file g)) as [k|] eqn:Hp; cbn [mbind option_bind]; [|naive_solver].
    apply position_pair in Hp as (r & -> & Hr & Hu). case_match; cbn; [|naive_solver]. split; [|done].
    intros g' [= <-]. apply written_ok, Forall_insert; [done|].
    apply andb_true_iff in Hu as [_ Hl]. unfold opt_is in Hl.
    pose proof (Forall_lookup_1 _ _ _ _ Hv Hr) as (H1 & _ & H3 & _ & H5).
    unfold valid_record, valid_info, expected_address in *. cbn.
    destruct (local_id (info r)); [|done]. split_and!; auto.
  - unfold reconcile_actor_locality. rewrite load_actors_ok by done. cbn [rbind fails].
    destruct (reconcile_all_ok hosted _ Hv) as (l & -> & Hl & He). split; [|done]. intros g' [= <-].
    constructor; cbn; destruct (existsb fst l); try done. by rewrite He.
  - unfold unhost_principal. rewrite load_actors_ok by done. cbn [rbind fails].
    destruct (position (is_hosted_as id) (reg_file g)) as [k|] eqn:Hp; cbn [mbind option_bind]; [|naive_solver].
    apply position_pair in Hp as (r & -> & Hr & Hu). apply andb_true_iff in Hu as [_ Hh].
    pose proof (Forall_lookup_1 _ _ _ _ Hv Hr) as Hvr.
    destruct (unhost_valid r Hvr Hh) as (r' & -> & Hr' & _). split; [|done].
    intros g' [= <-]. by apply written_ok, Forall_insert.
Qed.

Lemma reg_run_ok ops g : reg_ok g -> reg_ok (reg_run g ops).
Proof.
  revert g. induction ops as [|op ops IH]; intros g Hg; [done|]. apply IH. unfold reg_after.
  destruct (reg_step g op) eqn:E; [|done]. by eapply (proj1 (reg_step_ok g op Hg)).
Qed.

(** *** Names that are kept *)

Lemma elem_of_aliases a r :
  a ∈ aliases r <->
  a = address (info r) \/
  (exists id, local_id (info r) = Some id /\
     (a = info_kind (info r) +:+ ":" +:+ id \/ info_kind (info r) = "principal" /\ a = id)) \/
  hub_address (info r) = Some a \/
  (exists did, signing_did r = Some did /\ (a = did \/ a = "principal:" +:+ did)) \/
  a ∈ historical_aliases r.
Proof.
  unfold aliases. rewrite !elem_of_app, elem_of_elements, list_elem_of_singleton.
  assert (H1 : a ∈ opt_list (hub_address (info r)) <-> hub_address (info r) = Some a).
  { destruct (hub_address (info r)); cbn; rewrite ?list_elem_of_singleton; [naive_solver|].
    by split; [intros ?%not_elem_of_nil|]. }
  rewrite H1. destruct (local_id (info r)) as [id|], (signing_did r) as [did|];
    try destruct (String.eqb_spec (info_kind (info r)) "principal");
    cbn [app]; rewrite ?elem_of_cons, ?elem_of_nil; naive_solver.
Qed.

Lemma remembered a r r' : historical_aliases r' = remember_aliases r -> a ∈ aliases r -> a ∈ aliases r'.
Proof.
  intros H Ha. apply elem_of_aliases. do 4 right. rewrite H. unfold remember_aliases. set_solver.
Qed.

(** With the same address and account, the local id is the same. *)
Lemma valid_same_local i j :
  valid_info i -> valid_info j -> info_kind i = info_kind j -> address i = address j -> local_id i = local_id j.
Proof.
  intros (_ & _ & _ & _ & Hi) (_ & _ & _ & _ & Hj) Hk Ha. rewrite <- Ha in Hj.
  unfold expected_address, hub_address, hub_text in *. rewrite <- Hk in Hj.
  destruct (local_id i) as [l|], (local_id j) as [l'|]; [| | |done].
  - rewrite Hi in Hj. injection Hj as Hj%app_inj_l_str%(app_inj_l_str ":local:"). by subst.
  - rewrite Hi in Hj. destruct (hub_id j); [|done]. injection Hj as Hj%app_inj_l_str. done.
  - rewrite Hj in Hi. destruct (hub_id i); [|done]. injection Hi as Hi%app_inj_l_str. done.
Qed.

(** The names a record may lose: its account on unlinking, and a signing
    identity that is replaced. *)
Definition replaced_did (rq : Request) (r : ActorRecord) (a : string) : Prop :=
  exists old new, signing_did r = Some old /\ rq_signing_did rq = Some new /\ old <> new /\
    starts_with "did:key:" old = false /\ (a = old \/ a = "principal:" +:+ old).
Definition dropped (op : RegOp) (r : ActorRecord) (a : string) : Prop :=
  match op with
  | RUnlink => hub_address (info r) = Some a
  | RRegister rq _ => replaced_did rq r a
  | _ => False
  end.

Definition outlives (op : RegOp) (r r' : ActorRecord) : Prop :=
  rec_key r' = rec_key r /\ info_kind (info r') = info_kind (info r) /\
  forall a, a ∈ aliases r -> a ∈ aliases r' \/ dropped op r a.

Lemma outlives_refl op r : outlives op r r.
Proof. unfold outlives; naive_solver. Qed.

Lemma signing_did_stays rq r i i' : reconcile_request rq r i = Ok i' ->
  forall old new, signing_did r = Some old -> rq_signing_did rq = Some new -> old <> new ->
  starts_with "did:key:" old = false.
Proof.
  unfold reconcile_request. intros H old new Ho Hn Hne. do 3 guard_in H. rewrite Ho, Hn in Hg1.
  destruct (String.eqb_spec new old); [congruence|]. by rewrite andb_true_r in Hg1.
Qed.

Lemma update_outlives rq uuid r i i' :
  valid_record r -> valid_info i -> reconcile_request rq r i = Ok i' ->
  outlives (RRegister rq uuid) r (update_record rq r i').
Proof.
  intros Hr Hi Hq. destruct (reconcile_request_valid _ _ _ _ Hr Hi Hq) as (Hi' & Hk & _).
  pose proof (signing_did_stays _ _ _ _ Hq) as Hdid. split_and!; [done..|]. intros a Ha. cbn [dropped].
  destruct (String.eqb_spec (address (info r)) (address i')) as [Ea|Ea];
    [destruct (decide (hub_id (info r) = hub_id i')) as [Eh|Eh]|].
  2,3: left; apply (remembered a r); [|done]; cbn; unfold update_record; cbn;
    rewrite ?(proj2 (String.eqb_neq _ _) Ea), ?(bool_decide_eq_false_2 _ Eh), ?orb_true_r; done.
  assert (El : local_id (info r) = local_id i') by (by apply valid_same_local).
  rewrite !elem_of_aliases. apply elem_of_aliases in Ha. unfold update_record, hub_address in *. cbn.
  rewrite Ea, String.eqb_refl, (bool_decide_eq_true_2 _ Eh), <- Eh, <- El in *. cbn.
  destruct Ha as [Ha|[Ha|[Ha|[(did & Hd & Ha)|Ha]]]]; [left; naive_solver..| |left; naive_solver].
  rewrite Hd in *. destruct (rq_signing_did rq) as [new|] eqn:Hn; cbn [or_else]; [|left; naive_solver].
  destruct (decide (did = new)) as [<-|Hne]; [left; naive_solver|]. right. exists did, new.
  split_and!; eauto.
Qed.

Lemma elem_of_delete_or {A} (l : list A) k x r :
  l !! k = Some r -> x ∈ l -> x = r \/ x ∈ delete k l.
Proof.
  intros Hk. intros [j Hj]%list_elem_of_lookup.
  destruct (decide (j = k)) as [->|Hne]; [left; congruence|right]. apply list_elem_of_lookup.
  destruct (decide (j < k)).
  - exists j. by rewrite list_lookup_delete_lt.
  - exists (pred j). rewrite list_lookup_delete_ge by lia. by replace (S (pred j)) with j by lia.
Qed.

Lemma elem_of_insert_or {A} (l : list A) k x y r :
  l !! k = Some r -> x ∈ l -> x = r /\ y ∈ <[k := y]> l \/ x ∈ <[k := y]> l.
Proof.
  intros Hk [j Hj]%list_elem_of_lookup. pose proof (lookup_lt_Some _ _ _ Hk).
  destruct (decide (j = k)) as [->|Hne]; [left; split; [congruence|]|right]; apply list_elem_of_lookup.
  - exists k. by apply list_lookup_insert_eq.
  - exists j. by rewrite list_lookup_insert_ne.
Qed.

Lemma reconcile_all_outlives hosted records l r :
  Forall valid_record records -> mapM (reconcile_record hosted) records = Some l -> r ∈ records ->
  exists r', r' ∈ map snd l /\ outlives (RReconcile hosted) r r'.
Proof.
  intros Hv Hl Hr. apply mapM_Some in Hl.
  apply list_elem_of_lookup in Hr as [k Hk]. destruct (Forall2_lookup_l _ _ _ _ _ Hl Hk) as ([b r'] & Hk' & Hq).
  destruct (reconcile_record_ok hosted r (Forall_lookup_1 _ _ _ _ Hv Hk)) as (b1 & r1 & Hq1 & _ & Hb & H1 & H2 & H3 & H4).
  rewrite Hq in Hq1. injection Hq1 as <- <-. exists r'. split.
  - apply list_elem_of_lookup. exists k. by rewrite list_lookup_fmap, Hk'.
  - split_and!; [done..|]. intros a Ha. left. destruct b; [by eapply remembered; [apply H4|]|by rewrite Hb].
Qed.

Lemma register_records_shape records rq uuid a records' :
  register_records records rq uuid = Ok (a, records') ->
  exists i, bind_hub_id (from_subject (rq_subject rq) (rq_name rq)) (rq_hub_id rq) = Ok i /\
    ((exists k r i', position (about rq i) records = Some k /\ records !! k = Some r /\
       reconcile_request rq r i = Ok i' /\ a = rec_info (update_record rq r i') /\
       records' = delete k records ++ [update_record rq r i']) \/
     (position (about rq i) records = None /\ a = rec_info (update_record rq (new_record rq i uuid) i) /\
      records' = records ++ [update_record rq (new_record rq i uuid) i])).
Proof.
  unfold register_records. intros H. bind_in H i. exists i. split; [done|]. guard_in H.
  destruct (position (about rq i) records) as [k|] eqn:Hp; cbn [mbind option_bind] in H.
  - apply position_Some in Hp as Hr. destruct Hr as (r & Hr & _). rewrite Hr in H. cbn in H. bind_in H i'.
    injection H as <- <-. left. by exists k, r, i'.
  - injection H as <- <-. by right.
Qed.

Lemma step_outlives g op g' r :
  reg_ok g -> reg_step g op = Ok g' -> r ∈ reg_file g -> exists r', r' ∈ reg_file g' /\ outlives op r r'.
Proof.
  intros Hg H Hr. pose proof Hg as [Hv Hi]. assert (Hsame : g' = g -> exists r', r' ∈ reg_file g' /\ outlives op r r').
  { intros ->. exists r. split; [done|apply outlives_refl]. }
  destruct op as [rq uuid| |hosted|id]; cbn [reg_step] in H.
  - bind_in H x. destruct x as [a g1]. injection H as <-. unfold register_actor in Hb. rewrite load_actors_ok in Hb by done.
    cbn [rbind] in Hb. destruct (register_records _ _ _) as [[a1 records]|] eqn:Hq; [|done]. cbn in Hb.
    injection Hb as <- <-. cbn.
    apply register_records_shape in Hq as (i & Hbi & [(k & r0 & i' & _ & Hk & Hq & _ & ->)|(_ & _ & ->)]).
    + apply bind_hub_id_valid in Hbi as (Hvi & _). destruct (elem_of_delete_or _ _ _ _ Hk Hr) as [->|Hin].
      * eexists. split; [apply elem_of_app; right; apply list_elem_of_singleton; done|].
        by eapply update_outlives; [eapply (Forall_lookup_1 _ _ _ _ Hv Hk)| |].
      * exists r. split; [apply elem_of_app; by left|apply outlives_refl].
    + exists r. split; [apply elem_of_app; by left|apply outlives_refl].
  - unfold unlink_local_user in H. rewrite load_actors_ok in H by done. cbn [rbind] in H.
    destruct (position is_unlinkable (reg_file g)) as [k|] eqn:Hp; cbn [mbind option_bind] in H; [|naive_solver].
    apply position_pair in Hp as (r0 & Hx & Hk & _). rewrite Hx in H. case_match; cbn in H; [|naive_solver].
    injection H as <-. cbn. destruct (elem_of_insert_or _ _ r (unlinked r0) _ Hk Hr) as [[-> Hin]|Hin].
    + exists (unlinked r0). split; [done|]. split_and!; [done..|]. intros a Ha. cbn [dropped].
      rewrite elem_of_aliases in Ha |- *. unfold hub_address in *. cbn in *. naive_solver.
    + exists r. split; [done|apply outlives_refl].
  - unfold reconcile_actor_locality in H. rewrite load_actors_ok in H by done. cbn [rbind fails] in H.
    destruct (mapM _ _) as [l|] eqn:Hl; [|done]. injection H as <-. cbn.
    destruct (reconcile_all_ok hosted _ Hv) as (l' & Hl' & _ & He). rewrite Hl in Hl'. injection Hl' as <-.
    destruct (existsb fst l); [by eapply reconcile_all_outlives|]. exists r. split; [done|apply outlives_refl].
  - unfold unhost_principal in H. rewrite load_actors_ok in H by done. cbn [rbind fails] in H.
    destruct (position (is_hosted_as id) (reg_file g)) as [k|] eqn:Hp; cbn [mbind option_bind] in H; [|naive_solver].
    apply position_pair in Hp as (r0 & Hx & Hk & Hu). rewrite Hx in H. apply andb_true_iff in Hu as [_ Hh].
    destruct (unhost_valid r0 (Forall_lookup_1 _ _ _ _ Hv Hk) Hh) as (r' & Hu & _ & H1 & H2 & _ & H3 & _).
    rewrite Hu in H. injection H as <-. cbn.
    destruct (elem_of_insert_or _ _ r r' _ Hk Hr) as [[-> Hin]|Hin].
    + exists r'. split; [done|]. split_and!; [done..|]. intros a Ha. left. by eapply remembered.
    + exists r. split; [done|apply outlives_refl].
Qed.

(** *** Names that belong to one record *)

Definition apart (r s : ActorRecord) : Prop := forall a, a ∈ aliases r -> a ∉ aliases s.
(** No alias belongs to two records. *)
Definition unambiguous : list ActorRecord -> Prop := StronglySorted apart.

Lemma sorted_delete {A} (R : A -> A -> Prop) l k : StronglySorted R l -> StronglySorted R (delete k l).
Proof.
  intros H. revert k. induction H as [|x l Hs IH Hf]; intros [|k]; cbn; [constructor..|done|].
  constructor; [apply IH|by apply Forall_delete].
Qed.
Lemma sorted_snoc {A} (R : A -> A -> Prop) l x :
  StronglySorted R l -> Forall (fun y => R y x) l -> StronglySorted R (l ++ [x]).
Proof.
  induction 1 as [|y l Hs IH Hf]; intros Hx; cbn; [by repeat constructor|].
  inversion_clear Hx. constructor; [auto|]. apply Forall_app_2; [done|by constructor].
Qed.

Lemma index_record_lookup m r a :
  (a ∈ aliases r -> index_record m r !! a = Some r) /\ (a ∉ aliases r -> index_record m r !! a = m !! a).
Proof.
  unfold index_record. generalize (aliases r) as l. intros l. revert m.
  induction l as [|b l IH]; intros m; [set_solver|]. cbn [foldl]. destruct (IH (<[b := r]> m)) as [H1 H2].
  rewrite elem_of_cons. split.
  - intros [->|Ha]; [|auto]. destruct (decide (b ∈ l)); [auto|]. rewrite H2 by done. apply lookup_insert_eq.
  - intros Ha. rewrite H2 by tauto. apply lookup_insert_ne. naive_solver.
Qed.

Lemma actor_index_lookup records r a :
  unambiguous records -> r ∈ records -> a ∈ aliases r -> actor_index records !! a = Some r.
Proof.
  unfold actor_index. intros Hu. generalize (∅ : gmap string ActorRecord) as m.
  induction Hu as [|s l Hs IH Hf]; intros m Hr Ha; [by apply not_elem_of_nil in Hr|]. cbn [foldl].
  apply elem_of_cons in Hr as [<-|Hr]; [|by apply IH].
  assert (Hout : forall l m, Forall (apart r) l -> foldl index_record m l !! a = m !! a).
  { clear - Ha. induction l as [|s l IH]; intros m Hf; [done|]. inversion_clear Hf. cbn [foldl].
    rewrite IH by done. apply index_record_lookup. auto. }
  rewrite Hout by done. by apply index_record_lookup.
Qed.

(** What a request says of its actor, as aliases. *)
Definition request_names (rq : Request) (answer : ActorInfo) : list string :=
  aliases {| info := answer; rec_key := identity_key answer; signing_did := rq_signing_did rq;
             historical_aliases := ∅ |}.
(** The records a request is not about. *)
Definition untouched (g : Registry) (rq : Request) : list ActorRecord :=
  match bind_hub_id (from_subject (rq_subject rq) (rq_name rq)) (rq_hub_id rq) with
  | Ok i => match position (about rq i) (reg_file g) with
            | Some k => delete k (reg_file g)
            | None => reg_file g
            end
  | Err _ => reg_file g
  end.

Lemma update_names rq r i a :
  a ∈ aliases (update_record rq r i) ->
  a ∈ aliases r \/ a ∈ request_names rq (rec_info (update_record rq r i)).
Proof.
  unfold request_names. rewrite !elem_of_aliases. unfold hub_address. cbn.
  assert (Hh : a ∈ (if negb (String.eqb (address (info r)) (address i)) || negb (bool_decide (hub_id (info r) = hub_id i))
                    then remember_aliases r else historical_aliases r) -> a ∈ aliases r).
  { intros H. assert (Hin : a ∈ remember_aliases r -> a ∈ aliases r).
    { unfold remember_aliases. rewrite elem_of_union, elem_of_list_to_set. intros [Hx|Hx]; [|done].
      apply elem_of_aliases. by do 4 right. }
    case_match; [by apply Hin|]. apply elem_of_aliases. by do 4 right. }
  intros [H|[H|[H|[H|H]]]]; [right; naive_solver..| |].
  - destruct (rq_signing_did rq) as [new|]; cbn [or_else] in H; [right; naive_solver|left].
    do 3 right. left. exact H.
  - left. by apply elem_of_aliases, Hh.
Qed.

Lemma new_record_names rq i uuid a :
  a ∈ aliases (new_record rq i uuid) ->
  a ∈ request_names rq (rec_info (update_record rq (new_record rq i uuid) i)).
Proof.
  unfold request_names. rewrite !elem_of_aliases. unfold hub_address. cbn.
  naive_solver.
Qed.

(** Records at different places of an unambiguous list share no alias. *)
Lemma sorted_apart records k j r s a :
  unambiguous records -> records !! k = Some r -> records !! j = Some s -> j <> k ->
  a ∈ aliases r -> a ∈ aliases s -> False.
Proof.
  intros Hu. revert k j. induction Hu as [|x l Hs IH Hf]; intros [|k] [|j] Hk Hj Hne Ha Hb; cbn in *; try done.
  - injection Hk as ->. by eapply (Forall_lookup_1 _ _ _ _ Hf Hj).
  - injection Hj as ->. by eapply (Forall_lookup_1 _ _ _ _ Hf Hk).
  - eapply (IH k j); eauto.
Qed.

(** ** Properties *)

(** C34. Whatever operations ran on the registry since it was empty, its file passes
    the validation of the next read, the index in memory is that of the file,
    and no operation panics: neither the reads that expect a readable file nor
    the release of a hosted actor. *)
Theorem registry_always_loads (ops : list RegOp) (op : RegOp) :
  let g := reg_run (written []) ops in
  load_actors (reg_file g) = Ok (reg_file g) /\ reg_index g = actor_index (reg_file g) /\
  (forall subject, exists i, actor_info g subject = Ok i) /\
  (forall msg, reg_step g op <> Err (Panics msg)).
Proof.
  cbn zeta. assert (Hg : reg_ok (reg_run (written []) ops)) by (by apply reg_run_ok; constructor).
  pose proof Hg as [Hv Hi]. split_and!; [by apply load_actors_ok|done| |by apply reg_step_ok].
  intros subject. unfold actor_info. rewrite load_actors_ok by done. eauto.
Qed.

(** An actor once registered stays: after any further operation there is a
    record with its key and kind under every name it had, except the account
    of an unlinked local user and a signing identity that was replaced. *)
Theorem identities_outlive (ops : list RegOp) (op : RegOp) (r : ActorRecord) :
  let g := reg_run (written []) ops in
  r ∈ reg_file g -> exists r', r' ∈ reg_file (reg_after g op) /\ outlives op r r'.
Proof.
  cbn zeta. intros Hr. unfold reg_after. destruct (reg_step _ op) as [g'|e] eqn:E.
  - eapply step_outlives; [|exact E|done]. by apply reg_run_ok; constructor.
  - exists r. split; [done|apply outlives_refl].
Qed.

(** While the names of a request belong to no record it is not about, the
    registration keeps every alias with one record, and every name keeps its
    key, a replaced signing identity apart. *)
Theorem registered_keys_stable (g : Registry) (rq : Request) (uuid : string) (answer : ActorInfo) (g' : Registry) :
  reg_ok g -> unambiguous (reg_file g) -> register_actor g rq uuid = Ok (answer, g') ->
  Forall (fun s => forall a, a ∈ request_names rq answer -> a ∉ aliases s) (untouched g rq) ->
  unambiguous (reg_file g') /\
  (forall r a, r ∈ reg_file g -> a ∈ aliases r ->
     (exists r', reg_index g' !! a = Some r' /\ rec_key r' = rec_key r) \/ replaced_did rq r a).
Proof.
  intros Hg Hu H Hn. pose proof Hg as [Hv Hi]. pose proof (register_ok _ _ _ _ _ Hg H) as [Hv' Hi'].
  unfold register_actor in H. rewrite load_actors_ok in H by done. cbn [rbind] in H. bind_in H x.
  destruct x as [a1 records]. injection H as -> <-. cbn in Hv', Hi' |- *.
  apply register_records_shape in Hb as (i & Hbi & Hshape). unfold untouched in Hn. rewrite Hbi in Hn.
  apply bind_hub_id_valid in Hbi as (Hvi & _).
  destruct Hshape as [(k & r0 & i' & Hp & Hk & Hq & -> & ->)|(Hp & -> & ->)]; rewrite Hp in Hn.
  - assert (Hun : unambiguous (delete k (reg_file g) ++ [update_record rq r0 i'])).
    { apply sorted_snoc; [by apply sorted_delete|]. apply Forall_forall. intros s Hs a Ha Hin.
      apply update_names in Hin as [Hin|Hin]; [|by eapply (proj1 (Forall_forall _ _) Hn s Hs a)].
      apply list_elem_of_lookup in Hs as [j Hj]. rewrite list_lookup_delete in Hj.
      case_decide; eapply (sorted_apart (reg_file g) k); eauto; lia. }
    split; [done|]. intros r a Hr Ha. destruct (elem_of_delete_or _ _ _ _ Hk Hr) as [->|Hin].
    + destruct (update_outlives rq uuid r0 i i' (Forall_lookup_1 _ _ _ _ Hv Hk) Hvi Hq) as (He & _ & Hal).
      destruct (Hal a Ha) as [Ha'|Hd]; [left|by right]. eexists. split; [|exact He].
      apply actor_index_lookup; [done| |done]. apply elem_of_app. right. by apply list_elem_of_singleton.
    + left. exists r. split; [|done]. apply actor_index_lookup; [done| |done]. apply elem_of_app. by left.
  - assert (Hun : unambiguous (reg_file g ++ [update_record rq (new_record rq i uuid) i])).
    { apply sorted_snoc; [done|]. apply Forall_forall. intros s Hs a Ha Hin.
      apply update_names in Hin as [Hin|Hin]; [|by eapply (proj1 (Forall_forall _ _) Hn s Hs a)].
      eapply (proj1 (Forall_forall _ _) Hn s Hs a); [|done]. by apply new_record_names. }
    split; [done|]. intros r a Hr Ha. left. exists r. split; [|done].
    apply actor_index_lookup; [done| |done]. apply elem_of_app. by left.
Qed.

(** ** Examples *)

Module Examples.

Definition contact : Request :=
  {| rq_subject := Principal (Hub "7"); rq_hub_id := Some "7"; rq_signing_did := None;
     rq_identity_key := Some "did:key:K1"; rq_name := None; rq_registration := Registered |}.
Definition hosted (did : string) : Request :=
  {| rq_subject := principal_ref "p"; rq_hub_id := None; rq_signing_did := Some did; rq_identity_key := Some did;
     rq_name := Some "p"; rq_registration := LocalOnly |}.
Definition contact_record : ActorRecord :=
  {| info := from_subject (Principal (Hub "7")) None; rec_key := "did:key:K1"; signing_did := None;
     historical_aliases := ∅ |}.

End Examples.

Lemma identities_outlive_witness :
  exists r', r' ∈ reg_file (reg_after (written [Examples.contact_record]) (RRegister (Examples.hosted "did:key:K1") "u")) /\
    outlives (RRegister (Examples.hosted "did:key:K1") "u") Examples.contact_record r'.
Proof.
  apply (identities_outlive [RRegister Examples.contact "u"] (RRegister (Examples.hosted "did:key:K1") "u")
           Examples.contact_record).
  apply list_elem_of_singleton. vm_compute. reflexivity.
Defined.

Lemma registered_keys_stable_witness :
  unambiguous (reg_file (written [Examples.contact_record])).
Proof.
  apply (registered_keys_stable (written []) Examples.contact "u" (rec_info Examples.contact_record)).
  - by constructor.
  - constructor.
  - vm_compute. reflexivity.
  - constructor.
Defined.

(** The guard that an actor's key cannot change looks only at the first record
    a request is about.  Registering a hosted id under a second key is refused,
    unless that key is already known from a contact recorded earlier: then the
    registration succeeds and the id, with everything kept under it, goes over
    to the contact's key. *)
Theorem known_contact_takes_over_id :
  let refused := reg_run (written []) [RRegister (Examples.hosted "did:key:D2") "u1"; RRegister Examples.contact "u2"] in
  let taken := reg_run (written []) [RRegister Examples.contact "u1"; RRegister (Examples.hosted "did:key:D2") "u2"] in
  reg_step refused (RRegister (Examples.hosted "did:key:K1") "u3") = Err (Fails (Adapter "Actor identity key cannot change")) /\
  registry_key_of refused (principal_ref "p") = "did:key:D2" /\
  registry_key_of taken (principal_ref "p") = "did:key:D2" /\
  registry_key_of (reg_after taken (RRegister (Examples.hosted "did:key:K1") "u3")) (principal_ref "p") = "did:key:K1".
Proof. vm_compute. split_and!; reflexivity. Qed.

(** A signing identity that is not a [did:key] may be replaced, and then no
    longer resolves: rows and posts under it lose their actor, although the
    previous names of a record are meant to stay resolvable. *)
Theorem replaced_signing_did_forgotten :
  let before := reg_run (written []) [RRegister (Examples.hosted "did:peko:1") "u1"] in
  let after := reg_run before
    [RRegister {| rq_subject := principal_ref "p"; rq_hub_id := None; rq_signing_did := Some "did:key:2";
                  rq_identity_key := None; rq_name := None; rq_registration := LocalOnly |} "u2"] in
  store_address (reg_index before) "did:peko:1" = "principal:local:p" /\
  store_address (reg_index after) "did:peko:1" = "principal:did:peko:1" /\
  store_address (reg_index after) "did:key:2" = "principal:local:p".
Proof. vm_compute. split_and!; reflexivity. Qed.
