(* ===== verification/ChannelLog.v ===== *)
(** * ChannelLog: the event log of a channel

    The paged, append-only log of peko-rs/channel/src/store.rs: lines and their
    envelopes, the cache of line counts, appending with rotation, the three
    reads ([read_events], [read_tail], [search_events]) and the default bodies
    of the port that define the same reads on the whole log
    (peko-rs/channel/src/port.rs).  The JSON of a line is an interface,
    [EventJson]; the files of a log change only by its appends while it is
    read.  The naming of actors on reads ([norm]) is [ChannelStore]'s. *)

From Stdlib Require Import ZArith Lia Ascii Sorting.Sorted.
From stdpp Require Import base tactics list gmap strings.
From S2P Require Import Prelude Text ChannelWire.

Local Open Scope nat_scope.
Open Scope rust_scope.

(** ** Lines *)

Inductive EventOrigin := LocalOrigin | VerifiedRemote.
#[export] Instance EventOrigin_eq_dec : EqDecision EventOrigin.
Proof. solve_decision. Defined.

(** ["kind":"posted"] with its quotes. *)
Definition Q : string := String "034" "".
Definition POSTED_TAG : string := Q +:+ "kind" +:+ Q +:+ ":" +:+ Q +:+ "posted" +:+ Q.

(** The JSON of a line: [to_vec] of an [EventLine], the probe for its origin,
    and the two readers. *)
Class EventJson := {
  to_line : EventOrigin -> ChannelEvent -> string;
  probe : string -> option (option EventOrigin);
  from_line : string -> option (EventOrigin * ChannelEvent);
  from_event : string -> option ChannelEvent;
}.
Class EventJsonLaws (J : EventJson) : Prop := {
  to_line_one o e : str_has LF (to_line o e) = false;
  to_line_some o e : to_line o e <> "";
  probe_to_line o e : probe (to_line o e) = Some (Some o);
  from_to_line o e : from_line (to_line o e) = Some (o, e);
  to_line_tag o p : contains_str POSTED_TAG (to_line o (Posted p)) = true;
}.

Definition parse_event_line `{EventJson} (content : string) : result (EventOrigin * ChannelEvent) string :=
  match probe content with
  | Some (Some origin) =>
      match from_line content with
      | Some (_, ev) => Ok (origin, ev)
      | None => Err "decode event-line envelope"
      end
  | _ => match from_event content with
         | Some ev => Ok (LocalOrigin, ev)
         | None => Err "decode bare event line"
         end
  end.

(** ** Pages *)

Inductive PageKey := Current | Rotated (n : Z).
#[export] Instance PageKey_eq_dec : EqDecision PageKey.
Proof. solve_decision. Defined.
#[export] Instance PageKey_countable : Countable PageKey.
Proof.
  refine (inj_countable' (fun k => match k with Current => None | Rotated n => Some n end)
                         (fun o => match o with None => Current | Some n => Rotated n end) _).
  by intros [].
Defined.

(** The files [events.<n>.jsonl] by number and [events.jsonl]. *)
Record LogDir := { rotated : list (Z * string); current : option string }.
Definition empty_dir : LogDir := {| rotated := []; current := None |}.

Definition page_bytes (d : LogDir) (k : PageKey) : option string :=
  match k with
  | Current => current d
  | Rotated n => snd <$> List.find (fun p => Z.eqb (fst p) n) (rotated d)
  end.

(** [rotated_pages], by number, and [all_pages]. *)
Definition rotated_pages (d : LogDir) : list PageKey :=
  map (fun p => Rotated (fst p)) (sort_by (fun a b => Z.leb (fst a) (fst b)) (rotated d)).
Definition all_pages (d : LogDir) : list PageKey :=
  rotated_pages d ++ (if is_some (current d) then [Current] else []).

(** The lines of a page that end in a newline. *)
Fixpoint page_lines (s : string) : list string :=
  match s with
  | EmptyString => []
  | String c s =>
      if decide (c = LF) then EmptyString :: page_lines s
      else match page_lines s with
           | [] => []
           | l :: ls => String c l :: ls
           end
  end.

Notation "'LineCounts'" := (gmap PageKey (nat * nat)) (only parsing).

Definition page_line_count (d : LogDir) (cache : LineCounts) (k : PageKey) : (nat * nat) * LineCounts :=
  match page_bytes d k with
  | None => ((0, 0), cache)
  | Some bytes =>
      let len := String.length bytes in
      let fresh := (length (page_lines bytes), len) in
      match cache !! k with
      | Some (count, cached_len) => if Nat.eqb cached_len len then ((count, len), cache) else (fresh, <[k := fresh]> cache)
      | None => (fresh, <[k := fresh]> cache)
      end
  end.

(** Counts of several pages, in order. *)
Fixpoint page_counts (d : LogDir) (cache : LineCounts) (ks : list PageKey) : list nat * LineCounts :=
  match ks with
  | [] => ([], cache)
  | k :: ks => let '((c, _), cache) := page_line_count d cache k in
               let '(cs, cache) := page_counts d cache ks in (c :: cs, cache)
  end.
Definition total (cs : list nat) : nat := foldr Nat.add 0 cs.
Definition global_line_count (d : LogDir) (cache : LineCounts) : nat * LineCounts :=
  let '(cs, cache) := page_counts d cache (all_pages d) in (total cs, cache).

(** ** Appending *)

(** The number is a u32; [page_numbers_bounded] bounds it by the number of
    events. *)
Definition next_page (d : LogDir) : Z :=
  match last (rotated_pages d) with Some (Rotated n) => n + 1 | _ => 1 end.

Definition append_line (d : LogDir) (cache : LineCounts) (rotate_bytes : nat) (bytes : string) :
    nat * LogDir * LineCounts :=
  let '(rs, cache) := page_counts d cache (rotated_pages d) in
  let '((cur_lines, cur_len), cache) := page_line_count d cache Current in
  let line_number := total rs + cur_lines in
  if Nat.ltb 0 cur_len && Nat.ltb rotate_bytes (cur_len + String.length bytes)
  then let n := next_page d in
       let cache := <[Rotated n := (cur_lines, cur_len)]> cache in
       (line_number,
        {| rotated := rotated d ++ [(n, default "" (current d))]; current := Some bytes |},
        <[Current := (1, String.length bytes)]> cache)
  else (line_number,
        {| rotated := rotated d; current := Some (default "" (current d) +:+ bytes) |},
        <[Current := (S cur_lines, cur_len + String.length bytes)]> cache).

Definition NEWLINE : string := String LF "".

Section Log.
Context `{J : EventJson} (norm : ChannelEvent -> ChannelEvent) (lower : string -> string).

(** [append_event]: a local event is stored as this runtime names its actors. *)
Definition append_event (d : LogDir) (cache : LineCounts) (rotate_bytes : nat) (ev : ChannelEvent)
    (origin : EventOrigin) : nat * LogDir * LineCounts :=
  let ev := if bool_decide (origin = LocalOrigin) then norm ev else ev in
  append_line d cache rotate_bytes (to_line origin ev +:+ NEWLINE).

(** ** Reading *)

Definition task_id (n : nat) : TaskId := dec (Z.of_nat n).

(** The events of consecutive lines from number [idx] on that are kept. *)
Fixpoint take_lines (keep : nat -> bool) (idx : nat) (ls : list string) :
    result (list (TaskId * ChannelEvent)) ChannelError :=
  match ls with
  | [] => Ok []
  | l :: ls =>
      if negb (String.eqb l "") && keep idx
      then match parse_event_line l with
           | Err e => Err (Adapter ("decode event at line " +:+ task_id idx +:+ ": " +:+ e))
           | Ok (_, ev) => rest <-? take_lines keep (S idx) ls; Ok ((task_id idx, norm ev) :: rest)
           end
      else take_lines keep (S idx) ls
  end.

Definition parse_checkpoint (since : TaskId) : result Z ChannelError :=
  if decide (since = "") then Ok 0%Z
  else match parse_usize since with
       | Some n => Ok n
       | None => Err (Adapter ("checkpoint " +:+ since +:+ " is not a numeric line offset"))
       end.

Fixpoint read_pages (d : LogDir) (start : Z) (idx : nat) (ks : list PageKey) (cache : LineCounts) :
    result (list (TaskId * ChannelEvent)) ChannelError * LineCounts :=
  match ks with
  | [] => (Ok [], cache)
  | k :: ks =>
      let '(count, cache) := if Z.ltb 0 start then let '((c, _), cache) := page_line_count d cache k in (Some c, cache)
                             else (None, cache) in
      if match count with Some c => Z.leb (Z.of_nat (idx + c)) start | None => false end
      then read_pages d start (idx + default 0 count) ks cache
      else match page_bytes d k with
           | None => read_pages d start idx ks cache
           | Some bytes =>
               let ls := page_lines bytes in
               match take_lines (fun i => Z.leb start (Z.of_nat i)) idx ls with
               | Err e => (Err e, cache)
               | Ok evs => let '(rest, cache) := read_pages d start (idx + length ls) ks cache in
                           (rest <-? rest; Ok (evs ++ rest), cache)
               end
           end
  end.

Definition read_events (d : LogDir) (cache : LineCounts) (since : TaskId) :
    result (list (TaskId * ChannelEvent)) ChannelError * LineCounts :=
  match parse_checkpoint since with
  | Err e => (Err e, cache)
  | Ok start => read_pages d start 0 (all_pages d) cache
  end.

(** Where a backward read ends: [before], or the tip, at most the tip. *)
Definition read_end (before : option TaskId) (tip : nat) : result nat ChannelError :=
  match before with
  | None => Ok tip
  | Some b => match parse_usize b with
              | Some n => Ok (Z.to_nat (Z.min n (Z.of_nat tip)))
              | None => Err (Adapter ("invalid before cursor " +:+ Q +:+ b +:+ Q +:+ ": not a numeric line offset"))
              end
  end.

Fixpoint tail_pages (d : LogDir) (from end_ base : nat) (ks : list (PageKey * nat)) :
    result (list (TaskId * ChannelEvent)) ChannelError :=
  match ks with
  | [] => Ok []
  | (k, count) :: ks =>
      let page_end := base + count in
      if Nat.leb page_end from then tail_pages d from end_ page_end ks
      else if Nat.leb end_ base then Ok []
      else match page_bytes d k with
           | None => tail_pages d from end_ page_end ks
           | Some bytes =>
               evs <-? take_lines (fun i => Nat.leb from i && Nat.ltb i end_) base (page_lines bytes);
               rest <-? tail_pages d from end_ page_end ks;
               Ok (evs ++ rest)
           end
  end.

Definition read_tail (d : LogDir) (cache : LineCounts) (limit : nat) (before : option TaskId) :
    result TailPage ChannelError * LineCounts :=
  let ks := all_pages d in
  let '(cs, cache) := page_counts d cache ks in
  (end_ <-? read_end before (total cs);
   let from := end_ - limit in
   evs <-? tail_pages d from end_ 0 (zip ks cs);
   Ok {| tp_events := evs; tp_has_more := Nat.ltb 0 from |}, cache).

(** [event_at]; [index + 1] does not overflow for a line of the log. *)
Definition event_at (d : LogDir) (cache : LineCounts) (line : TaskId) : result (option ChannelEvent) ChannelError * LineCounts :=
  match parse_usize line with
  | None => (Ok None, cache)
  | Some index =>
      let '(page, cache) := read_tail d cache 1 (Some (dec (index + 1))) in
      (page <-? page; Ok (snd <$> List.find (fun p => String.eqb (fst p) line) (tp_events page)), cache)
  end.

(** ** Searching *)

Definition SEARCH_MAX_SCAN_LINES : nat := Z.to_nat 100000.
Definition SEARCH_MAX_MATCHES : nat := 200.

Record Scan := { sc_matches : list (nat * ChannelEvent); sc_scanned : nat; sc_floor : nat; sc_stop : bool }.

(** The lines of a page that are not empty, with their numbers, newest first. *)
Fixpoint number_lines (base : nat) (ls : list string) : list (nat * string) :=
  match ls with
  | [] => []
  | l :: ls => (if String.eqb l "" then [] else [(base, l)]) ++ number_lines (S base) ls
  end.

(** [sc_matches] is newest first; [sc_stop] is [break 'outer]. *)
Fixpoint scan_lines (budget limit end_ : nat) (needle author : option string) (ls : list (nat * string)) (s : Scan) :
    result Scan ChannelError :=
  match ls with
  | [] => Ok s
  | (gidx, content) :: ls =>
      if Nat.leb end_ gidx then scan_lines budget limit end_ needle author ls s
      else if Nat.leb budget (sc_scanned s)
      then Ok {| sc_matches := sc_matches s; sc_scanned := sc_scanned s; sc_floor := sc_floor s; sc_stop := true |}
      else
        let s := {| sc_matches := sc_matches s; sc_scanned := S (sc_scanned s); sc_floor := gidx; sc_stop := false |} in
        if negb (contains_str POSTED_TAG content) then scan_lines budget limit end_ needle author ls s
        else match parse_event_line content with
             | Err e => Err (Adapter ("decode event at line " +:+ task_id gidx +:+ ": " +:+ e))
             | Ok (_, ev) =>
                 let ev := norm ev in
                 if query_matches lower ev needle author
                 then let ms := sc_matches s ++ [(gidx, ev)] in
                      let stop := Nat.leb limit (length ms) in
                      let s := {| sc_matches := ms; sc_scanned := sc_scanned s; sc_floor := gidx; sc_stop := stop |} in
                      if stop then Ok s else scan_lines budget limit end_ needle author ls s
                 else scan_lines budget limit end_ needle author ls s
             end
  end.

Fixpoint scan_pages (budget limit end_ : nat) (needle author : option string) (d : LogDir)
    (ks : list (PageKey * nat)) (s : Scan) : result Scan ChannelError :=
  match ks with
  | [] => Ok s
  | (k, base) :: ks =>
      if Nat.leb end_ base then scan_pages budget limit end_ needle author d ks s
      else match page_bytes d k with
           | None => scan_pages budget limit end_ needle author d ks s
           | Some bytes =>
               s <-? scan_lines budget limit end_ needle author (rev (number_lines base (page_lines bytes))) s;
               if sc_stop s then Ok s else scan_pages budget limit end_ needle author d ks s
           end
  end.

Fixpoint bases (base : nat) (cs : list nat) : list nat :=
  match cs with [] => [] | c :: cs => base :: bases (base + c) cs end.

Definition search_with (budget : nat) (d : LogDir) (cache : LineCounts) (query : ChannelQuery) :
    result SearchPage ChannelError * LineCounts :=
  let ks := all_pages d in
  let '(cs, cache) := page_counts d cache ks in
  (end_ <-? read_end (q_before query) (total cs);
   let limit := Nat.min (Nat.max (q_limit query) 1) SEARCH_MAX_MATCHES in
   s <-? scan_pages budget limit end_ (lower <$> q_text query) (q_author query) d (rev (zip ks (bases 0 cs)))
           {| sc_matches := []; sc_scanned := 0; sc_floor := end_; sc_stop := false |};
   let has_more := Nat.ltb 0 (sc_floor s) in
   Ok {| sp_events := map (fun '(n, ev) => (task_id n, ev)) (rev (sc_matches s));
         sp_has_more := has_more;
         sp_resume_before := if has_more then Some (task_id (sc_floor s)) else None |}, cache).
Definition search_events : LogDir -> LineCounts -> ChannelQuery -> result SearchPage ChannelError * LineCounts :=
  search_with SEARCH_MAX_SCAN_LINES.

(** ** The port's default bodies, on all events with their ids *)

Definition default_peek_tail (all : list (TaskId * ChannelEvent)) (limit : nat) (before : option TaskId) :
    result TailPage ChannelError :=
  end_ <-? match before with
           | None => Ok (length all)
           | Some b => match parse_usize b with
                       | Some b => Ok (default (length all)
                           (position (fun '(id, _) => match parse_usize id with Some n => Z.leb b n | None => false end) all))
                       | None => Err (Adapter ("invalid before cursor " +:+ Q +:+ b +:+ Q +:+ ": not a numeric line offset"))
                       end
           end;
  let start := end_ - limit in
  Ok {| tp_events := drop start (take end_ all); tp_has_more := Nat.ltb 0 start |}.

Definition older_than (before : option Z) (id : TaskId) : bool :=
  match before with
  | Some b => match parse_usize id with Some n => negb (Z.leb b n) | None => true end
  | None => true
  end.
Definition default_search (all : list (TaskId * ChannelEvent)) (query : ChannelQuery) : result SearchPage ChannelError :=
  before <-? match q_before query with
             | None => Ok None
             | Some b => match parse_usize b with
                         | Some b => Ok (Some b)
                         | None => Err (Adapter ("invalid before cursor " +:+ Q +:+ b +:+ Q +:+ ": not a numeric line offset"))
                         end
             end;
  let ms := List.filter (fun '(id, ev) => older_than before id
                          && query_matches lower ev (lower <$> q_text query) (q_author query)) all in
  let overflow := Nat.ltb (q_limit query) (length ms) in
  Ok {| sp_events := if overflow then drop (length ms - q_limit query) ms else ms;
        sp_has_more := overflow; sp_resume_before := None |}.

(** [find_post]: the newest post under a stable id. *)
Definition find_post (all : list (TaskId * ChannelEvent)) (msg_id : string) : option (TaskId * ChannelEvent) :=
  List.find (fun '(_, ev) => match ev with Posted p => bool_decide (p_msg_id p = Some msg_id) | _ => false end) (rev all).

End Log.

(** ** Lemmas *)

(** *** Lines and pages *)

(** What follows the last newline. *)
Fixpoint page_tail (s : string) : string :=
  match s with
  | EmptyString => EmptyString
  | String c s => if decide (c = LF) then page_tail s
                  else match page_lines s with [] => String c s | _ => page_tail s end
  end.

Lemma page_lines_app a b : page_lines (a +:+ b) = page_lines a ++ page_lines (page_tail a +:+ b).
Proof.
  induction a as [|c a IH]; [done|]. rewrite app_cons_str. cbn [page_lines page_tail].
  case_decide as Hc; [cbn; by rewrite IH|]. rewrite IH.
  destruct (page_lines a) as [|l ls] eqn:E; [|done]. cbn [app].
  rewrite app_cons_str. cbn [page_lines]. rewrite decide_False by done.
  cbn [app] in IH. by rewrite <- IH.
Qed.

Lemma page_lines_line l : str_has LF l = false -> page_lines (l +:+ NEWLINE) = [l].
Proof.
  induction l as [|c l IH]; [done|]. cbn [str_has]. case_decide as Hc; [done|]. intros H.
  rewrite app_cons_str. cbn [page_lines]. by rewrite decide_False, IH.
Qed.

Lemma page_tail_none s : str_has LF (page_tail s) = false.
Proof.
  induction s as [|c s IH]; [done|]. cbn [page_tail]. case_decide as Hc; [done|].
  destruct (page_lines s) eqn:E; [|done]. cbn [str_has]. rewrite decide_False by done.
  clear - E. induction s as [|b s IH]; [done|]. cbn [page_lines] in E. cbn [str_has].
  case_decide; [done|]. destruct (page_lines s); [auto|done].
Qed.

Lemma page_tail_line a l : str_has LF l = false -> page_tail (a +:+ l +:+ NEWLINE) = "".
Proof.
  intros Hl. assert (H : forall l, page_tail (l +:+ NEWLINE) = "").
  { clear. induction l as [|c l IH]; [done|]. rewrite app_cons_str. cbn [page_tail].
    case_decide; [done|]. destruct (page_lines (l +:+ NEWLINE)) as [|x xs] eqn:E; [|done].
    exfalso. clear - E. induction l as [|b l IH]; [done|]. rewrite app_cons_str in E. cbn [page_lines] in E.
    case_decide; [done|]. destruct (page_lines (l +:+ NEWLINE)); [auto|done]. }
  rewrite app_assoc_str. apply H.
Qed.

Lemma append_lines a l : str_has LF l = false ->
  page_lines (a +:+ (l +:+ NEWLINE)) = page_lines a ++ [page_tail a +:+ l].
Proof.
  intros Hl. rewrite page_lines_app. f_equal. rewrite app_assoc_str. apply page_lines_line.
  by rewrite str_has_app, page_tail_none, Hl.
Qed.

(** *** Directories *)

Definition dir_ok (d : LogDir) : Prop := StronglySorted Z.lt (map fst (rotated d)).

Definition log_bytes (d : LogDir) : list string := map snd (rotated d) ++ match current d with Some b => [b] | None => [] end.
(** All the lines of the log, oldest first: the numbers of events count them. *)
Definition log_lines (d : LogDir) : list string := concat (map page_lines (log_bytes d)).

Lemma insert_by_least {A} (le : A -> A -> bool) x l :
  Forall (fun y => le x y = true) l -> insert_by le x l = x :: l.
Proof. intros H. destruct l as [|y l]; [done|]. inversion_clear H. cbn. by rewrite H0. Qed.

Lemma sort_rotated (l : list (Z * string)) : StronglySorted Z.lt (map fst l) ->
  sort_by (fun a b => Z.leb (fst a) (fst b)) l = l.
Proof.
  induction l as [|x l IH]; [done|]. cbn [map sort_by]. intros [Hs Hf]%StronglySorted_inv.
  rewrite IH by done. apply insert_by_least. rewrite Forall_map in Hf.
  eapply Forall_impl; [exact Hf|]. intros y Hy. apply Z.leb_le. cbn in Hy. lia.
Qed.

Lemma rotated_pages_ok d : dir_ok d -> rotated_pages d = map (fun p => Rotated (fst p)) (rotated d).
Proof. intros H. unfold rotated_pages. by rewrite sort_rotated. Qed.

Lemma find_rotated (l : list (Z * string)) n s : StronglySorted Z.lt (map fst l) -> (n, s) ∈ l ->
  List.find (fun p => Z.eqb (fst p) n) l = Some (n, s).
Proof.
  induction l as [|x l IH]; intros Hs Hin; [by apply not_elem_of_nil in Hin|]. cbn [map] in Hs.
  apply StronglySorted_inv in Hs as [Hs Hf]. rewrite Forall_map, Forall_forall in Hf. cbn [List.find].
  apply elem_of_cons in Hin as [<-|Hin]; [cbn; by rewrite Z.eqb_refl|].
  specialize (Hf _ Hin). cbn in Hf. rewrite (proj2 (Z.eqb_neq _ _)) by lia. auto.
Qed.

Lemma page_bytes_rotated d p : dir_ok d -> p ∈ rotated d -> page_bytes d (Rotated (fst p)) = Some (snd p).
Proof. intros Hd Hp. destruct p as [n s]. cbn. by rewrite (find_rotated _ n s). Qed.

Lemma all_pages_bytes d : dir_ok d -> map (page_bytes d) (all_pages d) = map Some (log_bytes d).
Proof.
  intros Hd. unfold all_pages, log_bytes. rewrite rotated_pages_ok by done. rewrite !map_app, !map_map. f_equal.
  - apply map_ext_in. intros p Hp. by apply page_bytes_rotated, list_elem_of_In.
  - by destruct (current d) eqn:E; cbn; rewrite ?E.
Qed.

(** *** The cache *)

Definition sound (d : LogDir) (cache : LineCounts) : Prop :=
  forall k bytes c, page_bytes d k = Some bytes -> cache !! k = Some (c, String.length bytes) ->
    c = length (page_lines bytes).

(** The same, as a test of the entries. *)
Definition sound_entry (d : LogDir) (e : PageKey * (nat * nat)) : bool :=
  let '(k, (c, n)) := e in
  match page_bytes d k with
  | Some b => negb (Nat.eqb n (String.length b)) || Nat.eqb c (length (page_lines b))
  | None => true
  end.
Lemma sound_checked d cache : forallb (sound_entry d) (map_to_list cache) = true -> sound d cache.
Proof.
  intros H k b c Hb Hc. rewrite forallb_forall in H. specialize (H (k, (c, String.length b))).
  rewrite <- list_elem_of_In, elem_of_map_to_list in H. specialize (H Hc). cbn in H.
  rewrite Hb, Nat.eqb_refl in H. by apply Nat.eqb_eq in H.
Qed.

Lemma page_line_count_ok d cache k r cache' :
  sound d cache -> page_line_count d cache k = (r, cache') ->
  sound d cache' /\
  r = match page_bytes d k with Some b => (length (page_lines b), String.length b) | None => (0, 0) end.
Proof.
  intros Hs. unfold page_line_count. destruct (page_bytes d k) as [b|] eqn:Hk; [|by intros [= <- <-]].
  assert (Hs' : sound d (<[k := (length (page_lines b), String.length b)]> cache)).
  { intros k' b' c Hb'. destruct (decide (k' = k)) as [->|Hne].
    - rewrite lookup_insert_eq. naive_solver.
    - rewrite lookup_insert_ne by done. by apply Hs. }
  destruct (cache !! k) as [[c l]|] eqn:Hc; [|by intros [= <- <-]].
  destruct (Nat.eqb_spec l (String.length b)) as [->|]; intros [= <- <-]; [|done].
  split; [done|]. by rewrite (Hs k b c Hk Hc).
Qed.

Lemma page_counts_ok d cache ks cs cache' :
  sound d cache -> page_counts d cache ks = (cs, cache') ->
  sound d cache' /\ cs = map (fun k => length (page_lines (default "" (page_bytes d k)))) ks.
Proof.
  revert cache cs cache'. induction ks as [|k ks IH]; intros cache cs cache' Hs; cbn [page_counts].
  { by intros [= <- <-]. }
  destruct (page_line_count d cache k) as [[c l] cache1] eqn:E1.
  destruct (page_counts d cache1 ks) as [cs1 cache2] eqn:E2. intros [= <- <-].
  apply page_line_count_ok in E1 as [Hs1 E1]; [|done]. destruct (IH _ _ _ Hs1 E2) as [Hs2 ->].
  split; [done|]. cbn. destruct (page_bytes d k); by injection E1 as -> _.
Qed.

Lemma all_counts_ok d cache cs cache' :
  dir_ok d -> sound d cache -> page_counts d cache (all_pages d) = (cs, cache') ->
  sound d cache' /\ cs = map (fun b => length (page_lines b)) (log_bytes d).
Proof.
  intros Hd Hs H. apply page_counts_ok in H as [Hs' ->]; [|done]. split; [done|].
  rewrite <- (map_map (page_bytes d) (fun o => length (page_lines (default "" o)))), all_pages_bytes by done.
  by rewrite map_map.
Qed.

Lemma total_concat (bs : list string) :
  total (map (fun b => length (page_lines b)) bs) = length (concat (map page_lines bs)).
Proof. induction bs as [|b bs IH]; [done|]. cbn. rewrite length_app. unfold total in IH. by rewrite IH. Qed.

(** *** Appending *)

(** The current page ends with a newline, or is empty. *)
Definition whole (d : LogDir) : Prop := page_tail (default "" (current d)) = "".
(** The same, as a test of the last byte. *)
Fixpoint ends_line (s : string) : bool :=
  match s with
  | EmptyString => true
  | String c EmptyString => bool_decide (c = LF)
  | String _ s => ends_line s
  end.
Lemma whole_checked d : ends_line (default "" (current d)) = true -> whole d.
Proof.
  unfold whole. generalize (default "" (current d)). induction s as [|c [|c' s] IH]; [done| |].
  - cbn. case_bool_decide; [by subst|done].
  - intros H. specialize (IH H). change (page_tail (String c (String c' s)))
      with (if decide (c = LF) then page_tail (String c' s)
            else match page_lines (String c' s) with [] => String c (String c' s) | _ => page_tail (String c' s) end).
    case_decide; [done|]. destruct (page_lines (String c' s)) eqn:E; [|done]. exfalso. revert E IH.
    cbn [page_tail page_lines]. case_decide; [done|]. by destruct (page_lines s).
Qed.

Lemma next_page_above d : dir_ok d -> Forall (fun p => (fst p < next_page d)%Z) (rotated d).
Proof.
  unfold dir_ok, next_page. intros Hd. rewrite rotated_pages_ok by done. revert Hd.
  induction (rotated d) as [|x l IH] using rev_ind; [constructor|]. rewrite !map_app. cbn [map].
  rewrite last_snoc. intros Hd. apply Forall_app. split; [|by repeat constructor; lia].
  clear IH. induction l as [|y l IH]; [constructor|]. cbn in Hd. apply StronglySorted_inv in Hd as [Hs Hf].
  rewrite Forall_app, Forall_singleton in Hf. constructor; [lia|auto].
Qed.

Lemma sorted_rotate d : dir_ok d -> StronglySorted Z.lt (map fst (rotated d ++ [(next_page d, default "" (current d))])).
Proof.
  intros Hd. pose proof (next_page_above d Hd) as Hn. unfold dir_ok in Hd. rewrite map_app. cbn [map fst].
  induction (rotated d) as [|x l IH]; [by repeat constructor|]. cbn in *.
  apply StronglySorted_inv in Hd as [Hs Hf]. inversion_clear Hn. constructor; [auto|].
  apply Forall_app. split; [done|by constructor].
Qed.

Lemma append_line_spec d cache rotate l n d' cache' :
  dir_ok d -> sound d cache -> str_has LF l = false ->
  append_line d cache rotate (l +:+ NEWLINE) = (n, d', cache') ->
  n = length (log_lines d) /\ dir_ok d' /\ sound d' cache' /\ whole d' /\
  (whole d -> log_lines d' = log_lines d ++ [l]) /\
  (forall b, b ∈ log_bytes d' -> b ∈ log_bytes d \/ String.length b <= Nat.max rotate (String.length (l +:+ NEWLINE))).
Proof.
  intros Hd Hs Hl. unfold append_line.
  destruct (page_counts d cache (rotated_pages d)) as [rs cache1] eqn:E1.
  apply page_counts_ok in E1 as [Hs1 ->]; [|done].
  destruct (page_line_count d cache1 Current) as [[cl cn] cache2] eqn:E2.
  apply page_line_count_ok in E2 as [Hs2 E2]; [|done]. cbn in E2.
  assert (cl = length (page_lines (default "" (current d))) /\ cn = String.length (default "" (current d))) as [-> ->]
    by (destruct (current d); by injection E2 as -> ->). clear E2.
  assert (Hn : total (map (fun k => length (page_lines (default "" (page_bytes d k)))) (rotated_pages d))
               + length (page_lines (default "" (current d))) = length (log_lines d)).
  { rewrite rotated_pages_ok, map_map by done. unfold log_lines, log_bytes. rewrite map_app, concat_app, length_app.
    rewrite <- total_concat. f_equal.
    - f_equal. rewrite map_map. apply map_ext_in. intros p Hp%list_elem_of_In. by rewrite page_bytes_rotated.
    - destruct (current d); cbn; by rewrite ?app_nil_r. }
  rewrite Hn. clear Hn. set (cur := default "" (current d)) in *. set (bytes := l +:+ NEWLINE).
  destruct (Nat.ltb 0 (String.length cur) && Nat.ltb rotate (String.length cur + String.length bytes)) eqn:Hr;
    intros [= <- <- <-].
  - split_and!; [done|by apply sorted_rotate| | | |].
    + intros k b c Hk. destruct k as [|m].
      * rewrite lookup_insert_eq. injection Hk as <-. intros [= <-]. unfold bytes. by rewrite page_lines_line.
      * rewrite lookup_insert_ne by done. destruct (decide (m = next_page d)) as [->|Hne].
        -- rewrite lookup_insert_eq. cbn in Hk.
           rewrite (find_rotated _ (next_page d) cur) in Hk; [|by apply sorted_rotate|apply elem_of_app; right; left].
           injection Hk as <-. by intros [= <-].
        -- rewrite lookup_insert_ne by congruence. apply Hs2. cbn in Hk |- *. rewrite <- Hk. f_equal.
           clear - Hne. induction (rotated d) as [|x r IH]; cbn.
           ++ by destruct (Z.eqb_spec (next_page d) m).
           ++ by rewrite IH.
    + unfold whole. cbn. apply (page_tail_line ""). done.
    + intros _. unfold log_lines, log_bytes. cbn. rewrite !map_app, !concat_app. cbn. unfold bytes.
      rewrite page_lines_line, app_nil_r by done. f_equal. f_equal.
      unfold cur. destruct (current d); cbn; by rewrite ?app_nil_r.
    + unfold log_bytes. cbn. intros b. rewrite map_app, !elem_of_app. cbn. rewrite !list_elem_of_singleton.
      intros [[Hb| ->]| ->]; [auto| |right; lia]. left. right. unfold cur in *. destruct (current d); [by left|done].
  - split_and!; [done|done| | | |].
    + intros k b c Hk. destruct k as [|m].
      * rewrite lookup_insert_eq. injection Hk as <-. intros [= <- _]. unfold bytes. rewrite append_lines by done.
        rewrite length_app. cbn. lia.
      * rewrite lookup_insert_ne by done. by apply Hs2.
    + unfold whole. cbn. by apply page_tail_line.
    + unfold whole. fold cur. intros Hw. unfold log_lines, log_bytes. cbn. rewrite !map_app, !concat_app. cbn. unfold bytes.
      rewrite append_lines, Hw by done. cbn. rewrite app_nil_r, <- app_assoc. f_equal.
      unfold cur. destruct (current d); cbn; by rewrite ?app_nil_r.
    + unfold log_bytes. cbn. intros b. rewrite !elem_of_app, list_elem_of_singleton. intros [Hb| ->]; [auto|].
      right. rewrite length_app_str. apply andb_false_iff in Hr as [Hr|Hr].
      * apply Nat.ltb_ge in Hr. unfold cur in *. destruct (default "" (current d)); cbn in *; lia.
      * apply Nat.ltb_ge in Hr. lia.
Qed.

Section LogFacts.
Context `{J : EventJson} (norm : ChannelEvent -> ChannelEvent) (lower : string -> string).

(** *** Reading *)

Lemma take_lines_app keep idx a b :
  take_lines norm keep idx (a ++ b) =
  (evs <-? take_lines norm keep idx a; rest <-? take_lines norm keep (idx + length a) b; Ok (evs ++ rest)).
Proof.
  revert idx. induction a as [|l a IH]; intros idx; cbn [app take_lines length rbind].
  - rewrite Nat.add_0_r. by destruct (take_lines norm keep idx b).
  - replace (idx + S (length a)) with (S idx + length a) by lia.
    destruct (negb (String.eqb l "") && keep idx); [|apply IH].
    destruct (parse_event_line l) as [[o ev]|]; cbn [rbind]; [|done]. rewrite IH.
    destruct (take_lines norm keep (S idx) a); cbn [rbind]; [|done].
    by destruct (take_lines norm keep (S idx + length a) b).
Qed.

Lemma take_lines_none keep idx ls :
  (forall i, idx <= i < idx + length ls -> keep i = false) -> take_lines norm keep idx ls = Ok [].
Proof.
  revert idx. induction ls as [|l ls IH]; intros idx H; cbn [take_lines length] in *; [done|].
  rewrite H, andb_false_r by lia. apply IH. intros i Hi. apply H. lia.
Qed.

Lemma take_lines_ext keep keep' idx ls :
  (forall i, idx <= i < idx + length ls -> keep i = keep' i) -> take_lines norm keep idx ls = take_lines norm keep' idx ls.
Proof.
  revert idx. induction ls as [|l ls IH]; intros idx H; cbn [take_lines length] in *; [done|].
  rewrite (H idx), (IH (S idx)) by (lia || intros; apply H; lia). done.
Qed.

Lemma read_pages_spec d start idx ks bs cache :
  sound d cache -> map (page_bytes d) ks = map Some bs ->
  fst (read_pages norm d start idx ks cache)
  = take_lines norm (fun i => Z.leb start (Z.of_nat i)) idx (concat (map page_lines bs)) /\
  sound d (snd (read_pages norm d start idx ks cache)).
Proof.
  revert idx bs cache. induction ks as [|k ks IH]; intros idx [|b bs] cache Hs Hks; try done.
  injection Hks as Hk Hks. cbn [read_pages map concat].
  rewrite take_lines_app.
  destruct (if Z.ltb 0 start then _ else _) as [count cache1] eqn:Ec.
  assert (sound d cache1 /\ (count = None \/ count = Some (length (page_lines b)))) as [Hs1 Hc].
  { destruct (Z.ltb 0 start); [|injection Ec as <- <-; auto].
    destruct (page_line_count d cache k) as [[c n] cache2] eqn:E. apply page_line_count_ok in E as [Hs2 E]; [|done].
    rewrite Hk in E. injection E as -> ->. injection Ec as <- <-. auto. }
  destruct (match count with Some c => Z.leb (Z.of_nat (idx + c)) start | None => false end) eqn:Hskip.
  - destruct Hc as [->| ->]; [done|]. apply Z.leb_le in Hskip. cbn [default from_option]. unfold id in *.
    rewrite (take_lines_none _ idx (page_lines b)).
    + cbn [rbind]. destruct (IH (idx + length (page_lines b)) bs cache1 Hs1 Hks) as [-> ?]. split; [|done].
      by destruct (take_lines norm _ _ _).
    + intros i Hi. apply Z.leb_gt. lia.
  - rewrite Hk. destruct (take_lines norm _ idx (page_lines b)) as [evs|e] eqn:Et; cbn [rbind fst snd]; [|done].
    destruct (IH (idx + length (page_lines b)) bs cache1 Hs1 Hks) as [IH1 IH2].
    destruct (read_pages norm d start (idx + length (page_lines b)) ks cache1) as [rest cache2]. cbn [fst snd] in *.
    by subst rest.
Qed.

Lemma read_events_spec d cache since :
  dir_ok d -> sound d cache ->
  fst (read_events norm d cache since)
  = (start <-? parse_checkpoint since; take_lines norm (fun i => Z.leb start (Z.of_nat i)) 0 (log_lines d)) /\
  sound d (snd (read_events norm d cache since)).
Proof.
  intros Hd Hs. unfold read_events. destruct (parse_checkpoint since) as [start|e]; cbn [rbind]; [|done].
  by apply read_pages_spec; [|apply all_pages_bytes].
Qed.

Lemma tail_pages_spec d from end_ base ks bs :
  map (page_bytes d) ks = map Some bs ->
  tail_pages norm d from end_ base (zip ks (map (fun b => length (page_lines b)) bs))
  = take_lines norm (fun i => Nat.leb from i && Nat.ltb i end_) base (concat (map page_lines bs)).
Proof.
  revert base bs. induction ks as [|k ks IH]; intros base [|b bs] Hks; try done.
  injection Hks as Hk Hks. cbn [zip zip_with map tail_pages concat]. rewrite take_lines_app.
  destruct (Nat.leb_spec (base + length (page_lines b)) from) as [Hf|Hf].
  { rewrite (take_lines_none _ base). 2: { intros i Hi. apply andb_false_iff. left. apply Nat.leb_gt. lia. }
    cbn [rbind]. rewrite <- IH by done. by destruct (tail_pages _ _ _ _ _ _). }
  destruct (Nat.leb_spec end_ base) as [He|He].
  { rewrite !take_lines_none; [done|..]; intros i Hi; apply andb_false_iff; right; apply Nat.ltb_ge; lia. }
  rewrite Hk, IH by done. done.
Qed.

Lemma read_tail_spec d cache limit before :
  dir_ok d -> sound d cache ->
  fst (read_tail norm d cache limit before)
  = (end_ <-? read_end before (length (log_lines d));
     evs <-? take_lines norm (fun i => Nat.leb (end_ - limit) i && Nat.ltb i end_) 0 (log_lines d);
     Ok {| tp_events := evs; tp_has_more := Nat.ltb 0 (end_ - limit) |}) /\
  sound d (snd (read_tail norm d cache limit before)).
Proof.
  intros Hd Hs. unfold read_tail. destruct (page_counts d cache (all_pages d)) as [cs cache1] eqn:E.
  apply all_counts_ok in E as [Hs1 ->]; [|done..]. cbn [fst snd]. rewrite total_concat. split; [|done].
  destruct (read_end before _) as [end_|]; cbn [rbind]; [|done].
  by rewrite (tail_pages_spec d _ _ 0 _ (log_bytes d)) by (by apply all_pages_bytes).
Qed.

(** *** Searching *)

Lemma lines_numbered_app base a b :
  number_lines base (a ++ b) = number_lines base a ++ number_lines (base + length a) b.
Proof.
  revert base. induction a as [|l a IH]; intros base; cbn [app number_lines length].
  - by rewrite Nat.add_0_r.
  - rewrite IH, <- app_assoc. by replace (base + S (length a)) with (S base + length a) by lia.
Qed.

Lemma number_lines_range base ls : Forall (fun p => base <= fst p < base + length ls) (number_lines base ls).
Proof.
  revert base. induction ls as [|l ls IH]; intros base; cbn [number_lines length]; [constructor|].
  apply Forall_app. split.
  - destruct (String.eqb l ""); repeat constructor; cbn; lia.
  - eapply Forall_impl; [apply IH|]. cbn. intros p Hp. lia.
Qed.

Section Scans.
Context (budget limit end_ : nat) (needle author : option string).
Local Abbreviation scan := (scan_lines norm lower budget limit end_ needle author).
Local Abbreviation scan_all := (scan_pages norm lower budget limit end_ needle author).

Lemma scan_skip ls s : Forall (fun p => end_ <= fst p) ls -> scan ls s = Ok s.
Proof.
  induction 1 as [|[g l] ls Hg _ IH]; [done|]. cbn [scan_lines].
  cbn in Hg. by rewrite (proj2 (Nat.leb_le _ _) Hg).
Qed.

Lemma scan_app a b s : sc_stop s = false ->
  scan (a ++ b) s = (s' <-? scan a s; if sc_stop s' then Ok s' else scan b s').
Proof.
  revert s. induction a as [|[g l] a IH]; intros s Hs; cbn [app scan_lines rbind]; [by rewrite Hs|].
  destruct (Nat.leb end_ g); [by apply IH|]. destruct (Nat.leb budget (sc_scanned s)); [done|].
  destruct (negb (contains_str POSTED_TAG l)); [by apply IH|].
  destruct (parse_event_line l) as [[o ev]|]; [|done]. cbn [sc_matches sc_scanned].
  destruct (query_matches lower (norm ev) needle author); [|by apply IH].
  destruct (Nat.leb limit _) eqn:E; [done|]. by apply IH.
Qed.

Lemma scan_pages_app d a b s : sc_stop s = false ->
  scan_all d (a ++ b) s = (s' <-? scan_all d a s; if sc_stop s' then Ok s' else scan_all d b s').
Proof.
  revert s. induction a as [|[k base] a IH]; intros s Hs; cbn [app scan_pages rbind]; [by rewrite Hs|].
  destruct (Nat.leb end_ base); [by apply IH|]. destruct (page_bytes d k); [|by apply IH].
  destruct (scan _ s) as [s'|]; cbn [rbind]; [|done]. destruct (sc_stop s') eqn:E; cbn [rbind]; [by rewrite E|by apply IH].
Qed.

Lemma scan_pages_spec d base ks bs s :
  sc_stop s = false -> map (page_bytes d) ks = map Some bs ->
  scan_all d (rev (zip ks (bases base (map (fun b => length (page_lines b)) bs)))) s
  = scan (rev (number_lines base (concat (map page_lines bs)))) s.
Proof.
  revert base bs. induction ks as [|k ks IH]; intros base [|b bs] Hs Hks; try done.
  injection Hks as Hk Hks. cbn [map bases zip zip_with rev concat].
  rewrite lines_numbered_app, rev_app_distr, scan_app, scan_pages_app by done.
  rewrite IH by done. destruct (scan _ s) as [s'|]; cbn [rbind]; [|done].
  destruct (sc_stop s') eqn:Hs'; [done|]. cbn [scan_pages]. rewrite Hk.
  destruct (Nat.leb_spec end_ base) as [He|He].
  - symmetry. apply scan_skip, Forall_rev. eapply Forall_impl; [apply number_lines_range|]. cbn. intros p Hp. lia.
  - destruct (scan (rev (number_lines base (page_lines b))) s') as [s2|] eqn:E; cbn [rbind]; [|done].
    by destruct (sc_stop s2).
Qed.
End Scans.

(** Logs of whole events: what [append_event] writes. *)
Context `{!EventJsonLaws J}.

Definition encode_line (x : EventOrigin * ChannelEvent) : string := to_line (fst x) (snd x).
Definition clean (d : LogDir) (evs : list (EventOrigin * ChannelEvent)) : Prop :=
  log_lines d = map encode_line evs.

Lemma parse_encoded x : parse_event_line (encode_line x) = Ok x.
Proof. destruct x as [o e]. unfold parse_event_line, encode_line. cbn. by rewrite probe_to_line, from_to_line. Qed.
Lemma encoded_some x : String.eqb (encode_line x) "" = false.
Proof. apply String.eqb_neq, to_line_some. Qed.

(** Events with their numbers, as this store names their actors. *)
Definition numbered (base : nat) (evs : list (EventOrigin * ChannelEvent)) : list (nat * ChannelEvent) :=
  imap (fun i x => (base + i, norm (snd x))) evs.
Definition shown (p : nat * ChannelEvent) : TaskId * ChannelEvent := (task_id (fst p), snd p).

Lemma numbered_cons base x evs : numbered base (x :: evs) = (base, norm (snd x)) :: numbered (S base) evs.
Proof.
  unfold numbered. rewrite imap_cons, Nat.add_0_r. f_equal. apply imap_ext. intros i y _. cbn. f_equal. lia.
Qed.
Lemma events_numbered_app base a b : numbered base (a ++ b) = numbered base a ++ numbered (base + length a) b.
Proof.
  revert base. induction a as [|x a IH]; intros base; cbn [app length]; [by rewrite Nat.add_0_r|].
  rewrite !numbered_cons, IH. cbn. by replace (base + S (length a)) with (S (base + length a)) by lia.
Qed.
Lemma numbered_length base evs : length (numbered base evs) = length evs.
Proof. apply length_imap. Qed.
Lemma numbered_range base evs : Forall (fun p => base <= fst p < base + length evs) (numbered base evs).
Proof.
  revert base. induction evs as [|x evs IH]; intros base; cbn [length]; [constructor|].
  rewrite numbered_cons. constructor; [cbn; lia|]. eapply Forall_impl; [apply IH|]. cbn. intros p Hp. lia.
Qed.

Lemma take_lines_clean keep base evs :
  take_lines norm keep base (map encode_line evs) = Ok (map shown (List.filter (fun p => keep (fst p)) (numbered base evs))).
Proof.
  revert base. induction evs as [|x evs IH]; intros base; cbn [map take_lines]; [done|].
  rewrite encoded_some, numbered_cons. cbn [negb andb List.filter fst].
  destruct (keep base); [|apply IH]. rewrite parse_encoded. destruct x as [o e]. by rewrite IH.
Qed.

Lemma number_lines_clean base evs : number_lines base (map encode_line evs) = imap (fun i x => (base + i, encode_line x)) evs.
Proof.
  revert base. induction evs as [|x evs IH]; intros base; cbn [map number_lines]; [done|].
  rewrite encoded_some, IH, imap_cons, Nat.add_0_r. cbn. f_equal. apply imap_ext. intros i y _. cbn. f_equal. lia.
Qed.

(** The posts a query asks for among numbered events. *)
Definition hits (needle author : option string) (l : list (nat * ChannelEvent)) : list (nat * ChannelEvent) :=
  List.filter (fun p => query_matches lower (snd p) needle author) l.

(** Naming actors keeps the kind of an event. *)
Context (norm_kind : forall e, event_kind (norm e) = event_kind e).

Lemma no_tag_no_hit needle author x :
  contains_str POSTED_TAG (encode_line x) = false -> query_matches lower (norm (snd x)) needle author = false.
Proof.
  destruct x as [o e]. cbn. intros Ht. pose proof (norm_kind e) as Hk.
  assert (He : event_kind e <> "posted")
    by (destruct e; try discriminate; unfold encode_line in Ht; cbn in Ht; by rewrite to_line_tag in Ht).
  rewrite <- Hk in He. by destruct (norm e).
Qed.

(** One scan of the newest events down to some number [f]. *)
Lemma scan_clean budget limit end_ needle author evs s :
  sc_stop s = false -> length (sc_matches s) < limit -> length evs <= end_ ->
  exists f s', scan_lines norm lower budget limit end_ needle author (rev (number_lines 0 (map encode_line evs))) s = Ok s' /\
    f <= length evs /\
    sc_matches s' = sc_matches s ++ rev (hits needle author (drop f (numbered 0 evs))) /\
    sc_floor s' = (if decide (f = length evs) then sc_floor s else f) /\
    (evs <> [] -> sc_scanned s < budget -> f < length evs) /\
    (sc_stop s' = false -> f = 0) /\ length (sc_matches s') <= limit.
Proof.
  revert s. induction evs as [|x evs IH] using rev_ind; intros s Hs Hm He.
  { exists 0, s. rewrite app_nil_r. split_and!; cbn; lia || done. }
  rewrite map_app, lines_numbered_app, rev_app_distr, length_map. cbn [map number_lines]. rewrite encoded_some.
  cbn [app rev Nat.add scan_lines]. rewrite length_app in *. cbn [length] in *.
  rewrite (proj2 (Nat.leb_gt _ _)) by lia. destruct (Nat.leb_spec budget (sc_scanned s)) as [Hb|Hb].
  { exists (length evs + 1). eexists. split; [done|]. cbn. rewrite decide_True by done.
    rewrite drop_ge, app_nil_r by (rewrite numbered_length, length_app; cbn; lia).
    split_and!; try done; lia. }
  rewrite events_numbered_app. cbn [Nat.add]. rewrite numbered_cons. cbn [numbered imap].
  assert (Hdrop : forall f, f <= length evs -> drop f (numbered 0 evs ++ [(length evs, norm (snd x))])
                   = drop f (numbered 0 evs) ++ [(length evs, norm (snd x))]).
  { intros f Hf. apply drop_app_le. by rewrite numbered_length. }
  destruct (query_matches lower (norm (snd x)) needle author) eqn:Hq.
  - destruct (negb (contains_str POSTED_TAG (encode_line x))) eqn:Ht.
    { apply negb_true_iff in Ht. rewrite no_tag_no_hit in Hq by done. done. }
    rewrite parse_encoded. destruct x as [o e]. cbn [snd] in *. rewrite Hq. cbn [sc_matches sc_scanned].
    destruct (Nat.leb limit _) eqn:Hl.
    + exists (length evs). eexists. split; [done|]. cbn. rewrite Hdrop, drop_ge by (rewrite ?numbered_length; lia).
      rewrite decide_False by lia. cbn. rewrite Hq. cbn. rewrite length_app. cbn. split_and!; try done; lia.
    + apply Nat.leb_gt in Hl. edestruct IH as (f & s' & -> & Hf & Hms & Hfl & _ & Hst & Hlen);
        [| | |exists f, s'; split; [done|]]; [done|cbn; done|lia|].
      cbn in Hms, Hfl. rewrite Hdrop by done. unfold hits in *. rewrite List.filter_app, rev_app_distr. cbn. rewrite Hq. cbn.
      rewrite (decide_False (P := f = length evs + 1)) by lia. split_and!; try done; try lia.
      * by rewrite Hms, <- app_assoc.
      * rewrite Hfl. by case_decide.
  - assert (Hgo : exists f s', scan_lines norm lower budget limit end_ needle author (rev (number_lines 0 (map encode_line evs)))
        {| sc_matches := sc_matches s; sc_scanned := S (sc_scanned s); sc_floor := length evs; sc_stop := false |} = Ok s' /\
        f <= length evs /\ sc_matches s' = sc_matches s ++ rev (hits needle author (drop f (numbered 0 evs))) /\
        sc_floor s' = f /\ (sc_stop s' = false -> f = 0) /\ length (sc_matches s') <= limit).
    { edestruct IH as (f & s' & Hsc & Hf & Hms & Hfl & _ & Hst & Hlen); [| | |exists f, s'; split; [exact Hsc|]];
        [done|done|lia|]. cbn in Hms, Hfl. split_and!; try done. rewrite Hfl. by case_decide. }
    destruct Hgo as (f & s' & Hsc & Hf & Hms & Hfl & Hst & Hlen). exists f, s'. split.
    + destruct (negb (contains_str POSTED_TAG (encode_line x))); [exact Hsc|].
      rewrite parse_encoded. destruct x as [o e]. cbn [snd] in *. rewrite Hq. exact Hsc.
    + rewrite Hdrop by done. unfold hits in *. rewrite List.filter_app, rev_app_distr. cbn. rewrite Hq. cbn.
      rewrite (decide_False (P := f = length evs + 1)) by lia. split_and!; try done; lia.
Qed.

Lemma numbered_take base n evs : numbered base (take n evs) = take n (numbered base evs).
Proof.
  revert base n. induction evs as [|x evs IH]; intros base [|n]; cbn [take]; try done.
  rewrite !numbered_cons. cbn [take]. by rewrite IH.
Qed.

Lemma window_numbered from end_ base evs :
  List.filter (fun p => Nat.leb from (fst p) && Nat.ltb (fst p) end_) (numbered base evs)
  = drop (from - base) (take (end_ - base) (numbered base evs)).
Proof.
  revert base. induction evs as [|x evs IH]; intros base.
  { by destruct (end_ - base), (from - base). }
  rewrite numbered_cons. cbn [List.filter fst]. rewrite IH.
  destruct (Nat.ltb_spec base end_) as [He|He].
  - replace (end_ - base) with (S (end_ - S base)) by lia. cbn [take]. rewrite andb_true_r.
    destruct (Nat.leb_spec from base).
    + replace (from - base) with 0 by lia. by replace (from - S base) with 0 by lia.
    + by replace (from - base) with (S (from - S base)) by lia.
  - rewrite andb_false_r. replace (end_ - base) with 0 by lia. replace (end_ - S base) with 0 by lia.
    by destruct (from - base), (from - S base).
Qed.

Lemma since_numbered k evs :
  List.filter (fun p => Z.leb (Z.of_nat k) (Z.of_nat (fst p))) (numbered 0 evs) = drop k (numbered 0 evs).
Proof.
  rewrite (filter_ext_in _ (fun p => Nat.leb k (fst p) && Nat.ltb (fst p) (length evs))).
  - rewrite window_numbered, !Nat.sub_0_r. by rewrite (take_ge (numbered 0 evs)) by (by rewrite numbered_length).
  - intros p Hp%list_elem_of_In. pose proof (proj1 (Forall_forall _ _) (numbered_range 0 evs) p Hp) as Hr. cbn in Hr.
    rewrite (proj2 (Nat.ltb_lt (fst p) (length evs))), andb_true_r by lia.
    destruct (Nat.leb_spec k (fst p)); [apply Z.leb_le|apply Z.leb_gt]; lia.
Qed.

Lemma parse_task_id n : (Z.of_nat n <= u64_max)%Z -> parse_usize (task_id n) = Some (Z.of_nat n).
Proof. intros H. apply parse_usize_dec. lia. Qed.

Lemma task_id_some n : task_id n <> "".
Proof. apply dec_digits. Qed.

Lemma read_since_clean d cache evs n :
  dir_ok d -> sound d cache -> clean d evs -> (Z.of_nat n <= u64_max)%Z ->
  fst (read_events norm d cache (task_id n)) = Ok (map shown (drop n (numbered 0 evs))).
Proof.
  intros Hd Hs Hc Hn. destruct (read_events_spec d cache (task_id n) Hd Hs) as [-> _].
  unfold parse_checkpoint. rewrite decide_False, parse_task_id by auto using task_id_some. cbn [rbind].
  rewrite Hc, take_lines_clean. by rewrite since_numbered.
Qed.

Lemma read_all_clean d cache evs :
  dir_ok d -> sound d cache -> clean d evs ->
  fst (read_events norm d cache "") = Ok (map shown (numbered 0 evs)).
Proof.
  intros Hd Hs Hc. destruct (read_events_spec d cache "" Hd Hs) as [-> _]. cbn [parse_checkpoint decide].
  unfold parse_checkpoint. rewrite decide_True by done. cbn [rbind].
  rewrite Hc, take_lines_clean. change 0%Z with (Z.of_nat 0). by rewrite since_numbered.
Qed.

Lemma read_tail_clean d cache evs limit before end_ :
  dir_ok d -> sound d cache -> clean d evs -> read_end before (length evs) = Ok end_ ->
  fst (read_tail norm d cache limit before)
  = Ok {| tp_events := map shown (drop (end_ - limit) (take end_ (numbered 0 evs)));
          tp_has_more := Nat.ltb 0 (end_ - limit) |}.
Proof.
  intros Hd Hs Hc He. destruct (read_tail_spec d cache limit before Hd Hs) as [-> _].
  rewrite Hc, length_map, He. cbn [rbind].
  rewrite Hc, take_lines_clean. cbn [rbind].
  by rewrite window_numbered, !Nat.sub_0_r.
Qed.

(** The first event not older than a number, in the port's default read. *)
Lemma position_shown b base evs :
  (Z.of_nat (base + length evs) <= u64_max)%Z ->
  default (length evs) (position (fun '(id, _) => match parse_usize id with Some n => Z.leb b n | None => false end)
                         (map shown (numbered base evs)))
  = Z.to_nat (Z.min (Z.max (b - Z.of_nat base) 0) (Z.of_nat (length evs))).
Proof.
  revert base. induction evs as [|x evs IH]; intros base Hu; cbn [length] in *; [cbn; lia|].
  rewrite numbered_cons. cbn [map position shown fst snd]. rewrite parse_task_id by lia.
  destruct (Z.leb_spec b (Z.of_nat base)) as [Hb|Hb]; [cbn; lia|].
  specialize (IH (S base) ltac:(lia)). destruct (position _ _) as [i|]; cbn in *; lia.
Qed.

Lemma default_tail_clean evs limit before end_ :
  (Z.of_nat (length evs) <= u64_max)%Z -> read_end before (length evs) = Ok end_ ->
  default_peek_tail (map shown (numbered 0 evs)) limit before
  = Ok {| tp_events := map shown (drop (end_ - limit) (take end_ (numbered 0 evs)));
          tp_has_more := Nat.ltb 0 (end_ - limit) |}.
Proof.
  intros Hu He. unfold default_peek_tail, read_end in *. destruct before as [b|].
  - destruct (parse_usize b) as [n|] eqn:Hp; [|done]. injection He as <-. cbn [rbind].
    rewrite length_map, numbered_length, position_shown by lia. cbn [Z.of_nat]. rewrite Z.sub_0_r.
    assert (0 <= n)%Z by (by apply parse_usize_range in Hp as []). replace (Z.max n 0) with n by lia.
    by rewrite firstn_map, skipn_map.
  - injection He as <-. cbn [rbind]. rewrite length_map, numbered_length. by rewrite firstn_map, skipn_map.
Qed.

Lemma search_clean budget d cache evs q end_ :
  dir_ok d -> sound d cache -> clean d evs -> 0 < budget -> read_end (q_before q) (length evs) = Ok end_ ->
  exists f, (end_ <> 0 -> f < end_) /\ f <= end_ /\ sound d (snd (search_with norm lower budget d cache q)) /\
    let found := hits (lower <$> q_text q) (q_author q) (drop f (numbered 0 (take end_ evs))) in
    length found <= Nat.min (Nat.max (q_limit q) 1) SEARCH_MAX_MATCHES /\
    fst (search_with norm lower budget d cache q)
    = Ok {| sp_events := map shown found; sp_has_more := Nat.ltb 0 f;
            sp_resume_before := if Nat.ltb 0 f then Some (task_id f) else None |}.
Proof.
  intros Hd Hs Hc Hb He. unfold search_with. destruct (page_counts d cache (all_pages d)) as [cs cache1] eqn:E.
  apply all_counts_ok in E as [Hs1 ->]; [|done..]. rewrite total_concat. fold (log_lines d).
  rewrite Hc, length_map, He. cbn [rbind fst snd].
  assert (Hle : end_ <= length evs).
  { unfold read_end in He. destruct (q_before q) as [b|]; [destruct (parse_usize b); [|done]|]; injection He as <-; lia. }
  set (lim := Nat.min (Nat.max (q_limit q) 1) SEARCH_MAX_MATCHES).
  assert (Hlim : 0 < lim) by (unfold lim, SEARCH_MAX_MATCHES; lia).
  rewrite (scan_pages_spec _ _ _ _ _ d 0 _ (log_bytes d)) by (done || by apply all_pages_bytes).
  fold (log_lines d). rewrite Hc.
  replace (map encode_line evs) with (map encode_line (take end_ evs) ++ map encode_line (drop end_ evs))
    by (by rewrite <- map_app, take_drop).
  rewrite lines_numbered_app, rev_app_distr, scan_app by done.
  rewrite (scan_skip _ _ end_). 2: { apply Forall_rev. eapply Forall_impl; [apply number_lines_range|]. cbn.
    rewrite length_map, length_take. intros p Hp. lia. }
  cbn [rbind sc_stop].
  destruct (scan_clean budget lim end_ (lower <$> q_text q) (q_author q) (take end_ evs)
      {| sc_matches := []; sc_scanned := 0; sc_floor := end_; sc_stop := false |})
    as (f & s' & -> & Hf & Hm & Hfl & Hpr & Hst & Hn); [done|done|rewrite length_take; lia|].
  cbn [rbind]. cbn in Hm, Hfl, Hpr. rewrite length_take in *. replace (Nat.min end_ (length evs)) with end_ in * by lia.
  assert (Hfloor : sc_floor s' = f) by (rewrite Hfl; by case_decide). exists f. rewrite Hfloor, Hm, rev_involutive.
  rewrite Hm, length_rev in Hn. split_and!; try done.
  - intros Hne. apply Hpr; [|lia]. intros Hnil%(f_equal length). rewrite length_take in Hnil. cbn in Hnil. lia.
  - do 2 f_equal. apply map_ext. by intros [n ev].
Qed.

(** A search followed through [resume_before] until no history is left. *)
Definition resume_at (q : ChannelQuery) (b : TaskId) : ChannelQuery :=
  {| q_text := q_text q; q_author := q_author q; q_before := Some b; q_limit := q_limit q |}.
Fixpoint search_walk (fuel budget : nat) (d : LogDir) (cache : LineCounts) (q : ChannelQuery) :
    option (list (TaskId * ChannelEvent)) :=
  match fuel with
  | O => None
  | S fuel =>
      match search_with norm lower budget d cache q with
      | (Ok page, cache) =>
          match sp_resume_before page with
          | None => Some (sp_events page)
          | Some b => older ← search_walk fuel budget d cache (resume_at q b); Some (older ++ sp_events page)
          end
      | (Err _, _) => None
      end
  end.

Lemma search_walk_clean fuel budget d cache evs q end_ :
  dir_ok d -> sound d cache -> clean d evs -> 0 < budget -> (Z.of_nat (length evs) <= u64_max)%Z ->
  read_end (q_before q) (length evs) = Ok end_ -> end_ <= length evs -> end_ < fuel ->
  search_walk fuel budget d cache q
  = Some (map shown (hits (lower <$> q_text q) (q_author q) (numbered 0 (take end_ evs)))).
Proof.
  intros Hd. revert cache q end_. induction fuel as [|fuel IH]; intros cache q end_ Hs Hc Hb Hu He Hle Hfu; [lia|].
  cbn [search_walk]. destruct (search_clean budget d cache evs q end_ Hd Hs Hc Hb He) as (f & Hp & Hf & Hs' & _ & Hr).
  destruct (search_with norm lower budget d cache q) as [r cache'] eqn:E. cbn [fst snd] in Hr, Hs'. subst r.
  cbn [sp_resume_before sp_events]. destruct (Nat.ltb_spec 0 f) as [H0|H0].
  - rewrite (IH cache' _ f); try done; cbn; try lia.
    + rewrite !numbered_take. cbn [mbind option_bind]. f_equal. rewrite <- map_app. f_equal. unfold hits.
      rewrite <- List.filter_app. f_equal. rewrite <- (take_drop f (take end_ (numbered 0 evs))) at 2.
      by rewrite take_take, Nat.min_l by lia.
    + rewrite parse_task_id by lia. f_equal. lia.
  - replace f with 0 by lia. by rewrite drop_0.
Qed.

End LogFacts.

(** ** Histories *)

(** Appends of one process, reads that fill its cache, and its restarts. *)
Inductive LogOp :=
  | LAppend (ev : ChannelEvent) (origin : EventOrigin)
  | LRead (since : TaskId)
  | LRestart.

Section Histories.
Context `{J : EventJson} (norm : ChannelEvent -> ChannelEvent) (rotate_bytes : nat).

(** The directory, the cache and the numbers given out so far. *)
Record LogState := { ls_dir : LogDir; ls_cache : LineCounts; ls_ids : list nat }.
Definition log_init : LogState := {| ls_dir := empty_dir; ls_cache := ∅; ls_ids := [] |}.

Definition log_step (s : LogState) (op : LogOp) : LogState :=
  match op with
  | LAppend ev origin =>
      let '(n, d, cache) := append_event norm (ls_dir s) (ls_cache s) rotate_bytes ev origin in
      {| ls_dir := d; ls_cache := cache; ls_ids := ls_ids s ++ [n] |}
  | LRead since => {| ls_dir := ls_dir s; ls_cache := snd (read_events norm (ls_dir s) (ls_cache s) since); ls_ids := ls_ids s |}
  | LRestart => {| ls_dir := ls_dir s; ls_cache := ∅; ls_ids := ls_ids s |}
  end.
Definition log_run (ops : list LogOp) : LogState := foldl log_step log_init ops.

(** What an operation adds to the log. *)
Definition stored (op : LogOp) : list (EventOrigin * ChannelEvent) :=
  match op with
  | LAppend ev origin => [(origin, if bool_decide (origin = LocalOrigin) then norm ev else ev)]
  | _ => []
  end.
Definition history (ops : list LogOp) : list (EventOrigin * ChannelEvent) := concat (map stored ops).

Context `{!EventJsonLaws J}.

Record log_ok (s : LogState) (evs : list (EventOrigin * ChannelEvent)) : Prop := {
  lo_dir : dir_ok (ls_dir s);
  lo_sound : sound (ls_dir s) (ls_cache s);
  lo_whole : whole (ls_dir s);
  lo_clean : clean (ls_dir s) evs;
  lo_ids : ls_ids s = seq 0 (length evs);
}.

Lemma log_step_ok s op evs : log_ok s evs -> log_ok (log_step s op) (evs ++ stored op).
Proof.
  intros [Hd Hs Hw Hc Hi]. destruct op as [ev o|since|]; cbn [log_step stored]; rewrite ?app_nil_r.
  - unfold append_event. set (x := (o, if bool_decide (o = LocalOrigin) then norm ev else ev)).
    change (to_line o _) with (encode_line x).
    destruct (append_line _ _ _ _) as [[n d'] cache'] eqn:E.
    apply append_line_spec in E as (-> & Hd' & Hs' & Hw' & Hl & _); [|done..|apply to_line_one].
    specialize (Hl Hw). constructor; cbn; try done.
    + unfold clean in *. by rewrite Hl, Hc, map_app.
    + unfold clean in Hc. rewrite Hi, Hc, length_map, length_app. cbn. by rewrite seq_app.
  - constructor; cbn; try done. by apply read_events_spec.
  - by constructor.
Qed.

Lemma log_run_ok ops : log_ok (log_run ops) (history ops).
Proof.
  unfold log_run, history. assert (H : log_ok log_init []).
  { constructor; try done. constructor. }
  change (concat (map stored ops)) with ([] ++ concat (map stored ops)). revert H.
  generalize log_init (@nil (EventOrigin * ChannelEvent)). induction ops as [|op ops IH]; intros s evs H; cbn [foldl map concat].
  - by rewrite app_nil_r.
  - rewrite app_assoc. by apply IH, log_step_ok.
Qed.

(** A page number is a u32 in the code: it never passes the number of events, so
    a log of fewer than 2^32 - 1 events never runs out of them. *)
Lemma next_page_bounded d m : Forall (fun p => (fst p <= m)%Z) (rotated d) -> (0 <= m)%Z -> (next_page d <= m + 1)%Z.
Proof.
  intros Hf Hm. unfold next_page. destruct (last (rotated_pages d)) as [k|] eqn:El; [|lia].
  apply last_Some_elem_of in El. unfold rotated_pages in El. apply list_elem_of_fmap in El as (p & -> & Hp).
  rewrite sort_by_perm in Hp. pose proof (proj1 (Forall_forall _ _) Hf p Hp). cbn in *. lia.
Qed.
Lemma page_numbers_bounded ops :
  Forall (fun p => (fst p <= Z.of_nat (length (history ops)))%Z) (rotated (ls_dir (log_run ops))).
Proof.
  induction ops as [|op ops IH] using rev_ind; [constructor|]. unfold history, log_run in *.
  rewrite foldl_app, map_app, concat_app, length_app. cbn [foldl]. set (s := foldl log_step log_init ops) in *.
  set (m := length (concat (map stored ops))) in *.
  assert (IH' : Forall (fun p => (fst p <= Z.of_nat (m + 1))%Z) (rotated (ls_dir s))) by (eapply Forall_impl; [exact IH|]; cbn; lia).
  destruct op as [ev o|since|]; cbn [log_step map concat stored app length]; rewrite ?Nat.add_0_r; try exact IH.
  unfold append_event, append_line. destruct (page_counts _ _ _) as [rs cache]. destruct (page_line_count _ _ _) as [[l len] cache'].
  destruct (_ && _); cbn [ls_dir rotated]; [|exact IH']. apply Forall_app. split; [exact IH'|]. constructor; [|constructor]. cbn [fst].
  pose proof (next_page_bounded _ _ IH). lia.
Qed.

(** No page grows past the cap, except by one event longer than the cap. *)
Lemma log_pages_bounded ops limit :
  Forall (fun x => String.length (encode_line x) < limit) (history ops) ->
  Forall (fun b => String.length b <= Nat.max rotate_bytes limit) (log_bytes (ls_dir (log_run ops))).
Proof.
  induction ops as [|op ops IH] using rev_ind; [constructor|]. unfold history.
  rewrite map_app, concat_app, Forall_app. intros [H1 H2]. specialize (IH H1).
  unfold log_run. rewrite foldl_app. cbn [foldl]. fold (log_run ops). pose proof (log_run_ok ops) as [Hd Hs Hw _ _].
  destruct op as [ev o|since|]; cbn [log_step]; try exact IH. unfold append_event.
  set (x := (o, if bool_decide (o = LocalOrigin) then norm ev else ev)) in *. change (to_line o _) with (encode_line x).
  destruct (append_line _ _ _ _) as [[n d'] cache'] eqn:E. cbn.
  apply append_line_spec in E as (_ & _ & _ & _ & _ & Hb); [|done..|apply to_line_one].
  apply Forall_forall. intros b Hin. destruct (Hb b Hin) as [Hold|Hnew]; [by eapply (proj1 (Forall_forall _ _) IH)|].
  cbn [map concat stored app] in H2. apply Forall_cons in H2 as [H2 _]. fold x in H2. rewrite length_app_str in Hnew.
  change (String.length NEWLINE) with 1 in Hnew.
  lia.
Qed.
End Histories.

(** ** Properties *)

(** C18. However a channel's log was written, by appends, page rotations and
    restarts, each event got its number in the order of appends, and reading
    the log back, from the start or from any number on, gives exactly those
    events with those numbers. *)
Theorem channel_log_reads_back (J : EventJson) (norm : ChannelEvent -> ChannelEvent) (rotate_bytes : nat) (ops : list LogOp) :
  EventJsonLaws J ->
  let s := log_run norm rotate_bytes ops in
  let evs := history norm ops in
  ls_ids s = seq 0 (length evs) /\
  fst (read_events norm (ls_dir s) (ls_cache s) "") = Ok (map shown (numbered norm 0 evs)) /\
  (forall n, (Z.of_nat n <= u64_max)%Z ->
     fst (read_events norm (ls_dir s) (ls_cache s) (task_id n)) = Ok (map shown (drop n (numbered norm 0 evs)))) /\
  (forall limit, Forall (fun x => String.length (encode_line x) < limit) evs ->
     Forall (fun b => String.length b <= Nat.max rotate_bytes limit) (log_bytes (ls_dir s))).
Proof.
  intros L. cbn zeta. destruct (log_run_ok norm rotate_bytes ops) as [Hd Hs Hw Hc Hi]. split_and!; [done| | |].
  - by apply read_all_clean.
  - intros n Hn. by apply read_since_clean.
  - intros limit. by apply log_pages_bounded.
Qed.

(** The backward read by pages is the port's default one on the whole log, for
    every limit and cursor, malformed cursors included. *)
Theorem channel_tail_is_default (J : EventJson) (norm : ChannelEvent -> ChannelEvent) (rotate_bytes : nat)
    (ops : list LogOp) (limit : nat) (before : option TaskId) :
  EventJsonLaws J -> (Z.of_nat (length (history norm ops)) <= u64_max)%Z ->
  let s := log_run norm rotate_bytes ops in
  fst (read_tail norm (ls_dir s) (ls_cache s) limit before)
  = (all <-? fst (read_events norm (ls_dir s) (ls_cache s) ""); default_peek_tail all limit before).
Proof.
  intros L Hu. cbn zeta. destruct (log_run_ok norm rotate_bytes ops) as [Hd Hs Hw Hc Hi].
  rewrite (read_all_clean norm _ _ _ Hd Hs Hc). cbn [rbind].
  destruct (read_end before (length (history norm ops))) as [end_|e] eqn:He.
  - rewrite (read_tail_clean norm _ _ _ _ _ _ Hd Hs Hc He). by rewrite (default_tail_clean norm _ _ _ _ Hu He).
  - destruct (read_tail_spec norm _ _ limit before Hd Hs) as [-> _]. rewrite Hc, length_map, He. cbn [rbind].
    unfold read_end, default_peek_tail in *. destruct before as [b|]; [|done].
    destruct (parse_usize b); [done|]. by injection He as <-.
Qed.

(** A search followed through its resume cursor ends, and has then returned
    every matching post older than where it began, once each and in order,
    whatever limit per page and budget of lines per call. *)
Theorem search_finds_every_post (J : EventJson) (norm : ChannelEvent -> ChannelEvent) (lower : string -> string)
    (rotate_bytes budget fuel : nat) (ops : list LogOp) (q : ChannelQuery) (end_ : nat) :
  EventJsonLaws J -> (forall e, event_kind (norm e) = event_kind e) -> 0 < budget ->
  let evs := history norm ops in
  (Z.of_nat (length evs) <= u64_max)%Z -> read_end (q_before q) (length evs) = Ok end_ -> end_ < fuel ->
  let s := log_run norm rotate_bytes ops in
  search_walk norm lower fuel budget (ls_dir s) (ls_cache s) q
  = Some (map shown (hits lower (lower <$> q_text q) (q_author q) (numbered norm 0 (take end_ evs)))).
Proof.
  intros L Hk Hb. cbn zeta. intros Hu He Hf. destruct (log_run_ok norm rotate_bytes ops) as [Hd Hs Hw Hc Hi].
  apply search_walk_clean; try done. unfold read_end in He. destruct (q_before q) as [b|].
  - destruct (parse_usize b); [|done]. injection He as <-. lia.
  - injection He as <-. done.
Qed.

(** The cache of line counts is not right across processes: it is trusted by
    the length of the page alone, and a page another process started after a
    rotation may have that length.  The next append is then given a number
    past the line it is written to. *)
Theorem foreign_rotation_misnumbers :
  let line := fun s => s +:+ NEWLINE in
  let '(_, d, mine) := append_line empty_dir ∅ 10 (line "aaaa") in
  let '(_, d, mine) := append_line d mine 10 (line "bbbb") in
  let '(_, d, _) := append_line d ∅ 10 (line "ccccccccc") in
  let '(n, _, _) := append_line d mine 10 (line "dd") in
  n = 4 /\ length (log_lines d) = 3.
Proof. vm_compute. split; reflexivity. Qed.

(** ** A concrete encoding of lines *)

Module BinaryEvents.

#[local] Instance Attachment_countable : Countable Attachment.
Proof.
  refine (inj_countable' (fun a => (att_name a, att_path a, att_mime a, att_size a, att_sha256 a))
    (fun '(n, p, m, s, h) => {| att_name := n; att_path := p; att_mime := m; att_size := s; att_sha256 := h |}) _).
  by intros [].
Defined.
#[local] Instance Post_countable : Countable Post.
Proof.
  refine (inj_countable'
    (fun p => ((p_channel p : string, p_author p, p_parent p, p_text p, p_at p),
               (p_via p, p_msg_id p, p_reply_to p, p_attachments p, p_options p, p_model p)))
    (fun '((c, a, pa, t, at_), (v, m, r, att, o, mo)) =>
       {| p_channel := c; p_author := a; p_parent := pa; p_text := t; p_at := at_; p_via := v; p_msg_id := m;
          p_reply_to := r; p_attachments := att; p_options := o; p_model := mo |}) _).
  by intros [].
Defined.
Definition to_sum (e : ChannelEvent) :
    (string * string * string * string) + (Post + ((string * string * string) + ((string * string * string) + (string * list string * string)))) :=
  match e with
  | Created c cr n t => inl (c, cr, n, t)
  | Posted p => inr (inl p)
  | MemberJoined c m t => inr (inr (inl (c, m, t)))
  | MemberLeft c m t => inr (inr (inr (inl (c, m, t))))
  | Received c r t => inr (inr (inr (inr (c, r, t))))
  end.
#[local] Instance ChannelEvent_countable : Countable ChannelEvent.
Proof.
  refine (inj_countable' to_sum
    (fun s => match s with
              | inl (c, cr, n, t) => Created c cr n t
              | inr (inl p) => Posted p
              | inr (inr (inl (c, m, t))) => MemberJoined c m t
              | inr (inr (inr (inl (c, m, t)))) => MemberLeft c m t
              | inr (inr (inr (inr (c, r, t)))) => Received c r t
              end) _).
  by intros [].
Defined.
#[local] Instance EventOrigin_countable : Countable EventOrigin.
Proof.
  refine (inj_countable' (fun o => match o with LocalOrigin => true | VerifiedRemote => false end)
                         (fun b : bool => if b then LocalOrigin else VerifiedRemote) _).
  by intros [].
Defined.

Definition tag_of (e : ChannelEvent) : string := match e with Posted _ => POSTED_TAG | _ => "" end.
Definition read (s : string) : option (EventOrigin * ChannelEvent) :=
  match split_once "." s with Some (_, b) => decode (unbits b) | None => None end.
#[export] Instance json : EventJson := {|
  to_line o e := tag_of e +:+ String "." (bits (encode (o, e)));
  probe s := Some (fst <$> read s);
  from_line := read;
  from_event _ := None;
|}.

Lemma tag_has c e : c = "."%char \/ c = LF -> str_has c (tag_of e) = false.
Proof. intros [->| ->]; by destruct e. Qed.
Lemma read_line o e : read (tag_of e +:+ String "." (bits (encode (o, e)))) = Some (o, e).
Proof. unfold read. rewrite split_once_app by (apply tag_has; auto). by rewrite unbits_bits, decode_encode. Qed.

#[export] Instance json_laws : EventJsonLaws json.
Proof.
  constructor; cbn [to_line probe from_line json].
  - intros o e. rewrite str_has_app, tag_has by auto. cbn [str_has]. rewrite decide_False by done. by apply bits_has.
  - intros o e. by destruct (tag_of e).
  - intros o e. by rewrite read_line.
  - intros o e. apply read_line.
  - intros o p. cbn [tag_of]. destruct (bits _); reflexivity.
Qed.

Definition hello : ChannelEvent :=
  Posted {| p_channel := "chan_00000000"; p_author := "user:local:local"; p_parent := None; p_text := "hi"; p_at := "t";
            p_via := None; p_msg_id := Some "m"; p_reply_to := None; p_attachments := []; p_options := []; p_model := None |}.
Definition ops : list LogOp := [LAppend (Created "chan_00000000" "p" "n" "t") LocalOrigin; LAppend hello LocalOrigin;
                                LRestart; LAppend hello VerifiedRemote].
Definition everything : ChannelQuery := {| q_text := None; q_author := None; q_before := None; q_limit := 1 |}.

Lemma channel_log_reads_back_witness :
  fst (read_events id (ls_dir (log_run id 10 ops)) (ls_cache (log_run id 10 ops)) (task_id 2))
  = Ok [(task_id 2, hello)].
Proof. apply (channel_log_reads_back json id 10 ops json_laws). vm_compute. discriminate. Defined.

Lemma channel_tail_is_default_witness :
  fst (read_tail id (ls_dir (log_run id 10 ops)) (ls_cache (log_run id 10 ops)) 1 None)
  = default_peek_tail (map shown (numbered id 0 (history id ops))) 1 None.
Proof.
  rewrite (channel_tail_is_default json id 10 ops 1 None json_laws).
  - vm_compute. reflexivity.
  - vm_compute. discriminate.
Defined.

Lemma search_finds_every_post_witness :
  search_walk id id 9 1 (ls_dir (log_run id 10 ops)) (ls_cache (log_run id 10 ops)) everything
  = Some [(task_id 1, hello); (task_id 2, hello)].
Proof.
  apply (search_finds_every_post json id id 10 1 9 ops everything 3 json_laws);
    [reflexivity|lia|vm_compute; discriminate|reflexivity|lia].
Defined.

End BinaryEvents.
