(* ===== verification/ChannelStore.v ===== *)
(** * ChannelStore: channels on disk

    peko-rs/channel/src/store.rs: a channel's metadata and members, the
    operations of the store that change them, and its posts; the log itself is
    [ChannelLog], the actor registry [Actors].

    A channel's directory holds [meta.json], [members.json] and the log.  The
    store's operations are state passing: each runs as one step (the file
    locks serialize them), a failure keeps the writes made before it, and a
    call that panics is an error of its own.  The clock, fresh ids and the text
    of a time are arguments.  The live broadcast to subscribers is left out,
    and so are the paths in error messages. *)

From Stdlib Require Import ZArith Lia Ascii Sorting.Sorted.
From stdpp Require Import base tactics list gmap strings.
From S2P Require Import Prelude Text Subject ChannelWire Actors ChannelLog.

Local Open Scope nat_scope.
Open Scope rust_scope.

(** ** Metadata *)

Inductive GroupVisibility := InviteOnly | PublicGroup.
#[export] Instance GroupVisibility_eq_dec : EqDecision GroupVisibility.
Proof. solve_decision. Defined.
Definition visibility_as_str (v : GroupVisibility) : string :=
  match v with InviteOnly => "invite_only" | PublicGroup => "public" end.

Record InviteLink := { link_nonce : string; link_exp : Z; link_revoked : bool }.
Record HubGroup := {
  hub_group_id : string;
  hub_page : string;
  hub_visibility : GroupVisibility;
  hub_links : list InviteLink;
}.

Inductive HistoryVisibility := HistoryShared | HistoryJoined.
#[export] Instance HistoryVisibility_eq_dec : EqDecision HistoryVisibility.
Proof. solve_decision. Defined.

Record GroupHome := { home_runtime : string; home_owner : option string }.

Record MetaJson := {
  meta_creator : string;
  meta_name : string;
  meta_created_at : Z;
  meta_tier : Tier;
  meta_kind : ConversationKind;
  meta_bindings : gmap string Binding;
  meta_participants : list string;
  meta_account : option string;
  meta_home : option GroupHome;
  meta_admins : list string;
  meta_history : option HistoryVisibility;
  meta_hub : option HubGroup;
  meta_history_complete : bool;
}.

Record GroupInfo := {
  gi_home : option GroupHome;
  gi_owner : string;
  gi_admins : list string;
  gi_history : HistoryVisibility;
  gi_hub_id : option string;
  gi_visibility : option GroupVisibility;
}.

(** A channel as it is first written: nobody bound, no group record. *)
Definition new_meta (creator name : string) (now : Z) (tier : Tier) (kind : ConversationKind)
    (bindings : gmap string Binding) (participants : list string) (account : option string)
    (home : option GroupHome) : MetaJson :=
  {| meta_creator := creator; meta_name := name; meta_created_at := now; meta_tier := tier; meta_kind := kind;
     meta_bindings := bindings; meta_participants := participants; meta_account := account; meta_home := home;
     meta_admins := []; meta_history := None; meta_hub := None; meta_history_complete := false |}.

(** Assignments to one field. *)
Definition set_bindings (m : MetaJson) (b : gmap string Binding) : MetaJson :=
  {| meta_creator := meta_creator m; meta_name := meta_name m; meta_created_at := meta_created_at m;
     meta_tier := meta_tier m; meta_kind := meta_kind m; meta_bindings := b;
     meta_participants := meta_participants m; meta_account := meta_account m; meta_home := meta_home m;
     meta_admins := meta_admins m; meta_history := meta_history m; meta_hub := meta_hub m;
     meta_history_complete := meta_history_complete m |}.
Definition set_participants (m : MetaJson) (p : list string) : MetaJson :=
  {| meta_creator := meta_creator m; meta_name := meta_name m; meta_created_at := meta_created_at m;
     meta_tier := meta_tier m; meta_kind := meta_kind m; meta_bindings := meta_bindings m;
     meta_participants := p; meta_account := meta_account m; meta_home := meta_home m;
     meta_admins := meta_admins m; meta_history := meta_history m; meta_hub := meta_hub m;
     meta_history_complete := meta_history_complete m |}.
Definition set_account (m : MetaJson) (a : option string) : MetaJson :=
  {| meta_creator := meta_creator m; meta_name := meta_name m; meta_created_at := meta_created_at m;
     meta_tier := meta_tier m; meta_kind := meta_kind m; meta_bindings := meta_bindings m;
     meta_participants := meta_participants m; meta_account := a; meta_home := meta_home m;
     meta_admins := meta_admins m; meta_history := meta_history m; meta_hub := meta_hub m;
     meta_history_complete := meta_history_complete m |}.
Definition set_group (m : MetaJson) (created_at : Z) (home : option GroupHome) (admins : list string)
    (history : option HistoryVisibility) (hub : option HubGroup) (complete : bool) : MetaJson :=
  {| meta_creator := meta_creator m; meta_name := meta_name m; meta_created_at := created_at;
     meta_tier := meta_tier m; meta_kind := meta_kind m; meta_bindings := meta_bindings m;
     meta_participants := meta_participants m; meta_account := meta_account m; meta_home := home;
     meta_admins := admins; meta_history := history; meta_hub := hub; meta_history_complete := complete |}.
Definition set_created_at (m : MetaJson) (t : Z) : MetaJson :=
  set_group m t (meta_home m) (meta_admins m) (meta_history m) (meta_hub m) (meta_history_complete m).
Definition set_home (m : MetaJson) (h : option GroupHome) : MetaJson :=
  set_group m (meta_created_at m) h (meta_admins m) (meta_history m) (meta_hub m) (meta_history_complete m).
Definition set_admins (m : MetaJson) (a : list string) : MetaJson :=
  set_group m (meta_created_at m) (meta_home m) a (meta_history m) (meta_hub m) (meta_history_complete m).
Definition set_history (m : MetaJson) (h : option HistoryVisibility) : MetaJson :=
  set_group m (meta_created_at m) (meta_home m) (meta_admins m) h (meta_hub m) (meta_history_complete m).
Definition set_hub (m : MetaJson) (h : option HubGroup) : MetaJson :=
  set_group m (meta_created_at m) (meta_home m) (meta_admins m) (meta_history m) h (meta_history_complete m).
Definition set_complete (m : MetaJson) (c : bool) : MetaJson :=
  set_group m (meta_created_at m) (meta_home m) (meta_admins m) (meta_history m) (meta_hub m) c.

(** *** [meta.json] as read: files from before a kind was written *)

Inductive BindingOnDisk := BRecord (b : Binding) | BSession (session : string).

(** The fields that changed shape; the others are those of [MetaJson]. *)
Record MetaJsonOnDisk := {
  disk_kind : option ConversationKind;
  disk_passive_binding : option string;
  disk_bindings : gmap string BindingOnDisk;
  disk_rest : MetaJson;
}.

Definition meta_from_disk (raw : MetaJsonOnDisk) : MetaJson :=
  let kind := default (if is_some (disk_passive_binding raw) then Dm else Group) (disk_kind raw) in
  let m := disk_rest raw in
  {| meta_creator := meta_creator m; meta_name := meta_name m; meta_created_at := meta_created_at m;
     meta_tier := meta_tier m; meta_kind := kind;
     meta_bindings := (fun b => match b with
                                | BRecord b => b
                                | BSession session => binding_new session (default_for kind)
                                end) <$> disk_bindings raw;
     meta_participants := meta_participants m; meta_account := meta_account m; meta_home := meta_home m;
     meta_admins := meta_admins m; meta_history := meta_history m; meta_hub := meta_hub m;
     meta_history_complete := meta_history_complete m |}.
(** What [save] writes. *)
Definition meta_to_disk (m : MetaJson) : MetaJsonOnDisk :=
  {| disk_kind := Some (meta_kind m); disk_passive_binding := None; disk_bindings := BRecord <$> meta_bindings m;
     disk_rest := m |}.

Record MembersJson := { members : list string; remote_members : list RemoteMember }.
Definition no_members : MembersJson := {| members := []; remote_members := [] |}.

(** ** The store *)

(** A file: absent, with contents that do not decode, or holding a value. *)
Inductive File (A : Type) := Absent | Garbled (why : string) | Holds (x : A).
Arguments Absent {A}.
Arguments Garbled {A} why.
Arguments Holds {A} x.

Record ChanDir := {
  meta_file : File MetaJsonOnDisk;
  members_file : File MembersJson;
  log : LogDir;
}.
Definition new_dir : ChanDir := {| meta_file := Absent; members_file := Absent; log := empty_dir |}.

(** A directory under the channels of the runtime root or of the shared one. *)
Notation "'DirKey'" := (Tier * string)%type (only parsing).
#[export] Instance Tier_countable : Countable Tier.
Proof.
  refine (inj_countable' (fun t => match t with Runtime => true | Shared => false end)
                         (fun b => if b then Runtime else Shared) _).
  by intros [].
Defined.

(** The registry, the directories, and the line counts each directory's pages
    were last seen with. *)
Record Store := {
  registry : Registry;
  dirs : gmap DirKey ChanDir;
  counts : gmap DirKey LineCounts;
}.

Record ChannelConfig := { shared_dir : bool; rotate_bytes : nat }.
Definition DEFAULT_ROTATE_BYTES : nat := Z.to_nat (8 * 1024 * 1024).

(** *** Operations as state passing *)

Definition M (A : Type) : Type := Store -> result A Fault * Store.
#[export] Instance M_ret : MRet M := fun A x s => (Ok x, s).
#[export] Instance M_bind : MBind M := fun A B k c s =>
  match c s with (Ok x, s') => k x s' | (Err e, s') => (Err e, s') end.
Definition failure {A} (e : ChannelError) : M A := fun s => (Err (Fails e), s).
Definition adapter {A} (msg : string) : M A := failure (Adapter msg).
Definition panic {A} (msg : string) : M A := fun s => (Err (Panics msg), s).
Definition try_ {A} (r : result A ChannelError) : M A := fun s => (fails r, s).
Definition ask {A} (f : Store -> A) : M A := fun s => (Ok (f s), s).
(** A call whose failure the caller looks at. *)
Definition caught {A} (c : M A) : M (result A ChannelError) := fun s =>
  match c s with
  | (Ok x, s') => (Ok (Ok x), s')
  | (Err (Fails e), s') => (Ok (Err e), s')
  | (Err (Panics m), s') => (Err (Panics m), s')
  end.

Definition with_registry (s : Store) (g : Registry) : Store :=
  {| registry := g; dirs := dirs s; counts := counts s |}.
Definition with_dir (s : Store) (k : DirKey) (d : ChanDir) : Store :=
  {| registry := registry s; dirs := <[k := d]> (dirs s); counts := counts s |}.
Definition with_log (s : Store) (k : DirKey) (d : ChanDir) (l : LogDir) (c : LineCounts) : Store :=
  {| registry := registry s;
     dirs := <[k := {| meta_file := meta_file d; members_file := members_file d; log := l |}]> (dirs s);
     counts := <[k := c]> (counts s) |}.
Definition with_counts (s : Store) (k : DirKey) (c : LineCounts) : Store :=
  {| registry := registry s; dirs := dirs s; counts := <[k := c]> (counts s) |}.
Definition dir_at (s : Store) (k : DirKey) : ChanDir := default new_dir (dirs s !! k).
Definition counts_at (s : Store) (k : DirKey) : LineCounts := default ∅ (counts s !! k).

(** *** Actors, through the registry *)

Definition info_of (subject : ActorRef) : M ActorInfo := fun s =>
  match actor_info (registry s) subject with
  | Ok i => (Ok i, with_registry s (reread (registry s)))
  | Err f => (Err f, s)
  end.
Definition register (rq : Request) (uuid : string) : M ActorInfo := fun s =>
  match register_actor (registry s) rq uuid with
  | Ok (i, g) => (Ok i, with_registry s g)
  | Err e => (Err (Fails e), s)
  end.
(** [ActorInfo::subject]. *)
Definition subject_m (i : ActorInfo) : M ActorRef :=
  match subject_of i with Some a => mret a | None => panic "actor has an address" end.
Definition address_in (s : Store) (a : string) : string := store_address (reg_index (registry s)) a.

Definition normalize_event (s : Store) (event : ChannelEvent) : ChannelEvent :=
  match event with
  | Posted p => Posted {| p_channel := p_channel p; p_author := address_in s (p_author p); p_parent := p_parent p;
                          p_text := p_text p; p_at := p_at p; p_via := p_via p; p_msg_id := p_msg_id p;
                          p_reply_to := p_reply_to p; p_attachments := p_attachments p; p_options := p_options p;
                          p_model := p_model p |}
  | Created c creator name t => Created c (address_in s creator) name t
  | MemberJoined c member t => MemberJoined c (address_in s member) t
  | MemberLeft c member t => MemberLeft c (address_in s member) t
  | Received _ _ _ => event
  end.

(** *** Member rows *)

Definition member_subject (entry : string) : ActorRef :=
  match actor_from_str entry with Ok a => a | Err _ => Principal (route_parse entry) end.
Definition member_row (subject : ActorRef) : string := canonical_address subject.

(** The address a row names, and the one a subject has. *)
Definition row_address (s : Store) (row : string) : string := address_in s (actor_display (member_subject row)).
Definition subject_address (s : Store) (subject : ActorRef) : string := address_in s (actor_display subject).
Definition has_member (s : Store) (m : MembersJson) (subject : ActorRef) : bool :=
  existsb (fun row => String.eqb (row_address s row) (subject_address s subject)) (members m).

Definition posted_msg_id (ev : ChannelEvent) : option string :=
  match ev with Posted p => p_msg_id p | _ => None end.

(** ** Files *)

Section Store.
Context `{J : EventJson} (cfg : ChannelConfig) (rfc3339 : Z -> string) (lower debug : string -> string).

(** [ChannelConfig::channel_dir] and [channel_dir_for]. *)
Definition channel_dir (channel : ChannelId) : DirKey := (Runtime, channel_dir_name channel).
Definition channel_dir_for (tier : Tier) (channel : ChannelId) : result DirKey ChannelError :=
  match tier with
  | Runtime => Ok (channel_dir channel)
  | Shared => if shared_dir cfg then Ok (Shared, channel_dir_name channel)
              else Err (Adapter "ChannelConfig::shared_dir is None; cannot resolve Shared tier")
  end.
(** [<dir>/../<id>] where there is no shared root. *)
Definition channel_dir_for_tier (tier : Tier) (channel : ChannelId) : DirKey :=
  match channel_dir_for tier channel with Ok k => k | Err _ => (Runtime, channel) end.

Definition meta_load (k : DirKey) (channel : ChannelId) : M MetaJson :=
  d ← ask (fun s => dir_at s k);
  match meta_file d with
  | Holds raw => mret (meta_from_disk raw)
  | Absent => failure (NotFound channel)
  | Garbled why => adapter ("decode " +:+ why)
  end.
Definition meta_save (k : DirKey) (m : MetaJson) : M unit := fun s =>
  let d := dir_at s k in
  (Ok (), with_dir s k {| meta_file := Holds (meta_to_disk m); members_file := members_file d; log := log d |}).
Definition meta_exists (s : Store) (k : DirKey) : bool :=
  match meta_file (dir_at s k) with Absent => false | _ => true end.

Definition members_load (k : DirKey) : M MembersJson :=
  d ← ask (fun s => dir_at s k);
  match members_file d with
  | Holds m => mret m
  | Absent => mret no_members
  | Garbled why => adapter ("decode " +:+ why)
  end.
(** The temporary file beside it cannot be made without the directory. *)
Definition members_save (k : DirKey) (m : MembersJson) : M unit := fun s =>
  match dirs s !! k with
  | None => (Err (Fails (Adapter "write: No such file or directory")), s)
  | Some d => (Ok (), with_dir s k {| meta_file := meta_file d; members_file := Holds m; log := log d |})
  end.
Definition mkdir (k : DirKey) : M unit := fun s => (Ok (), with_dir s k (dir_at s k)).
(** A lock file beside [members.json] needs the directory too. *)
Definition lock_members (k : DirKey) : M unit :=
  there ← ask (fun s => is_some (dirs s !! k));
  if there : bool then mret () else adapter "lock: Failed to create lock file".

Definition resolve_tier (channel : ChannelId) : M Tier :=
  meta ← meta_load (channel_dir channel) channel; mret (meta_tier meta).
(** The directory an operation works in. *)
Definition resolve_dir (channel : ChannelId) : M DirKey :=
  tier ← resolve_tier channel; mret (channel_dir_for_tier tier channel).

Definition append_to (k : DirKey) (ev : ChannelEvent) (origin : EventOrigin) : M nat := fun s =>
  let d := dir_at s k in
  let '(n, l, c) := append_event (normalize_event s) (log d) (counts_at s k) (rotate_bytes cfg) ev origin in
  (Ok n, with_log s k d l c).
(** A read of the log, which may fill the line counts. *)
Definition reading {A} (k : DirKey) (f : (ChannelEvent -> ChannelEvent) -> LogDir -> LineCounts ->
    result A ChannelError * LineCounts) : M A := fun s =>
  let '(r, c) := f (normalize_event s) (log (dir_at s k)) (counts_at s k) in
  (fails r, with_counts s k c).

(** ** Reading a channel *)

Definition peek_with_ids (channel : ChannelId) (since : TaskId) : M (list (TaskId * ChannelEvent)) :=
  k ← resolve_dir channel;
  reading k (fun norm d c => read_events norm d c since).
Definition peek (channel : ChannelId) (since : TaskId) : M (list ChannelEvent) :=
  items ← peek_with_ids channel since; mret (map snd items).
Definition peek_tail (channel : ChannelId) (limit : nat) (before : option TaskId) : M TailPage :=
  k ← resolve_dir channel;
  reading k (fun norm d c => read_tail norm d c limit before).
Definition search (channel : ChannelId) (query : ChannelQuery) : M SearchPage :=
  k ← resolve_dir channel;
  reading k (fun norm d c => search_events norm lower d c query).

Definition conversation_kind (channel : ChannelId) : M ConversationKind :=
  k ← resolve_dir channel; meta ← meta_load k channel; mret (meta_kind meta).
Definition channel_name (channel : ChannelId) : M string :=
  k ← resolve_dir channel; meta ← meta_load k channel; mret (meta_name meta).
Definition remote_dm_account (channel : ChannelId) : M (option string) :=
  k ← resolve_dir channel; meta ← meta_load k channel; mret (meta_account meta).
Definition binding_for (channel : ChannelId) (principal : string) : M (option Binding) :=
  k ← resolve_dir channel; meta ← meta_load k channel; mret (meta_bindings meta !! principal).

Definition check_membership (k : DirKey) (subject : ActorRef) : M bool :=
  m ← members_load k; ask (fun s => has_member s m subject).

(** Each element through an operation, in order. *)
Fixpoint each {A B} (f : A -> M B) (l : list A) : M (list B) :=
  match l with
  | [] => mret []
  | x :: l => y ← f x; ys ← each f l; mret (y :: ys)
  end.
(** Without repetitions, each value where it first stood. *)
Definition distinct {A} (same : A -> A -> bool) (l : list A) : list A :=
  foldl (fun out x => if existsb (same x) out then out else out ++ [x]) [] l.

Definition list_members (channel : ChannelId) : M (list ActorRef) :=
  k ← resolve_dir channel;
  m ← members_load k;
  subjects ← each (fun row => i ← info_of (member_subject row); subject_m i) (members m);
  mret (distinct (fun a b => bool_decide (a = b)) subjects).
Definition list_remote_members (channel : ChannelId) : M (list RemoteMember) :=
  k ← resolve_dir channel; m ← members_load k; mret (remote_members m).
Definition is_remote_member (channel : ChannelId) (runtime_id principal_id : string) : M bool :=
  rows ← list_remote_members channel;
  mret (existsb (fun rm => String.eqb (rm_runtime_id rm) runtime_id && String.eqb (rm_principal_id rm) principal_id) rows).

Definition participants (channel : ChannelId) : M (list ActorInfo) :=
  k ← resolve_dir channel;
  meta ← meta_load k channel;
  local ← list_members channel;
  remote ← list_remote_members channel;
  let subjects := local ++ map (fun m => member_subject (rm_principal_id m)) remote
    ++ (if decide (meta_kind meta = Dm)
        then omap (fun t => match actor_from_str t with Ok a => Some a | Err _ => None end) (meta_participants meta)
        else []) in
  infos ← each info_of subjects;
  mret (sort_by (fun a b => String.leb (address a) (address b))
          (distinct (fun a b => String.eqb (address a) (address b)) infos)).

(** An unreadable [members.json] reads as nobody here. *)
Definition members_with_attribution (channel : ChannelId) : M (list MemberProvenance) :=
  k ← resolve_dir channel;
  m ← caught (members_load k);
  match m with
  | Err _ => mret []
  | Ok m => ask (fun s =>
      map (fun row => {| mp_principal := row_address s row; mp_runtime_id := None |}) (members m)
      ++ map (fun rm => {| mp_principal := rm_principal_id rm; mp_runtime_id := Some (rm_runtime_id rm) |}) (remote_members m))
  end.
Definition membership (channel : ChannelId) : M ChannelMembership :=
  k ← resolve_dir channel;
  meta ← meta_load k channel;
  provenance ← members_with_attribution channel;
  mret {| cm_channel := channel; cm_name := meta_name meta; cm_creator := meta_creator meta;
          cm_members := map mp_principal provenance; cm_provenance := provenance;
          cm_created_at := rfc3339 (meta_created_at meta); cm_last_change := None |}.

(** ** Creating, inviting, leaving *)

(** An actor the registry does not know yet is registered as it is named, with
    the Hub id [hub] picks. *)
Definition ensure_registered (actor : ActorRef) (hub : ActorInfo -> option string) (uuid : string) : M ActorInfo :=
  i ← info_of actor;
  if String.eqb (identity_key i) (address i) then register (plain_request actor (hub i)) uuid else mret i.

(** [minted] is the id made up where the options name none. *)
Definition create (creator : string) (opts : CreateOpts) (minted : ChannelId) (uuid : string) (now : Z) : M ChannelId :=
  _ ← ensure_registered (principal_ref creator) (fun _ => None) uuid;
  let channel := default minted (o_id opts) in
  if bool_decide (o_kind opts = Dm) && negb (is_pair_id channel)
  then adapter ("a DM must have a pair id, not " +:+ channel)
  else
    k ← try_ (channel_dir_for (o_tier opts) channel);
    taken ← ask (fun s => is_some (dirs s !! k));
    if taken : bool then adapter ("channel id collision: " +:+ channel)
    else
      _ ← mkdir k;
      _ ← meta_save k (new_meta creator (o_name opts) now (o_tier opts) (o_kind opts) ∅ [] None None);
      _ ← members_save k {| members := [member_row (principal_ref creator)]; remote_members := [] |};
      _ ← append_to (channel_dir_for_tier (o_tier opts) channel)
            (Created channel creator (o_name opts) (rfc3339 now)) LocalOrigin;
      mret channel.

Definition FAN_OUT_CAP : nat := 8.
Definition is_principal (a : ActorRef) : bool := match a with Principal _ => true | _ => false end.
Definition principal_rows (m : MembersJson) : nat :=
  length (List.filter (fun row => is_principal (member_subject row)) (members m)).

Definition invite (channel : ChannelId) (inviter : string) (invitee : ActorRef) (uuid : string) (now : Z) : M unit :=
  info ← ensure_registered invitee hub_id uuid;
  invitee ← subject_m info;
  k ← resolve_dir channel;
  _ ← lock_members k;
  meta ← meta_load k channel;
  named ← ask (fun s => existsb (fun p => String.eqb (address_in s p) (address info)) (meta_participants meta));
  if bool_decide (meta_kind meta = Dm) && negb named
  then adapter "a DM keeps its two members; create a group to add someone"
  else
    m ← members_load k;
    in_ ← ask (fun s => has_member s m (principal_ref inviter));
    already ← ask (fun s => has_member s m invitee);
    if negb in_ then failure NotMember
    else if already : bool then mret ()
    else if is_principal invitee && Nat.leb FAN_OUT_CAP (principal_rows m) then failure (FanOutCap (principal_rows m))
    else
      _ ← members_save k {| members := members m ++ [member_row invitee]; remote_members := remote_members m |};
      _ ← append_to k (MemberJoined channel (member_row invitee) (rfc3339 now)) LocalOrigin;
      mret ().

Definition leave_actor (channel : ChannelId) (actor : ActorRef) (now : Z) : M unit :=
  k ← resolve_dir channel;
  _ ← lock_members k;
  meta ← meta_load k channel;
  if decide (meta_kind meta = Dm) then adapter "a DM keeps its two members; it cannot be left"
  else
    _ ← match actor with
        | Principal route => if is_some (meta_bindings meta !! route_id route)
                             then meta_save k (set_bindings meta (delete (route_id route) (meta_bindings meta)))
                             else mret ()
        | _ => mret ()
        end;
    m ← members_load k;
    kept ← ask (fun s => List.filter (fun row => negb (String.eqb (row_address s row) (subject_address s actor))) (members m));
    if Nat.eqb (length kept) (length (members m)) then mret ()
    else
      _ ← members_save k {| members := kept; remote_members := remote_members m |};
      let member := match actor with Principal route => route_id route | other => actor_display other end in
      _ ← append_to k (MemberLeft channel member (rfc3339 now)) LocalOrigin;
      mret ().
Definition leave (channel : ChannelId) (principal : string) (now : Z) : M unit :=
  leave_actor channel (principal_ref principal) now.

(** ** Posting *)

Definition new_msg_id (uuid : string) : string := "msg_" +:+ uuid.
(** The refusals' texts; [debug] is the quoted form of a text. *)
Definition option_error (e : OptionsError) : string :=
  "invalid options: " +:+
  match e with
  | WrongCount n => "offer 2 to 4 options, not " +:+ dec (Z.of_nat n)
  | EmptyOption => "an option is empty"
  | SpansLines o => "option " +:+ debug o +:+ " spans more than one line"
  | TooLong o => "option " +:+ debug o +:+ " is longer than 60 characters"
  | OfferedTwice o => "option " +:+ debug o +:+ " is offered twice"
  end.

(** A reply's line must be in the log; its post's id goes along. *)
Definition check_parent (k : DirKey) (parent : option TaskId) : M unit :=
  match parent with
  | None => mret ()
  | Some line =>
      match parse_usize line with
      | None => adapter ("invalid parent TaskId " +:+ line +:+ ": not a numeric line offset")
      | Some index =>
          total ← reading k (fun _ d c => let '(n, c) := global_line_count d c in (Ok n, c));
          if Z.leb (Z.of_nat total) index then adapter ("parent line " +:+ line +:+ " not found in channel log")
          else mret ()
      end
  end.
Definition parent_msg_id (k : DirKey) (parent : option TaskId) : M (option string) :=
  match parent with
  | None => mret None
  | Some line => ev ← reading k (fun norm d c => event_at norm d c line); mret (ev ≫= posted_msg_id)
  end.

Definition post_attributed_with_event (channel : ChannelId) (sender : ActorRef) (author : string) (msg : PostMsg)
    (uuid : string) (now : Z) : M (TaskId * ChannelEvent) :=
  k ← resolve_dir channel;
  in_ ← check_membership k sender;
  if negb in_ then failure NotMember
  else
    options ← match validate_options (m_options msg) with
              | Ok options => mret options
              | Err e => adapter (option_error e)
              end;
    _ ← check_parent k (m_parent msg);
    reply_to ← parent_msg_id k (m_parent msg);
    ev ← ask (fun s => Posted {| p_channel := channel; p_author := address_in s author; p_parent := m_parent msg;
                                 p_text := m_text msg; p_at := rfc3339 now; p_via := m_via msg;
                                 p_msg_id := Some (default (new_msg_id uuid) (m_msg_id msg));
                                 p_reply_to := reply_to; p_attachments := m_attachments msg; p_options := options;
                                 p_model := m_model msg |});
    line ← append_to k ev LocalOrigin;
    mret (task_id line, ev).
Definition post_with_event (channel : ChannelId) (sender : ActorRef) (msg : PostMsg) (uuid : string) (now : Z) :
    M (TaskId * ChannelEvent) :=
  author ← ask (fun s => address_in s (member_row sender));
  post_attributed_with_event channel sender author msg uuid now.
Definition post (channel : ChannelId) (sender : ActorRef) (msg : PostMsg) (uuid : string) (now : Z) : M TaskId :=
  x ← post_with_event channel sender msg uuid now; mret (fst x).
Definition post_attributed (channel : ChannelId) (sender : ActorRef) (author : string) (msg : PostMsg) (uuid : string)
    (now : Z) : M TaskId :=
  x ← post_attributed_with_event channel sender author msg uuid now; mret (fst x).

(** ** Bindings *)

Definition bind (channel : ChannelId) (principal session : string) : M Binding :=
  k ← resolve_dir channel;
  _ ← lock_members k;
  m ← members_load k;
  in_ ← ask (fun s => has_member s m (principal_ref principal));
  if negb in_ then failure NotMember
  else
    meta ← meta_load k channel;
    let old := meta_bindings meta !! principal in
    let binding := match old with
                   | Some existing => with_role (binding_new session (b_wake existing)) (b_role existing)
                   | None => binding_new session (default_for (meta_kind meta))
                   end in
    _ ← (if decide (old = Some binding) then mret ()
         else meta_save k (set_bindings meta (<[principal := binding]> (meta_bindings meta))));
    mret binding.

(** [set_wake] and [set_role] change a binding that is there. *)
Definition edit_binding (channel : ChannelId) (principal : string) (check : MetaJson -> option string)
    (edit : Binding -> Binding) : M Binding :=
  k ← resolve_dir channel;
  _ ← lock_members k;
  meta ← meta_load k channel;
  match check meta, meta_bindings meta !! principal with
  | Some why, _ => adapter why
  | None, None => adapter (principal +:+ " has no conversation session on " +:+ channel)
  | None, Some binding =>
      _ ← meta_save k (set_bindings meta (<[principal := edit binding]> (meta_bindings meta)));
      mret (edit binding)
  end.
Definition set_wake (channel : ChannelId) (principal : string) (wake : WakePolicy) : M Binding :=
  edit_binding channel principal
    (fun meta => if decide (meta_kind meta = Dm)
                 then Some "a DM always wakes on human posts; its wake policy cannot change" else None)
    (fun b => {| b_session := b_session b; b_wake := wake; b_role := b_role b |}).
Definition set_role (channel : ChannelId) (principal : string) (role : option string) : M Binding :=
  edit_binding channel principal (fun _ => None) (fun b => with_role b role).

(** ** Groups *)

Definition group_home (channel : ChannelId) : M (option GroupHome) :=
  meta ← meta_load (channel_dir channel) channel;
  mret (if decide (meta_kind meta = Group) then meta_home meta else None).
(** A change of a group's metadata under its lock. *)
Definition edit_group (channel : ChannelId) (edit : MetaJson -> MetaJson) : M unit :=
  let k := channel_dir channel in
  _ ← lock_members k;
  meta ← meta_load k channel;
  if decide (meta_kind meta = Group) then meta_save k (edit meta) else adapter (channel +:+ " is not a group").
Definition set_group_home (channel : ChannelId) (home : GroupHome) : M unit :=
  edit_group channel (fun m => set_home m (Some home)).
Definition group_admins (channel : ChannelId) : M (list string) :=
  meta ← meta_load (channel_dir channel) channel; mret (meta_admins meta).
Definition history_visibility (channel : ChannelId) : M HistoryVisibility :=
  meta ← meta_load (channel_dir channel) channel; mret (default HistoryShared (meta_history meta)).
Definition set_history_visibility (channel : ChannelId) (v : HistoryVisibility) : M unit :=
  edit_group channel (fun m => set_history m (Some v)).
Definition hub_group (channel : ChannelId) : M (option HubGroup) :=
  meta ← meta_load (channel_dir channel) channel; mret (meta_hub meta).
Definition update_hub_group (channel : ChannelId) (edit : option HubGroup -> HubGroup) : M HubGroup :=
  let k := channel_dir channel in
  _ ← lock_members k;
  meta ← meta_load k channel;
  if decide (meta_kind meta = Group)
  then _ ← meta_save k (set_hub meta (Some (edit (meta_hub meta)))); mret (edit (meta_hub meta))
  else adapter (channel +:+ " is not a group").

Definition write_group_admin (channel : ChannelId) (actor : ActorRef) (admin : bool) : M unit :=
  i ← info_of actor;
  ms ← list_members channel;
  infos ← each info_of ms;
  let member := existsb (fun j => String.eqb (address j) (address i)) infos in
  if admin && negb member then adapter (address i +:+ " is not a member of " +:+ channel)
  else edit_group channel (fun m =>
    set_admins m (List.filter (fun a => negb (String.eqb a (address i))) (meta_admins m)
                  ++ (if admin then [address i] else []))).

Definition creator_address (creator : string) : M string :=
  i ← info_of (match actor_from_str creator with Ok a => a | Err _ => principal_ref creator end);
  mret (address i).
Definition owner_of (meta : MetaJson) : M string :=
  match meta_home meta ≫= home_owner with
  | Some owner => mret owner
  | None => creator_address (meta_creator meta)
  end.
Definition group_owner (channel : ChannelId) : M string :=
  meta ← meta_load (channel_dir channel) channel; owner_of meta.
Definition may_manage_group (channel : ChannelId) (actor : ActorRef) : M bool :=
  meta ← meta_load (channel_dir channel) channel;
  if decide (meta_kind meta = Group)
  then i ← info_of actor;
       owner ← owner_of meta;
       mret (String.eqb owner (address i) || existsb (String.eqb (address i)) (meta_admins meta))
  else mret false.

Definition group_info (channel : ChannelId) : M (option GroupInfo) :=
  kind ← conversation_kind channel;
  if decide (kind = Group)
  then home ← group_home channel; owner ← group_owner channel; admins ← group_admins channel;
       history ← history_visibility channel; hub ← hub_group channel; hub2 ← hub_group channel;
       mret (Some {| gi_home := home; gi_owner := owner; gi_admins := admins; gi_history := history;
                     gi_hub_id := hub_group_id <$> hub; gi_visibility := hub_visibility <$> hub2 |})
  else mret None.
Definition set_group_history (channel : ChannelId) (by_ : string) (v : HistoryVisibility) : M unit :=
  allowed ← may_manage_group channel (principal_ref by_);
  if negb allowed
  then owner ← group_owner channel;
       adapter ("Only the group's owner (" +:+ owner +:+ ") or an admin chooses what members may read")
  else set_history_visibility channel v.
Definition set_group_admin (channel : ChannelId) (by_ : string) (actor : ActorRef) (admin : bool) : M unit :=
  owner ← group_owner channel;
  i ← info_of (principal_ref by_);
  if negb (String.eqb (address i) owner)
  then adapter ("Only the group's owner (" +:+ owner +:+ ") chooses its admins")
  else write_group_admin channel actor admin.

Definition adopt_created_at (channel : ChannelId) (at_ : Z) : M bool :=
  let k := channel_dir channel in
  _ ← lock_members k;
  meta ← meta_load k channel;
  if Z.leb (meta_created_at meta) at_ then mret false
  else _ ← meta_save k (set_created_at meta at_); mret true.
Definition history_complete (channel : ChannelId) : M bool :=
  k ← resolve_dir channel; meta ← meta_load k channel; mret (meta_history_complete meta).
Definition mark_history_complete (channel : ChannelId) : M unit :=
  k ← resolve_dir channel;
  _ ← lock_members k;
  meta ← meta_load k channel;
  if meta_history_complete meta then mret () else meta_save k (set_complete meta true).

(** ** Direct messages *)

Definition sort_text : list string -> list string := sort_by String.leb.
(** [Vec::dedup]: of equal neighbours the first stays. *)
Fixpoint dedup (l : list string) : list string :=
  match l with
  | a :: (b :: _) as rest => if String.eqb a b then dedup rest else a :: dedup rest
  | l => l
  end.

(** [trim_start_matches('/')]. *)
Fixpoint trim_start_slash (s : string) : string :=
  match s with
  | String c r => if Ascii.eqb c "/" then trim_start_slash r else s
  | EmptyString => s
  end.

(** [uuid] gives the ids made up for the two actors and in [create]. *)
Definition ensure_dm (sha256 : string -> string) (principal : string) (peer : ActorRef) (binding : string)
    (uuid : nat -> string) (now : Z) : M ChannelId :=
  _ ← ensure_registered (principal_ref principal) hub_id (uuid 0);
  _ ← ensure_registered peer hub_id (uuid 1);
  me ← info_of (principal_ref principal);
  other ← info_of peer;
  let channel := dm_channel_id sha256 (dm_key me) (dm_key other) in
  let k := channel_dir channel in
  there ← ask (fun s => meta_exists s k);
  _ ← (if there : bool then mret channel
       else create principal (with_kind (with_id (opts_runtime ("dm-" +:+ trim_start_slash binding)) channel) Dm)
              channel (uuid 2) now);
  _ ← lock_members k;
  meta ← meta_load k channel;
  let expected := dedup (sort_text [address me; address other]) in
  stored ← ask (fun s => dedup (sort_text (map (address_in s) (meta_participants meta))));
  if negb (bool_decide (stored = [])) && negb (bool_decide (stored = expected))
  then adapter "DM participant identity conflicts with stored channel"
  else
    let role := (meta_bindings meta !! principal) ≫= b_role in
    _ ← meta_save k (set_participants
          (set_bindings meta (<[principal := with_role (binding_new binding WakeHuman) role]> (meta_bindings meta))) expected);
    m ← members_load k;
    they ← subject_m other;
    m ← ask (fun s => foldl (fun m a => if has_member s m a then m
                                        else {| members := members m ++ [member_row a]; remote_members := remote_members m |})
                       m [principal_ref principal; they]);
    _ ← members_save k m;
    mret channel.

Definition ensure_human_dm (human peer : ActorRef) (channel : ChannelId) (name account : string) (now : Z) : M bool :=
  if negb (is_pair_id channel) then adapter ("a DM must have a pair id, not " +:+ channel)
  else
    h ← info_of human;
    p ← info_of peer;
    let expected := sort_text [address h; address p] in
    let k := channel_dir channel in
    there ← ask (fun s => meta_exists s k);
    if there : bool
    then
      meta ← meta_load k channel;
      stored ← ask (fun s => sort_text (map (address_in s) (meta_participants meta)));
      if negb (bool_decide (meta_kind meta = Dm)) || negb (bool_decide (stored = expected))
      then adapter "DM participant identity conflicts with stored channel"
      else match meta_account meta with
           | Some owner => if String.eqb owner account then mret false
                           else adapter "This conversation belongs to another PekoHub account"
           | None => _ ← meta_save k (set_account meta (Some account)); mret false
           end
    else
      _ ← mkdir k;
      _ ← meta_save k (new_meta (member_row human) name now Runtime Dm ∅ expected (Some account) None);
      _ ← members_save k {| members := [member_row human; member_row peer]; remote_members := [] |};
      _ ← append_to k (Created channel (member_row human) name (rfc3339 now)) LocalOrigin;
      mret true.
End Store.
