(* ===== verification/ChannelCopies.v ===== *)
(** * ChannelCopies: channels shared between runtimes

    The operations of peko-rs/channel/src/store.rs on members of other
    runtimes and on copies of a channel: joining one, taking its events,
    backfilling and paging its history, finding and removing copies.  Then the
    store's histories as sequences of operations, and what every operation
    keeps. *)

From Stdlib Require Import ZArith Lia Ascii Sorting.Sorted.
From stdpp Require Import base tactics list gmap strings.
From S2P Require Import Prelude Text Subject ChannelWire Actors ChannelLog ChannelStore.

Local Open Scope nat_scope.
Open Scope rust_scope.

(** Rows added unless they are there. *)
Definition add_rows (rows more : list RemoteMember) : list RemoteMember :=
  foldl (fun rows r => if existsb (fun x => bool_decide (x = r)) rows then rows else rows ++ [r]) rows more.
(** The rows of a roster that name a runtime. *)
Definition routed (roster : list InitialMember) : list RemoteMember :=
  omap (fun m => (fun rid => {| rm_runtime_id := rid; rm_principal_id := im_principal_did m |}) <$> im_runtime_id m) roster.
(** The roster's addresses, sorted, each once. *)
Definition roster_addresses (roster : list InitialMember) : list string :=
  dedup (sort_text (map (fun m => actor_display (member_subject (im_principal_did m))) roster)).

Section Copies.
Context `{J : EventJson} (cfg : ChannelConfig) (rfc3339 : Z -> string).

(** ** Members of other runtimes *)

Definition add_remote_member (channel : ChannelId) (runtime_id principal_id : string) : M unit :=
  k ← resolve_dir cfg channel;
  _ ← lock_members k;
  m ← members_load k;
  let row := {| rm_runtime_id := runtime_id; rm_principal_id := principal_id |} in
  if existsb (fun x => bool_decide (x = row)) (remote_members m) then mret ()
  else members_save k {| members := members m; remote_members := remote_members m ++ [row] |}.

Definition replace_peer_route (channel : ChannelId) (did runtime : string) : M (list string) :=
  k ← resolve_dir cfg channel;
  _ ← lock_members k;
  m ← members_load k;
  let old := map rm_runtime_id (List.filter (fun r => String.eqb (rm_principal_id r) did
                                                      && negb (String.eqb (rm_runtime_id r) runtime)) (remote_members m)) in
  let kept := List.filter (fun r => negb (String.eqb (rm_principal_id r) did) || String.eqb (rm_runtime_id r) runtime)
                (remote_members m) in
  _ ← members_save k {| members := members m;
                        remote_members := add_rows kept [{| rm_runtime_id := runtime; rm_principal_id := did |}] |};
  mret old.

(** [retain] by an actor's kind and key: the rows of someone else. *)
Fixpoint rows_of_others {A} (leaving : ActorInfo) (name : A -> string) (rows : list A) : M (list A) :=
  match rows with
  | [] => mret []
  | r :: rows =>
      i ← info_of (member_subject (name r));
      rest ← rows_of_others leaving name rows;
      mret (if negb (String.eqb (info_kind i) (info_kind leaving)) || negb (String.eqb (identity_key i) (identity_key leaving))
            then r :: rest else rest)
  end.

(** A peer's post keeps its message and loses options that break the limits. *)
Definition sanitized (ev : ChannelEvent) : ChannelEvent :=
  match ev with
  | Posted p =>
      match validate_options (p_options p) with
      | Ok _ => ev
      | Err _ => Posted {| p_channel := p_channel p; p_author := p_author p; p_parent := p_parent p; p_text := p_text p;
                           p_at := p_at p; p_via := p_via p; p_msg_id := p_msg_id p; p_reply_to := p_reply_to p;
                           p_attachments := p_attachments p; p_options := []; p_model := p_model p |}
      end
  | _ => ev
  end.

Definition append_remote_event (channel : ChannelId) (ev : ChannelEvent) : M TaskId :=
  k ← resolve_dir cfg channel;
  _ ← match ev with
      | MemberLeft _ member _ =>
          leaving ← info_of (member_subject member);
          _ ← lock_members k;
          m ← members_load k;
          remote ← rows_of_others leaving rm_principal_id (remote_members m);
          local ← rows_of_others leaving (fun row => row) (members m);
          members_save k {| members := local; remote_members := remote |}
      | _ => mret ()
      end;
  line ← append_to cfg k (sanitized ev) VerifiedRemote;
  mret (task_id line).

(** ** Joining *)

Definition join_remote (channel : ChannelId) (creator name : string) (initial_members : list InitialMember)
    (self_principal source_runtime_id : string) (kind : ConversationKind) (binding : option string) (now : Z) : M unit :=
  if bool_decide (kind = Dm) && negb (is_pair_id channel)
  then adapter ("a DM must have a pair id, not " +:+ channel)
  else
    let k := channel_dir channel in
    let me := principal_ref self_principal in
    there ← ask (fun s => meta_exists s k);
    if there : bool
    then
      _ ← lock_members k;
      meta ← meta_load k channel;
      if negb (bool_decide (meta_kind meta = kind))
      then adapter ("invite kind " +:+ conversation_kind_as_str kind +:+ " conflicts with stored "
                    +:+ conversation_kind_as_str (meta_kind meta) +:+ " channel " +:+ channel)
      else
        m ← members_load k;
        in_ ← ask (fun s => has_member s m me);
        let m' := {| members := if in_ : bool then members m else members m ++ [member_row me];
                     remote_members := add_rows (remote_members m) (routed initial_members) |} in
        _ ← (if in_ && bool_decide (remote_members m' = remote_members m) then mret () else members_save k m');
        match binding with
        | Some session => if is_some (meta_bindings meta !! self_principal) then mret ()
                          else meta_save k (set_bindings meta
                                 (<[self_principal := binding_new session (default_for kind)]> (meta_bindings meta)))
        | None => mret ()
        end
    else
      _ ← mkdir k;
      _ ← members_save k {| members := [member_row me];
                            remote_members := add_rows [{| rm_runtime_id := source_runtime_id; rm_principal_id := creator |}]
                                                (routed initial_members) |};
      _ ← meta_save k (new_meta creator name now Runtime kind
            (match binding with
             | Some session => {[ self_principal := binding_new session (default_for kind) ]}
             | None => ∅
             end) (roster_addresses initial_members) None None);
      _ ← append_to cfg k (Created channel creator name (rfc3339 now)) LocalOrigin;
      mret ().

Definition join_remote_person (channel : ChannelId) (name creator : string) (roster : list InitialMember)
    (account home : string) (now : Z) : M bool :=
  let k := channel_dir channel in
  let me := member_row local_user in
  there ← ask (fun s => meta_exists s k);
  if there : bool
  then
    _ ← lock_members k;
    meta ← meta_load k channel;
    if negb (bool_decide (meta_kind meta = Group)) || negb (bool_decide (meta_account meta = Some account))
    then adapter (channel +:+ " is not this account's group")
    else
      m ← members_load k;
      _ ← members_save k {| members := if existsb (String.eqb me) (members m) then members m else members m ++ [me];
                            remote_members := add_rows [] (routed roster) |};
      mret false
  else
    _ ← mkdir k;
    _ ← members_save k {| members := [me]; remote_members := add_rows [] (routed roster) |};
    _ ← meta_save k (new_meta creator name now Runtime Group ∅ (roster_addresses roster) (Some account)
          (Some {| home_runtime := home; home_owner := None |}));
    _ ← append_to cfg k (Created channel creator name (rfc3339 now)) LocalOrigin;
    mret true.

(** ** History *)

Definition all_events (k : DirKey) : M (list ChannelEvent) :=
  items ← reading k (fun norm d c => read_events norm d c ""); mret (map snd items).

Definition by_time (a b : ChannelEvent) : bool := String.leb (event_time a) (event_time b).
(** [Vec::dedup_by] on neighbours' ids: the first of a run stays. *)
Fixpoint dedup_ids (last : option string) (l : list ChannelEvent) : list ChannelEvent :=
  match l with
  | [] => []
  | e :: l => if bool_decide (is_Some last) && bool_decide (posted_msg_id e = last) then dedup_ids last l
              else e :: dedup_ids (posted_msg_id e) l
  end.
Definition fresh_posts (known : list string) (events : list ChannelEvent) : list ChannelEvent :=
  List.filter (fun ev => match posted_msg_id ev with Some id => negb (existsb (String.eqb id) known) | None => false end) events.

Definition append_synced_events (channel : ChannelId) (events : list ChannelEvent) : M nat :=
  k ← resolve_dir cfg channel;
  old ← all_events k;
  let fresh := dedup_ids None (sort_by by_time (fresh_posts (omap posted_msg_id old) events)) in
  _ ← each (fun ev => append_to cfg k ev VerifiedRemote) fresh;
  mret (length fresh).

Definition posts_by_time (channel : ChannelId) : M (list ChannelEvent) :=
  k ← resolve_dir cfg channel;
  evs ← all_events k;
  mret (sort_by by_time (List.filter (fun ev => is_some (posted_msg_id ev)) evs)).
Definition newest_msg_id (channel : ChannelId) : M (option string) :=
  posts ← posts_by_time channel; mret (last posts ≫= posted_msg_id).
Definition oldest_msg_id (channel : ChannelId) : M (option string) :=
  posts ← posts_by_time channel; mret (head posts ≫= posted_msg_id).

(** The page of [posts] at the cursors: its posts and whether more follow in
    the direction read. *)
Definition page_of (posts : list ChannelEvent) (before after : option string) (limit : nat) : list ChannelEvent * bool :=
  let at_ := fun cursor => position (fun ev => bool_decide (posted_msg_id ev = Some cursor)) posts in
  let limit := Nat.max limit 1 in
  let '(start, stop, more) :=
    match after ≫= at_, before ≫= at_ with
    | Some i, _ => let stop := Nat.min (i + 1 + limit) (length posts) in (i + 1, stop, Nat.ltb stop (length posts))
    | None, Some i => let start := i - limit in (start, i, Nat.ltb 0 start)
    | None, None => let start := length posts - limit in (start, length posts, Nat.ltb 0 start)
    end in
  (drop start (take stop posts), more).
Definition history_page (channel : ChannelId) (before after : option string) (limit : nat) : M (list ChannelEvent * bool) :=
  posts ← posts_by_time channel; mret (page_of posts before after limit).

(** [history_page_since] takes the page whole ([wide] is [usize::MAX / 4],
    more than any log holds) and then what followed [since]. *)
Definition page_since (posts : list ChannelEvent) (before after : option string) (limit : nat) (since : string) :
    list ChannelEvent * bool :=
  let visible := List.filter (fun ev => String.leb since (event_time ev)) (fst (page_of posts before after (length posts))) in
  let limit := Nat.max limit 1 in
  if is_some after then (take limit visible, Nat.ltb (Nat.min limit (length visible)) (length visible))
  else (drop (length visible - limit) visible, Nat.ltb 0 (length visible - limit)).
Definition history_page_since (channel : ChannelId) (before after : option string) (limit : nat) (since : string) :
    M (list ChannelEvent * bool) :=
  posts ← posts_by_time channel; mret (page_since posts before after limit since).

(** The newest [MemberJoined] of an address, else the creation by it. *)
Fixpoint joined_walk (addr : string) (evs : list ChannelEvent) (joined : option string) : M (option string) :=
  match evs with
  | [] => mret joined
  | MemberJoined _ member t :: evs =>
      a ← creator_address member; joined_walk addr evs (if String.eqb a addr then Some t else joined)
  | Created _ creator _ t :: evs =>
      match joined with
      | Some _ => joined_walk addr evs joined
      | None => a ← creator_address creator; joined_walk addr evs (if String.eqb a addr then Some t else joined)
      end
  | _ :: evs => joined_walk addr evs joined
  end.
Definition joined_at (channel : ChannelId) (addr : string) : M (option string) :=
  k ← resolve_dir cfg channel;
  evs ← all_events k;
  joined_walk addr evs None.

Definition moved_to (channel : ChannelId) (ev : ChannelEvent) : ChannelEvent :=
  match ev with
  | Posted p => Posted {| p_channel := channel; p_author := p_author p; p_parent := p_parent p; p_text := p_text p;
                          p_at := p_at p; p_via := p_via p; p_msg_id := p_msg_id p; p_reply_to := p_reply_to p;
                          p_attachments := p_attachments p; p_options := p_options p; p_model := p_model p |}
  | _ => ev
  end.
Definition restore_dm_copy (channel : ChannelId) (remote : list RemoteMember) (posts : list ChannelEvent) : M nat :=
  kind ← conversation_kind cfg channel;
  if decide (kind = Dm)
  then _ ← each (fun m => add_remote_member channel (rm_runtime_id m) (rm_principal_id m)) remote;
       append_synced_events channel (map (moved_to channel) posts)
  else adapter (channel +:+ " is not a DM").

(** ** Walking the channels *)

(** The names under the runtime root, in the order the directory gives them. *)
Definition channel_names (s : Store) : list string :=
  omap (fun kd => match fst kd with (Runtime, name) => Some name | _ => None end) (map_to_list (dirs s)).
Definition shared_names (s : Store) : list string :=
  omap (fun kd => match fst kd with (Shared, name) => Some name | _ => None end) (map_to_list (dirs s)).
Definition named_channel (name : string) : option ChannelId :=
  or_else (channel_parse name) (channel_dir_name_inverse name).

(** The ids of the directories whose channel passes a check. *)
Fixpoint walk (names : list string) (keep : DirKey -> ChannelId -> M bool) : M (list ChannelId) :=
  match names with
  | [] => mret []
  | name :: names =>
      match named_channel name with
      | None => walk names keep
      | Some channel =>
          yes ← keep (Runtime, name) channel;
          rest ← walk names keep;
          mret (if yes : bool then channel :: rest else rest)
      end
  end.

(** What a readable [meta.json] says. *)
Definition with_meta (k : DirKey) (channel : ChannelId) (f : MetaJson -> M bool) : M bool :=
  meta ← caught (meta_load k channel);
  match meta with Ok meta => f meta | Err _ => mret false end.

Definition list_channels_for_principal (principal : string) : M (list ChannelId) :=
  names ← ask channel_names;
  walk names (fun k channel =>
    m ← caught (members_load k);
    match m with
    | Ok m => ask (fun s => has_member s m (principal_ref principal))
    | Err _ => mret false
    end).
Definition channels_of_kind (kind : ConversationKind) : M (list ChannelId) :=
  names ← ask channel_names;
  walk names (fun k channel => with_meta k channel (fun meta => mret (bool_decide (meta_kind meta = kind)))).
Definition account_channels (account : string) (kind : ConversationKind) : M (list ChannelId) :=
  names ← ask channel_names;
  walk names (fun k channel => with_meta k channel (fun meta =>
    mret (bool_decide (meta_kind meta = kind) && bool_decide (meta_account meta = Some account)))).
Definition remote_dms (account : string) : M (list ChannelId) := account_channels account Dm.

Definition person_groups (account : string) : M (list (ChannelId * string * option string)) :=
  channels ← account_channels account Group;
  each (fun channel => meta ← meta_load (channel_dir channel) channel;
                       mret (channel, meta_name meta, home_runtime <$> meta_home meta)) channels.

(** The two people of a DM, and the other one. *)
Definition people_of (meta : MetaJson) : list string :=
  omap (fun t => match actor_from_str t with Ok (User r) => Some (canonical_address (User r)) | _ => None end)
       (meta_participants meta).
Definition person_dms (account : string) : M (list (ChannelId * string)) :=
  channels ← account_channels account Dm;
  found ← each (fun channel =>
    meta ← caught (meta_load (channel_dir channel) channel);
    match meta with
    | Err _ => mret None
    | Ok meta =>
        let people := people_of meta in
        if negb (Nat.eqb (length people) 2) then mret None
        else
          local ← info_of local_user;
          ask (fun s => pair channel <$> List.find (fun p => negb (String.eqb p ("user:hub:" +:+ account))
                                                    && negb (String.eqb (address_in s p) (address local))) people)
    end) channels;
  mret (omap (fun x => x) found).

Definition peko_dms : M (list ChannelId) :=
  channels ← channels_of_kind Dm;
  found ← each (fun channel =>
    k ← resolve_dir cfg channel;
    meta ← caught (meta_load k channel);
    match meta with
    | Err _ => mret None
    | Ok meta =>
        if is_some (meta_account meta) || bool_decide (meta_bindings meta = ∅) then mret None
        else
          m ← caught (members_load k);
          let remote := match m with Ok m => remote_members m | Err _ => [] end in
          mret (if existsb (fun r => starts_with "did:key:" (rm_principal_id r)) remote then Some channel else None)
    end) channels;
  mret (omap (fun x => x) found).

(** The local user's DM with another actor, if the channel is one. *)
Definition dm_peer (s : Store) (meta : MetaJson) (local : ActorInfo) : option ActorRef :=
  let addresses := map (address_in s) (meta_participants meta) in
  if is_some (meta_account meta) || negb (existsb (String.eqb (address local)) addresses) || negb (Nat.eqb (length addresses) 2)
  then None
  else match List.find (fun a => negb (String.eqb a (address local))) addresses with
       | Some other => match actor_from_str other with Ok a => Some a | Err _ => None end
       | None => None
       end.
Definition local_user_dm_peers : M (list (ChannelId * ActorInfo)) :=
  local ← info_of local_user;
  channels ← channels_of_kind Dm;
  found ← each (fun channel =>
    meta ← caught (meta_load (channel_dir channel) channel);
    match meta with
    | Err _ => mret None
    | Ok meta =>
        peer ← ask (fun s => dm_peer s meta local);
        match peer with
        | Some a => i ← info_of a; mret (Some (channel, i))
        | None => mret None
        end
    end) channels;
  mret (omap (fun x => x) found).

(** Conversations whose members include all of [actors], by key. *)
Definition key_in (s : Store) (a : ActorRef) : string := registry_key_of (registry s) a.
Fixpoint shared_walk (keys : list string) (names : list string) (out : list ChannelId) : M (list ChannelId) :=
  match names with
  | [] => mret out
  | name :: names =>
      match named_channel name with
      | None => shared_walk keys names out
      | Some channel =>
          if existsb (String.eqb channel) out then shared_walk keys names out
          else
            local ← caught (list_members cfg channel);
            match local with
            | Err _ => shared_walk keys names out
            | Ok local =>
                rows ← caught (list_remote_members cfg channel);
                remote ← each (fun r => i ← info_of (match actor_from_str (rm_principal_id r) with
                                                     | Ok a => a
                                                     | Err _ => Principal (route_parse (rm_principal_id r))
                                                     end); subject_m i)
                           (match rows with Ok rows => rows | Err _ => [] end);
                theirs ← ask (fun s => map (key_in s) (local ++ remote));
                shared_walk keys names
                  (if forallb (fun key => existsb (String.eqb key) theirs) keys then out ++ [channel] else out)
            end
      end
  end.
Definition shared_by (actors : list ActorRef) : M (list ChannelId) :=
  keys ← ask (fun s => map (key_in s) actors);
  names ← ask (fun s => channel_names s ++ (if shared_dir cfg then shared_names s else []));
  shared_walk keys names [].

(** ** Removing and pinning *)

Definition remove_dir (k : DirKey) : M unit := fun s =>
  (Ok (), {| registry := registry s; dirs := delete k (dirs s); counts := counts s |}).

(** The copies that belong to someone else than [keep]. *)
Definition is_theirs (keep : option string) (meta : MetaJson) (m : result MembersJson ChannelError) : bool :=
  if negb (bool_decide (meta_kind meta = Dm)) && negb (is_some (meta_account meta)) then false
  else match meta_account meta with
       | Some account => negb (bool_decide (Some account = keep))
       | None => String.eqb (meta_creator meta) (member_row local_user)
                 && match m with Ok m => negb (bool_decide (remote_members m = [])) | Err _ => false end
       end.
Definition purge_remote_dms (keep : option string) : M (list ChannelId) :=
  names ← ask channel_names;
  walk names (fun k channel => with_meta k channel (fun meta =>
    m ← caught (members_load k);
    if is_theirs keep meta m then _ ← remove_dir k; mret true else mret false)).

(** The data files of [src] over those of [dst]. *)
Definition copy_data (src dst : DirKey) : M unit := fun s =>
  let from := dir_at s src in
  let old := dir_at s dst in
  (Ok (), with_dir s dst
    {| meta_file := match meta_file from with Absent => meta_file old | f => f end;
       members_file := match members_file from with Absent => members_file old | f => f end;
       log := {| rotated := sort_by (fun a b => Z.leb (fst a) (fst b))
                   (List.filter (fun p => negb (existsb (fun q => Z.eqb (fst p) (fst q)) (rotated (log from)))) (rotated (log old))
                    ++ rotated (log from));
                 current := or_else (current (log from)) (current (log old)) |} |}).
Definition pin_to_shared (channel : ChannelId) : M DirKey :=
  dst ← try_ (channel_dir_for cfg Shared channel);
  _ ← meta_load (channel_dir channel) channel;
  _ ← copy_data (channel_dir channel) dst;
  mret dst.
End Copies.
