(* ===== verification/ChannelHistory.v ===== *)
(** * ChannelHistory: what every operation of the channel store keeps

    The operations of [ChannelStore] and [ChannelCopies] as steps of one
    machine.  A small logic for state passing carries facts through an
    operation: [moves] for a relation each call keeps, [wp] where a later write
    depends on an earlier read.  With it: logs are append-only and always read
    back, a channel's identity does not change, admins are the owner's choice,
    and replies point at earlier lines. *)

From Stdlib Require Import ZArith Lia Ascii Sorting.Sorted.
From stdpp Require Import base tactics list gmap strings.
From S2P Require Import Prelude Text Subject ChannelWire Actors ChannelLog ChannelStore ChannelCopies.

Local Open Scope nat_scope.

(** ** Relations that operations keep *)

Definition moves (R : Store -> Store -> Prop) {A} (c : M A) : Prop := forall s, R s (snd (c s)).

Section Moves.
Context (R : Store -> Store -> Prop) `{!PreOrder R}.

Lemma moves_same {A} (c : M A) : (forall s, snd (c s) = s) -> moves R c.
Proof. intros H s. by rewrite H. Qed.
Lemma moves_ret {A} (x : A) : moves R (mret x).
Proof. by apply moves_same. Qed.
Lemma moves_failure {A} e : moves R (@failure A e).
Proof. by apply moves_same. Qed.
Lemma moves_adapter {A} msg : moves R (@adapter A msg).
Proof. by apply moves_same. Qed.
Lemma moves_panic {A} msg : moves R (@panic A msg).
Proof. by apply moves_same. Qed.
Lemma moves_ask {A} (f : Store -> A) : moves R (ask f).
Proof. by apply moves_same. Qed.
Lemma moves_try {A} (r : result A ChannelError) : moves R (try_ r).
Proof. by apply moves_same. Qed.
Lemma moves_bind {A B} (c : M A) (k : A -> M B) : moves R c -> (forall x, moves R (k x)) -> moves R (c ≫= k).
Proof.
  intros Hc Hk s. unfold mbind, M_bind. specialize (Hc s). destruct (c s) as [[x|e] s']; [|done]. cbn in Hc.
  etrans; [exact Hc|apply Hk].
Qed.
Lemma moves_caught {A} (c : M A) : moves R c -> moves R (caught c).
Proof. intros H s. specialize (H s). unfold caught. by destruct (c s) as [[x|[e|m]] s']. Qed.
Lemma moves_if {A} (b : bool) (c d : M A) : moves R c -> moves R d -> moves R (if b then c else d).
Proof. by destruct b. Qed.
Lemma moves_decide {A} P `{Decision P} (c d : M A) : moves R c -> moves R d -> moves R (if decide P then c else d).
Proof. by destruct (decide P). Qed.
Lemma moves_each {A B} (f : A -> M B) l : (forall x, moves R (f x)) -> moves R (each f l).
Proof.
  intros H. induction l as [|x l IH]; cbn [each]; [apply moves_ret|].
  apply moves_bind; [done|]. intros y. apply moves_bind; [done|]. intros ys. apply moves_ret.
Qed.
Lemma moves_subject i : moves R (subject_m i).
Proof. unfold subject_m. destruct (subject_of i); [apply moves_ret|apply moves_panic]. Qed.
Lemma moves_meta_load k ch : moves R (meta_load k ch).
Proof.
  unfold meta_load. apply moves_bind; [apply moves_ask|]. intros d.
  destruct (meta_file d); [apply moves_failure|apply moves_adapter|apply moves_ret].
Qed.
Lemma moves_members_load k : moves R (members_load k).
Proof.
  unfold members_load. apply moves_bind; [apply moves_ask|]. intros d.
  destruct (members_file d); [apply moves_ret|apply moves_adapter|apply moves_ret].
Qed.
Lemma moves_lock k : moves R (lock_members k).
Proof. unfold lock_members. apply moves_bind; [apply moves_ask|]. intros []; [apply moves_ret|apply moves_adapter]. Qed.
Lemma moves_resolve cfg ch : moves R (resolve_dir cfg ch).
Proof.
  unfold resolve_dir, resolve_tier.
  apply moves_bind; [apply moves_bind; [apply moves_meta_load|]|]; intros ?; apply moves_ret.
Qed.
End Moves.

Create HintDb moves discriminated.
Create HintDb evolves discriminated.
#[export] Hint Constants Opaque : evolves.
#[export] Hint Transparent ChannelId TaskId : evolves.
#[export] Hint Resolve moves_ret moves_failure moves_adapter moves_panic moves_ask moves_try
  moves_subject moves_meta_load moves_members_load moves_lock moves_resolve : moves.

(** Takes an operation apart down to calls the database knows. *)
Ltac moving_step :=
  match goal with
  | |- forall _, _ => intros ?
  | |- moves _ (mbind _ _) => apply moves_bind; [typeclasses eauto| |intros ?]
  | |- moves _ (each _ _) => apply moves_each; [typeclasses eauto|intros ?]
  | |- moves _ (caught _) => apply moves_caught
  | |- moves _ (if decide _ then _ else _) => apply moves_decide
  | |- moves _ (if _ then _ else _) => apply moves_if
  | |- moves _ (match ?x with _ => _ end) => destruct x
  | |- moves _ _ => solve [eauto 3 with moves typeclass_instances]
  end.
Ltac moving := cbv zeta; repeat (moving_step; cbv zeta).

(** ** Runs followed through their writes *)

Definition wp {A} (R : Store -> Prop) (c : M A) (Q : A -> Store -> Prop) (s : Store) : Prop :=
  match c s with (Ok x, s') => Q x s' | (Err _, s') => R s' end.

Lemma wp_ret {A} R (x : A) Q s : Q x s -> wp R (mret x) Q s.
Proof. done. Qed.
Lemma wp_failure {A} R e (Q : A -> Store -> Prop) s : R s -> wp R (failure e) Q s.
Proof. done. Qed.
Lemma wp_adapter {A} R e (Q : A -> Store -> Prop) s : R s -> wp R (adapter e) Q s.
Proof. done. Qed.
Lemma wp_ask {A} R (f : Store -> A) Q s : Q (f s) s -> wp R (ask f) Q s.
Proof. done. Qed.
Lemma wp_try {A} R (r : result A ChannelError) Q s : (forall x, r = Ok x -> Q x s) -> R s -> wp R (try_ r) Q s.
Proof. destruct r; unfold wp; cbn; auto. Qed.
Lemma wp_bind {A B} R (c : M A) (k : A -> M B) Q s :
  wp R c (fun x s' => wp R (k x) Q s') s -> wp R (c ≫= k) Q s.
Proof. unfold wp, mbind, M_bind. by destruct (c s) as [[x|e] s']. Qed.
Lemma wp_moves {A} S R (c : M A) Q s :
  moves S c -> (forall x s', S s s' -> Q x s') -> (forall s', S s s' -> R s') -> wp R c Q s.
Proof. intros Hc HQ HR. unfold wp. specialize (Hc s). destruct (c s) as [[x|e] s']; auto. Qed.
Lemma wp_snd (R : Store -> Prop) {A} (c : M A) s : wp R c (fun _ s' => R s') s -> R (snd (c s)).
Proof. unfold wp. by destruct (c s) as [[]]. Qed.
Lemma wp_impl {A} (R R' : Store -> Prop) (c : M A) (Q Q' : A -> Store -> Prop) s :
  wp R c Q s -> (forall s', R s' -> R' s') -> (forall x s', Q x s' -> Q' x s') -> wp R' c Q' s.
Proof. unfold wp. destruct (c s) as [[x|e] s']; auto. Qed.

(** What [meta.json] of a directory says. *)
Definition meta_of (s : Store) (k : DirKey) : option MetaJson :=
  match meta_file (dir_at s k) with Holds raw => Some (meta_from_disk raw) | _ => None end.

Lemma wp_meta_load R k ch Q s : (forall m, meta_of s k = Some m -> Q m s) -> R s -> wp R (meta_load k ch) Q s.
Proof.
  unfold meta_of, wp, meta_load, mbind, M_bind, ask. intros HQ HR.
  destruct (meta_file (dir_at s k)); try done. by apply HQ.
Qed.

Lemma meta_load_at s k ch m : meta_of s k = Some m -> meta_load k ch s = (Ok m, s).
Proof.
  unfold meta_of, meta_load, mbind, M_bind, ask. destruct (meta_file (dir_at s k)) as [| |raw]; try done. by intros [= <-].
Qed.
Lemma bind_at {A B} (c : M A) (f : A -> M B) s x s' : c s = (Ok x, s') -> (c ≫= f) s = f x s'.
Proof. intros H. unfold mbind, M_bind. by rewrite H. Qed.
(** A channel of the runtime's own tier is where its id says. *)
Lemma resolve_at cfg s ch m : meta_of s (channel_dir ch) = Some m -> meta_tier m = Runtime ->
  resolve_dir cfg ch s = (Ok (channel_dir ch), s).
Proof.
  intros Hm Ht. unfold resolve_dir, resolve_tier. erewrite bind_at; [|by erewrite bind_at; [|by apply meta_load_at]].
  unfold channel_dir_for_tier. by rewrite Ht.
Qed.

Lemma dir_at_with_dir s k d k' : dir_at (with_dir s k d) k' = if decide (k' = k) then d else dir_at s k'.
Proof. unfold dir_at, with_dir. cbn. case_decide as H; [subst; by rewrite lookup_insert_eq|by rewrite lookup_insert_ne]. Qed.
Lemma dir_at_with_log s k l c k' :
  dir_at (with_log s k (dir_at s k) l c) k'
  = if decide (k' = k) then {| meta_file := meta_file (dir_at s k); members_file := members_file (dir_at s k); log := l |}
    else dir_at s k'.
Proof. unfold dir_at at 1, with_log. cbn. case_decide as H; [subst; by rewrite lookup_insert_eq|by rewrite lookup_insert_ne]. Qed.
Lemma counts_at_with_log s k d l c k' :
  counts_at (with_log s k d l c) k' = if decide (k' = k) then c else counts_at s k'.
Proof. unfold counts_at, with_log. cbn. case_decide as H; [subst; by rewrite lookup_insert_eq|by rewrite lookup_insert_ne]. Qed.
Lemma counts_at_with_counts s k c k' :
  counts_at (with_counts s k c) k' = if decide (k' = k) then c else counts_at s k'.
Proof. unfold counts_at, with_counts. cbn. case_decide as H; [subst; by rewrite lookup_insert_eq|by rewrite lookup_insert_ne]. Qed.

Lemma meta_disk_roundtrip m : meta_from_disk (meta_to_disk m) = m.
Proof.
  destruct m. unfold meta_from_disk, meta_to_disk. cbn. f_equal. rewrite <- map_fmap_compose.
  rewrite <- (map_fmap_id meta_bindings) at 2. by apply map_fmap_ext.
Qed.

(** ** Logs and identities *)

Section History.
Context `{J : EventJson} `{!EventJsonLaws J} (cfg : ChannelConfig).

(** The log of a directory is well formed and holds these events. *)
Record holds_log (s : Store) (k : DirKey) (evs : list (EventOrigin * ChannelEvent)) : Prop := {
  hl_dir : dir_ok (log (dir_at s k));
  hl_sound : sound (log (dir_at s k)) (counts_at s k);
  hl_whole : whole (log (dir_at s k));
  hl_clean : clean (log (dir_at s k)) evs;
}.

(** A reply written here names an earlier line, and the post on it by its id
    (where the line is written as the store writes it). *)
Definition answers (evs : list (EventOrigin * ChannelEvent)) (p : Post) : Prop :=
  match p_parent p with
  | None => p_reply_to p = None
  | Some line => (Z.of_nat (length evs) <= u64_max)%Z ->
      exists j, parse_usize line = Some (Z.of_nat j) /\ j < length evs /\
        p_reply_to p = if decide (line = task_id j) then evs !! j ≫= (fun x => posted_msg_id (snd x)) else None
  end.
Definition threads (evs more : list (EventOrigin * ChannelEvent)) : Prop :=
  forall i p, more !! i = Some (LocalOrigin, Posted p) -> answers (evs ++ take i more) p.
Lemma threads_nil evs : threads evs [].
Proof. intros i p H. by rewrite lookup_nil in H. Qed.
Lemma threads_app evs a b : threads evs a -> threads (evs ++ a) b -> threads evs (a ++ b).
Proof.
  intros Ha Hb i p H. apply lookup_app_Some in H as [H|[Hi H]].
  - rewrite take_app_le by (apply lookup_lt_Some in H; lia). by apply Ha.
  - rewrite take_app_ge, app_assoc by done. by apply Hb.
Qed.

(** Metadata stays and logs only grow. *)
Record calm (s s' : Store) : Prop := {
  calm_meta k : meta_of s' k = meta_of s k;
  calm_log k evs : holds_log s k evs -> exists more, holds_log s' k (evs ++ more) /\ threads evs more;
}.
#[export] Instance calm_preorder : PreOrder calm.
Proof.
  split.
  - intros s. split; [done|]. intros k evs H. exists []. rewrite app_nil_r. by split; [|apply threads_nil].
  - intros s s' s'' [M1 L1] [M2 L2]. split; [intros k; by rewrite M2|].
    intros k evs H. destruct (L1 k evs H) as (a & Ha & Ta). destruct (L2 k _ Ha) as (b & Hb & Tb).
    exists (a ++ b). rewrite app_assoc. by split; [|apply threads_app].
Qed.
(** The logs are what they were. *)
Record still (s s' : Store) : Prop := {
  still_meta k : meta_of s' k = meta_of s k;
  still_log k evs : holds_log s k evs -> holds_log s' k evs;
}.
#[export] Instance still_preorder : PreOrder still.
Proof. split; [by split|]. intros s s' s'' [M1 L1] [M2 L2]. split; [intros k; by rewrite M2|auto]. Qed.
Lemma still_calm s s' : still s s' -> calm s s'.
Proof.
  intros [Hm Hl]. split; [done|]. intros k evs H. exists []. rewrite app_nil_r. split; [by apply Hl|apply threads_nil].
Qed.
Lemma calm_still s s' :
  (forall k, meta_of s' k = meta_of s k) -> (forall k evs, holds_log s k evs -> holds_log s' k evs) -> calm s s'.
Proof. intros. by apply still_calm. Qed.

Lemma calm_registry s g : calm s (with_registry s g).
Proof. apply calm_still; [done|]. by intros k evs [? ? ? ?]. Qed.
Lemma calm_info a : moves calm (info_of a).
Proof. intros s. unfold info_of. destruct (actor_info _ a); [apply calm_registry|done]. Qed.
Lemma calm_register rq u : moves calm (register rq u).
Proof. intros s. unfold register. destruct (register_actor _ rq u) as [[i g]|]; [apply calm_registry|done]. Qed.

(** A directory rewritten with the same metadata and log. *)
Lemma calm_with_dir s k d :
  meta_file d = meta_file (dir_at s k) -> log d = log (dir_at s k) -> calm s (with_dir s k d).
Proof.
  intros Hm Hl. apply calm_still.
  - intros n. unfold meta_of. rewrite dir_at_with_dir. case_decide as E; [|done]. by rewrite Hm, E.
  - intros n evs [H1 H2 H3 H4].
    assert (E : log (dir_at (with_dir s k d) n) = log (dir_at s n)).
    { rewrite dir_at_with_dir. case_decide as E; [by rewrite Hl, E|done]. }
    split; rewrite E; done.
Qed.
Lemma calm_mkdir k : moves calm (mkdir k).
Proof. intros s. by apply calm_with_dir. Qed.
Lemma calm_members_save k m : moves calm (members_save k m).
Proof.
  intros s. unfold members_save. destruct (dirs s !! k) as [d|] eqn:E; [|done].
  apply calm_with_dir; unfold dir_at; by rewrite E.
Qed.
(** One well formed log for another. *)
Lemma still_counts s k c :
  (forall evs, holds_log s k evs -> sound (log (dir_at s k)) c) -> still s (with_counts s k c).
Proof.
  intros Hc. split; [done|]. intros n evs [H1 H2 H3 H4]. split; try done. rewrite counts_at_with_counts. case_decide as E; [|done].
  rewrite E. apply (Hc evs). rewrite <- E. by split.
Qed.
Lemma still_reading {A} k (f : (ChannelEvent -> ChannelEvent) -> LogDir -> LineCounts -> result A ChannelError * LineCounts) :
  (forall norm d c, dir_ok d -> sound d c -> sound d (snd (f norm d c))) -> moves still (reading k f).
Proof.
  intros Hf s. unfold reading. destruct (f _ _ _) as [r c] eqn:E. apply still_counts.
  intros evs [H1 H2 _ _]. specialize (Hf (normalize_event s) _ _ H1 H2). by rewrite E in Hf.
Qed.
Lemma calm_reading {A} k (f : (ChannelEvent -> ChannelEvent) -> LogDir -> LineCounts -> result A ChannelError * LineCounts) :
  (forall norm d c, dir_ok d -> sound d c -> sound d (snd (f norm d c))) -> moves calm (reading k f).
Proof. intros Hf s. by apply still_calm, still_reading. Qed.

(** An append adds its event to its own log. *)
Definition kept_as (s : Store) (ev : ChannelEvent) (origin : EventOrigin) : EventOrigin * ChannelEvent :=
  (origin, if bool_decide (origin = LocalOrigin) then normalize_event s ev else ev).
Lemma append_to_holds s k ev origin evs :
  holds_log s k evs ->
  fst (append_to cfg k ev origin s) = Ok (length evs) /\
  holds_log (snd (append_to cfg k ev origin s)) k (evs ++ [kept_as s ev origin]).
Proof.
  intros [H1 H2 H3 H4]. unfold append_to, append_event.
  change (to_line origin _) with (encode_line (kept_as s ev origin)).
  destruct (append_line _ _ _ _) as [[n d'] cache'] eqn:E.
  apply append_line_spec in E as (-> & Hd' & Hs' & Hw' & Hl & _); [|done..|apply to_line_one].
  specialize (Hl H3). unfold clean in *. split; [cbn; by rewrite H4, length_map|]. cbn [snd].
  assert (E : log (dir_at (with_log s k (dir_at s k) d' cache') k) = d').
  { rewrite dir_at_with_log. by rewrite decide_True. }
  split; rewrite ?counts_at_with_log, ?decide_True, E by done; try done.
  unfold clean. by rewrite Hl, H4, map_app.
Qed.
Lemma append_to_other s k ev origin k' : k' <> k ->
  dir_at (snd (append_to cfg k ev origin s)) k' = dir_at s k' /\
  counts_at (snd (append_to cfg k ev origin s)) k' = counts_at s k'.
Proof.
  intros H. unfold append_to. destruct (append_event _ _ _ _ _ _) as [[n d'] cache']. cbn [snd].
  by rewrite dir_at_with_log, counts_at_with_log, !decide_False.
Qed.
(** Any event but a post of this runtime's own. *)
Definition no_post (ev : ChannelEvent) (origin : EventOrigin) : bool :=
  match origin, ev with LocalOrigin, Posted _ => false | _, _ => true end.
Lemma append_calm s0 s k ev origin :
  still s0 s ->
  (forall evs p, holds_log s0 k evs -> kept_as s ev origin = (LocalOrigin, Posted p) -> answers evs p) ->
  calm s0 (snd (append_to cfg k ev origin s)).
Proof.
  intros [Hm Hl] Ha. split.
  - intros n. rewrite <- Hm. destruct (decide (n = k)) as [->|Hk].
    + unfold append_to. destruct (append_event _ _ _ _ _ _) as [[m d'] cache']. unfold meta_of. cbn [snd].
      by rewrite dir_at_with_log, decide_True.
    + unfold meta_of. by rewrite (proj1 (append_to_other s k ev origin _ Hk)).
  - intros n evs H0. pose proof (Hl n evs H0) as H. destruct (decide (n = k)) as [->|Hk].
    + eexists. split; [by apply append_to_holds|]. intros i p Hi.
      apply list_lookup_singleton_Some in Hi as [-> Hi]. rewrite app_nil_r. by apply Ha.
    + exists []. rewrite app_nil_r. destruct (append_to_other s k ev origin _ Hk) as [E1 E2].
      destruct H as [H1 H2 H3 H4]. split; [split; by rewrite ?E1, ?E2|apply threads_nil].
Qed.
Lemma calm_append k ev origin : no_post ev origin = true -> moves calm (append_to cfg k ev origin).
Proof.
  intros Hn s. apply append_calm; [reflexivity|]. intros evs p _. unfold kept_as. by destruct origin, ev.
Qed.
End History.

#[export] Hint Resolve calm_info calm_register calm_mkdir calm_members_save calm_append : moves.

Section Reads.
Context `{J : EventJson} `{!EventJsonLaws J} (cfg : ChannelConfig) (rfc3339 : Z -> string) (lower debug : string -> string).

Lemma read_events_sound since norm d c : dir_ok d -> sound d c -> sound d (snd (read_events norm d c since)).
Proof. intros. by apply read_events_spec. Qed.
Lemma read_tail_sound limit before norm d c : dir_ok d -> sound d c -> sound d (snd (read_tail norm d c limit before)).
Proof. intros. by apply read_tail_spec. Qed.
Lemma event_at_sound line norm d c : dir_ok d -> sound d c -> sound d (snd (event_at norm d c line)).
Proof.
  intros Hd Hs. unfold event_at. destruct (parse_usize line); [|done].
  pose proof (read_tail_sound 1 (Some (dec (z + 1))) norm d c Hd Hs). by destruct (read_tail _ _ _ _ _).
Qed.
Lemma search_sound q norm d c : dir_ok d -> sound d c -> sound d (snd (search_events norm lower d c q)).
Proof.
  intros Hd Hs. unfold search_events, search_with. destruct (page_counts d c (all_pages d)) as [cs c'] eqn:E.
  by apply all_counts_ok in E as [? _].
Qed.
Lemma line_count_sound d c : dir_ok d -> sound d c -> sound d (snd (global_line_count d c)).
Proof.
  intros Hd Hs. unfold global_line_count. destruct (page_counts d c (all_pages d)) as [cs c'] eqn:E.
  by apply all_counts_ok in E as [? _].
Qed.

Lemma calm_read_events k since : moves calm (reading k (fun norm d c => read_events norm d c since)).
Proof. apply calm_reading; auto using read_events_sound. Qed.
Lemma calm_read_tail k limit before : moves calm (reading k (fun norm d c => read_tail norm d c limit before)).
Proof. apply calm_reading; auto using read_tail_sound. Qed.
Lemma calm_event_at k line : moves calm (reading k (fun norm d c => event_at norm d c line)).
Proof. apply calm_reading; auto using event_at_sound. Qed.
Lemma calm_search k q : moves calm (reading k (fun norm d c => search_events norm lower d c q)).
Proof. apply calm_reading; auto using search_sound. Qed.
Lemma calm_line_count k :
  moves calm (reading k (fun _ d c => let '(n, c) := global_line_count d c in (Ok n, c))).
Proof.
  apply calm_reading. intros _ d c Hd Hs. pose proof (line_count_sound d c Hd Hs) as H.
  by destruct (global_line_count d c).
Qed.
#[local] Hint Resolve calm_read_events calm_read_tail calm_event_at calm_search calm_line_count : moves.

(** *** Operations that write no metadata *)

Lemma calm_peek_with_ids ch since : moves calm (peek_with_ids cfg ch since).
Proof. unfold peek_with_ids. moving. Qed.
Lemma calm_peek_tail ch limit before : moves calm (peek_tail cfg ch limit before).
Proof. unfold peek_tail. moving. Qed.
Lemma calm_search_op ch q : moves calm (search cfg lower ch q).
Proof. unfold search. moving. Qed.
Lemma calm_list_members ch : moves calm (list_members cfg ch).
Proof. unfold list_members. moving. Qed.
Lemma calm_list_remote ch : moves calm (list_remote_members cfg ch).
Proof. unfold list_remote_members. moving. Qed.
#[local] Hint Resolve calm_list_members calm_list_remote : moves.
Lemma calm_infos l : moves calm (each info_of l).
Proof. moving. Qed.
Lemma calm_participants ch : moves calm (participants cfg ch).
Proof. unfold participants. moving. Qed.
Lemma calm_attribution ch : moves calm (members_with_attribution cfg ch).
Proof. unfold members_with_attribution. moving. Qed.
#[local] Hint Resolve calm_attribution : moves.
Lemma calm_membership ch : moves calm (membership cfg rfc3339 ch).
Proof. unfold membership. moving. Qed.
Lemma calm_ensure_registered a hub u : moves calm (ensure_registered a hub u).
Proof. unfold ensure_registered. moving. Qed.
#[local] Hint Resolve calm_ensure_registered : moves.
Lemma calm_invite ch by_ a u now : moves calm (invite cfg rfc3339 ch by_ a u now).
Proof. unfold invite. moving. Qed.

(** *** A post, whose reply is checked against the log *)

Definition parent_there (evs : list (EventOrigin * ChannelEvent)) (parent : option TaskId) : Prop :=
  match parent with
  | None => True
  | Some line => exists j, parse_usize line = Some (Z.of_nat j) /\ j < length evs
  end.
Lemma line_count_clean s k evs : holds_log s k evs ->
  fst (global_line_count (log (dir_at s k)) (counts_at s k)) = length evs.
Proof.
  intros [Hd Hs _ Hc]. unfold global_line_count. destruct (page_counts _ _ _) as [cs c'] eqn:E.
  apply all_counts_ok in E as [_ ->]; [|done..]. cbn. rewrite total_concat. fold (log_lines (log (dir_at s k))).
  by rewrite Hc, length_map.
Qed.
Lemma wp_check_parent R s0 k parent Q s :
  still s0 s -> (forall s', still s0 s' -> R s') ->
  (forall s', still s0 s' -> (forall evs, holds_log s0 k evs -> parent_there evs parent) -> Q tt s') ->
  wp R (check_parent k parent) Q s.
Proof.
  intros S0 HR HQ. unfold check_parent. destruct parent as [line|]; [|by apply wp_ret, HQ].
  destruct (parse_usize line) as [index|] eqn:Hp; [|by apply HR].
  apply wp_bind. unfold wp, reading. destruct (global_line_count _ _) as [n c] eqn:E. cbn [fails].
  assert (St : still s0 (with_counts s k c)).
  { etrans; [exact S0|]. apply still_counts. intros evs [H1 H2 _ _]. pose proof (line_count_sound _ _ H1 H2) as H.
    by rewrite E in H. }
  destruct (Z.leb_spec (Z.of_nat n) index) as [Hi|Hi]; [by apply HR|]. cbn. apply HQ; [done|].
  intros evs He%(still_log _ _ S0). apply line_count_clean in He. rewrite E in He. cbn in He. subst n.
  exists (Z.to_nat index). apply parse_usize_range in Hp as Hr. split; [|lia]. rewrite Hp. f_equal. lia.
Qed.

Lemma event_at_clean norm d c evs line j :
  dir_ok d -> sound d c -> clean d evs -> parse_usize line = Some (Z.of_nat j) -> j < length evs ->
  (Z.of_nat (length evs) <= u64_max)%Z ->
  fst (event_at norm d c line) = Ok (if decide (line = task_id j) then (fun x => norm (snd x)) <$> evs !! j else None).
Proof.
  intros Hd Hs Hc Hp Hj Hu. unfold event_at. rewrite Hp.
  destruct (read_tail norm d c 1 (Some (dec (Z.of_nat j + 1)))) as [r c'] eqn:E. cbn [fst].
  pose proof (read_tail_clean norm d c evs 1 (Some (dec (Z.of_nat j + 1))) (S j) Hd Hs Hc) as H.
  rewrite E in H. cbn [fst] in H. rewrite H.
  2: { unfold read_end. replace (Z.of_nat j + 1)%Z with (Z.of_nat (S j)) by lia. fold (task_id (S j)).
       rewrite parse_task_id by lia. f_equal. lia. }
  cbn [rbind tp_events]. destruct (lookup_lt_is_Some_2 evs j Hj) as [x Hx].
  replace (S j - 1) with j by lia.
  assert (Hn : drop j (take (S j) (numbered norm 0 evs)) = [(j, norm (snd x))]).
  { unfold numbered. erewrite take_S_r by (rewrite list_lookup_imap, Hx; done).
    rewrite drop_app_ge by (rewrite length_take; lia).
    rewrite length_take, length_imap, Nat.min_l, Nat.sub_diag by lia. done. }
  rewrite Hn, Hx. cbn. unfold shown. cbn. case_decide as Hl.
  - subst line. by rewrite String.eqb_refl.
  - destruct (String.eqb_spec (task_id j) line); [by subst|done].
Qed.
Lemma normalized_id s ev : posted_msg_id (normalize_event s ev) = posted_msg_id ev.
Proof. by destruct ev. Qed.
Lemma wp_parent_msg_id R s0 k parent Q s :
  still s0 s -> (forall evs, holds_log s0 k evs -> parent_there evs parent) -> (forall s', still s0 s' -> R s') ->
  (forall id s', still s0 s' ->
     (forall evs p, holds_log s0 k evs -> p_parent p = parent -> p_reply_to p = id -> answers evs p) -> Q id s') ->
  wp R (parent_msg_id k parent) Q s.
Proof.
  intros S0 Hp HR HQ. unfold parent_msg_id. destruct parent as [line|].
  2: { apply wp_ret, HQ; [done|]. intros evs p _ E1 E2. unfold answers. by rewrite E1. }
  apply wp_bind. unfold wp.
  pose proof (still_reading k (fun norm d c => event_at norm d c line) (event_at_sound line) s) as St.
  destruct (reading _ _ s) as [[ev|f] s'] eqn:E; cbn [snd] in St; [|apply HR; by etrans]. apply HQ; [by etrans|].
  intros evs p He E1 E2. destruct (Hp evs He) as (j & Hj & Hl). unfold answers. rewrite E1. intros Hu.
  exists j. split_and!; [done..|]. rewrite E2. destruct (still_log _ _ S0 _ _ He) as [H1 H2 _ H4]. unfold reading in E.
  pose proof (event_at_clean (normalize_event s) _ _ evs line j H1 H2 H4 Hj Hl Hu) as Hev.
  destruct (event_at _ _ _ _) as [r c]. cbn in Hev. subst r. injection E as <- _.
  case_decide; [|done]. destruct (evs !! j) as [x|]; cbn; [|done]. by rewrite normalized_id.
Qed.

Lemma calm_post ch sender author msg u now :
  moves calm (post_attributed_with_event cfg rfc3339 debug ch sender author msg u now).
Proof.
  intros s. apply (wp_snd (calm s)). unfold post_attributed_with_event, check_membership. apply wp_bind.
  eapply (wp_moves still); [moving| |by intros; apply still_calm]. intros k s1 S1. apply wp_bind.
  eapply (wp_moves still); [moving| |by intros; apply still_calm; etrans]. intros in_ s2 S2.
  assert (S12 : still s s2) by (by etrans). clear s1 S1 S2. destruct (negb in_); [by apply still_calm|].
  apply wp_bind. destruct (validate_options _); [|by apply still_calm]. apply wp_ret, wp_bind.
  apply (wp_check_parent _ s); [done|intros; by apply still_calm|]. intros s3 S3 P3. apply wp_bind.
  apply (wp_parent_msg_id _ s); [done..|intros; by apply still_calm|]. intros id s4 S4 P4. apply wp_bind, wp_ask, wp_bind.
  unfold wp. pose proof (append_calm cfg s s4 k) as Ha.
  match goal with |- context [append_to cfg k ?ev LocalOrigin s4] => specialize (Ha ev LocalOrigin S4) end.
  destruct (append_to _ _ _ _ s4) as [[n|f] s5]; apply Ha; intros evs p He; cbn; intros [= <-]; by apply P4.
Qed.
#[local] Hint Resolve calm_post : moves.
Lemma calm_post_with_event ch sender msg u now : moves calm (post_with_event cfg rfc3339 debug ch sender msg u now).
Proof. unfold post_with_event. moving. Qed.
Lemma calm_creator_address c : moves calm (creator_address c).
Proof. unfold creator_address. moving. Qed.
#[local] Hint Resolve calm_creator_address : moves.
Lemma calm_owner_of m : moves calm (owner_of m).
Proof. unfold owner_of. moving. Qed.
#[local] Hint Resolve calm_owner_of : moves.
Lemma calm_group_owner ch : moves calm (group_owner ch).
Proof. unfold group_owner. moving. Qed.
Lemma calm_may_manage ch a : moves calm (may_manage_group ch a).
Proof. unfold may_manage_group. moving. Qed.
Lemma calm_add_remote ch r p : moves calm (add_remote_member cfg ch r p).
Proof. unfold add_remote_member. moving. Qed.
Lemma calm_replace_route ch d r : moves calm (replace_peer_route cfg ch d r).
Proof. unfold replace_peer_route. moving. Qed.
Lemma calm_rows_of_others {A} i (name : A -> string) rows : moves calm (rows_of_others i name rows).
Proof. induction rows; cbn [rows_of_others]; moving. Qed.
#[local] Hint Resolve calm_rows_of_others calm_add_remote : moves.
Lemma calm_append_remote ch ev : moves calm (append_remote_event cfg ch ev).
Proof. unfold append_remote_event. moving. Qed.
Lemma calm_all_events k : moves calm (all_events k).
Proof. unfold all_events. moving. Qed.
#[local] Hint Resolve calm_all_events : moves.
Lemma calm_append_synced ch evs : moves calm (append_synced_events cfg ch evs).
Proof. unfold append_synced_events. moving. Qed.
#[local] Hint Resolve calm_append_synced : moves.
Lemma calm_restore ch rows posts : moves calm (restore_dm_copy cfg ch rows posts).
Proof. unfold restore_dm_copy, conversation_kind. moving. Qed.
Lemma calm_posts_by_time ch : moves calm (posts_by_time cfg ch).
Proof. unfold posts_by_time. moving. Qed.
Lemma calm_joined_walk addr evs j : moves calm (joined_walk addr evs j).
Proof. revert j. induction evs as [|[] evs IH]; intros j; cbn [joined_walk]; moving; auto. Qed.
Lemma calm_walk names keep : (forall k ch, moves calm (keep k ch)) -> moves calm (walk names keep).
Proof. intros H. induction names as [|n names IH]; cbn [walk]; moving; auto. Qed.
Lemma calm_shared_walk keys names out : moves calm (shared_walk cfg keys names out).
Proof.
  revert out. induction names as [|n names IH]; intros out; cbn [shared_walk]; [apply moves_ret; typeclasses eauto|].
  moving; auto.
Qed.
End Reads.

#[export] Hint Resolve calm_read_events calm_read_tail calm_event_at calm_search calm_line_count calm_peek_with_ids
  calm_peek_tail calm_search_op calm_list_members calm_list_remote calm_infos calm_participants calm_attribution calm_membership
  calm_ensure_registered calm_invite calm_post calm_post_with_event calm_creator_address calm_owner_of calm_group_owner
  calm_may_manage calm_add_remote calm_replace_route calm_rows_of_others calm_append_remote calm_all_events
  calm_append_synced calm_restore calm_posts_by_time calm_joined_walk calm_shared_walk : moves.

(** ** Operations that write metadata *)

(** What stays of a channel's metadata; [adm]: its admins too. *)
Record same_channel (adm : bool) (m m' : MetaJson) : Prop := {
  sc_creator : meta_creator m' = meta_creator m;
  sc_name : meta_name m' = meta_name m;
  sc_tier : meta_tier m' = meta_tier m;
  sc_kind : meta_kind m' = meta_kind m;
  sc_created : (meta_created_at m' <= meta_created_at m)%Z;
  sc_complete : meta_history_complete m = true -> meta_history_complete m' = true;
  sc_admins : adm = true -> meta_admins m' = meta_admins m;
}.
#[export] Instance same_channel_preorder adm : PreOrder (same_channel adm).
Proof.
  split.
  - intros m. by split.
  - intros a b c [? ? ? ? ? ? H] [? ? ? ? ? ? H']. split; try congruence; try lia; auto. intros Ha. by rewrite H', H.
Qed.
Ltac same := split; cbn; solve [done | lia | congruence | auto].

Section Evolution.
Context `{J : EventJson} `{!EventJsonLaws J} (cfg : ChannelConfig) (rfc3339 : Z -> string) (lower debug : string -> string).

Record evolves (adm : bool) (s s' : Store) : Prop := {
  ev_meta n m : meta_of s (Runtime, n) = Some m ->
    exists m', meta_of s' (Runtime, n) = Some m' /\ same_channel adm m m';
  ev_new n m : meta_of s (Runtime, n) = None -> meta_of s' (Runtime, n) = Some m -> meta_tier m = Runtime;
  ev_log n evs : holds_log s (Runtime, n) evs ->
    exists more, holds_log s' (Runtime, n) (evs ++ more) /\ threads evs more;
}.
#[export] Instance evolves_preorder adm : PreOrder (evolves adm).
Proof.
  split.
  - intros s. split; [intros n m H; exists m; by split|intros n m; congruence|].
    intros n evs H. exists []. rewrite app_nil_r. by split; [|apply threads_nil].
  - intros s s' s'' [M1 N1 L1] [M2 N2 L2]. split.
    + intros n m H. destruct (M1 n m H) as (m1 & H1 & S1). destruct (M2 n m1 H1) as (m2 & H2 & S2).
      exists m2. split; [done|]. by etrans.
    + intros n m H H'. destruct (meta_of s' (Runtime, n)) as [m1|] eqn:E; [|by eapply N2].
      destruct (M2 n m1 E) as (m2 & H2 & S2). simplify_eq. rewrite (sc_tier _ _ _ S2). by eapply N1.
    + intros n evs H. destruct (L1 n evs H) as (a & Ha & Ta). destruct (L2 n _ Ha) as (b & Hb & Tb).
      exists (a ++ b). rewrite app_assoc. by split; [|apply threads_app].
Qed.
Lemma calm_evolves adm s s' : calm s s' -> evolves adm s s'.
Proof.
  intros [M L]. split; [|intros n m; rewrite M; congruence|intros n; apply L].
  intros n m H. exists m. rewrite M. by split.
Qed.
Lemma evolves_weaken adm s s' : evolves true s s' -> evolves adm s s'.
Proof.
  intros [M N L]. split; [|done..]. intros n m H. destruct (M n m H) as (m' & H' & []). exists m'. split; [done|]. by split; auto.
Qed.
Lemma moves_evolves adm {A} (c : M A) : moves calm c -> moves (evolves adm) c.
Proof. intros H s. by apply calm_evolves. Qed.

(** A write of metadata changes what its directory says and nothing else. *)
Lemma meta_save_evolves adm s k m :
  (forall m0, meta_of s k = Some m0 -> same_channel adm m0 m) ->
  (meta_of s k = None -> fst k = Runtime -> meta_tier m = Runtime) -> evolves adm s (snd (meta_save k m s)).
Proof.
  intros H HN. cbn. set (d := {| meta_file := _ |}).
  assert (E : forall k', meta_of (with_dir s k d) k' = if decide (k' = k) then Some m else meta_of s k').
  { intros k'. unfold meta_of. rewrite dir_at_with_dir. case_decide; [|done]. cbn. by rewrite meta_disk_roundtrip. }
  split.
  - intros n m0 H0. rewrite E. case_decide as Hk; [|exists m0; by split].
    exists m. split; [done|]. apply H. by rewrite <- Hk.
  - intros n m' H0. rewrite E. case_decide as Hk; [|congruence]. intros [= <-]. apply HN; by rewrite <- Hk.
  - intros n evs [H1 H2 H3 H4]. exists []. rewrite app_nil_r. split; [|apply threads_nil].
    assert (El : log (dir_at (with_dir s k d) (Runtime, n)) = log (dir_at s (Runtime, n))).
    { rewrite dir_at_with_dir. case_decide as Ek; [by rewrite Ek|done]. }
    split; rewrite El; done.
Qed.

(** Facts carried along a run that started in [s0]. *)
Lemma wp_meta_save adm s0 k m Q s :
  evolves adm s0 s -> (forall m0, meta_of s k = Some m0 -> same_channel adm m0 m) ->
  (meta_of s k = None -> fst k = Runtime -> meta_tier m = Runtime) ->
  (forall s', evolves adm s0 s' -> Q tt s') -> wp (evolves adm s0) (meta_save k m) Q s.
Proof. intros E H HN HQ. unfold wp. cbn. apply HQ. etrans; [exact E|]. by apply (meta_save_evolves adm s k m). Qed.
Lemma wp_calm adm s0 {A} (c : M A) Q s :
  evolves adm s0 s -> moves calm c ->
  (forall x s', evolves adm s0 s' -> calm s s' -> Q x s') -> wp (evolves adm s0) c Q s.
Proof.
  intros E Hc HQ. eapply wp_moves; [exact Hc| |]; intros; [apply HQ; [|done]|];
    (etrans; [exact E|by apply calm_evolves]).
Qed.
Lemma wp_sub adm s0 {A} (c : M A) Q s :
  evolves adm s0 s -> moves (evolves adm) c ->
  (forall x s', evolves adm s0 s' -> Q x s') -> wp (evolves adm s0) c Q s.
Proof. intros E Hc HQ. eapply wp_moves; [exact Hc| |]; intros; [apply HQ|]; by etrans. Qed.
Lemma wp_evolves adm {A} (c : M A) :
  (forall s, wp (evolves adm s) c (fun _ s' => evolves adm s s') s) -> moves (evolves adm) c.
Proof. intros H s. specialize (H s). unfold wp in H. by destruct (c s) as [[x|e] s']. Qed.

(** The metadata last read is still there. *)
Lemma meta_kept s s' k o : calm s s' -> meta_of s k = o -> meta_of s' k = o.
Proof. intros [M _] H. by rewrite M. Qed.
End Evolution.

Ltac wp_step :=
  lazymatch goal with
  | |- wp _ (mbind _ _) _ _ => apply wp_bind
  | |- wp _ (mret _) _ _ => apply wp_ret
  | |- wp _ (failure _) _ _ => apply wp_failure
  | |- wp _ (adapter _) _ _ => apply wp_adapter
  | |- wp _ (ask _) _ _ => apply wp_ask
  | |- wp _ (try_ _) _ _ => apply wp_try; [intros ? ?|]
  | |- wp _ (meta_load _ _) _ _ => apply wp_meta_load; [intros ? ?|]
  | |- wp _ (if decide _ then _ else _) _ _ => case_decide
  | |- wp _ (if ?b then _ else _) _ _ => destruct b eqn:?
  | |- wp _ (match ?x with _ => _ end) _ _ => destruct x eqn:?
  | |- wp _ (meta_save _ _) _ _ => eapply wp_meta_save; [eassumption| | |intros ? ?]
  | |- wp _ _ _ _ =>
      first [ eapply wp_calm; [eassumption|solve [eauto 3 with moves typeclass_instances]|intros ? ? ? ?]
            | eapply wp_sub; [eassumption|solve [eauto 3 with moves typeclass_instances]|intros ? ? ?] ]
  end; cbv beta zeta.

(** The metadata written is the metadata read, changed in one place. *)
Ltac settle :=
  intros;
  repeat match goal with
  | H : calm ?s ?s', Hm : meta_of ?s' _ = _ |- _ => rewrite (calm_meta _ _ H) in Hm
  end;
  simplify_eq; first [same | done].

Section Writers.
Context `{J : EventJson} `{!EventJsonLaws J} (cfg : ChannelConfig) (rfc3339 : Z -> string) (lower debug : string -> string).

Ltac evolving := apply wp_evolves; intros s; assert (evolves true s s) by reflexivity; repeat wp_step; try done.

Lemma leave_evolves ch a now : moves (evolves true) (leave_actor cfg rfc3339 ch a now).
Proof. unfold leave_actor. evolving; settle. Qed.
Lemma bind_evolves ch p session : moves (evolves true) (bind cfg ch p session).
Proof. unfold bind. evolving; settle. Qed.
Lemma edit_binding_evolves ch p check edit : moves (evolves true) (edit_binding cfg ch p check edit).
Proof. unfold edit_binding. evolving; settle. Qed.
Lemma edit_group_evolves adm ch edit :
  (forall m, same_channel adm m (edit m)) -> moves (evolves adm) (edit_group ch edit).
Proof.
  intros He. apply wp_evolves. intros s. unfold edit_group. assert (evolves adm s s) by reflexivity.
  repeat wp_step; try done; intros; simplify_eq. apply He.
Qed.
Lemma update_hub_evolves ch edit : moves (evolves true) (update_hub_group ch edit).
Proof. unfold update_hub_group. evolving; settle. Qed.
Lemma adopt_evolves ch t : moves (evolves true) (adopt_created_at ch t).
Proof. unfold adopt_created_at. evolving; intros; simplify_eq. apply Z.leb_gt in Heqb. same. Qed.
Lemma mark_complete_evolves ch : moves (evolves true) (mark_history_complete cfg ch).
Proof. unfold mark_history_complete. evolving; settle. Qed.

(** A directory that is not there has no metadata. *)
Lemma no_dir_no_meta s k : dirs s !! k = None -> meta_of s k = None.
Proof. intros H. unfold meta_of, dir_at. by rewrite H. Qed.
Lemma no_file_no_meta s k : meta_exists s k = false -> meta_of s k = None.
Proof. unfold meta_exists, meta_of. by destruct (meta_file _). Qed.

Lemma create_evolves p opts minted u now : moves (evolves true) (create cfg rfc3339 p opts minted u now).
Proof.
  unfold create. evolving; (destruct (dirs s' !! _) eqn:E; [done|]); apply no_dir_no_meta in E; [settle|].
  intros _. cbn. destruct (o_tier opts); [done|]. unfold channel_dir_for in *. destruct (shared_dir cfg); by simplify_eq.
Qed.
Lemma human_dm_evolves h p ch name account now : moves (evolves true) (ensure_human_dm cfg rfc3339 h p ch name account now).
Proof. unfold ensure_human_dm. evolving; try (apply no_file_no_meta in Heqb0); settle. Qed.
Lemma join_remote_evolves ch creator name roster me src kind binding now :
  moves (evolves true) (join_remote cfg rfc3339 ch creator name roster me src kind binding now).
Proof. unfold join_remote. evolving; try (apply no_file_no_meta in Heqb0); settle. Qed.
Lemma join_person_evolves ch name creator roster account home now :
  moves (evolves true) (join_remote_person cfg rfc3339 ch name creator roster account home now).
Proof. unfold join_remote_person. evolving; try (apply no_file_no_meta in Heqb); settle. Qed.

Lemma ensure_dm_evolves sha p peer binding u now : moves (evolves true) (ensure_dm cfg rfc3339 sha p peer binding u now).
Proof.
  pose proof create_evolves. unfold ensure_dm. evolving; settle.
Qed.
Lemma write_admin_evolves ch a adm : moves (evolves false) (write_group_admin cfg ch a adm).
Proof.
  unfold write_group_admin. apply wp_evolves. intros s. assert (evolves false s s) by reflexivity.
  repeat (lazymatch goal with |- wp _ (edit_group _ _) _ _ => fail | _ => wp_step end); try done.
  eapply wp_sub; [eassumption|apply edit_group_evolves; intros; same|done].
Qed.
Lemma pin_evolves ch : moves (evolves true) (pin_to_shared cfg ch).
Proof.
  intros s. unfold pin_to_shared. apply (wp_snd (evolves true s)).
  apply wp_bind, wp_try; [|reflexivity]. intros x Hx. apply wp_bind, wp_meta_load; [|reflexivity]. intros _ _.
  apply wp_bind. unfold wp, copy_data. cbv zeta. set (d := {| meta_file := _ |}).
  destruct x as [t n0]. assert (Ht : t = Shared).
  { unfold channel_dir_for in *. destruct (shared_dir cfg); by simplify_eq. }
  subst t. cbn. assert (E : forall n, dir_at (with_dir s (Shared, n0) d) (Runtime, n) = dir_at s (Runtime, n)).
  { intros n. by rewrite dir_at_with_dir, decide_False. }
  split.
  - intros n m1 Hm. exists m1. split; [|reflexivity]. unfold meta_of in *. by rewrite E.
  - intros n m1 Hm. unfold meta_of in *. rewrite E. congruence.
  - intros n evs [H1 H2 H3 H4]. exists []. rewrite app_nil_r. split; [|apply threads_nil]. split; by rewrite E.
Qed.
End Writers.

(** ** The store as a machine *)

(** The calls that act on the store, with what they draw from outside, except
    the two that take directories away: [purge_remote_dms], which [HostOp]
    below adds, and [rekey_local_user_dms] with its [move_dm], which is not
    modelled. *)
Inductive StoreOp :=
  | ORegistry (op : RegOp)
  | ORestart
  | OCreate (creator : string) (opts : CreateOpts) (minted : ChannelId) (uuid : string) (now : Z)
  | OInvite (channel : ChannelId) (inviter : string) (invitee : ActorRef) (uuid : string) (now : Z)
  | OLeave (channel : ChannelId) (actor : ActorRef) (now : Z)
  | OPost (channel : ChannelId) (sender : ActorRef) (author : string) (msg : PostMsg) (uuid : string) (now : Z)
  | OBind (channel : ChannelId) (principal session : string)
  | OSetWake (channel : ChannelId) (principal : string) (wake : WakePolicy)
  | OSetRole (channel : ChannelId) (principal : string) (role : option string)
  | OSetHome (channel : ChannelId) (home : GroupHome)
  | OSetHistory (channel : ChannelId) (by_ : string) (v : HistoryVisibility)
  | OSetAdmin (channel : ChannelId) (by_ : string) (actor : ActorRef) (admin : bool)
  | OHubGroup (channel : ChannelId) (edit : option HubGroup -> HubGroup)
  | OAdoptCreatedAt (channel : ChannelId) (at_ : Z)
  | OMarkComplete (channel : ChannelId)
  | OEnsureDm (principal : string) (peer : ActorRef) (binding : string) (uuid : nat -> string) (now : Z)
  | OHumanDm (human peer : ActorRef) (channel : ChannelId) (name account : string) (now : Z)
  | OAddRemote (channel : ChannelId) (runtime_id principal_id : string)
  | OReplaceRoute (channel : ChannelId) (did runtime : string)
  | OAppendRemote (channel : ChannelId) (ev : ChannelEvent)
  | OJoinRemote (channel : ChannelId) (creator name : string) (roster : list InitialMember)
      (self_principal source : string) (kind : ConversationKind) (binding : option string) (now : Z)
  | OJoinPerson (channel : ChannelId) (name creator : string) (roster : list InitialMember) (account home : string) (now : Z)
  | OSynced (channel : ChannelId) (events : list ChannelEvent)
  | ORestore (channel : ChannelId) (remote : list RemoteMember) (posts : list ChannelEvent)
  | OPin (channel : ChannelId)
  | OPeek (channel : ChannelId) (since : TaskId)
  | OTail (channel : ChannelId) (limit : nat) (before : option TaskId)
  | OSearch (channel : ChannelId) (query : ChannelQuery)
  | OParticipants (channel : ChannelId)
  | OMembership (channel : ChannelId).

Section Machine.
Context `{J : EventJson} `{!EventJsonLaws J} (cfg : ChannelConfig) (rfc3339 : Z -> string)
  (lower debug sha256 : string -> string).

Definition done_ {A} (c : M A) : M unit := _ ← c; mret ().
Definition restart : M unit := fun s => (Ok (), {| registry := registry s; dirs := dirs s; counts := ∅ |}).
Definition store_step (op : StoreOp) : M unit :=
  match op with
  | ORegistry op => fun s => (Ok (), with_registry s (reg_after (registry s) op))
  | ORestart => restart
  | OCreate creator opts minted uuid now => done_ (create cfg rfc3339 creator opts minted uuid now)
  | OInvite channel inviter invitee uuid now => invite cfg rfc3339 channel inviter invitee uuid now
  | OLeave channel actor now => leave_actor cfg rfc3339 channel actor now
  | OPost channel sender author msg uuid now =>
      done_ (post_attributed_with_event cfg rfc3339 debug channel sender author msg uuid now)
  | OBind channel principal session => done_ (bind cfg channel principal session)
  | OSetWake channel principal wake => done_ (set_wake cfg channel principal wake)
  | OSetRole channel principal role => done_ (set_role cfg channel principal role)
  | OSetHome channel home => set_group_home channel home
  | OSetHistory channel by_ v => set_group_history channel by_ v
  | OSetAdmin channel by_ actor admin => set_group_admin cfg channel by_ actor admin
  | OHubGroup channel edit => done_ (update_hub_group channel edit)
  | OAdoptCreatedAt channel at_ => done_ (adopt_created_at channel at_)
  | OMarkComplete channel => mark_history_complete cfg channel
  | OEnsureDm principal peer binding uuid now => done_ (ensure_dm cfg rfc3339 sha256 principal peer binding uuid now)
  | OHumanDm human peer channel name account now => done_ (ensure_human_dm cfg rfc3339 human peer channel name account now)
  | OAddRemote channel runtime_id principal_id => add_remote_member cfg channel runtime_id principal_id
  | OReplaceRoute channel did runtime => done_ (replace_peer_route cfg channel did runtime)
  | OAppendRemote channel ev => done_ (append_remote_event cfg channel ev)
  | OJoinRemote channel creator name roster me source kind binding now =>
      join_remote cfg rfc3339 channel creator name roster me source kind binding now
  | OJoinPerson channel name creator roster account home now =>
      done_ (join_remote_person cfg rfc3339 channel name creator roster account home now)
  | OSynced channel events => done_ (append_synced_events cfg channel events)
  | ORestore channel remote posts => done_ (restore_dm_copy cfg channel remote posts)
  | OPin channel => done_ (pin_to_shared cfg channel)
  | OPeek channel since => done_ (peek_with_ids cfg channel since)
  | OTail channel limit before => done_ (peek_tail cfg channel limit before)
  | OSearch channel query => done_ (search cfg lower channel query)
  | OParticipants channel => done_ (participants cfg channel)
  | OMembership channel => done_ (membership cfg rfc3339 channel)
  end.
Definition store_after (s : Store) (op : StoreOp) : Store := snd (store_step op s).
Definition store_run : Store -> list StoreOp -> Store := foldl store_after.
(** A runtime's first start, with the actors it has. *)
Definition new_store (g : Registry) : Store := {| registry := g; dirs := ∅; counts := ∅ |}.

(** *** Every step *)

Lemma done_moves (R : Store -> Store -> Prop) `{!PreOrder R} {A} (c : M A) : moves R c -> moves R (done_ c).
Proof. intros H. unfold done_. by moving. Qed.
Lemma restart_still : moves still restart.
Proof.
  intros s. split; [done|]. intros k evs [H1 H2 H3 H4]. by split.
Qed.
Lemma set_group_history_evolves ch by_ v : moves (evolves true) (set_group_history ch by_ v).
Proof.
  unfold set_group_history, set_history_visibility.
  assert (moves (evolves true) (edit_group ch (fun m => set_history m (Some v)))) by (apply edit_group_evolves; intros; same).
  apply wp_evolves. intros s. assert (evolves true s s) by reflexivity. repeat wp_step; done.
Qed.
Lemma set_group_home_evolves ch h : moves (evolves true) (set_group_home ch h).
Proof. apply edit_group_evolves. intros. same. Qed.

(** The call that may change who a group's admins are. *)
Definition names_admin (op : StoreOp) : bool := match op with OSetAdmin _ _ _ _ => true | _ => false end.

#[local] Hint Resolve create_evolves leave_evolves bind_evolves edit_binding_evolves update_hub_evolves adopt_evolves
  mark_complete_evolves ensure_dm_evolves human_dm_evolves join_remote_evolves join_person_evolves pin_evolves
  set_group_history_evolves set_group_home_evolves : evolves.
Lemma step_evolves op : names_admin op = false -> moves (evolves true) (store_step op).
Proof.
  intros Hop. destruct op; try done; cbn [store_step]; unfold set_wake, set_role;
    try (apply done_moves; [typeclasses eauto|]);
    first [ solve [eauto 2 with evolves] | apply moves_evolves; solve [eauto 3 with moves] | idtac ].
  - intros s. apply calm_evolves, calm_registry.
  - intros s. by apply calm_evolves, still_calm, restart_still.
Qed.

(** Metadata written in one directory only. *)
Definition only (k : DirKey) (s s' : Store) : Prop := forall k', k' <> k -> meta_of s' k' = meta_of s k'.
#[local] Instance only_preorder k : PreOrder (only k).
Proof. split; [by intros s k' H|]. intros s s' s'' H1 H2 k' H. by rewrite H2, H1. Qed.
Lemma calm_only k {A} (c : M A) : moves calm c -> moves (only k) c.
Proof. intros H s k' _. apply calm_meta, H. Qed.
Lemma edit_group_only ch edit : moves (only (channel_dir ch)) (edit_group ch edit).
Proof.
  unfold edit_group. moving. intros s k' Hk. unfold meta_of. cbn. by rewrite dir_at_with_dir, decide_False.
Qed.

Lemma only_then k s s1 {A} (c : M A) : only k s s1 -> moves (only k) c -> only k s (snd (c s1)).
Proof. intros H Hc k' Hk. by rewrite (Hc s1 k' Hk), H. Qed.
Lemma set_admin_step ch by_ a adm s :
  let s' := snd (set_group_admin cfg ch by_ a adm s) in
  evolves true s s' \/
  (only (channel_dir ch) s s' /\ evolves false s s' /\ exists owner i, fst (group_owner ch s) = Ok owner /\
     fst (info_of (principal_ref by_) (snd (group_owner ch s))) = Ok i /\ address i = owner).
Proof.
  cbn zeta. destruct (set_group_admin cfg ch by_ a adm s) as [r s'] eqn:E. cbn [snd].
  unfold set_group_admin, mbind, M_bind in E. pose proof (calm_group_owner ch s) as C1.
  destruct (group_owner ch s) as [[owner|f] s1]; cbn [fst snd] in *; [|left; simplify_eq; by apply calm_evolves].
  pose proof (calm_info (principal_ref by_) s1) as C2.
  destruct (info_of _ s1) as [[i|f] s2] eqn:Ei; cbn [fst snd] in *;
    assert (C : calm s s2) by (by etrans); [|left; simplify_eq; by apply calm_evolves].
  destruct (String.eqb_spec (address i) owner) as [Ho|Ho]; cbn [negb] in E.
  2: { left. injection E as <- <-. by apply calm_evolves. }
  right. replace s' with (snd (write_group_admin cfg ch a adm s2)) by (by rewrite E). split_and!; [| |by exists owner, i].
  - assert (O : only (channel_dir ch) s s2) by (intros k' _; apply (calm_meta _ _ C)).
    apply (only_then _ _ s2 (write_group_admin cfg ch a adm) O). unfold write_group_admin.
    apply (moves_bind (only (channel_dir ch))); [apply calm_only, calm_info|]. intros j.
    apply (moves_bind (only (channel_dir ch))); [apply calm_only; eauto with moves|]. intros ms.
    apply (moves_bind (only (channel_dir ch))); [apply calm_only; eauto with moves|]. intros is_.
    apply moves_if; [by apply moves_adapter; typeclasses eauto|apply edit_group_only].
  - etrans; [apply calm_evolves; exact C|apply write_admin_evolves].
Qed.
Lemma step_evolves_any op : moves (evolves false) (store_step op).
Proof.
  destruct (names_admin op) eqn:E.
  - destruct op; try done. intros s. destruct (set_admin_step channel by_ actor admin s) as [H|(_ & H & _)]; [|done].
    by apply evolves_weaken.
  - intros s. by apply evolves_weaken, step_evolves.
Qed.
Lemma run_evolves s ops : evolves false s (store_run s ops).
Proof.
  revert s. induction ops as [|op ops IH]; intros s; cbn; [reflexivity|]. etrans; [apply step_evolves_any|apply IH].
Qed.
(** *** With the copies of another account purged *)

Inductive HostOp := HStore (op : StoreOp) | HPurge (keep : option string).
Definition host_step (op : HostOp) : M unit :=
  match op with
  | HStore op => store_step op
  | HPurge keep => done_ (purge_remote_dms keep)
  end.
Definition host_run : Store -> list HostOp -> Store := foldl (fun s op => snd (host_step op s)).

(** The purge for [keep] takes the directory away. *)
Definition theirs_at (keep : option string) (s : Store) (k : DirKey) : Prop :=
  exists m ms, meta_of s k = Some m /\ fst (caught (members_load k) s) = Ok ms /\ is_theirs keep m ms = true.
(** Directories are as they were, unless the purge takes them. *)
Definition spared (keep : option string) (s s' : Store) : Prop :=
  forall k, (dir_at s' k = dir_at s k /\ counts_at s' k = counts_at s k) \/ theirs_at keep s k.
Lemma theirs_at_dir keep s s' k : dir_at s' k = dir_at s k -> theirs_at keep s' k -> theirs_at keep s k.
Proof.
  intros E (m & ms & Hm & Hms & Ht). exists m, ms. unfold meta_of in *. rewrite <- E. split_and!; try done.
  rewrite <- Hms. unfold caught, members_load, mbind, M_bind, ask. rewrite E. by destruct (members_file _).
Qed.
#[local] Instance spared_preorder keep : PreOrder (spared keep).
Proof.
  split; [by left|]. intros s s1 s2 H1 H2 k. destruct (H1 k) as [[D1 C1]|]; [|by right].
  destruct (H2 k) as [[D2 C2]|Ht]; [left; by rewrite D2, C2|]. right. by eapply theirs_at_dir.
Qed.
Lemma walk_spared keep names f : (forall k ch, moves (spared keep) (f k ch)) -> moves (spared keep) (walk names f).
Proof.
  intros Hf. induction names as [|name names IH]; cbn [walk]; [by apply moves_ret, _|].
  destruct (named_channel name) as [ch|]; [|done].
  apply moves_bind; [apply _|done|]. intros yes. apply moves_bind; [apply _|done|]. intros rest. by apply moves_ret, _.
Qed.
Lemma purge_one_spared keep k ch :
  moves (spared keep) (with_meta k ch (fun meta =>
    m ← caught (members_load k); if is_theirs keep meta m then _ ← remove_dir k; mret true else mret false)).
Proof.
  intros s. unfold with_meta, mbind, M_bind. assert (Hr : spared keep s s) by reflexivity.
  unfold caught at 1, meta_load, mbind, M_bind, ask. destruct (meta_file (dir_at s k)) as [|why|raw] eqn:Em; [done..|].
  cbn. destruct (caught (members_load k) s) as [[ms|[]] s1] eqn:Ec;
    assert (s1 = s) as -> by (revert Ec; unfold caught, members_load, mbind, M_bind, ask; destruct (members_file _); by intros [= <- <-]);
    [|done..].
  destruct (is_theirs keep _ ms) eqn:Et; [|done]. cbn. intros k'. destruct (decide (k' = k)) as [->|Hk].
  - right. exists (meta_from_disk raw), ms. unfold meta_of. by rewrite Em, Ec.
  - left. unfold dir_at, counts_at. cbn. by rewrite lookup_delete_ne.
Qed.
Lemma purge_spared keep : moves (spared keep) (purge_remote_dms keep).
Proof.
  unfold purge_remote_dms. apply moves_bind; [apply _|by apply moves_ask, _|].
  intros names. apply walk_spared. intros k ch. apply purge_one_spared.
Qed.

(** A channel no purge takes is as the store's calls leave it. *)
Lemma host_keeps s ops n m evs :
  meta_of s (Runtime, n) = Some m -> holds_log s (Runtime, n) evs ->
  (forall pre keep post, ops = pre ++ HPurge keep :: post -> ~ theirs_at keep (host_run s pre) (Runtime, n)) ->
  exists more m', meta_of (host_run s ops) (Runtime, n) = Some m' /\ same_channel false m m'
    /\ holds_log (host_run s ops) (Runtime, n) (evs ++ more).
Proof.
  revert s m evs. induction ops as [|op ops IH]; intros s m evs Hm Hl Hno.
  { exists [], m. rewrite app_nil_r. by split_and!. }
  cbn [host_run foldl]. fold (host_run (snd (host_step op s)) ops).
  assert (Hrest : forall pre keep post, ops = pre ++ HPurge keep :: post ->
            ~ theirs_at keep (host_run (snd (host_step op s)) pre) (Runtime, n)).
  { intros pre keep post ->. apply (Hno (op :: pre) keep post). done. }
  assert (Hop : exists more m1, meta_of (snd (host_step op s)) (Runtime, n) = Some m1 /\ same_channel false m m1
                  /\ holds_log (snd (host_step op s)) (Runtime, n) (evs ++ more)).
  { destruct op as [op|keep]; cbn [host_step].
    - destruct (step_evolves_any op s) as [M _ Lg].
      destruct (M _ _ Hm) as (m1 & ? & ?). destruct (Lg _ _ Hl) as (more & ? & _). by exists more, m1.
    - pose proof (Hno [] keep ops eq_refl) as Hk. cbn in Hk.
      destruct (done_moves (spared keep) _ (purge_spared keep) s (Runtime, n)) as [[Hd Hc]|]; [|done].
      exists [], m. rewrite app_nil_r. unfold meta_of in *. rewrite Hd. split_and!; try done.
      destruct Hl as [H1 H2 H3 H4]. split; rewrite ?Hd, ?Hc; done. }
  destruct Hop as (more & m1 & Hm1 & S1 & Hl1). destruct (IH _ _ _ Hm1 Hl1 Hrest) as (more' & m' & Hm' & S' & Hl').
  exists (more ++ more'), m'. rewrite app_assoc. split_and!; try done. by etrans.
Qed.

Lemma new_store_holds g k : holds_log (new_store g) k [].
Proof. split; try done. constructor. Qed.

(** Reading a channel whose log is well formed. *)
Lemma peek_holds s ch m evs :
  meta_of s (channel_dir ch) = Some m -> meta_tier m = Runtime -> holds_log s (channel_dir ch) evs ->
  fst (peek_with_ids cfg ch "" s) = Ok (map shown (numbered (normalize_event s) 0 evs)).
Proof.
  intros Hm Ht [H1 H2 _ H4]. unfold peek_with_ids. erewrite bind_at by (by eapply resolve_at). unfold reading.
  pose proof (read_all_clean (normalize_event s) _ _ evs H1 H2 H4) as Hr.
  destruct (read_events _ _ _ _) as [r c]. cbn in *. by subst r.
Qed.
End Machine.

(** ** Properties *)


(** C7. On a store grown from nothing every channel under the runtime's root reads
    without error, and each reply this runtime wrote answers an earlier line
    of the same channel, whose post it names by its id. *)
Theorem reachable_channels_read (J : EventJson) (cfg : ChannelConfig) (rfc3339 : Z -> string) (lower debug sha256 : string -> string)
    (g : Registry) (ops : list StoreOp) (ch : ChannelId) (m : MetaJson) :
  EventJsonLaws J ->
  let s := store_run cfg rfc3339 lower debug sha256 (new_store g) ops in
  meta_of s (channel_dir ch) = Some m ->
  exists evs, fst (peek_with_ids cfg ch "" s) = Ok (map shown (numbered (normalize_event s) 0 evs)) /\
    forall i p, evs !! i = Some (LocalOrigin, Posted p) -> answers (take i evs) p.
Proof.
  intros L. cbn zeta. intros Hm. pose proof (run_evolves cfg rfc3339 lower debug sha256 (new_store g) ops) as [_ N Lg].
  destruct (Lg (channel_dir_name ch) [] (new_store_holds g _)) as (evs & Hl & Ht). exists evs. split; [|done].
  eapply peek_holds; [done| |done]. by eapply N.
Qed.

(** C32. A group's admins change only when the group's owner says so: the step that
    changed them is [set_group_admin] on that group, by a principal whose
    address is the owner's. *)
Theorem admins_are_the_owners_choice (J : EventJson) (cfg : ChannelConfig) (rfc3339 : Z -> string)
    (lower debug sha256 : string -> string) (s : Store) (op : StoreOp) (ch : ChannelId) (m m' : MetaJson) :
  EventJsonLaws J ->
  meta_of s (channel_dir ch) = Some m ->
  meta_of (store_after cfg rfc3339 lower debug sha256 s op) (channel_dir ch) = Some m' ->
  meta_admins m' <> meta_admins m ->
  exists group by_ actor admin owner i,
    op = OSetAdmin group by_ actor admin /\ channel_dir group = channel_dir ch /\
    fst (group_owner group s) = Ok owner /\
    fst (info_of (principal_ref by_) (snd (group_owner group s))) = Ok i /\ address i = owner.
Proof.
  intros L Hm Hm' Hne. unfold store_after in Hm'.
  assert (Hno : evolves true s (snd (store_step cfg rfc3339 lower debug sha256 op s)) -> False).
  { intros [M _ _]. destruct (M _ _ Hm) as (m1 & H1 & S1). assert (m1 = m') as -> by (unfold channel_dir in *; congruence).
    by apply Hne, (sc_admins _ _ _ S1). }
  destruct (names_admin op) eqn:E; [|destruct (Hno (step_evolves _ _ _ _ _ _ E s))].
  destruct op; try done. cbn [store_step] in *.
  destruct (set_admin_step cfg channel by_ actor admin s) as [H|(Ho & _ & owner & i & H1 & H2 & H3)]; [done|].
  exists channel, by_, actor, admin, owner, i. split_and!; try done.
  destruct (decide (channel_dir channel = channel_dir ch)) as [|Hk]; [done|].
  exfalso. apply Hne. rewrite Ho in Hm' by congruence. congruence.
Qed.
