(* ===== verification/ChannelRoster.v ===== *)
(** * ChannelRoster: who is in a channel, and what posting does

    The exact effect of the channel store's operations (peko-rs/channel/src/store.rs)
    on a channel whose log is well formed: posting, inviting and leaving,
    taking a peer's departure, joining a copy twice, paging and backfilling its
    history. *)

From Stdlib Require Import ZArith Lia Ascii Sorting.Sorted.
From stdpp Require Import base tactics list gmap strings.
From S2P Require Import Prelude Text Subject ChannelWire Actors ChannelLog ChannelStore ChannelCopies ChannelHistory.

Local Open Scope nat_scope.

(** ** A store to try things on *)

Module Team.
Import BinaryEvents.

Definition cfg : ChannelConfig := {| shared_dir := true; rotate_bytes := 4000 |}.
Definition clock (t : Z) : string := "t" +:+ dec t.
Definition quoted (s : string) : string := s.
Definition digest (s : string) : string := s.
Definition team : ChannelId := "chan_0000team".
Definition run (ops : list StoreOp) : Store := store_run cfg clock id quoted digest (new_store (written [])) ops.
Definition by_alice : list StoreOp := [OCreate "alice" (opts_runtime "team") team "u1" 1].
Definition with_bob : list StoreOp := by_alice ++ [OInvite team "alice" (principal_ref "bob") "u2" 2].
End Team.

(** ** Reads that leave everything as it was *)

(** The members a directory's file names. *)
Definition members_at (s : Store) (k : DirKey) : option MembersJson :=
  match members_file (dir_at s k) with Holds m => Some m | Absent => Some no_members | Garbled _ => None end.
Lemma members_load_at s k m : members_at s k = Some m -> members_load k s = (Ok m, s).
Proof.
  unfold members_at, members_load, mbind, M_bind, ask. destruct (members_file _); intros H; by simplify_eq.
Qed.

Section Exact.
Context `{J : EventJson} `{!EventJsonLaws J} (cfg : ChannelConfig) (rfc3339 : Z -> string) (debug : string -> string).

Record quiet (s s' : Store) : Prop := {
  q_registry : registry s' = registry s;
  q_dirs : dirs s' = dirs s;
  q_log k evs : holds_log s k evs -> holds_log s' k evs;
}.
#[export] Instance quiet_preorder : PreOrder quiet.
Proof. split; [by split|]. intros a b c [? ? ?] [? ? ?]. split; [congruence..|auto]. Qed.

Lemma reading_quiet {A} k (f : (ChannelEvent -> ChannelEvent) -> LogDir -> LineCounts -> result A ChannelError * LineCounts) s :
  (forall norm d c, dir_ok d -> sound d c -> sound d (snd (f norm d c))) -> quiet s (snd (reading k f s)).
Proof.
  intros Hf. pose proof (still_reading k f Hf s) as [_ Hl]. unfold reading in *. destruct (f _ _ _) as [r c]. by split.
Qed.

Lemma check_parent_at s k evs parent : holds_log s k evs ->
  quiet s (snd (check_parent k parent s)) /\
  match fst (check_parent k parent s) with
  | Ok _ => parent_there evs parent
  | Err e => ~ parent_there evs parent
  end.
Proof.
  intros He. unfold check_parent. destruct parent as [line|]; [|by split; [reflexivity|]].
  destruct (parse_usize line) as [index|] eqn:Hp.
  2: { split; [reflexivity|]. cbn. intros (j & Hj & _). congruence. }
  set (f := fun (_ : ChannelEvent -> ChannelEvent) d c => let '(n, c) := global_line_count d c in (Ok n : result nat ChannelError, c)).
  pose proof (reading_quiet k f s) as Hq. unfold mbind, M_bind. pose proof (line_count_clean s k evs He) as Hn.
  assert (Hr : fst (reading k f s) = Ok (length evs)).
  { unfold reading, f. destruct (global_line_count _ _) as [n c]. cbn in *. by subst. }
  destruct (reading k f s) as [r s']. cbn in Hr, Hq. subst r.
  assert (Hs : quiet s s').
  { apply Hq. intros norm d c Hd Hs. pose proof (line_count_sound d c Hd Hs). unfold f. by destruct (global_line_count d c). }
  destruct (Z.leb_spec (Z.of_nat (length evs)) index) as [Hi|Hi]; (split; [done|]); cbn.
  - intros (j & Hj & Hl). rewrite Hp in Hj. injection Hj as ->. lia.
  - apply parse_usize_range in Hp as Hr. exists (Z.to_nat index). split; [|lia]. rewrite Hp. f_equal. lia.
Qed.

Lemma parent_msg_id_at s k evs parent : holds_log s k evs -> parent_there evs parent ->
  (Z.of_nat (length evs) <= u64_max)%Z ->
  exists id, fst (parent_msg_id k parent s) = Ok id /\ quiet s (snd (parent_msg_id k parent s)) /\
    forall p, p_parent p = parent -> p_reply_to p = id -> answers evs p.
Proof.
  intros He Hp Hu. unfold parent_msg_id. destruct parent as [line|].
  2: { exists None. split_and!; [done|reflexivity|]. intros p E1 E2. unfold answers. by rewrite E1. }
  destruct Hp as (j & Hj & Hl). pose proof (reading_quiet k (fun norm d c => event_at norm d c line) s (event_at_sound line)) as Hq.
  pose proof He as [H1 H2 _ H4]. pose proof (event_at_clean (normalize_event s) _ _ evs line j H1 H2 H4 Hj Hl Hu) as Hev.
  unfold mbind, M_bind, reading in *. destruct (event_at _ _ _ _) as [r c]. cbn in Hev, Hq. subst r. cbn.
  eexists. split_and!; [done|done|]. intros p E1 E2. unfold answers. rewrite E1. intros _. exists j. split_and!; [done..|].
  rewrite E2. case_decide; [|done]. destruct (evs !! j) as [x|]; cbn; [|done]. by rewrite normalized_id.
Qed.

(** What a post of [msg] writes, given the id it answers. *)
Definition post_of (s : Store) (ch : ChannelId) (author : string) (msg : PostMsg) (uuid : string) (now : Z)
    (options : list string) (reply_to : option string) : Post :=
  {| p_channel := ch; p_author := address_in s author; p_parent := m_parent msg; p_text := m_text msg;
     p_at := rfc3339 now; p_via := m_via msg; p_msg_id := Some (default (new_msg_id uuid) (m_msg_id msg));
     p_reply_to := reply_to; p_attachments := m_attachments msg; p_options := options; p_model := m_model msg |}.

(** A call that ended, and what it left. *)
Lemma post_at s ch m ms evs sender author msg uuid now :
  meta_of s (channel_dir ch) = Some m -> meta_tier m = Runtime -> members_at s (channel_dir ch) = Some ms ->
  holds_log s (channel_dir ch) evs -> (Z.of_nat (length evs) <= u64_max)%Z ->
  let k := channel_dir ch in
  let x := post_attributed_with_event cfg rfc3339 debug ch sender author msg uuid now s in
  (exists s1 options reply_to, quiet s s1 /\
     has_member s ms sender = true /\ validate_options (m_options msg) = Ok options /\ parent_there evs (m_parent msg) /\
     let p := post_of s ch author msg uuid now options reply_to in
     answers evs p /\ fst x = Ok (task_id (length evs), Posted p) /\
     snd x = snd (append_to cfg k (Posted p) LocalOrigin s1)) \/
  (quiet s (snd x) /\ (exists e, fst x = Err e) /\
   (has_member s ms sender = false \/ (exists e, validate_options (m_options msg) = Err e) \/
    ~ parent_there evs (m_parent msg))).
Proof.
  intros Hm Ht Hms He Hu. cbn zeta. unfold post_attributed_with_event, check_membership.
  erewrite bind_at by (by eapply resolve_at). erewrite bind_at by (by erewrite bind_at by (by apply members_load_at)).
  destruct (has_member s ms sender) eqn:Hin; cbn [negb]; [|right; split_and!; [reflexivity|by eexists|auto]].
  destruct (validate_options (m_options msg)) as [options|e]; [|right; split_and!; [reflexivity|by eexists|eauto]].
  erewrite bind_at by done. destruct (check_parent_at s _ evs (m_parent msg) He) as [Q1 P1].
  destruct (check_parent _ _ s) as [[[]|e] s1] eqn:E1; cbn [fst snd] in Q1, P1.
  2: { right. unfold mbind, M_bind. rewrite E1. split_and!; [done|by eexists|auto]. }
  erewrite bind_at by done.
  destruct (parent_msg_id_at s1 _ evs (m_parent msg) (q_log _ _ Q1 _ _ He) P1 Hu) as (id & E2 & Q2 & Hid).
  destruct (parent_msg_id _ _ s1) as [r s2] eqn:E3. cbn in E2, Q2. subst r. erewrite bind_at by done.
  erewrite bind_at by done. assert (Q : quiet s s2) by (by etrans).
  assert (Ha : address_in s2 author = address_in s author) by (unfold address_in; by rewrite (q_registry _ _ Q)).
  left. exists s2, options, id. split_and!; try done; [by apply Hid|..];
    destruct (append_to_holds cfg s2 (channel_dir ch) (Posted (post_of s ch author msg uuid now options id)) LocalOrigin evs
                (q_log _ _ Q _ _ He)) as [E4 _];
    unfold mbind, M_bind; fold (post_of s2 ch author msg uuid now options id);
    replace (post_of s2 ch author msg uuid now options id) with (post_of s ch author msg uuid now options id)
      by (unfold post_of; by rewrite Ha);
    destruct (append_to _ _ _ _ s2) as [r s3]; cbn in E4; by subst r.
Qed.

Lemma append_to_files s k ev origin :
  let s' := snd (append_to cfg k ev origin s) in
  registry s' = registry s /\ (forall k', k' <> k -> dir_at s' k' = dir_at s k') /\
  (forall k', meta_of s' k' = meta_of s k') /\ (forall k', members_at s' k' = members_at s k').
Proof.
  cbn zeta. unfold append_to. destruct (append_event _ _ _ _ _ _) as [[n d'] cache']. cbn [snd].
  assert (H : forall k', meta_file (dir_at (with_log s k (dir_at s k) d' cache') k') = meta_file (dir_at s k') /\
                         members_file (dir_at (with_log s k (dir_at s k) d' cache') k') = members_file (dir_at s k')).
  { intros k'. rewrite dir_at_with_log. case_decide; by subst. }
  split_and!; [done| | |]; intros k'.
  - intros Hk. by rewrite dir_at_with_log, decide_False.
  - unfold meta_of. by rewrite (proj1 (H k')).
  - unfold members_at. by rewrite (proj2 (H k')).
Qed.
Lemma quiet_files s s' : quiet s s' ->
  registry s' = registry s /\ (forall k', dir_at s' k' = dir_at s k') /\
  (forall k', meta_of s' k' = meta_of s k') /\ (forall k', members_at s' k' = members_at s k').
Proof. intros [Hr Hd _]. unfold meta_of, members_at, dir_at. rewrite Hd. done. Qed.

(** *** Rosters *)

Lemma info_at a s : reg_ok (registry s) -> info_of a s = (Ok (lookup_info (reg_index (registry s)) a), s).
Proof.
  intros Hg. unfold info_of, actor_info. rewrite load_actors_ok by apply Hg.
  rewrite reread_ok, <- (ok_index _ Hg) by done. by destruct s.
Qed.
Lemma meta_dir s k m : meta_of s k = Some m -> exists d, dirs s !! k = Some d /\ dir_at s k = d.
Proof. unfold meta_of, dir_at. destruct (dirs s !! k) as [d|]; [by eexists|done]. Qed.
Lemma lock_at s k m : meta_of s k = Some m -> lock_members k s = (Ok (), s).
Proof. intros (d & Hd & _)%meta_dir. unfold lock_members, mbind, M_bind, ask. by rewrite Hd. Qed.
Lemma members_save_at s k m ms : meta_of s k = Some m ->
  members_save k ms s
  = (Ok (), with_dir s k {| meta_file := meta_file (dir_at s k); members_file := Holds ms; log := log (dir_at s k) |}).
Proof. intros (d & Hd & <-)%meta_dir. unfold members_save. rewrite Hd. unfold dir_at. by rewrite Hd. Qed.

(** Two actors are one when their kind and key agree. *)
Definition same_identity (a b : ActorInfo) : bool :=
  String.eqb (info_kind a) (info_kind b) && String.eqb (identity_key a) (identity_key b).
(** Whom a row names. *)
Definition row_info (s : Store) (row : string) : ActorInfo := lookup_info (reg_index (registry s)) (member_subject row).

Lemma rows_of_others_at {A} leaving (name : A -> string) rows s : reg_ok (registry s) ->
  rows_of_others leaving name rows s
  = (Ok (List.filter (fun r => negb (same_identity (row_info s (name r)) leaving)) rows), s).
Proof.
  intros Hg. induction rows as [|r rows IH]; [done|]. cbn [rows_of_others List.filter].
  erewrite bind_at by (by apply info_at). erewrite bind_at by exact IH.
  fold (row_info s (name r)). unfold mret, M_ret, same_identity. by rewrite negb_andb.
Qed.

(** A members file written, and one event appended. *)
Lemma save_append_at s k m evs ms ev origin :
  meta_of s k = Some m -> holds_log s k evs ->
  let s1 := snd (members_save k ms s) in
  let s2 := snd (append_to cfg k ev origin s1) in
  fst (append_to cfg k ev origin s1) = Ok (length evs) /\ registry s2 = registry s /\
  (forall k', meta_of s2 k' = meta_of s k') /\ members_at s2 k = Some ms /\
  holds_log s2 k (evs ++ [kept_as s ev origin]) /\ (forall k', k' <> k -> dir_at s2 k' = dir_at s k').
Proof.
  intros Hm He. cbn zeta. rewrite (members_save_at _ _ m) by done. cbn [snd].
  set (s1 := with_dir s k _). assert (C : calm s s1) by (by apply calm_with_dir).
  assert (H1 : holds_log s1 k evs).
  { destruct He as [H1 H2 H3 H4]. unfold s1. by split; rewrite dir_at_with_dir, decide_True by done. }
  destruct (append_to_holds cfg s1 k ev origin evs H1) as [A1 A2].
  destruct (append_to_files s1 k ev origin) as (F1 & F2 & F3 & F4).
  split_and!; try done.
  - intros k'. by rewrite F3, (calm_meta _ _ C).
  - rewrite F4. unfold members_at, s1. by rewrite dir_at_with_dir, decide_True.
  - intros k' Hk. rewrite F2 by done. unfold s1. by rewrite dir_at_with_dir, decide_False.
Qed.

Lemma ensure_registered_dirs a hub u s : dirs (snd (ensure_registered a hub u s)) = dirs s.
Proof.
  unfold ensure_registered, mbind, M_bind, info_of. destruct (actor_info _ a) as [i|]; [|done].
  destruct (String.eqb _ _); [|done]. unfold register. by destruct (register_actor _ _ _) as [[j g]|].
Qed.

(** *** Rows added once *)

Lemma row_in_iff (r : RemoteMember) rows : existsb (fun x => bool_decide (x = r)) rows = true <-> r ∈ rows.
Proof.
  rewrite existsb_exists, list_elem_of_In. split; [intros (x & Hx & ->%bool_decide_eq_true); done|].
  intros H. exists r. split; [done|]. by apply bool_decide_eq_true.
Qed.
Lemma add_rows_keeps rows more r : r ∈ rows -> r ∈ add_rows rows more.
Proof.
  unfold add_rows. revert rows. induction more as [|x more IH]; intros rows H; cbn; [done|]. apply IH.
  destruct (existsb _ rows); [done|]. apply elem_of_app. by left.
Qed.
Lemma add_rows_adds rows more r : r ∈ more -> r ∈ add_rows rows more.
Proof.
  unfold add_rows. revert rows. induction more as [|x more IH]; intros rows H; [by apply elem_of_nil in H|].
  cbn. apply elem_of_cons in H as [->|H]; [|by apply IH]. apply add_rows_keeps.
  destruct (existsb _ rows) eqn:E; [by apply row_in_iff|]. apply elem_of_app. right. by apply list_elem_of_singleton.
Qed.
Lemma add_rows_known rows more : (forall r, r ∈ more -> r ∈ rows) -> add_rows rows more = rows.
Proof.
  unfold add_rows. induction more as [|x more IH]; intros H; cbn; [done|].
  rewrite (proj2 (row_in_iff x rows)) by (apply H; left). apply IH. intros r Hr. apply H. by right.
Qed.

(** A channel someone has joined with an invitation, and the invitation again. *)
Definition joined (s : Store) (ch : ChannelId) (roster : list InitialMember) (me : string) (kind : ConversationKind)
    (binding : option string) : Prop :=
  exists m ms, meta_of s (channel_dir ch) = Some m /\ meta_kind m = kind /\ members_at s (channel_dir ch) = Some ms /\
    has_member s ms (principal_ref me) = true /\ (forall r, r ∈ routed roster -> r ∈ remote_members ms) /\
    (is_some binding = true -> is_some (meta_bindings m !! me) = true).
Lemma join_again s ch creator name roster me source kind binding now :
  (kind = Dm -> is_pair_id ch = true) -> joined s ch roster me kind binding ->
  join_remote cfg rfc3339 ch creator name roster me source kind binding now s = (Ok (), s).
Proof.
  intros Hid (m & ms & Hm & Hk & Hms & Hin & Hrows & Hb). unfold join_remote.
  assert (Hg : bool_decide (kind = Dm) && negb (is_pair_id ch) = false).
  { case_bool_decide; [rewrite Hid by done|]; done. }
  rewrite Hg. erewrite bind_at by done.
  assert (Hex : meta_exists s (channel_dir ch) = true).
  { unfold meta_exists, meta_of in *. by destruct (meta_file _). }
  rewrite Hex. erewrite bind_at by (by eapply lock_at). erewrite bind_at by (by apply meta_load_at).
  rewrite bool_decide_true by done. cbn [negb]. erewrite bind_at by (by apply members_load_at). erewrite bind_at by done.
  rewrite Hin. cbn [remote_members andb]. rewrite add_rows_known, bool_decide_true by done.
  erewrite bind_at by done. destruct binding as [session|]; [|done]. by rewrite Hb.
Qed.

Lemma own_row s me row : member_subject row = principal_ref me -> row_address s row = subject_address s (principal_ref me).
Proof. intros H. unfold row_address, subject_address. by rewrite H. Qed.
Lemma has_member_app s ms me l :
  member_subject (member_row (principal_ref me)) = principal_ref me ->
  has_member s {| members := members ms ++ [member_row (principal_ref me)]; remote_members := l |} (principal_ref me) = true.
Proof.
  intros H. unfold has_member. cbn [members]. rewrite existsb_app. apply orb_true_iff. right. cbn.
  by rewrite (own_row s me), String.eqb_refl.
Qed.

(** Files written where a channel is. *)
Lemma members_written s k m ms : meta_of s k = Some m ->
  exists s1, members_save k ms s = (Ok (), s1) /\ members_at s1 k = Some ms /\ registry s1 = registry s /\
    (forall k', meta_of s1 k' = meta_of s k').
Proof.
  intros Hm. rewrite (members_save_at _ _ m) by done. eexists. split_and!; [done|..].
  - unfold members_at. by rewrite dir_at_with_dir, decide_True.
  - done.
  - intros k'. unfold meta_of. rewrite dir_at_with_dir. by case_decide as E; [subst|].
Qed.
Lemma meta_written s k m :
  exists s1, meta_save k m s = (Ok (), s1) /\ meta_of s1 k = Some m /\ registry s1 = registry s /\
    (forall k', members_at s1 k' = members_at s k').
Proof.
  eexists. split_and!; [done|..].
  - unfold meta_of. cbn. rewrite dir_at_with_dir, decide_True by done. cbn. by rewrite meta_disk_roundtrip.
  - done.
  - intros k'. unfold members_at. cbn. rewrite dir_at_with_dir. by case_decide as E; [subst|].
Qed.
(** *** Joining *)

Lemma join_checked s ch creator name roster me source kind binding now s' :
  join_remote cfg rfc3339 ch creator name roster me source kind binding now s = (Ok (), s') ->
  kind = Dm -> is_pair_id ch = true.
Proof.
  unfold join_remote. intros H ->. rewrite bool_decide_true in H by done. by destruct (is_pair_id ch).
Qed.

(** What the branch for a channel that is there has read. *)
Lemma join_reads {A} s k ch (f : MetaJson -> M A) (s' : Store) (a : A) :
  meta_exists s k = true -> (_ ← lock_members k; meta ← meta_load k ch; f meta) s = (Ok a, s') ->
  exists m, meta_of s k = Some m /\ f m s = (Ok a, s').
Proof.
  intros Hex H. unfold mbind, M_bind in H. destruct (lock_members k s) as [[[]|e] s0] eqn:El; [|done].
  assert (s0 = s) as -> by (unfold lock_members, mbind, M_bind, ask in El; by destruct (is_some _); injection El).
  destruct (meta_of s k) as [m|] eqn:Hm; [|exfalso].
  - exists m. by rewrite (meta_load_at _ _ _ _ Hm) in H.
  - unfold meta_of, meta_exists, meta_load, mbind, M_bind, ask in *. by destruct (meta_file _).
Qed.

(** Rows written, or left when nothing would change. *)
Lemma rows_kept_or_saved s k m ms ms' (same : bool) :
  meta_of s k = Some m -> members_at s k = Some ms -> (same = true -> ms' = ms) ->
  exists s1, (if same then mret () else members_save k ms') s = (Ok (), s1) /\
    members_at s1 k = Some ms' /\ registry s1 = registry s /\ (forall k', meta_of s1 k' = meta_of s k').
Proof.
  intros Hm Hms H. destruct same; [|by apply (members_written s k m)]. exists s. rewrite H by done. by split_and!.
Qed.

Lemma join_existing s ch creator name roster me source kind binding now s' :
  member_subject (member_row (principal_ref me)) = principal_ref me -> meta_exists s (channel_dir ch) = true ->
  join_remote cfg rfc3339 ch creator name roster me source kind binding now s = (Ok (), s') ->
  joined s' ch roster me kind binding.
Proof.
  intros Hme Hex H. unfold join_remote in H. destruct (bool_decide _ && _); [done|].
  erewrite bind_at in H by done. rewrite Hex in H. apply join_reads in H as (m & Hm & H); [|done].
  case_bool_decide as Hk; [|done]. cbn [negb] in H. unfold mbind at 1, M_bind at 1 in H.
  destruct (members_at s (channel_dir ch)) as [ms|] eqn:Hms;
    [|unfold members_at, members_load, mbind, M_bind, ask in *; by destruct (members_file _)].
  rewrite (members_load_at _ _ _ Hms) in H. erewrite bind_at in H by done.
  set (ms' := {| members := if has_member s ms (principal_ref me) then _ else _; remote_members := _ |}) in H.
  destruct (rows_kept_or_saved s (channel_dir ch) m ms ms'
    (has_member s ms (principal_ref me) && bool_decide (remote_members ms' = remote_members ms)) Hm Hms)
    as (s1 & E1 & M1 & R1 & T1).
  { intros [E1 E2%bool_decide_eq_true]%andb_true_iff. unfold ms' in *. rewrite E1 in *. cbn [remote_members] in E2.
    rewrite E2. by destruct ms. }
  erewrite bind_at in H by exact E1.
  assert (Hin : forall s2, registry s2 = registry s -> has_member s2 ms' (principal_ref me) = true).
  { intros s2 Hr. unfold ms'. destruct (has_member s ms (principal_ref me)) eqn:E; [|by apply has_member_app].
    unfold has_member, row_address, subject_address, address_in in *. cbn [members] in *. by rewrite Hr. }
  assert (Hrows : forall r, r ∈ routed roster -> r ∈ remote_members ms') by (intros r Hr; by apply add_rows_adds).
  destruct binding as [session|]; [destruct (is_some (meta_bindings m !! me)) eqn:Eb|].
  - injection H as <-. exists m, ms'. rewrite T1. by split_and!; auto.
  - match type of H with meta_save _ ?mm s1 = _ => destruct (meta_written s1 (channel_dir ch) mm) as (s2 & E2 & M2 & R2 & T2) end.
    rewrite E2 in H. injection H as <-. eexists _, ms'. rewrite T2. split_and!; [exact M2|done|done|apply Hin; congruence|done|].
    intros _. cbn. by rewrite lookup_insert_eq.
  - injection H as <-. exists m, ms'. rewrite T1. by split_and!; auto.
Qed.

Lemma join_new s ch creator name roster me source kind binding now s' :
  member_subject (member_row (principal_ref me)) = principal_ref me -> meta_exists s (channel_dir ch) = false ->
  join_remote cfg rfc3339 ch creator name roster me source kind binding now s = (Ok (), s') ->
  joined s' ch roster me kind binding.
Proof.
  intros Hme Hex H. set (k := channel_dir ch) in *. unfold join_remote in H. destruct (bool_decide _ && _); [done|].
  erewrite bind_at in H by done. fold k in H. rewrite Hex in H. erewrite bind_at in H by done.
  set (ms' := {| members := [member_row _]; remote_members := _ |}) in H. set (m' := new_meta _ _ _ _ _ _ _ _ _) in H.
  assert (Hw : exists s1, members_save k ms' (snd (mkdir k s)) = (Ok (), s1) /\ members_at s1 k = Some ms').
  { unfold members_save, mkdir. cbn [snd]. unfold with_dir. cbn [dirs]. rewrite lookup_insert_eq.
    eexists. split; [done|]. unfold members_at, dir_at. cbn. by rewrite lookup_insert_eq. }
  destruct Hw as (s1 & E1 & M1). erewrite bind_at in H by exact E1.
  destruct (meta_written s1 k m') as (s2 & E2 & M2 & _ & T2). erewrite bind_at in H by exact E2.
  unfold mbind, M_bind in H. destruct (append_to_files s2 k (Created ch creator name (rfc3339 now)) LocalOrigin) as (_ & _ & A3 & A4).
  destruct (append_to _ _ _ _ s2) as [[n|e] s3]; [|done]. injection H as <-. cbn [snd] in A3, A4.
  exists m', ms'. split_and!; [by rewrite A3|done|by rewrite A4, T2| |intros r Hr; by apply add_rows_adds|].
  - by apply (has_member_app s3 no_members).
  - intros Hb. unfold m'. cbn. destruct binding; [|done]. by rewrite lookup_singleton_eq.
Qed.
End Exact.

(** ** Properties *)

(** C6. Posting, on every branch.  The post goes through exactly when its sender is
    a member, its suggested replies are within the limits, and the line it
    answers is in the log.  Then the event returned, with the sender's
    registered name, ends the log under the number returned; a reply carries
    the id of the post it answers.  Refused, the post leaves the log as it was.
    Either way no other file of any channel changes, and no actor. *)
Theorem post_exact (J : EventJson) (cfg : ChannelConfig) (rfc3339 : Z -> string) (debug : string -> string)
    (s : Store) (ch : ChannelId) (m : MetaJson) (ms : MembersJson) (evs : list (EventOrigin * ChannelEvent))
    (sender : ActorRef) (author : string) (msg : PostMsg) (uuid : string) (now : Z) :
  EventJsonLaws J ->
  meta_of s (channel_dir ch) = Some m -> meta_tier m = Runtime -> members_at s (channel_dir ch) = Some ms ->
  holds_log s (channel_dir ch) evs -> (Z.of_nat (length evs) <= u64_max)%Z ->
  let '(r, s') := post_attributed_with_event cfg rfc3339 debug ch sender author msg uuid now s in
  let k := channel_dir ch in
  let allowed := has_member s ms sender = true /\ (exists options, validate_options (m_options msg) = Ok options) /\
                 parent_there evs (m_parent msg) in
  registry s' = registry s /\ (forall k', k' <> k -> dir_at s' k' = dir_at s k') /\
  (forall k', meta_of s' k' = meta_of s k') /\ (forall k', members_at s' k' = members_at s k') /\
  match r with
  | Ok (id, ev) =>
      allowed /\ id = task_id (length evs) /\
      holds_log s' k (evs ++ [(LocalOrigin, normalize_event s ev)]) /\
      exists options reply_to, ev = Posted (post_of rfc3339 s ch author msg uuid now options reply_to) /\
        validate_options (m_options msg) = Ok options /\
        answers evs (post_of rfc3339 s ch author msg uuid now options reply_to)
  | Err _ => ~ allowed /\ holds_log s' k evs
  end.
Proof.
  intros L Hm Ht Hms He Hu.
  destruct (post_at cfg rfc3339 debug s ch m ms evs sender author msg uuid now Hm Ht Hms He Hu)
    as [(s1 & options & reply_to & Q & Hin & Hopt & Hpar & Ha & E1 & E2)|(Q & [e E] & Hno)].
  - destruct (post_attributed_with_event _ _ _ _ _ _ _ _ _ s) as [r s']. cbn [fst snd] in E1, E2. subst r s'. cbn zeta.
    apply quiet_files in Q as F. destruct F as (F1 & F2 & F3 & F4).
    destruct (append_to_files cfg s1 (channel_dir ch) (Posted (post_of rfc3339 s ch author msg uuid now options reply_to)) LocalOrigin)
      as (A1 & A2 & A3 & A4).
    split_and!; [by rewrite A1|intros k' Hk; by rewrite A2, F2|intros k'; by rewrite A3|intros k'; by rewrite A4
               |done|eauto|done|done| |by eauto 6].
    replace (normalize_event s) with (normalize_event s1) by (unfold normalize_event, address_in; by rewrite F1).
    apply (append_to_holds cfg s1 _ (Posted _) LocalOrigin evs), (q_log _ _ Q _ _ He).
  - destruct (post_attributed_with_event _ _ _ _ _ _ _ _ _ s) as [r s']. cbn [fst snd] in E, Q. subst r. cbn zeta.
    pose proof (quiet_files _ _ Q) as (F1 & F2 & F3 & F4). split_and!; try done.
    + intros (H1 & [o H2] & H3). destruct Hno as [Hno|[[e' Hno]|Hno]]; [congruence..|done].
    + by apply (q_log _ _ Q).
Qed.

(** A member who left on another runtime is gone here: no row of the channel,
    local or remote, names that actor any more, by whatever address the row
    was written; all other rows stay, in order, and the departure is in the
    log under the number returned. *)
Theorem remote_leave_exact (J : EventJson) (cfg : ChannelConfig) (s : Store) (ch c : ChannelId) (member t : string)
    (m : MetaJson) (ms : MembersJson) (evs : list (EventOrigin * ChannelEvent)) :
  EventJsonLaws J -> reg_ok (registry s) ->
  meta_of s (channel_dir ch) = Some m -> meta_tier m = Runtime -> members_at s (channel_dir ch) = Some ms ->
  holds_log s (channel_dir ch) evs ->
  let '(r, s') := append_remote_event cfg ch (MemberLeft c member t) s in
  let stays := fun row => negb (same_identity (row_info s row) (row_info s member)) in
  r = Ok (task_id (length evs)) /\
  members_at s' (channel_dir ch)
  = Some {| members := List.filter stays (members ms);
            remote_members := List.filter (fun rm => stays (rm_principal_id rm)) (remote_members ms) |} /\
  holds_log s' (channel_dir ch) (evs ++ [(VerifiedRemote, MemberLeft c member t)]) /\
  (forall k', meta_of s' k' = meta_of s k') /\
  (forall k', k' <> channel_dir ch -> dir_at s' k' = dir_at s k').
Proof.
  intros L Hg Hm Ht Hms He.
  pose proof (save_append_at cfg s _ m evs
    {| members := List.filter (fun row => negb (same_identity (row_info s row) (row_info s member))) (members ms);
       remote_members := List.filter (fun rm => negb (same_identity (row_info s (rm_principal_id rm)) (row_info s member)))
                           (remote_members ms) |} (MemberLeft c member t) VerifiedRemote Hm He) as H. cbn zeta in H.
  destruct (append_remote_event cfg ch (MemberLeft c member t) s) as [r s'] eqn:E.
  unfold append_remote_event in E. erewrite bind_at in E by (by eapply resolve_at).
  unfold mbind at 1, M_bind at 1 in E. erewrite bind_at in E by (by apply info_at).
  erewrite bind_at in E by (by eapply lock_at). erewrite bind_at in E by (by apply members_load_at).
  erewrite bind_at in E by (by apply rows_of_others_at). erewrite bind_at in E by (by apply (rows_of_others_at _ (fun row => row))).
  fold (row_info s member) in E. rewrite (members_save_at _ _ m) in E, H by done. cbn [snd sanitized] in E, H.
  unfold mbind, M_bind in E. destruct (append_to _ _ _ _ _) as [r2 s2]. cbn [fst snd] in H.
  destruct H as (-> & _ & H1 & H2 & H3 & H4). injection E as <- <-. by split_and!.
Qed.

(** A DM keeps its two people: it cannot be left, and nobody is added to it
    but, again, one of those it was opened for. *)
Theorem dm_roster_closed (J : EventJson) (cfg : ChannelConfig) (rfc3339 : Z -> string) (s : Store) (ch : ChannelId) (m : MetaJson) :
  EventJsonLaws J -> meta_of s (channel_dir ch) = Some m -> meta_tier m = Runtime -> meta_kind m = Dm ->
  (forall actor now, leave_actor cfg rfc3339 ch actor now s
                     = (Err (Fails (Adapter "a DM keeps its two members; it cannot be left")), s)) /\
  (forall inviter invitee uuid now,
     dirs (snd (invite cfg rfc3339 ch inviter invitee uuid now s)) <> dirs s ->
     exists info p, fst (ensure_registered invitee hub_id uuid s) = Ok info /\ p ∈ meta_participants m /\
       address_in (snd (ensure_registered invitee hub_id uuid s)) p = address info).
Proof.
  intros L Hm Ht Hk. split.
  - intros actor now. unfold leave_actor. erewrite bind_at by (by eapply resolve_at).
    erewrite bind_at by (by eapply lock_at). erewrite bind_at by (by apply meta_load_at). by rewrite decide_True.
  - intros inviter invitee uuid now. unfold invite. pose proof (ensure_registered_dirs invitee hub_id uuid s) as Hd.
    unfold mbind at 1, M_bind at 1. destruct (ensure_registered invitee hub_id uuid s) as [[info|e] s1]; cbn [fst snd] in *; [|done].
    unfold mbind at 1, M_bind at 1, subject_m. destruct (subject_of info) as [a|]; [|done]. cbn [mret M_ret].
    assert (Hm1 : meta_of s1 (channel_dir ch) = Some m) by (unfold meta_of, dir_at in *; by rewrite Hd).
    unfold mret, M_ret. erewrite bind_at by (by eapply resolve_at). erewrite bind_at by (by eapply lock_at).
    erewrite bind_at by (by apply meta_load_at). erewrite bind_at by done. rewrite Hk. cbn [bool_decide decide_rel andb].
    destruct (existsb _ (meta_participants m)) eqn:Ex; cbn; [|done]. intros _.
    apply existsb_exists in Ex as (p & Hp & Ep%String.eqb_eq). exists info, p. by rewrite list_elem_of_In.
Qed.

(** A delivered invitation may be delivered again: once joining has gone
    through, the same invitation succeeds and changes nothing at all. *)
Theorem join_remote_idempotent (J : EventJson) (cfg : ChannelConfig) (rfc3339 : Z -> string) (s s' : Store) (ch : ChannelId)
    (creator name : string) (roster : list InitialMember) (me source : string) (kind : ConversationKind)
    (binding : option string) (now later : Z) :
  EventJsonLaws J -> member_subject (member_row (principal_ref me)) = principal_ref me ->
  join_remote cfg rfc3339 ch creator name roster me source kind binding now s = (Ok (), s') ->
  join_remote cfg rfc3339 ch creator name roster me source kind binding later s' = (Ok (), s').
Proof.
  intros L Hme H. apply join_again; [by eapply join_checked|].
  destruct (meta_exists s (channel_dir ch)) eqn:E; [by eapply join_existing|by eapply join_new].
Qed.

(** ** Examples *)

Import Team BinaryEvents.

(** Well formed logs, by computation. *)
Ltac holds := constructor; [vm_compute; by constructor|apply sound_checked; vm_compute; reflexivity
  |apply whole_checked; vm_compute; reflexivity|vm_compute; reflexivity].

Definition created : EventOrigin * ChannelEvent := (LocalOrigin, Created team "principal:local:alice" "team" "t1").
Lemma alice_holds : holds_log (run by_alice) (channel_dir team) [created].
Proof. holds. Qed.
Definition team_meta : MetaJson := new_meta "alice" "team" 1 Runtime Group ∅ [] None None.
Lemma alice_meta : meta_of (run by_alice) (channel_dir team) = Some team_meta.
Proof. vm_compute. reflexivity. Qed.

(** A copy of history marked complete, then the purge at a change of account. *)
Definition later : list HostOp := [HStore (OMarkComplete team); HPurge (Some "user:hub:7")].

Lemma reachable_channels_read_witness :
  exists evs, fst (peek_with_ids cfg team "" (run with_bob)) = Ok (map shown (numbered (normalize_event (run with_bob)) 0 evs)).
Proof.
  destruct (reachable_channels_read json cfg clock id quoted digest (written []) with_bob team team_meta json_laws) as (evs & H & _).
  - vm_compute. reflexivity.
  - exists evs. exact H.
Defined.

Lemma admins_are_the_owners_choice_witness :
  exists group by_ actor admin owner i,
    OSetAdmin team "alice" (principal_ref "bob") true = OSetAdmin group by_ actor admin /\ channel_dir group = channel_dir team /\
    fst (group_owner group (run with_bob)) = Ok owner /\
    fst (info_of (principal_ref by_) (snd (group_owner group (run with_bob)))) = Ok i /\ address i = owner.
Proof.
  apply (admins_are_the_owners_choice json cfg clock id quoted digest (run with_bob)
           (OSetAdmin team "alice" (principal_ref "bob") true) team team_meta (set_admins team_meta ["principal:local:bob"]) json_laws).
  - vm_compute. reflexivity.
  - vm_compute. reflexivity.
  - vm_compute. discriminate.
Defined.

Definition alone : MembersJson := {| members := ["principal:local:alice"]; remote_members := [] |}.
Lemma post_exact_witness :
  exists id ev, fst (post_attributed_with_event cfg clock quoted team (principal_ref "alice") "principal:local:alice"
                      (post_reply "0" "hi") "9" 3 (run by_alice)) = Ok (id, ev) /\ id = task_id 1.
Proof.
  pose proof (post_exact json cfg clock quoted (run by_alice) team team_meta alone [created] (principal_ref "alice")
    "principal:local:alice" (post_reply "0" "hi") "9" 3 json_laws alice_meta eq_refl) as H.
  destruct (post_attributed_with_event _ _ _ _ _ _ _ _ _ _) as [[[id ev]|e] s'] eqn:E.
  - exists id, ev. split; [reflexivity|]. apply H; [vm_compute; reflexivity|exact alice_holds|vm_compute; discriminate].
  - vm_compute in E. discriminate E.
Defined.

Lemma remote_leave_exact_witness :
  members_at (snd (append_remote_event cfg team (MemberLeft team "principal:local:alice" "t2") (run by_alice))) (channel_dir team)
  = Some no_members.
Proof.
  pose proof (remote_leave_exact json cfg (run by_alice) team team "principal:local:alice" "t2" team_meta alone [created]
    json_laws) as H.
  destruct (append_remote_event _ _ _ _) as [r s'] eqn:E. cbn [snd].
  destruct H as (_ & H & _); [|exact alice_meta|reflexivity|vm_compute; reflexivity|exact alice_holds|].
  - apply (written_ok [_]). repeat constructor.
  - rewrite H. vm_compute. reflexivity.
Defined.

Definition pair_id : ChannelId := "dm_0000000000000000000000000000000000000000000000000000000000000000".
Definition ann : ActorRef := User (route_hub "1").
Definition ben : ActorRef := User (route_hub "2").
Definition ann_and_ben : Store := run [OHumanDm ann ben pair_id "ben" "1" 1].
Lemma dm_roster_closed_witness :
  leave_actor cfg clock pair_id ann 2 ann_and_ben
  = (Err (Fails (Adapter "a DM keeps its two members; it cannot be left")), ann_and_ben).
Proof.
  apply (dm_roster_closed json cfg clock ann_and_ben pair_id
           (new_meta "user:hub:1" "ben" 1 Runtime Dm ∅ ["user:hub:1"; "user:hub:2"] (Some "1") None) json_laws).
  - vm_compute. reflexivity.
  - reflexivity.
  - reflexivity.
Defined.

Definition invited (s : Store) : result unit Fault * Store :=
  join_remote cfg clock team "did:key:zX" "team"
    [{| im_principal_did := "did:key:zY"; im_hub_id := None; im_identity_key := None; im_name := None; im_runtime_id := Some "did:key:zR" |}]
    "bob" "did:key:zR" Group (Some "session") 5 s.
Lemma join_remote_idempotent_witness :
  invited (snd (invited (run []))) = (Ok (), snd (invited (run []))).
Proof.
  eapply (join_remote_idempotent json cfg clock (run []) (snd (invited (run []))) team "did:key:zX" "team" _ "bob" "did:key:zR"
            Group (Some "session") 5 5 json_laws); vm_compute; reflexivity.
Defined.

(** A group made for the shared tier cannot be used: every later operation
    looks for it under the runtime's root. *)
Theorem shared_channel_is_lost :
  let s := run [OCreate "alice" (opts_shared "team") team "u" 1] in
  meta_of s (Shared, team) = Some (new_meta "alice" "team" 1 Shared Group ∅ [] None None) /\
  fst (post cfg clock quoted team (principal_ref "alice") (post_root "hi") "9" 2 s) = Err (Fails (NotFound team)) /\
  fst (shared_by cfg [principal_ref "alice"] s) = Ok [].
Proof. vm_compute. split_and!; reflexivity. Qed.

(** An admin who left the group still manages it. *)
Theorem admin_outlives_membership :
  let s := run (with_bob ++ [OSetAdmin team "alice" (principal_ref "bob") true; OLeave team (principal_ref "bob") 4]) in
  fst (list_members cfg team s) = Ok [principal_ref "alice"] /\
  fst (may_manage_group team (principal_ref "bob") s) = Ok true /\
  fst (set_group_history team "bob" HistoryJoined s) = Ok ().
Proof. vm_compute. split_and!; reflexivity. Qed.

(** A member who leaves by the Hub address keeps its binding: bindings are
    removed by the id in the address, members by the actor it names. *)
Theorem hub_leave_keeps_binding :
  let hub := {| rq_subject := principal_ref "bob"; rq_hub_id := Some "7"; rq_signing_did := None; rq_identity_key := None;
                rq_name := None; rq_registration := Registered |} in
  let s := run (by_alice ++ [ORegistry (RRegister hub "u7"); OInvite team "alice" (principal_ref "bob") "u2" 2;
                             OBind team "bob" "session"; OLeave team (Principal (route_hub "7")) 3]) in
  fst (list_members cfg team s) = Ok [principal_ref "alice"] /\
  fst (binding_for cfg team "bob" s) = Ok (Some (binding_new "session" WakeMention)).
Proof. vm_compute. split; reflexivity. Qed.

(** A roster from another runtime may name [public], which has no address to
    take apart: looking for shared conversations then panics. *)
Theorem public_row_panics :
  let roster := [{| im_principal_did := "public"; im_hub_id := None; im_identity_key := None; im_name := None;
                    im_runtime_id := Some "did:key:zR" |}] in
  let s := run [OJoinRemote team "did:key:zX" "team" roster "alice" "did:key:zR" Group None 1] in
  fst (shared_by cfg [principal_ref "alice"] s) = Err (Panics "actor has an address").
Proof. vm_compute. reflexivity. Qed.

(** A channel that is there is not left untouched by an invitation: its rows
    and bindings take what the invitation adds. *)
Theorem join_remote_merges :
  let s := snd (invited (run by_alice)) in
  members_at (run by_alice) (channel_dir team) = Some alone /\
  members_at s (channel_dir team)
  = Some {| members := ["principal:local:alice"; "principal:local:bob"];
            remote_members := [{| rm_runtime_id := "did:key:zR"; rm_principal_id := "did:key:zY" |}] |}.
Proof. vm_compute. split; reflexivity. Qed.
