(* ===== verification/ChannelFanOut.v ===== *)
(** * ChannelFanOut: how many principals a channel reaches

    A post is fanned out to the principals of a channel, so [invite] refuses
    one past [FAN_OUT_CAP] (peko-rs/channel/src/store.rs).  Followed through
    every operation with the logic of [ChannelHistory]: only joining a copy and
    opening a DM add a principal past the cap. *)

From Stdlib Require Import ZArith Lia Ascii Sorting.Sorted.
From stdpp Require Import base tactics list gmap strings.
From S2P Require Import Prelude Text Subject ChannelWire Actors ChannelLog ChannelStore ChannelCopies ChannelHistory ChannelRoster.

Local Open Scope nat_scope.

(** ** Operations that leave every [members.json] alone *)

Definition same_rows (s s' : Store) : Prop := forall k, members_file (dir_at s' k) = members_file (dir_at s k).
#[export] Instance same_rows_preorder : PreOrder same_rows.
Proof. split; [by intros s k|]. intros a b c H1 H2 k. by rewrite H2, H1. Qed.

Section SameRows.
Context `{J : EventJson} (cfg : ChannelConfig) (rfc3339 : Z -> string) (lower debug : string -> string).

Lemma same_rows_dir s k d : members_file d = members_file (dir_at s k) -> same_rows s (with_dir s k d).
Proof. intros H k'. rewrite dir_at_with_dir. case_decide; by subst. Qed.
Lemma rows_info a : moves same_rows (info_of a).
Proof. intros s. unfold info_of. by destruct (actor_info _ a). Qed.
Lemma rows_register rq u : moves same_rows (register rq u).
Proof. intros s. unfold register. by destruct (register_actor _ rq u) as [[i g]|]. Qed.
Lemma rows_mkdir k : moves same_rows (mkdir k).
Proof. intros s. by apply same_rows_dir. Qed.
Lemma rows_meta_save k m : moves same_rows (meta_save k m).
Proof. intros s. by apply same_rows_dir. Qed.
Lemma rows_append k ev o : moves same_rows (append_to cfg k ev o).
Proof.
  intros s k'. unfold append_to. destruct (append_event _ _ _ _ _ _) as [[n d] c]. cbn [snd]. rewrite dir_at_with_log.
  case_decide; by subst.
Qed.
Lemma rows_reading {A} k (f : (ChannelEvent -> ChannelEvent) -> LogDir -> LineCounts -> result A ChannelError * LineCounts) :
  moves same_rows (reading k f).
Proof. intros s. unfold reading. by destruct (f _ _ _). Qed.
#[local] Hint Resolve rows_info rows_register rows_mkdir rows_meta_save rows_append @rows_reading : moves.

Lemma rows_peek ch since : moves same_rows (peek_with_ids cfg ch since).
Proof. unfold peek_with_ids. moving. Qed.
Lemma rows_tail ch limit before : moves same_rows (peek_tail cfg ch limit before).
Proof. unfold peek_tail. moving. Qed.
Lemma rows_search ch q : moves same_rows (search cfg lower ch q).
Proof. unfold search. moving. Qed.
Lemma rows_list_members ch : moves same_rows (list_members cfg ch).
Proof. unfold list_members. moving. Qed.
Lemma rows_participants ch : moves same_rows (participants cfg ch).
Proof. pose proof rows_list_members. unfold participants, list_remote_members. moving. Qed.
Lemma rows_membership ch : moves same_rows (membership cfg rfc3339 ch).
Proof. unfold membership, members_with_attribution. moving. Qed.
Lemma rows_ensure_registered a hub u : moves same_rows (ensure_registered a hub u).
Proof. unfold ensure_registered. moving. Qed.
Lemma rows_post ch sender author msg u now :
  moves same_rows (post_attributed_with_event cfg rfc3339 debug ch sender author msg u now).
Proof. unfold post_attributed_with_event, check_membership, check_parent, parent_msg_id. moving. Qed.
Lemma rows_bind ch p session : moves same_rows (bind cfg ch p session).
Proof. unfold bind. moving. Qed.
Lemma rows_edit_binding ch p check edit : moves same_rows (edit_binding cfg ch p check edit).
Proof. unfold edit_binding. moving. Qed.
Lemma rows_edit_group ch edit : moves same_rows (edit_group ch edit).
Proof. unfold edit_group. moving. Qed.
Lemma rows_owner_of m : moves same_rows (owner_of m).
Proof. unfold owner_of, creator_address. moving. Qed.
#[local] Hint Resolve rows_list_members rows_edit_group rows_owner_of : moves.
Lemma rows_set_history ch p v : moves same_rows (set_group_history ch p v).
Proof. unfold set_group_history, set_history_visibility, may_manage_group, group_owner. moving. Qed.
Lemma rows_set_admin ch p a adm : moves same_rows (set_group_admin cfg ch p a adm).
Proof. unfold set_group_admin, write_group_admin, group_owner. moving. Qed.
Lemma rows_update_hub ch edit : moves same_rows (update_hub_group ch edit).
Proof. unfold update_hub_group. moving. Qed.
Lemma rows_adopt ch t : moves same_rows (adopt_created_at ch t).
Proof. unfold adopt_created_at. moving. Qed.
Lemma rows_complete ch : moves same_rows (mark_history_complete cfg ch).
Proof. unfold mark_history_complete. moving. Qed.
Lemma rows_synced ch evs : moves same_rows (append_synced_events cfg ch evs).
Proof. unfold append_synced_events, all_events. moving. Qed.
Lemma rows_others {A} i (name : A -> string) l : moves same_rows (rows_of_others i name l).
Proof. induction l; cbn [rows_of_others]; moving. Qed.
Lemma rows_restart : moves same_rows restart.
Proof. by intros s. Qed.
End SameRows.

#[export] Hint Resolve rows_info rows_register rows_mkdir rows_meta_save rows_append rows_reading rows_peek rows_tail
  rows_search rows_list_members rows_participants rows_membership rows_ensure_registered rows_post rows_bind
  rows_edit_binding rows_edit_group rows_owner_of rows_set_history rows_set_admin rows_update_hub rows_adopt rows_complete
  rows_synced rows_others rows_restart : moves.

(** ** Operations that write one *)

(** The rows that name a principal; a bare id, as old files have it, is none. *)
Definition names_principal (row : string) : bool :=
  match actor_from_str row with Ok a => is_principal a | Err _ => false end.
Definition named_rows (m : MembersJson) : nat := length (List.filter names_principal (members m)).
(** Those of a channel. *)
Definition rows_at (s : Store) (k : DirKey) : nat :=
  match members_file (dir_at s k) with Holds m => named_rows m | _ => 0 end.
Definition capped (s s' : Store) : Prop :=
  forall n, rows_at s' (Runtime, n) <= Nat.max FAN_OUT_CAP (rows_at s (Runtime, n)).
#[export] Instance capped_preorder : PreOrder capped.
Proof. split; [intros s n; lia|]. intros a b c H1 H2 n. specialize (H1 n). specialize (H2 n). lia. Qed.
Lemma same_rows_at s s' k : same_rows s s' -> rows_at s' k = rows_at s k.
Proof. intros H. unfold rows_at. by rewrite H. Qed.
Lemma same_rows_capped s s' : same_rows s s' -> capped s s'.
Proof. intros H n. rewrite (same_rows_at _ _ _ H). lia. Qed.

Lemma wp_members_load_rows R k Q s :
  (forall m, named_rows m = rows_at s k -> Q m s) -> R s -> wp R (members_load k) Q s.
Proof.
  intros HQ HR. unfold wp, members_load, mbind, M_bind, ask, rows_at in *.
  destruct (members_file (dir_at s k)); try done; by apply HQ.
Qed.
Lemma wp_members_save_rows s0 k m Q s :
  capped s0 s -> named_rows m <= Nat.max FAN_OUT_CAP (rows_at s k) ->
  (forall s', capped s0 s' -> Q tt s') -> wp (capped s0) (members_save k m) Q s.
Proof.
  intros C Hm HQ. unfold wp, members_save. destruct (dirs s !! k) as [d|] eqn:E; [|done]. apply HQ.
  etrans; [exact C|]. intros n. unfold rows_at at 1. rewrite dir_at_with_dir. case_decide as Hk; [|unfold rows_at; lia].
  cbn. by rewrite Hk.
Qed.
Lemma wp_rows s0 {A} (c : M A) Q s :
  capped s0 s -> moves same_rows c ->
  (forall x s', capped s0 s' -> (forall k, rows_at s' k = rows_at s k) -> Q x s') -> wp (capped s0) c Q s.
Proof.
  intros C Hc HQ. eapply wp_moves; [exact Hc| |]; intros; [apply HQ|].
  - etrans; [exact C|by apply same_rows_capped].
  - intros k. by apply same_rows_at.
  - etrans; [exact C|by apply same_rows_capped].
Qed.
Lemma wp_capped {A} (c : M A) : (forall s, wp (capped s) c (fun _ s' => capped s s') s) -> moves capped c.
Proof. intros H s. specialize (H s). unfold wp in H. by destruct (c s) as [[x|e] s']. Qed.

Ltac wp_row :=
  lazymatch goal with
  | |- wp _ (mbind _ _) _ _ => apply wp_bind
  | |- wp _ (mret _) _ _ => apply wp_ret
  | |- wp _ (failure _) _ _ => apply wp_failure
  | |- wp _ (adapter _) _ _ => apply wp_adapter
  | |- wp _ (ask _) _ _ => apply wp_ask
  | |- wp _ (members_load _) _ _ => apply wp_members_load_rows; [intros ? ?|]
  | |- wp _ (members_save _ _) _ _ => eapply wp_members_save_rows; [eassumption| |intros ? ?]
  | |- wp _ (if decide _ then _ else _) _ _ => case_decide
  | |- wp _ (if ?b then _ else _) _ _ => destruct b eqn:?
  | |- wp _ (match ?x with _ => _ end) _ _ => destruct x eqn:?
  | |- wp _ _ _ _ => eapply wp_rows; [eassumption|solve [eauto 3 with moves typeclass_instances]|intros ? ? ? ?]
  end; cbv beta zeta.
Ltac capping := apply wp_capped; intros s; assert (capped s s) by reflexivity; repeat wp_row; try done.

(** Counting rows. *)
Lemma named_rows_app a b r : named_rows {| members := a ++ b; remote_members := r |}
  = named_rows {| members := a; remote_members := r |} + named_rows {| members := b; remote_members := r |}.
Proof. unfold named_rows. cbn. by rewrite List.filter_app, length_app. Qed.
Lemma named_rows_local a r r' :
  named_rows {| members := a; remote_members := r |} = named_rows {| members := a; remote_members := r' |}.
Proof. done. Qed.
Lemma named_rows_eta m r : named_rows {| members := members m; remote_members := r |} = named_rows m.
Proof. done. Qed.
Lemma named_rows_filter p l r r' : named_rows {| members := List.filter p l; remote_members := r |}
  <= named_rows {| members := l; remote_members := r' |}.
Proof.
  unfold named_rows. cbn. induction l as [|x l IH]; cbn; [done|].
  destruct (p x); cbn; destruct (names_principal x); cbn; lia.
Qed.
Lemma named_rows_counted m : named_rows m <= principal_rows m.
Proof.
  unfold named_rows, principal_rows, names_principal, member_subject. induction (members m) as [|row l IH]; cbn; [done|].
  destruct (actor_from_str row) as [a|]; [|cbn; lia]. destruct (is_principal a); cbn; lia.
Qed.
Lemma named_rows_length m : named_rows m <= length (members m).
Proof. unfold named_rows. apply filter_length_le. Qed.

Section Capped.
Context `{J : EventJson} (cfg : ChannelConfig) (rfc3339 : Z -> string) (lower debug sha256 : string -> string).

Lemma add_remote_capped ch r p : moves capped (add_remote_member cfg ch r p).
Proof. unfold add_remote_member. capping. rewrite named_rows_eta. lia. Qed.
Lemma replace_route_capped ch d r : moves capped (replace_peer_route cfg ch d r).
Proof. unfold replace_peer_route. capping. rewrite named_rows_eta. lia. Qed.
Lemma short_rows l r : length l <= FAN_OUT_CAP -> named_rows {| members := l; remote_members := r |} <= FAN_OUT_CAP.
Proof. intros H. etrans; [apply named_rows_length|done]. Qed.
Lemma create_capped p opts minted u now : moves capped (create cfg rfc3339 p opts minted u now).
Proof.
  unfold create. capping. etrans; [apply short_rows|apply Nat.le_max_l]. unfold FAN_OUT_CAP. cbn. lia.
Qed.
Lemma human_dm_capped h p ch name account now : moves capped (ensure_human_dm cfg rfc3339 h p ch name account now).
Proof.
  unfold ensure_human_dm. capping. etrans; [apply short_rows|apply Nat.le_max_l]. unfold FAN_OUT_CAP. cbn. lia.
Qed.
Lemma leave_capped ch a now : moves capped (leave_actor cfg rfc3339 ch a now).
Proof.
  unfold leave_actor. capping.
  all: etrans; [eapply (named_rows_filter _ (members m) _ (remote_members m))|]; rewrite named_rows_eta; lia.
Qed.
(** An actor that is no principal has no row that reads as one. *)
Lemma row_names_principal a : names_principal (member_row a) = true -> is_principal a = true.
Proof.
  unfold names_principal, member_row. destruct (actor_route a) as [r|] eqn:Hr; [|by destruct a].
  rewrite (canonical_address_kind a r Hr). unfold actor_from_str. rewrite decide_False by (by destruct a).
  rewrite split_kind. case_decide; [done|]. by destruct a.
Qed.
(** The one place that counts. *)
Lemma invite_capped ch by_ a u now : moves capped (invite cfg rfc3339 ch by_ a u now).
Proof.
  unfold invite. capping. rewrite named_rows_app, named_rows_eta.
  pose proof (named_rows_counted m) as Hc. unfold named_rows at 2. cbn [members List.filter].
  destruct (names_principal (member_row x0)) eqn:Hp; cbn; [|lia].
  rewrite (row_names_principal _ Hp) in Heqb2. apply Nat.leb_gt in Heqb2. lia.
Qed.
Lemma rows_of_others_sublist {A} i (name : A -> string) l s x s' :
  rows_of_others i name l s = (Ok x, s') -> x `sublist_of` l.
Proof.
  revert s x s'. induction l as [|r l IH]; intros s x s'; cbn [rows_of_others]; [by intros [= <- _]|].
  unfold mbind, M_bind. destruct (info_of _ s) as [[j|] s1]; [|done].
  destruct (rows_of_others i name l s1) as [[rest|] s2] eqn:E; [|done]. apply IH in E.
  intros [= <- _]. destruct (_ || _); by constructor.
Qed.
Lemma named_rows_sublist l l' r r' : l `sublist_of` l' ->
  named_rows {| members := l; remote_members := r |} <= named_rows {| members := l'; remote_members := r' |}.
Proof. unfold named_rows. cbn. induction 1; cbn; try lia; destruct (names_principal x); cbn; lia. Qed.
Lemma wp_others s0 i l Q s :
  capped s0 s ->
  (forall x s', capped s0 s' -> (forall k, rows_at s' k = rows_at s k) -> x `sublist_of` l -> Q x s') ->
  wp (capped s0) (rows_of_others i (fun row => row) l) Q s.
Proof.
  intros C HQ. pose proof (wp_rows s0 (rows_of_others i (fun row => row) l) (fun _ s' => capped s0 s' /\ forall k, rows_at s' k = rows_at s k)
    s C (rows_others _ _ _)) as H.
  unfold wp in *. destruct (rows_of_others _ _ l s) as [[x|e] s'] eqn:E; [|by apply H].
  destruct H as [H1 H2]; [done|]. apply HQ; [done..|]. by eapply rows_of_others_sublist.
Qed.
Lemma append_remote_capped ch ev : moves capped (append_remote_event cfg ch ev).
Proof.
  unfold append_remote_event. apply wp_capped. intros s. assert (capped s s) by reflexivity.
  repeat (lazymatch goal with
          | |- wp _ (rows_of_others _ (fun row => row) _) _ _ => apply wp_others; [done|intros ? ? ? ? ?]
          | _ => wp_row
          end); try done.
  etrans; [by eapply (named_rows_sublist _ (members m) _ (remote_members m))|]. rewrite named_rows_eta.
  repeat match goal with H : forall k, rows_at _ k = _ |- _ => rewrite H in *; clear H end. lia.
Qed.
Lemma join_person_capped ch name creator roster account home now :
  moves capped (join_remote_person cfg rfc3339 ch name creator roster account home now).
Proof.
  unfold join_remote_person. capping.
  - match goal with |- context [if ?b then _ else _] => destruct b end; rewrite ?named_rows_app, ?named_rows_eta; [lia|].
    assert (E : forall r, named_rows {| members := [member_row local_user]; remote_members := r |} = 0) by reflexivity.
    rewrite E. lia.
  - etrans; [apply short_rows|apply Nat.le_max_l]. unfold FAN_OUT_CAP. cbn. lia.
Qed.
Lemma pin_capped ch : moves capped (pin_to_shared cfg ch).
Proof.
  intros s. unfold pin_to_shared. apply (wp_snd (capped s)).
  apply wp_bind, wp_try; [|reflexivity]. intros x Hx. apply wp_bind, wp_meta_load; [|reflexivity]. intros _ _.
  apply wp_bind. unfold wp, copy_data. cbv zeta. destruct x as [t n0].
  assert (t = Shared) as -> by (unfold channel_dir_for in *; destruct (shared_dir cfg); by simplify_eq).
  intros n. unfold rows_at. cbn [snd mret M_ret]. rewrite dir_at_with_dir, decide_False by done. lia.
Qed.
Lemma restore_capped ch rows posts : moves capped (restore_dm_copy cfg ch rows posts).
Proof.
  pose proof add_remote_capped. assert (forall {A} (c : M A), moves same_rows c -> moves capped c) as Hs.
  { intros A c H' s. by apply same_rows_capped. }
  unfold restore_dm_copy. apply moves_bind; [typeclasses eauto| |intros kind].
  - apply Hs. unfold conversation_kind. moving.
  - apply moves_decide; [|apply moves_adapter; typeclasses eauto].
    apply moves_bind; [typeclasses eauto|apply moves_each; [typeclasses eauto|intros; apply add_remote_capped]|].
    intros _. apply Hs, rows_synced.
Qed.

(** The calls that add a member without counting. *)
Definition uncounted (op : StoreOp) : bool :=
  match op with OJoinRemote _ _ _ _ _ _ _ _ _ | OEnsureDm _ _ _ _ _ => true | _ => false end.
Lemma step_capped op : uncounted op = false -> moves capped (store_step cfg rfc3339 lower debug sha256 op).
Proof.
  intros Hop. destruct op; try done; cbn [store_step]; try (apply done_moves; [typeclasses eauto|]); unfold set_wake, set_role, set_group_home;
    lazymatch goal with
    | |- moves _ (create _ _ _ _ _ _ _) => apply create_capped
    | |- moves _ (invite _ _ _ _ _ _ _) => apply invite_capped
    | |- moves _ (leave_actor _ _ _ _ _) => apply leave_capped
    | |- moves _ (ensure_human_dm _ _ _ _ _ _ _ _) => apply human_dm_capped
    | |- moves _ (add_remote_member _ _ _ _) => apply add_remote_capped
    | |- moves _ (replace_peer_route _ _ _ _) => apply replace_route_capped
    | |- moves _ (append_remote_event _ _ _) => apply append_remote_capped
    | |- moves _ (join_remote_person _ _ _ _ _ _ _ _ _) => apply join_person_capped
    | |- moves _ (pin_to_shared _ _) => apply pin_capped
    | |- moves _ (restore_dm_copy _ _ _ _) => apply restore_capped
    | |- moves _ (fun s => _) => intros s; by apply same_rows_capped
    | |- moves _ ?c => assert (moves same_rows c) as Hc by (eauto 3 with moves); intros s; by apply same_rows_capped
    end.
Qed.
End Capped.

(** ** Properties *)

(** C35. The fan-out of a channel stays within its cap: on a store grown from
    nothing by any operations but joining a copy and opening a DM, no channel
    of the runtime has more than eight rows that name a principal. *)
Theorem fan_out_within_cap (J : EventJson) (cfg : ChannelConfig) (rfc3339 : Z -> string) (lower debug sha256 : string -> string)
    (g : Registry) (ops : list StoreOp) (ch : ChannelId) :
  Forall (fun op => uncounted op = false) ops ->
  rows_at (store_run cfg rfc3339 lower debug sha256 (new_store g) ops) (channel_dir ch) <= FAN_OUT_CAP.
Proof.
  intros Hops. assert (H : capped (new_store g) (store_run cfg rfc3339 lower debug sha256 (new_store g) ops)).
  { generalize (new_store g). induction Hops as [|op ops Hop _ IH]; intros s; [reflexivity|].
    etrans; [by apply step_capped|apply IH]. }
  etrans; [apply (H (channel_dir_name ch))|]. apply Nat.max_lub; [done|]. unfold rows_at, dir_at. cbn.
  rewrite lookup_empty. cbn. lia.
Qed.

(** ** Examples *)

Import BinaryEvents.

Lemma fan_out_within_cap_witness :
  rows_at (Team.run Team.with_bob) (channel_dir Team.team) <= FAN_OUT_CAP.
Proof.
  apply (fan_out_within_cap BinaryEvents.json Team.cfg Team.clock id Team.quoted Team.digest (written []) Team.with_bob Team.team).
  repeat constructor.
Defined.

(** Joining does not count: a channel with eight principals refuses a ninth
    who is invited, and takes one who comes with another runtime's invitation. *)
Theorem joining_passes_the_cap :
  let invited := fun n => OInvite Team.team "alice" (principal_ref n) ("u" +:+ n) 2 in
  let full := Team.run (Team.by_alice ++ map invited ["b"; "c"; "d"; "e"; "f"; "g"; "h"]) in
  fst (invite Team.cfg Team.clock Team.team "alice" (principal_ref "i") "ui" 3 full) = Err (Fails (FanOutCap 8)) /\
  rows_at (snd (join_remote Team.cfg Team.clock Team.team "x" "team" [] "i" "did:key:zR" Group None 3 full))
    (channel_dir Team.team) = 9.
Proof. vm_compute. split; reflexivity. Qed.
