(* ===== verification/ChannelSync.v ===== *)
(** * ChannelSync: copies of a conversation catch up

    What the history operations of [ChannelCopies] promise a copy: paging
    backwards through a conversation collects it whole, and taking another
    copy's posts adds each of them once (peko-rs/channel/src/store.rs,
    [history_page], [history_page_since], [append_synced_events]). *)

From Stdlib Require Import ZArith Lia Ascii Sorting.Sorted.
From stdpp Require Import base tactics list gmap strings.
From S2P Require Import Prelude Text Subject ChannelWire Actors ChannelLog ChannelStore ChannelCopies ChannelHistory ChannelRoster.

Local Open Scope nat_scope.

(** ** Paging *)

(** A copy that fills backwards: the newest page, then the page before its
    oldest post, until there is no more. *)
Fixpoint backfill (fuel limit : nat) (posts : list ChannelEvent) (before : option string) : option (list ChannelEvent) :=
  match fuel with
  | O => None
  | S fuel =>
      let '(page, more) := page_of posts before None limit in
      if more : bool
      then match head page ≫= posted_msg_id with
           | Some id => rest ← backfill fuel limit posts (Some id); Some (rest ++ page)
           | None => None
           end
      else Some page
  end.

(** Every post has an id of its own. *)
Definition told_apart (posts : list ChannelEvent) : Prop :=
  Forall (fun ev => is_Some (posted_msg_id ev)) posts /\ NoDup (map posted_msg_id posts).

Lemma position_own (posts : list ChannelEvent) i ev id :
  NoDup (map posted_msg_id posts) -> posts !! i = Some ev -> posted_msg_id ev = Some id ->
  position (fun ev => bool_decide (posted_msg_id ev = Some id)) posts = Some i.
Proof.
  revert i. induction posts as [|x posts IH]; intros i Hn Hi Hid; [done|]. cbn [map] in Hn. apply NoDup_cons in Hn as [Hx Hn].
  cbn [position]. destruct i as [|i]; cbn in Hi; [injection Hi as ->; by rewrite Hid, bool_decide_true|].
  rewrite bool_decide_false.
  - rewrite (IH i) by done. done.
  - intros E. apply Hx. rewrite E, <- Hid. apply list_elem_of_In, in_map, list_elem_of_In. by eapply list_elem_of_lookup_2.
Qed.

Lemma backfill_from fuel limit posts i ev id :
  told_apart posts -> posts !! i = Some ev -> posted_msg_id ev = Some id -> i < fuel ->
  backfill fuel limit posts (Some id) = Some (take i posts).
Proof.
  intros [Hs Hn]. revert i ev id. induction fuel as [|fuel IH]; intros i ev id Hi Hid Hf; [lia|].
  cbn [backfill]. unfold page_of. cbn [mbind option_bind]. erewrite position_own by done.
  destruct (Nat.ltb_spec 0 (i - Nat.max limit 1)) as [Hm|Hm]; [|by replace (i - Nat.max limit 1) with 0 by lia].
  set (j := i - Nat.max limit 1) in *. assert (Hl : i < length posts) by (by apply lookup_lt_Some in Hi).
  destruct (lookup_lt_is_Some_2 posts j ltac:(lia)) as [e He].
  rewrite Forall_lookup in Hs. destruct (Hs _ _ He) as [eid Heid].
  assert (Hh : head (drop j (take i posts)) = Some e).
  { rewrite head_lookup, lookup_drop, lookup_take_lt by lia. by rewrite Nat.add_0_r. }
  rewrite Hh. cbn [mbind option_bind]. rewrite Heid. rewrite (IH j e) by (done || lia). cbn.
  f_equal. rewrite <- (take_drop j (take i posts)) at 2. f_equal. rewrite take_take. f_equal. lia.
Qed.

(** A copy that pages backwards from the newest post reaches the first one,
    and has then collected the whole conversation in order, once each,
    whatever the size of its pages. *)
Theorem backfill_collects_history (fuel limit : nat) (posts : list ChannelEvent) :
  told_apart posts -> length posts < fuel -> backfill fuel limit posts None = Some posts.
Proof.
  intros Ha Hf. destruct fuel as [|fuel]; [lia|]. cbn [backfill]. unfold page_of. cbn [mbind option_bind].
  destruct (Nat.ltb_spec 0 (length posts - Nat.max limit 1)) as [Hm|Hm].
  2: { replace (length posts - Nat.max limit 1) with 0 by lia. cbn. by rewrite take_ge. }
  set (j := length posts - Nat.max limit 1) in *. destruct (lookup_lt_is_Some_2 posts j ltac:(lia)) as [e He].
  pose proof Ha as [Hs _]. rewrite Forall_lookup in Hs. destruct (Hs _ _ He) as [eid Heid].
  rewrite take_ge, head_lookup, lookup_drop, Nat.add_0_r, He by lia. cbn [mbind option_bind]. rewrite Heid.
  rewrite (backfill_from _ _ _ j e) by (done || lia). cbn. by rewrite take_drop.
Qed.

(** ** Taking another copy's posts *)

Lemma leb_trans_str a b c : String.leb a b = true -> String.leb b c = true -> String.leb a c = true.
Proof.
  unfold String.leb. revert b c. induction a as [|x a IH]; intros [|y b] [|z c]; cbn; try done.
  specialize (IH b c). unfold Ascii.compare.
  destruct (N.compare_spec (N_of_ascii x) (N_of_ascii y)), (N.compare_spec (N_of_ascii y) (N_of_ascii z)),
    (N.compare_spec (N_of_ascii x) (N_of_ascii z)); try done; try lia.
Qed.
Lemma by_time_sorted l : StronglySorted (fun a b => by_time a b = true) (sort_by by_time l).
Proof.
  apply sort_by_sorted; unfold by_time; [intros a b; apply String.leb_total|intros a b c; apply leb_trans_str].
Qed.

Section Sync.
Context `{J : EventJson} `{!EventJsonLaws J} (cfg : ChannelConfig).

Lemma each_append_at k l s evs m : holds_log s k evs -> meta_of s k = Some m ->
  exists ns s', each (fun ev => append_to cfg k ev VerifiedRemote) l s = (Ok ns, s') /\
    holds_log s' k (evs ++ map (pair VerifiedRemote) l) /\ registry s' = registry s /\
    (forall k', meta_of s' k' = meta_of s k') /\ (forall k', members_at s' k' = members_at s k').
Proof.
  revert s evs. induction l as [|ev l IH]; intros s evs He Hm.
  { exists [], s. cbn. by rewrite app_nil_r. }
  cbn [each]. destruct (append_to_holds cfg s k ev VerifiedRemote evs He) as [A1 A2].
  destruct (append_to_files cfg s k ev VerifiedRemote) as (F1 & _ & F3 & F4).
  destruct (append_to cfg k ev VerifiedRemote s) as [r s1] eqn:E. cbn [fst snd] in *. subst r.
  destruct (IH s1 _ A2) as (ns & s' & E' & H1 & H2 & H3 & H4); [by rewrite F3|].
  exists (length evs :: ns), s'. erewrite bind_at by exact E. erewrite bind_at by exact E'. split_and!; [done|..].
  - by rewrite <- app_assoc in H1.
  - by rewrite H2.
  - intros k'. by rewrite H3.
  - intros k'. by rewrite H4.
Qed.

(** The ids of the posts a log holds. *)
Definition ids_of (evs : list (EventOrigin * ChannelEvent)) : list string := omap (fun x => posted_msg_id (snd x)) evs.

Lemma numbered_events norm base evs :
  map snd (map shown (numbered norm base evs)) = map (fun x => norm (snd x)) evs.
Proof.
  revert base. induction evs as [|x evs IH]; intros base; [done|]. rewrite numbered_cons. cbn. by rewrite IH.
Qed.
Lemma all_events_at s k evs : holds_log s k evs ->
  exists s', all_events k s = (Ok (map (fun x => normalize_event s (snd x)) evs), s') /\ quiet s s'.
Proof.
  intros He. pose proof He as [H1 H2 _ H4]. unfold all_events, mbind, M_bind.
  pose proof (reading_quiet k (fun norm d c => read_events norm d c "") s (read_events_sound "")) as Hq.
  pose proof (read_all_clean (normalize_event s) _ _ evs H1 H2 H4) as Hr. unfold reading in *.
  destruct (read_events _ _ _ _) as [r c]. cbn [fst snd] in *. subst r. cbn [fails].
  eexists. split; [|exact Hq]. by rewrite <- (numbered_events _ 0).
Qed.
Lemma ids_normalized s evs : omap posted_msg_id (map (fun x => normalize_event s (snd x)) evs) = ids_of evs.
Proof.
  induction evs as [|x evs IH]; [done|]. cbn [map]. unfold ids_of in *. cbn [omap list_omap].
  rewrite normalized_id. destruct (posted_msg_id (snd x)); [f_equal|]; exact IH.
Qed.

(** What a batch of posts adds to a log with these ids. *)
Definition missing (known : list string) (events : list ChannelEvent) : list ChannelEvent :=
  dedup_ids None (sort_by by_time (fresh_posts known events)).

Lemma synced_at s ch m evs events :
  meta_of s (channel_dir ch) = Some m -> meta_tier m = Runtime -> holds_log s (channel_dir ch) evs ->
  let fresh := missing (ids_of evs) events in
  exists s', append_synced_events cfg ch events s = (Ok (length fresh), s') /\
    holds_log s' (channel_dir ch) (evs ++ map (pair VerifiedRemote) fresh) /\ registry s' = registry s /\
    (forall k', meta_of s' k' = meta_of s k') /\ (forall k', members_at s' k' = members_at s k').
Proof.
  intros Hm Ht He. cbn zeta. unfold append_synced_events. erewrite bind_at by (by eapply resolve_at).
  destruct (all_events_at s _ evs He) as (s1 & E1 & Q). erewrite bind_at by exact E1. rewrite ids_normalized.
  fold (missing (ids_of evs) events). pose proof (quiet_files _ _ Q) as (F1 & _ & F3 & F4).
  destruct (each_append_at (channel_dir ch) (missing (ids_of evs) events) s1 evs m) as (ns & s' & E2 & H1 & H2 & H3 & H4);
    [by apply (q_log _ _ Q)|by rewrite F3|].
  exists s'. erewrite bind_at by exact E2. split_and!; [done|done|by rewrite H2|intros k'; by rewrite H3|intros k'; by rewrite H4].
Qed.

(** *** Batches by the ids of their posts *)

Lemma fresh_posts_ids known events ev :
  ev ∈ fresh_posts known events -> ev ∈ events /\ exists id, posted_msg_id ev = Some id /\ id ∉ known.
Proof.
  unfold fresh_posts. rewrite !list_elem_of_In, filter_In. intros [H1 H2]. split; [done|].
  destruct (posted_msg_id ev) as [id|]; [|done]. exists id. split; [done|]. intros Hin.
  apply negb_true_iff in H2. apply Bool.not_true_iff_false in H2. apply H2, existsb_exists. exists id.
  rewrite <- list_elem_of_In. by rewrite String.eqb_refl.
Qed.
Lemma fresh_posts_all known events id :
  id ∈ omap posted_msg_id events -> id ∉ known -> id ∈ omap posted_msg_id (fresh_posts known events).
Proof.
  rewrite !list_elem_of_omap. intros (ev & Hev & Hid) Hk. exists ev. split; [|done].
  unfold fresh_posts. rewrite list_elem_of_In in *. apply filter_In. split; [done|]. rewrite Hid. apply negb_true_iff.
  apply Bool.not_true_iff_false. intros (x & Hx & ->%String.eqb_eq)%existsb_exists. by rewrite <- list_elem_of_In in Hx.
Qed.
(** The ids [dedup_ids] leaves: of equal neighbours the first. *)
Fixpoint dedup_of (last : option string) (ids : list string) : list string :=
  match ids with
  | [] => []
  | x :: ids => if decide (last = Some x) then dedup_of last ids else x :: dedup_of (Some x) ids
  end.
Lemma dedup_ids_of last l : Forall (fun ev => is_Some (posted_msg_id ev)) l ->
  omap posted_msg_id (dedup_ids last l) = dedup_of last (omap posted_msg_id l).
Proof.
  intros Hl. revert last. induction Hl as [|e l [id Hid] Hl IH]; intros last; [done|].
  cbn [dedup_ids]. cbn [omap list_omap]. rewrite Hid. cbn [dedup_of].
  assert (E : bool_decide (is_Some last) && bool_decide (Some id = last) = bool_decide (last = Some id)).
  { destruct last as [x|]; cbn; [|by rewrite bool_decide_false]. apply bool_decide_ext. split; congruence. }
  rewrite E. destruct (decide (last = Some id)) as [->|Hne].
  - rewrite bool_decide_true by done. apply IH.
  - rewrite bool_decide_false by done. cbn [omap list_omap]. rewrite Hid. f_equal. apply IH.
Qed.
Lemma dedup_of_in last ids x : x ∈ dedup_of last ids \/ last = Some x <-> x ∈ ids \/ last = Some x.
Proof.
  revert last. induction ids as [|y ids IH]; intros last; cbn [dedup_of]; [done|].
  destruct (decide (last = Some y)) as [->|Hne].
  - rewrite IH, elem_of_cons. split; [intuition|]. intros [[->|?]|?]; auto.
  - rewrite !elem_of_cons. specialize (IH (Some y)).
    split.
    + intros [[->|Hx]|?]; [auto| |auto]. destruct (proj1 IH (or_introl Hx)) as [?|[= ->]]; auto.
    + intros [[->|Hx]|?]; [auto| |auto]. destruct (proj2 IH (or_introl Hx)) as [?|[= ->]]; auto.
Qed.
Lemma dedup_ids_subset last l ev : ev ∈ dedup_ids last l -> ev ∈ l.
Proof.
  revert last. induction l as [|e l IH]; intros last; cbn [dedup_ids]; [done|].
  destruct (_ && _); rewrite ?elem_of_cons; [intros H; right; by eapply IH|]. intros [->|H]; [by left|right; by eapply IH].
Qed.
(** The occurrences of each id stand together. *)
Fixpoint repeats_adjacent (ids : list string) : Prop :=
  match ids with
  | x :: ((y :: _) as rest) => (y = x \/ x ∉ rest) /\ repeats_adjacent rest
  | _ => True
  end.
#[export] Instance repeats_adjacent_dec ids : Decision (repeats_adjacent ids).
Proof. induction ids as [|x [|y l] IH]; cbn [repeats_adjacent]; try apply _; by left. Defined.
Lemma dedup_of_distinct ids : NoDup (dedup_of None ids) <-> repeats_adjacent ids.
Proof.
  destruct ids as [|x ids]; [split; [done|constructor]|]. cbn [dedup_of]. rewrite decide_False by done.
  revert x. induction ids as [|y ids IH]; intros x; [split; [done|intros _; apply NoDup_singleton]|].
  cbn [repeats_adjacent dedup_of]. destruct (decide (Some x = Some y)) as [[= ->]|Hne].
  - rewrite IH. cbn [repeats_adjacent]. intuition.
  - rewrite NoDup_cons, IH. pose proof (dedup_of_in (Some y) ids x) as Hi. rewrite !elem_of_cons.
    assert (y <> x) by congruence. assert (Some y <> Some x) by congruence. intuition congruence.
Qed.

Lemma fresh_some known events : Forall (fun ev => is_Some (posted_msg_id ev)) (sort_by by_time (fresh_posts known events)).
Proof. apply Forall_forall. intros ev Hev. rewrite sort_by_perm in Hev. apply fresh_posts_ids in Hev as (_ & x & -> & _). by eexists. Qed.
(** What a batch adds, by ids, to a log that has [known]. *)
Lemma missing_ids known events id :
  id ∈ omap posted_msg_id (missing known events) <-> id ∈ omap posted_msg_id events /\ id ∉ known.
Proof.
  unfold missing. rewrite dedup_ids_of.
  2: apply fresh_some.
  pose proof (dedup_of_in None (omap posted_msg_id (sort_by by_time (fresh_posts known events))) id) as Hd.
  assert (Hs : id ∈ omap posted_msg_id (sort_by by_time (fresh_posts known events)) <-> id ∈ omap posted_msg_id (fresh_posts known events))
    by (by rewrite sort_by_perm).
  split.
  - intros H. destruct (proj1 Hd (or_introl H)) as [H1|]; [|done]. apply Hs, list_elem_of_omap in H1 as (ev & Hev & Hid).
    apply fresh_posts_ids in Hev as (Hev & id' & Hid' & Hno). split; [apply list_elem_of_omap; eauto|congruence].
  - intros [H1 H2]. destruct (proj2 Hd) as [?|]; [|done..]. left. by apply Hs, fresh_posts_all.
Qed.
Lemma missing_none known events : (forall id, id ∈ omap posted_msg_id events -> id ∈ known) -> missing known events = [].
Proof.
  intros Hk. unfold missing. destruct (fresh_posts known events) as [|ev l] eqn:Ef; [done|]. exfalso.
  destruct (fresh_posts_ids known events ev) as (Hev & id & Hid & Hno); [rewrite Ef; left|].
  apply Hno, Hk, list_elem_of_omap. eauto.
Qed.
Lemma ids_of_added evs fresh : ids_of (evs ++ map (pair VerifiedRemote) fresh) = ids_of evs ++ omap posted_msg_id fresh.
Proof.
  unfold ids_of. rewrite omap_app. f_equal. induction fresh as [|e l IH]; [done|]. cbn.
  destruct (posted_msg_id e); [f_equal|]; exact IH.
Qed.
Lemma missing_ordered known events : StronglySorted (fun a b => by_time a b = true) (missing known events).
Proof.
  unfold missing. generalize (@None string) (by_time_sorted (fresh_posts known events)).
  generalize (sort_by by_time (fresh_posts known events)). intros l last Hs. revert last.
  induction Hs as [|e l Hs IH He]; intros last; cbn [dedup_ids]; [constructor|]. destruct (_ && _); [apply IH|].
  constructor; [apply IH|]. apply Forall_forall. intros x Hx%dedup_ids_subset. rewrite Forall_forall in He. auto.
Qed.
End Sync.

(** C33. Whatever another copy sends, a batch of posts adds to this copy's log
    exactly posts of the batch whose ids the copy lacked, oldest first, and no
    id of the batch stays missing; the number returned is how many were added,
    nothing else of the store changes, and the same batch again adds nothing.
    When the copy had no id twice, it has none twice afterwards exactly if the
    repeats of each new id stand together in the batch ordered by time. *)
Theorem sync_adds_each_once (J : EventJson) (cfg : ChannelConfig) (s : Store) (ch : ChannelId) (m : MetaJson)
    (evs : list (EventOrigin * ChannelEvent)) (events : list ChannelEvent) :
  EventJsonLaws J ->
  meta_of s (channel_dir ch) = Some m -> meta_tier m = Runtime -> holds_log s (channel_dir ch) evs ->
  let '(r, s') := append_synced_events cfg ch events s in
  exists fresh,
    let evs' := evs ++ map (pair VerifiedRemote) fresh in
    r = Ok (length fresh) /\ holds_log s' (channel_dir ch) evs' /\
    (forall ev, ev ∈ fresh -> ev ∈ events /\ exists id, posted_msg_id ev = Some id /\ id ∉ ids_of evs) /\
    (forall id, id ∈ ids_of evs' <-> id ∈ ids_of evs \/ id ∈ omap posted_msg_id events) /\
    StronglySorted (fun a b => by_time a b = true) fresh /\
    (NoDup (ids_of evs) ->
       NoDup (ids_of evs') <->
       repeats_adjacent (omap posted_msg_id (sort_by by_time (fresh_posts (ids_of evs) events)))) /\
    (forall k', meta_of s' k' = meta_of s k' /\ members_at s' k' = members_at s k') /\
    fst (append_synced_events cfg ch events s') = Ok 0.
Proof.
  intros L Hm Ht He. destruct (synced_at cfg s ch m evs events Hm Ht He) as (s' & E & H1 & _ & H3 & H4).
  rewrite E. exists (missing (ids_of evs) events). cbn zeta. rewrite ids_of_added.
  assert (Hsome : forall ev, ev ∈ missing (ids_of evs) events -> ev ∈ events /\ exists id, posted_msg_id ev = Some id /\ id ∉ ids_of evs).
  { intros ev Hev%dedup_ids_subset. rewrite sort_by_perm in Hev. by apply fresh_posts_ids. }
  assert (Hall : forall id, id ∈ ids_of evs ++ omap posted_msg_id (missing (ids_of evs) events)
                            <-> id ∈ ids_of evs \/ id ∈ omap posted_msg_id events).
  { intros id. rewrite elem_of_app, missing_ids. destruct (decide (id ∈ ids_of evs)); tauto. }
  split_and!; try done.
  - apply missing_ordered.
  - intros Hold. rewrite NoDup_app, <- dedup_of_distinct, <- dedup_ids_of; [|by apply fresh_some].
    split; [tauto|]. intros Hn. split_and!; [done| |done]. intros id Hid (_ & Hno)%missing_ids. done.
  - destruct (synced_at cfg s' ch m (evs ++ map (pair VerifiedRemote) (missing (ids_of evs) events)) events) as (s2 & E2 & _);
      [by rewrite H3|done|exact H1|]. rewrite E2. cbn [fst]. rewrite ids_of_added.
    by rewrite missing_none by (intros id Hid; apply Hall; by right).
Qed.

(** ** Examples *)

Import BinaryEvents.

Module Copies.
Definition post (id at_ : string) : ChannelEvent :=
  Posted {| p_channel := Team.team; p_author := "user:local:local"; p_parent := None; p_text := id; p_at := at_; p_via := None;
            p_msg_id := Some id; p_reply_to := None; p_attachments := []; p_options := []; p_model := None |}.
Definition talk : list ChannelEvent := [post "a" "t1"; post "b" "t2"; post "c" "t3"].
Definition opened : EventOrigin * ChannelEvent := (LocalOrigin, Created Team.team "alice" "team" "t1").
End Copies.

Lemma backfill_collects_history_witness : backfill 4 1 Copies.talk None = Some Copies.talk.
Proof.
  apply (backfill_collects_history 4 1 Copies.talk); [|vm_compute; lia]. split.
  - repeat constructor; by eexists.
  - apply (bool_decide_eq_true_1 _). vm_compute. reflexivity.
Defined.

(** A batch that has a post twice adds it twice when another post with the
    same time stands between: only neighbours are compared. *)
Theorem batch_repeats_are_kept :
  let batch := [Copies.post "a" "t1"; Copies.post "b" "t1"; Copies.post "a" "t1"] in
  fst (append_synced_events Team.cfg Team.team batch (Team.run Team.by_alice)) = Ok 3.
Proof. vm_compute. reflexivity. Qed.

(** An unknown cursor reads as the newest page, except forwards for a member
    who sees only part of the history: then it is the oldest. *)
Theorem unknown_cursor_oldest_page :
  fst (page_of Copies.talk None (Some "gone") 1) = [Copies.post "c" "t3"] /\
  fst (page_since Copies.talk None (Some "gone") 1 "t1") = [Copies.post "a" "t1"].
Proof. vm_compute. split; reflexivity. Qed.

(** The posts of the talk with one of them twice, out of order: each gets in
    once. *)
Lemma sync_adds_each_once_witness :
  let batch := [Copies.post "c" "t3"; Copies.post "a" "t1"; Copies.post "b" "t2"; Copies.post "a" "t1"] in
  fst (append_synced_events Team.cfg Team.team batch (Team.run Team.by_alice)) = Ok 3 /\
  fst (append_synced_events Team.cfg Team.team batch
         (snd (append_synced_events Team.cfg Team.team batch (Team.run Team.by_alice)))) = Ok 0 /\
  exists evs, holds_log (snd (append_synced_events Team.cfg Team.team batch (Team.run Team.by_alice))) (channel_dir Team.team) evs /\
    NoDup (ids_of evs).
Proof.
  cbn zeta. set (batch := [Copies.post "c" "t3"; _; _; _]).
  pose proof (sync_adds_each_once json Team.cfg (Team.run Team.by_alice) Team.team team_meta [created] batch
    json_laws alice_meta eq_refl alice_holds) as H.
  destruct (append_synced_events Team.cfg Team.team batch (Team.run Team.by_alice)) as [r s'] eqn:E. cbn [fst snd].
  destruct H as (fresh & _ & Hl & _ & _ & _ & Hn & _ & H). split_and!.
  - vm_compute in E. injection E as <- _. reflexivity.
  - exact H.
  - eexists. split; [exact Hl|]. apply Hn; [vm_compute; constructor|].
    apply (bool_decide_eq_true_1 _). vm_compute. reflexivity.
Defined.
