(* ===== verification/ChannelSubscriber.v ===== *)
(** * ChannelSubscriber: who has seen what

    The per-channel positions (peko-rs/channel/src/cursors.rs, read_marks.rs,
    attention.rs and the store's operations on them) and one member's
    subscription (subscription.rs, responder.rs): a poll reads the log from the
    member's cursor, hands each event to the responder and moves the cursor. *)

From Stdlib Require Import ZArith Lia Ascii Sorting.Sorted.
From stdpp Require Import base tactics list gmap strings.
From S2P Require Import Prelude Text Subject ChannelWire Actors ChannelLog ChannelStore ChannelCopies ChannelHistory ChannelRoster.

Local Open Scope nat_scope.
Open Scope rust_scope.

(** ** Positions *)

(** Whether a stored numeric position is at or past a new one. *)
Definition behind (stored : option TaskId) (new : TaskId) : bool :=
  match stored with
  | Some old => match parse_usize old, parse_usize new with Some old, Some new => Z.leb new old | _, _ => false end
  | None => false
  end.
Notation "'Positions'" := (gmap string TaskId) (only parsing).

(** [advance_read_mark] on the file's marks. *)
Definition read_marks_load (f : File Positions) : result Positions ChannelError :=
  match f with Absent => Ok ∅ | Holds m => Ok m | Garbled why => Err (CursorError ("decode " +:+ why)) end.
Definition advance_mark (f : File Positions) (session_key : string) (mark : TaskId) : result (File Positions) ChannelError :=
  marks <-? read_marks_load f;
  Ok (if behind (marks !! session_key) mark then f else Holds (<[session_key := mark]> marks)).
Definition mark_of (f : File Positions) (session_key : string) : result (option TaskId) ChannelError :=
  marks <-? read_marks_load f; Ok (marks !! session_key).

(** [ChannelCursors::save_member]: an unreadable file is started over. *)
Definition save_member (f : File Positions) (principal : string) (task : TaskId) : File Positions :=
  let on_disk := match read_marks_load f with Ok m => m | Err _ => ∅ end in
  if behind (on_disk !! principal) task then f else Holds (<[principal := task]> on_disk).

(** [ChannelAttention]. *)
Record AttentionItem := { ai_id : TaskId; ai_author : string; ai_at : string; ai_preview : string }.
#[export] Instance AttentionItem_eq_dec : EqDecision AttentionItem.
Proof. solve_decision. Defined.
Definition MAX_WAITING_PER_CHANNEL : nat := 50.
Notation "'Waiting'" := (gmap string (list AttentionItem)) (only parsing).
Definition attention_get (w : Waiting) (session_key : string) : list AttentionItem := default [] (w !! session_key).
Definition attention_set (w : Waiting) (session_key : string) (items : list AttentionItem) : Waiting :=
  match items with
  | [] => delete session_key w
  | _ => <[session_key := drop (length items - MAX_WAITING_PER_CHANNEL) items]> w
  end.
Definition attention_load (f : File Waiting) : result Waiting ChannelError :=
  match f with Absent => Ok ∅ | Holds m => Ok m | Garbled why => Err (CursorError ("decode " +:+ why)) end.
Definition set_attention (f : File Waiting) (session_key : string) (items : list AttentionItem) : result (File Waiting) ChannelError :=
  w <-? attention_load f;
  Ok (if decide (attention_get w session_key = items) then f else Holds (attention_set w session_key items)).

(** Where these files are: beside a channel's metadata, the runtime's first. *)
Definition channel_dir_for_marks (cfg : ChannelConfig) (channel : ChannelId) : M DirKey :=
  meta ← caught (meta_load (channel_dir channel) channel);
  match meta with
  | Ok _ => mret (channel_dir channel)
  | Err (NotFound _) =>
      if shared_dir cfg
      then _ ← meta_load (Shared, channel_dir_name channel) channel; mret (Shared, channel_dir_name channel)
      else failure (NotFound channel)
  | Err e => failure e
  end.

(** ** Mentions *)

(** [mentions]: the name after an at-sign, as a word of its own.  Lower case and
    what a letter or digit is are Unicode's. *)
Section Mentions.
Context (lower : string -> string) (alphanumeric : string -> bool).

Definition word_char (c : string) : bool := alphanumeric c || String.eqb c "_" || String.eqb c "-".
(** The non-overlapping places of [needle], each with the text before and after. *)
Fixpoint mention_at (fuel : nat) (needle before text : string) : bool :=
  match fuel with
  | O => false
  | S fuel =>
      match text with
      | EmptyString => false
      | String c rest =>
          match strip_prefix needle text with
          | Some after =>
              (match last (chars before) with
               | Some c => negb (word_char c) && negb (String.eqb c "@")
               | None => true
               end && match head (chars after) with Some c => negb (word_char c) | None => true end)
              || mention_at fuel needle (before +:+ needle) after
          | None => mention_at fuel needle (before +:+ String c "") rest
          end
      end
  end.
Definition mentions (text name : string) : bool :=
  let name := lower (trim name) in
  if decide (name = "") then false
  else let text := lower text in mention_at (S (String.length text)) ("@" +:+ name) "" text.
End Mentions.

(** ** One member's subscription *)

Section Subscriber.
Context `{J : EventJson} (cfg : ChannelConfig) (channel : ChannelId) (principal : string)
  (respond : TaskId -> ChannelEvent -> result unit ChannelError).

(** The in-memory cursors, the file, and the responder's calls so far. *)
Record Subscriber := { cursors : Positions; cursor_file : File Positions; considered : list (TaskId * ChannelEvent) }.

(** The calls made before the first that fails, and how it ended. *)
Fixpoint deliver (items : list (TaskId * ChannelEvent)) : list (TaskId * ChannelEvent) * result (list ChannelEvent) ChannelError :=
  match items with
  | [] => ([], Ok [])
  | (id, ev) :: items =>
      match respond id ev with
      | Err e => ([(id, ev)], Err e)
      | Ok _ => let '(calls, r) := deliver items in ((id, ev) :: calls, evs <-? r; Ok (ev :: evs))
      end
  end.

Definition tick_once (sub : Subscriber) (s : Store) : result (list ChannelEvent) Fault * Subscriber * Store :=
  let since := default "" (cursors sub !! principal) in
  match peek_with_ids cfg channel since s with
  | (Err f, s') => (Err f, sub, s')
  | (Ok items, s') =>
      let '(calls, r) := deliver items in
      let heard := considered sub ++ calls in
      match r with
      | Err e => (Err (Fails e), {| cursors := cursors sub; cursor_file := cursor_file sub; considered := heard |}, s')
      | Ok [] => (Ok [], {| cursors := cursors sub; cursor_file := cursor_file sub; considered := heard |}, s')
      | Ok delivered =>
          let high := dec (default 0%Z (parse_usize since) + Z.of_nat (length delivered)) in
          (Ok delivered,
           {| cursors := <[principal := high]> (cursors sub);
              cursor_file := save_member (cursor_file sub) principal high;
              considered := heard |}, s')
      end
  end.
End Subscriber.

(** ** Rounds of a running subscription *)

Section Rounds.
Context `{J : EventJson} `{!EventJsonLaws J} (cfg : ChannelConfig) (rfc3339 : Z -> string) (lower debug sha256 : string -> string)
  (channel : ChannelId) (principal : string) (respond : TaskId -> ChannelEvent -> result unit ChannelError).

(** The store's operations between two polls, and a poll after each. *)
Fixpoint rounds (turns : list (list StoreOp)) (sub : Subscriber) (s : Store) : Subscriber * Store :=
  match turns with
  | [] => (sub, s)
  | ops :: turns =>
      let '(_, sub, s) := tick_once cfg channel principal respond sub (store_run cfg rfc3339 lower debug sha256 s ops) in
      rounds turns sub s
  end.

(** The subscriber has heard the first [n] events, in order, once each. *)
Record heard (sub : Subscriber) (n : nat) : Prop := {
  heard_ids : map fst (considered sub) = map task_id (seq 0 n);
  heard_cursor : default "" (cursors sub !! principal) = if decide (n = 0) then "" else task_id n;
}.

Context (willing : forall id ev, respond id ev = Ok ()).

Lemma deliver_all items : deliver respond items = (items, Ok (map snd items)).
Proof.
  induction items as [|[id ev] items IH]; [done|]. cbn [deliver]. rewrite willing, IH. done.
Qed.
Lemma shown_ids norm base evs : map fst (map shown (numbered norm base evs)) = map task_id (seq base (length evs)).
Proof.
  revert base. induction evs as [|x evs IH]; intros base; [done|]. rewrite numbered_cons. cbn. by rewrite IH.
Qed.
Lemma peek_since s m evs n (since : TaskId) :
  since = (if decide (n = 0) then "" else task_id n) ->
  meta_of s (channel_dir channel) = Some m -> meta_tier m = Runtime -> holds_log s (channel_dir channel) evs ->
  (Z.of_nat n <= u64_max)%Z ->
  exists s', peek_with_ids cfg channel since s
             = (Ok (map shown (drop n (numbered (normalize_event s) 0 evs))), s') /\ quiet s s'.
Proof.
  intros Hsince Hm Ht He Hn. pose proof He as [H1 H2 _ H4].
  pose proof (reading_quiet (channel_dir channel) (fun norm d c => read_events norm d c since) s (read_events_sound since)) as Hq.
  assert (Hr : fst (reading (channel_dir channel) (fun norm d c => read_events norm d c since) s)
               = Ok (map shown (drop n (numbered (normalize_event s) 0 evs)))).
  { unfold reading. assert (Hr : fst (read_events (normalize_event s) (log (dir_at s (channel_dir channel)))
                                         (counts_at s (channel_dir channel)) since)
                     = Ok (map shown (drop n (numbered (normalize_event s) 0 evs)))).
    { rewrite Hsince. case_decide; [subst; by rewrite drop_0, (read_all_clean _ _ _ evs)|by apply read_since_clean]. }
    destruct (read_events _ _ _ _) as [r c]. cbn in *. by subst r. }
  unfold peek_with_ids. erewrite bind_at by (by eapply resolve_at).
  destruct (reading _ _ s) as [r s']. cbn in Hr, Hq. subst r. by exists s'.
Qed.

Lemma drop_numbered norm n evs : n <= length evs ->
  map fst (map shown (drop n (numbered norm 0 evs))) = map task_id (seq n (length evs - n)).
Proof.
  intros Hn. rewrite <- !skipn_map, shown_ids, skipn_map, skipn_seq. done.
Qed.

(** A poll hears exactly what came since the last one. *)
Lemma tick_hears sub s m evs n :
  meta_of s (channel_dir channel) = Some m -> meta_tier m = Runtime -> holds_log s (channel_dir channel) evs ->
  heard sub n -> n <= length evs -> (Z.of_nat (length evs) <= u64_max)%Z ->
  let '(r, sub', s') := tick_once cfg channel principal respond sub s in
  r = Ok (map snd (map shown (drop n (numbered (normalize_event s) 0 evs)))) /\ heard sub' (length evs) /\ quiet s s'.
Proof.
  intros Hm Ht He [Hi Hc] Hn Hu. unfold tick_once. cbv zeta.
  destruct (peek_since s m evs n _ Hc Hm Ht He ltac:(lia)) as (s' & E & Q).
  rewrite E, deliver_all. pose proof (drop_numbered (normalize_event s) n evs Hn) as Hd.
  set (items := map shown (drop n (numbered (normalize_event s) 0 evs))) in *.
  assert (Hl : length items = length evs - n) by (rewrite <- (length_map fst), Hd, length_map; apply length_seq).
  assert (Hids : map fst (considered sub ++ items) = map task_id (seq 0 (length evs))).
  { rewrite map_app, Hi, Hd, <- map_app. f_equal. pose proof (seq_app n (length evs - n) 0) as E0. cbn in E0. rewrite <- E0. f_equal. lia. }
  clearbody items. destruct items as [|x l]; cbn [map].
  - split_and!; [done| |done]. cbn in Hl. assert (length evs = n) as E' by lia. split; cbn; [done|by rewrite E'].
  - split_and!; [done| |done]. split; cbn [considered cursors]; [done|]. rewrite lookup_insert_eq, decide_False by (cbn in Hl; lia).
    cbn [default from_option id]. unfold task_id. f_equal. cbn [length map]. rewrite length_map. cbn in Hl.
    rewrite Hc. case_decide as E0; [subst n; cbn; lia|]. rewrite parse_task_id by lia. cbn. lia.
Qed.

Lemma rounds_cons ops turns sub s :
  rounds (ops :: turns) sub s
  = let '(_, sub, s) := tick_once cfg channel principal respond sub (store_run cfg rfc3339 lower debug sha256 s ops) in
    rounds turns sub s.
Proof. done. Qed.
(** The log only grows, whatever the subscriber does. *)
Lemma tick_evolves sub s : evolves false s (snd (tick_once cfg channel principal respond sub s)).
Proof.
  apply calm_evolves. unfold tick_once. cbv zeta.
  pose proof (calm_peek_with_ids cfg channel (default "" (cursors sub !! principal)) s) as C.
  destruct (peek_with_ids _ _ _ s) as [[items|f] s']; [|exact C]. destruct (deliver respond items) as [calls [[|e l]|e]]; exact C.
Qed.
Lemma rounds_evolve turns sub s : evolves false s (snd (rounds turns sub s)).
Proof.
  revert sub s. induction turns as [|ops turns IH]; intros sub s; [reflexivity|]. cbn [rounds].
  pose proof (tick_evolves sub (store_run cfg rfc3339 lower debug sha256 s ops)) as T.
  destruct (tick_once _ _ _ _ _ _) as [[r sub1] s1]. etrans; [apply run_evolves|]. etrans; [exact T|apply IH].
Qed.

(** What the log holds is settled by its lines. *)
Lemma holds_unique s k a b : holds_log s k a -> holds_log s k b -> a = b.
Proof.
  intros [_ _ _ Ha] [_ _ _ Hb]. unfold clean in *. rewrite Ha in Hb. clear Ha. revert b Hb.
  induction a as [|x a IH]; intros [|y b] Hb; try done. injection Hb as Hx Hb. f_equal; [|by apply IH].
  pose proof (parse_encoded x) as Px. rewrite Hx, parse_encoded in Px. by injection Px.
Qed.

Lemma rounds_hear turns ops sub s m evs n :
  meta_of s (channel_dir channel) = Some m -> meta_tier m = Runtime -> holds_log s (channel_dir channel) evs ->
  heard sub n -> n <= length evs ->
  let '(sub', s') := rounds (ops :: turns) sub s in
  forall all, holds_log s' (channel_dir channel) all -> (Z.of_nat (length all) <= u64_max)%Z -> heard sub' (length all).
Proof.
  revert ops sub s m evs n. induction turns as [|ops' turns IH]; intros ops sub s m evs n Hm Ht He Hh Hn;
    pose proof (rounds_evolve) as Hev; rewrite rounds_cons;
    pose proof (run_evolves cfg rfc3339 lower debug sha256 s ops) as [M _ Lg];
    destruct (M _ _ Hm) as (m' & Hm' & S), (Lg _ _ He) as (more & He' & _); clear M Lg;
    set (s1 := store_run cfg rfc3339 lower debug sha256 s ops) in *;
    assert (Ht' : meta_tier m' = Runtime) by (by rewrite (sc_tier _ _ _ S));
    assert (Hn' : n <= length (evs ++ more)) by (rewrite length_app; lia);
    pose proof (tick_hears sub s1 m' (evs ++ more) n Hm' Ht' He' Hh Hn') as T;
    pose proof (tick_evolves sub s1) as [M1 _ L1];
    destruct (tick_once cfg channel principal respond sub s1) as [[r sub1] s2]; cbn [snd] in M1, L1;
    destruct (M1 _ _ Hm') as (m2 & Hm2 & S2), (L1 _ _ He') as (more2 & He2 & _); clear M1 L1.
  - cbn [rounds]. intros all Ha Hu. rewrite (holds_unique _ _ _ _ Ha He2) in *. rewrite length_app in Hu.
    destruct T as (_ & H2 & Q); [lia|]. rewrite (holds_unique _ _ _ _ He2 (q_log _ _ Q _ _ He')). done.
  - destruct (rounds (ops' :: turns) sub1 s2) as [sub' s'] eqn:E. intros all Ha Hu.
    pose proof (Hev (ops' :: turns) sub1 s2) as [_ _ L3]. rewrite E in L3. cbn [snd] in L3.
    destruct (L3 _ _ He2) as (more3 & He3 & _). pose proof (holds_unique _ _ _ _ Ha He3) as ->.
    rewrite !length_app in Hu. destruct T as (_ & H2 & Q); [rewrite length_app; lia|].
    pose proof (IH ops' sub1 s2 m2 (evs ++ more) (length (evs ++ more)) Hm2) as IH'. rewrite E in IH'.
    apply IH'; [by rewrite (sc_tier _ _ _ S2)|by apply (q_log _ _ Q)|done|done|done|rewrite !length_app; lia].
Qed.
End Rounds.

(** ** Properties *)


(** A numeric read mark or cursor only moves forward: what is kept for a session
    after it is set to a line is the larger of the two lines, and nobody
    else's changes. *)
Theorem positions_only_advance (f f' : File Positions) (marks : Positions) (k k' : string) (n : nat) (old : option nat) :
  read_marks_load f = Ok marks -> marks !! k = (task_id <$> old) ->
  (Z.of_nat n <= u64_max)%Z -> (forall o, old = Some o -> (Z.of_nat o <= u64_max)%Z) ->
  f' = save_member f k (task_id n) ->
  advance_mark f k (task_id n) = Ok f' /\
  mark_of f' k = Ok (Some (task_id (Nat.max (default 0 old) n))) /\
  (k' <> k -> mark_of f' k' = mark_of f k').
Proof.
  intros Hf Hk Hn Ho ->. unfold save_member, advance_mark, mark_of. rewrite Hf. cbn [rbind].
  assert (Hb : behind (marks !! k) (task_id n) = match old with Some o => Nat.leb n o | None => false end).
  { rewrite Hk. destruct old as [o|]; [|done]. cbn. rewrite !parse_task_id by auto.
    destruct (Nat.leb_spec n o), (Z.leb_spec (Z.of_nat n) (Z.of_nat o)); lia || done. }
  rewrite Hb. split; [done|]. destruct old as [o|]; cbn [default from_option id].
  - destruct (Nat.leb_spec n o).
    + rewrite Hf. cbn. rewrite Hk. split; [|done]. cbn. do 3 f_equal. lia.
    + cbn. rewrite lookup_insert_eq. split; [do 3 f_equal; lia|]. intros Hk'. by rewrite lookup_insert_ne.
  - cbn. rewrite lookup_insert_eq. split; [done|]. intros Hk'. by rewrite lookup_insert_ne.
Qed.

(** A session's waiting list keeps the newest fifty posts, and another
    session's list is not touched. *)
Theorem waiting_lists_bounded (f f' : File Waiting) (w w' : Waiting) (k k' : string) (items : list AttentionItem) :
  attention_load f = Ok w -> length (attention_get w k) <= MAX_WAITING_PER_CHANNEL ->
  set_attention f k items = Ok f' -> attention_load f' = Ok w' ->
  attention_get w' k = drop (length items - MAX_WAITING_PER_CHANNEL) items /\
  length (attention_get w' k) <= MAX_WAITING_PER_CHANNEL /\
  (k' <> k -> attention_get w' k' = attention_get w k').
Proof.
  intros Hf Hl Hs Hf'. unfold set_attention in Hs. rewrite Hf in Hs. cbn [rbind] in Hs. case_decide as Hi.
  - injection Hs as <-. rewrite Hf in Hf'. injection Hf' as <-. rewrite Hi in *. split_and!; [|done|done].
    by replace (length items - MAX_WAITING_PER_CHANNEL) with 0 by lia.
  - injection Hs as <-. cbn in Hf'. injection Hf' as <-.
    assert (E : attention_get (attention_set w k items) k = drop (length items - MAX_WAITING_PER_CHANNEL) items).
    { unfold attention_get, attention_set. destruct items as [|x items]; [by rewrite lookup_delete_eq|].
      by rewrite lookup_insert_eq. }
    rewrite E. split_and!; [done|rewrite length_drop; lia|]. intros Hk. unfold attention_get, attention_set.
    destruct items; [by rewrite lookup_delete_ne|by rewrite lookup_insert_ne].
Qed.

(** ** Examples *)

Import Team BinaryEvents.

Definition willing_ (_ : TaskId) (_ : ChannelEvent) : result unit ChannelError := Ok ().
Definition fresh_ : Subscriber := {| cursors := ∅; cursor_file := Absent; considered := [] |}.
Lemma polled_holds :
  holds_log (snd (rounds cfg clock id quoted digest team "bob" willing_ [[]] fresh_ (run by_alice))) (channel_dir team) [created].
Proof. holds. Qed.

Lemma positions_only_advance_witness :
  mark_of (save_member (Holds {["s" := task_id 7]}) "s" (task_id 3)) "s" = Ok (Some (task_id 7)).
Proof.
  apply (positions_only_advance (Holds {["s" := task_id 7]}) (save_member (Holds {["s" := task_id 7]}) "s" (task_id 3))
           {["s" := task_id 7]} "s" "t" 3 (Some 7));
    [reflexivity|reflexivity|vm_compute; discriminate|intros o [= <-]; vm_compute; discriminate|reflexivity].
Defined.

Definition item_ : AttentionItem := {| ai_id := "1"; ai_author := "a"; ai_at := "t"; ai_preview := "p" |}.
Lemma waiting_lists_bounded_witness : length (attention_get {["s" := replicate 50 item_]} "s") <= MAX_WAITING_PER_CHANNEL.
Proof.
  apply (waiting_lists_bounded Absent (Holds {["s" := replicate 50 item_]}) ∅ {["s" := replicate 50 item_]} "s" "t"
           (replicate 51 item_)); vm_compute; first [reflexivity | lia].
Defined.

(** A responder that refuses an event hears again, at the next poll, the events
    before it that it had already taken. *)
Theorem refused_event_repeats_earlier_ones :
  let picky := fun (id : TaskId) (_ : ChannelEvent) => if decide (id = "1") then Err NotMember else Ok () in
  let tick := tick_once cfg team "carol" picky in
  let '(r1, sub, s) := tick fresh_ (run with_bob) in
  let '(r2, sub, _) := tick sub s in
  r1 = Err (Fails NotMember) /\ r2 = Err (Fails NotMember) /\ map fst (considered sub) = ["0"; "1"; "0"; "1"].
Proof. vm_compute. split_and!; reflexivity. Qed.
