(* ===== verification/ChannelBook.v ===== *)
(** * ChannelBook: the person's side of the channel store

    The small files peko-rs/channel/src/store.rs keeps beside the channels:
    invitations, requests to DM and requests to join that wait for an answer,
    the block book with the merge of decisions made on other runtimes, and the
    forwards left by a DM that moved.  Each is a file, or a directory with a
    file per channel; the clock is an argument. *)

From Stdlib Require Import ZArith Lia Ascii Sorting.Sorted.
From stdpp Require Import base tactics list gmap strings relations.
From S2P Require Import Prelude Text ChannelWire ChannelStore.

Local Open Scope nat_scope.
Open Scope rust_scope.

(** ** Answers awaited *)

Record GroupInvitation := {
  gv_channel : ChannelId;
  gv_name : string;
  gv_inviter : string;
  gv_home_runtime : string;
  gv_account : string;
  gv_initial_members : list InitialMember;
  gv_received_at : Z;
  gv_requested : bool;
}.
Record DmRequest := {
  dr_channel : ChannelId;
  dr_from : string;
  dr_name : option string;
  dr_source_runtime : string;
  dr_account : string;
  dr_received_at : Z;
}.
Record PekoJoinRequest := {
  jr_channel : ChannelId;
  jr_principal : string;
  jr_home_runtime : string;
  jr_requested_at : Z;
}.

(** Invitations and DM requests are kept alike: one file per channel, for an
    account, with the time it came. *)
Class Awaited (A : Type) := {
  aw_channel : A -> ChannelId;
  aw_account : A -> string;
  aw_received_at : A -> Z;
}.
#[export] Instance invitation_awaited : Awaited GroupInvitation :=
  {| aw_channel := gv_channel; aw_account := gv_account; aw_received_at := gv_received_at |}.
#[export] Instance dm_request_awaited : Awaited DmRequest :=
  {| aw_channel := dr_channel; aw_account := dr_account; aw_received_at := dr_received_at |}.

(** A directory of files by name; [File] says what each holds. *)
Notation "'Folder' A" := (gmap string (File A)) (at level 10, only parsing).
Definition request_file (channel : ChannelId) : string := channel_dir_name channel +:+ ".json".

Section Awaiting.
Context {A : Type} `{!Awaited A}.

Definition save_awaited (d : Folder A) (x : A) : Folder A := <[request_file (aw_channel x) := Holds x]> d.
Definition take_awaited (d : Folder A) (channel : ChannelId) : option A * Folder A :=
  match d !! request_file channel with
  | None | Some Absent => (None, d)
  | Some (Garbled _) => (None, delete (request_file channel) d)
  | Some (Holds x) => (Some x, delete (request_file channel) d)
  end.
Definition newest_first (a b : A) : bool := Z.leb (aw_received_at b) (aw_received_at a).
(** [Path::extension] is [json]. *)
Definition is_json (name : string) : bool := ends_with ".json" name && negb (String.eqb name ".json").
Definition readable (account : string) (kf : string * File A) : option A :=
  match snd kf with
  | Holds x => if is_json (fst kf) && String.eqb (aw_account x) account then Some x else None
  | _ => None
  end.
Definition list_awaited (d : Folder A) (account : string) : list A :=
  sort_by newest_first (omap (readable account) (map_to_list d)).
Definition kept_for (keep : option string) (f : File A) : bool :=
  match f with Holds x => bool_decide (Some (aw_account x) = keep) | _ => false end.
Definition purge_awaited (d : Folder A) (keep : option string) : Folder A :=
  filter (fun kf => kept_for keep (snd kf) = true) d.
End Awaiting.

(** *** A peko's own requests to join *)

(** Every character but ASCII letters, digits, [-] and [_] becomes [_]. *)
Definition path_char (c : string) : string :=
  match c with
  | String a EmptyString => if is_ascii_alphanumeric a || Ascii.eqb a "-" || Ascii.eqb a "_" then c else "_"
  | _ => "_"
  end.
Definition join_request_file (principal : string) (channel : ChannelId) : string :=
  String.concat "" (map path_char (chars principal)) +:+ "__" +:+ channel_dir_name channel +:+ ".json".

Definition save_peko_join_request (d : Folder PekoJoinRequest) (r : PekoJoinRequest) : Folder PekoJoinRequest :=
  <[join_request_file (jr_principal r) (jr_channel r) := Holds r]> d.
Definition WEEK : Z := 7 * 86400 * 1000000000.
Definition take_peko_join_request (d : Folder PekoJoinRequest) (principal : string) (channel : ChannelId)
    (home : string) (now : Z) : option PekoJoinRequest * Folder PekoJoinRequest :=
  let path := join_request_file principal channel in
  match d !! path with
  | None | Some Absent => (None, d)
  | Some (Garbled _) => (None, delete path d)
  | Some (Holds r) =>
      if negb (String.eqb (jr_home_runtime r) home) || negb (String.eqb (jr_channel r) channel)
         || negb (Z.ltb (now - jr_requested_at r) WEEK)
      then (None, d)
      else (Some r, delete path d)
  end.

(** *** The person's name *)

(** The text of the file, where it reads. *)
Definition person_display_name (f : option string) : option string :=
  match f with
  | Some s => if String.eqb (trim s) "" then None else Some (trim s)
  | None => None
  end.
Definition set_person_display_name (name : option string) : option string :=
  match name with
  | Some n => if String.eqb (trim n) "" then None else Some (trim n)
  | None => None
  end.

(** ** Blocking *)

Record BlockState := { bs_blocked : bool; bs_at : Z }.
Record BlockDecision := { bd_person : string; bd_blocked : bool; bd_at : Z }.
#[export] Instance BlockState_eq_dec : EqDecision BlockState.
Proof. solve_decision. Defined.
#[export] Instance BlockDecision_eq_dec : EqDecision BlockDecision.
Proof. solve_decision. Defined.
Notation "'Entries'" := (gmap string BlockState) (only parsing).
Notation "'BlockBook'" := (gmap string (gmap string BlockState)) (only parsing).

(** [blocked_people.json]: the book, the first shape (people per account), or
    neither. *)
Inductive BlockFile :=
  | NoBlocks
  | Blocks (b : BlockBook)
  | OldBlocks (people : gmap string (list string))
  | BadBlocks.

(** The time of a decision from before decisions had one. *)
Definition EPOCH : Z := 0.
Definition load_blocks (f : BlockFile) : BlockBook :=
  match f with
  | NoBlocks | BadBlocks => ∅
  | Blocks b => b
  | OldBlocks l => (fun people => list_to_map (map (fun p => (p, {| bs_blocked := true; bs_at := EPOCH |})) people)) <$> l
  end.
Definition edit_blocks {T} (f : BlockFile) (edit : BlockBook -> BlockBook * bool * T) : T * BlockFile :=
  let '(book, changed, out) := edit (load_blocks f) in (out, if changed then Blocks book else f).
Definition entries_at (b : BlockBook) (account : string) : Entries := default ∅ (b !! account).

Definition by_person (a b : string * BlockState) : bool := String.leb (fst a) (fst b).
(** The entries in the order of the people's names. *)
Definition in_order (es : Entries) : list (string * BlockState) := sort_by by_person (map_to_list es).
Definition blocked_people (f : BlockFile) (account : string) : list string :=
  map fst (List.filter (fun e => bs_blocked (snd e)) (in_order (entries_at (load_blocks f) account))).
Definition decision_of (e : string * BlockState) : BlockDecision :=
  {| bd_person := fst e; bd_blocked := bs_blocked (snd e); bd_at := bs_at (snd e) |}.
Definition block_decisions (f : BlockFile) (account : string) : list BlockDecision :=
  map decision_of (in_order (entries_at (load_blocks f) account)).
Definition is_blocked (f : BlockFile) (account person : string) : bool :=
  existsb (String.eqb person) (blocked_people f account).

Definition on_hub (person : string) : bool := starts_with "user:hub:" person.
Definition set_one (blocked : bool) (at_ : Z) (acc : Entries * bool) (person : string) : Entries * bool :=
  let '(es, changed) := acc in
  let was := bs_blocked <$> es !! person in
  if on_hub person && negb (bool_decide (was = Some blocked)) && (blocked || is_some was)
  then (<[person := {| bs_blocked := blocked; bs_at := at_ |}]> es, true)
  else acc.
Definition set_blocked (f : BlockFile) (account : string) (people : list string) (blocked : bool) (at_ : Z) : bool * BlockFile :=
  edit_blocks f (fun book =>
    let '(es, changed) := foldl (set_one blocked at_) (entries_at book account, false) people in
    (<[account := es]> book, changed, changed)).

Record Merging := { mg_entries : Entries; mg_newly : list string; mg_changed : bool }.
Definition merge_one (g : Merging) (d : BlockDecision) : Merging :=
  let es := mg_entries g in
  if on_hub (bd_person d)
     && match es !! bd_person d with None => true | Some s => Z.ltb (bs_at s) (bd_at d) end
  then let was := match es !! bd_person d with Some s => bs_blocked s | None => false end in
       {| mg_entries := <[bd_person d := {| bs_blocked := bd_blocked d; bs_at := bd_at d |}]> es;
          mg_newly := if bd_blocked d && negb was then mg_newly g ++ [bd_person d] else mg_newly g;
          mg_changed := true |}
  else g.
Definition merge_block_decisions (f : BlockFile) (account : string) (ds : list BlockDecision) : list string * BlockFile :=
  edit_blocks f (fun book =>
    let g := foldl merge_one {| mg_entries := entries_at book account; mg_newly := []; mg_changed := false |} ds in
    (<[account := mg_entries g]> book, mg_changed g, mg_newly g)).

(** ** Forwards *)

Notation "'Forwards'" := (gmap string string) (only parsing).
Definition load_forwards (f : File Forwards) : Forwards := match f with Holds m => m | _ => ∅ end.
Definition record_forward (f : File Forwards) (old new : ChannelId) : File Forwards :=
  Holds (<[old := new]> (delete new (load_forwards f))).
(** [forwarded]: [there] says whether a channel's metadata is on disk. *)
Fixpoint follow (hops : nat) (there : ChannelId -> bool) (m : Forwards) (current : ChannelId) : ChannelId :=
  match hops with
  | O => current
  | S hops =>
      if there current then current
      else match m !! current ≫= channel_parse with
           | Some next => follow hops there m next
           | None => current
           end
  end.
Definition forwarded (f : File Forwards) (there : ChannelId -> bool) (channel : ChannelId) : ChannelId :=
  follow 4 there (load_forwards f) channel.

(** ** Lemmas *)

(** *** Sorted entries *)

Lemma in_order_elem es p s : (p, s) ∈ in_order es <-> es !! p = Some s.
Proof. unfold in_order. by rewrite sort_by_perm, elem_of_map_to_list. Qed.
Lemma decisions_elem f account d :
  d ∈ block_decisions f account
  <-> entries_at (load_blocks f) account !! bd_person d = Some {| bs_blocked := bd_blocked d; bs_at := bd_at d |}.
Proof.
  unfold block_decisions. rewrite list_elem_of_fmap. split.
  - intros ([p s] & -> & H). apply in_order_elem in H. cbn. by destruct s.
  - intros H. eexists (_, _). split; [|by apply in_order_elem]. by destruct d.
Qed.
Lemma is_blocked_entry f account p :
  is_blocked f account p
  = match entries_at (load_blocks f) account !! p with Some s => bs_blocked s | None => false end.
Proof.
  apply eq_bool_prop_intro. unfold is_blocked, blocked_people. rewrite !Is_true_true, existsb_exists. split.
  - intros (x & Hx & <-%String.eqb_eq). apply in_map_iff in Hx as ([q s] & <- & Hx). apply filter_In in Hx as [Hx Hs].
    apply list_elem_of_In, in_order_elem in Hx. cbn in *. by rewrite Hx.
  - destruct (entries_at _ account !! p) as [s|] eqn:E; [|done]. intros Hs. exists p. split; [|apply String.eqb_refl].
    apply in_map_iff. exists (p, s). split; [done|]. apply filter_In. split; [|done].
    by apply list_elem_of_In, in_order_elem.
Qed.

(** *** Merging, person by person *)

Definition state_of (d : BlockDecision) : BlockState := {| bs_blocked := bd_blocked d; bs_at := bd_at d |}.
Definition received (ds : list BlockDecision) : list BlockDecision := List.filter (fun d => on_hub (bd_person d)) ds.
Definition later (o : option BlockState) (d : BlockDecision) : option BlockState :=
  match o with
  | Some s => if Z.ltb (bs_at s) (bd_at d) then Some (state_of d) else o
  | None => Some (state_of d)
  end.
Definition about_person (p : string) (ds : list BlockDecision) : list BlockDecision :=
  List.filter (fun d => String.eqb (bd_person d) p) ds.

Lemma merge_one_lookup g d p :
  mg_entries (merge_one g d) !! p
  = if on_hub (bd_person d) && String.eqb (bd_person d) p then later (mg_entries g !! p) d else mg_entries g !! p.
Proof.
  unfold merge_one. destruct (on_hub _); [|done]. cbn [andb]. destruct (String.eqb_spec (bd_person d) p) as [<-|Hp].
  - unfold later. destruct (mg_entries g !! bd_person d) as [s|] eqn:E; [destruct (bs_at s <? bd_at d)%Z|].
    + cbn. by rewrite lookup_insert_eq.
    + done.
    + cbn. by rewrite lookup_insert_eq.
  - case_match; [|done]. cbn. by rewrite lookup_insert_ne.
Qed.
Lemma merge_lookup ds g p :
  mg_entries (foldl merge_one g ds) !! p = foldl later (mg_entries g !! p) (about_person p (received ds)).
Proof.
  revert g. induction ds as [|d ds IH]; intros g; [done|]. cbn [foldl received List.filter]. rewrite IH, merge_one_lookup.
  destruct (on_hub _); [|done]. cbn [about_person List.filter andb]. by destruct (String.eqb (bd_person d) p).
Qed.
Lemma merge_unchanged ds g : mg_changed (foldl merge_one g ds) = false ->
  mg_changed g = false /\ mg_entries (foldl merge_one g ds) = mg_entries g.
Proof.
  revert g. induction ds as [|d ds IH]; intros g H; [done|]. cbn [foldl] in *. apply IH in H as [H1 H2]. rewrite H2.
  unfold merge_one in *. by case_match.
Qed.
Lemma merged_entries f account ds :
  entries_at (load_blocks (snd (merge_block_decisions f account ds))) account
  = mg_entries (foldl merge_one {| mg_entries := entries_at (load_blocks f) account; mg_newly := []; mg_changed := false |} ds).
Proof.
  unfold merge_block_decisions, edit_blocks. cbn. set (g := foldl _ _ _). destruct (mg_changed g) eqn:E; cbn.
  - unfold entries_at. by rewrite lookup_insert_eq.
  - apply merge_unchanged in E as [_ E]. fold g in E. by rewrite E.
Qed.

(** The newest of the decisions about a person. *)
Lemma later_latest l o s : foldl later o l = Some s ->
  (o = Some s \/ exists d, d ∈ l /\ state_of d = s) /\
  (forall s0, o = Some s0 -> (bs_at s0 <= bs_at s)%Z) /\ (forall d, d ∈ l -> (bd_at d <= bs_at s)%Z).
Proof.
  revert o. induction l as [|d l IH]; intros o H; cbn [foldl] in H.
  - subst o. split_and!; [by left|by intros s0 [= ->]|]. intros d Hd. by apply elem_of_nil in Hd.
  - apply IH in H as (H1 & H2 & H3).
    assert (Ho : later o d = Some (state_of d) /\ (forall s0, o = Some s0 -> (bs_at s0 < bd_at d)%Z)
                 \/ later o d = o /\ exists s0, o = Some s0 /\ (bd_at d <= bs_at s0)%Z).
    { unfold later. destruct o as [s0|]; [|by left]. destruct (Z.ltb_spec (bs_at s0) (bd_at d)); [left|right]; naive_solver. }
    destruct Ho as [[E Hlt]|[E (s0 & -> & Hle)]]; rewrite E in *.
    + split_and!.
      * right. destruct H1 as [[= <-]|(x & Hx & <-)]; [exists d|exists x]; by rewrite elem_of_cons; auto.
      * intros s0 Hs0. specialize (Hlt _ Hs0). specialize (H2 _ eq_refl). cbn in H2. lia.
      * intros x [->|Hx]%elem_of_cons; [by apply (H2 _ eq_refl)|auto].
    + split_and!; [|done|].
      * destruct H1 as [H1|(x & Hx & <-)]; [by left|right]. exists x. by rewrite elem_of_cons; auto.
      * intros x [->|Hx]%elem_of_cons; [|auto]. specialize (H2 _ eq_refl). lia.
Qed.
Lemma later_none l o : foldl later o l = None -> o = None /\ l = [].
Proof.
  revert o. induction l as [|d l IH]; intros o H; [done|]. cbn in H. apply IH in H as [H _].
  unfold later in H. destruct o; [by case_match|done].
Qed.

(** What a runtime knows after it took decisions in: its own and those. *)
Definition known (f : BlockFile) (account : string) (ds : list BlockDecision) : list BlockDecision :=
  block_decisions f account ++ received ds.
(** Of one person's decisions no two have the same time. *)
Definition told_by_time (l : list BlockDecision) : Prop :=
  forall d d', d ∈ l -> d' ∈ l -> bd_person d = bd_person d' -> bd_at d = bd_at d' -> d = d'.

Lemma about_person_elem p l d : d ∈ about_person p l <-> d ∈ l /\ bd_person d = p.
Proof. unfold about_person. by rewrite !list_elem_of_In, filter_In, String.eqb_eq. Qed.
Lemma merged_is_latest f account ds d :
  d ∈ block_decisions (snd (merge_block_decisions f account ds)) account ->
  d ∈ known f account ds /\
  (forall d', d' ∈ known f account ds -> bd_person d' = bd_person d -> (bd_at d' <= bd_at d)%Z).
Proof.
  rewrite decisions_elem, merged_entries, merge_lookup. cbn [mg_entries]. intros (H1 & H2 & H3)%later_latest. split.
  - unfold known. rewrite elem_of_app. destruct H1 as [H1|(x & [Hx Hp]%about_person_elem & Hs)].
    + left. by apply decisions_elem.
    + right. destruct d, x. unfold state_of in Hs. cbn in *. by simplify_eq.
  - intros d' [Hd'|Hd']%elem_of_app Hp.
    + apply decisions_elem in Hd'. rewrite Hp in Hd'. by apply (H2 _ Hd').
    + apply (H3 d'), about_person_elem. done.
Qed.
Lemma merged_knows f account ds d :
  d ∈ known f account ds ->
  exists d', d' ∈ block_decisions (snd (merge_block_decisions f account ds)) account /\ bd_person d' = bd_person d.
Proof.
  intros Hd. pose proof (merged_entries f account ds) as E. set (es := entries_at _ _) in E.
  destruct (es !! bd_person d) as [s|] eqn:Es.
  - exists (decision_of (bd_person d, s)). split; [|done]. apply decisions_elem. fold es. cbn. rewrite Es. by destruct s.
  - exfalso. rewrite E, merge_lookup in Es. apply later_none in Es as [Eo El]. cbn in Eo.
    apply elem_of_app in Hd as [Hd|Hd].
    + apply decisions_elem in Hd. congruence.
    + assert (Hin : d ∈ about_person (bd_person d) (received ds)) by (by apply about_person_elem).
      rewrite El in Hin. by apply elem_of_nil in Hin.
Qed.

(** Lists of entries with the same elements are the same list. *)
Lemma in_order_ext (es es' : Entries) : (forall p s, es !! p = Some s <-> es' !! p = Some s) -> es = es'.
Proof. intros H. apply map_eq. intros p. apply option_eq. intros s. apply H. Qed.

(** *** Request files *)

Lemma request_file_inj a b : marker_free a = true -> marker_free b = true -> request_file a = request_file b -> a = b.
Proof.
  intros Ha Hb H%app_inj_r_str. rewrite <- (dir_name_inverse a), <- (dir_name_inverse b) by done. by rewrite H.
Qed.
Lemma request_is_json c : c <> "" -> marker_free c = true -> is_json (request_file c) = true.
Proof.
  intros Hc Hm. unfold is_json, request_file, ends_with. rewrite length_app_str. cbn [String.length].
  replace (String.length (channel_dir_name c) + 5 - 5) with (String.length (channel_dir_name c)) by lia.
  rewrite drop_bytes_app, String.eqb_refl. cbn [andb]. apply negb_true_iff, String.eqb_neq. intros H.
  assert (E : channel_dir_name c = "") by (by apply (app_inj_r_str _ "" ".json")).
  apply Hc. by rewrite <- (dir_name_inverse c), E.
Qed.

(** *** Setting *)

Lemma set_one_lookup b t acc q p :
  fst (set_one b t acc q) !! p
  = if on_hub q && String.eqb q p && negb (bool_decide (bs_blocked <$> fst acc !! p = Some b))
       && (b || is_some (bs_blocked <$> fst acc !! p))
    then Some {| bs_blocked := b; bs_at := t |} else fst acc !! p.
Proof.
  unfold set_one. destruct acc as [es changed]. cbn [fst]. destruct (on_hub q); [|done].
  destruct (String.eqb_spec q p) as [<-|Hq]; cbn [andb]; case_match; cbn [fst]; try done;
    [by rewrite lookup_insert_eq|by rewrite lookup_insert_ne].
Qed.
(** Whether a person is blocked, as an entry says. *)
Definition said (o : option BlockState) : bool := match o with Some s => bs_blocked s | None => false end.
Lemma changes_said (o : option BlockState) b :
  negb (bool_decide (bs_blocked <$> o = Some b)) && (b || is_some (bs_blocked <$> o)) = negb (Bool.eqb (said o) b).
Proof. destruct o as [[[] t]|], b; reflexivity. Qed.
Lemma set_one_said b t acc q p :
  said (fst (set_one b t acc q) !! p) = if on_hub q && String.eqb q p then b else said (fst acc !! p).
Proof.
  rewrite set_one_lookup. rewrite <- andb_assoc, changes_said. destruct (on_hub q && String.eqb q p); [|done]. cbn [andb].
  destruct (Bool.eqb (said (fst acc !! p)) b) eqn:E; [|done]. by apply eqb_prop in E.
Qed.
Lemma set_one_changed b t acc q :
  snd (set_one b t acc q) = snd acc || (on_hub q && negb (Bool.eqb (said (fst acc !! q)) b)).
Proof.
  unfold set_one. destruct acc as [es changed]. cbn [fst snd]. rewrite <- andb_assoc, changes_said.
  destruct (on_hub q && _); cbn; by rewrite ?orb_true_r, ?orb_false_r.
Qed.
Lemma set_said people b t acc p :
  said (fst (foldl (set_one b t) acc people) !! p)
  = if existsb (fun q => on_hub q && String.eqb q p) people then b else said (fst acc !! p).
Proof.
  revert acc. induction people as [|q people IH]; intros acc; [done|]. cbn [foldl existsb]. rewrite IH, set_one_said.
  destruct (on_hub q && String.eqb q p), (existsb _ people); done.
Qed.
Lemma set_changed people b t acc :
  snd (foldl (set_one b t) acc people)
  = snd acc || existsb (fun q => on_hub q && negb (Bool.eqb (said (fst acc !! q)) b)) people.
Proof.
  revert acc. induction people as [|q people IH]; intros acc; cbn [foldl existsb]; [by rewrite orb_false_r|].
  rewrite IH, set_one_changed, <- orb_assoc. f_equal. destruct (on_hub q && _) eqn:Eq; [done|]. cbn [orb].
  clear IH. induction people as [|r people IHp]; [done|]. cbn [existsb]. rewrite set_one_said. f_equal; [|exact IHp].
  destruct (on_hub q && String.eqb q r) eqn:E; [|done]. apply andb_true_iff in E as [_ <-%String.eqb_eq].
  by rewrite Eq, eqb_reflx, andb_false_r.
Qed.
Lemma set_same people b t acc : snd acc = false -> snd (foldl (set_one b t) acc people) = false ->
  fst (foldl (set_one b t) acc people) = fst acc.
Proof.
  revert acc. induction people as [|q people IH]; intros acc Ha H; [done|]. cbn [foldl] in *.
  assert (Hq : snd (set_one b t acc q) = false).
  { rewrite set_changed in H. by apply orb_false_iff in H as [H _]. }
  rewrite IH by done. rewrite set_one_changed, Ha in Hq. cbn in Hq. apply map_eq. intros p. rewrite set_one_lookup.
  rewrite <- andb_assoc, changes_said. destruct (String.eqb_spec q p) as [<-|]; [|by rewrite andb_false_r].
  by rewrite andb_true_r, Hq.
Qed.

(** *** Forwards *)

(** One hop of the table. *)
Definition hop (m : Forwards) (a b : string) : Prop := m !! a = Some b.
Lemma no_hop m a b : m !! a = None -> ~ tc (hop m) a b.
Proof. intros Hm. induction 1 as [x y H|x y z H]; unfold hop in H; congruence. Qed.
Lemma hop_record m old new a b : old <> new -> tc (hop (<[old := new]> (delete new m))) a b -> b <> new -> tc (hop m) a b.
Proof.
  intros Hn. set (m' := <[old := new]> _).
  assert (Hout : forall z, ~ tc (hop m') new z).
  { intros z. apply no_hop. unfold m'. by rewrite lookup_insert_ne, lookup_delete_eq. }
  assert (Hstep : forall x y, hop m' x y -> y <> new -> hop m x y).
  { unfold hop, m'. intros x y Hx Hy. destruct (decide (x = old)) as [->|Hxo].
    - rewrite lookup_insert_eq in Hx. congruence.
    - rewrite lookup_insert_ne in Hx by done. by apply lookup_delete_Some in Hx as [_ ?]. }
  induction 1 as [x y H|x y z H Ht IH]; intros Hz; [by apply tc_once, Hstep|].
  eapply tc_l; [|by apply IH]. apply Hstep; [done|]. intros ->. by apply Hout in Ht.
Qed.
Definition moved (f : File Forwards) (moves : list (ChannelId * ChannelId)) : File Forwards :=
  foldl (fun f mv => record_forward f (fst mv) (snd mv)) f moves.
Lemma moved_acyclic moves f :
  Forall (fun mv => fst mv <> snd mv) moves -> (forall a, ~ tc (hop (load_forwards f)) a a) ->
  forall a, ~ tc (hop (load_forwards (moved f moves))) a a.
Proof.
  revert f. induction moves as [|[old new] moves IH]; intros f Hm Hf; [done|].
  apply Forall_cons in Hm as [Hn Hm]. cbn [fst snd] in Hn. cbn [moved foldl]. apply IH; [done|]. cbn [load_forwards record_forward fst snd].
  intros a Ha. destruct (decide (a = new)) as [->|Hne].
  - apply no_hop in Ha; [done|]. by rewrite lookup_insert_ne, lookup_delete_eq.
  - by apply hop_record in Ha; [apply Hf in Ha| |].
Qed.

(** A DM that leaves its first id for another and comes back, again and again. *)
Definition back_and_forth (home : ChannelId) (others : list ChannelId) : list (ChannelId * ChannelId) :=
  concat (map (fun a => [(home, a); (a, home)]) others).
Lemma settled others home f : home ∉ others -> load_forwards f !! home = None ->
  let f' := moved f (back_and_forth home others) in
  load_forwards f' !! home = None /\
  forall a, a ∉ others -> load_forwards f' !! a = load_forwards f !! a.
Proof.
  revert f. induction others as [|x others IH]; intros f Hh Hf; [done|]. apply not_elem_of_cons in Hh as [Hx Hh].
  cbn. set (f1 := record_forward (record_forward f home x) x home).
  destruct (IH f1 Hh) as [H1 H2].
  { unfold f1. cbn. by rewrite lookup_insert_ne, lookup_delete_eq. }
  split; [exact H1|]. intros a Ha. apply not_elem_of_cons in Ha as [Hax Ha]. rewrite H2 by done. unfold f1. cbn.
  rewrite lookup_insert_ne by done. destruct (decide (a = home)) as [->|Hah]; [by rewrite lookup_delete_eq|].
  by rewrite lookup_delete_ne, lookup_insert_ne, lookup_delete_ne.
Qed.
Lemma settled_back others home f a : home ∉ others -> load_forwards f !! home = None -> a ∈ others ->
  load_forwards (moved f (back_and_forth home others)) !! a = Some home.
Proof.
  revert f. induction others as [|x others IH]; intros f Hh Hf Ha; [by apply elem_of_nil in Ha|].
  apply not_elem_of_cons in Hh as [Hx Hh]. cbn. set (f1 := record_forward (record_forward f home x) x home).
  assert (H1 : load_forwards f1 !! home = None) by (unfold f1; cbn; by rewrite lookup_insert_ne, lookup_delete_eq).
  destruct (decide (a ∈ others)) as [Hin|Hnot]; [by apply IH|]. apply elem_of_cons in Ha as [->|Ha]; [|done].
  destruct (settled others home f1 Hh H1) as [_ H2]. unfold moved, back_and_forth in H2. rewrite H2 by done.
  unfold f1. cbn. by rewrite lookup_insert_eq.
Qed.

(** ** Properties *)

(** C22. Block decisions converge.  Two runtimes of an account that know the same
    decisions, each from its own book and from what others told it, in
    whatever order and however often, end with the same book: for each person
    the latest decision either has heard of, as long as no two decisions on a
    person have the same time. *)
Theorem block_decisions_converge (f f' : BlockFile) (account : string) (ds ds' : list BlockDecision) :
  (forall d, d ∈ known f account ds <-> d ∈ known f' account ds') -> told_by_time (known f account ds) ->
  let book := snd (merge_block_decisions f account ds) in
  let book' := snd (merge_block_decisions f' account ds') in
  block_decisions book account = block_decisions book' account /\
  blocked_people book account = blocked_people book' account /\
  (forall d, d ∈ block_decisions book account <->
     d ∈ known f account ds /\
     forall d', d' ∈ known f account ds -> bd_person d' = bd_person d -> (bd_at d' <= bd_at d)%Z).
Proof.
  intros Hk Ht. cbn zeta. set (b := snd _). set (b' := snd (merge_block_decisions f' account ds')).
  assert (Hlatest : forall d, d ∈ block_decisions b account <-> d ∈ known f account ds /\
            forall d', d' ∈ known f account ds -> bd_person d' = bd_person d -> (bd_at d' <= bd_at d)%Z).
  { intros d. split; [apply merged_is_latest|]. intros [Hd Hmax]. destruct (merged_knows f account ds d Hd) as (x & Hx & Hp).
    pose proof (merged_is_latest _ _ _ _ Hx) as [Hx1 Hx2]. rewrite (Ht d x); try done.
    pose proof (Hmax x Hx1 Hp). pose proof (Hx2 d Hd (eq_sym Hp)). lia. }
  assert (Hsame : entries_at (load_blocks b) account = entries_at (load_blocks b') account).
  { apply in_order_ext. intros p s. pose proof (decisions_elem b account (decision_of (p, s))) as E.
    pose proof (decisions_elem b' account (decision_of (p, s))) as E'. cbn in E, E'.
    destruct s as [blocked t]. cbn in *. rewrite <- E, <- E', Hlatest. split.
    - intros [Hd Hmax]. apply Hk in Hd. destruct (merged_knows _ _ _ _ Hd) as (x & Hx & Hp).
      pose proof (merged_is_latest _ _ _ _ Hx) as [Hx1 Hx2]. pose proof (Hx2 _ Hd (eq_sym Hp)). apply Hk in Hx1, Hd.
      pose proof (Hmax x Hx1 Hp). rewrite (Ht _ x Hd Hx1) by (done || lia). done.
    - intros Hx. pose proof (merged_is_latest _ _ _ _ Hx) as [Hx1 Hx2]. split; [by apply Hk|].
      intros d' Hd'. by apply Hx2, Hk. }
  split_and!; [unfold block_decisions; by rewrite Hsame|unfold blocked_people; by rewrite Hsame|exact Hlatest].
Qed.

(** Blocking and unblocking, exactly: afterwards each person named who is on
    the hub is blocked or not as asked, everyone else and every other account
    as before; the answer says whether anything changed, and only then the
    file is written. *)
Theorem set_blocked_exact (f : BlockFile) (account : string) (people : list string) (blocked : bool) (at_ : Z) :
  let '(changed, f') := set_blocked f account people blocked at_ in
  (forall p, is_blocked f' account p
             = if existsb (fun q => on_hub q && String.eqb q p) people then blocked else is_blocked f account p) /\
  (forall other, other <> account -> block_decisions f' other = block_decisions f other) /\
  changed = existsb (fun q => on_hub q && negb (Bool.eqb (is_blocked f account q) blocked)) people /\
  (changed = false -> f' = f).
Proof.
  unfold set_blocked, edit_blocks. set (acc := (entries_at (load_blocks f) account, false)).
  destruct (foldl (set_one blocked at_) acc people) as [es changed] eqn:E.
  pose proof (set_said people blocked at_ acc) as Hs. pose proof (set_changed people blocked at_ acc) as Hc.
  pose proof (set_same people blocked at_ acc eq_refl) as Hk. rewrite E in Hs, Hc, Hk. cbn [fst snd acc orb] in Hs, Hc, Hk.
  split_and!.
  - intros p. rewrite !is_blocked_entry. unfold said in Hs. rewrite <- Hs. destruct changed.
    + cbn. unfold entries_at. by rewrite lookup_insert_eq.
    + by rewrite Hk.
  - intros other Ho. unfold block_decisions. destruct changed; [|done]. cbn. unfold entries_at. by rewrite lookup_insert_ne.
  - rewrite Hc. apply existsb_same. intros q. by rewrite is_blocked_entry.
  - by intros ->.
Qed.

(** Forwards never lead in a circle, whatever moves were recorded; and an id
    kept from before reaches a DM that goes back and forth between its first
    id and others, wherever it is now. *)
Theorem forwards_reach (moves : list (ChannelId * ChannelId)) (home now_ : ChannelId) (others : list ChannelId)
    (there : ChannelId -> bool) :
  Forall (fun mv => fst mv <> snd mv) moves ->
  home ∉ others -> now_ <> home ->
  Forall (fun c => channel_parse c = Some c) (home :: now_ :: others) ->
  (forall a, ~ tc (hop (load_forwards (moved Absent moves))) a a) /\
  ((forall c, there c = bool_decide (c = home)) ->
   forall a, a ∈ home :: others -> forwarded (moved Absent (back_and_forth home others)) there a = home) /\
  ((forall c, there c = bool_decide (c = now_)) ->
   forall a, a ∈ home :: now_ :: others ->
   forwarded (moved Absent (back_and_forth home others ++ [(home, now_)])) there a = now_).
Proof.
  intros Hm Hh Hn Hp. apply Forall_cons in Hp as [Hph Hp]. apply Forall_cons in Hp as [Hpn Hp]. split_and!.
  - apply moved_acyclic; [done|]. intros a Ha. apply no_hop in Ha; [done|apply lookup_empty].
  - intros Ht a Ha. unfold forwarded. cbn [follow]. rewrite Ht. case_bool_decide as Ea; [done|].
    apply elem_of_cons in Ha as [->|Ha]; [done|]. rewrite settled_back by (done || apply lookup_empty). cbn. rewrite Hph.
    rewrite Ht, bool_decide_true by done. done.
  - intros Ht a Ha. unfold moved. rewrite foldl_app. change (foldl _ _ (back_and_forth home others)) with (moved Absent (back_and_forth home others)).
    unfold forwarded. cbn [foldl fst snd record_forward load_forwards].
    set (m := load_forwards (moved Absent (back_and_forth home others))).
    set (m' := <[home := now_]> (delete now_ m)).
    assert (Hhome : follow 3 there m' home = now_).
    { cbn [follow]. rewrite Ht, bool_decide_false by done. unfold m'. rewrite lookup_insert_eq. cbn. rewrite Hpn.
      by rewrite Ht, bool_decide_true. }
    change (follow 4 there m' a) with (if there a then a else match m' !! a ≫= channel_parse with
      Some next => follow 3 there m' next | None => a end).
    rewrite Ht. case_bool_decide as Ea; [done|]. apply elem_of_cons in Ha as [->|Ha].
    + unfold m'. rewrite lookup_insert_eq. cbn [mbind option_bind]. rewrite Hpn. cbn [follow]. by rewrite Ht, bool_decide_true.
    + apply elem_of_cons in Ha as [->|Ha]; [done|]. assert (a <> home) by (by intros ->).
      unfold m' at 1. rewrite lookup_insert_ne, lookup_delete_ne by done. unfold m. rewrite settled_back by (done || apply lookup_empty).
      cbn [mbind option_bind]. by rewrite Hph.
Qed.

(** A request kept is taken once, by the channel it is about: until then it is
    listed for its account, afterwards it is gone, and a file of another
    channel is not touched. *)
Theorem awaited_taken_once {A : Type} `{!Awaited A} (d : Folder A) (x : A) (channel : ChannelId) :
  aw_channel x <> "" -> marker_free (aw_channel x) = true -> marker_free channel = true ->
  let kept := save_awaited d x in
  let '(taken, rest) := take_awaited kept (aw_channel x) in
  x ∈ list_awaited kept (aw_account x) /\ taken = Some x /\ fst (take_awaited rest (aw_channel x)) = None /\
  (channel <> aw_channel x ->
   rest !! request_file channel = d !! request_file channel /\ fst (take_awaited kept channel) = fst (take_awaited d channel)).
Proof.
  intros Hne Hx Hc. cbn zeta. unfold take_awaited, save_awaited. rewrite lookup_insert_eq. split_and!.
  - unfold list_awaited. rewrite sort_by_perm. apply list_elem_of_omap. exists (request_file (aw_channel x), Holds x).
    split; [apply elem_of_map_to_list, lookup_insert_eq|]. unfold readable. cbn [fst snd].
    rewrite request_is_json, String.eqb_refl by done. done.
  - done.
  - by rewrite lookup_delete_eq.
  - intros Hch. assert (request_file channel <> request_file (aw_channel x)) by (by intros ->%request_file_inj).
    rewrite lookup_delete_ne, !lookup_insert_ne by done. split; [done|]. by destruct (d !! request_file channel) as [[]|].
Qed.

(** ** Examples *)

Module BookExample.
Definition block (p : string) (b : bool) (t : Z) : BlockDecision := {| bd_person := p; bd_blocked := b; bd_at := t |}.
Definition laptop : BlockFile := Blocks {[ "acct" := {[ "user:hub:eve" := {| bs_blocked := true; bs_at := 5 |} ]} ]}.
Definition phone : BlockFile := Blocks {[ "acct" := {[ "user:hub:eve" := {| bs_blocked := false; bs_at := 9 |} ]} ]}.
Definition asked : DmRequest :=
  {| dr_channel := "dm_1"; dr_from := "user:hub:eve"; dr_name := None; dr_source_runtime := "did:key:zR"; dr_account := "acct";
     dr_received_at := 3 |}.
Definition wants (p : string) : PekoJoinRequest :=
  {| jr_channel := "group:g"; jr_principal := p; jr_home_runtime := "did:key:zH"; jr_requested_at := 0 |}.
End BookExample.
Import BookExample.

Lemma block_decisions_converge_witness :
  blocked_people (snd (merge_block_decisions laptop "acct" [block "user:hub:eve" false 9])) "acct"
  = blocked_people (snd (merge_block_decisions phone "acct" [block "user:hub:eve" true 5; block "user:hub:eve" true 5])) "acct".
Proof.
  set (b := block "user:hub:eve" true 5). set (u := block "user:hub:eve" false 9).
  assert (E : known laptop "acct" [u] = [b; u]) by (vm_compute; reflexivity).
  assert (E' : known phone "acct" [b; b] = [u; b; b]) by (vm_compute; reflexivity).
  apply (block_decisions_converge laptop phone "acct" [u] [b; b]).
  - intros d. rewrite E, E', !list_elem_of_In. cbn [In]. tauto.
  - rewrite E. intros d d'. rewrite !list_elem_of_In. cbn. intros [<-|[<-|[]]] [<-|[<-|[]]]; done.
Defined.

Lemma forwards_reach_witness :
  let pair := fun c => "dm_" +:+ String.concat "" (replicate 64 c) in
  forwarded (moved Absent (back_and_forth (pair "a") [pair "b"; pair "c"] ++ [(pair "a", pair "d")]))
    (fun c => bool_decide (c = pair "d")) (pair "b") = pair "d".
Proof.
  cbv zeta. set (pair := fun c => "dm_" +:+ String.concat "" (replicate 64 c)).
  apply (forwards_reach [] (pair "a") (pair "d") [pair "b"; pair "c"] (fun c => bool_decide (c = pair "d")));
    [constructor| | | |done|].
  - apply (bool_decide_eq_true_1 _). vm_compute. reflexivity.
  - vm_compute. discriminate.
  - repeat constructor.
  - apply (bool_decide_eq_true_1 _). vm_compute. reflexivity.
Defined.

Lemma awaited_taken_once_witness : fst (take_awaited (save_awaited ∅ asked) "dm_1") = Some asked.
Proof.
  assert (Hc : aw_channel asked <> "") by (cbn; discriminate).
  pose proof (awaited_taken_once ∅ asked "dm_2" Hc eq_refl eq_refl) as H. cbn zeta in H.
  change (aw_channel asked) with "dm_1" in H. destruct (take_awaited _ _) as [taken rest]. by destruct H as (_ & H & _).
Defined.

(** Two decisions made at the same time on two runtimes are never settled: each
    keeps its own, although the latest decision per person is meant to win
    everywhere. *)
Theorem tied_decisions_diverge :
  let laptop := Blocks {[ "acct" := {[ "user:hub:eve" := {| bs_blocked := true; bs_at := 5 |} ]} ]} in
  let phone := Blocks {[ "acct" := {[ "user:hub:eve" := {| bs_blocked := false; bs_at := 5 |} ]} ]} in
  blocked_people (snd (merge_block_decisions laptop "acct" (block_decisions phone "acct"))) "acct" = ["user:hub:eve"] /\
  blocked_people (snd (merge_block_decisions phone "acct" (block_decisions laptop "acct"))) "acct" = [].
Proof. vm_compute. split; reflexivity. Qed.

(** A request to join is found by the text of its file's name, in which other
    characters of the principal's id are replaced: one principal takes, or
    overwrites, another's. *)
Theorem join_request_taken_by_other :
  fst (take_peko_join_request (save_peko_join_request ∅ (wants "a.b")) "a_b" "group:g" "did:key:zH" 1) = Some (wants "a.b") /\
  size (save_peko_join_request (save_peko_join_request ∅ (wants "a.b")) (wants "a_b")) = 1.
Proof. vm_compute. split; reflexivity. Qed.
