(* ===== verification/SessionLog.v ===== *)
(** * SessionLog: session events and their transcript files

    The events of a session (peko-rs/session/src/events.rs, message.rs) and
    the storage of transcripts (peko-rs/session/src/jsonl.rs, with the paging
    of manager.rs): a session's live file [<id>.jsonl], the pages
    [<id>.<n>.jsonl] moved aside when it grows, appending, reading the whole
    transcript back, dropping its head, copying and deleting.  A directory is
    a map from file names to contents; the JSON of a line is an interface.
    The locks serialise the operations of one session, so each is one step
    here; an I/O error or a lock timeout ends an operation with an error and
    is not modelled. *)

From Stdlib Require Import ZArith Lia Ascii Sorting.Sorted.
From stdpp Require Import base tactics list gmap strings countable sorting.
From S2P Require Import Prelude Text Usage Message Host.

Local Open Scope nat_scope.
Open Scope rust_scope.

(** ** Events *)

Record EventEnvelope := { env_id : string; env_ts : Z }.

Inductive SessionTrigger :=
  | TrigUser | TrigCron | TrigWebhook | TrigEvent | TrigFileWatch | TrigBranch | TrigSpawn.

(** [SessionTrigger::from_label]. *)
Definition from_label (label : string) : SessionTrigger :=
  if String.eqb label "cron" then TrigCron
  else if String.eqb label "webhook" then TrigWebhook
  else if String.eqb label "event" then TrigEvent
  else if String.eqb label "file_watch" then TrigFileWatch
  else if String.eqb label "branch" then TrigBranch
  else if String.eqb label "spawn" then TrigSpawn
  else TrigUser.

Record SessionCreatedEvent := {
  sc_envelope : EventEnvelope;
  instance_id : string;
  image_digest : string;
  sc_parent_session_id : option string;
  sc_trigger : SessionTrigger;
}.
Record ThinkingEvent := { th_envelope : EventEnvelope; th_content : string }.
Record SpawnRequestEvent := {
  sq_envelope : EventEnvelope;
  sq_tool_call_id : string;
  child_image : string;
  sq_child_instance_id : string;
  sq_child_session_id : string;
  sq_task : string;
  async_ : bool;
}.
Record SpawnResultEvent := {
  sr_envelope : EventEnvelope;
  sr_tool_call_id : string;
  sr_child_instance_id : string;
  sr_child_session_id : string;
  sr_output : option string;
  sr_error : option string;
  duration_ms : Z;
}.
Inductive A2aMessageType := A2aTask | A2aTaskResult | A2aStatus | A2aControl | A2aCustom.
Record A2aSentEvent := {
  as_envelope : EventEnvelope;
  as_message_type : A2aMessageType;
  as_topic : string;
  as_to : string;
  as_payload : Json;
  as_caller_did : option string;
  as_runtime_id_caller : option string;
  as_target_did : option string;
  as_runtime_id_target : option string;
  as_request_id : option string;
}.
Record A2aReceivedEvent := {
  ar_envelope : EventEnvelope;
  ar_message_type : A2aMessageType;
  ar_topic : string;
  ar_from : string;
  ar_payload : Json;
  ar_caller_did : option string;
  ar_runtime_id_caller : option string;
  ar_target_did : option string;
  ar_runtime_id_target : option string;
  ar_request_id : option string;
}.
Inductive HookType := HookCron | HookWebhook | HookEvent | HookFileWatch.
Record HookTriggerEvent := {
  ht_envelope : EventEnvelope;
  hook_type : HookType;
  ht_schedule : option string;
  ht_payload : option Json;
}.
Record SystemEvent := { sys_envelope : EventEnvelope; sys_event : string; sys_detail : Json }.
Inductive SessionEndReason := UserClosed | InstanceStopped | IdleTimeout | MaxTokensReached | Interrupted.
Record SessionEndedEvent := {
  se_envelope : EventEnvelope;
  se_reason : SessionEndReason;
  se_turn_count : Z;
  se_total_tokens : Z;
}.

Inductive MessageSource := FromUser | FromHook | FromA2a | FromSpawnParent | FromCron | FromAgent.
Inductive RoleMetadata :=
  | MetaUser (source : MessageSource)
  | MetaAssistant (provider model : string) (usage : TokenUsage)
  | MetaSystem
  | MetaTool (tool_call_id : string).
Record SessionMessage := {
  sm_envelope : EventEnvelope;
  message_id : string;
  sm_message : LlmMessage Json;
  role_metadata : RoleMetadata;
}.

Inductive SessionEvent :=
  | SessionCreated (e : SessionCreatedEvent)
  | MessageV2 (m : SessionMessage)
  | ThinkingEv (e : ThinkingEvent)
  | SpawnRequest (e : SpawnRequestEvent)
  | SpawnResult (e : SpawnResultEvent)
  | A2aSent (e : A2aSentEvent)
  | A2aReceived (e : A2aReceivedEvent)
  | HookTrigger (e : HookTriggerEvent)
  | SystemEv (e : SystemEvent)
  | SessionEnded (e : SessionEndedEvent).

Definition envelope (e : SessionEvent) : EventEnvelope :=
  match e with
  | SessionCreated e => sc_envelope e
  | MessageV2 m => sm_envelope m
  | ThinkingEv e => th_envelope e
  | SpawnRequest e => sq_envelope e
  | SpawnResult e => sr_envelope e
  | A2aSent e => as_envelope e
  | A2aReceived e => ar_envelope e
  | HookTrigger e => ht_envelope e
  | SystemEv e => sys_envelope e
  | SessionEnded e => se_envelope e
  end.
Definition is_message (e : SessionEvent) : bool := match e with MessageV2 _ => true | _ => false end.
Definition as_message (e : SessionEvent) : option SessionMessage :=
  match e with MessageV2 m => Some m | _ => None end.

(** ** Messages *)

Definition sm_role (m : SessionMessage) : MessageRole := role (sm_message m).
Definition text_of (b : ContentBlock Json) : option string := match b with Text t => Some t | _ => None end.
Definition concat_text : list string -> string := foldr String.append "".
Definition block_texts (b : ContentBlock Json) : list string :=
  match b with
  | Text t => [t]
  | ToolResult _ _ c _ => omap text_of c
  | _ => []
  end.
Definition text_content (m : SessionMessage) : string := concat_text (flat_map block_texts (content (sm_message m))).
Definition sm_source (m : SessionMessage) : option MessageSource :=
  match role_metadata m with MetaUser s => Some s | _ => None end.
Definition sm_usage (m : SessionMessage) : option TokenUsage :=
  match role_metadata m with MetaAssistant _ _ u => Some u | _ => None end.
Definition sm_tool_call_id (m : SessionMessage) : option string :=
  match role_metadata m with MetaTool id => Some id | _ => None end.

(** The constructors; [ids] are the event and message ids made up, [now] the
    clock. *)
Definition envelope_new (id : string) (now : Z) : EventEnvelope := {| env_id := id; env_ts := now |}.
Definition user_message (ids : string * string) (now : Z) (t : string) (source : MessageSource) : SessionMessage :=
  {| sm_envelope := envelope_new (fst ids) now; message_id := snd ids;
     sm_message := text_message User t now; role_metadata := MetaUser source |}.
Definition assistant_with_blocks (ids : string * string) (now : Z) (c : list (ContentBlock Json))
    (provider model : string) (u : TokenUsage) : SessionMessage :=
  {| sm_envelope := envelope_new (fst ids) now; message_id := snd ids;
     sm_message := {| role := Assistant; content := c; timestamp := now; metadata := ∅;
                      tool_call_id := None; usage := None |};
     role_metadata := MetaAssistant provider model u |}.
Definition system_message (ids : string * string) (now : Z) (t : string) : SessionMessage :=
  {| sm_envelope := envelope_new (fst ids) now; message_id := snd ids;
     sm_message := text_message System t now; role_metadata := MetaSystem |}.
Definition tool_result (ids : string * string) (now : Z) (id name t : string) (err : bool) : SessionMessage :=
  {| sm_envelope := envelope_new (fst ids) now; message_id := snd ids;
     sm_message := tool_result_message id name t err now; role_metadata := MetaTool id |}.

Definition to_llm_message (m : SessionMessage) : LlmMessage Json :=
  let msg := sm_message m in
  {| role := role msg; content := content msg; timestamp := timestamp msg; metadata := metadata msg;
     tool_call_id := match role_metadata m with MetaTool id => Some id | _ => tool_call_id msg end;
     usage := match role_metadata m with MetaAssistant _ _ u => Some u | _ => usage msg end |}.

(** ** Names of transcript files *)

(** [safe_filename_component] rewrites characters Windows rejects; elsewhere a
    name is kept as it is. *)
Definition windows_char (a : ascii) : ascii :=
  if existsb (Ascii.eqb a) ["<"%char; ">"%char; ":"%char; "034"%char; "/"%char; "\"%char; "|"%char; "?"%char; "*"%char]
     || (N_of_ascii a <? 0x20)%N then "-"%char else a.
Fixpoint windows_name (s : string) : string :=
  match s with EmptyString => EmptyString | String a s => String (windows_char a) (windows_name s) end.
Definition safe_filename_component (windows : bool) (s : string) : string := if windows then windows_name s else s.

Abbreviation unix_name := (safe_filename_component false).
Definition session_path (id : string) : string := unix_name id +:+ ".jsonl".
Definition session_tmp_path (id : string) : string := unix_name id +:+ ".tmp".
Definition context_cache_path (id : string) : string := unix_name id +:+ ".context.cache".
Definition page_path (id : string) (n : Z) : string := unix_name id +:+ "." +:+ dec n +:+ ".jsonl".

(** A directory: the contents of its files by name. *)
Notation "'Dir'" := (gmap string string) (only parsing).
Definition names (d : Dir) : list string := map fst (map_to_list d).

(** The page number a file name carries, if it is a page of the session. *)
Definition page_number (id name : string) : option Z :=
  rest ← strip_prefix (unix_name id +:+ ".") name;
  n ← strip_suffix ".jsonl" rest;
  parse_u32 n.
Definition page_numbers (d : Dir) (id : string) : list Z := sort_by Z.leb (omap (page_number id) (names d)).

(** [is_page_file_name]: [rsplit_once('.')] cuts at the last dot. *)
Fixpoint rsplit_once (c : ascii) (s : string) : option (string * string) :=
  match s with
  | EmptyString => None
  | String a s =>
      match rsplit_once c s with
      | Some (l, r) => Some (String a l, r)
      | None => if decide (a = c) then Some (EmptyString, s) else None
      end
  end.
Definition is_page_file_name (name : string) : bool :=
  match strip_suffix ".jsonl" name with
  | None => false
  | Some stem =>
      match rsplit_once "." stem with
      | None => false
      | Some (_, suffix) => negb (String.eqb suffix "") && all_bytes is_digit suffix
      end
  end.

Definition transcript_paths (d : Dir) (id : string) : list string :=
  List.filter (fun p => is_some (d !! p)) (map (page_path id) (page_numbers d id))
    ++ (if is_some (d !! session_path id) then [session_path id] else []).

(** ** The storage *)

(** The JSON of a line: [serde_json::to_string] and [from_str]. *)
Class SessionJson := {
  event_line : SessionEvent -> string;
  event_of : string -> option SessionEvent;
}.
Class SessionJsonLaws (J : SessionJson) : Prop := {
  event_line_one e : str_has LF (event_line e) = false;
  event_of_line e : event_of (event_line e) = Some e;
  event_of_blank s : is_blank s = true -> event_of s = None;
  event_of_cr s : event_of (s +:+ String CR EmptyString) = event_of s;
}.

Section Storage.
Context {J : SessionJson}.

Definition newline : string := String LF EmptyString.
Definition append_bytes (d : Dir) (path bytes : string) : Dir := <[path := default "" (d !! path) +:+ bytes]> d.
Definition append_event (d : Dir) (id : string) (e : SessionEvent) : Dir :=
  append_bytes d (session_path id) (event_line e +:+ newline).

Definition invalidate_context_cache (d : Dir) (id : string) : Dir := delete (context_cache_path id) d.
Definition cleanup_temp_files (d : Dir) (id : string) : Dir := delete (session_tmp_path id) d.

(** [page_session_file]: the live file becomes the page after the last. *)
Definition page_session_file (d : Dir) (id : string) : Z * Dir :=
  let n := (foldr Z.max 0 (page_numbers d id) + 1)%Z in
  let d := match d !! session_path id with
           | Some live => <[page_path id n := live]> (delete (session_path id) d)
           | None => d
           end in
  (n, invalidate_context_cache d id).

Inductive RotationOutcome := NoRotation | Paged (session_id : string) (page_n : Z).
Definition append_event_with_rotation (rotate_bytes : nat) (d : Dir) (id : string) (e : SessionEvent)
    : RotationOutcome * Dir :=
  let line := event_line e +:+ newline in
  let current_size := String.length (default "" (d !! session_path id)) in
  if Nat.leb (current_size + String.length line) rotate_bytes
  then (NoRotation, append_bytes d (session_path id) line)
  else let '(page_n, d) := page_session_file d id in
       (Paged id page_n, append_bytes d (session_path id) line).

(** The lines of a file that are not blank, and the events among them. *)
Definition written_lines (c : string) : list string := List.filter (fun l => negb (is_blank l)) (lines c).
Definition file_events (c : string) : list SessionEvent := omap event_of (written_lines c).
Definition read_file (d : Dir) (path : string) : list SessionEvent := file_events (default "" (d !! path)).
Definition load_events (d : Dir) (id : string) : list SessionEvent * Dir :=
  let d := cleanup_temp_files d id in
  (flat_map (read_file d) (transcript_paths d id), d).

(** [prune_head]: the lines of one file kept, how many events were dropped in
    it, and how many are still to be dropped. *)
Fixpoint prune_lines (remaining : nat) (ls : list string) : list string * nat * nat :=
  match ls with
  | [] => ([], 0, remaining)
  | l :: ls =>
      match remaining, event_of l with
      | S remaining, Some _ =>
          let '(kept, dropped, rest) := prune_lines remaining ls in (kept, S dropped, rest)
      | _, _ => let '(kept, dropped, rest) := prune_lines remaining ls in (l :: kept, dropped, rest)
      end
  end.
Definition rewrite_file (d : Dir) (live path : string) (kept : list string) : Dir :=
  match kept with
  | [] => if String.eqb path live then <[path := ""]> d else delete path d
  | _ => <[path := join_with newline kept +:+ newline]> d
  end.
Fixpoint prune_files (d : Dir) (live : string) (remaining : nat) (paths : list string) : Dir :=
  match paths with
  | [] => d
  | path :: paths =>
      match remaining with
      | O => d
      | _ =>
          let '(kept, dropped, rest) := prune_lines remaining (written_lines (default "" (d !! path))) in
          let d := match dropped with O => d | _ => rewrite_file d live path kept end in
          prune_files d live rest paths
      end
  end.
Definition prune_head (d : Dir) (id : string) (drop_events : nat) : Dir :=
  match drop_events with
  | O => d
  | _ => let d := cleanup_temp_files d id in
         invalidate_context_cache (prune_files d (session_path id) drop_events (transcript_paths d id)) id
  end.

(** [create_session_with_header]: [ids] are the event ids made up. *)
Definition create_session_with_header (ids : string * string) (now : Z) (d : Dir) (id : string) (cwd : option string)
    (trigger : SessionTrigger) (parent : option string) : Dir :=
  let header := SessionCreated {| sc_envelope := envelope_new (fst ids) now; instance_id := id; image_digest := "";
                                  sc_parent_session_id := parent; sc_trigger := trigger |} in
  let d := <[session_path id := event_line header +:+ newline]> d in
  match cwd with
  | None => d
  | Some path =>
      append_event d id (SystemEv {| sys_envelope := envelope_new (snd ids) now; sys_event := "cwd";
                                     sys_detail := JObject [("path", JString path)] |})
  end.
Definition append_model_change (entry_id : string) (now : Z) (d : Dir) (id provider model_id : string) : Dir :=
  append_event d id (SystemEv {| sys_envelope := envelope_new entry_id now; sys_event := "model_change";
                                 sys_detail := JObject [("model_id", JString model_id); ("provider", JString provider)] |}).
(** [details] is the JSON of the file operations, if any. *)
Definition compaction_event (entry_id : string) (now : Z) (summary : string)
    (messages_compacted tokens_before tokens_after compaction_number : Z) (details : option Json) : SessionEvent :=
  let detail := [("compaction_number", JNumber (dec compaction_number));
                 ("messages_compacted", JNumber (dec messages_compacted)); ("summary", JString summary);
                 ("tokens_after", JNumber (dec tokens_after)); ("tokens_before", JNumber (dec tokens_before))] in
  SystemEv {| sys_envelope := envelope_new entry_id now; sys_event := "compaction";
              sys_detail := JObject (match details with Some v => insert_field "details" v detail | None => detail end) |}.
Definition append_compaction (entry_id : string) (now : Z) (d : Dir) (id summary : string)
    (messages_compacted tokens_before tokens_after compaction_number : Z) (details : option Json) : Dir :=
  append_event d id (compaction_event entry_id now summary messages_compacted tokens_before tokens_after compaction_number details).

Definition session_exists (d : Dir) (id : string) : bool :=
  is_some (d !! session_path id) || negb (match page_numbers d id with [] => true | _ => false end).
(** [trim_end_matches(".jsonl")] takes every such ending off. *)
Fixpoint trim_jsonl (fuel : nat) (name : string) : string :=
  match fuel, strip_suffix ".jsonl" name with
  | S fuel, Some stem => trim_jsonl fuel stem
  | _, _ => name
  end.
Definition list_sessions (d : Dir) : list string :=
  sort_by (fun a b => String.leb b a)
    (map (fun name => trim_jsonl (String.length name) name)
       (List.filter (fun name => ends_with ".jsonl" name && negb (is_page_file_name name)) (names d))).

(** [rotate_oversized_sessions]: the number of sessions paged, and the
    directory; ids with [#] are left alone. *)
Definition rotate_oversized (rotate_bytes : nat) (st : nat * Dir) (id : string) : nat * Dir :=
  let '(rotated, d) := st in
  if str_has "#" id then st
  else match d !! session_path id with
       | None => st
       | Some c => if Nat.leb (String.length c) rotate_bytes then st else (S rotated, snd (page_session_file d id))
       end.
Definition rotate_oversized_sessions (rotate_bytes : nat) (d : Dir) : nat * Dir :=
  fold_left (rotate_oversized rotate_bytes) (list_sessions d) (0, d).

Definition copy_file (d : Dir) (from to : string) : Dir :=
  match d !! from with Some c => <[to := c]> d | None => d end.
Definition copy_session (d : Dir) (source target : string) : result Dir string :=
  if negb (session_exists d source) then Err ("Source session " +:+ source +:+ " does not exist")
  else
    let d := fold_left (fun d n => copy_file d (page_path source n) (page_path target n)) (page_numbers d source) d in
    Ok (copy_file d (session_path source) (session_path target)).
Definition delete_session (d : Dir) (id : string) : Dir :=
  let d := delete (session_path id) d in
  let d := fold_left (fun d n => delete (page_path id n) d) (page_numbers d id) d in
  delete (context_cache_path id) d.
End Storage.

(** ** Lines read back *)

Lemma omap_filter {A B} (f : A -> option B) (p : A -> bool) l :
  (forall x, p x = false -> f x = None) -> omap f (List.filter p l) = omap f l.
Proof.
  intros H. induction l as [|x l IH]; [done|]. cbn [List.filter]. destruct (p x) eqn:E; csimpl; rewrite IH; [done|].
  by rewrite H.
Qed.
Lemma split_lines_cons s : exists l ls, split_lines s = l :: ls.
Proof. destruct s as [|c s]; cbn [split_lines]; [eauto|]. destruct (Ascii.eqb c LF); [eauto|]. destruct (split_lines s); eauto. Qed.
Lemma split_at_newline a b : split_lines (a +:+ newline +:+ b) = split_lines a ++ split_lines b.
Proof. exact (split_lines_app a b). Qed.
Lemma drop_last_cr_spec s : drop_last_cr s = s \/ s = drop_last_cr s +:+ String CR EmptyString.
Proof.
  induction s as [|c s IH]; [by left|]. cbn [drop_last_cr]. destruct s as [|b s].
  - destruct (Ascii.eqb_spec c CR) as [->|]; [by right|by left].
  - destruct IH as [IH|IH]; [left; by rewrite IH|right]. rewrite app_cons_str. by rewrite <- IH.
Qed.

(** A file that is empty or ends in a line break. *)
Definition whole (c : string) : Prop := c = "" \/ exists a, c = a +:+ newline.

Section Lines.
Context {J : SessionJson} {L : SessionJsonLaws J}.

Lemma event_of_drop_cr s : event_of (drop_last_cr s) = event_of s.
Proof. destruct (drop_last_cr_spec s) as [->|E]; [done|]. rewrite E at 2. by rewrite event_of_cr. Qed.
Lemma omap_end_lines ls : omap event_of (end_lines ls) = omap event_of ls.
Proof.
  induction ls as [|l ls IH]; [done|]. cbn [end_lines]. destruct ls as [|l' ls].
  - destruct l; [|done]. csimpl. by rewrite event_of_blank.
  - revert IH. generalize (end_lines (l' :: ls)), (l' :: ls). intros m n IH. csimpl.
    rewrite event_of_drop_cr. by destruct (event_of l); rewrite IH.
Qed.
Lemma file_events_split c : file_events c = omap event_of (split_lines c).
Proof.
  unfold file_events, written_lines, lines. rewrite omap_filter, omap_end_lines; [done|].
  intros l H. apply event_of_blank. by apply negb_false_iff.
Qed.
Lemma file_events_nil : file_events "" = [].
Proof. done. Qed.
Lemma file_events_app a b : file_events (a +:+ newline +:+ b) = file_events a ++ file_events b.
Proof. by rewrite !file_events_split, split_at_newline, omap_app. Qed.
Lemma file_events_whole c t : whole c -> file_events (c +:+ t) = file_events c ++ file_events t.
Proof.
  intros [->|[a ->]]; [done|]. rewrite <- app_assoc_str, file_events_app.
  rewrite <- (app_nil_r_str newline), file_events_app, file_events_nil. by rewrite app_nil_r.
Qed.
Lemma split_lines_none s : str_has LF s = false -> split_lines s = [s].
Proof.
  induction s as [|c s IH]; intros H; [done|]. cbn [str_has] in H. case_decide as Hc; [done|].
  cbn [split_lines]. rewrite (proj2 (Ascii.eqb_neq c LF)) by done. by rewrite IH.
Qed.
Lemma file_events_line e : file_events (event_line e +:+ newline) = [e].
Proof.
  rewrite <- (app_nil_r_str newline), file_events_app, file_events_nil, app_nil_r, file_events_split.
  rewrite split_lines_none by apply event_line_one. csimpl. by rewrite event_of_line.
Qed.
Lemma split_lines_join ls :
  Forall (fun l => str_has LF l = false) ls -> ls <> [] -> split_lines (join_with newline ls) = ls.
Proof.
  induction 1 as [|l ls Hl _ IH]; intros H; [done|]. destruct (decide (ls = [])) as [->|Hn].
  - by apply split_lines_none.
  - rewrite join_cons, split_at_newline, IH, split_lines_none; [done|done|done|done].
Qed.
Lemma split_lines_lf s : Forall (fun l => str_has LF l = false) (split_lines s).
Proof.
  induction s as [|c s IH]; cbn [split_lines]; [by repeat constructor|].
  destruct (Ascii.eqb_spec c LF) as [|Hc]; [by constructor|].
  destruct (split_lines s) as [|l ls]; [|inversion_clear IH as [|?? Hl Hls]];
    (constructor; [cbn [str_has]; by rewrite decide_False|done]).
Qed.
Lemma str_has_drop_cr c s : str_has c s = false -> str_has c (drop_last_cr s) = false.
Proof.
  intros H. destruct (drop_last_cr_spec s) as [->|E]; [done|]. rewrite E, str_has_app in H.
  by apply orb_false_iff in H as [H _].
Qed.
Lemma written_lines_lf c : Forall (fun l => str_has LF l = false) (written_lines c).
Proof.
  apply Forall_forall. unfold written_lines.
  intros l Hl. apply list_elem_of_In, filter_In in Hl as [Hl%list_elem_of_In _]. revert l Hl.
  apply Forall_forall. unfold lines. pose proof (split_lines_lf c) as H. induction H as [|l ls Hl Hls IH]; [done|].
  cbn [end_lines]. destruct ls as [|l' ls]; [by destruct l; repeat constructor|].
  constructor; [by apply str_has_drop_cr|done].
Qed.

(** *** Dropping the head of a file *)

Lemma prune_lines_spec k ls kept dropped rest :
  prune_lines k ls = (kept, dropped, rest) ->
  omap event_of kept = drop k (omap event_of ls) /\ rest = k - length (omap event_of ls) /\
  dropped = k - rest /\ (forall l, l ∈ kept -> l ∈ ls) /\ (dropped = 0 -> kept = ls).
Proof.
  revert k kept dropped rest. induction ls as [|l ls IH]; intros k kept dropped rest H; cbn [prune_lines] in H.
  - simplify_eq. csimpl. rewrite drop_nil. split_and!; try done; lia.
  - destruct k as [|k].
    + destruct (prune_lines 0 ls) as [[kept' dropped'] rest'] eqn:E. simplify_eq.
      destruct (IH _ _ _ _ E) as (He&Hr&Hd&Hi&Hk). rewrite drop_0 in *. csimpl. rewrite He.
      split_and!; [done|lia|lia|intros x; set_solver|intros ?; f_equal; by apply Hk].
    + destruct (event_of l) as [ev|] eqn:Ev; destruct (prune_lines _ ls) as [[kept' dropped'] rest'] eqn:E;
        simplify_eq; destruct (IH _ _ _ _ E) as (He&Hr&Hd&Hi&Hk); csimpl; rewrite Ev.
      * cbn [drop length]. split_and!; [done|lia|lia|set_solver|done].
      * split_and!; [done|done|done|set_solver|intros ?; f_equal; by apply Hk].
Qed.

End Lines.

(** ** Pages of a directory *)

(** An id without a dot, as a UUID is. *)
Definition dot_free (id : string) : Prop := str_has "." id = false.
(** The files that look like pages of the session are its pages. *)
Definition tidy (d : Dir) (id : string) : Prop :=
  forall name n, is_Some (d !! name) -> page_number id name = Some n -> name = page_path id n.
Definition u32 (n : Z) : Prop := (0 <= n <= u32_max)%Z.

Lemma page_number_page id n : u32 n -> page_number id (page_path id n) = Some n.
Proof.
  intros H. unfold page_number, page_path, unix_name. rewrite app_assoc_str, strip_prefix_app. cbn [mbind option_bind].
  rewrite (proj2 (strip_suffix_Some _ _ (dec n)) eq_refl). cbn [mbind option_bind]. by apply parse_u32_dec.
Qed.
Lemma page_number_u32 id name n : page_number id name = Some n -> u32 n.
Proof.
  unfold page_number, parse_u32. intros H. destruct (strip_prefix _ _) as [r|]; [|done]. cbn in H.
  destruct (strip_suffix _ _) as [t|]; [|done]. cbn in H. destruct (parse_usize t) as [m|] eqn:E; [|done].
  apply parse_usize_range in E. destruct (Z.leb_spec m u32_max); [|done]. simplify_eq. unfold u32. lia.
Qed.
(** A name that starts with a dot-free id and a dot. *)
Lemma page_number_suffix id s : dot_free id -> page_number id (id +:+ "." +:+ s) = (n ← strip_suffix ".jsonl" s; parse_u32 n).
Proof. intros _. unfold page_number, unix_name. rewrite app_assoc_str, strip_prefix_app. done. Qed.
Lemma page_number_other id id' s : dot_free id -> dot_free id' -> id <> id' -> page_number id (id' +:+ "." +:+ s) = None.
Proof.
  intros Hi Hi' Hn. unfold page_number, unix_name. destruct (strip_prefix _ _) as [r|] eqn:E; [|done]. exfalso.
  apply strip_prefix_Some in E. rewrite <- app_assoc_str in E. cbn in E.
  apply (f_equal (split_once ".")) in E. change ("." +:+ s) with (String "." s) in E. change ("." +:+ r) with (String "." r) in E.
  rewrite !split_once_app in E by done. congruence.
Qed.
Lemma session_path_dot id : session_path id = id +:+ "." +:+ "jsonl".
Proof. done. Qed.
Lemma page_path_inj id n m : (0 <= n)%Z -> (0 <= m)%Z -> page_path id n = page_path id m -> n = m.
Proof.
  unfold page_path. intros Hn Hm E. do 2 apply app_inj_l_str in E. apply app_inj_r_str in E.
  by rewrite <- (digits_value_dec n), <- (digits_value_dec m), E.
Qed.
Lemma page_path_live id n : page_path id n <> session_path id.
Proof.
  unfold page_path, session_path. intros E. apply app_inj_l_str in E. apply (f_equal String.length) in E.
  rewrite !length_app_str in E. cbn in E. lia.
Qed.

Section Numbers.
  Context (id : string) (Hid : dot_free id).

Lemma page_number_live : page_number id (session_path id) = None.
Proof. by rewrite session_path_dot, page_number_suffix. Qed.
Lemma page_number_tmp : page_number id (session_tmp_path id) = None.
Proof. exact (page_number_suffix id "tmp" Hid). Qed.
Lemma page_number_cache : page_number id (context_cache_path id) = None.
Proof. exact (page_number_suffix id "context.cache" Hid). Qed.

Lemma tidy_insert d name c : tidy d id -> (forall n, page_number id name = Some n -> name = page_path id n) -> tidy (<[name := c]> d) id.
Proof.
  intros Ht Hn name' n Hd H. destruct (decide (name = name')) as [->|Hne]; [by apply Hn|].
  rewrite lookup_insert_ne in Hd by done. by apply Ht.
Qed.
Lemma tidy_delete d name : tidy d id -> tidy (delete name d) id.
Proof.
  intros Ht name' n [c Hd] H. apply lookup_delete_Some in Hd as [_ Hd]. apply Ht; eauto.
Qed.

Lemma page_numbers_elem d n : tidy d id -> n ∈ page_numbers d id <-> u32 n /\ is_Some (d !! page_path id n).
Proof.
  intros Ht. unfold page_numbers. rewrite sort_by_perm, list_elem_of_omap. unfold names. split.
  - intros (name & Hin & Hp). apply list_elem_of_fmap in Hin as ([k c] & -> & Hin). apply elem_of_map_to_list in Hin.
    cbn in *. split; [by eapply page_number_u32|]. rewrite <- (Ht k n); eauto.
  - intros [Hn [c Hc]]. exists (page_path id n). split; [|by apply page_number_page].
    apply list_elem_of_fmap. exists (page_path id n, c). split; [done|]. by apply elem_of_map_to_list.
Qed.
Lemma page_numbers_nodup d : tidy d id -> NoDup (page_numbers d id).
Proof.
  intros Ht. unfold page_numbers. rewrite sort_by_perm. unfold names.
  assert (Hn : NoDup (map_to_list d).*1) by apply NoDup_fst_map_to_list. change (map fst (map_to_list d)) with ((map_to_list d).*1).
  assert (Hd : Forall (fun name => is_Some (d !! name)) (map_to_list d).*1).
  { apply Forall_fmap, Forall_forall. intros [k c] Hk. apply elem_of_map_to_list in Hk. cbn. eauto. }
  induction Hn as [|name l Hx Hn IH]; [constructor|]. inversion_clear Hd as [|?? Hname Hl]. csimpl.
  destruct (page_number id name) as [n|] eqn:E; [|by apply IH]. constructor; [|by apply IH].
  intros (name' & Hin & Hp)%list_elem_of_omap. apply Hx.
  rewrite (Ht name n), <- (Ht name' n); try done. rewrite Forall_forall in Hl. by apply Hl.
Qed.
Lemma page_numbers_sorted d : StronglySorted Z.le (page_numbers d id).
Proof.
  unfold page_numbers. assert (H : StronglySorted (fun a b => Z.leb a b = true) (sort_by Z.leb (omap (page_number id) (names d)))).
  { apply sort_by_sorted; [intros a b; lia|intros a b c; lia]. }
  induction H as [|a l _ IH Hf]; constructor; [done|]. eapply Forall_impl; [exact Hf|]. cbn. lia.
Qed.
(** The page numbers are the one sorted list of those for which there is a
    file. *)
Lemma page_numbers_unique d l :
  tidy d id -> StronglySorted Z.le l -> NoDup l ->
  (forall n, n ∈ l <-> u32 n /\ is_Some (d !! page_path id n)) -> page_numbers d id = l.
Proof.
  intros Ht Hs Hn Hl. eapply (StronglySorted_unique Z.le); [by apply page_numbers_sorted|done|].
  apply NoDup_Permutation; [by apply page_numbers_nodup|done|]. intros n. by rewrite page_numbers_elem, Hl.
Qed.
End Numbers.

(** ** The transcript of a session *)

Create HintDb touch.

Section Transcript.
Context {J : SessionJson} {L : SessionJsonLaws J}.

Definition events (d : Dir) (id : string) : list SessionEvent := fst (load_events d id).
Definition page_events (d : Dir) (id : string) : list SessionEvent :=
  flat_map (fun n => read_file d (page_path id n)) (page_numbers d id).
Definition live (d : Dir) (id : string) : string := default "" (d !! session_path id).
(** A session whose files are its own and whose live file ends in a line break. *)
Definition sound_log (d : Dir) (id : string) : Prop := dot_free id /\ tidy d id /\ whole (live d id).
Definition last_page (d : Dir) (id : string) : Z := foldr Z.max 0%Z (page_numbers d id).

Lemma flat_map_ext_in {A B} (f g : A -> list B) l : (forall x, x ∈ l -> f x = g x) -> flat_map f l = flat_map g l.
Proof. intros H. induction l as [|x l IH]; [done|]. cbn. rewrite H, IH; [done|set_solver..]. Qed.
Lemma page_path_ne id name n : page_number id name = None -> u32 n -> page_path id n <> name.
Proof. intros H Hn <-. by rewrite page_number_page in H. Qed.
Lemma pages_ext d d' id :
  tidy d id -> tidy d' id -> (forall n, u32 n -> d' !! page_path id n = d !! page_path id n) ->
  page_numbers d' id = page_numbers d id /\ page_events d' id = page_events d id.
Proof.
  intros Ht Ht' H. assert (Hp : page_numbers d' id = page_numbers d id).
  { apply page_numbers_unique; [done|apply page_numbers_sorted|by apply page_numbers_nodup|].
    intros n. rewrite page_numbers_elem by done. split; intros [Hn Hs]; (split; [done|]); by rewrite H in *. }
  split; [done|]. unfold page_events. rewrite Hp. apply flat_map_ext_in.
  intros n Hn. apply page_numbers_elem in Hn as [Hn _]; [|done]. unfold read_file. by rewrite H.
Qed.
Lemma files_present d id :
  tidy d id -> List.filter (fun p => is_some (d !! p)) (map (page_path id) (page_numbers d id)) = map (page_path id) (page_numbers d id).
Proof.
  intros Ht. assert (H : Forall (fun n => is_Some (d !! page_path id n)) (page_numbers d id)).
  { apply Forall_forall. intros n Hn. by apply page_numbers_elem in Hn as [_ Hn]. }
  induction H as [|n l [c Hc] _ IH]; [done|]. cbn. rewrite Hc. cbn. by rewrite IH.
Qed.
Lemma read_missing d p : d !! p = None -> read_file d p = [].
Proof. intros H. unfold read_file. by rewrite H. Qed.
Lemma flat_map_map {A B C} (f : A -> B) (g : B -> list C) l : flat_map g (map f l) = flat_map (fun x => g (f x)) l.
Proof. induction l as [|x l IH]; [done|]. cbn. by rewrite IH. Qed.

Lemma transcript_read d id :
  tidy d id -> flat_map (read_file d) (transcript_paths d id) = page_events d id ++ read_file d (session_path id).
Proof.
  intros Ht. unfold transcript_paths. rewrite files_present, flat_map_app, flat_map_map by done. f_equal.
  destruct (d !! session_path id) eqn:E; cbn; [by rewrite app_nil_r|]. by rewrite read_missing.
Qed.
Lemma cleanup_pages d id : dot_free id -> tidy d id ->
  tidy (cleanup_temp_files d id) id /\ page_numbers (cleanup_temp_files d id) id = page_numbers d id /\
  page_events (cleanup_temp_files d id) id = page_events d id.
Proof.
  intros Hid Ht. assert (Ht' : tidy (cleanup_temp_files d id) id) by (by apply tidy_delete).
  split; [done|]. apply pages_ext; [done..|]. intros n Hn. unfold cleanup_temp_files.
  rewrite lookup_delete_ne; [done|]. apply not_eq_sym, page_path_ne; [by apply page_number_tmp|done].
Qed.
Lemma live_cleanup d id : cleanup_temp_files d id !! session_path id = d !! session_path id.
Proof.
  unfold cleanup_temp_files. rewrite lookup_delete_ne; [done|]. intros E%app_inj_l_str. done.
Qed.
Lemma events_view d id : dot_free id -> tidy d id -> events d id = page_events d id ++ file_events (live d id).
Proof.
  intros Hid Ht. unfold events, load_events. cbn [fst]. destruct (cleanup_pages d id) as (Ht' & _ & Hp); [done..|].
  rewrite transcript_read by done. rewrite Hp. f_equal. unfold read_file, live. by rewrite live_cleanup.
Qed.

(** *** Appending *)

Lemma append_pages d id s : dot_free id -> tidy d id ->
  tidy (append_bytes d (session_path id) s) id /\
  page_numbers (append_bytes d (session_path id) s) id = page_numbers d id /\
  page_events (append_bytes d (session_path id) s) id = page_events d id.
Proof.
  intros Hid Ht. assert (Ht' : tidy (append_bytes d (session_path id) s) id).
  { apply tidy_insert; [done|]. intros n. by rewrite page_number_live. }
  split; [done|]. apply pages_ext; [done..|]. intros n Hn. unfold append_bytes. rewrite lookup_insert_ne; [done|].
  apply not_eq_sym, page_path_live.
Qed.
Lemma live_append d id s : live (append_bytes d (session_path id) s) id = live d id +:+ s.
Proof. unfold live, append_bytes. by rewrite lookup_insert_eq. Qed.
Lemma whole_line c e : whole (c +:+ event_line e +:+ newline).
Proof. right. exists (c +:+ event_line e). by rewrite app_assoc_str. Qed.

Lemma append_sound d id e : sound_log d id ->
  let d' := append_event d id e in
  sound_log d' id /\ events d' id = events d id ++ [e] /\ page_numbers d' id = page_numbers d id.
Proof.
  intros (Hid & Ht & Hw). cbv zeta. unfold append_event.
  destruct (append_pages d id (event_line e +:+ newline)) as (Ht' & Hp & Hv); [done..|].
  split_and!; [split_and!; [done..|rewrite live_append; apply whole_line]| |done].
  rewrite !events_view, live_append, Hv by done. rewrite file_events_whole, file_events_line by done. by rewrite app_assoc.
Qed.

(** *** Paging *)

Lemma max_le l n : (n ∈ l -> n <= foldr Z.max 0 l)%Z.
Proof. induction l as [|m l IH]; cbn; [by intros ?%not_elem_of_nil|]. intros [->|H]%elem_of_cons; [lia|]. specialize (IH H). lia. Qed.
Lemma max_nonneg l : (0 <= foldr Z.max 0 l)%Z.
Proof. induction l; cbn; lia. Qed.
Lemma max_snoc l n : (foldr Z.max 0 l <= n -> foldr Z.max 0 (l ++ [n]) = n)%Z.
Proof. induction l as [|m l IH]; cbn; intros H; [lia|]. rewrite IH; lia. Qed.

(** The live file, with content [c], becomes page [n]; the cache goes. *)
Definition paged (d : Dir) (id : string) (n : Z) (c : string) : Dir :=
  invalidate_context_cache (<[page_path id n := c]> (delete (session_path id) d)) id.

Lemma cache_other id m : dot_free id -> u32 m -> context_cache_path id <> page_path id m.
Proof. intros Hid Hm. apply not_eq_sym, page_path_ne; [by apply page_number_cache|done]. Qed.
Lemma cache_live id : context_cache_path id <> session_path id.
Proof. intros E%app_inj_l_str. done. Qed.
Lemma paged_tidy d id n c : tidy d id -> u32 n -> tidy (paged d id n c) id.
Proof.
  intros Ht Hn. apply tidy_delete, tidy_insert; [by apply tidy_delete|]. intros m. rewrite page_number_page by done. congruence.
Qed.
Lemma paged_page d id n c m : dot_free id -> u32 n -> u32 m ->
  paged d id n c !! page_path id m = if decide (m = n) then Some c else d !! page_path id m.
Proof.
  intros Hid Hn Hm. unfold paged, invalidate_context_cache. rewrite lookup_delete_ne by (by apply cache_other). case_decide as E.
  - subst m. by rewrite lookup_insert_eq.
  - rewrite lookup_insert_ne, lookup_delete_ne; [done|apply not_eq_sym, page_path_live|].
    intros Eq%page_path_inj; [done|unfold u32 in *; lia..].
Qed.
Lemma paged_live d id n c : paged d id n c !! session_path id = None.
Proof.
  unfold paged, invalidate_context_cache.
  rewrite lookup_delete_ne, lookup_insert_ne, lookup_delete_eq; [done|apply page_path_live|apply cache_live].
Qed.
Lemma paged_numbers d id n c : dot_free id -> tidy d id -> u32 n -> (last_page d id < n)%Z ->
  page_numbers (paged d id n c) id = page_numbers d id ++ [n].
Proof.
  intros Hid Ht Hn Hl. unfold last_page in Hl. apply page_numbers_unique; [by apply paged_tidy| | |].
  - apply StronglySorted_app_2; [|apply page_numbers_sorted|repeat constructor].
    intros a b Ha ->%list_elem_of_singleton. apply max_le in Ha. lia.
  - apply NoDup_app. split_and!; [by apply page_numbers_nodup| |apply NoDup_singleton].
    intros a Ha%max_le ->%list_elem_of_singleton. lia.
  - intros m. rewrite elem_of_app, list_elem_of_singleton, page_numbers_elem by done. split.
    + intros [[Hm Hs]| ->]; (split; [done|]); rewrite paged_page by done; case_decide; done || eauto.
    + intros [Hm Hs]. rewrite paged_page in Hs by done. case_decide; [by right|by left].
Qed.
Lemma paged_events d id n c : dot_free id -> tidy d id -> u32 n -> (last_page d id < n)%Z ->
  d !! session_path id = Some c -> events (paged d id n c) id = events d id.
Proof.
  intros Hid Ht Hn Hl Hc. rewrite !events_view by (done || by apply paged_tidy). unfold live. rewrite paged_live, Hc.
  unfold page_events. rewrite paged_numbers, flat_map_app by done. cbn [flat_map default Datatypes.id]. change (file_events "") with (@nil SessionEvent). rewrite (app_nil_r (_ ++ _)), (app_nil_r (read_file _ _)). f_equal.
  - apply flat_map_ext_in. intros m Hm. unfold read_file. pose proof Hm as [Hu _]%page_numbers_elem; [|done].
    rewrite paged_page, decide_False; [done| |done..]. intros ->. apply max_le in Hm. unfold last_page in Hl. lia.
  - unfold read_file. by rewrite paged_page, decide_True.
Qed.

Lemma page_file_sound d id : sound_log d id -> (last_page d id < u32_max)%Z ->
  let d' := snd (page_session_file d id) in
  sound_log d' id /\ events d' id = events d id /\ (last_page d' id <= last_page d id + 1)%Z.
Proof.
  intros (Hid & Ht & Hw) Hmax. cbv zeta. unfold page_session_file. cbn [snd]. fold (last_page d id).
  assert (Hn : u32 (last_page d id + 1)) by (pose proof (max_nonneg (page_numbers d id)); unfold u32, last_page in *; lia).
  destruct (d !! session_path id) as [c|] eqn:Hc.
  - fold (paged d id (last_page d id + 1) c). split_and!; [split_and!|apply paged_events|]; try done; try lia.
    + by apply paged_tidy.
    + unfold live. rewrite paged_live. by left.
    + unfold last_page at 1. rewrite paged_numbers, max_snoc by (done || lia || (unfold last_page; lia)). lia.
  - assert (Ht' : tidy (invalidate_context_cache d id) id) by (by apply tidy_delete).
    destruct (pages_ext d (invalidate_context_cache d id) id) as [Hp Hv]; [done..| |].
    { intros m Hm. unfold invalidate_context_cache. rewrite lookup_delete_ne; [done|by apply cache_other]. }
    assert (Hl : live (invalidate_context_cache d id) id = live d id)
      by (unfold live, invalidate_context_cache; by rewrite lookup_delete_ne by apply cache_live).
    split_and!; [split_and!; [done..|by rewrite Hl]|by rewrite !events_view, Hv, Hl|unfold last_page; rewrite Hp; lia].
Qed.

Lemma append_rotation_sound rotate_bytes d id e : sound_log d id -> (last_page d id < u32_max)%Z ->
  let d' := snd (append_event_with_rotation rotate_bytes d id e) in
  sound_log d' id /\ events d' id = events d id ++ [e] /\ (last_page d' id <= last_page d id + 1)%Z.
Proof.
  intros Hs Hmax. cbv zeta. unfold append_event_with_rotation. destruct (Nat.leb _ _); cbn [snd].
  - destruct (append_sound d id e Hs) as (Hs' & He & Hp). split_and!; [done..|unfold last_page; unfold append_event in Hp; rewrite Hp; lia].
  - destruct (page_file_sound d id Hs Hmax) as (Hs1 & He1 & Hl1). destruct (page_session_file d id) as [n d1]. cbn [snd] in *.
    destruct (append_sound d1 id e Hs1) as (Hs2 & He2 & Hp). unfold append_event in *. split_and!; [done|by rewrite He2, He1|].
    unfold last_page at 1. by rewrite Hp.
Qed.
Lemma appends_sound rotate_bytes d id es : sound_log d id -> (last_page d id + Z.of_nat (length es) <= u32_max)%Z ->
  let d' := fold_left (fun d e => snd (append_event_with_rotation rotate_bytes d id e)) es d in
  sound_log d' id /\ events d' id = events d id ++ es.
Proof.
  cbv zeta. revert d. induction es as [|e es IH]; intros d Hs Hl; cbn [fold_left length] in *; [by rewrite app_nil_r|].
  destruct (append_rotation_sound rotate_bytes d id e Hs) as (Hs' & He & Hp); [lia|].
  destruct (IH _ Hs') as [Hs2 He2]; [lia|]. split; [done|]. by rewrite He2, He, <- app_assoc.
Qed.

(** *** Dropping the head *)

Lemma rewrite_other d lv path kept p : p <> path -> rewrite_file d lv path kept !! p = d !! p.
Proof.
  intros H. unfold rewrite_file. destruct kept; [destruct (String.eqb path lv)|];
    rewrite ?lookup_insert_ne, ?lookup_delete_ne by done; done.
Qed.
Lemma rewrite_reads d lv path kept :
  Forall (fun l => str_has LF l = false) kept -> read_file (rewrite_file d lv path kept) path = omap event_of kept.
Proof.
  intros H. unfold read_file, rewrite_file. destruct kept as [|l kept].
  - destruct (String.eqb path lv); rewrite ?lookup_insert_eq, ?lookup_delete_eq; done.
  - rewrite lookup_insert_eq. cbn [default Datatypes.id].
    rewrite <- (app_nil_r_str newline) at 2. rewrite file_events_app. change (file_events "") with (@nil SessionEvent).
    rewrite app_nil_r, file_events_split, split_lines_join; done.
Qed.
Lemma prune_files_other d lv k paths p : p ∉ paths -> prune_files d lv k paths !! p = d !! p.
Proof.
  revert d k. induction paths as [|path paths IH]; intros d k Hp; [done|]. apply not_elem_of_cons in Hp as [Hn Hp].
  cbn [prune_files]. destruct k as [|k]; [done|]. destruct (prune_lines _ _) as [[kept dropped] rest].
  rewrite IH by done. destruct dropped; [done|]. by apply rewrite_other.
Qed.
Lemma prune_files_reads d lv k paths :
  NoDup paths -> flat_map (read_file (prune_files d lv k paths)) paths = drop k (flat_map (read_file d) paths).
Proof.
  intros Hn. revert d k. induction Hn as [|path paths Hp Hn IH]; intros d k; [by destruct k|].
  cbn [prune_files]. destruct k as [|k]; [by rewrite drop_0|].
  destruct (prune_lines (S k) (written_lines (default "" (d !! path)))) as [[kept dropped] rest] eqn:E.
  destruct (prune_lines_spec _ _ _ _ _ E) as (He & Hr & Hd & Hi & Hk).
  set (d1 := match dropped with O => d | _ => rewrite_file d lv path kept end).
  cbn [flat_map]. rewrite drop_app. f_equal.
  - unfold read_file at 1. rewrite prune_files_other by done. fold (read_file d1 path).
    transitivity (omap event_of kept); [|done]. unfold d1. destruct dropped; [by rewrite Hk|].
    apply rewrite_reads. pose proof (written_lines_lf (default "" (d !! path))) as H. rewrite Forall_forall in *. auto.
  - rewrite IH, Hr. fold (read_file d path). f_equal. apply flat_map_ext_in. intros p Hin. unfold read_file. unfold d1.
    destruct dropped; [done|]. rewrite rewrite_other; [done|]. by intros ->.
Qed.
(** Only pages go away, and only files of the session are touched. *)
Lemma prune_files_present d lv k paths p :
  is_Some (prune_files d lv k paths !! p) -> (forall q, q ∈ paths -> is_Some (d !! q)) -> is_Some (d !! p).
Proof.
  intros H Hd. destruct (decide (p ∈ paths)); [by apply Hd|]. by rewrite prune_files_other in H.
Qed.
Lemma rewrite_live d lv kept : is_Some (rewrite_file d lv lv kept !! lv).
Proof. unfold rewrite_file. rewrite String.eqb_refl. destruct kept; rewrite lookup_insert_eq; eauto. Qed.

Lemma paths_nodup d id : dot_free id -> tidy d id -> NoDup (transcript_paths d id).
Proof.
  intros Hid Ht. unfold transcript_paths. rewrite files_present by done. apply NoDup_app. split_and!.
  - apply NoDup_fmap_2_strong; [|by apply page_numbers_nodup]. intros n m Hn Hm E.
    apply page_numbers_elem in Hn as [Hn _], Hm as [Hm _]; [|done..]. unfold u32 in *. eapply page_path_inj; [..|exact E]; lia.
  - intros p (n & -> & _)%list_elem_of_fmap. destruct (is_some _); [|set_solver].
    rewrite list_elem_of_singleton. apply page_path_live.
  - destruct (is_some _); [apply NoDup_singleton|constructor].
Qed.
Lemma path_elem d id p : dot_free id -> tidy d id -> p ∈ transcript_paths d id ->
  is_Some (d !! p) /\ (p = session_path id \/ exists n, u32 n /\ p = page_path id n).
Proof.
  intros Hid Ht Hp. unfold transcript_paths in Hp. rewrite files_present in Hp by done. apply elem_of_app in Hp as [Hp|Hp].
  - apply list_elem_of_fmap in Hp as (n & -> & Hn). apply page_numbers_elem in Hn as [Hn Hs]; [|done]. eauto.
  - destruct (d !! session_path id) as [c|] eqn:E; cbn in Hp; [|set_solver].
    apply list_elem_of_singleton in Hp as ->. eauto.
Qed.
Lemma page_in_paths d id n : tidy d id -> u32 n -> is_Some (d !! page_path id n) -> page_path id n ∈ transcript_paths d id.
Proof.
  intros Ht Hn Hs. unfold transcript_paths. rewrite files_present by done. apply elem_of_app. left.
  apply list_elem_of_fmap. exists n. split; [done|]. by apply page_numbers_elem.
Qed.

(** Reading the surviving files of a smaller directory is reading the old
    list: a file that is gone has no events. *)
Lemma flat_map_filter {A B} (f : A -> list B) (p : A -> bool) l :
  (forall x, p x = false -> f x = []) -> flat_map f (List.filter p l) = flat_map f l.
Proof. intros H. induction l as [|x l IH]; [done|]. cbn. destruct (p x) eqn:E; cbn; rewrite IH; [done|by rewrite H]. Qed.
Lemma smaller_numbers d d' id : tidy d id -> tidy d' id ->
  (forall n, is_Some (d' !! page_path id n) -> is_Some (d !! page_path id n)) ->
  page_numbers d' id = List.filter (fun n => is_some (d' !! page_path id n)) (page_numbers d id).
Proof.
  intros Ht Ht' H. apply page_numbers_unique; [done| | |].
  - pose proof (page_numbers_sorted id d) as Hs. induction Hs as [|n l Hs IH Hf]; [constructor|].
    cbn. destruct (is_some _); [|done]. constructor; [done|]. rewrite Forall_forall in *. intros m Hm.
    apply list_elem_of_In, filter_In in Hm as [Hm%list_elem_of_In _]. auto.
  - pose proof (page_numbers_nodup id d Ht) as Hn. induction Hn as [|n l Hx Hn IH]; [constructor|].
    cbn. destruct (is_some _); [|done]. constructor; [|done]. rewrite list_elem_of_In, filter_In, <- list_elem_of_In. naive_solver.
  - intros n. rewrite list_elem_of_In, filter_In, <- list_elem_of_In, page_numbers_elem by done. split.
    + intros [[Hn _] Hs]. split; [done|]. destruct (d' !! page_path id n); [eauto|done].
    + intros [Hn Hs]. split; [split; [done|by apply H]|]. by destruct Hs as [c ->].
Qed.

Lemma prune_sound d id k : dot_free id -> tidy d id ->
  let d' := prune_head d id k in tidy d' id /\ events d' id = drop k (events d id).
Proof.
  intros Hid Ht. cbv zeta. unfold prune_head. destruct k as [|k]; [by rewrite drop_0|].
  destruct (cleanup_pages d id) as (Ht0 & _ & Hv0); [done..|]. pose proof (live_cleanup d id) as Hl0.
  set (d0 := cleanup_temp_files d id) in *. set (d1 := prune_files d0 (session_path id) (S k) (transcript_paths d0 id)).
  assert (Hin : forall q, q ∈ transcript_paths d0 id -> is_Some (d0 !! q)) by (intros q Hq; by apply path_elem in Hq as [Hq _]).
  assert (Ht1 : tidy d1 id) by (intros name n Hs; apply Ht0; by eapply prune_files_present).
  assert (Ht2 : tidy (invalidate_context_cache d1 id) id) by (by apply tidy_delete).
  split; [done|].
  assert (He : forall x, tidy x id -> events x id = page_events x id ++ read_file x (session_path id)) by (intros; by apply events_view).
  transitivity (events d1 id).
  { rewrite !He by done. unfold read_file at 1, invalidate_context_cache. rewrite lookup_delete_ne by apply cache_live. f_equal.
    apply pages_ext; [done..|]. intros n Hn. unfold invalidate_context_cache. rewrite lookup_delete_ne; [done|by apply cache_other]. }
  transitivity (drop (S k) (flat_map (read_file d0) (transcript_paths d0 id))).
  - rewrite <- (prune_files_reads d0 (session_path id)) by (by apply paths_nodup). fold d1.
    rewrite He by done. unfold transcript_paths. rewrite files_present, flat_map_app, flat_map_map by done. f_equal.
    + unfold page_events. rewrite (smaller_numbers d0 d1) by (done || (intros n Hs; by eapply prune_files_present)).
      apply flat_map_filter. intros n Hn. apply read_missing. by destruct (d1 !! page_path id n).
    + destruct (d0 !! session_path id) eqn:E; cbn; [by rewrite app_nil_r|]. apply read_missing.
      destruct (d1 !! session_path id) eqn:E1; [|done]. exfalso.
      assert (Hc : is_Some (d0 !! session_path id)) by (eapply prune_files_present; [exact (mk_is_Some _ _ E1)|done]).
      rewrite E in Hc. by destruct Hc.
  - rewrite transcript_read, He by done. unfold read_file, d0. fold d0. by rewrite Hv0, Hl0.
Qed.
Lemma prune_files_whole d lv k paths :
  whole (default "" (d !! lv)) -> whole (default "" (prune_files d lv k paths !! lv)).
Proof.
  revert d k. induction paths as [|path paths IH]; intros d k H; [done|]. cbn [prune_files]. destruct k as [|k]; [done|].
  destruct (prune_lines _ _) as [[kept dropped] rest]. apply IH. destruct dropped; [done|].
  destruct (decide (lv = path)) as [<-|Hn]; [|by rewrite rewrite_other]. unfold rewrite_file. rewrite String.eqb_refl.
  destruct kept; rewrite lookup_insert_eq; [by left|right; eauto].
Qed.
Lemma prune_whole d id k : whole (live d id) -> whole (live (prune_head d id k) id).
Proof.
  intros H. unfold prune_head. destruct k as [|k]; [done|]. unfold live, invalidate_context_cache. rewrite lookup_delete_ne by apply cache_live.
  apply prune_files_whole. by rewrite live_cleanup.
Qed.
(** *** Other sessions *)

(** The names that belong to a session: its id, a dot and more. *)
Definition owned (id name : string) : Prop := exists s, name = id +:+ "." +:+ s.
Definition touches (d d' : Dir) (id : string) : Prop := forall name, ~ owned id name -> d' !! name = d !! name.

Lemma owned_apart id id' name : dot_free id -> dot_free id' -> id <> id' -> owned id name -> ~ owned id' name.
Proof.
  intros Hi Hi' Hn [s ->] [t E]. change ("." +:+ s) with (String "." s) in E. change ("." +:+ t) with (String "." t) in E.
  apply (f_equal (split_once ".")) in E. rewrite !split_once_app in E by done. congruence.
Qed.
Lemma owned_live id : owned id (session_path id).
Proof. by exists "jsonl". Qed.
Lemma owned_tmp id : owned id (session_tmp_path id).
Proof. by exists "tmp". Qed.
Lemma owned_cache id : owned id (context_cache_path id).
Proof. by exists "context.cache". Qed.
Lemma owned_page id n : owned id (page_path id n).
Proof. by exists (dec n +:+ ".jsonl"). Qed.
Lemma owned_number id name n : page_number id name = Some n -> owned id name.
Proof.
  unfold page_number. destruct (strip_prefix _ _) as [r|] eqn:E; [|done]. intros _. apply strip_prefix_Some in E as ->.
  exists r. by rewrite <- app_assoc_str.
Qed.
Lemma touches_refl d id : touches d d id.
Proof. done. Qed.
Lemma touches_trans d1 d2 d3 id : touches d1 d2 id -> touches d2 d3 id -> touches d1 d3 id.
Proof. intros H1 H2 name Hn. by rewrite H2, H1. Qed.
Lemma touches_insert d id p c : owned id p -> touches d (<[p := c]> d) id.
Proof. intros Hp name Hn. rewrite lookup_insert_ne; [done|]. by intros ->. Qed.
Lemma touches_delete d id p : owned id p -> touches d (delete p d) id.
Proof. intros Hp name Hn. rewrite lookup_delete_ne; [done|]. by intros ->. Qed.
#[local] Hint Resolve owned_live owned_tmp owned_cache owned_page touches_insert touches_delete touches_refl : touch.

Lemma other_session d d' id id' :
  dot_free id -> dot_free id' -> id <> id' -> touches d d' id -> tidy d id' ->
  tidy d' id' /\ events d' id' = events d id'.
Proof.
  intros Hi Hi' Hn Ht Hd. assert (Hs : forall name, owned id' name -> d' !! name = d !! name).
  { intros name Ho. apply Ht. by apply (owned_apart id' id). }
  assert (Hd' : tidy d' id').
  { intros name n Hname Hp. apply Hd; [|done]. by rewrite <- Hs by (by eapply owned_number). }
  split; [done|]. rewrite !events_view by done. unfold live. rewrite Hs by apply owned_live. f_equal.
  apply pages_ext; [done..|]. intros n _. apply Hs, owned_page.
Qed.

(** The operations on one session. *)
Inductive StorageOp :=
  | OpAppend (e : SessionEvent)
  | OpAppendRotating (rotate_bytes : nat) (e : SessionEvent)
  | OpPage
  | OpPrune (drop_events : nat)
  | OpLoad
  | OpCreate (ids : string * string) (now : Z) (cwd : option string) (trigger : SessionTrigger) (parent : option string)
  | OpDelete.
Definition storage_op (d : Dir) (id : string) (op : StorageOp) : Dir :=
  match op with
  | OpAppend e => append_event d id e
  | OpAppendRotating rotate_bytes e => snd (append_event_with_rotation rotate_bytes d id e)
  | OpPage => snd (page_session_file d id)
  | OpPrune k => prune_head d id k
  | OpLoad => snd (load_events d id)
  | OpCreate ids now cwd trigger parent => create_session_with_header ids now d id cwd trigger parent
  | OpDelete => delete_session d id
  end.

Lemma touches_append d id s : touches d (append_bytes d (session_path id) s) id.
Proof. unfold append_bytes. auto with touch. Qed.
Lemma touches_page d id : touches d (snd (page_session_file d id)) id.
Proof.
  unfold page_session_file, invalidate_context_cache. cbn [snd]. destruct (d !! session_path id).
  - eapply touches_trans; [|apply touches_delete, owned_cache].
    eapply touches_trans; [apply touches_delete, owned_live|apply touches_insert, owned_page].
  - apply touches_delete, owned_cache.
Qed.
Lemma touches_prune_files d id lv k paths : Forall (owned id) paths -> touches d (prune_files d lv k paths) id.
Proof. intros H name Hn. apply prune_files_other. intros Hin. rewrite Forall_forall in H. naive_solver. Qed.
Lemma touches_prune d id k : touches d (prune_head d id k) id.
Proof.
  unfold prune_head. destruct k as [|k]; [auto with touch|]. unfold invalidate_context_cache.
  eapply touches_trans; [|apply touches_delete, owned_cache]. eapply touches_trans; [by apply touches_delete, owned_tmp|].
  apply touches_prune_files, Forall_forall. unfold transcript_paths. intros p [Hp|Hp]%elem_of_app.
  - apply list_elem_of_In, filter_In in Hp as [Hp%list_elem_of_In _]. apply list_elem_of_fmap in Hp as (n & -> & _). auto with touch.
  - destruct (is_some _); [|set_solver]. apply list_elem_of_singleton in Hp as ->. auto with touch.
Qed.
Lemma touches_delete_pages id l (d : Dir) : touches d (fold_left (fun d n => delete (page_path id n) d) l d) id.
Proof. revert d. induction l as [|n l IH]; intros d; cbn; [auto with touch|]. eapply touches_trans; [|apply IH]. auto with touch. Qed.
Lemma storage_op_touches d id op : touches d (storage_op d id op) id.
Proof.
  destruct op; cbn [storage_op].
  - apply touches_append.
  - unfold append_event_with_rotation. destruct (Nat.leb _ _); cbn [snd]; [apply touches_append|].
    pose proof (touches_page d id) as H. destruct (page_session_file d id) as [n d1]. cbn [snd] in *.
    eapply touches_trans; [exact H|apply touches_append].
  - apply touches_page.
  - apply touches_prune.
  - unfold load_events, cleanup_temp_files. cbn [snd]. auto with touch.
  - unfold create_session_with_header. destruct cwd; [|auto with touch].
    eapply touches_trans; [|apply touches_append]. auto with touch.
  - unfold delete_session. eapply touches_trans; [|apply touches_delete, owned_cache].
    eapply touches_trans; [|apply touches_delete_pages]. apply touches_delete, owned_live.
Qed.

(** *** Deleting and copying *)

Lemma delete_pages_lookup id l (d : Dir) p :
  fold_left (fun d n => delete (page_path id n) d) l d !! p = if decide (p ∈ map (page_path id) l) then None else d !! p.
Proof.
  revert d. induction l as [|n l IH]; intros d; cbn [fold_left map]; [by rewrite decide_False by set_solver|].
  rewrite IH. destruct (decide (p ∈ map (page_path id) l)); [by rewrite decide_True by set_solver|].
  destruct (decide (p = page_path id n)) as [->|Hp]; [by rewrite decide_True, lookup_delete_eq by set_solver|].
  rewrite lookup_delete_ne by done. by rewrite decide_False by set_solver.
Qed.
Lemma delete_session_gone d id : dot_free id -> tidy d id ->
  tidy (delete_session d id) id /\ session_exists (delete_session d id) id = false /\ events (delete_session d id) id = [].
Proof.
  intros Hid Ht. unfold delete_session. set (d1 := delete (session_path id) d).
  set (d2 := fold_left _ (page_numbers d1 id) d1). assert (Ht1 : tidy d1 id) by (by apply tidy_delete).
  assert (Hsub : forall p, is_Some (d2 !! p) -> is_Some (d1 !! p) /\ p ∉ map (page_path id) (page_numbers d1 id)).
  { intros p Hp. unfold d2 in Hp. rewrite delete_pages_lookup in Hp. destruct (decide _); [by destruct Hp|done]. }
  assert (Ht2 : tidy d2 id) by (intros name n [Hs _]%Hsub; by apply Ht1).
  assert (Hp : page_numbers (delete (context_cache_path id) d2) id = []).
  { apply page_numbers_unique; [by apply tidy_delete|constructor|constructor|]. intros n. split; [set_solver|].
    intros [Hn [c Hc]]. apply lookup_delete_Some in Hc as [_ Hc]. exfalso.
    destruct (Hsub (page_path id n)) as [Hs Hout]; [eauto|]. apply Hout. apply list_elem_of_fmap. exists n.
    split; [done|]. by apply page_numbers_elem. }
  assert (Hl : delete (context_cache_path id) d2 !! session_path id = None).
  { rewrite lookup_delete_ne by apply cache_live. destruct (d2 !! session_path id) eqn:E; [|done]. exfalso.
    destruct (Hsub (session_path id)) as [Hs _]; [eauto|]. unfold d1 in Hs. rewrite lookup_delete_eq in Hs. by destruct Hs. }
  assert (Ht3 : tidy (delete (context_cache_path id) d2) id) by (by apply tidy_delete).
  split_and!; [done|unfold session_exists; by rewrite Hl, Hp|]. rewrite events_view by done.
  unfold page_events, live. by rewrite Hp, Hl.
Qed.

Section Copy.
  Context (source target : string) (Hs : dot_free source) (Ht : dot_free target) (Hne : source <> target).

Definition copy_pages (l : list Z) (d : Dir) : Dir :=
  fold_left (fun d n => copy_file d (page_path source n) (page_path target n)) l d.

Lemma source_apart n name : owned target name -> page_path source n <> name.
Proof. intros Ho E. apply (owned_apart target source name Ht Hs (not_eq_sym Hne) Ho). rewrite <- E. apply owned_page. Qed.
Lemma copy_file_other (d : Dir) from to name : name <> to -> copy_file d from to !! name = d !! name.
Proof. intros H. unfold copy_file. destruct (d !! from); [by rewrite lookup_insert_ne|done]. Qed.
Lemma copy_pages_other l d name : (forall n, n ∈ l -> name <> page_path target n) -> copy_pages l d !! name = d !! name.
Proof.
  revert d. unfold copy_pages. induction l as [|n l IH]; intros d H; cbn [fold_left]; [done|].
  rewrite IH by set_solver. apply copy_file_other. set_solver.
Qed.
Lemma copy_pages_touches l d : touches d (copy_pages l d) target.
Proof. intros name Hn. apply copy_pages_other. intros n _ ->. by apply Hn, owned_page. Qed.
Lemma copy_pages_lookup l d m : Forall u32 l -> u32 m -> (forall n, n ∈ l -> is_Some (d !! page_path source n)) ->
  copy_pages l d !! page_path target m = if decide (m ∈ l) then d !! page_path source m else d !! page_path target m.
Proof.
  unfold copy_pages. revert d. induction l as [|n l IH]; intros d Hl Hm Hd; cbn [fold_left]; [by rewrite decide_False by set_solver|].
  inversion_clear Hl as [|?? Hn Hl']. destruct (Hd n) as [c Hc]; [set_solver|].
  assert (Hsrc : forall x, copy_file d (page_path source n) (page_path target n) !! page_path source x = d !! page_path source x)
    by (intros x; apply copy_file_other, source_apart, owned_page).
  rewrite IH, Hsrc; [|done..|intros x Hx; rewrite Hsrc; apply Hd; set_solver].
  destruct (decide (m ∈ l)); [by rewrite decide_True by set_solver|]. unfold copy_file. rewrite Hc.
  destruct (decide (m = n)) as [->|Hmn]; [by rewrite decide_True, lookup_insert_eq by set_solver|].
  rewrite decide_False, lookup_insert_ne; [done|intros E%page_path_inj; unfold u32 in *; congruence || lia|set_solver].
Qed.
(** The pages of the copy, when the target has no files yet. *)
Lemma copied_page d m : tidy d source -> (forall name, owned target name -> d !! name = None) -> u32 m ->
  copy_pages (page_numbers d source) d !! page_path target m = d !! page_path source m.
Proof.
  intros Hd Hnew Hm. rewrite copy_pages_lookup; [|apply Forall_forall; intros n Hn|done|intros n Hn];
    [|by apply page_numbers_elem in Hn as [Hn _]|by apply page_numbers_elem in Hn as [_ Hn]].
  case_decide as E; [done|]. rewrite Hnew by apply owned_page. destruct (d !! page_path source m) eqn:Em; [|done].
  exfalso. apply E, page_numbers_elem; eauto.
Qed.
Lemma copied_tidy d : tidy d source -> (forall name, owned target name -> d !! name = None) ->
  tidy (copy_pages (page_numbers d source) d) target.
Proof.
  intros Hd Hnew name n Hsome Hn. destruct (decide (name ∈ page_path target <$> page_numbers d source)) as [Hin|Hno].
  - apply list_elem_of_fmap in Hin as (m & -> & Hm). apply page_numbers_elem in Hm as [Hu _]; [|done]. rewrite page_number_page in Hn by done. congruence.
  - exfalso. rewrite copy_pages_other, Hnew in Hsome; [by destruct Hsome|by eapply owned_number|]. intros m Hm ->.
    by apply Hno, list_elem_of_fmap_2.
Qed.

Lemma copy_reads d d' :
  tidy d source -> (forall name, owned target name -> d !! name = None) -> copy_session d source target = Ok d' ->
  tidy d' target /\ events d' target = events d source /\ tidy d' source /\ events d' source = events d source.
Proof.
  intros Hd Hnew H. unfold copy_session in H. destruct (negb _); [done|]. injection H as <-.
  fold (copy_pages (page_numbers d source) d). set (d1 := copy_pages (page_numbers d source) d).
  pose proof (copied_tidy d Hd Hnew) as Ht1. fold d1 in Ht1.
  assert (Hlive : d1 !! session_path source = d !! session_path source)
    by (apply copy_pages_touches; apply (owned_apart source target); [done..|apply owned_live]).
  assert (Hnone : d1 !! session_path target = None).
  { unfold d1. rewrite copy_pages_other; [apply Hnew, owned_live|]. intros n _. apply not_eq_sym, page_path_live. }
  set (d2 := copy_file d1 (session_path source) (session_path target)).
  assert (H2 : touches d d2 target).
  { eapply touches_trans; [apply copy_pages_touches|]. intros name Hn. apply copy_file_other. intros ->. by apply Hn, owned_live. }
  assert (Ht2 : tidy d2 target).
  { unfold d2, copy_file. destruct (d1 !! session_path source); [|done]. apply tidy_insert; [done|]. intros n. by rewrite page_number_live. }
  assert (Hp2 : forall m, u32 m -> d2 !! page_path target m = d !! page_path source m).
  { intros m Hm. unfold d2. rewrite copy_file_other by apply page_path_live. by apply copied_page. }
  assert (Hl2 : live d2 target = live d source).
  { unfold live, d2, copy_file. rewrite Hlive. destruct (d !! session_path source); [by rewrite lookup_insert_eq|by rewrite Hnone]. }
  split; [done|]. split; [|by apply (other_session d d2 target)]. rewrite !events_view, Hl2 by done. f_equal.
  assert (Hn : page_numbers d2 target = page_numbers d source).
  { apply page_numbers_unique; [done|apply page_numbers_sorted|by apply page_numbers_nodup|].
    intros n. rewrite page_numbers_elem by done. split; intros [Hu Hx]; (split; [done|]); by rewrite Hp2 in *. }
  unfold page_events. rewrite Hn. apply flat_map_ext_in. intros n [Hu _]%page_numbers_elem; [|done].
  unfold read_file. by rewrite Hp2.
Qed.
End Copy.
End Transcript.

(** ** Theorems *)

(** A sequence of events appended to a session is read back after what it
    held, in order and complete, wherever the size of the live file made the
    storage page it aside; page numbers have room for a page per event. *)
Theorem transcript_appends {J : SessionJson} {L : SessionJsonLaws J} rotate_bytes d id es :
  sound_log d id -> (last_page d id + Z.of_nat (length es) <= u32_max)%Z ->
  let d' := fold_left (fun d e => snd (append_event_with_rotation rotate_bytes d id e)) es d in
  sound_log d' id /\ fst (load_events d' id) = fst (load_events d id) ++ es.
Proof. apply appends_sound. Qed.

(** [prune_head] drops exactly the first events of the transcript, across its
    files; the rest, and lines that are no events, stay. *)
Theorem prune_drops_head {J : SessionJson} {L : SessionJsonLaws J} d id k :
  dot_free id -> tidy d id ->
  let d' := prune_head d id k in
  tidy d' id /\ fst (load_events d' id) = drop k (fst (load_events d id)).
Proof. apply prune_sound. Qed.

(** An operation on a session's files leaves the transcript of every other
    session as it is. *)
Theorem sessions_apart {J : SessionJson} {L : SessionJsonLaws J} d id id' op :
  dot_free id -> dot_free id' -> id <> id' -> tidy d id' ->
  fst (load_events (storage_op d id op) id') = fst (load_events d id').
Proof.
  intros Hi Hi' Hn Ht. eapply (other_session d _ id id'); [done..| |done]. apply storage_op_touches.
Qed.

(** A copy reads as its source does, and a deleted session has no file left. *)
Theorem copy_and_delete {J : SessionJson} {L : SessionJsonLaws J} d source target d' :
  dot_free source -> dot_free target -> source <> target -> tidy d source ->
  (forall name, owned target name -> d !! name = None) ->
  copy_session d source target = Ok d' ->
  fst (load_events d' target) = fst (load_events d source) /\
  session_exists (delete_session d' target) target = false /\
  fst (load_events (delete_session d' target) source) = fst (load_events d source).
Proof.
  intros Hs Ht Hn Hd Hnew Hc. destruct (copy_reads source target Hs Ht Hn d d' Hd Hnew Hc) as (Htd & He & Hds & Hsrc).
  destruct (delete_session_gone d' target) as (_ & Hg & _); [done..|]. split_and!; [done..|].
  change (events (delete_session d' target) source = events d source). rewrite <- Hsrc.
  apply (other_session d' _ target source); [done..|by apply not_eq_sym|apply (storage_op_touches d' target OpDelete)|done].
Qed.

(** ** A concrete encoding *)

(** Stands in for serde_json where a theorem is applied to a concrete
    directory. *)
Module SessionCodec.

Abbreviation Tree := (gen_tree (string + Z)).
Definition text (s : string) : Tree := GenLeaf (inl s).
Definition num (z : Z) : Tree := GenLeaf (inr z).
Definition opt {A} (f : A -> Tree) (o : option A) : Tree := match o with Some a => GenNode 1 [f a] | None => GenNode 0 [] end.
Definition of_text (t : Tree) : string := match t with GenLeaf (inl s) => s | _ => "" end.
Definition of_num (t : Tree) : Z := match t with GenLeaf (inr z) => z | _ => 0%Z end.
Definition of_opt {A} (f : Tree -> A) (t : Tree) : option A := match t with GenNode _ [a] => Some (f a) | _ => None end.
Definition flag (b : bool) : Tree := num (if b then 1 else 0)%Z.
Definition of_flag (t : Tree) : bool := Z.eqb (of_num t) 1.
Lemma of_opt_tree {A} (f : A -> Tree) g o : (forall a, g (f a) = a) -> of_opt g (opt f o) = o.
Proof. intros H. destruct o; cbn; by rewrite ?H. Qed.
Lemma of_flag_flag b : of_flag (flag b) = b.
Proof. by destruct b. Qed.

Fixpoint json_tree (j : Json) : Tree :=
  match j with
  | JNull => GenNode 0 []
  | JBool b => GenNode 1 [flag b]
  | JNumber t => GenNode 2 [text t]
  | JString t => GenNode 3 [text t]
  | JArray l => GenNode 4 (map json_tree l)
  | JObject l => GenNode 5 (map (fun kv => GenNode 0 [text kv.1; json_tree kv.2]) l)
  end.
Fixpoint of_json (t : Tree) : Json :=
  match t with
  | GenNode 1 [b] => JBool (of_flag b)
  | GenNode 2 [t] => JNumber (of_text t)
  | GenNode 3 [t] => JString (of_text t)
  | GenNode 4 l => JArray (map of_json l)
  | GenNode 5 l => JObject (map (fun t => match t with GenNode _ [k; v] => (of_text k, of_json v) | _ => ("", JNull) end) l)
  | _ => JNull
  end.
Fixpoint of_json_tree (j : Json) : of_json (json_tree j) = j.
Proof.
  destruct j as [|b|t|t|l|l]; cbn; [reflexivity|by rewrite of_flag_flag|reflexivity..| |].
  - f_equal. induction l as [|j l IH]; [done|]. cbn. by rewrite of_json_tree, IH.
  - f_equal. induction l as [|[k v] l IH]; [done|]. cbn. by rewrite of_json_tree, IH.
Qed.

Definition dims_tree (d : ImageDimensions) : Tree := GenNode 0 [num (width d); num (height d)].
Definition of_dims (t : Tree) : ImageDimensions :=
  match t with GenNode _ [w; h] => {| width := of_num w; height := of_num h |} | _ => {| width := 0; height := 0 |} end.
Definition source_tree (s : ImageSource) : Tree :=
  match s with Base64 d o => GenNode 0 [text d; opt dims_tree o] | Url d o => GenNode 1 [text d; opt dims_tree o] end.
Definition of_source (t : Tree) : ImageSource :=
  match t with
  | GenNode 0 [d; o] => Base64 (of_text d) (of_opt of_dims o)
  | GenNode _ [d; o] => Url (of_text d) (of_opt of_dims o)
  | _ => Url "" None
  end.
Lemma of_source_tree s : of_source (source_tree s) = s.
Proof. destruct s; cbn; by rewrite of_opt_tree by (by intros []). Qed.

Fixpoint block_tree (b : ContentBlock Json) : Tree :=
  match b with
  | Text t => GenNode 0 [text t]
  | Image s m => GenNode 1 [source_tree s; text m]
  | Audio s m => GenNode 2 [source_tree s; text m]
  | Video s m => GenNode 3 [source_tree s; text m]
  | ToolCall i n a => GenNode 4 [text i; text n; json_tree a]
  | ToolResult i n c e => GenNode 5 [text i; text n; GenNode 0 (map block_tree c); flag e]
  | Thinking t s => GenNode 6 [text t; opt text s]
  end.
Fixpoint of_block (t : Tree) : ContentBlock Json :=
  match t with
  | GenNode 1 [s; m] => Image (of_source s) (of_text m)
  | GenNode 2 [s; m] => Audio (of_source s) (of_text m)
  | GenNode 3 [s; m] => Video (of_source s) (of_text m)
  | GenNode 4 [i; n; a] => ToolCall (of_text i) (of_text n) (of_json a)
  | GenNode 5 [i; n; GenNode _ c; e] => ToolResult (of_text i) (of_text n) (map of_block c) (of_flag e)
  | GenNode 6 [t; s] => Thinking (of_text t) (of_opt of_text s)
  | GenNode _ [t] => Text (of_text t)
  | _ => Text ""
  end.
Fixpoint of_block_tree (b : ContentBlock Json) : of_block (block_tree b) = b.
Proof.
  destruct b as [t|s m|s m|s m|i n a|i n c e|t s]; cbn; rewrite ?of_source_tree, ?of_json_tree, ?of_flag_flag; try reflexivity.
  - f_equal. induction c as [|b c IH]; [done|]. cbn. by rewrite of_block_tree, IH.
  - by rewrite of_opt_tree.
Qed.

Definition list_tree {A} (f : A -> Tree) (l : list A) : Tree := GenNode 0 (map f l).
Definition of_list {A} (f : Tree -> A) (t : Tree) : list A := match t with GenNode _ l => map f l | _ => [] end.
Lemma of_list_list {A} (f : A -> Tree) g l : (forall a, g (f a) = a) -> of_list g (list_tree f l) = l.
Proof. intros H. unfold of_list, list_tree. induction l as [|a l IH]; [done|]. cbn. by rewrite H, IH. Qed.

Definition usage_tree (u : TokenUsage) : Tree :=
  GenNode 0 [num (usage_input u); num (usage_output u); num (usage_total u);
             opt num (usage_cache_creation u); opt num (usage_cache_read u); opt num (usage_reasoning u)].
Definition of_usage (t : Tree) : TokenUsage :=
  match t with
  | GenNode _ [a; b; c; d; e; f] =>
      {| usage_input := of_num a; usage_output := of_num b; usage_total := of_num c;
         usage_cache_creation := of_opt of_num d; usage_cache_read := of_opt of_num e; usage_reasoning := of_opt of_num f |}
  | _ => {| usage_input := 0; usage_output := 0; usage_total := 0; usage_cache_creation := None;
            usage_cache_read := None; usage_reasoning := None |}
  end.
Lemma of_usage_tree u : of_usage (usage_tree u) = u.
Proof. destruct u; cbn. by rewrite !of_opt_tree. Qed.

Definition role_code (r : MessageRole) : Z := match r with System => 0 | User => 1 | Assistant => 2 | Tool => 3 end.
Definition of_role (z : Z) : MessageRole :=
  if Z.eqb z 0 then System else if Z.eqb z 1 then User else if Z.eqb z 2 then Assistant else Tool.
Definition pair_tree (kv : string * Json) : Tree := GenNode 0 [text kv.1; json_tree kv.2].
Definition of_pair (t : Tree) : string * Json := match t with GenNode _ [k; v] => (of_text k, of_json v) | _ => ("", JNull) end.
Definition msg_tree (m : LlmMessage Json) : Tree :=
  GenNode 0 [num (role_code (role m)); list_tree block_tree (content m); num (timestamp m);
             list_tree pair_tree (map_to_list (metadata m)); opt text (tool_call_id m); opt usage_tree (usage m)].
Definition of_msg (t : Tree) : LlmMessage Json :=
  match t with
  | GenNode _ [a; b; c; d; e; f] =>
      {| role := of_role (of_num a); content := of_list of_block b; timestamp := of_num c;
         metadata := list_to_map (of_list of_pair d); tool_call_id := of_opt of_text e; usage := of_opt of_usage f |}
  | _ => {| role := System; content := []; timestamp := 0; metadata := ∅; tool_call_id := None; usage := None |}
  end.
Lemma of_msg_tree m : of_msg (msg_tree m) = m.
Proof.
  destruct m as [r c ts md id u]. unfold of_msg, msg_tree. cbn [role content timestamp metadata tool_call_id usage].
  rewrite !of_list_list, !of_opt_tree, list_to_map_to_list; [by destruct r|..|apply of_block_tree].
  - apply of_usage_tree.
  - done.
  - intros [k v]. unfold of_pair, pair_tree. cbn. by rewrite of_json_tree.
Qed.

Definition env_tree (e : EventEnvelope) : Tree := GenNode 0 [text (env_id e); num (env_ts e)].
Definition of_env (t : Tree) : EventEnvelope :=
  match t with GenNode _ [a; b] => {| env_id := of_text a; env_ts := of_num b |} | _ => {| env_id := ""; env_ts := 0 |} end.
Lemma of_env_tree e : of_env (env_tree e) = e.
Proof. by destruct e. Qed.

(** Enumerations by position. *)
Definition triggers := [TrigUser; TrigCron; TrigWebhook; TrigEvent; TrigFileWatch; TrigBranch; TrigSpawn].
Definition trigger_code (t : SessionTrigger) : Z :=
  match t with TrigUser => 0 | TrigCron => 1 | TrigWebhook => 2 | TrigEvent => 3 | TrigFileWatch => 4 | TrigBranch => 5 | TrigSpawn => 6 end.
Definition a2a_kinds := [A2aTask; A2aTaskResult; A2aStatus; A2aControl; A2aCustom].
Definition a2a_code (t : A2aMessageType) : Z :=
  match t with A2aTask => 0 | A2aTaskResult => 1 | A2aStatus => 2 | A2aControl => 3 | A2aCustom => 4 end.
Definition hooks := [HookCron; HookWebhook; HookEvent; HookFileWatch].
Definition hook_code (t : HookType) : Z := match t with HookCron => 0 | HookWebhook => 1 | HookEvent => 2 | HookFileWatch => 3 end.
Definition reasons := [UserClosed; InstanceStopped; IdleTimeout; MaxTokensReached; Interrupted].
Definition reason_code (r : SessionEndReason) : Z :=
  match r with UserClosed => 0 | InstanceStopped => 1 | IdleTimeout => 2 | MaxTokensReached => 3 | Interrupted => 4 end.
Definition sources := [FromUser; FromHook; FromA2a; FromSpawnParent; FromCron; FromAgent].
Definition source_code (r : MessageSource) : Z :=
  match r with FromUser => 0 | FromHook => 1 | FromA2a => 2 | FromSpawnParent => 3 | FromCron => 4 | FromAgent => 5 end.
Definition of_code {A} (l : list A) (d : A) (t : Tree) : A := List.nth (Z.to_nat (of_num t)) l d.

Definition meta_tree (m : RoleMetadata) : Tree :=
  match m with
  | MetaUser s => GenNode 0 [num (source_code s)]
  | MetaAssistant p m u => GenNode 1 [text p; text m; usage_tree u]
  | MetaSystem => GenNode 2 []
  | MetaTool i => GenNode 3 [text i]
  end.
Definition of_meta (t : Tree) : RoleMetadata :=
  match t with
  | GenNode 0 [s] => MetaUser (of_code sources FromUser s)
  | GenNode 1 [p; m; u] => MetaAssistant (of_text p) (of_text m) (of_usage u)
  | GenNode 3 [i] => MetaTool (of_text i)
  | _ => MetaSystem
  end.
Lemma of_meta_tree m : of_meta (meta_tree m) = m.
Proof. destruct m as [s|p m u| |i]; cbn [of_meta meta_tree of_text text]; [by destruct s|by rewrite of_usage_tree|done..]. Qed.

Definition event_tree (e : SessionEvent) : Tree :=
  match e with
  | SessionCreated e => GenNode 0 [env_tree (sc_envelope e); text (instance_id e); text (image_digest e);
                                   opt text (sc_parent_session_id e); num (trigger_code (sc_trigger e))]
  | MessageV2 m => GenNode 1 [env_tree (sm_envelope m); text (message_id m); msg_tree (sm_message m); meta_tree (role_metadata m)]
  | ThinkingEv e => GenNode 2 [env_tree (th_envelope e); text (th_content e)]
  | SpawnRequest e => GenNode 3 [env_tree (sq_envelope e); text (sq_tool_call_id e); text (child_image e);
                                 text (sq_child_instance_id e); text (sq_child_session_id e); text (sq_task e); flag (async_ e)]
  | SpawnResult e => GenNode 4 [env_tree (sr_envelope e); text (sr_tool_call_id e); text (sr_child_instance_id e);
                                text (sr_child_session_id e); opt text (sr_output e); opt text (sr_error e); num (duration_ms e)]
  | A2aSent e => GenNode 5 [env_tree (as_envelope e); num (a2a_code (as_message_type e)); text (as_topic e); text (as_to e);
                            json_tree (as_payload e); opt text (as_caller_did e); opt text (as_runtime_id_caller e);
                            opt text (as_target_did e); opt text (as_runtime_id_target e); opt text (as_request_id e)]
  | A2aReceived e => GenNode 6 [env_tree (ar_envelope e); num (a2a_code (ar_message_type e)); text (ar_topic e); text (ar_from e);
                                json_tree (ar_payload e); opt text (ar_caller_did e); opt text (ar_runtime_id_caller e);
                                opt text (ar_target_did e); opt text (ar_runtime_id_target e); opt text (ar_request_id e)]
  | HookTrigger e => GenNode 7 [env_tree (ht_envelope e); num (hook_code (hook_type e)); opt text (ht_schedule e); opt json_tree (ht_payload e)]
  | SystemEv e => GenNode 8 [env_tree (sys_envelope e); text (sys_event e); json_tree (sys_detail e)]
  | SessionEnded e => GenNode 9 [env_tree (se_envelope e); num (reason_code (se_reason e)); num (se_turn_count e); num (se_total_tokens e)]
  end.
Definition of_event (t : Tree) : option SessionEvent :=
  match t with
  | GenNode 0 [a; b; c; d; e] =>
      Some (SessionCreated {| sc_envelope := of_env a; instance_id := of_text b; image_digest := of_text c;
                              sc_parent_session_id := of_opt of_text d; sc_trigger := of_code triggers TrigUser e |})
  | GenNode 1 [a; b; c; d] =>
      Some (MessageV2 {| sm_envelope := of_env a; message_id := of_text b; sm_message := of_msg c; role_metadata := of_meta d |})
  | GenNode 2 [a; b] => Some (ThinkingEv {| th_envelope := of_env a; th_content := of_text b |})
  | GenNode 3 [a; b; c; d; e; f; g] =>
      Some (SpawnRequest {| sq_envelope := of_env a; sq_tool_call_id := of_text b; child_image := of_text c;
                            sq_child_instance_id := of_text d; sq_child_session_id := of_text e; sq_task := of_text f; async_ := of_flag g |})
  | GenNode 4 [a; b; c; d; e; f; g] =>
      Some (SpawnResult {| sr_envelope := of_env a; sr_tool_call_id := of_text b; sr_child_instance_id := of_text c;
                           sr_child_session_id := of_text d; sr_output := of_opt of_text e; sr_error := of_opt of_text f; duration_ms := of_num g |})
  | GenNode 5 [a; b; c; d; e; f; g; h; i; j] =>
      Some (A2aSent {| as_envelope := of_env a; as_message_type := of_code a2a_kinds A2aTask b; as_topic := of_text c; as_to := of_text d;
                       as_payload := of_json e; as_caller_did := of_opt of_text f; as_runtime_id_caller := of_opt of_text g;
                       as_target_did := of_opt of_text h; as_runtime_id_target := of_opt of_text i; as_request_id := of_opt of_text j |})
  | GenNode 6 [a; b; c; d; e; f; g; h; i; j] =>
      Some (A2aReceived {| ar_envelope := of_env a; ar_message_type := of_code a2a_kinds A2aTask b; ar_topic := of_text c; ar_from := of_text d;
                           ar_payload := of_json e; ar_caller_did := of_opt of_text f; ar_runtime_id_caller := of_opt of_text g;
                           ar_target_did := of_opt of_text h; ar_runtime_id_target := of_opt of_text i; ar_request_id := of_opt of_text j |})
  | GenNode 7 [a; b; c; d] =>
      Some (HookTrigger {| ht_envelope := of_env a; hook_type := of_code hooks HookCron b; ht_schedule := of_opt of_text c;
                           ht_payload := of_opt of_json d |})
  | GenNode 8 [a; b; c] => Some (SystemEv {| sys_envelope := of_env a; sys_event := of_text b; sys_detail := of_json c |})
  | GenNode 9 [a; b; c; d] =>
      Some (SessionEnded {| se_envelope := of_env a; se_reason := of_code reasons UserClosed b; se_turn_count := of_num c; se_total_tokens := of_num d |})
  | _ => None
  end.
Lemma of_event_tree e : of_event (event_tree e) = Some e.
Proof.
  destruct e as [[? ? ? ? t]|[]|[]|[]|[]|[? t]|[? t]|[? t]|[]|[? t]]; cbn [of_event event_tree sc_envelope instance_id image_digest
    sc_parent_session_id sc_trigger sm_envelope message_id sm_message role_metadata th_envelope th_content sq_envelope sq_tool_call_id
    child_image sq_child_instance_id sq_child_session_id sq_task async_ sr_envelope sr_tool_call_id sr_child_instance_id
    sr_child_session_id sr_output sr_error duration_ms as_envelope as_message_type as_topic as_to as_payload as_caller_did
    as_runtime_id_caller as_target_did as_runtime_id_target as_request_id ar_envelope ar_message_type ar_topic ar_from ar_payload
    ar_caller_did ar_runtime_id_caller ar_target_did ar_runtime_id_target ar_request_id ht_envelope hook_type ht_schedule ht_payload
    sys_envelope sys_event sys_detail se_envelope se_reason se_turn_count se_total_tokens];
    rewrite ?of_env_tree, ?of_json_tree, ?of_msg_tree, ?of_meta_tree, ?of_flag_flag, ?of_opt_tree by (done || apply of_json_tree);
    done || by destruct t.
Qed.

(** The line: a brace and the digits of the tree.  Carriage returns are
    insignificant, as white space is in JSON. *)
Fixpoint no_cr (s : string) : string :=
  match s with EmptyString => EmptyString | String a s => if Ascii.eqb a CR then no_cr s else String a (no_cr s) end.
Definition is_bit (a : ascii) : bool := Ascii.eqb a "0" || Ascii.eqb a "1".
Definition OPEN : ascii := "{"%char.
#[export] Instance json : SessionJson := {
  event_line e := String OPEN (bits (encode (event_tree e)));
  event_of s := match no_cr s with
                | String a r => if Ascii.eqb a OPEN && all_bytes is_bit r then decode (unbits r) ≫= of_event else None
                | EmptyString => None
                end;
}.
Lemma bits_bit p : all_bytes is_bit (bits p) = true.
Proof. induction p; cbn; done. Qed.
Lemma no_cr_id s : all_bytes is_bit s = true -> no_cr s = s.
Proof.
  induction s as [|a s IH]; [done|]. cbn. intros [Ha Hs]%andb_prop. rewrite IH by done.
  destruct (Ascii.eqb_spec a CR) as [->|]; [by vm_compute in Ha|done].
Qed.
Lemma no_cr_app s : no_cr (s +:+ String CR EmptyString) = no_cr s.
Proof. induction s as [|a s IH]; [done|]. rewrite app_cons_str. cbn [no_cr]. by rewrite IH. Qed.
Lemma no_cr_blank s : is_blank s = true -> match no_cr s with String a _ => Ascii.eqb a OPEN = false | EmptyString => True end.
Proof.
  induction s as [|a s IH]; [done|]. intros H. cbn [no_cr]. destruct (Ascii.eqb_spec a CR) as [->|Hc].
  - apply IH. by cbn in H.
  - cbn [is_blank] in H. destruct (white_prefix (String a s)) as [n|] eqn:E; [|done]. apply white_head in E.
    apply Ascii.eqb_neq. intros ->. vm_compute in E. destruct E as [E|E]; by apply E.
Qed.
#[export] Instance json_laws : SessionJsonLaws json.
Proof.
  split; cbn [event_line event_of json].
  - intros e. cbn [str_has]. rewrite decide_False by done. by apply bits_has.
  - intros e. cbn [no_cr]. change (Ascii.eqb OPEN CR) with false. cbn [negb]. rewrite no_cr_id by apply bits_bit.
    rewrite bits_bit, unbits_bits, decode_encode. apply of_event_tree.
  - intros s H. apply no_cr_blank in H. destruct (no_cr s); [done|]. by rewrite H.
  - intros s. by rewrite no_cr_app.
Qed.
End SessionCodec.

Module LogExample.
Import SessionCodec.

Definition sid : string := "5f1c2d9e-0b7a".
Definition other : string := "77aa01ff-93c4".
Definition opened : Dir := create_session_with_header ("evt_1", "evt_2") 7 ∅ sid None TrigUser None.
Definition note (n : nat) (t : string) : SessionEvent :=
  MessageV2 (user_message ("e" +:+ dec (Z.of_nat n), "m" +:+ dec (Z.of_nat n)) 8 t FromUser).
Definition talk : list SessionEvent := [note 1 "hi"; note 2 "again"].

Lemma sid_dot_free : dot_free sid.
Proof. reflexivity. Qed.
Lemma other_dot_free : dot_free other.
Proof. reflexivity. Qed.
Lemma opened_tidy : tidy opened sid.
Proof.
  apply tidy_insert; [|intros n; by rewrite page_number_live by apply sid_dot_free].
  intros name n [c Hc]. by rewrite lookup_empty in Hc.
Qed.
Lemma opened_numbers : page_numbers opened sid = [].
Proof.
  apply page_numbers_unique; [apply opened_tidy|constructor|constructor|]. intros n. split; [set_solver|].
  intros [Hn [c Hc]]. exfalso. unfold opened, create_session_with_header in Hc. apply lookup_insert_Some in Hc as [[E _]|[_ Hc]]; [by apply (page_path_live sid n)|].
  by rewrite lookup_empty in Hc.
Qed.
Lemma opened_sound : sound_log opened sid.
Proof.
  split_and!; [apply sid_dot_free|apply opened_tidy|]. unfold live, opened, create_session_with_header. rewrite lookup_insert_eq.
  right. eauto.
Qed.
Lemma opened_events : fst (load_events opened sid) =
  [SessionCreated {| sc_envelope := envelope_new "evt_1" 7; instance_id := sid; image_digest := "";
                     sc_parent_session_id := None; sc_trigger := TrigUser |}].
Proof.
  change (events opened sid = [SessionCreated {| sc_envelope := envelope_new "evt_1" 7; instance_id := sid; image_digest := "";
                     sc_parent_session_id := None; sc_trigger := TrigUser |}]).
  rewrite events_view by (apply sid_dot_free || apply opened_tidy). unfold page_events. rewrite opened_numbers.
  unfold live, opened, create_session_with_header. rewrite lookup_insert_eq. apply (file_events_line (SessionCreated _)).
Qed.
Lemma opened_room : (last_page opened sid + Z.of_nat (length talk) <= u32_max)%Z.
Proof. unfold last_page. rewrite opened_numbers. vm_compute. discriminate. Qed.
End LogExample.

#[local] Existing Instances SessionCodec.json SessionCodec.json_laws.

Lemma transcript_appends_witness :
  fst (load_events (fold_left (fun d e => snd (append_event_with_rotation 1 d LogExample.sid e)) LogExample.talk LogExample.opened) LogExample.sid)
  = SessionCreated {| sc_envelope := envelope_new "evt_1" 7; instance_id := LogExample.sid; image_digest := "";
                      sc_parent_session_id := None; sc_trigger := TrigUser |} :: LogExample.talk.
Proof.
  pose proof (transcript_appends 1 LogExample.opened LogExample.sid LogExample.talk LogExample.opened_sound LogExample.opened_room) as [_ H].
  rewrite H, LogExample.opened_events. reflexivity.
Defined.
Lemma prune_drops_head_witness : fst (load_events (prune_head LogExample.opened LogExample.sid 1) LogExample.sid) = [].
Proof.
  pose proof (prune_drops_head LogExample.opened LogExample.sid 1 LogExample.sid_dot_free LogExample.opened_tidy) as [_ H].
  rewrite H, LogExample.opened_events. reflexivity.
Defined.
Lemma sessions_apart_witness :
  fst (load_events (storage_op LogExample.opened LogExample.other OpDelete) LogExample.sid)
  = fst (load_events LogExample.opened LogExample.sid).
Proof.
  apply (sessions_apart LogExample.opened LogExample.other LogExample.sid OpDelete LogExample.other_dot_free LogExample.sid_dot_free);
    [discriminate|apply LogExample.opened_tidy].
Defined.

(** A crash in the middle of an append leaves the head of a line; the next
    event is written behind it on the same line and is not read back. *)
Theorem torn_append_lost :
  let d := {[session_path LogExample.sid :=
             event_line (LogExample.note 1 "a") +:+ newline +:+ take_bytes 9 (event_line (LogExample.note 2 "b"))]} in
  fst (load_events d LogExample.sid) = [LogExample.note 1 "a"] /\
  fst (load_events (append_event d LogExample.sid (LogExample.note 3 "c")) LogExample.sid) = [LogExample.note 1 "a"].
Proof. vm_compute. done. Qed.
