(* ===== verification/SessionPages.v ===== *)
(** * SessionPages: compaction pages and the history a session reloads

    The page model of peko-rs/session/src/pages.rs (splitting a transcript at
    compaction boundaries, reading a window of a page under the token cap, the
    catalog), the conversions of message_conversion.rs and jsonl.rs
    ([normalize_event]), the two ways unified.rs rebuilds a context
    ([load_history_native], [build_context]) and its page retention
    ([prune_overflow]), with the page numbers the session tool reports
    (peko-rs/core/src/session/session_runtime_impl.rs).  Reading the stored
    [details] of a boundary is serde's and a parameter. *)

From Stdlib Require Import ZArith Lia Ascii.
From stdpp Require Import base tactics list gmap strings.
From S2P Require Import Prelude Text Usage Message Compaction Host SessionLog.

Local Open Scope nat_scope.
Open Scope rust_scope.

(** ** Numbers in a detail *)

(** [Value::get(key).and_then(as_u64)]. *)
Definition as_u64 (v : Json) : option Z :=
  match v with JNumber t => if all_bytes is_digit t then parse_usize t else None | _ => None end.
Definition detail_u64 (key : string) (v : Json) : option Z := as_u64 (index v key).
Definition detail_str (key : string) (v : Json) : string := default "" (as_str (index v key)).

(** ** Pages *)

Record SessionPage := {
  pg_number : nat;
  boundary_event_id : option string;
  pg_compaction_number : option Z;
  start_index : nat;
  end_index : nat;
  token_estimate : Z;
  title : string;
}.

Definition is_compaction_boundary (e : SessionEvent) : bool :=
  match e with SystemEv s => String.eqb (sys_event s) "compaction" | _ => false end.

(** [content_block_token_estimate] and [Compactor::estimate_tokens]. *)
Definition CHARS_PER_TOKEN : Z := 4.
Definition block_chars (b : ContentBlock Json) : Z :=
  match b with
  | Text t => str_len t
  | Image s m => Z.min (Rewrite.estimate_image_tokens s m * CHARS_PER_TOKEN) u64_max
  | _ => 50
  end.
Definition content_block_token_estimate (c : list (ContentBlock Json)) : Z :=
  (sat_add_u64 (foldr Z.add 0 (map block_chars c)) 20 / CHARS_PER_TOKEN + 4)%Z.
Definition estimate_tokens (ms : list (LlmMessage Json)) : Z :=
  foldr Z.add 0%Z (map (fun m => content_block_token_estimate (content m)) ms).

Definition event_to_llm_message (e : SessionEvent) : option (LlmMessage Json) := to_llm_message <$> as_message e.
Definition estimate_page_tokens (es : list SessionEvent) : Z := estimate_tokens (omap event_to_llm_message es).

(** Three bytes of UTF-8: the ellipsis. *)
Definition ELLIPSIS : string := String "226" (String "128" (String "166" "")).
Definition MAX_TITLE_CHARS : nat := 80.
Fixpoint page_title (es : list SessionEvent) : string :=
  match es with
  | [] => ""
  | e :: es =>
      match as_message e with
      | None => page_title es
      | Some m =>
          if negb (bool_decide (sm_role m = User)) then page_title es
          else
            let collapsed := join_with " " (split_whitespace (text_content m)) in
            if String.eqb collapsed "" then page_title es
            else if Nat.ltb MAX_TITLE_CHARS (length (chars collapsed))
            then concat_text (take MAX_TITLE_CHARS (chars collapsed)) +:+ ELLIPSIS
            else collapsed
      end
  end.

Definition slice (i j : nat) (es : list SessionEvent) : list SessionEvent := take (j - i) (drop i es).
Definition build_page (page_number start stop : nat) (es : list SessionEvent) (boundary : option (string * option Z))
    : SessionPage :=
  {| pg_number := page_number;
     boundary_event_id := fst <$> boundary;
     pg_compaction_number := boundary ≫= snd;
     start_index := start; end_index := stop;
     token_estimate := estimate_page_tokens (slice start stop es);
     title := page_title (slice start stop es) |}.

(** What a boundary contributes to the page it closes. *)
Definition boundary_of (e : SessionEvent) : option (string * option Z) :=
  match e with
  | SystemEv s => if String.eqb (sys_event s) "compaction"
                  then Some (env_id (sys_envelope s), detail_u64 "compaction_number" (sys_detail s)) else None
  | _ => None
  end.
(** The scan of [list_pages]: [idx] is the position of the events left, [start]
    the page begun, [count] the pages pushed. *)
Fixpoint scan_pages (all : list SessionEvent) (count start idx : nat) (es : list SessionEvent) : list SessionPage :=
  match es with
  | [] => if Nat.ltb start (length all) then [build_page (S count) start (length all) all None] else []
  | e :: es =>
      match boundary_of e with
      | None => scan_pages all count start (S idx) es
      | Some b => build_page (S count) start (S idx) all (Some b) :: scan_pages all (S count) (S idx) (S idx) es
      end
  end.
Definition list_pages (es : list SessionEvent) : list SessionPage := scan_pages es 0 0 0 es.

(** ** Reading a page *)

Definition block_name (b : ContentBlock Json) : option string := match b with ToolResult _ n _ _ => Some n | _ => None end.
Definition first_tool_name (m : SessionMessage) : option string := head (omap block_name (content (sm_message m))).
Definition render_event (e : SessionEvent) : option string :=
  match as_message e with
  | None => None
  | Some m =>
      let text := text_content m in
      if String.eqb text "" then None
      else Some (match sm_role m with
                 | User => "user: " +:+ text
                 | Assistant => "assistant: " +:+ text
                 | System => "system: " +:+ text
                 | Tool => "tool: [" +:+ default "tool" (first_tool_name m) +:+ " result: " +:+ text +:+ "]"
                 end)
  end.

Definition READ_PAGE_MAX_TOKENS : nat := 8 * 10 ^ 3.
Definition budget_chars : nat := READ_PAGE_MAX_TOKENS * Z.to_nat CHARS_PER_TOKEN.
(** A character boundary at or before [end_]. *)
Fixpoint floor_boundary (s : string) (end_ : nat) : nat :=
  match end_ with
  | O => O
  | S n => if is_char_boundary s end_ then end_ else floor_boundary s n
  end.

(** The loop of [read_page] over the lines from [next] on, under [budget];
    [None] is the subtraction [budget - out.len() - 1] going below zero. *)
Fixpoint fill (budget : nat) (limit : option nat) (out : string) (next : nat) (ls : list string) : option (string * nat) :=
  match limit, ls with
  | Some O, _ | _, [] => Some (out, next)
  | _, line :: ls =>
      let sep := if String.eqb out "" then 0 else 1 in
      if Nat.ltb budget (String.length out + (String.length line + sep))
      then if Nat.ltb budget (String.length out + sep) then None
           else let remaining := budget - String.length out - sep in
                if Nat.eqb remaining 0 then Some (out, S next)
                else Some (out +:+ (if String.eqb out "" then "" else newline)
                               +:+ take_bytes (floor_boundary line remaining) line, S next)
      else fill budget (pred <$> limit) (out +:+ (if String.eqb out "" then "" else newline) +:+ line) (S next) ls
  end.

Definition page_lines (es : list SessionEvent) (p : SessionPage) : list string :=
  flat_map lines (omap render_event (slice (start_index p) (end_index p) es)).
Definition nat_text (n : nat) : string := dec (Z.of_nat n).
Definition more_marker (total next page_number : nat) : string :=
  newline +:+ "[... " +:+ nat_text (total - next) +:+ " more line(s) on page " +:+ nat_text page_number
    +:+ "; continue with read_page offset=" +:+ nat_text next +:+ "]".
Definition read_page (budget : nat) (es : list SessionEvent) (page_number offset limit : nat) : option string :=
  let pages := list_pages es in
  match List.find (fun p => Nat.eqb (pg_number p) page_number) pages with
  | None => Some ("Page " +:+ nat_text page_number +:+ " does not exist — this session has " +:+ nat_text (length pages)
                    +:+ " page(s). Call list_pages for the catalog.")
  | Some page =>
      let ls := page_lines es page in
      let total := length ls in
      if Nat.leb total offset
      then Some ("Offset " +:+ nat_text offset +:+ " is past the end of page " +:+ nat_text page_number +:+ " ("
                   +:+ nat_text total +:+ " rendered line(s)).")
      else
        '(out, next) ← fill budget (if Nat.eqb limit 0 then None else Some limit) "" offset (drop offset ls);
        Some (if Nat.ltb next total then out +:+ more_marker total next page_number else out)
  end.

(** ** The catalog *)

Definition format_token_estimate (tokens : Z) : string :=
  if (1000 <=? tokens)%Z then "~" +:+ dec ((tokens + 500) / 1000) +:+ "k" else "~" +:+ dec tokens.
Definition catalog_line (p : SessionPage) : string :=
  "- page " +:+ nat_text (pg_number p)
    +:+ (match pg_compaction_number p with
         | Some n => " (compaction #" +:+ dec n +:+ ", " +:+ format_token_estimate (token_estimate p) +:+ " tokens)"
         | None => " (" +:+ format_token_estimate (token_estimate p) +:+ " tokens)"
         end)
    +:+ (if String.eqb (title p) "" then "" else ": " +:+ String "034" "" +:+ title p +:+ String "034" "")
    +:+ newline.
Definition render_page_catalog (pages : list SessionPage) : option string :=
  let archived := List.filter (fun p => is_some (boundary_event_id p)) pages in
  match archived with
  | [] => None
  | _ => Some ("<archived-pages>" +:+ newline
                 +:+ "This session has " +:+ nat_text (length archived) +:+ " archived page(s) from earlier compactions:" +:+ newline
                 +:+ concat_text (map catalog_line archived)
                 +:+ "Use the session tool's read_page / search_pages actions to retrieve archived content." +:+ newline
                 +:+ "</archived-pages>")
  end.

(** ** The session tool *)

(** [list_pages] and [read_page] of the runtime: numbers are offset by the
    pages rotated out. *)
Definition renumber (pruned : nat) (p : SessionPage) : SessionPage :=
  {| pg_number := pg_number p + pruned; boundary_event_id := boundary_event_id p;
     pg_compaction_number := pg_compaction_number p; start_index := start_index p; end_index := end_index p;
     token_estimate := token_estimate p; title := title p |}.
Record PageCatalog := { first_available_page : nat; page_limit : option nat; catalog_pages : list SessionPage }.
Definition tool_list_pages (es : list SessionEvent) (pruned : nat) (limit : option nat) : PageCatalog :=
  {| first_available_page := pruned + 1; page_limit := limit; catalog_pages := map (renumber pruned) (list_pages es) |}.
Definition tool_read_page (budget : nat) (es : list SessionEvent) (pruned page offset limit : nat) : result (option string) string :=
  if Nat.leb page pruned
  then Err ("page " +:+ nat_text page +:+ " was rotated out by the session's page_limit retention policy —                  the oldest available page is "
              +:+ nat_text (pruned + 1))
  else Ok (read_page budget es (page - pruned) offset limit).

(** ** Retention *)

(** Where the [n]-th boundary from the front ends, counted from [idx]; all
    events when there are fewer. *)
Fixpoint after_boundary (n idx : nat) (es : list SessionEvent) : nat :=
  match es with
  | [] => idx
  | e :: es =>
      if is_compaction_boundary e
      then match n with 0 | 1 => S idx | S n => after_boundary n (S idx) es end
      else after_boundary n (S idx) es
  end.
Definition closed_pages (es : list SessionEvent) : nat := length (List.filter is_compaction_boundary es).

Section Retention.
Context {J : SessionJson}.

(** [prune_overflow]: how many pages were rotated out, and the directory. *)
Definition prune_overflow (d : gmap string string) (id : string) (limit : option nat) : nat * gmap string string :=
  match limit with
  | None => (0, d)
  | Some limit =>
      let '(es, d) := load_events d id in
      let overflow := closed_pages es - limit in
      if Nat.eqb overflow 0 then (0, d)
      else (overflow, prune_head d id (after_boundary overflow 0 es))
  end.
End Retention.

(** ** Contexts rebuilt from a transcript *)

Inductive CompactionPhase := PreTurn | MidTurn | StandaloneTurn.
Record CompactionDetails := {
  read_files : list string;
  modified_files : list string;
  image_token_count : Z;
  phase : CompactionPhase;
  user_messages : option (list string);
}.
Definition file_block (tag : string) (files : list string) : string :=
  match files with
  | [] => ""
  | _ => newline +:+ newline +:+ "<" +:+ tag +:+ ">" +:+ newline +:+ concat_text (map (fun f => f +:+ newline) files)
           +:+ "</" +:+ tag +:+ ">"
  end.
Definition format_summary_with_file_ops (summary : string) (d : CompactionDetails) : string :=
  trim summary +:+ file_block "read-files" (read_files d) +:+ file_block "modified-files" (modified_files d)
    +:+ match user_messages d with
        | Some (m :: ms) =>
            newline +:+ newline +:+ "<user-messages>" +:+ newline
              +:+ "The user sent the following messages verbatim (oldest first):" +:+ newline
              +:+ concat_text (map (fun m => newline +:+ "<message>" +:+ newline +:+ m +:+ newline +:+ "</message>" +:+ newline) (m :: ms))
              +:+ "</user-messages>"
        | _ => ""
        end.

Definition latest_compaction_boundary (es : list SessionEvent) : option nat :=
  last (omap (fun '(i, e) => if is_compaction_boundary e then Some i else None) (imap pair es)).
Definition COMPACTION_BOUNDARY_METADATA_KEY : string := "peko.compaction_boundary".
Definition COMPACTION_SUMMARY_PREFIX : string := "[Conversation Summary".
Definition is_compaction_boundary_message (m : LlmMessage Json) : bool :=
  default false (metadata m !! COMPACTION_BOUNDARY_METADATA_KEY ≫= as_bool).

Section Context_.
(** [serde_json::from_value::<CompactionDetails>]. *)
Context (details_of : Json -> option CompactionDetails).

Definition summary_message (before : list SessionEvent) (s : SystemEvent) : LlmMessage Json :=
  let detail := sys_detail s in
  let summary := detail_str "summary" detail in
  let compacted := default 0%Z (detail_u64 "messages_compacted" detail) in
  let body := match (match index detail "details" with JNull => None | v => details_of v end) with
              | Some d => format_summary_with_file_ops summary d
              | None => trim summary
              end in
  let footer := match render_page_catalog (list_pages before) with
                | Some f => newline +:+ newline +:+ f
                | None => ""
                end in
  {| role := System;
     content := [Text (COMPACTION_SUMMARY_PREFIX +:+ " - " +:+ dec compacted +:+ " messages]:" +:+ newline +:+ body +:+ footer)];
     timestamp := env_ts (sys_envelope s);
     metadata := {[COMPACTION_BOUNDARY_METADATA_KEY := JBool true]};
     tool_call_id := None; usage := None |}.
Definition compaction_summary_message (es : list SessionEvent) (idx : nat) : option (LlmMessage Json) :=
  match es !! idx with
  | Some (SystemEv s) =>
      if String.eqb (sys_event s) "compaction" then Some (summary_message (take (S idx) es) s) else None
  | _ => None
  end.

Definition load_history_native (es : list SessionEvent) : list (LlmMessage Json) :=
  match latest_compaction_boundary es with
  | Some idx => option_list (compaction_summary_message es idx) ++ omap event_to_llm_message (drop (S idx) es)
  | None => omap event_to_llm_message es
  end.
End Context_.

Inductive NormalizedEntry :=
  | NSession (id : string) (version : Z) (timestamp : Z) (cwd : option string)
  | NUserMessage (id content : string) (timestamp : Z) (source : MessageSource)
  | NAssistantMessage (id content : string) (timestamp input_tokens output_tokens : Z)
  | NSystemMessage (content : string) (timestamp : Z)
  | NToolResult (tool_call_id tool_name content : string) (is_error : bool)
  | NCompaction (summary : string) (messages_compacted tokens_before tokens_after compaction_number timestamp : Z)
  | NModelChange (provider model_id : string) (timestamp : Z)
  | NCustom (custom_type : string) (data : Json).

(** [as u32]. *)
Definition to_u32 (n : Z) : Z := (n mod 2 ^ 32)%Z.
Definition normalize_message (m : SessionMessage) : NormalizedEntry :=
  let text := text_content m in
  let ts := env_ts (sm_envelope m) in
  match sm_role m with
  | User => NUserMessage (message_id m) text ts (default FromUser (sm_source m))
  | Assistant => NAssistantMessage (message_id m) text ts
                   (from_option (fun u => to_u32 (usage_input u)) 0%Z (sm_usage m))
                   (from_option (fun u => to_u32 (usage_output u)) 0%Z (sm_usage m))
  | System => NSystemMessage text ts
  | Tool => NToolResult (default "" (sm_tool_call_id m)) (default "" (first_tool_name m)) text false
  end.
Definition normalize_event (e : SessionEvent) : option NormalizedEntry :=
  match e with
  | MessageV2 m => Some (normalize_message m)
  | SessionCreated c => Some (NSession (env_id (sc_envelope c)) 3 (env_ts (sc_envelope c)) None)
  | SystemEv s =>
      let d := sys_detail s in
      let n key := default 0%Z (detail_u64 key d) in
      if String.eqb (sys_event s) "compaction"
      then Some (NCompaction (detail_str "summary" d) (n "messages_compacted") (n "tokens_before") (n "tokens_after")
                   (n "compaction_number") (env_ts (sys_envelope s)))
      else if String.eqb (sys_event s) "model_change"
      then Some (NModelChange (detail_str "provider" d) (detail_str "model_id" d) (env_ts (sys_envelope s)))
      else None
  | _ => None
  end.
Definition load_normalized (es : list SessionEvent) : list NormalizedEntry := omap normalize_event es.

Definition normalized_entry_to_llm_message (now : Z) (e : NormalizedEntry) : option (LlmMessage Json) :=
  match e with
  | NUserMessage _ c _ _ => Some (text_message User c now)
  | NAssistantMessage _ c _ _ _ => Some (text_message Assistant c now)
  | NSystemMessage c _ => Some (text_message System c now)
  | NToolResult id name c err => Some (tool_result_message id name c err now)
  | _ => None
  end.
Definition entry_text (e : NormalizedEntry) : string :=
  let line prefix c := if String.eqb c "" then "" else prefix +:+ c +:+ newline +:+ newline in
  match e with
  | NUserMessage _ c _ _ => line "user: " c
  | NAssistantMessage _ c _ _ _ => line "assistant: " c
  | NSystemMessage c _ => line "system: " c
  | NToolResult _ name c _ => "tool: [" +:+ name +:+ " result: " +:+ c +:+ "]" +:+ newline +:+ newline
  | _ => ""
  end.
Definition entries_to_context_text (l : list NormalizedEntry) : string := concat_text (map entry_text l).

Definition compaction_number_of (e : NormalizedEntry) : option Z :=
  match e with NCompaction _ _ _ _ n _ => Some n | _ => None end.
Definition is_compaction (e : NormalizedEntry) : bool := is_some (compaction_number_of e).
Definition build_context (now : Z) (entries : list NormalizedEntry) : list (LlmMessage Json) :=
  match last (List.filter is_compaction entries) with
  | Some (NCompaction summary compacted before after number _) =>
      let text := "[Conversation Summary #" +:+ dec number +:+ " — " +:+ dec compacted +:+ " messages compacted, saved "
                    +:+ dec (sat_sub_u64 before after) +:+ " tokens]" +:+ newline +:+ newline +:+ summary in
      let idx := default 0 (position (fun e => bool_decide (compaction_number_of e = Some number)) entries) in
      text_message System text now :: omap (normalized_entry_to_llm_message now) (drop (S idx) entries)
  | _ => omap (normalized_entry_to_llm_message now) entries
  end.
(** [load_previous_compaction_summary]. *)
Definition load_previous_compaction_summary (entries : list NormalizedEntry) : option string :=
  match last (List.filter is_compaction entries) with Some (NCompaction summary _ _ _ _ _) => Some summary | _ => None end.
Definition events_since_last_boundary (es : list SessionEvent) : list SessionEvent :=
  drop (default 0 (latest_compaction_boundary es)) es.
Definition get_context_text (id : string) (es : list SessionEvent) : string :=
  let text := entries_to_context_text (load_normalized es) in
  if String.eqb text "" then "Session: " +:+ id else text.

(** ** Pages as segments *)

(** The transcript cut after each boundary; [cur] is the segment begun. *)
Fixpoint segments (cur es : list SessionEvent) : list (list SessionEvent) :=
  match es with
  | [] => match cur with [] => [] | _ => [cur] end
  | e :: es => if is_compaction_boundary e then (cur ++ [e]) :: segments [] es else segments (cur ++ [e]) es
  end.
(** The page of a segment, and the pages of segments laid end to end. *)
Definition closing (seg : list SessionEvent) : option (string * option Z) := last seg ≫= boundary_of.
Definition segment_page (number start : nat) (seg : list SessionEvent) : SessionPage :=
  {| pg_number := number;
     boundary_event_id := fst <$> closing seg;
     pg_compaction_number := closing seg ≫= snd;
     start_index := start; end_index := start + length seg;
     token_estimate := estimate_page_tokens seg; title := page_title seg |}.
Fixpoint segment_pages (number start : nat) (segs : list (list SessionEvent)) : list SessionPage :=
  match segs with
  | [] => []
  | seg :: segs => segment_page number start seg :: segment_pages (S number) (start + length seg) segs
  end.

Lemma boundary_of_some e : is_some (boundary_of e) = is_compaction_boundary e.
Proof. destruct e; try done. cbn. by destruct (String.eqb _ _). Qed.
Lemma slice_middle (a b c : list SessionEvent) : slice (length a) (length a + length b) (a ++ b ++ c) = b.
Proof. unfold slice. rewrite drop_app_length. replace (_ - _) with (length b) by lia. apply take_app_length. Qed.
Lemma build_segment number pre seg post :
  build_page number (length pre) (length pre + length seg) (pre ++ seg ++ post) (closing seg)
  = segment_page number (length pre) seg.
Proof. unfold build_page. by rewrite slice_middle. Qed.

Lemma scan_segments pre cur es count :
  Forall (fun e => is_compaction_boundary e = false) cur ->
  scan_pages (pre ++ cur ++ es) count (length pre) (length pre + length cur) es
  = segment_pages (S count) (length pre) (segments cur es).
Proof.
  revert pre cur count. induction es as [|e es IH]; intros pre cur count Hc; cbn [scan_pages segments].
  - rewrite app_nil_r, length_app. destruct cur as [|c cur'] eqn:E.
    + cbn [length]. rewrite Nat.add_0_r, Nat.ltb_irrefl. done.
    + rewrite <- E in *. assert (0 < length cur) by (subst; cbn; lia). rewrite (proj2 (Nat.ltb_lt _ _)) by lia.
      assert (Hb : closing cur = None).
      { unfold closing. destruct (last cur) as [x|] eqn:El; [|done]. apply last_Some_elem_of in El.
        rewrite Forall_forall in Hc. specialize (Hc x El). rewrite <- boundary_of_some in Hc. cbn. by destruct (boundary_of x). }
      cbn [segment_pages]. f_equal. rewrite <- (build_segment _ _ _ []), Hb, app_nil_r. by subst.
  - rewrite <- boundary_of_some. destruct (boundary_of e) as [b|] eqn:Hb; cbn [is_some].
    + cbn [segment_pages]. assert (Hl : length pre + length (cur ++ [e]) = S (length pre + length cur)) by (rewrite length_app; cbn; lia).
      f_equal.
      * rewrite <- (build_segment _ _ _ es). unfold closing. rewrite last_snoc. cbn [mbind option_bind]. rewrite Hb, Hl. by rewrite <- app_assoc.
      * specialize (IH (pre ++ cur ++ [e]) [] (S count)). rewrite !length_app in IH. cbn [length app] in IH.
        rewrite length_app. cbn [length]. rewrite <- IH by constructor. rewrite <- !app_assoc. cbn [app]. f_equal; lia.
    + specialize (IH pre (cur ++ [e]) count). rewrite <- !app_assoc, length_app in IH. cbn [length app] in IH.
      rewrite <- IH; [f_equal; lia|]. apply Forall_app. split; [done|]. constructor; [|done].
      rewrite <- boundary_of_some. by rewrite Hb.
Qed.
Lemma list_pages_segments es : list_pages es = segment_pages 1 0 (segments [] es).
Proof. apply (scan_segments [] [] es 0). constructor. Qed.

Lemma concat_segments cur es : concat (segments cur es) = cur ++ es.
Proof.
  revert cur. induction es as [|e es IH]; intros cur; cbn [segments].
  - destruct cur; cbn; by rewrite ?app_nil_r.
  - destruct (is_compaction_boundary e); cbn [concat]; rewrite IH; [|by rewrite <- app_assoc]. by rewrite <- app_assoc.
Qed.
Lemma segment_slices number pre segs :
  map (fun p => slice (start_index p) (end_index p) (pre ++ concat segs)) (segment_pages number (length pre) segs) = segs.
Proof.
  revert number pre. induction segs as [|seg segs IH]; intros number pre; [done|]. cbn [segment_pages map start_index end_index segment_page concat].
  rewrite slice_middle. f_equal. specialize (IH (S number) (pre ++ seg)). rewrite length_app, <- app_assoc in IH. exact IH.
Qed.
Lemma segment_numbers number start segs : map pg_number (segment_pages number start segs) = seq number (length segs).
Proof. revert number start. induction segs as [|seg segs IH]; intros; [done|]. cbn. by rewrite IH. Qed.
Lemma segment_pages_length number start segs : length (segment_pages number start segs) = length segs.
Proof. revert number start. induction segs as [|seg segs IH]; intros; [done|]. cbn. by rewrite IH. Qed.
(** No boundary but, if any, the last event. *)
Definition closed_once (seg : list SessionEvent) : Prop :=
  exists body tail, seg = body ++ tail /\ Forall (fun e => is_compaction_boundary e = false) body /\
    (tail = [] \/ exists b, tail = [b] /\ is_compaction_boundary b = true).
Lemma segments_closed cur es :
  Forall (fun e => is_compaction_boundary e = false) cur ->
  Forall closed_once (segments cur es) /\
  length (List.filter (fun seg => match last seg with Some e => is_compaction_boundary e | None => false end) (segments cur es))
  = closed_pages es.
Proof.
  revert cur. induction es as [|e es IH]; intros cur Hc; cbn [segments].
  - destruct cur as [|c cur'] eqn:E; [done|]. rewrite <- E in *. split.
    + constructor; [|done]. exists cur, []. rewrite app_nil_r. eauto.
    + cbn. destruct (last cur) as [x|] eqn:El; [|done]. apply last_Some_elem_of in El. rewrite Forall_forall in Hc. by rewrite Hc.
  - unfold closed_pages. cbn [List.filter]. destruct (is_compaction_boundary e) eqn:Eb.
    + destruct (IH []) as [Hf Hn]; [done|]. split.
      * constructor; [|done]. exists cur, [e]. split_and!; eauto.
      * cbn [List.filter]. rewrite last_snoc, Eb. cbn [length]. by rewrite Hn.
    + apply IH. apply Forall_app. auto.
Qed.

(** ** Retention *)

(** What a catalog says of a page, and the events behind it. *)
Definition page_content (es : list SessionEvent) (p : SessionPage) : list SessionEvent := slice (start_index p) (end_index p) es.
Definition page_facts (es : list SessionEvent) (p : SessionPage) :=
  (pg_number p, (boundary_event_id p, pg_compaction_number p), (token_estimate p, title p), page_content es p).
Definition segment_facts (number : nat) (seg : list SessionEvent) :=
  (number, (fst <$> closing seg, closing seg ≫= snd), (estimate_page_tokens seg, page_title seg), seg).

Lemma segment_pages_facts k number pre segs :
  map (page_facts (pre ++ concat segs)) (map (renumber k) (segment_pages number (length pre) segs))
  = imap (fun i seg => segment_facts (number + k + i) seg) segs.
Proof.
  revert number pre. induction segs as [|seg segs IH]; intros number pre; [done|].
  cbn [segment_pages map concat]. rewrite imap_cons. f_equal.
  - unfold page_facts, page_content, renumber, segment_page, segment_facts. cbn [start_index end_index pg_number boundary_event_id pg_compaction_number token_estimate title].
    rewrite slice_middle. by rewrite Nat.add_0_r.
  - specialize (IH (S number) (pre ++ seg)). rewrite length_app, <- app_assoc in IH. rewrite IH. apply imap_ext.
    intros i x _. unfold segment_facts. cbn. do 3 f_equal. lia.
Qed.
Lemma catalog_facts es pruned limit :
  map (page_facts es) (catalog_pages (tool_list_pages es pruned limit)) = imap (fun i seg => segment_facts (1 + pruned + i) seg) (segments [] es).
Proof.
  unfold tool_list_pages. cbn [catalog_pages]. rewrite list_pages_segments.
  rewrite <- (segment_pages_facts pruned 1 [] (segments [] es)). by rewrite concat_segments.
Qed.
Lemma imap_drop {A B} (f : nat -> A -> B) n l : drop n (imap f l) = imap (fun i => f (n + i)) (drop n l).
Proof.
  revert f l. induction n as [|n IH]; intros f l; [done|]. destruct l as [|x l]; [done|]. rewrite imap_cons. cbn [drop].
  rewrite IH. apply imap_ext. intros i y _. cbn. done.
Qed.

Lemma after_boundary_shift n idx es : after_boundary n idx es = idx + after_boundary n 0 es.
Proof.
  revert n idx. induction es as [|e es IH]; intros n idx; cbn [after_boundary]; [lia|].
  destruct (is_compaction_boundary e); [destruct n as [|[|n]]; [lia..|]|]; rewrite (IH _ (S idx)), (IH _ 1); lia.
Qed.
Lemma segments_after n cur es : 0 < n <= closed_pages es ->
  segments [] (drop (after_boundary n 0 es) es) = drop n (segments cur es) /\
  closed_pages (drop (after_boundary n 0 es) es) = closed_pages es - n.
Proof.
  revert n cur. induction es as [|e es IH]; intros n cur Hn; cbn [after_boundary segments]; [cbn in Hn; lia|].
  unfold closed_pages in *. cbn [List.filter] in *. destruct (is_compaction_boundary e) eqn:E; cbn [length] in *.
  - destruct n as [|[|n]]; [lia| |].
    + cbn. rewrite drop_0. split; [done|lia].
    + rewrite after_boundary_shift. cbn [drop plus]. destruct (IH (S n) []) as [Hs Hc]; [lia|].
      split; [exact Hs|]. rewrite Hc. lia.
  - rewrite after_boundary_shift. cbn [drop plus]. apply IH. lia.
Qed.

Lemma prune_overflow_spec {J : SessionJson} {L : SessionJsonLaws J} d id limit :
  dot_free id -> tidy d id ->
  let es := events d id in
  let '(overflow, d') := prune_overflow d id (Some limit) in
  overflow = closed_pages es - limit /\ tidy d' id /\
  events d' id = (if Nat.eqb overflow 0 then es else drop (after_boundary overflow 0 es) es).
Proof.
  intros Hid Ht. cbv zeta. unfold prune_overflow. destruct (load_events d id) as [es d0] eqn:El.
  assert (He : es = events d id) by (unfold events; by rewrite El).
  assert (Hd0 : d0 = cleanup_temp_files d id) by (unfold load_events in El; congruence).
  destruct (cleanup_pages d id Hid Ht) as (Ht0 & Hp0 & Hv0).
  assert (He0 : events d0 id = es).
  { subst d0 es. rewrite !events_view by done. rewrite Hv0. unfold live. by rewrite live_cleanup. }
  rewrite <- He. destruct (Nat.eqb (closed_pages es - limit) 0) eqn:E; [apply Nat.eqb_eq in E; subst d0; by rewrite E|].
  rewrite E. subst d0. destruct (prune_sound _ id (after_boundary (closed_pages es - limit) 0 es) Hid Ht0) as [Ht' He'].
  split_and!; [done..|]. by rewrite He', He0.
Qed.

(** ** Windows *)

(** Leading empty lines leave no trace in a window: the separator is written
    only behind text. *)
Fixpoint skip_empty (ls : list string) : list string :=
  match ls with "" :: ls => skip_empty ls | _ => ls end.
Definition separator (out : string) : string := if String.eqb out "" then "" else newline.
Definition window_text (out : string) (ls : list string) : string :=
  fold_left (fun out l => out +:+ separator out +:+ l) ls out.

Lemma separator_length out : String.length (separator out) = if String.eqb out "" then 0 else 1.
Proof. unfold separator. by destruct (String.eqb out ""). Qed.
Lemma length_step out l : String.length (out +:+ separator out +:+ l) = String.length out + (String.length l + (if String.eqb out "" then 0 else 1)).
Proof. rewrite !length_app_str, separator_length. lia. Qed.
Lemma window_text_grows out ls : String.length out <= String.length (window_text out ls).
Proof.
  revert out. induction ls as [|l ls IH]; intros out; cbn [window_text fold_left]; [done|].
  specialize (IH (out +:+ separator out +:+ l)). fold (window_text (out +:+ separator out +:+ l) ls). rewrite !length_app_str in IH. lia.
Qed.
Lemma window_text_some out ls : out <> "" -> window_text out ls = join_with newline (out :: ls).
Proof.
  revert out. induction ls as [|l ls IH]; intros out Ho; [done|]. unfold window_text. cbn [fold_left].
  assert (Hs : separator out = newline) by (unfold separator; by rewrite (proj2 (String.eqb_neq out "") Ho)).
  rewrite Hs. fold (window_text (out +:+ newline +:+ l) ls). rewrite IH by (by destruct out).
  rewrite (join_cons _ out) by done. destruct ls as [|l' ls]; [done|]. rewrite !(join_cons _ _ (l' :: ls)) by done. by rewrite <- !app_assoc_str.
Qed.
Lemma window_text_join ls : window_text "" ls = join_with newline (skip_empty ls).
Proof.
  induction ls as [|l ls IH]; [done|]. destruct l as [|a l]; [exact IH|].
  change (window_text "" (String a l :: ls)) with (window_text (String a l) ls). by rewrite window_text_some.
Qed.

Lemma fill_fits budget limit out next ls :
  let window := from_option (fun n => take n ls) ls limit in
  String.length (window_text out window) <= budget ->
  fill budget limit out next ls = Some (window_text out window, next + length window).
Proof.
  cbv zeta. revert limit out next. induction ls as [|l ls IH]; intros limit out next H.
  - destruct limit as [[|n]|]; cbn; by rewrite ?Nat.add_0_r.
  - destruct limit as [[|n]|]; cbn [fill from_option take] in *; [by rewrite Nat.add_0_r|..];
      cbn [window_text fold_left] in H; fold (separator out); rewrite <- length_step;
      (rewrite (proj2 (Nat.ltb_ge _ _)) by (eapply Nat.le_trans; [eapply window_text_grows|exact H])).
    + rewrite (IH (Some n)) by done. cbn [length from_option]. f_equal. f_equal. lia.
    + rewrite (IH None) by done. cbn [length from_option]. f_equal. f_equal. lia.
Qed.
Lemma floor_boundary_le s n : floor_boundary s n <= n.
Proof. induction n as [|n IH]; cbn [floor_boundary]; [done|]. destruct (is_char_boundary _ _); lia. Qed.
Lemma fill_bound budget limit out next ls out' next' :
  String.length out <= budget -> fill budget limit out next ls = Some (out', next') -> String.length out' <= budget.
Proof.
  revert limit out next. induction ls as [|l ls IH]; intros limit out next Ho H.
  - destruct limit as [[|n]|]; cbn in H; by simplify_eq.
  - destruct limit as [[|n]|]; cbn [fill] in H; [by simplify_eq|..];
      fold (separator out) in H; rewrite <- length_step in H;
      (destruct (Nat.ltb_spec budget (String.length (out +:+ separator out +:+ l))) as [Hc|Hc];
       [|by eapply IH; [|exact H]]);
      (destruct (Nat.ltb_spec budget (String.length out + (if String.eqb out "" then 0 else 1))); [done|]);
      (destruct (Nat.eqb _ 0); [by simplify_eq|]); simplify_eq; rewrite !length_app_str, separator_length;
      match goal with |- context [take_bytes ?n l] => pose proof (take_bytes_length n l) as Ht end;
      match type of Ht with context [floor_boundary l ?m] => pose proof (floor_boundary_le l m) end; lia.
Qed.

Lemma archived_segments number start segs :
  length (List.filter (fun p => is_some (boundary_event_id p)) (segment_pages number start segs))
  = length (List.filter (fun seg => match last seg with Some e => is_compaction_boundary e | None => false end) segs).
Proof.
  revert number start. induction segs as [|seg segs IH]; intros n k; [done|]. cbn [segment_pages List.filter].
  replace (is_some (boundary_event_id (segment_page n k seg)))
    with (match last seg with Some e => is_compaction_boundary e | None => false end).
  - destruct (match last seg with Some _ => _ | None => _ end); cbn [length]; by rewrite IH.
  - cbn. unfold closing. destruct (last seg) as [e|]; [|done]. rewrite <- boundary_of_some. cbn. by destruct (boundary_of e).
Qed.

Lemma retention_spec {J : SessionJson} {L : SessionJsonLaws J} d id limit pruned shown :
  dot_free id -> tidy d id ->
  let es := fst (load_events d id) in
  let '(overflow, d') := prune_overflow d id (Some limit) in
  let es' := fst (load_events d' id) in
  closed_pages es' = Nat.min limit (closed_pages es) /\
  map (page_facts es') (catalog_pages (tool_list_pages es' (pruned + overflow) shown))
  = drop overflow (map (page_facts es) (catalog_pages (tool_list_pages es pruned shown))).
Proof.
  intros Hid Ht. cbv zeta. pose proof (prune_overflow_spec d id limit Hid Ht) as H. cbv zeta in H.
  destruct (prune_overflow d id (Some limit)) as [overflow d']. destruct H as (Ho & _ & He). unfold events in *.
  rewrite He, !catalog_facts, imap_drop. destruct (Nat.eqb_spec overflow 0) as [E|E].
  - rewrite E in *. split; [lia|]. rewrite drop_0. apply imap_ext. intros i seg _. f_equal; lia.
  - destruct (segments_after overflow [] (fst (load_events d id))) as [Hs Hc]; [lia|]. split; [rewrite Hc; lia|].
    rewrite Hs. apply imap_ext. intros i seg _. f_equal; lia.
Qed.

(** ** Theorems *)

(** The pages of a transcript are numbered from one without gaps, their events
    put together are the transcript, a page holds no boundary but the one that
    closes it, and there are as many archived pages as boundaries. *)
Theorem pages_partition es :
  let pages := list_pages es in
  concat (map (page_content es) pages) = es /\
  map pg_number pages = seq 1 (length pages) /\
  Forall (fun p => closed_once (page_content es p)) pages /\
  length (List.filter (fun p => is_some (boundary_event_id p)) pages) = closed_pages es.
Proof.
  cbv zeta. rewrite list_pages_segments. pose proof (segment_slices 1 [] (segments [] es)) as Hs.
  rewrite concat_segments in Hs. cbn [app length] in Hs. destruct (segments_closed [] es) as [Hc Hn]; [done|].
  split_and!.
  - unfold page_content. rewrite Hs. apply concat_segments.
  - by rewrite segment_numbers, segment_pages_length.
  - unfold page_content. rewrite <- Hs in Hc. apply (Forall_fmap (page_content es) closed_once). exact Hc.
  - rewrite <- Hn. apply archived_segments.
Qed.

(** Rotating pages out for a limit leaves at most that many archived pages,
    and what the session tool reports of every page that stays, its number
    included, is what it reported before. *)
Theorem retention_keeps_addresses {J : SessionJson} {L : SessionJsonLaws J} d id limit pruned shown :
  dot_free id -> tidy d id ->
  let es := fst (load_events d id) in
  let '(overflow, d') := prune_overflow d id (Some limit) in
  let es' := fst (load_events d' id) in
  closed_pages es' = Nat.min limit (closed_pages es) /\
  map (page_facts es') (catalog_pages (tool_list_pages es' (pruned + overflow) shown))
  = drop overflow (map (page_facts es) (catalog_pages (tool_list_pages es pruned shown))).
Proof. apply retention_spec. Qed.

(** A window of a page that fits the budget is its lines, joined, with the
    marker naming where to go on when lines are left. *)
Theorem read_page_window budget es n offset limit page :
  List.find (fun p => Nat.eqb (pg_number p) n) (list_pages es) = Some page ->
  let ls := page_lines es page in
  let window := if Nat.eqb limit 0 then drop offset ls else take limit (drop offset ls) in
  offset < length ls -> String.length (join_with newline (skip_empty window)) <= budget ->
  read_page budget es n offset limit
  = Some (join_with newline (skip_empty window) +:+
          (if Nat.ltb (offset + length window) (length ls) then more_marker (length ls) (offset + length window) n else "")).
Proof.
  intros Hp. cbv zeta. intros Ho Hb. unfold read_page. rewrite Hp. rewrite (proj2 (Nat.leb_gt _ _)) by done.
  rewrite <- window_text_join in *.
  set (lim := if Nat.eqb limit 0 then None else Some limit).
  assert (Hw : from_option (fun n => take n (drop offset (page_lines es page))) (drop offset (page_lines es page)) lim
               = if Nat.eqb limit 0 then drop offset (page_lines es page) else take limit (drop offset (page_lines es page)))
    by (unfold lim; by destruct (Nat.eqb limit 0)).
  rewrite fill_fits; rewrite Hw; [|done]. cbn [mbind option_bind]. destruct (Nat.ltb _ _); [done|]. by rewrite app_nil_r_str.
Qed.

(** Whatever the page holds, the text read back is at most the budget and the
    marker. *)
Theorem read_page_capped budget es n offset limit page text :
  List.find (fun p => Nat.eqb (pg_number p) n) (list_pages es) = Some page ->
  offset < length (page_lines es page) -> read_page budget es n offset limit = Some text ->
  exists body next, String.length body <= budget /\
    text = body +:+ (if Nat.ltb next (length (page_lines es page)) then more_marker (length (page_lines es page)) next n else "").
Proof.
  intros Hp Ho H. unfold read_page in H. rewrite Hp in H. rewrite (proj2 (Nat.leb_gt _ _)) in H by done.
  destruct (fill _ _ _ _ _) as [[out next]|] eqn:E; [|done]. cbn [mbind option_bind] in H. injection H as <-. exists out, next.
  split; [eapply fill_bound; [|exact E]; cbn; lia|]. destruct (Nat.ltb _ _); [done|]. by rewrite app_nil_r_str.
Qed.

Lemma latest_boundary_app pre b post :
  is_compaction_boundary b = true -> Forall (fun e => is_compaction_boundary e = false) post ->
  latest_compaction_boundary (pre ++ b :: post) = Some (length pre).
Proof.
  intros Hb Hp. unfold latest_compaction_boundary. rewrite imap_app, omap_app, imap_cons. csimpl. rewrite Hb, Nat.add_0_r.
  assert (Hn : forall f : nat -> nat, omap (fun '(i, e) => if is_compaction_boundary e then Some i else None) (imap (fun i => pair (f i)) post) = []).
  { clear Hb. induction Hp as [|e post He _ IH]; intros f; [done|]. rewrite imap_cons. csimpl. rewrite He. apply (IH (f ∘ S)). }
  pose proof (Hn (fun i => length pre + S i)) as E. unfold compose. rewrite E. apply last_snoc.
Qed.

(** The reloaded history is the summary of the last boundary and the messages
    recorded after it; the summary carries the mark that keeps it. *)
Theorem history_restarts details_of pre s post :
  String.eqb (sys_event s) "compaction" = true -> Forall (fun e => is_compaction_boundary e = false) post ->
  let history := load_history_native details_of (pre ++ SystemEv s :: post) in
  history = summary_message details_of (pre ++ [SystemEv s]) s :: omap event_to_llm_message post /\
  from_option is_compaction_boundary_message false (head history) = true.
Proof.
  intros Hs Hp. cbv zeta. unfold load_history_native. rewrite latest_boundary_app by done.
  unfold compaction_summary_message. rewrite list_lookup_middle by done. rewrite Hs. cbn [option_list app].
  rewrite (cons_middle (SystemEv s) pre post), app_assoc.
  replace (S (length pre)) with (length (pre ++ [SystemEv s])) by (rewrite length_app; cbn; lia).
  rewrite take_app_length, drop_app_length. split; [done|]. cbn.
  unfold is_compaction_boundary_message, summary_message. cbn [metadata]. by rewrite lookup_singleton_eq.
Qed.

(** ** Examples *)

Module PagesExample.
Import SessionCodec LogExample.

Definition boundary (n : Z) : SessionEvent := compaction_event ("compact_" +:+ dec n) 9 "so far" 1 10 5 n None.
Definition compacted : gmap string string := append_event (append_event opened sid (note 1 "hi")) sid (boundary 1).
Lemma compacted_tidy : tidy compacted sid.
Proof.
  destruct (append_sound opened sid (note 1 "hi") opened_sound) as [H1 _].
  by destruct (append_sound _ sid (boundary 1) H1) as [(_ & H2 & _) _].
Qed.
(** A page with a long first message. *)
Fixpoint repeat_char (n : nat) (s : string) : string := match n with O => s | S n => String "a" (repeat_char n s) end.
Definition long_page : list SessionEvent := [note 1 (repeat_char (budget_chars - 6) ""); note 2 "b"].
(** A boundary written before [compaction_number] existed. *)
Definition old_boundary (id summary : string) : SessionEvent :=
  SystemEv {| sys_envelope := envelope_new id 9; sys_event := "compaction"; sys_detail := JObject [("summary", JString summary)] |}.
Definition two_boundaries : list SessionEvent :=
  [old_boundary "c1" "one"; note 1 "archived"; old_boundary "c2" "two"; note 2 "live"].
End PagesExample.

#[local] Existing Instances SessionCodec.json SessionCodec.json_laws.

Lemma retention_keeps_addresses_witness :
  closed_pages (fst (load_events (snd (prune_overflow PagesExample.compacted LogExample.sid (Some 0))) LogExample.sid)) = 0.
Proof.
  pose proof (retention_keeps_addresses PagesExample.compacted LogExample.sid 0 0 None LogExample.sid_dot_free PagesExample.compacted_tidy) as H.
  cbv zeta in H. destruct (prune_overflow _ _ _) as [o d']. destruct H as [H _]. exact H.
Defined.
Lemma read_page_window_witness :
  read_page 100 [LogExample.note 1 "hi"; LogExample.note 2 "again"] 1 0 1
  = Some ("user: hi" +:+ more_marker 2 1 1).
Proof.
  pose proof (read_page_window 100 [LogExample.note 1 "hi"; LogExample.note 2 "again"] 1 0 1
    (segment_page 1 0 [LogExample.note 1 "hi"; LogExample.note 2 "again"])) as H.
  rewrite H; [reflexivity|vm_compute; reflexivity|vm_compute; lia|vm_compute; lia].
Defined.
Lemma history_restarts_witness :
  length (load_history_native (fun _ => None) [LogExample.note 1 "hi"; PagesExample.old_boundary "c" "s"; LogExample.note 2 "b"]) = 2.
Proof.
  destruct (history_restarts (fun _ => None) [LogExample.note 1 "hi"]
    {| sys_envelope := envelope_new "c" 9; sys_event := "compaction"; sys_detail := JObject [("summary", JString "s")] |}
    [LogExample.note 2 "b"]) as [H _]; [reflexivity|repeat constructor|].
  cbn [app] in H. unfold PagesExample.old_boundary. rewrite H. reflexivity.
Defined.

(** Text that fills the budget exactly, with a line to follow, makes the
    remaining budget negative. *)
Theorem read_page_underflow : read_page budget_chars PagesExample.long_page 1 0 0 = None.
Proof. vm_compute. reflexivity. Qed.

(** With two boundaries of the same number, [build_context] continues behind
    the first one and replays what the second archived; the history loader
    does not. *)
Theorem build_context_replays :
  map (fun m => content m) (build_context 0 (load_normalized PagesExample.two_boundaries))
  = [[Text ("[Conversation Summary #0 — 0 messages compacted, saved 0 tokens]" +:+ newline +:+ newline +:+ "two")];
     [Text "archived"]; [Text "live"]] /\
  map (fun m => content m) (tail (load_history_native (fun _ => None) PagesExample.two_boundaries)) = [[Text "live"]].
Proof. vm_compute. done. Qed.

(** Once pages were rotated out, the summary's catalog and the session tool
    number the same page differently. *)
Theorem catalog_numbers_shift :
  let es := [LogExample.note 3 "c"; PagesExample.boundary 2] in
  map pg_number (list_pages es) = [1] /\
  map pg_number (catalog_pages (tool_list_pages es 1 None)) = [2].
Proof. vm_compute. done. Qed.
