(* ===== verification/SessionIndex.v ===== *)
(** * SessionIndex: session metadata and its index

    The entries of [sessions.json] and the routing of [peers.json]
    (peko-rs/session/src/index.rs) and the controller every metadata write
    goes through (metadata_controller.rs).  Several index instances share the
    files of a directory, each with a cache that is good for thirty seconds;
    saving re-reads the file under the lock of the directory and applies only
    what the instance changed.  An operation is one step with one reading of
    the clock; a file holds a map or cannot be read (a missing or blank file
    holds the empty one), and a failing lock or write is not modelled. *)

From Stdlib Require Import ZArith Lia Ascii.
From stdpp Require Import base tactics list gmap strings.
From S2P Require Import Prelude Text Usage Subject ActingFor SessionLog.

Local Open Scope Z_scope.
Open Scope rust_scope.

(** ** Entries *)

Record CompactionLimitsState := {
  compaction_count : Z;
  last_compaction_at_ms : option Z;
  consecutive_auto : Z;
  consecutive_failures : Z;
}.
#[export] Instance CompactionLimitsState_eq_dec : EqDecision CompactionLimitsState.
Proof. solve_decision. Defined.
Definition no_limits : CompactionLimitsState :=
  {| compaction_count := 0; last_compaction_at_ms := None; consecutive_auto := 0; consecutive_failures := 0 |}.

(** The counts of an entry, its place in the tree, what it is bound to and its
    pages: fields of [SessionEntry], in groups. *)
Record Counts := {
  message_count : Z;
  turn_count : Z;
  last_total_tokens : Z;
  total_input_tokens : Z;
  total_output_tokens : Z;
}.
#[export] Instance Counts_eq_dec : EqDecision Counts.
Proof. solve_decision. Defined.
Record Place := { parent_session_id : option string; slug : option string }.
Record Binding := { peer_type : option string; peer_id : option string; channel_id : option string }.
Record Paging := { entry_page_limit : option Z; pruned_pages : Z }.

Record SessionEntry := {
  session_id : string;
  agent_name : string;
  created_at : Z;
  updated_at : Z;
  counts : Counts;
  model_context_limit : option Z;
  transcript_file : string;
  entry_title : option string;
  trigger : string;
  place : Place;
  binding : Binding;
  paging : Paging;
  compaction_limits_state : CompactionLimitsState;
  entry_compartment : option Compartment;
}.

Definition entry_new (now : Z) (id agent file : string) : SessionEntry :=
  {| session_id := id; agent_name := agent; created_at := now; updated_at := now;
     counts := {| message_count := 0; turn_count := 0; last_total_tokens := 0; total_input_tokens := 0; total_output_tokens := 0 |};
     model_context_limit := None; transcript_file := file; entry_title := None; trigger := "user";
     place := {| parent_session_id := None; slug := None |};
     binding := {| peer_type := None; peer_id := None; channel_id := None |};
     paging := {| entry_page_limit := None; pruned_pages := 0 |};
     compaction_limits_state := no_limits; entry_compartment := None |}.

(** One assignment per group of fields. *)
Definition set_counts (e : SessionEntry) (c : Counts) : SessionEntry :=
  {| session_id := session_id e; agent_name := agent_name e; created_at := created_at e; updated_at := updated_at e;
     counts := c; model_context_limit := model_context_limit e; transcript_file := transcript_file e;
     entry_title := entry_title e; trigger := trigger e; place := place e; binding := binding e; paging := paging e;
     compaction_limits_state := compaction_limits_state e; entry_compartment := entry_compartment e |}.
Definition set_place (e : SessionEntry) (p : Place) : SessionEntry :=
  {| session_id := session_id e; agent_name := agent_name e; created_at := created_at e; updated_at := updated_at e;
     counts := counts e; model_context_limit := model_context_limit e; transcript_file := transcript_file e;
     entry_title := entry_title e; trigger := trigger e; place := p; binding := binding e; paging := paging e;
     compaction_limits_state := compaction_limits_state e; entry_compartment := entry_compartment e |}.
Definition set_binding (e : SessionEntry) (b : Binding) : SessionEntry :=
  {| session_id := session_id e; agent_name := agent_name e; created_at := created_at e; updated_at := updated_at e;
     counts := counts e; model_context_limit := model_context_limit e; transcript_file := transcript_file e;
     entry_title := entry_title e; trigger := trigger e; place := place e; binding := b; paging := paging e;
     compaction_limits_state := compaction_limits_state e; entry_compartment := entry_compartment e |}.
Definition set_paging (e : SessionEntry) (p : Paging) : SessionEntry :=
  {| session_id := session_id e; agent_name := agent_name e; created_at := created_at e; updated_at := updated_at e;
     counts := counts e; model_context_limit := model_context_limit e; transcript_file := transcript_file e;
     entry_title := entry_title e; trigger := trigger e; place := place e; binding := binding e; paging := p;
     compaction_limits_state := compaction_limits_state e; entry_compartment := entry_compartment e |}.
(** [set_compaction_limits_state] writes no timestamp. *)
Definition set_compaction_limits_state (e : SessionEntry) (s : CompactionLimitsState) : SessionEntry :=
  {| session_id := session_id e; agent_name := agent_name e; created_at := created_at e; updated_at := updated_at e;
     counts := counts e; model_context_limit := model_context_limit e; transcript_file := transcript_file e;
     entry_title := entry_title e; trigger := trigger e; place := place e; binding := binding e; paging := paging e;
     compaction_limits_state := s; entry_compartment := entry_compartment e |}.
Definition touch (now : Z) (e : SessionEntry) : SessionEntry :=
  {| session_id := session_id e; agent_name := agent_name e; created_at := created_at e; updated_at := now;
     counts := counts e; model_context_limit := model_context_limit e; transcript_file := transcript_file e;
     entry_title := entry_title e; trigger := trigger e; place := place e; binding := binding e; paging := paging e;
     compaction_limits_state := compaction_limits_state e; entry_compartment := entry_compartment e |}.
(** [set_title]; the timestamp is the caller's [touch]. *)
Definition set_title (now : Z) (t : option string) (e : SessionEntry) : SessionEntry :=
  touch now
  {| session_id := session_id e; agent_name := agent_name e; created_at := created_at e; updated_at := updated_at e;
     counts := counts e; model_context_limit := model_context_limit e; transcript_file := transcript_file e;
     entry_title := t; trigger := trigger e; place := place e; binding := binding e; paging := paging e;
     compaction_limits_state := compaction_limits_state e; entry_compartment := entry_compartment e |}.
Definition set_trigger (t : string) (e : SessionEntry) : SessionEntry :=
  {| session_id := session_id e; agent_name := agent_name e; created_at := created_at e; updated_at := updated_at e;
     counts := counts e; model_context_limit := model_context_limit e; transcript_file := transcript_file e;
     entry_title := entry_title e; trigger := t; place := place e; binding := binding e; paging := paging e;
     compaction_limits_state := compaction_limits_state e; entry_compartment := entry_compartment e |}.
Definition set_compartment (c : Compartment) (e : SessionEntry) : SessionEntry :=
  {| session_id := session_id e; agent_name := agent_name e; created_at := created_at e; updated_at := updated_at e;
     counts := counts e; model_context_limit := model_context_limit e; transcript_file := transcript_file e;
     entry_title := entry_title e; trigger := trigger e; place := place e; binding := binding e; paging := paging e;
     compaction_limits_state := compaction_limits_state e; entry_compartment := Some c |}.

(** [with_peer], [with_parent]. *)
Definition with_peer (now : Z) (id agent file ptype pid : string) : SessionEntry :=
  set_binding (entry_new now id agent file) {| peer_type := Some ptype; peer_id := Some pid; channel_id := None |}.
Definition with_parent (now : Z) (id agent file parent : string) : SessionEntry :=
  set_trigger "branch" (set_place (entry_new now id agent file) {| parent_session_id := Some parent; slug := None |}).
(** [record_tokens], [set_message_count]; the sums are [usize] additions. *)
Definition record_tokens (now last input output : Z) (e : SessionEntry) : SessionEntry :=
  let c := counts e in
  touch now (set_counts e {| message_count := message_count c; turn_count := turn_count c; last_total_tokens := last;
                             total_input_tokens := total_input_tokens c + input; total_output_tokens := total_output_tokens c + output |}).
Definition with_message_count (c : Counts) (n : Z) : Counts :=
  {| message_count := n; turn_count := turn_count c; last_total_tokens := last_total_tokens c;
     total_input_tokens := total_input_tokens c; total_output_tokens := total_output_tokens c |}.
Definition set_message_count (now n : Z) (e : SessionEntry) : SessionEntry :=
  if Z.eqb (message_count (counts e)) n then e else touch now (set_counts e (with_message_count (counts e) n)).

(** ** Peers *)

Record PeerInfo := { active_session_id : option string; session_ids : list string }.
Definition peer_new (id : string) : PeerInfo := {| active_session_id := Some id; session_ids := [id] |}.
Definition lists (p : PeerInfo) (id : string) : bool := existsb (String.eqb id) (session_ids p).
Definition add_session (p : PeerInfo) (id : string) : PeerInfo :=
  {| active_session_id := Some id; session_ids := if lists p id then session_ids p else session_ids p ++ [id] |}.
Definition switch_to (p : PeerInfo) (id : string) : result PeerInfo string :=
  if lists p id then Ok {| active_session_id := Some id; session_ids := session_ids p |}
  else Err ("Session " +:+ id +:+ " not found for peer").

(** ** The index *)

Notation "'Entries'" := (gmap string SessionEntry) (only parsing).
Notation "'Peers'" := (gmap string PeerInfo) (only parsing).

Inductive IndexFile (A : Type) := Readable (a : A) | Unreadable (why : string).
Arguments Readable {A} a.
Arguments Unreadable {A} why.
Record Disk := { sessions_json : IndexFile Entries; peers_json : IndexFile Peers }.
Definition read_json {A} (f : IndexFile A) : result A string := match f with Readable a => Ok a | Unreadable why => Err why end.

(** One of the two halves of an index: a cache, when it was read, whether
    there is something to save, and which keys. *)
Record Half (A : Type) := {
  cache : option (gmap string A);
  loaded_at : option Z;
  modified : bool;
  dirty : gset string;
  removed : gset string;
}.
Arguments cache {A} _.
Arguments loaded_at {A} _.
Arguments modified {A} _.
Arguments dirty {A} _.
Arguments removed {A} _.
Definition half_new {A} : Half A := {| cache := None; loaded_at := None; modified := false; dirty := ∅; removed := ∅ |}.
Record SessionIndex := { sessions : Half SessionEntry; peers : Half PeerInfo }.
(** [SessionIndex::open]. *)
Definition index_open : SessionIndex := {| sessions := half_new; peers := half_new |}.

Definition CACHE_TTL_MS : Z := 30000.
(** A clock behind the load makes the cache invalid, as [elapsed] fails. *)
Definition fresh {A} (now : Z) (h : Half A) : option (gmap string A) :=
  match loaded_at h with
  | Some t => if (t <=? now) && (now - t <? CACHE_TTL_MS) then cache h else None
  | None => None
  end.

(** *** Peer attribution of older entries *)

(** The walk up the chain: fields already found, ids visited. *)
Fixpoint attribution (fuel : nat) (es : Entries) (visited : gset string) (cursor : string) (ptype pid : option string)
    : option string * option string :=
  match fuel with
  | O => (ptype, pid)
  | S fuel =>
      match es !! cursor with
      | None => (ptype, pid)
      | Some e =>
          let ptype := or_else ptype (peer_type (binding e)) in
          let pid := or_else pid (peer_id (binding e)) in
          if is_some ptype && is_some pid then (ptype, pid)
          else match parent_session_id (place e) with
               | None => (ptype, pid)
               | Some parent =>
                   if bool_decide (parent ∈ visited) then (ptype, pid)
                   else attribution fuel es ({[parent]} ∪ visited) parent ptype pid
               end
      end
  end.
Definition with_attribution (e : SessionEntry) (ptype pid : option string) : SessionEntry :=
  set_binding e {| peer_type := or_else (peer_type (binding e)) ptype; peer_id := or_else (peer_id (binding e)) pid;
                   channel_id := channel_id (binding e) |}.
Definition attributed (e : SessionEntry) : bool :=
  is_some (channel_id (binding e)) || (is_some (peer_type (binding e)) && is_some (peer_id (binding e))).
Definition backfill_one (st : bool * Entries) (id : string) : bool * Entries :=
  let '(changed, es) := st in
  match es !! id with
  | None => st
  | Some e =>
      if attributed e then st
      else
        let '(ptype, pid) := attribution (size es) es {[id]} id None None in
        (changed || (negb (is_some (peer_type (binding e))) && is_some ptype)
                 || (negb (is_some (peer_id (binding e))) && is_some pid),
         <[id := with_attribution e ptype pid]> es)
  end.
(** [backfill_peer_attribution], over the ids in the order the map gives. *)
Definition backfill_over (ids : list string) (es : Entries) : bool * Entries := fold_left backfill_one ids (false, es).
Definition backfill_peer_attribution (es : Entries) : bool * Entries := backfill_over (map fst (map_to_list es)) es.

(** ** Operations *)

(** What an operation works on: the index of its instance and the directory
    every instance shares. *)
Record World := { disk : Disk; files : gmap string string }.
Definition M (A : Type) : Type := SessionIndex * World -> result A string * (SessionIndex * World).
#[export] Instance M_ret : MRet M := fun A x s => (Ok x, s).
#[export] Instance M_bind : MBind M := fun A B k c s =>
  match c s with (Ok a, s) => k a s | (Err e, s) => (Err e, s) end.
Definition throw {A} (e : string) : M A := fun s => (Err e, s).
Definition lift {A} (r : result A string) : M A := fun s => (r, s).
Definition index_of : M SessionIndex := fun s => (Ok (fst s), s).
Definition world_of : M World := fun s => (Ok (snd s), s).
Definition put_index (i : SessionIndex) : M unit := fun s => (Ok tt, (i, snd s)).
Definition put_disk (d : Disk) : M unit := fun s => (Ok tt, (fst s, {| disk := d; files := files (snd s) |})).
Definition put_files (f : gmap string string) : M unit := fun s => (Ok tt, (fst s, {| disk := disk (snd s); files := f |})).
Definition put_sessions (h : Half SessionEntry) : M unit := i ← index_of; put_index {| sessions := h; peers := peers i |}.
Definition put_peers (h : Half PeerInfo) : M unit := i ← index_of; put_index {| sessions := sessions i; peers := h |}.

Section Index.
  Context (now : Z).

Definition load_sessions : M Entries :=
  i ← index_of;
  match fresh now (sessions i) with
  | Some es => mret es
  | None =>
      w ← world_of;
      es ← lift (read_json (sessions_json (disk w)));
      let '(backfilled, es) := backfill_peer_attribution es in
      _ ← put_sessions {| cache := Some es; loaded_at := Some now; modified := backfilled;
                          dirty := dirty (sessions i); removed := removed (sessions i) |};
      mret es
  end.
Definition load_peers : M Peers :=
  i ← index_of;
  match fresh now (peers i) with
  | Some ps => mret ps
  | None =>
      w ← world_of;
      ps ← lift (read_json (peers_json (disk w)));
      _ ← put_peers {| cache := Some ps; loaded_at := Some now; modified := false;
                       dirty := dirty (peers i); removed := removed (peers i) |};
      mret ps
  end.

(** A key set or removed in a half whose cache was just loaded. *)
Definition set_key {A} (h : Half A) (m : gmap string A) (k : string) (a : A) : Half A :=
  {| cache := Some (<[k := a]> m); loaded_at := loaded_at h; modified := true;
     dirty := {[k]} ∪ dirty h; removed := removed h ∖ {[k]} |}.
Definition remove_key {A} (h : Half A) (m : gmap string A) (k : string) : Half A :=
  {| cache := Some (delete k m); loaded_at := loaded_at h; modified := true;
     dirty := dirty h ∖ {[k]}; removed := {[k]} ∪ removed h |}.

Definition index_get (id : string) : M (option SessionEntry) := es ← load_sessions; mret (es !! id).
Definition get_uncached (id : string) : M (option SessionEntry) :=
  w ← world_of; es ← lift (read_json (sessions_json (disk w))); mret (es !! id).
Definition index_insert (e : SessionEntry) : M unit :=
  es ← load_sessions; i ← index_of; put_sessions (set_key (sessions i) es (session_id e) e).
Definition index_remove (id : string) : M (option SessionEntry) :=
  es ← load_sessions;
  match es !! id with
  | None => mret None
  | Some e => i ← index_of; _ ← put_sessions (remove_key (sessions i) es id); mret (Some e)
  end.

Definition put_peer (ps : Peers) (key : string) (p : PeerInfo) : M unit := i ← index_of; put_peers (set_key (peers i) ps key p).
Definition get_active_session_id (key : string) : M (option string) :=
  ps ← load_peers; mret (ps !! key ≫= active_session_id).
Definition get_active_for_peer (key : string) : M (option SessionEntry) :=
  a ← get_active_session_id key;
  match a with
  | None => mret None
  | Some id => es ← load_sessions; mret (es !! id)
  end.
Definition list_for_peer (key : string) : M (list SessionEntry) :=
  ps ← load_peers; es ← load_sessions;
  mret (omap (fun id => es !! id) (from_option session_ids [] (ps !! key))).
Definition set_active_for_peer (key id : string) : M unit :=
  ps ← load_peers;
  p ← lift (ok_or (ps !! key) ("ActorRef " +:+ key +:+ " not found"));
  p' ← lift (switch_to p id);
  put_peer ps key p'.
Definition clear_active_for_peer (key : string) : M unit :=
  ps ← load_peers;
  match ps !! key with
  | Some p => match active_session_id p with
              | Some _ => put_peer ps key {| active_session_id := None; session_ids := session_ids p |}
              | None => mret tt
              end
  | None => mret tt
  end.
Definition remove_session_from_peer (key id : string) : M unit :=
  ps ← load_peers;
  match ps !! key with
  | None => mret tt
  | Some p =>
      let was_active := bool_decide (active_session_id p = Some id) in
      if negb (lists p id) && negb was_active then mret tt
      else
        let p' := {| active_session_id := if was_active then None else active_session_id p;
                     session_ids := List.filter (fun x => negb (String.eqb x id)) (session_ids p) |} in
        match session_ids p' with
        | [] => i ← index_of; put_peers (remove_key (peers i) ps key)
        | _ => put_peer ps key p'
        end
  end.
Definition create_for_peer (e : SessionEntry) (key : string) : M unit :=
  _ ← index_insert e;
  ps ← load_peers;
  put_peer ps key (add_session (default (peer_new (session_id e)) (ps !! key)) (session_id e)).
Definition ensure_peer_active (key id : string) : M unit :=
  ps ← load_peers;
  put_peer ps key (add_session (default (peer_new id) (ps !! key)) id).

(** [sort_by_key(Reverse(updated_at))], stable over the order the map gives. *)
Definition newest (a b : SessionEntry) : bool := updated_at b <=? updated_at a.
Definition list_all : M (list SessionEntry) :=
  es ← load_sessions; mret (sort_by newest (map snd (map_to_list es))).
Definition list_for_agent (agent : string) : M (list SessionEntry) :=
  es ← load_sessions;
  mret (sort_by newest (List.filter (fun e => String.eqb (agent_name e) agent) (map snd (map_to_list es)))).

(** The merge of a save: what the instance set and removed, over what the file
    holds now. *)
Definition merged {A} (h : Half A) (on_disk : gmap string A) : gmap string A :=
  let set_ids := match cache h with
                 | Some c => set_fold (fun k m => match c !! k with Some a => <[k := a]> m | None => m end) on_disk (dirty h)
                 | None => on_disk
                 end in
  set_fold (fun k m => delete k m) set_ids (removed h).
Definition saved {A} (m : gmap string A) : Half A :=
  {| cache := Some m; loaded_at := Some now; modified := false; dirty := ∅; removed := ∅ |}.
Definition merge_save_sessions : M unit :=
  i ← index_of; w ← world_of;
  on_disk ← lift (read_json (sessions_json (disk w)));
  let m := merged (sessions i) on_disk in
  _ ← put_disk {| sessions_json := Readable m; peers_json := peers_json (disk w) |};
  put_sessions (saved m).
Definition merge_save_peers : M unit :=
  i ← index_of; w ← world_of;
  on_disk ← lift (read_json (peers_json (disk w)));
  let m := merged (peers i) on_disk in
  _ ← put_disk {| sessions_json := sessions_json (disk w); peers_json := Readable m |};
  put_peers (saved m).
Definition save : M unit :=
  i ← index_of;
  _ ← (if modified (sessions i) then merge_save_sessions else mret tt);
  if modified (peers i) then merge_save_peers else mret tt.
End Index.

(** ** The controller *)

Section Controller.
  Context {J : SessionJson}.
  (** [SessionId::from]: the id a text names. *)
  Context (id_of : string -> string).
  Context (now : Z).

Definition sanitize_key_component (s : string) : string :=
  concat_text (take 64 (map (fun c => if String.eqb c ":" then "_" else c) (chars s))).
Definition derive_base_session_key (agent : string) (peer : ActorRef) : string :=
  match peer with
  | User r => "agent:" +:+ agent +:+ ":peer:user:" +:+ sanitize_key_component (route_display r)
  | Principal r => "agent:" +:+ agent +:+ ":peer:agent:" +:+ sanitize_key_component (route_display r)
  | Visitor r => "agent:" +:+ agent +:+ ":peer:visitor:" +:+ sanitize_key_component (route_display r)
  | Public => "agent:" +:+ agent +:+ ":peer:public:channel"
  end.

(** [create_metadata], [create_entry], [update_metadata] and [update_entry]. *)
Definition update_entry (e : SessionEntry) : M unit := _ ← index_insert now e; save now.

(** [load_events], with its sweep of the temporary file. *)
Definition read_events (id : string) : M (list SessionEvent) :=
  w ← world_of;
  let '(es, f) := load_events (files w) id in
  _ ← put_files f; mret es.
Definition count_messages (es : list SessionEvent) : Z := Z.of_nat (length (List.filter is_message es)).
Definition count_messages_from_jsonl (id : string) : M Z := es ← read_events id; mret (count_messages es).
(** The last total, and the sums of input and output. *)
Definition token_metrics (es : list SessionEvent) : Z * Z * Z :=
  fold_left (fun '(last, input, output) e =>
    match as_message e with
    | Some m => match sm_usage m with
                | Some u => (usage_total u, input + usage_input u, output + usage_output u)
                | None => (last, input, output)
                end
    | None => (last, input, output)
    end) es (0, 0, 0).
Definition get_token_metrics_from_jsonl (id : string) : M (Z * Z * Z) := es ← read_events id; mret (token_metrics es).
Definition synced_counts (c : Counts) (n : Z) (t : Z * Z * Z) : Counts :=
  let '(last, input, output) := t in
  {| message_count := n; turn_count := turn_count c; last_total_tokens := last;
     total_input_tokens := input; total_output_tokens := output |}.

Definition get_entry (id : string) (sync_from_jsonl : bool) : M (option SessionEntry) :=
  r ← index_get now (id_of id);
  match r with
  | None => mret None
  | Some e =>
      if negb sync_from_jsonl then mret (Some e)
      else
        n ← count_messages_from_jsonl id;
        t ← get_token_metrics_from_jsonl id;
        let c := synced_counts (counts e) n t in
        if bool_decide (c = counts e) then mret (Some e)
        else _ ← update_entry (set_counts e c); mret (Some (set_counts e c))
  end.
Definition need_entry (id what : string) : M SessionEntry :=
  r ← get_entry id false;
  lift (ok_or r ("Cannot " +:+ what +:+ " for non-existent session " +:+ id)).

Definition set_parent (id : string) (new_parent : option string) : M unit :=
  e ← need_entry id "set parent";
  if bool_decide (parent_session_id (place e) = new_parent) then mret tt
  else update_entry (touch now (set_place e {| parent_session_id := new_parent; slug := slug (place e) |})).
Definition get_compaction_state (id : string) : M CompactionLimitsState :=
  r ← get_entry id false; mret (from_option compaction_limits_state no_limits r).
Definition set_compaction_state (id : string) (s : CompactionLimitsState) : M unit :=
  e ← need_entry id "set compaction state";
  if bool_decide (compaction_limits_state e = s) then mret tt
  else update_entry (touch now (set_compaction_limits_state e s)).
Definition update_message_counts (id : string) (n last input output : Z) (user_turn : bool) : M unit :=
  e ← need_entry id "update counts";
  let c := counts e in
  update_entry (touch now (set_counts e
    {| message_count := n; turn_count := turn_count c + (if user_turn then 1 else 0); last_total_tokens := last;
       total_input_tokens := total_input_tokens c + input; total_output_tokens := total_output_tokens c + output |})).
Definition delete_metadata (id : string) : M bool :=
  r ← index_remove now (id_of id);
  match r with Some _ => _ ← save now; mret true | None => mret false end.

(** The peer an entry is attributed to. *)
Definition entry_peer (e : SessionEntry) : option ActorRef :=
  match peer_type (binding e), peer_id (binding e) with
  | Some t, Some id =>
      if String.eqb t "user" then Some (User (route_parse id))
      else if String.eqb t "agent" || String.eqb t "principal" then Some (Principal (route_parse id))
      else None
  | _, _ => None
  end.
Definition storage_delete (id : string) : M unit := w ← world_of; put_files (delete_session (files w) id).
Definition delete_session_by_id (id : string) : M bool :=
  r ← get_entry id false;
  match r with
  | None => _ ← storage_delete id; mret false
  | Some e =>
      _ ← match entry_peer e with
          | Some p => _ ← remove_session_from_peer now (derive_base_session_key (agent_name e) p) id; save now
          | None => mret tt
          end;
      _ ← storage_delete id;
      delete_metadata id
  end.

(** [list_entries(false)] and [list_metadata(false)]: sorting a sorted list
    again. *)
Definition list_metadata : M (list SessionEntry) := es ← list_all now; mret (sort_by newest es).
Definition sync_from_jsonl (id : string) : M Z :=
  n ← count_messages_from_jsonl id;
  t ← get_token_metrics_from_jsonl id;
  r ← get_entry id false;
  e ← lift (ok_or r ("Cannot sync non-existent session " +:+ id));
  let c := synced_counts (counts e) n t in
  _ ← (if bool_decide (c = counts e) then mret tt else update_entry (touch now (set_counts e c)));
  mret n.

(** ** The manager's setters *)

Definition edit (id : string) (f : SessionEntry -> SessionEntry) : M unit :=
  r ← get_entry id false;
  e ← lift (ok_or r ("Session " +:+ id +:+ " not found"));
  update_entry (f e).
Definition set_session_title (id : string) (t : option string) : M unit := edit id (set_title now t).
Definition bind_session_channel (id channel : string) : M unit :=
  edit id (fun e => set_binding e {| peer_type := None; peer_id := None; channel_id := Some channel |}).
Definition set_session_compartment (id : string) (c : Compartment) : M unit := edit id (set_compartment c).
Definition carry_compaction_state (from to : string) : M unit :=
  r ← get_entry from false;
  f ← lift (ok_or r ("Session " +:+ from +:+ " not found"));
  edit to (fun e => set_compaction_limits_state e (compaction_limits_state f)).
Definition set_compaction_count (id : string) (n : Z) : M unit :=
  edit id (fun e => let s := compaction_limits_state e in
    set_compaction_limits_state e {| compaction_count := n; last_compaction_at_ms := last_compaction_at_ms s;
      consecutive_auto := consecutive_auto s; consecutive_failures := consecutive_failures s |}).
Definition set_page_limit (id : string) (limit : option Z) : M unit :=
  edit id (fun e => set_paging e {| entry_page_limit := limit; pruned_pages := pruned_pages (paging e) |}).
End Controller.

(** ** Saving *)

Lemma set_fold_sets {A} (c m : gmap string A) (X : gset string) k :
  set_fold (fun k m => match c !! k with Some a => <[k := a]> m | None => m end) m X !! k
  = if decide (k ∈ X) then or_else (c !! k) (m !! k) else m !! k.
Proof.
  pose (P := fun (r : gmap string A) (X : gset string) =>
    forall k : string, r !! k = if decide (k ∈ X) then or_else (c !! k) (m !! k) else m !! k).
  revert k. apply (set_fold_ind_L P); unfold P.
  - intros k. by rewrite decide_False by set_solver.
  - intros x Y r Hx IH k. destruct (decide (k = x)) as [->|Hk].
    + rewrite decide_True by set_solver. destruct (c !! x) as [a|] eqn:E; [by rewrite lookup_insert_eq|].
      rewrite IH. by rewrite decide_False by done.
    + assert (Hr : match c !! x with Some a => <[x := a]> r | None => r end !! k = r !! k)
        by (destruct (c !! x); [by rewrite lookup_insert_ne|done]).
      rewrite Hr, IH. destruct (decide (k ∈ Y)); [by rewrite decide_True by set_solver|by rewrite decide_False by set_solver].
Qed.
Lemma set_fold_removes {A} (m : gmap string A) (X : gset string) k :
  set_fold (fun k m => delete k m) m X !! k = if decide (k ∈ X) then None else m !! k.
Proof.
  pose (P := fun (r : gmap string A) (X : gset string) => forall k : string, r !! k = if decide (k ∈ X) then None else m !! k).
  revert k. apply (set_fold_ind_L P); unfold P.
  - intros k. by rewrite decide_False by set_solver.
  - intros x Y r Hx IH k. destruct (decide (k = x)) as [->|Hk].
    + rewrite decide_True by set_solver. apply lookup_delete_eq.
    + rewrite lookup_delete_ne, IH by done.
      destruct (decide (k ∈ Y)); [by rewrite decide_True by set_solver|by rewrite decide_False by set_solver].
Qed.
Lemma merged_lookup {A} (h : Half A) m k :
  merged h m !! k = if decide (k ∈ removed h) then None
                    else if decide (k ∈ dirty h) then or_else (cache h ≫= (.!! k)) (m !! k) else m !! k.
Proof.
  unfold merged. rewrite set_fold_removes. destruct (decide (k ∈ removed h)); [done|].
  destruct (cache h) as [c|]; [apply set_fold_sets|]. by destruct (decide _).
Qed.

(** *** Instances at rest *)

(** The sessions file holds a map keyed by the ids of its entries; the
    instance has nothing pending, and its cache is keyed too. *)
Definition keyed (m : Entries) : Prop := forall k e, m !! k = Some e -> session_id e = k.
Definition settled (i : SessionIndex) : Prop :=
  dirty (sessions i) = ∅ /\ removed (sessions i) = ∅ /\ dirty (peers i) = ∅ /\ removed (peers i) = ∅ /\ modified (peers i) = false /\
  (forall m, cache (sessions i) = Some m -> keyed m).
Definition stored (w : World) : Entries := match sessions_json (disk w) with Readable m => m | Unreadable _ => ∅ end.
Definition sound_disk (w : World) : Prop :=
  (exists m, sessions_json (disk w) = Readable m /\ keyed m) /\ (exists p, peers_json (disk w) = Readable p).
Definition at_rest (s : SessionIndex * World) : Prop := settled (fst s) /\ sound_disk (snd s).

(** Entries of other sessions on disk stay as they are. *)
Definition spares (k : string) (s s' : SessionIndex * World) : Prop :=
  forall k', k' <> k -> stored (snd s') !! k' = stored (snd s) !! k'.
(** A computation that keeps the instance at rest, spares the others and, when
    it succeeds, gives a value with [Q]. *)
Definition keeps {A} (k : string) (Q : A -> Prop) (c : M A) : Prop :=
  forall s, at_rest s -> at_rest (snd (c s)) /\ spares k s (snd (c s)) /\ (forall a, fst (c s) = Ok a -> Q a).

Lemma keeps_ret {A} k (Q : A -> Prop) a : Q a -> keeps k Q (mret a).
Proof. intros H s Hs. split_and!; [done|done|]. intros b [= <-]. done. Qed.
Lemma keeps_lift {A} k (Q : A -> Prop) r : (forall a, r = Ok a -> Q a) -> keeps k Q (lift r).
Proof. intros H s Hs. split_and!; done. Qed.
Lemma keeps_then {A B} k (Q : A -> Prop) (R : B -> Prop) c f :
  keeps k Q c -> (forall a, Q a -> keeps k R (f a)) -> keeps k R (c ≫= f).
Proof.
  intros Hc Hf s Hs. destruct (Hc s Hs) as (Hr & Hsp & Hq). unfold mbind, M_bind. destruct (c s) as [[a|e] s1]; cbn [fst snd] in *.
  - destruct (Hf a (Hq a eq_refl) s1 Hr) as (Hr2 & Hsp2 & Hq2). split_and!; [done| |done].
    intros k' Hk. by rewrite Hsp2, Hsp.
  - split_and!; [done..|]. intros b H. discriminate.
Qed.
Lemma keeps_weaken {A} k (Q R : A -> Prop) c : keeps k Q c -> (forall a, Q a -> R a) -> keeps k R c.
Proof. intros H HQ s Hs. destruct (H s Hs) as (?&?&?). split_and!; auto. Qed.

Definition everything {A} (a : A) : Prop := True.

(** Attribution changes no ids. *)
Lemma backfill_keyed ids es : keyed es -> keyed (backfill_over ids es).2.
Proof.
  unfold backfill_over. generalize false. revert es. induction ids as [|id ids IH]; intros es b Hk; [done|].
  cbn [fold_left]. unfold backfill_one at 2. destruct (es !! id) as [e|] eqn:E; [|by apply IH].
  destruct (attributed e); [by apply IH|]. destruct (attribution _ _ _ _ _ _) as [t p]. apply IH.
  intros k x Hx. destruct (decide (id = k)) as [->|Hn].
  - rewrite lookup_insert_eq in Hx. simplify_eq. cbn. by apply Hk.
  - rewrite lookup_insert_ne in Hx by done. by apply Hk.
Qed.

(** Attribution changes nothing but bindings. *)
Lemma backfill_same {B} (f : SessionEntry -> B) ids es :
  (forall e b, f (set_binding e b) = f e) -> f <$> (backfill_over ids es).2 = f <$> es.
Proof.
  intros Hf. unfold backfill_over. generalize false. revert es. induction ids as [|id ids IH]; intros es b; [done|].
  cbn [fold_left]. unfold backfill_one at 2. destruct (es !! id) as [e|] eqn:E; [|by apply IH].
  destruct (attributed e); [by apply IH|]. destruct (attribution _ _ _ _ _ _) as [ty p]. rewrite IH.
  rewrite fmap_insert. apply insert_id. rewrite lookup_fmap, E. unfold with_attribution. by rewrite Hf.
Qed.
Lemma keeps_load now k : keeps k keyed (load_sessions now).
Proof.
  intros [i w] [Hs Hd]. unfold load_sessions, index_of, world_of. unfold mbind, M_bind. cbn [fst snd].
  destruct (fresh now (sessions i)) as [es|] eqn:Ef.
  - unfold mret, M_ret. cbn [fst snd]. split_and!; [done|done|]. intros m [= <-]. destruct Hs as (_&_&_&_&_&Hc). apply Hc.
    unfold fresh in Ef. destruct (loaded_at _); [|done]. by destruct (_ && _).
  - destruct Hd as [(m & Hm & Hk) Hp]. cbn [snd] in Hm. unfold lift. cbn [fst snd]. rewrite Hm. cbn [read_json fst snd].
    pose proof (backfill_keyed (map fst (map_to_list m)) m Hk) as Hb. unfold backfill_peer_attribution.
    destruct (backfill_over _ m) as [b es]. cbn [snd] in Hb.
    unfold put_sessions, put_index, index_of, mret, M_ret, mbind, M_bind. cbn [fst snd].
    destruct Hs as (H1&H2&H3&H4&H5&_). split_and!; [|done|by intros a [= <-]].
    split; [|split; eauto]. unfold settled. cbn [fst sessions peers dirty removed cache modified].
    split_and!; try done. intros m' [= <-]. done.
Qed.
Lemma keeps_get now k id : keeps k (fun o => forall e, o = Some e -> session_id e = id) (index_get now id).
Proof.
  eapply keeps_then; [apply keeps_load|]. intros es Hk. apply keeps_ret. intros e He. by apply Hk.
Qed.

Lemma save_spec now i w m ps :
  sessions_json (disk w) = Readable m -> peers_json (disk w) = Readable ps ->
  save now (i, w) =
  (Ok tt, ({| sessions := if modified (sessions i) then saved now (merged (sessions i) m) else sessions i;
              peers := if modified (peers i) then saved now (merged (peers i) ps) else peers i |},
           {| disk := {| sessions_json := Readable (if modified (sessions i) then merged (sessions i) m else m);
                         peers_json := Readable (if modified (peers i) then merged (peers i) ps else ps) |};
              files := files w |})).
Proof.
  intros Hm Hp. destruct i as [h p], w as [[sj pj] f]. cbn in Hm, Hp. subst sj pj.
  unfold save, index_of, mbind, M_bind. cbn [fst snd sessions peers].
  destruct (modified h); destruct (modified p); reflexivity.
Qed.

(** Loading from rest: the instance stays at rest and the directory as it is. *)
Lemma load_spec now i w : at_rest (i, w) ->
  exists es h, load_sessions now (i, w) = (Ok es, ({| sessions := h; peers := peers i |}, w)) /\
    keyed es /\ dirty h = ∅ /\ removed h = ∅ /\ cache h = Some es.
Proof.
  intros [Hs Hd]. destruct Hs as (H1&H2&H3&H4&H5&Hc). destruct Hd as [(m & Hm & Hk) Hp]. cbn [fst snd] in *.
  unfold load_sessions, index_of, world_of, mbind, M_bind. cbn [fst snd].
  destruct (fresh now (sessions i)) as [es|] eqn:Ef.
  - exists es, (sessions i). assert (Hce : cache (sessions i) = Some es)
      by (unfold fresh in Ef; destruct (loaded_at _); [|done]; by destruct (_ && _)).
    split_and!; [by destruct i|by apply Hc|done..].
  - unfold lift. cbn [fst snd]. rewrite Hm. cbn [read_json].
    pose proof (backfill_keyed (map fst (map_to_list m)) m Hk) as Hb. unfold backfill_peer_attribution.
    destruct (backfill_over _ m) as [b es]. cbn [snd] in Hb.
    eexists es, _. split; [reflexivity|]. cbn [dirty removed cache]. done.
Qed.
Lemma keyed_insert m e : keyed m -> keyed (<[session_id e := e]> m).
Proof.
  intros Hk k x Hx. destruct (decide (session_id e = k)) as [<-|Hn]; [rewrite lookup_insert_eq in Hx; congruence|].
  rewrite lookup_insert_ne in Hx by done. by apply Hk.
Qed.
(** A write from rest stores its entry, and nothing else, whatever the cache
    of the instance holds. *)
Lemma update_entry_spec now e i w : at_rest (i, w) ->
  exists i', update_entry now e (i, w)
    = (Ok tt, (i', {| disk := {| sessions_json := Readable (<[session_id e := e]> (stored w)); peers_json := peers_json (disk w) |};
                      files := files w |})) /\ settled i' /\ cache (sessions i') = Some (<[session_id e := e]> (stored w)).
Proof.
  intros Hr. destruct (load_spec now i w Hr) as (es & h & Hl & Hk & Hd1 & Hd2 & Hc).
  destruct Hr as [Hs [(m & Hm & Hkm) (ps & Hps)]]. destruct Hs as (H1&H2&H3&H4&H5&_). cbn [fst snd] in *.
  unfold update_entry, index_insert. unfold mbind, M_bind at 1 2. rewrite Hl.
  unfold put_sessions, index_of, put_index, mbind, M_bind. cbn [fst snd sessions peers].
  rewrite (save_spec now _ w m ps) by done. cbn [sessions peers set_key modified]. rewrite H5.
  assert (Hmerge : merged (set_key h es (session_id e) e) m = <[session_id e := e]> m).
  { apply map_eq. intros k. rewrite merged_lookup. cbn [set_key removed dirty cache mbind option_bind]. rewrite Hd1, Hd2.
    rewrite decide_False by set_solver. destruct (decide (k = session_id e)) as [->|Hn].
    - rewrite decide_True by set_solver. by rewrite !lookup_insert_eq.
    - rewrite decide_False by set_solver. by rewrite !lookup_insert_ne. }
  rewrite Hmerge. unfold stored. rewrite Hm, Hps. eexists. split; [reflexivity|]. split; [|done].
  unfold settled. cbn [sessions peers saved dirty removed cache modified]. split_and!; try done.
  intros m' [= <-]. by apply keyed_insert.
Qed.
Lemma keeps_write now k e : session_id e = k -> keeps k everything (update_entry now e).
Proof.
  intros Hk [i w] Hr. destruct (update_entry_spec now e i w Hr) as (i' & Hu & Hs & _). rewrite Hu. cbn [fst snd].
  destruct Hr as [_ [(m & Hm & Hkm) (ps & Hps)]]. cbn [snd] in *. split_and!; [|intros k' Hn|done].
  - split; [done|]. cbn [snd disk]. split; [|eauto]. eexists. split; [done|]. apply keyed_insert. unfold stored. by rewrite Hm.
  - cbn [snd]. unfold stored. cbn [disk sessions_json]. rewrite Hm. rewrite lookup_insert_ne; [done|congruence].
Qed.
Lemma merged_rest {A} (h : Half A) m : dirty h = ∅ -> removed h = ∅ -> merged h m = m.
Proof.
  intros Hd Hr. apply map_eq. intros k. rewrite merged_lookup, Hd, Hr. by rewrite !decide_False by set_solver.
Qed.
(** Saving what concerns peers only. *)
Definition accounted (p : Half PeerInfo) : Prop := modified p = true \/ (modified p = false /\ dirty p = ∅ /\ removed p = ∅).
Lemma save_peers_rest now k i w p : at_rest (i, w) -> accounted p ->
  let s' := snd (save now ({| sessions := sessions i; peers := p |}, w)) in at_rest s' /\ spares k (i, w) s'.
Proof.
  intros [Hs [(m & Hm & Hkm) (ps & Hps)]] Ha. destruct Hs as (H1&H2&H3&H4&H5&Hc). cbn [fst snd] in *. cbv zeta.
  rewrite (save_spec now _ w m ps) by done. cbn [fst snd sessions peers]. rewrite (merged_rest (sessions i)) by done.
  assert (Hsame : (if modified (sessions i) then m else m) = m) by (by destruct (modified (sessions i))). rewrite Hsame.
  split; [split; cbn [fst snd]|].
  - unfold settled. cbn [sessions peers].
    assert (Hhalf : forall b, dirty (if b : bool then saved now m else sessions i) = ∅ /\ removed (if b then saved now m else sessions i) = ∅ /\
                     (forall m', cache (if b then saved now m else sessions i) = Some m' -> keyed m')).
    { intros []; cbn [saved dirty removed cache]; split_and!; try done. intros m' [= <-]. done. }
    destruct (Hhalf (modified (sessions i))) as (A1 & A2 & A3).
    destruct Ha as [Hp|(Hp & Hd & Hrm)]; rewrite Hp; cbn [saved dirty removed modified]; split_and!; done.
  - split; cbn [disk]; eauto.
  - intros k' _. cbn [snd]. unfold stored. cbn [disk sessions_json]. by rewrite Hm.
Qed.
Lemma load_peers_spec now i w : at_rest (i, w) ->
  exists ps h, load_peers now (i, w) = (Ok ps, ({| sessions := sessions i; peers := h |}, w)) /\ accounted h.
Proof.
  intros [Hs [_ (ps & Hps)]]. destruct Hs as (_&_&H3&H4&H5&_). cbn [fst snd] in *.
  unfold load_peers, index_of, world_of, mbind, M_bind. cbn [fst snd]. destruct (fresh now (peers i)) as [m|].
  - exists m, (peers i). split; [by destruct i|by right].
  - unfold lift. cbn [fst snd]. rewrite Hps. eexists ps, _. split; [reflexivity|]. by right.
Qed.
(** Scrubbing a peer concerns the routing only. *)
Lemma remove_peer_spec now key id i w : at_rest (i, w) ->
  exists p, remove_session_from_peer now key id (i, w) = (Ok tt, ({| sessions := sessions i; peers := p |}, w)) /\ accounted p.
Proof.
  intros Hr. destruct (load_peers_spec now i w Hr) as (ps & h & Hl & Ha).
  unfold remove_session_from_peer. unfold mbind, M_bind at 1. rewrite Hl. destruct (ps !! key) as [p|]; [|by exists h].
  destruct (_ && _); [by exists h|]. unfold put_peer, put_peers, index_of, put_index, mbind, M_bind. cbn [fst snd sessions peers].
  destruct (session_ids _) eqn:E; [exists (remove_key h ps key)|eexists (set_key h ps key _)]; (split; [reflexivity|by left]).
Qed.
Lemma keeps_scrub now k key id : keeps k everything (_ ← remove_session_from_peer now key id; save now).
Proof.
  intros [i w] Hr. destruct (remove_peer_spec now key id i w Hr) as (p & Hp & Hap). unfold mbind, M_bind. rewrite Hp.
  destruct (save_peers_rest now k i w p Hr Hap) as [H1 H2]. by split_and!.
Qed.

(** Removing an entry removes it from the file, when the cache knows it. *)
Lemma delete_metadata_spec id_of now id i w : at_rest (i, w) ->
  exists es i1, load_sessions now (i, w) = (Ok es, (i1, w)) /\ settled i1 /\
    match es !! id_of id with
    | None => delete_metadata id_of now id (i, w) = (Ok false, (i1, w))
    | Some _ => exists i', delete_metadata id_of now id (i, w)
        = (Ok true, (i', {| disk := {| sessions_json := Readable (delete (id_of id) (stored w)); peers_json := peers_json (disk w) |};
                            files := files w |})) /\ settled i' /\ cache (sessions i') = Some (delete (id_of id) (stored w))
    end.
Proof.
  intros Hr. destruct (load_spec now i w Hr) as (es & h & Hl & Hk & Hd1 & Hd2 & Hc).
  destruct Hr as [Hs [(m & Hm & Hkm) (ps & Hps)]]. destruct Hs as (H1&H2&H3&H4&H5&_). cbn [fst snd] in *.
  exists es. eexists. split; [exact Hl|]. split.
  { unfold settled. cbn [sessions peers]. split_and!; try done. intros m' Hm'. rewrite Hc in Hm'. by simplify_eq. }
  unfold delete_metadata, index_remove. unfold mbind, M_bind. rewrite Hl.
  destruct (es !! id_of id) as [e|] eqn:E; [|done].
  unfold put_sessions, index_of, put_index, mret, M_ret, mbind, M_bind. cbn [fst snd sessions peers].
  rewrite (save_spec now _ w m ps) by done. cbn [fst snd sessions peers remove_key modified]. rewrite H5.
  assert (Hmerge : merged (remove_key h es (id_of id)) m = delete (id_of id) m).
  { apply map_eq. intros k. rewrite merged_lookup. cbn [remove_key removed dirty cache mbind option_bind]. rewrite Hd1, Hd2.
    destruct (decide (k = id_of id)) as [->|Hn]; [by rewrite decide_True, lookup_delete_eq by set_solver|].
    rewrite decide_False by set_solver. rewrite decide_False by set_solver. by rewrite lookup_delete_ne. }
  rewrite Hmerge. unfold stored. rewrite Hm, Hps. eexists. split; [reflexivity|]. split; [|done].
  unfold settled. cbn [sessions peers saved dirty removed cache modified]. split_and!; try done.
  intros m' [= <-] k x [_ Hx]%lookup_delete_Some. by apply Hkm.
Qed.
Lemma keeps_delete_metadata id_of now id : keeps (id_of id) everything (delete_metadata id_of now id).
Proof.
  intros [i w] Hr. destruct (delete_metadata_spec id_of now id i w Hr) as (es & i1 & Hl & Hs1 & H).
  destruct Hr as [_ [(m & Hm & Hkm) (ps & Hps)]]. cbn [fst snd] in *. destruct (es !! id_of id) as [e|].
  - destruct H as (i' & -> & Hs & _). cbn [fst snd]. split_and!; [split; [done|]|intros k' Hn; cbn [snd]|done].
    + split; cbn [snd disk]; [|eauto]. eexists. split; [done|]. unfold stored. rewrite Hm. intros k x [_ Hx]%lookup_delete_Some. by apply Hkm.
    + unfold stored. cbn [disk sessions_json]. rewrite Hm. by rewrite lookup_delete_ne by done.
  - rewrite H. cbn [fst snd]. split_and!; [|done|done]. split; [done|]. split; eauto.
Qed.

(** ** Operations of the controller *)

(** Splits on the condition of the computation at hand. *)
Ltac branch := cbv zeta; match goal with |- keeps _ _ (if ?b then _ else _) => destruct b end.

Section Frame.
  Context {J : SessionJson} (id_of : string -> string) (now : Z).

Lemma keeps_files k f : keeps k everything (put_files f).
Proof. intros [i w] Hr. by split_and!. Qed.
Lemma keeps_world k : keeps k everything world_of.
Proof. intros [i w] Hr. by split_and!. Qed.
Lemma keeps_read_events k id : keeps k everything (read_events id).
Proof.
  eapply keeps_then; [apply keeps_world|]. intros w _. destruct (load_events (files w) id) as [es f].
  eapply keeps_then; [apply keeps_files|]. intros _ _. by apply keeps_ret.
Qed.
Lemma keeps_storage_delete k id : keeps k everything (storage_delete id).
Proof. eapply keeps_then; [apply keeps_world|]. intros w _. apply keeps_files. Qed.
Definition is_session (id : string) (o : option SessionEntry) : Prop := forall e, o = Some e -> session_id e = id_of id.
Lemma keeps_get_entry id sync : keeps (id_of id) (is_session id) (get_entry id_of now id sync).
Proof.
  eapply keeps_then; [apply keeps_get|]. intros [e|] He; [|by apply keeps_ret].
  destruct (negb sync); [by apply keeps_ret|].
  eapply keeps_then; [eapply keeps_then; [apply keeps_read_events|intros es _; by apply (keeps_ret _ everything)]|]. intros n _.
  eapply keeps_then; [eapply keeps_then; [apply keeps_read_events|intros es _; by apply (keeps_ret _ everything)]|]. intros t _.
  branch; [by apply keeps_ret|].
  eapply keeps_then; [apply keeps_write; cbn; by apply He|]. intros _ _. apply keeps_ret. intros e' [= <-]. cbn. by apply He.
Qed.
Lemma keeps_need id what : keeps (id_of id) (fun e => session_id e = id_of id) (need_entry id_of now id what).
Proof.
  eapply keeps_then; [apply keeps_get_entry|]. intros o Ho. apply keeps_lift. intros e He. destruct o; cbn in He; [|done]. simplify_eq. by apply Ho.
Qed.
Lemma keeps_edit id f : (forall e, session_id (f e) = session_id e) -> keeps (id_of id) everything (edit id_of now id f).
Proof.
  intros Hf. eapply keeps_then; [apply keeps_get_entry|]. intros o Ho. eapply (keeps_then _ (fun e => session_id e = id_of id)).
  - apply keeps_lift. intros e He. destruct o; cbn in He; [|done]. simplify_eq. by apply Ho.
  - intros e He. apply keeps_write. by rewrite Hf.
Qed.

(** The writes of a controller, each about one session. *)
Inductive MetaOp :=
  | OpSetParent (parent : option string)
  | OpCompactionState (s : CompactionLimitsState)
  | OpCounts (n last input output : Z) (user_turn : bool)
  | OpSync
  | OpTitle (t : option string)
  | OpChannel (channel : string)
  | OpCompartment (c : Compartment)
  | OpCompactionCount (n : Z)
  | OpPageLimit (limit : option Z)
  | OpReadSynced
  | OpDeleteSession.
Definition meta_op (id : string) (op : MetaOp) : M unit :=
  match op with
  | OpSetParent p => set_parent id_of now id p
  | OpCompactionState s => set_compaction_state id_of now id s
  | OpCounts n last input output turn => update_message_counts id_of now id n last input output turn
  | OpSync => _ ← sync_from_jsonl id_of now id; mret tt
  | OpTitle t => set_session_title id_of now id t
  | OpChannel c => bind_session_channel id_of now id c
  | OpCompartment c => set_session_compartment id_of now id c
  | OpCompactionCount n => set_compaction_count id_of now id n
  | OpPageLimit limit => set_page_limit id_of now id limit
  | OpReadSynced => _ ← get_entry id_of now id true; mret tt
  | OpDeleteSession => _ ← delete_session_by_id id_of now id; mret tt
  end.

Lemma keeps_unit {A} k (c : M A) (Q : A -> Prop) : keeps k Q c -> keeps k everything (_ ← c; mret tt).
Proof. intros H. eapply keeps_then; [exact H|]. intros _ _. by apply keeps_ret. Qed.
Lemma keeps_sync id : keeps (id_of id) everything (sync_from_jsonl id_of now id).
Proof.
  eapply keeps_then; [eapply keeps_then; [apply keeps_read_events|intros es _; by apply (keeps_ret _ everything)]|]. intros n _.
  eapply keeps_then; [eapply keeps_then; [apply keeps_read_events|intros es _; by apply (keeps_ret _ everything)]|]. intros t _.
  eapply keeps_then; [apply keeps_get_entry|]. intros o Ho.
  eapply (keeps_then _ (fun e => session_id e = id_of id)).
  { apply keeps_lift. intros e He. destruct o; cbn in He; [|done]. simplify_eq. by apply Ho. }
  intros e He. eapply keeps_then; [|intros _ _; by apply keeps_ret].
  branch; [by apply (keeps_ret _ everything)|by apply keeps_write].
Qed.
Lemma keeps_delete_session id : keeps (id_of id) everything (delete_session_by_id id_of now id).
Proof.
  eapply keeps_then; [apply keeps_get_entry|]. intros [e|] Ho.
  - eapply (keeps_then _ everything); [destruct (entry_peer e); [apply keeps_scrub|by apply (keeps_ret _ everything)]|]. intros _ _.
    eapply keeps_then; [apply keeps_storage_delete|]. intros _ _. apply keeps_delete_metadata.
  - eapply keeps_then; [apply keeps_storage_delete|]. intros _ _. by apply keeps_ret.
Qed.
Lemma keeps_meta_op id op : keeps (id_of id) everything (meta_op id op).
Proof.
  destruct op; cbn [meta_op].
  - eapply keeps_then; [apply keeps_need|]. intros e He. branch; [by apply (keeps_ret _ everything)|by apply keeps_write].
  - eapply keeps_then; [apply keeps_need|]. intros e He. branch; [by apply (keeps_ret _ everything)|by apply keeps_write].
  - eapply keeps_then; [apply keeps_need|]. intros e He. by apply keeps_write.
  - eapply keeps_unit, keeps_sync.
  - by apply keeps_edit.
  - by apply keeps_edit.
  - by apply keeps_edit.
  - by apply keeps_edit.
  - by apply keeps_edit.
  - eapply keeps_unit, keeps_get_entry.
  - eapply keeps_unit, keeps_delete_session.
Qed.
End Frame.

(** ** Several controllers over one directory *)

(** A step: which controller, at what time, which session, what. *)
Record Step := { by_controller : nat; at_time : Z; on_session : string; does : MetaOp }.
Definition run_step {J : SessionJson} (id_of : string -> string) (st : list SessionIndex * World) (x : Step) : list SessionIndex * World :=
  let '(cs, w) := st in
  match cs !! by_controller x with
  | None => st
  | Some i => let '(_, (i', w')) := meta_op id_of (at_time x) (on_session x) (does x) (i, w) in (<[by_controller x := i']> cs, w')
  end.

Lemma run_step_sound {J : SessionJson} id_of cs w x :
  Forall settled cs -> sound_disk w ->
  let '(cs', w') := run_step id_of (cs, w) x in
  Forall settled cs' /\ sound_disk w' /\ forall k, k <> id_of (on_session x) -> stored w' !! k = stored w !! k.
Proof.
  intros Hc Hw. unfold run_step. destruct (cs !! by_controller x) as [i|] eqn:E; [|done].
  assert (Hi : settled i) by (rewrite Forall_lookup in Hc; by eapply Hc).
  destruct (keeps_meta_op id_of (at_time x) (on_session x) (does x) (i, w)) as ([Hr Hd] & Hs & _); [done|].
  destruct (meta_op _ _ _ _ (i, w)) as [r [i' w']]. cbn [fst snd] in *. split_and!; [by apply Forall_insert|done|exact Hs].
Qed.

(** C12. Whatever controllers write, in whatever order and with caches however
    stale, an entry none of their operations names keeps what it has on disk;
    every controller ends with nothing pending. *)
Theorem controllers_spare_others {J : SessionJson} id_of cs w steps k :
  Forall settled cs -> sound_disk w -> Forall (fun x => id_of (on_session x) <> k) steps ->
  let '(cs', w') := fold_left (run_step id_of) steps (cs, w) in
  Forall settled cs' /\ sound_disk w' /\ stored w' !! k = stored w !! k.
Proof.
  revert cs w. induction steps as [|x steps IH]; intros cs w Hc Hw Hk; cbn [fold_left]; [done|].
  inversion_clear Hk as [|?? Hx Hk']. pose proof (run_step_sound id_of cs w x Hc Hw) as H.
  destruct (run_step id_of (cs, w) x) as [cs1 w1]. destruct H as (Hc1 & Hw1 & Hs).
  specialize (IH cs1 w1 Hc1 Hw1 Hk'). destruct (fold_left _ steps (cs1, w1)) as [cs2 w2].
  destruct IH as (Hc2 & Hw2 & Hs2). split_and!; [done..|]. rewrite Hs2. apply Hs. congruence.
Qed.

(** A controller's write stores exactly its entry over what the file holds at
    that moment, whatever its cache says. *)
Theorem write_exact now e i w : at_rest (i, w) ->
  let '(r, (i', w')) := update_entry now e (i, w) in
  r = Ok tt /\ settled i' /\ stored w' = <[session_id e := e]> (stored w) /\ peers_json (disk w') = peers_json (disk w).
Proof.
  intros Hr. destruct (update_entry_spec now e i w Hr) as (i' & Hu & Hs & _). by rewrite Hu.
Qed.

(** ** Peers *)

(** A peer lists each of its sessions once, and its active one among them. *)
Definition sound_peer (p : PeerInfo) : Prop :=
  NoDup (session_ids p) /\ forall a, active_session_id p = Some a -> a ∈ session_ids p.
Definition sound_peers (m : Peers) : Prop := forall k p, m !! k = Some p -> sound_peer p.

Lemma lists_elem p id : lists p id = true <-> id ∈ session_ids p.
Proof.
  unfold lists. rewrite existsb_exists. setoid_rewrite <- list_elem_of_In. split.
  - intros (x & Hx & ->%String.eqb_eq). done.
  - intros H. exists id. by rewrite String.eqb_refl.
Qed.
Lemma sound_new id : sound_peer (peer_new id).
Proof. split; [apply NoDup_singleton|]. intros a [= <-]. cbn. set_solver. Qed.
Lemma sound_add p id : sound_peer p -> sound_peer (add_session p id).
Proof.
  intros [Hn Ha]. unfold add_session. destruct (lists p id) eqn:E.
  - apply lists_elem in E. split; [done|]. by intros a [= <-].
  - assert (Hi : id ∉ session_ids p) by (intros H%lists_elem; congruence). split; cbn.
    + apply NoDup_app. split_and!; [done|set_solver|apply NoDup_singleton].
    + intros a [= <-]. set_solver.
Qed.
Lemma sound_switch p id p' : sound_peer p -> switch_to p id = Ok p' -> sound_peer p'.
Proof.
  intros [Hn Ha]. unfold switch_to. destruct (lists p id) eqn:E; [|done]. intros [= <-]. apply lists_elem in E.
  split; [done|]. by intros a [= <-].
Qed.
Definition scrubbed (p : PeerInfo) (id : string) : PeerInfo :=
  {| active_session_id := if bool_decide (active_session_id p = Some id) then None else active_session_id p;
     session_ids := List.filter (fun x => negb (String.eqb x id)) (session_ids p) |}.
Lemma sound_scrub p id : sound_peer p -> sound_peer (scrubbed p id).
Proof.
  intros [Hn Ha]. split; cbn [scrubbed session_ids active_session_id].
  - clear Ha. induction Hn as [|x l Hx Hn IH]; [constructor|]. cbn. destruct (negb _); [|done]. constructor; [|done].
    rewrite list_elem_of_In, filter_In, <- list_elem_of_In. naive_solver.
  - intros a Hact. case_bool_decide as E; [done|]. rewrite list_elem_of_In, filter_In, <- list_elem_of_In. split; [by apply Ha|].
    apply negb_true_iff, String.eqb_neq. intros ->. by rewrite Hact in E.
Qed.

(** What an instance believes of the peers: its cache, or else the file. *)
Definition believed (s : SessionIndex * World) : Prop :=
  (forall m, cache (peers (fst s)) = Some m -> sound_peers m) /\
  (forall m, peers_json (disk (snd s)) = Readable m -> sound_peers m).
Inductive PeerOp := PCreate (e : SessionEntry) | PEnsure (id : string) | PSwitch (id : string) | PClear | PRemove (id : string) | PSave.
Definition peer_op (now : Z) (key : string) (op : PeerOp) : M unit :=
  match op with
  | PCreate e => create_for_peer now e key
  | PEnsure id => ensure_peer_active now key id
  | PSwitch id => set_active_for_peer now key id
  | PClear => clear_active_for_peer now key
  | PRemove id => remove_session_from_peer now key id
  | PSave => save now
  end.
(** A computation that keeps what is believed sound. *)
Definition trusts {A} (Q : A -> Prop) (c : M A) : Prop :=
  forall s, believed s -> believed (snd (c s)) /\ (forall a, fst (c s) = Ok a -> Q a).
Lemma trusts_ret {A} (Q : A -> Prop) a : Q a -> trusts Q (mret a).
Proof. intros H s Hs. split; [done|]. intros b [= <-]. done. Qed.
Lemma trusts_lift {A} (Q : A -> Prop) r : (forall a, r = Ok a -> Q a) -> trusts Q (lift r).
Proof. intros H s Hs. split; done. Qed.
Lemma trusts_bind {A B} (Q : A -> Prop) (R : B -> Prop) c f : trusts Q c -> (forall a, Q a -> trusts R (f a)) -> trusts R (c ≫= f).
Proof.
  intros Hc Hf s Hs. destruct (Hc s Hs) as (Hr & Hq). unfold mbind, M_bind. destruct (c s) as [[a|e] s1]; cbn [fst snd] in *.
  - by apply (Hf a (Hq a eq_refl) s1 Hr).
  - split; [done|]. intros b H. discriminate.
Qed.
Lemma trusts_load now : trusts sound_peers (load_peers now).
Proof.
  intros [i w] [Hc Hd]. unfold load_peers, index_of, world_of, mbind, M_bind. cbn [fst snd].
  destruct (fresh now (peers i)) as [m|] eqn:E.
  - split; [done|]. intros a [= <-]. apply Hc. unfold fresh in E. destruct (loaded_at _); [|done]. by destruct (_ && _).
  - unfold lift. cbn [fst snd]. destruct (peers_json (disk w)) as [m|why] eqn:Em; [|by split].
    split; [split; [|exact Hd]|]; [intros m' [= <-]; by apply Hd|intros a [= <-]; by apply Hd].
Qed.
Lemma trusts_load_sessions now : trusts everything (load_sessions now).
Proof.
  intros [i w] [Hc Hd]. unfold load_sessions, index_of, world_of, mbind, M_bind. cbn [fst snd].
  destruct (fresh now (sessions i)) as [m|]; [by split|]. unfold lift. cbn [fst snd].
  destruct (sessions_json (disk w)) as [m|why]; [|by split]. cbn [read_json]. destruct (backfill_peer_attribution m). by split.
Qed.
Lemma sound_insert m k p : sound_peers m -> sound_peer p -> sound_peers (<[k := p]> m).
Proof.
  intros Hm Hp k' p' H. destruct (decide (k = k')) as [->|Hn]; [rewrite lookup_insert_eq in H; by simplify_eq|].
  rewrite lookup_insert_ne in H by done. by eapply Hm.
Qed.
Lemma trusts_put ps key p : sound_peers ps -> sound_peer p -> trusts everything (put_peer ps key p).
Proof.
  intros Hps Hp [i w] [Hc Hd]. split; [split; [|exact Hd]|done]. cbn. intros m [= <-]. by apply sound_insert.
Qed.
Lemma sound_default m key id : sound_peers m -> sound_peer (default (peer_new id) (m !! key)).
Proof. intros Hm. destruct (m !! key) as [p|] eqn:E; [by eapply Hm|apply sound_new]. Qed.
Lemma sound_merged (h : Half PeerInfo) m : (forall c, cache h = Some c -> sound_peers c) -> sound_peers m -> sound_peers (merged h m).
Proof.
  intros Hc Hm k p H. rewrite merged_lookup in H. destruct (decide _); [done|]. destruct (decide _); [|by eapply Hm].
  destruct (cache h) as [c|]; cbn in H; [|by eapply Hm]. destruct (c !! k) as [q|] eqn:E; cbn in H; [|by eapply Hm].
  simplify_eq. by eapply Hc.
Qed.
Lemma trusts_save now : trusts everything (save now).
Proof.
  intros [[h p] [[sj pj] f]] [Hc Hd]. split; [|done]. cbn [fst snd peers disk peers_json] in *.
  unfold save, index_of, mbind, M_bind. cbn [fst snd sessions peers]. destruct (modified h).
  - unfold merge_save_sessions, index_of, world_of, lift, mbind, M_bind. cbn [fst snd disk sessions_json].
    destruct sj as [m|why]; cbn [read_json]; [|by split]. unfold put_disk, put_sessions, index_of, put_index, mbind, M_bind. cbn [fst snd sessions peers disk].
    destruct (modified p); [|by split]. unfold merge_save_peers, index_of, world_of, lift, mbind, M_bind. cbn [fst snd disk peers_json peers].
    destruct pj as [ps|why]; cbn [read_json]; [|by split]. split; cbn; intros m' [= <-]; apply sound_merged; auto.
  - destruct (modified p); [|by split]. unfold merge_save_peers, index_of, world_of, lift, mbind, M_bind. cbn [fst snd disk peers_json peers].
    destruct pj as [ps|why]; cbn [read_json]; [|by split]. split; cbn; intros m' [= <-]; apply sound_merged; auto.
Qed.
Lemma trusts_insert now e : trusts everything (index_insert now e).
Proof. eapply trusts_bind; [apply trusts_load_sessions|]. intros es _ [i w] [Hc Hd]. by split. Qed.

(** Routing stays sound: however peers are created, switched, cleared, scrubbed
    and saved, with a cache of any age, every peer lists its active session
    and lists none twice. *)
Theorem peers_stay_sound now key op s : believed s -> believed (snd (peer_op now key op s)).
Proof.
  intros Hs. assert (H : trusts everything (peer_op now key op)); [|by apply H]. clear s Hs. destruct op; cbn [peer_op].
  - eapply trusts_bind; [apply trusts_insert|]. intros _ _. eapply trusts_bind; [apply trusts_load|]. intros ps Hps.
    apply trusts_put; [done|]. by apply sound_add, sound_default.
  - eapply trusts_bind; [apply trusts_load|]. intros ps Hps. apply trusts_put; [done|]. by apply sound_add, sound_default.
  - eapply trusts_bind; [apply trusts_load|]. intros ps Hps. eapply (trusts_bind sound_peer).
    { apply trusts_lift. intros p Hp. destruct (ps !! key) as [q|] eqn:E; cbn in Hp; [|done]. simplify_eq. by eapply Hps. }
    intros p Hp. eapply (trusts_bind sound_peer); [apply trusts_lift; intros p'; by apply sound_switch|]. intros p' Hp'. by apply trusts_put.
  - eapply trusts_bind; [apply trusts_load|]. intros ps Hps. destruct (ps !! key) as [p|] eqn:E; [|by apply trusts_ret].
    destruct (active_session_id p); [|by apply trusts_ret]. apply trusts_put; [done|]. apply Hps in E as [Hn _]. split; [done|]. by intros a.
  - eapply trusts_bind; [apply trusts_load|]. intros ps Hps. destruct (ps !! key) as [p|] eqn:E; [|by apply trusts_ret].
    cbv zeta. match goal with |- trusts _ (if ?b then _ else _) => destruct b end; [by apply trusts_ret|]. fold (scrubbed p id). apply Hps in E.
    destruct (session_ids (scrubbed p id)) eqn:El.
    + intros [i w] [Hc Hd]. split; [split; [|exact Hd]|done]. cbn. intros m [= <-] k q [_ Hq]%lookup_delete_Some. by eapply Hps.
    + apply trusts_put; [done|]. by apply sound_scrub.
  - apply trusts_save.
Qed.

(** ** Peer attribution *)

Definition parent_of (es : Entries) (c : string) : option string := es !! c ≫= (fun e => parent_session_id (place e)).
Fixpoint ancestor (es : Entries) (n : nat) (c : string) : option string :=
  match n with O => Some c | S n => parent_of es c ≫= ancestor es n end.
Definition type_at (es : Entries) (c : string) : option string := es !! c ≫= (fun e => peer_type (binding e)).
Definition id_at (es : Entries) (c : string) : option string := es !! c ≫= (fun e => peer_id (binding e)).
(** The value the nearest of a session and its ancestors has. *)
Definition nearest (at_ : Entries -> string -> option string) (es : Entries) (c v : string) : Prop :=
  exists n a, ancestor es n c = Some a /\ at_ es a = Some v /\
    forall m b, (m < n)%nat -> ancestor es m c = Some b -> at_ es b = None.

Lemma ancestor_add es n m c : ancestor es (n + m) c = ancestor es n c ≫= ancestor es m.
Proof.
  revert c. induction n as [|n IH]; intros c; [done|]. cbn [ancestor Nat.add]. destruct (parent_of es c); [|done]. apply IH.
Qed.
Lemma ancestor_S es n c : ancestor es (S n) c = ancestor es n c ≫= parent_of es.
Proof.
  replace (S n) with (n + 1)%nat by lia. rewrite ancestor_add. destruct (ancestor es n c) as [a|]; [|done]. cbn. by destruct (parent_of es a).
Qed.
Lemma ancestor_le es n m c a : ancestor es n c = Some a -> (m <= n)%nat -> is_Some (ancestor es m c).
Proof.
  intros H Hm. replace n with (m + (n - m))%nat in H by lia. rewrite ancestor_add in H. destruct (ancestor es m c); [eauto|done].
Qed.
Lemma nearest_functional at_ es c v w : nearest at_ es c v -> nearest at_ es c w -> v = w.
Proof.
  intros (n & a & Ha & Hv & Hn) (m & b & Hb & Hw & Hm). destruct (Nat.lt_trichotomy n m) as [H|[->|H]].
  - specialize (Hm n a H Ha). congruence.
  - congruence.
  - specialize (Hn m b H Hb). congruence.
Qed.
(** An ancestor met again: every further one was met before. *)
Lemma ancestor_cycle es n j c x : (j <= n)%nat -> ancestor es (S n) c = Some x -> ancestor es j c = Some x ->
  forall m a, ancestor es m c = Some a -> exists m', (m' <= n)%nat /\ ancestor es m' c = Some a.
Proof.
  intros Hj Hn Hx m. induction m as [m IH] using lt_wf_ind. intros a Ha. destruct (decide (m <= n)%nat); [eauto|].
  replace m with (S n + (m - S n))%nat in Ha by lia. rewrite ancestor_add, Hn in Ha. cbn in Ha.
  apply (IH (j + (m - S n))%nat); [lia|]. rewrite ancestor_add, Hx. exact Ha.
Qed.

Section Walk.
  Context (es : Entries) (start : string).

(** What the walk knows of a field after [n] steps. *)
Definition found_so_far (at_ : Entries -> string -> option string) (n : nat) (o : option string) : Prop :=
  match o with
  | Some v => nearest at_ es start v
  | None => forall m b, (m < n)%nat -> ancestor es m start = Some b -> at_ es b = None
  end.
Definition settled_field (at_ : Entries -> string -> option string) (o : option string) : Prop :=
  forall v, o = Some v <-> nearest at_ es start v.

Lemma found_next at_ n c o :
  ancestor es n start = Some c -> found_so_far at_ n o -> found_so_far at_ (S n) (or_else o (at_ es c)).
Proof.
  intros Hc Ho. destruct o as [v|]; [done|]. cbn [or_else]. destruct (at_ es c) as [v|] eqn:E; cbn [found_so_far] in *.
  - exists n, c. done.
  - intros m b Hm Hb. destruct (decide (m = n)) as [->|]; [congruence|]. eapply Ho; [|exact Hb]. lia.
Qed.
(** Nothing behind step [n] is new. *)
Lemma found_all at_ n o :
  (forall m b, ancestor es m start = Some b -> exists m', (m' < n)%nat /\ ancestor es m' start = Some b) ->
  found_so_far at_ n o -> settled_field at_ o.
Proof.
  intros Hall Ho v. destruct o as [w|]; cbn [found_so_far] in Ho.
  - split; [by intros [= <-]|]. intros H. f_equal. by eapply nearest_functional.
  - split; [done|]. intros (m & a & Ha & Hv & _). destruct (Hall m a Ha) as (m' & Hm & Hm'). rewrite (Ho m' a Hm Hm') in Hv. done.
Qed.
Lemma found_end at_ n o c :
  ancestor es n start = Some c -> parent_of es c = None -> found_so_far at_ (S n) o -> settled_field at_ o.
Proof.
  intros Hc Hp. apply found_all. intros m b Hb. exists m. split; [|done]. apply Nat.nle_gt. intros Hm.
  replace m with (S n + (m - S n))%nat in Hb by lia. rewrite ancestor_add, ancestor_S, Hc in Hb. cbn in Hb. by rewrite Hp in Hb.
Qed.
Lemma found_some at_ n v : found_so_far at_ n (Some v) -> settled_field at_ (Some v).
Proof. intros H w. split; [by intros [= <-]|]. intros H'. f_equal. by eapply nearest_functional. Qed.

Lemma attribution_spec fuel n visited cursor t p :
  ancestor es n start = Some cursor -> (fuel + n = size es)%nat -> size visited = S n ->
  (forall x, x ∈ visited -> exists m, (m <= n)%nat /\ ancestor es m start = Some x) ->
  found_so_far type_at n t -> found_so_far id_at n p ->
  let r := attribution fuel es visited cursor t p in settled_field type_at r.1 /\ settled_field id_at r.2.
Proof.
  cbv zeta. revert n visited cursor t p. induction fuel as [|fuel IH]; intros n visited cursor t p Hc Hf Hs Hv Ht Hp.
  - cbn [attribution fst snd]. assert (Hout : es !! cursor = None).
    { destruct (es !! cursor) as [e|] eqn:E; [|done]. exfalso. assert (Hsub : visited ⊆ dom es).
      { intros x Hx. destruct (Hv x Hx) as (m & Hm & Ha). destruct (decide (m = n)) as [->|]; [rewrite Ha in Hc; simplify_eq; by apply elem_of_dom_2 in E|].
        destruct (ancestor_le es n (S m) start cursor) as [y Hy]; [done|lia|]. rewrite ancestor_S, Ha in Hy. cbn in Hy.
        unfold parent_of in Hy. destruct (es !! x) eqn:Ex; [by apply elem_of_dom_2 in Ex|done]. }
      apply subseteq_size in Hsub. rewrite size_dom in Hsub. lia. }
    assert (Hnone : parent_of es cursor = None) by (unfold parent_of; by rewrite Hout).
    pose proof (found_next type_at n cursor t Hc Ht) as Ht'. pose proof (found_next id_at n cursor p Hc Hp) as Hp'.
    assert (Et : type_at es cursor = None) by (unfold type_at; by rewrite Hout).
    assert (Ei : id_at es cursor = None) by (unfold id_at; by rewrite Hout). rewrite Et in Ht'. rewrite Ei in Hp'.
    split; (eapply found_end; [exact Hc|exact Hnone|]); [by destruct t|by destruct p].
  - cbn [attribution]. pose proof (found_next type_at n cursor t Hc Ht) as Ht'. pose proof (found_next id_at n cursor p Hc Hp) as Hp'.
    destruct (es !! cursor) as [e|] eqn:E.
    + assert (Et : type_at es cursor = peer_type (binding e)) by (unfold type_at; by rewrite E).
      assert (Ei : id_at es cursor = peer_id (binding e)) by (unfold id_at; by rewrite E). rewrite Et in Ht'. rewrite Ei in Hp'.
      destruct (is_some _ && is_some _) eqn:Eb.
      * apply andb_prop in Eb as [E1 E2]. cbn [fst snd]. destruct (or_else t _); [|done]. destruct (or_else p _); [|done].
        split; by eapply found_some.
      * assert (Hpar : parent_of es cursor = parent_session_id (place e)) by (unfold parent_of; by rewrite E).
        destruct (parent_session_id (place e)) as [parent|] eqn:Ep; [|split; by eapply found_end].
        assert (Hnext : ancestor es (S n) start = Some parent) by (by rewrite ancestor_S, Hc; cbn).
        case_bool_decide as Hin.
        -- destruct (Hv parent Hin) as (j & Hj & Hja). split; (eapply found_all; [|eassumption]); intros m b Hb;
             destruct (ancestor_cycle es n j start parent Hj Hnext Hja m b Hb) as (m' & Hm' & ?); (exists m'; split; [lia|done]).
        -- apply (IH (S n)); [done|lia| | |done|done].
           ++ rewrite size_union by set_solver. rewrite size_singleton. lia.
           ++ intros x [->%elem_of_singleton|Hx]%elem_of_union; [by exists (S n)|]. destruct (Hv x Hx) as (m & Hm & ?). exists m. split; [lia|done].
    + cbn [fst snd]. assert (Hnone : parent_of es cursor = None) by (unfold parent_of; by rewrite E).
      assert (Et : type_at es cursor = None) by (unfold type_at; by rewrite E).
      assert (Ei : id_at es cursor = None) by (unfold id_at; by rewrite E). rewrite Et in Ht'. rewrite Ei in Hp'.
      split; (eapply found_end; [exact Hc|exact Hnone|]); [by destruct t|by destruct p].
Qed.
Lemma attribution_exact : is_Some (es !! start) ->
  let r := attribution (size es) es {[start]} start None None in settled_field type_at r.1 /\ settled_field id_at r.2.
Proof.
  intros _. apply (attribution_spec _ 0); [done|lia|apply size_singleton| | |]; [|intros m b Hm; lia..].
  intros x ->%elem_of_singleton. by exists 0%nat.
Qed.
End Walk.

(** *** Filling in place *)

Definition field_ok (at_ : Entries -> string -> option string) (es es' : Entries) (k : string) : Prop :=
  at_ es' k = at_ es k \/ (at_ es k = None /\ exists v, at_ es' k = Some v /\ nearest at_ es k v).
(** [es'] is [es] with some missing fields filled from the nearest ancestor. *)
Definition filled (es es' : Entries) : Prop := forall k,
  (es' !! k = es !! k \/ exists e b, es !! k = Some e /\ es' !! k = Some (set_binding e b) /\ channel_id b = channel_id (binding e)) /\
  field_ok type_at es es' k /\ field_ok id_at es es' k.

Lemma filled_parent es es' k : filled es es' -> parent_of es' k = parent_of es k.
Proof. intros H. unfold parent_of. destruct (H k) as [[->|(e & b & -> & -> & _)] _]; done. Qed.
Lemma filled_ancestor es es' n c : filled es es' -> ancestor es' n c = ancestor es n c.
Proof.
  intros H. revert c. induction n as [|n IH]; intros c; [done|]. cbn [ancestor]. rewrite (filled_parent es es') by done.
  destruct (parent_of es c); [|done]. apply IH.
Qed.
Lemma nearest_shift at_ es c n a v : ancestor es n c = Some a ->
  (forall m b, (m < n)%nat -> ancestor es m c = Some b -> at_ es b = None) -> nearest at_ es a v -> nearest at_ es c v.
Proof.
  intros Ha Hn (k & x & Hx & Hv & Hk). exists (n + k)%nat, x. split_and!; [by rewrite ancestor_add, Ha|done|].
  intros m b Hm Hb. destruct (decide (m < n)%nat) as [|Hge]; [by eapply Hn|]. apply (Hk (m - n)%nat); [lia|].
  replace m with (n + (m - n))%nat in Hb by lia. by rewrite ancestor_add, Ha in Hb.
Qed.
Lemma nearest_unshift at_ es c n a v : ancestor es n c = Some a ->
  (forall m b, (m < n)%nat -> ancestor es m c = Some b -> at_ es b = None) -> nearest at_ es c v -> nearest at_ es a v.
Proof.
  intros Ha Hn (k & x & Hx & Hv & Hk). destruct (decide (k < n)%nat) as [Hlt|Hge]; [by rewrite (Hn k x) in Hv|].
  exists (k - n)%nat, x. split_and!; [|done|].
  - replace k with (n + (k - n))%nat in Hx by lia. by rewrite ancestor_add, Ha in Hx.
  - intros m b Hm Hb. apply (Hk (n + m)%nat); [lia|]. by rewrite ancestor_add, Ha.
Qed.

Lemma nearest_filled at_ es es' c v : filled es es' -> (forall k, field_ok at_ es es' k) -> nearest at_ es' c v <-> nearest at_ es c v.
Proof.
  intros Hf Hok. assert (Hno : forall k, at_ es' k = None -> at_ es k = None) by (intros k Hk; destruct (Hok k) as [E|[E _]]; congruence).
  assert (Hfwd : forall w, nearest at_ es' c w -> nearest at_ es c w).
  { intros w (n & a & Ha & Hw & Hn). rewrite (filled_ancestor es) in Ha by done.
    assert (Hb : forall m b, (m < n)%nat -> ancestor es m c = Some b -> at_ es b = None)
      by (intros m b Hm Hb; eapply Hno, Hn; [exact Hm|by rewrite (filled_ancestor es)]).
    destruct (Hok a) as [E|(_ & x & Hx & Hnear)]; [exists n, a; by rewrite <- E|]. assert (x = w) as -> by congruence.
    by eapply nearest_shift. }
  split; [apply Hfwd|]. intros Hv. pose proof Hv as (n & a & Ha & Hva & _).
  assert (Hsome : exists m b w, (m <= n)%nat /\ ancestor es m c = Some b /\ at_ es' b = Some w).
  { exists n, a. destruct (Hok a) as [E|[E _]]; [|congruence]. exists v. rewrite E. split_and!; [lia|done..]. }
  destruct Hsome as (m0 & b0 & w0 & _ & Hb0 & Hw0).
  assert (Hleast : exists w, nearest at_ es' c w).
  { clear -Hf Hb0 Hw0. revert b0 w0 Hb0 Hw0. induction m0 as [m IH] using lt_wf_ind. intros b w Hb Hw.
    destruct (decide (Forall (fun k => ancestor es k c ≫= at_ es' = None) (seq 0 m))) as [Hall|Hsome].
    - exists w, m, b. rewrite (filled_ancestor es) by done. split_and!; [done..|]. intros k x Hk Hx. rewrite (filled_ancestor es) in Hx by done.
      rewrite Forall_forall in Hall. specialize (Hall k). rewrite Hx in Hall. apply Hall. apply elem_of_seq. lia.
    - apply not_Forall_Exists in Hsome; [|apply _]. apply Exists_exists in Hsome as (k & Hk & Hx). apply elem_of_seq in Hk.
      cbn in Hx. destruct (ancestor es k c) as [x|] eqn:Ek; [|by destruct Hx]. cbn in Hx. destruct (at_ es' x) as [y|] eqn:Ey; [|by destruct Hx].
      apply (IH k ltac:(lia) x y); done. }
  destruct Hleast as [w Hw]. by rewrite (nearest_functional _ _ _ v w Hv (Hfwd w Hw)).
Qed.

(** A session is complete when its missing fields are the nearest ones. *)
Definition complete (es : Entries) (k : string) (e' : SessionEntry) : Prop :=
  forall v, (peer_type (binding e') = Some v <-> nearest type_at es k v) /\ (peer_id (binding e') = Some v <-> nearest id_at es k v).

Lemma nearest_own at_ es k v : at_ es k = Some v -> forall w, at_ es k = Some w <-> nearest at_ es k w.
Proof.
  intros Hv w. split; [intros Hw; exists 0%nat, k; split_and!; [done..|intros; lia]|]. intros Hw.
  rewrite Hv. f_equal. eapply nearest_functional; [|exact Hw]. exists 0%nat, k. split_and!; [done..|intros; lia].
Qed.
Lemma settled_or_else at_ es k own found :
  at_ es k = own -> settled_field es k at_ found -> forall v, or_else own found = Some v <-> nearest at_ es k v.
Proof. intros Ho Hs v. destruct own as [o|]; cbn [or_else]; [rewrite <- Ho; by eapply nearest_own|apply Hs]. Qed.

Lemma filled_field at_ es k o : (forall v, o = Some v <-> nearest at_ es k v) ->
  o = at_ es k \/ (at_ es k = None /\ exists v, o = Some v /\ nearest at_ es k v).
Proof.
  intros H. destruct (at_ es k) as [w|] eqn:E.
  - left. apply H. by eapply nearest_own.
  - destruct o as [v|]; [right|by left]. split; [done|]. exists v. split; [done|]. by apply H.
Qed.

Lemma backfill_one_filled es cur b id :
  filled es cur -> filled es (backfill_one (b, cur) id).2 /\
  (forall k, k <> id -> (backfill_one (b, cur) id).2 !! k = cur !! k) /\
  (forall e', (backfill_one (b, cur) id).2 !! id = Some e' -> channel_id (binding e') = None -> complete es id e').
Proof.
  intros Hf. unfold backfill_one. assert (Hnear : forall at_, (forall k, field_ok at_ es cur k) -> forall v, nearest at_ cur id v <-> nearest at_ es id v)
    by (intros at_ Hok v; by apply nearest_filled).
  assert (Hty : forall k, field_ok type_at es cur k) by (intros k; apply Hf). assert (Hid : forall k, field_ok id_at es cur k) by (intros k; apply Hf).
  destruct (cur !! id) as [e|] eqn:E; [|split_and!; [done..|]; intros e' He'; cbn in He'; congruence].
  assert (Et : type_at cur id = peer_type (binding e)) by (unfold type_at; by rewrite E).
  assert (Ei : id_at cur id = peer_id (binding e)) by (unfold id_at; by rewrite E).
  destruct (attributed e) eqn:Ea.
  - split_and!; [done..|]. cbn [snd]. intros e' He' Hch. rewrite E in He'. simplify_eq. unfold attributed in Ea. rewrite Hch in Ea. cbn in Ea.
    apply andb_prop in Ea as [E1 E2]. destruct (peer_type (binding e')) as [t|] eqn:Pt; [|done]. destruct (peer_id (binding e')) as [p|] eqn:Pi; [|done].
    intros v. rewrite Pt, Pi, <- !Hnear by done. rewrite <- Et, <- Ei. split; by eapply nearest_own.
  - pose proof (attribution_exact cur id ltac:(eauto)) as [Hst Hsi]. destruct (attribution _ _ _ _ _ _) as [t p]. cbn [fst snd] in *.
    pose proof (settled_or_else type_at cur id _ t Et Hst) as Ht. pose proof (settled_or_else id_at cur id _ p Ei Hsi) as Hp.
    setoid_rewrite (Hnear type_at Hty) in Ht. setoid_rewrite (Hnear id_at Hid) in Hp.
    split_and!.
    + intros k. destruct (decide (id = k)) as [<-|Hn].
      * split; [right|].
        -- destruct (Hf id) as [[Eq|(e0 & b0 & E0 & E1 & Hc)] _].
           ++ rewrite E in Eq. eexists e, _. split_and!; [done|by rewrite lookup_insert_eq|done].
           ++ rewrite E in E1. simplify_eq. eexists e0, _. split_and!; [done|by rewrite lookup_insert_eq|cbn; done].
        -- assert (Ect : type_at (<[id := with_attribution e t p]> cur) id = or_else (peer_type (binding e)) t) by (unfold type_at; by rewrite lookup_insert_eq).
           assert (Eci : id_at (<[id := with_attribution e t p]> cur) id = or_else (peer_id (binding e)) p) by (unfold id_at; by rewrite lookup_insert_eq).
           unfold field_ok. rewrite Ect, Eci. split; by apply filled_field.
      * destruct (Hf k) as (H1 & H2 & H3). assert (Ect : type_at (<[id := with_attribution e t p]> cur) k = type_at cur k) by (unfold type_at; by rewrite lookup_insert_ne).
        assert (Eci : id_at (<[id := with_attribution e t p]> cur) k = id_at cur k) by (unfold id_at; by rewrite lookup_insert_ne).
        unfold field_ok. rewrite Ect, Eci, lookup_insert_ne by done. done.
    + intros k Hn. cbn [snd]. by rewrite lookup_insert_ne by done.
    + intros e' He' _. rewrite lookup_insert_eq in He'. injection He' as <-. intros v. split; [apply Ht|apply Hp].
Qed.
Lemma filled_refl es : filled es es.
Proof. intros k. split; [by left|]. split; by left. Qed.
Lemma backfill_over_filled es ids cur b (seen : gset string) :
  filled es cur -> (forall k e', k ∈ seen -> cur !! k = Some e' -> channel_id (binding e') = None -> complete es k e') ->
  let r := (fold_left backfill_one ids (b, cur)).2 in
  filled es r /\ forall k e', k ∈ seen ∪ list_to_set ids -> r !! k = Some e' -> channel_id (binding e') = None -> complete es k e'.
Proof.
  cbv zeta. revert cur b seen. induction ids as [|id ids IH]; intros cur b seen Hf Hs; cbn [fold_left list_to_set].
  - split; [done|]. intros k e' Hk. apply Hs. set_solver.
  - destruct (backfill_one_filled es cur b id Hf) as (Hf' & Ho & Hc). destruct (backfill_one (b, cur) id) as [b' cur']. cbn [snd] in *.
    destruct (IH cur' b' ({[id]} ∪ seen) Hf') as [Hr Hd].
    + intros k e' Hk He Hch. destruct (decide (k = id)) as [->|Hn]; [by apply Hc|]. rewrite Ho in He by done. eapply Hs; [set_solver|done..].
    + split; [done|]. intros k e' Hk. apply Hd. set_solver.
Qed.

(** Backfilling in place gives every session that is not bound to a channel
    the peer type and the peer id of the nearest of itself and its ancestors
    that has one, as the entries were before the pass and in whatever order
    the map lists them; nothing else of an entry changes, and cycles of parents
    do no harm. *)
Theorem backfill_exact es ids k e :
  (forall k, is_Some (es !! k) -> k ∈ ids) -> es !! k = Some e ->
  exists b, (backfill_over ids es).2 !! k = Some (set_binding e b) /\ channel_id b = channel_id (binding e) /\
    (channel_id b = None -> forall v, (peer_type b = Some v <-> nearest type_at es k v) /\ (peer_id b = Some v <-> nearest id_at es k v)).
Proof.
  intros Hids He. destruct (backfill_over_filled es ids es false ∅ (filled_refl es)) as [Hf Hc]; [set_solver|].
  fold (backfill_over ids es) in Hf, Hc. assert (Hin : k ∈ ∅ ∪ (list_to_set ids : gset string)) by (rewrite elem_of_union, elem_of_list_to_set; right; eauto).
  assert (Hsame : set_binding e (binding e) = e) by (by destruct e).
  destruct (Hf k) as [[Eq|(e0 & b & E0 & Eb & Hch)] _].
  - exists (binding e). rewrite Eq, He, Hsame. split_and!; [done..|]. intros Hn. rewrite He in Eq. exact (Hc k e Hin Eq Hn).
  - rewrite He in E0. injection E0 as <-. exists b. split_and!; [done..|]. intros Hn. exact (Hc k _ Hin Eb Hn).
Qed.

(** ** Examples *)

Module IndexExample.
Import SessionCodec.

Definition ROOT : string := "00000000-0000-4000-8000-000000000001".
Definition CHILD : string := "00000000-0000-4000-8000-000000000002".
Definition root : SessionEntry := with_peer 1 ROOT "helper" (ROOT +:+ ".jsonl") "user" "alice".
Definition child : SessionEntry := with_parent 2 CHILD "helper" (CHILD +:+ ".jsonl") ROOT.
Definition two : gmap string SessionEntry := {[ROOT := root; CHILD := child]}.
Definition shop : World := {| disk := {| sessions_json := Readable two; peers_json := Readable ∅ |}; files := ∅ |}.
Definition same_id (s : string) : string := s.

Lemma two_keyed : keyed two.
Proof. intros k e He. unfold two in He. apply lookup_insert_Some in He as [[<- <-]|[_ [<- <-]%lookup_singleton_Some]]; done. Qed.
Lemma shop_sound : sound_disk shop.
Proof. split; [exists two; split; [done|apply two_keyed]|by exists ∅]. Qed.
Lemma open_settled : settled index_open.
Proof. by split_and!. Qed.
(** Two controllers: the first renames the child, the second counts a message
    of the root. *)
Definition day : list Step :=
  [{| by_controller := 0; at_time := 10; on_session := CHILD; does := OpTitle (Some "notes") |};
   {| by_controller := 1; at_time := 20; on_session := ROOT; does := OpCounts 1 5 3 2 true |}].
End IndexExample.

#[local] Existing Instances SessionCodec.json SessionCodec.json_laws.

Lemma controllers_spare_others_witness :
  let '(_, w') := fold_left (run_step IndexExample.same_id) (take 1 IndexExample.day) ([index_open; index_open], IndexExample.shop) in
  stored w' !! IndexExample.ROOT = Some IndexExample.root.
Proof.
  pose proof (controllers_spare_others IndexExample.same_id [index_open; index_open] IndexExample.shop (take 1 IndexExample.day) IndexExample.ROOT) as H.
  destruct (fold_left _ _ _) as [cs' w']. destruct H as (_ & _ & H).
  - repeat constructor; apply IndexExample.open_settled.
  - apply IndexExample.shop_sound.
  - repeat constructor. discriminate.
  - rewrite H. reflexivity.
Defined.
Lemma peers_stay_sound_witness :
  believed (snd (peer_op 5 "agent:helper:peer:user:alice" (PEnsure IndexExample.ROOT) (index_open, IndexExample.shop))).
Proof.
  apply (peers_stay_sound 5 "agent:helper:peer:user:alice" (PEnsure IndexExample.ROOT) (index_open, IndexExample.shop)).
  split; [intros m H; discriminate|]. intros m [= <-] k p Hk. by rewrite lookup_empty in Hk.
Defined.
Lemma backfill_exact_witness :
  exists b, (backfill_over [IndexExample.CHILD; IndexExample.ROOT] IndexExample.two).2 !! IndexExample.CHILD
            = Some (set_binding IndexExample.child b) /\ channel_id b = None.
Proof.
  destruct (backfill_exact IndexExample.two [IndexExample.CHILD; IndexExample.ROOT] IndexExample.CHILD IndexExample.child) as (b & H & Hc & _).
  - intros k [e He]. unfold IndexExample.two in He. apply lookup_insert_Some in He as [[<- _]|[_ [<- _]%lookup_singleton_Some]]; set_solver.
  - reflexivity.
  - exists b. split; [exact H|exact Hc].
Defined.

(** A controller that read an entry before another wrote it writes the old
    fields back with its own: the new title is lost. *)
Theorem stale_write_reverts :
  let '(_, (i2, _)) := get_entry IndexExample.same_id 0 IndexExample.CHILD false (index_open, IndexExample.shop) in
  let run := fold_left (run_step IndexExample.same_id) in
  let '(_, w1) := run [{| by_controller := 0; at_time := 10; on_session := IndexExample.CHILD; does := OpTitle (Some "notes") |}]
                      ([index_open; i2], IndexExample.shop) in
  let '(_, w2) := run [{| by_controller := 0; at_time := 10; on_session := IndexExample.CHILD; does := OpTitle (Some "notes") |};
                       {| by_controller := 1; at_time := 20; on_session := IndexExample.CHILD; does := OpCounts 1 5 3 2 true |}]
                      ([index_open; i2], IndexExample.shop) in
  (entry_title <$> stored w1 !! IndexExample.CHILD) = Some (Some "notes") /\
  (entry_title <$> stored w2 !! IndexExample.CHILD) = Some None.
Proof. vm_compute. done. Qed.

(** A change an instance has not saved is dropped by a read after the cache
    expired, and the save that follows writes nothing. *)
Theorem unsaved_change_dropped :
  let '(_, (_, w)) := (_ ← index_insert 0 (set_title 0 (Some "notes") IndexExample.child);
                       _ ← index_get 40000 IndexExample.ROOT; save 40001) (index_open, IndexExample.shop) in
  (entry_title <$> stored w !! IndexExample.CHILD) = Some None.
Proof. vm_compute. done. Qed.

(** Attribution filled in on load marks the index modified, yet saving writes
    no entry that was not changed otherwise: the file stays as it was. *)
Theorem backfill_not_saved :
  let '(r, (i, w)) := (e ← index_get 0 IndexExample.CHILD; _ ← save 1; mret e) (index_open, IndexExample.shop) in
  (match r with Ok (Some e) => peer_id (binding e) | _ => None end) = Some "alice" /\
  (peer_id ∘ binding <$> stored w !! IndexExample.CHILD) = Some None.
Proof. vm_compute. done. Qed.
