(* ===== verification/SessionPaths.v ===== *)
(** * SessionPaths: addresses in the tree of sessions

    Sessions form trees by their parents; a slug names a session among its
    siblings, so that a session has a path from the root of its tree
    (peko-rs/session/src/path.rs).  Who the caller is and what lies below a
    session is read off the same entries
    (peko-rs/core/src/session/ownership.rs).  The stored parents may form
    cycles or name sessions that are gone; every walk carries the set of ids it
    has met.  A walk is a function with fuel whose [None] is the walk still
    running; one turn more than there are sessions is enough.
    [SessionId::from] and [Uuid::parse_str] are parameters. *)

From Stdlib Require Import ZArith Lia Ascii.
From stdpp Require Import base tactics list gmap strings.
From S2P Require Import Prelude Text Usage Subject ActingFor SessionLog SessionIndex.

Local Open Scope nat_scope.
Open Scope rust_scope.

(** ** Slugs *)

Definition MAX_SLUG_LEN : nat := 64.
Definition SCHEME_PREFIX : string := "sess:".

Definition strip_scheme_prefix (path : string) : string :=
  match strip_prefix SCHEME_PREFIX path with
  | Some rest => if starts_with "/" rest then rest else path
  | None => path
  end.

Definition slug_problem (slug : string) : option string :=
  if String.eqb slug "" then Some "it is empty"
  else if str_has "/" slug then Some "it contains '/' — a slug is a single path segment"
  else if str_has ":" slug then Some "it contains ':' — ':' is reserved for raw session ids; use a different slug"
  else if negb (String.eqb (trim slug) slug) then Some "it has leading or trailing whitespace"
  else if Nat.ltb MAX_SLUG_LEN (length (chars slug)) then Some "it is longer than 64 chars"
  else None.
Definition validate_slug (slug : string) : result unit string :=
  match slug_problem slug with
  | Some reason => Err ("invalid slug '" +:+ slug +:+ "': " +:+ reason +:+
      " — slugs are 1-64 chars, contain no '/', and have no leading or trailing whitespace")
  | None => Ok tt
  end.

Definition SLASH : ascii := "/"%char.
Definition split_slash : string -> list string := split_any (Ascii.eqb SLASH).

(** The segments of [path], numbered from [i]. *)
Fixpoint validate_segments (path : string) (i : nat) (segments : list string) : result unit string :=
  match segments with
  | [] => Ok tt
  | segment :: rest =>
      if String.eqb segment ""
      then Err ("path '" +:+ path +:+ "' has an empty segment at position " +:+ dec (Z.of_nat i))
      else match validate_slug segment with
           | Err e => Err ("path '" +:+ path +:+ "' segment '" +:+ segment +:+ "': " +:+ e)
           | Ok _ => validate_segments path (S i) rest
           end
  end.
Definition validate_path (path : string) : result unit string :=
  let path := strip_scheme_prefix path in
  if String.eqb path "" then Err "path is empty — pass a slug path ('sess:/a/b/c')"
  else
    let trimmed := default path (strip_prefix "/" path) in
    if String.eqb trimmed "" then Err "path is just '/' — supply at least one segment"
    else validate_segments path 0 (split_slash trimmed).

(** ** The entries *)

Abbreviation SessionId := string.
Definition parent (m : SessionEntry) : option SessionId := parent_session_id (place m).
Definition slug_of (m : SessionEntry) : option string := slug (place m).
Definition find_meta (metas : list SessionEntry) (id : SessionId) : option SessionEntry :=
  List.find (fun m => String.eqb (session_id m) id) metas.
Definition is_child (p : SessionId) (m : SessionEntry) : bool := bool_decide (parent m = Some p).

Definition slug_conflict (metas : list SessionEntry) (under : option SessionId) (slug : string) (exclude : SessionId)
    : option SessionId :=
  session_id <$> List.find (fun m => negb (String.eqb (session_id m) exclude) && bool_decide (parent m = under)
                                     && bool_decide (slug_of m = Some slug)) metas.
Definition err_slug_conflict (slug : string) (conflicting : SessionId) (under : option SessionId) : string :=
  "slug '" +:+ slug +:+ "' is already used by sibling session '" +:+ conflicting +:+ "' under parent '" +:+
  default "<tree root>" under +:+ "' — slugs are unique per parent; pick a different slug".

(** ** Resolving *)

Fixpoint root_walk (fuel : nat) (metas : list SessionEntry) (seen : gset SessionId) (current : SessionEntry)
    : option SessionId :=
  match parent current with
  | None => Some (session_id current)
  | Some p =>
      if bool_decide (p ∈ seen) then Some (session_id current)
      else match find_meta metas p with
           | None => Some (session_id current)
           | Some up => match fuel with O => None | S fuel => root_walk fuel metas ({[p]} ∪ seen) up end
           end
  end.
(** [None] is the walk still running, [Some None] an unknown session. *)
Definition tree_root (metas : list SessionEntry) (from : SessionId) : option (option SessionId) :=
  match find_meta metas from with
  | None => Some None
  | Some m => Some <$> root_walk (length metas) metas {[session_id m]} m
  end.

Definition child_named (metas : list SessionEntry) (current : SessionId) (segment : string) : option SessionEntry :=
  List.find (fun m => is_child current m && bool_decide (slug_of m = Some segment)) metas.
Definition child_slugs (metas : list SessionEntry) (current : SessionId) : list string :=
  sort_by String.leb (omap slug_of (List.filter (is_child current) metas)).
Fixpoint descend (metas : list SessionEntry) (path : string) (seen : gset SessionId) (current : SessionId)
    (segments : list string) : result SessionId string :=
  match segments with
  | [] => Ok current
  | segment :: rest =>
      match child_named metas current segment with
      | Some c =>
          if bool_decide (session_id c ∈ seen)
          then Err ("cannot resolve path '" +:+ path +:+ "': the tree below '" +:+ current +:+
                    "' contains a cycle (reached '" +:+ session_id c +:+ "' twice)")
          else descend metas path ({[session_id c]} ∪ seen) (session_id c) rest
      | None =>
          Err ("cannot resolve path '" +:+ path +:+ "': no child of '" +:+ current +:+ "' has slug '" +:+ segment +:+
               "' — " +:+
               match child_slugs metas current with
               | [] => "it has no children with slugs — address children by raw session id instead"
               | available => "available child slugs: [" +:+ join_with ", " available +:+ "]"
               end)
      end
  end.
Definition segments_of (path : string) : list string :=
  List.filter (fun s => negb (String.eqb s "")) (split_slash path).
Definition resolve_path (metas : list SessionEntry) (caller : SessionId) (path : string)
    : option (result SessionId string) :=
  let path := strip_scheme_prefix path in
  if negb (starts_with "/" path)
  then Some (Err ("session path '" +:+ path +:+ "' must start with '/' — pass a raw session id to address by id"))
  else
    root ← tree_root metas caller;
    Some match root with
         | None => Err ("cannot resolve path '" +:+ path +:+ "': your current session '" +:+ caller +:+
                        "' has no entry in the session store")
         | Some root => descend metas path {[root]} root (segments_of path)
         end.

(** ** The displayed path *)

(** The segments, the last one first. *)
Fixpoint path_walk (fuel : nat) (metas : list SessionEntry) (seen : gset SessionId) (cursor : option SessionId)
    : option (list string) :=
  match cursor with
  | None => Some []
  | Some id =>
      if bool_decide (id ∈ seen) then Some []
      else match find_meta metas id with
           | None => Some []
           | Some m =>
               match fuel with
               | O => None
               | S fuel => app (option_list (slug_of m)) <$> path_walk fuel metas ({[id]} ∪ seen) (parent m)
               end
           end
  end.
Definition compute_path (metas : list SessionEntry) (id : SessionId) : option string :=
  match find_meta metas id with
  | None => Some (SCHEME_PREFIX +:+ "/" +:+ id)
  | Some m =>
      match parent m with
      | None => Some (SCHEME_PREFIX +:+ "/")
      | Some _ =>
          up ← path_walk (length metas) metas {[id]} (parent m);
          Some (SCHEME_PREFIX +:+ "/" +:+ join_with "/" (rev (default id (slug_of m) :: up)))
      end
  end.

(** ** Slugs of branches *)

Fixpoint first_free (metas : list SessionEntry) (source : SessionId) (base : string) (n : nat) (tries : nat)
    : option string :=
  match tries with
  | O => None
  | S tries =>
      let candidate := base +:+ "-" +:+ dec (Z.of_nat n) in
      match slug_conflict metas (Some source) candidate source with
      | None => Some candidate
      | Some _ => first_free metas source base (S n) tries
      end
  end.
Definition derive_branch_slug (metas : list SessionEntry) (source : SessionId) : option string :=
  m ← find_meta metas source;
  source_slug ← slug_of m;
  let prefix := concat_text (take (MAX_SLUG_LEN - 10) (chars source_slug)) in
  let base := prefix +:+ "-branch" in
  match slug_conflict metas (Some source) base source with
  | None => Some base
  | Some _ => first_free metas source base 2 98
  end.

(** ** References *)

Definition resolve_reference (parse_uuid : string -> option SessionId) (metas : list SessionEntry) (caller : SessionId)
    (reference : string) : option (result SessionId string) :=
  if String.eqb reference "" then Some (Err "session reference is empty — pass a slug path ('sess:/a/b/c')")
  else if String.eqb reference caller then Some (Ok caller)
  else if starts_with "/" (strip_scheme_prefix reference) then resolve_path metas caller reference
  else match parse_uuid reference with
       | Some id => Some (Ok id)
       | None => Some (Err ("session reference '" +:+ reference +:+ "' is not a slug path — pass an absolute path" +:+
           " ('sess:/a/b/c') or your own session id; raw ids and caller-relative slugs are not" +:+
           " accepted (use the `path` field from `session list` output)"))
       end.

(** ** The caller and what lies below a session *)

Record CallerContext := {
  current_session_id : SessionId;
  is_base : bool;
  dangling : bool;
  ancestors : list SessionId;
}.

(** The ids up from [cursor], nearest first; an id without an entry is the last. *)
Fixpoint ancestors_walk (fuel : nat) (metas : list SessionEntry) (seen : gset SessionId) (cursor : option SessionId)
    : option (list SessionId) :=
  match cursor with
  | None => Some []
  | Some id =>
      if bool_decide (id ∈ seen) then Some []
      else match fuel with
           | O => None
           | S fuel => cons id <$> ancestors_walk fuel metas ({[id]} ∪ seen) (find_meta metas id ≫= parent)
           end
  end.
(** [current] is canonical already. *)
Definition caller_context (current : SessionId) (metas : list SessionEntry) : option CallerContext :=
  let current_meta := find_meta metas current in
  let first_parent := current_meta ≫= parent in
  up ← ancestors_walk (S (length metas)) metas ∅ first_parent;
  Some {| current_session_id := current;
          is_base := negb (is_some first_parent) && is_some current_meta;
          dangling := negb (is_some current_meta);
          ancestors := up |}.

Fixpoint depth_walk (fuel : nat) (metas : list SessionEntry) (seen : gset SessionId) (cursor : option SessionId)
    : option nat :=
  match cursor with
  | None => Some 0
  | Some id =>
      if bool_decide (id ∈ seen) then Some 0
      else match find_meta metas id with
           | None => Some 0
           | Some m =>
               match fuel with
               | O => None
               | S fuel => Nat.add (if String.eqb (trigger m) "spawn" then 1 else 0)
                           <$> depth_walk fuel metas ({[id]} ∪ seen) (parent m)
               end
           end
  end.
Definition subagent_depth_of (target : SessionId) (metas : list SessionEntry) : option nat :=
  depth_walk (length metas) metas ∅ (Some target).

(** The loop over a stack of ids: an id met before is dropped, a new one is
    listed and what [push] gives for it goes on the stack, the last on top.
    The head of the list is the top of the stack. *)
Fixpoint traverse (push : gset SessionId -> SessionId -> list SessionId) (fuel : nat) (seen : gset SessionId)
    (stack out : list SessionId) : option (list SessionId) :=
  match stack with
  | [] => Some out
  | id :: stack =>
      match fuel with
      | O => None
      | S fuel =>
          if bool_decide (id ∈ seen) then traverse push fuel seen stack out
          else let seen := {[id]} ∪ seen in
               traverse push fuel seen (rev (push seen id) ++ stack) (out ++ [id])
      end
  end.
Definition kids (metas : list SessionEntry) (p : SessionId) : list SessionId :=
  map session_id (List.filter (is_child p) metas).
Definition descendants_of (target : SessionId) (metas : list SessionEntry) : option (list SessionId) :=
  traverse (fun seen id => List.filter (fun k => negb (bool_decide (k ∈ seen))) (kids metas id))
    (length metas) {[target]} (rev (kids metas target)) [].
(** The order in which [delete_session] removes a session and what is below. *)
Definition post_order (target : SessionId) (metas : list SessionEntry) : option (list SessionId) :=
  (@rev SessionId) <$> traverse (fun _ => kids metas) (S (length metas)) ∅ [target] [].

(** ** Walking up *)

Lemma found_meta metas id m : find_meta metas id = Some m -> m ∈ metas /\ session_id m = id.
Proof. intros [Hin Heq%String.eqb_eq]%find_some. by rewrite list_elem_of_In. Qed.
Lemma find_meta_None metas id : find_meta metas id = None <-> id ∉ map session_id metas.
Proof.
  split.
  - intros Hf (m & -> & Hm)%list_elem_of_fmap. apply list_elem_of_In in Hm.
    pose proof (find_none _ _ Hf _ Hm) as H. cbn beta in H. by rewrite String.eqb_refl in H.
  - intros Hn. destruct (find_meta metas id) as [m|] eqn:E; [|done]. apply found_meta in E as [Hm <-].
    destruct Hn. by apply list_elem_of_fmap_2.
Qed.
Definition ids_unique (metas : list SessionEntry) : Prop := NoDup (map session_id metas).
Lemma find_meta_unique metas m : ids_unique metas -> m ∈ metas -> find_meta metas (session_id m) = Some m.
Proof.
  unfold ids_unique, find_meta. induction metas as [|m' metas IH]; intros Hn Hm; [by apply elem_of_nil in Hm|].
  inversion_clear Hn as [|?? Hni Hn']. cbn [List.find]. destruct (String.eqb_spec (session_id m') (session_id m)) as [E|E].
  - apply elem_of_cons in Hm as [->|Hm]; [done|]. destruct Hni. rewrite E. by apply list_elem_of_fmap_2.
  - apply elem_of_cons in Hm as [->|Hm]; [done|]. by apply IH.
Qed.

(** Ids of the sessions a walk can still meet. *)
Definition unseen (metas : list SessionEntry) (seen : gset SessionId) : nat :=
  size (list_to_set (map session_id metas) ∖ seen).
Lemma unmet_step metas seen id m : find_meta metas id = Some m -> id ∉ seen -> unseen metas ({[id]} ∪ seen) < unseen metas seen.
Proof.
  intros [Hin <-]%found_meta Hns. unfold unseen. apply subset_size.
  assert (session_id m ∈ (list_to_set (map session_id metas) : gset SessionId)); [|set_solver].
  apply elem_of_list_to_set. by apply list_elem_of_fmap_2.
Qed.
Lemma size_list_to_set_le (l : list SessionId) : size (list_to_set l : gset SessionId) <= length l.
Proof.
  induction l as [|x l IH]; cbn [list_to_set length]; [by rewrite size_empty|]. rewrite size_union_alt, size_singleton.
  assert (size ((list_to_set l : gset SessionId) ∖ {[x]}) <= size (list_to_set l : gset SessionId)) by (apply subseteq_size; set_solver). lia.
Qed.
Lemma unseen_length metas seen : unseen metas seen <= length metas.
Proof.
  unfold unseen. transitivity (size (list_to_set (map session_id metas) : gset SessionId)); [apply subseteq_size; set_solver|].
  rewrite <- (length_map session_id metas). apply size_list_to_set_le.
Qed.

(** Every walk ends. *)
Lemma root_walk_total fuel metas seen m : unseen metas seen <= fuel -> is_Some (root_walk fuel metas seen m).
Proof.
  revert seen m. induction fuel as [|fuel IH]; intros seen m Hf; cbn [root_walk]; (destruct (parent m) as [p|]; [|done]);
    (case_bool_decide as Hp; [done|]); (destruct (find_meta metas p) as [m'|] eqn:E; [|done]);
    pose proof (unmet_step metas seen p m' E Hp); [lia|apply IH; lia].
Qed.
Lemma path_walk_total fuel metas seen cur : unseen metas seen <= fuel -> is_Some (path_walk fuel metas seen cur).
Proof.
  revert seen cur. induction fuel as [|fuel IH]; intros seen [id|] Hf; cbn [path_walk]; try done;
    (case_bool_decide as Hp; [done|]); (destruct (find_meta metas id) as [m'|] eqn:E; [|done]);
    pose proof (unmet_step metas seen id m' E Hp); [lia|apply fmap_is_Some, IH; lia].
Qed.
Lemma depth_walk_total fuel metas seen cur : unseen metas seen <= fuel -> is_Some (depth_walk fuel metas seen cur).
Proof.
  revert seen cur. induction fuel as [|fuel IH]; intros seen [id|] Hf; cbn [depth_walk]; try done;
    (case_bool_decide as Hp; [done|]); (destruct (find_meta metas id) as [m'|] eqn:E; [|done]);
    pose proof (unmet_step metas seen id m' E Hp); [lia|apply fmap_is_Some, IH; lia].
Qed.
Lemma ancestors_walk_total fuel metas seen cur : unseen metas seen < fuel -> is_Some (ancestors_walk fuel metas seen cur).
Proof.
  revert seen cur. induction fuel as [|fuel IH]; intros seen [id|] Hf; cbn [ancestors_walk]; try done; try lia.
  case_bool_decide as Hp; [done|]. apply fmap_is_Some. destruct (find_meta metas id) as [m'|] eqn:E; cbn [mbind option_bind].
  - pose proof (unmet_step metas seen id m' E Hp). apply IH. lia.
  - destruct fuel; done.
Qed.

(** ** Trees *)

(** [p] is the parent of [c]. *)
Definition up (metas : list SessionEntry) (c p : SessionId) : Prop := exists m, find_meta metas c = Some m /\ parent m = Some p.
(** A session whose parent is none, or gone. *)
Definition is_root (metas : list SessionEntry) (r : SessionId) : Prop :=
  exists m, find_meta metas r = Some m /\ forall p, parent m = Some p -> find_meta metas p = None.
(** The chain of parents from [id] ends at the root [r]. *)
Inductive top (metas : list SessionEntry) (r : SessionId) : SessionId -> Prop :=
  | top_here : is_root metas r -> top metas r r
  | top_up id p : up metas id p -> top metas r p -> top metas r id.
(** The slugs from [r] down to a session. *)
Inductive descends (metas : list SessionEntry) (r : SessionId) : list string -> SessionId -> Prop :=
  | descends_here : descends metas r [] r
  | descends_step segs p m g :
      descends metas r segs p -> m ∈ metas -> parent m = Some p -> slug_of m = Some g ->
      descends metas r (segs ++ [g]) (session_id m).
Definition slugs_unique (metas : list SessionEntry) : Prop :=
  forall m m' g, m ∈ metas -> m' ∈ metas -> parent m = parent m' -> slug_of m = Some g -> slug_of m' = Some g -> session_id m = session_id m'.

Lemma up_fun metas c p p' : up metas c p -> up metas c p' -> p = p'.
Proof. intros (m & Hm & Hp) (m' & Hm' & Hp'). congruence. Qed.
Lemma root_no_up metas r p : is_root metas r -> up metas r p -> find_meta metas p = None.
Proof. intros (m & Hm & Hr) (m' & Hm' & Hp). apply Hr. congruence. Qed.

Section Tree.
  Context (metas : list SessionEntry).
  Context (Hids : ids_unique metas).

(** Heights above a root tell sessions on a chain apart. *)
Inductive height (r : SessionId) : nat -> SessionId -> Prop :=
  | height_here : is_root metas r -> height r 0 r
  | height_up n id p : up metas id p -> height r n p -> height r (S n) id.
Lemma top_height r id : top metas r id -> exists n, height r n id.
Proof. induction 1 as [|id p Hu Ht (n & IH)]; [by exists 0; constructor|]. exists (S n). by econstructor. Qed.
Lemma height_known r n id : height r n id -> is_Some (find_meta metas id).
Proof. destruct 1 as [(m & Hm & _)|n id p (m & Hm & _) _]; by rewrite Hm. Qed.
Lemma height_fun r n n' id : height r n id -> height r n' id -> n = n'.
Proof.
  intros H. revert n'. induction H as [Hr|n id p Hu Hh IH]; intros n' H'.
  - inversion H' as [|n1 id1 p Hu Hh]; subst; [done|]. apply height_known in Hh as [m Hm]. by rewrite (root_no_up metas _ p Hr Hu) in Hm.
  - inversion H' as [Hr|n1 id1 p' Hu' Hh']; subst.
    + apply height_known in Hh as [m Hm]. by rewrite (root_no_up metas _ p Hr Hu) in Hm.
    + rewrite (up_fun metas id p p' Hu Hu') in *. f_equal. by apply IH.
Qed.

Lemma root_walk_top r fuel seen id m n :
  height r n id -> find_meta metas id = Some m -> unseen metas seen <= fuel ->
  (forall x, x ∈ seen -> exists k, n <= k /\ height r k x) ->
  root_walk fuel metas seen m = Some r.
Proof.
  intros Hh. revert fuel seen m. induction Hh as [Hr|n id p (m' & Hm' & Hp) Hh IH]; intros fuel seen m Hm Hf Hs.
  - destruct Hr as (m' & Hm' & Hr). rewrite Hm in Hm'. injection Hm' as <-. apply found_meta in Hm as [_ <-].
    destruct fuel; cbn [root_walk]; (destruct (parent m) as [p|]; [rewrite (Hr p) by done|done]); by case_bool_decide.
  - rewrite Hm in Hm'. injection Hm' as <-. destruct (height_known r n p Hh) as [m1 H1].
    assert (Hn : p ∉ seen) by (intros (k & Hk & Hhk)%Hs; pose proof (height_fun r _ _ p Hh Hhk); lia).
    pose proof (unmet_step metas seen p m1 H1 Hn). destruct fuel as [|fuel]; [lia|]. cbn [root_walk].
    rewrite Hp, bool_decide_eq_false_2, H1 by done. apply IH; [done|lia|].
    intros x [->%elem_of_singleton|(k & Hk & Hx)%Hs]%elem_of_union; [by exists n|exists k; split; [lia|done]].
Qed.
Lemma tree_root_top r id : top metas r id -> tree_root metas id = Some (Some r).
Proof.
  intros [n Hn]%top_height. pose proof (height_known r n id Hn) as [m Hm]. unfold tree_root. rewrite Hm.
  rewrite (root_walk_top r _ _ id m n); [done..|apply unseen_length|].
  apply found_meta in Hm as [_ ->]. intros x ->%elem_of_singleton. by exists n.
Qed.
Lemma top_root r id : top metas r id -> is_root metas r.
Proof. by induction 1. Qed.

(** ** Down *)

Lemma up_iff c p : up metas c p <-> exists m, m ∈ metas /\ session_id m = c /\ parent m = Some p.
Proof.
  split.
  - intros (m & [Hin Hid]%found_meta & Hp). by exists m.
  - intros (m & Hin & <- & Hp). exists m. split; [by apply find_meta_unique|done].
Qed.
Lemma descends_height r segs x : is_root metas r -> descends metas r segs x -> height r (length segs) x.
Proof.
  intros Hr. induction 1 as [|segs p m g Hd IH Hm Hp Hg]; [by constructor|].
  rewrite length_app, Nat.add_1_r. apply (height_up r _ _ p); [|done]. apply up_iff. eauto.
Qed.
Lemma descends_fun r segs segs' x : is_root metas r -> descends metas r segs x -> descends metas r segs' x -> segs = segs'.
Proof.
  intros Hr Hd Hd'. assert (Hl : length segs = length segs') by (by eapply height_fun; apply descends_height).
  revert segs' Hd' Hl. induction Hd as [|segs p m g Hd IH Hm Hp Hg]; intros segs' Hd' Hl.
  - by destruct segs'.
  - inversion Hd' as [Hx Hy|segs1 p1 m1 g1 Hd1 Hm1 Hp1 Hg1 Hx Hy]; subst; [rewrite length_app in Hl; cbn in Hl; lia|].
    assert (m1 = m) as -> by (apply (inj Some); rewrite <- (find_meta_unique metas m1), <- (find_meta_unique metas m) by done; by rewrite Hy).
    rewrite Hp in Hp1. injection Hp1 as <-. rewrite Hg in Hg1. injection Hg1 as <-. f_equal. apply IH; [done|].
    rewrite !length_app in Hl. cbn in Hl. lia.
Qed.
Lemma child_named_Some p g m : child_named metas p g = Some m -> m ∈ metas /\ parent m = Some p /\ slug_of m = Some g.
Proof.
  intros [Hin [Hp%bool_decide_eq_true Hg%bool_decide_eq_true]%andb_prop]%find_some. by rewrite list_elem_of_In.
Qed.
Lemma child_named_unique p g m : slugs_unique metas -> m ∈ metas -> parent m = Some p -> slug_of m = Some g -> child_named metas p g = Some m.
Proof.
  intros Hs Hm Hp Hg. destruct (child_named metas p g) as [m'|] eqn:E.
  - apply child_named_Some in E as (Hm' & Hp' & Hg'). rewrite <- (find_meta_unique metas m'), <- (find_meta_unique metas m) by done.
    apply (f_equal (find_meta metas)), (Hs m' m g); try done. congruence.
  - unfold child_named in E. apply list_elem_of_In in Hm. pose proof (find_none _ _ E m Hm) as H. cbn beta in H.
    unfold is_child in H. by rewrite !bool_decide_eq_true_2 in H by done.
Qed.

(** [descend] from a session below [r] finds exactly what its segments lead to. *)
Lemma descend_sound r path seen cur pre segs s :
  descends metas r pre cur -> descend metas path seen cur segs = Ok s -> descends metas r (pre ++ segs) s.
Proof.
  revert seen cur pre. induction segs as [|g segs IH]; intros seen cur pre Hd H; cbn [descend] in H.
  - injection H as <-. by rewrite app_nil_r.
  - destruct (child_named metas cur g) as [c|] eqn:E; [|done]. destruct (bool_decide _); [done|].
    apply child_named_Some in E as (Hm & Hp & Hg). rewrite (cons_middle g pre segs), app_assoc. eapply IH; [|done]. by econstructor.
Qed.
Lemma descends_target r segs x y : slugs_unique metas -> descends metas r segs x -> descends metas r segs y -> x = y.
Proof.
  intros Hs Hd. revert y. induction Hd as [|segs p m g Hd IH Hm Hp Hg]; intros y Hd'.
  - inversion Hd' as [|segs1 p1 m1 g1 Hd1 Hm1 Hp1 Hg1 Hx]; [done|]. by destruct segs1.
  - inversion Hd' as [Hx|segs1 p1 m1 g1 Hd1 Hm1 Hp1 Hg1 Hx]; [by destruct segs|].
    apply app_inj_tail in Hx as [-> ->]. apply (Hs m m1 g); try done. rewrite Hp, Hp1. f_equal. by apply IH.
Qed.
Lemma descends_split r a b s : descends metas r (a ++ b) s -> exists c, descends metas r a c.
Proof.
  remember (a ++ b) as segs eqn:E. intros H. revert b E. induction H as [|segs p m g Hd IH Hm Hp Hg]; intros b E.
  - symmetry in E. apply app_eq_nil in E as [-> ->]. exists r. constructor.
  - destruct b as [|g' b _] using rev_ind.
    + rewrite app_nil_r in E. subst a. exists (session_id m). by econstructor.
    + rewrite app_assoc in E. apply app_inj_tail in E as [E _]. by apply (IH b).
Qed.
Lemma descend_complete r path seen cur pre segs s :
  slugs_unique metas -> is_root metas r -> descends metas r pre cur -> descends metas r (pre ++ segs) s ->
  (forall x, x ∈ seen -> exists k, k <= length pre /\ height r k x) ->
  descend metas path seen cur segs = Ok s.
Proof.
  intros Hs Hr. revert seen cur pre. induction segs as [|g segs IH]; intros seen cur pre Hd Hd' Hseen; cbn [descend].
  - rewrite app_nil_r in Hd'. f_equal. by eapply descends_target.
  - rewrite (cons_middle g pre segs), app_assoc in Hd'. destruct (descends_split r (pre ++ [g]) segs s Hd') as [c Hc].
    inversion Hc as [Hx|segs1 p1 m1 g1 Hd1 Hm1 Hp1 Hg1 Hx Hy]; [by destruct pre|]. apply app_inj_tail in Hx as [-> ->].
    rewrite (descends_target r pre p1 cur Hs Hd1 Hd) in Hp1. rewrite (child_named_unique cur g m1) by done.
    assert (Hh : height r (S (length pre)) (session_id m1)).
    { replace (S (length pre)) with (length (pre ++ [g])) by (rewrite length_app; cbn; lia).
      apply descends_height; [done|]. by rewrite Hy. }
    rewrite bool_decide_eq_false_2.
    + eapply IH; [by rewrite Hy|done|]. rewrite length_app, Nat.add_1_r.
      intros x [->%elem_of_singleton|(k & Hk & Hx)%Hseen]%elem_of_union; [by eexists|exists k; split; [lia|done]].
    + intros (k & Hk & Hx)%Hseen. pose proof (height_fun r _ _ _ Hh Hx). lia.
Qed.

(** The displayed segments of a session, from the bottom. *)
Lemma path_walk_descends r segs x fuel seen :
  is_root metas r -> (forall m, find_meta metas r = Some m -> parent m = None /\ slug_of m = None) ->
  descends metas r segs x -> unseen metas seen <= fuel ->
  (forall y, y ∈ seen -> exists k, length segs < k /\ height r k y) ->
  path_walk fuel metas seen (Some x) = Some (rev segs).
Proof.
  intros Hr Hroot Hd. revert fuel seen. induction Hd as [|segs p m g Hd IH Hm Hp Hg]; intros fuel seen Hf Hs.
  - assert (Hn : r ∉ seen) by (intros (k & Hk & Hh)%Hs; pose proof (height_fun r _ _ r (height_here r Hr) Hh); cbn in Hk; lia).
    pose proof Hr as (m & Hm & _). pose proof (unmet_step metas seen r m Hm Hn). destruct (Hroot m Hm) as [Hp Hg].
    destruct fuel as [|fuel]; [lia|]. cbn [path_walk]. rewrite bool_decide_eq_false_2, Hm, Hp, Hg by done. by destruct fuel.
  - pose proof (find_meta_unique metas m Hids Hm) as Hfm.
    assert (Hh : height r (S (length segs)) (session_id m)) by (apply (height_up r _ _ p); [apply up_iff; eauto|by apply descends_height]).
    rewrite length_app, Nat.add_1_r in Hs.
    assert (Hn : session_id m ∉ seen) by (intros (k & Hk & Hx)%Hs; pose proof (height_fun r _ _ _ Hh Hx); lia).
    pose proof (unmet_step metas seen _ m Hfm Hn). destruct fuel as [|fuel]; [lia|]. cbn [path_walk].
    rewrite bool_decide_eq_false_2, Hfm, Hp, Hg by done. rewrite IH; [by rewrite rev_app_distr|lia|].
    intros y [->%elem_of_singleton|(k & Hk & Hx)%Hs]%elem_of_union; [exists (S (length segs)); split; [lia|done]|exists k; split; [lia|done]].
Qed.
End Tree.

(** ** Segments *)

Lemma lacks_all c s : str_has c s = false -> all_bytes (fun a => negb (Ascii.eqb c a)) s = true.
Proof.
  induction s as [|a s IH]; cbn; [done|]. case_decide as Ha; [done|]. intros Hs. rewrite IH by done.
  destruct (Ascii.eqb_spec c a); [by subst|done].
Qed.
Lemma valid_slug g : validate_slug g = Ok tt -> g <> "" /\ str_has SLASH g = false /\ str_has ":" g = false.
Proof.
  unfold validate_slug, slug_problem, SLASH. destruct (String.eqb_spec g "") as [|Hn]; [done|].
  destruct (str_has "/" g); [done|]. destruct (str_has ":" g); [done|]. done.
Qed.
Definition valid_slugs : list string -> Prop := Forall (fun g => validate_slug g = Ok tt).
Lemma segments_of_join segs : valid_slugs segs -> segments_of ("/" +:+ join_with "/" segs) = segs.
Proof.
  intros Hv. unfold segments_of, split_slash. change ("/" +:+ join_with "/" segs) with (String SLASH (join_with "/" segs)).
  cbn [split_any]. change (Ascii.eqb SLASH SLASH) with true. cbn iota. cbn [List.filter]. change (String.eqb "" "") with true. cbn [negb].
  destruct (decide (segs = [])) as [->|Hne]; [done|].
  rewrite (split_any_join (Ascii.eqb SLASH) SLASH); [|done|done|eapply Forall_impl; [exact Hv|]; intros g (_ & Hg & _)%valid_slug; by apply lacks_all].
  induction Hv as [|g segs Hg Hv IH]; [done|]. cbn [List.filter]. apply valid_slug in Hg as (Hg & _).
  destruct (String.eqb_spec g ""); [done|]. cbn [negb]. f_equal. destruct segs; [done|]. by apply IH.
Qed.
Lemma strip_scheme_path rest : strip_scheme_prefix (SCHEME_PREFIX +:+ "/" +:+ rest) = "/" +:+ rest.
Proof. unfold strip_scheme_prefix. by rewrite strip_prefix_app. Qed.

(** ** Totality *)

Lemma tree_root_total metas id : is_Some (tree_root metas id).
Proof. unfold tree_root. destruct (find_meta metas id); [|done]. apply fmap_is_Some, root_walk_total, unseen_length. Qed.
Lemma compute_path_total metas id : is_Some (compute_path metas id).
Proof.
  unfold compute_path. destruct (find_meta metas id) as [m|]; [|done]. destruct (parent m) as [p|]; [|done].
  destruct (path_walk_total (length metas) metas {[id]} (Some p)) as [l ->]; [apply unseen_length|done].
Qed.
Lemma resolve_path_total metas caller path : is_Some (resolve_path metas caller path).
Proof.
  unfold resolve_path. destruct (negb _); [done|]. by destruct (tree_root_total metas caller) as [r ->].
Qed.

Lemma resolve_path_spec metas r caller path s :
  ids_unique metas -> slugs_unique metas -> top metas r caller -> starts_with "/" (strip_scheme_prefix path) = true ->
  resolve_path metas caller path = Some (Ok s) <-> descends metas r (segments_of (strip_scheme_prefix path)) s.
Proof.
  intros Hids Hs Ht Hp. unfold resolve_path. rewrite Hp, (tree_root_top metas r caller) by done. cbn [negb mbind option_bind].
  pose proof (top_root metas r caller Ht) as Hr. split.
  - intros [= H]. apply (descend_sound metas r _ _ r [] _ _ (descends_here metas r) H).
  - intros Hd. f_equal. apply (descend_complete metas Hids r _ _ r []); [done|done|constructor|done|].
    intros x ->%elem_of_singleton. exists 0. split; [done|by constructor].
Qed.

(** ** Traversing down *)

Lemma elem_of_kids metas p c : c ∈ kids metas p <-> exists m, m ∈ metas /\ session_id m = c /\ parent m = Some p.
Proof.
  unfold kids, is_child. rewrite list_elem_of_fmap. split.
  - intros (m & -> & Hm). apply list_elem_of_In, filter_In in Hm as [Hm Hp%bool_decide_eq_true]. exists m. by rewrite list_elem_of_In.
  - intros (m & Hm & <- & Hp). exists m. split; [done|]. apply list_elem_of_In, filter_In. rewrite <- list_elem_of_In. by rewrite bool_decide_eq_true_2.
Qed.
(** Entries whose parent has not been met. *)
Definition pending (metas : list SessionEntry) (seen : gset SessionId) : nat :=
  length (List.filter (fun m => match parent m with Some p => negb (bool_decide (p ∈ seen)) | None => false end) metas).
Lemma pending_step metas seen id : id ∉ seen -> pending metas ({[id]} ∪ seen) + length (kids metas id) = pending metas seen.
Proof.
  intros Hn. unfold pending, kids. rewrite length_map. induction metas as [|m metas IH]; [done|]. cbn [List.filter].
  unfold is_child at 1. destruct (parent m) as [p|]; [|by rewrite bool_decide_eq_false_2].
  destruct (decide (p = id)) as [->|Hp].
  - rewrite (bool_decide_eq_true_2 (id ∈ _)) by set_solver. rewrite (bool_decide_eq_false_2 (id ∈ seen)) by done.
    rewrite bool_decide_eq_true_2 by done. cbn [negb length]. lia.
  - rewrite (bool_decide_eq_false_2 (Some p = Some id)) by congruence.
    rewrite (bool_decide_ext (p ∈ {[id]} ∪ seen) (p ∈ seen)) by set_solver. destruct (negb _); cbn [length]; lia.
Qed.
Lemma pending_length metas seen : pending metas seen <= length metas.
Proof. apply filter_length_le. Qed.

(** Each listed session but those to start from comes after its parent. *)
Definition parents_first (metas : list SessionEntry) (start : SessionId -> Prop) (out : list SessionId) : Prop :=
  forall i k, out !! i = Some k -> start k \/ exists j p, j < i /\ out !! j = Some p /\ k ∈ kids metas p.

Section Traverse.
  Context (metas : list SessionEntry) (push : gset SessionId -> SessionId -> list SessionId).
  Context (push_kids : forall seen id, push seen id ⊆ kids metas id).
  Context (push_all : forall seen id k, k ∈ kids metas id -> k ∈ push seen id \/ k ∈ seen).
  Context (push_length : forall seen id, length (push seen id) <= length (kids metas id)).
  Context (avoid : gset SessionId) (start : SessionId -> Prop).

Definition tracked (seen : gset SessionId) (stack out : list SessionId) : Prop :=
  NoDup out /\ (forall x, x ∈ seen <-> x ∈ avoid \/ x ∈ out) /\ (forall x, x ∈ out -> x ∉ avoid) /\
  (forall x k, x ∈ out -> k ∈ kids metas x -> k ∈ seen \/ k ∈ stack) /\
  (forall k, start k -> k ∈ seen \/ k ∈ stack) /\
  (forall k, k ∈ stack -> start k \/ exists p, p ∈ out /\ k ∈ kids metas p) /\ parents_first metas start out.
Lemma traverse_spec fuel seen stack out :
  tracked seen stack out -> length stack + pending metas seen <= fuel ->
  exists seen' out', traverse push fuel seen stack out = Some out' /\ tracked seen' [] out'.
Proof.
  revert seen stack out. induction fuel as [|fuel IH]; intros seen [|id stack] out Ht Hf; cbn [traverse]; try (by eauto); [cbn in Hf; lia|].
  destruct Ht as (Hn & Hseen & Hav & Hk & Hst & Hstack & Ho). case_bool_decide as Hid.
  - apply IH; [|cbn in Hf; lia]. unfold tracked. split_and!; try done.
    + intros x k Hx Hkx. destruct (Hk x k Hx Hkx) as [?|[->|?]%elem_of_cons]; auto.
    + intros k Hs. destruct (Hst k Hs) as [?|[->|?]%elem_of_cons]; auto.
    + intros k Hks. apply Hstack. set_solver.
  - assert (Hout : id ∉ out) by (intros Hx; apply Hid, Hseen; by right).
    assert (Hnew : id ∉ avoid) by (intros Hx; apply Hid, Hseen; by left).
    apply IH.
    + unfold tracked. split_and!.
      * apply NoDup_app. split_and!; [done|set_solver|apply NoDup_singleton].
      * intros x. rewrite elem_of_union, elem_of_singleton, elem_of_app, list_elem_of_singleton, Hseen. tauto.
      * intros x [Hx|Hx]%elem_of_app; [by apply Hav|set_solver].
      * intros x k [Hx|Hx%list_elem_of_singleton]%elem_of_app Hkx.
        -- destruct (Hk x k Hx Hkx) as [?|[->|?]%elem_of_cons]; [set_solver..|]. right. apply elem_of_app. by right.
        -- subst x. destruct (push_all ({[id]} ∪ seen) id k Hkx) as [Hp|Hp]; [|by left]. right. apply elem_of_app. left. by rewrite list_elem_of_In, <- in_rev, <- list_elem_of_In.
      * intros k Hs. destruct (Hst k Hs) as [?|[->|?]%elem_of_cons]; [set_solver..|]. right. apply elem_of_app. by right.
      * intros k [Hp|Hp]%elem_of_app.
        -- right. exists id. split; [set_solver|]. apply (push_kids ({[id]} ∪ seen)). apply list_elem_of_In, in_rev. by rewrite <- list_elem_of_In.
        -- destruct (Hstack k) as [?|(p & Hp1 & Hp2)]; [set_solver|by left|]. right. exists p. split; [|done]. apply elem_of_app. by left.
      * intros i k Hi. apply lookup_app_Some in Hi as [Hi|[Hl Hi]].
        -- destruct (Ho i k Hi) as [?|(j & p & Hj & Hp & Hkp)]; [by left|]. right. exists j, p. split_and!; [done| |done]. by apply lookup_app_l_Some.
        -- apply list_lookup_singleton_Some in Hi as [Hi <-]. destruct (Hstack id) as [?|(p & Hp1 & Hp2)]; [set_solver|by left|].
           apply list_elem_of_lookup_1 in Hp1 as [j Hj]. right. exists j, p. pose proof (lookup_lt_Some _ _ _ Hj).
           split_and!; [lia|by apply lookup_app_l_Some|done].
    + rewrite length_app, length_rev. pose proof (push_length ({[id]} ∪ seen) id). pose proof (pending_step metas seen id Hid). cbn [length] in Hf. lia.
Qed.
End Traverse.

(** What lies below: children of children. *)
Definition down (metas : list SessionEntry) (p c : SessionId) : Prop := c ∈ kids metas p.
Lemma parents_first_reach metas start out k :
  parents_first metas start out -> k ∈ out -> exists s, start s /\ rtc (down metas) s k.
Proof.
  intros Ho [i Hi]%list_elem_of_lookup_1. revert k Hi. induction (lt_wf i) as [i _ IH]. intros k Hi.
  destruct (Ho i k Hi) as [Hs|(j & p & Hj & Hp & Hk)]; [by exists k|].
  destruct (IH j Hj p Hp) as (s & Hs & Hr). exists s. split; [done|]. by eapply rtc_r.
Qed.
Lemma tracked_closed metas avoid start seen out x y :
  tracked metas avoid start seen [] out -> (forall z, z ∈ avoid -> forall k, down metas z k -> start k) ->
  x ∈ avoid \/ x ∈ out -> rtc (down metas) x y -> y ∈ avoid \/ y ∈ out.
Proof.
  intros (_ & Hseen & _ & Hk & Hst & _ & _) Hav Hx Hr. revert Hx. induction Hr as [|x z y Hxz Hr IH]; [done|]. intros Hx. apply IH.
  apply Hseen. destruct Hx as [Hx|Hx].
  - destruct (Hst z (Hav x Hx z Hxz)) as [?|[]%elem_of_nil]. done.
  - destruct (Hk x z Hx Hxz) as [?|[]%elem_of_nil]. done.
Qed.

Lemma tracked_start metas avoid start stack : (forall k, start k <-> k ∈ stack) -> tracked metas avoid start avoid stack [].
Proof.
  intros Hs. unfold tracked. split_and!.
  - apply NoDup_nil_2.
  - intros x. split; [by left|]. by intros [?|[]%elem_of_nil].
  - by intros x []%elem_of_nil.
  - by intros x k []%elem_of_nil.
  - intros k Hk. right. by apply Hs.
  - intros k Hk. left. by apply Hs.
  - done.
Qed.
Lemma descendants_of_spec t metas :
  exists ds, descendants_of t metas = Some ds /\ NoDup ds /\ forall x, x ∈ ds <-> x <> t /\ tc (down metas) t x.
Proof.
  unfold descendants_of.
  destruct (traverse_spec metas (fun seen id => List.filter (fun k => negb (bool_decide (k ∈ seen))) (kids metas id))
    ltac:(intros seen id k; rewrite !list_elem_of_In; by intros [? _]%filter_In)
    ltac:(intros seen id k Hk; destruct (decide (k ∈ seen)); [by right|left]; rewrite list_elem_of_In in *; apply filter_In; by rewrite bool_decide_eq_false_2)
    ltac:(intros; apply filter_length_le) {[t]} (down metas t) (length metas) {[t]} (rev (kids metas t)) []) as (seen & ds & -> & Ht).
  - apply tracked_start. intros k. unfold down. by rewrite !list_elem_of_In, <- in_rev.
  - rewrite length_rev. pose proof (pending_step metas ∅ t) as H. rewrite union_empty_r_L in H.
    pose proof (pending_length metas ∅). rewrite Nat.add_comm, H by set_solver. done.
  - exists ds. split; [done|]. pose proof Ht as (Hn & _ & Hav & _ & _ & _ & Ho). split; [done|]. intros x. split.
    + intros Hx. split; [intros ->; by apply (Hav t Hx), elem_of_singleton|].
      destruct (parents_first_reach _ _ _ x Ho Hx) as (s & Hs & Hr). eapply tc_rtc_r; [by apply tc_once|done].
    + intros [Hne Htc]. destruct (tracked_closed _ _ _ _ _ t x Ht) as [Hx|Hx]; [|set_solver|by apply tc_rtc|set_solver|done].
      by intros z ->%elem_of_singleton.
Qed.
Lemma post_order_spec t metas :
  exists po, post_order t metas = Some po /\ NoDup po /\ (forall x, x ∈ po <-> rtc (down metas) t x) /\
    (forall i k, po !! i = Some k -> k = t \/ exists j p, i < j /\ po !! j = Some p /\ down metas p k).
Proof.
  unfold post_order.
  destruct (traverse_spec metas (fun _ => kids metas) ltac:(done) ltac:(intros; by left) ltac:(done) ∅ (eq t)
    (S (length metas)) ∅ [t] []) as (seen & ds & -> & Ht).
  - apply tracked_start. intros k. rewrite list_elem_of_singleton. done.
  - pose proof (pending_length metas ∅). cbn [length]. lia.
  - exists (rev ds). split; [done|]. rewrite rev_alt. fold (reverse ds). pose proof Ht as (Hn & _ & _ & _ & Hst & _ & Ho). split_and!.
    + by rewrite reverse_Permutation.
    + intros x. rewrite reverse_Permutation. split.
      * intros Hx. by destruct (parents_first_reach _ _ _ x Ho Hx) as (s & <- & Hr).
      * intros Hr. destruct (tracked_closed _ _ _ _ _ t x Ht) as [Hx|Hx]; [set_solver| |done|set_solver|done].
        destruct Ht as (_ & Hseen & _). apply Hseen. by destruct (Hst t eq_refl) as [?|[]%elem_of_nil].
    + intros i k Hi. apply reverse_lookup_Some in Hi as [Hi Hl].
      destruct (Ho _ k Hi) as [<-|(j & p & Hj & Hp & Hk)]; [by left|]. right. exists (length ds - S j), p.
      split_and!; [lia| |done]. apply reverse_lookup_Some. split; [|lia]. rewrite <- Hp. f_equal. lia.
Qed.

Lemma up_down metas c p : ids_unique metas -> up metas c p <-> down metas p c.
Proof. intros Hids. rewrite up_iff by done. symmetry. apply elem_of_kids. Qed.

Lemma ancestors_walk_spec fuel metas seen cur l :
  ancestors_walk fuel metas seen cur = Some l ->
  (forall x y, x ∈ seen -> up metas x y -> y ∈ seen \/ cur = Some y) ->
  (forall x y, x ∈ seen \/ x ∈ l -> up metas x y -> y ∈ seen \/ y ∈ l) /\
  (forall a, a ∈ l -> exists id, cur = Some id /\ rtc (up metas) id a) /\ (forall id, cur = Some id -> id ∈ seen \/ id ∈ l).
Proof.
  revert seen cur l. induction fuel as [|fuel IH]; intros seen [id|] l H Hs; cbn [ancestors_walk] in H;
    try (injection H as <-; split_and!; [|set_solver|done]; intros x y [Hx|[]%elem_of_nil] Hu; by destruct (Hs x y Hx Hu); [left|]).
  - case_bool_decide as Hid; [|done]. injection H as <-. split_and!; [|set_solver|intros ? [= <-]; by left].
    intros x y [Hx|[]%elem_of_nil] Hu. destruct (Hs x y Hx Hu) as [?|[= ->]]; by left.
  - case_bool_decide as Hid.
    { injection H as <-. split_and!; [|set_solver|intros ? [= <-]; by left].
      intros x y [Hx|[]%elem_of_nil] Hu. destruct (Hs x y Hx Hu) as [?|[= ->]]; by left. }
    apply fmap_Some in H as (l' & Hl & ->). destruct (IH _ _ _ Hl) as (H1 & H2 & H3).
    { intros x y [->%elem_of_singleton|Hx]%elem_of_union Hu.
      - destruct Hu as (m & Hm & Hp). rewrite Hm. by right.
      - left. destruct (Hs x y Hx Hu) as [?|[= ->]]; set_solver. }
    split_and!.
    + intros x y Hx Hu. destruct (H1 x y) as [Hy|Hy]; [set_solver|done|set_solver|set_solver].
    + intros a [->|Ha]%elem_of_cons; [by exists id|]. exists id. split; [done|].
      destruct (H2 a Ha) as (p & Hp & Hr). eapply rtc_l; [|exact Hr]. destruct (find_meta metas id) as [m|] eqn:E; [|done]. by exists m.
    + intros ? [= <-]. set_solver.
Qed.
Lemma caller_context_spec current metas :
  exists c, caller_context current metas = Some c /\ current_session_id c = current /\
    dangling c = negb (is_some (find_meta metas current)) /\ forall a, a ∈ ancestors c <-> tc (up metas) current a.
Proof.
  unfold caller_context. destruct (ancestors_walk_total (S (length metas)) metas ∅ (find_meta metas current ≫= parent)) as [l Hl];
    [pose proof (unseen_length metas ∅); lia|]. rewrite Hl. eexists. split; [reflexivity|]. split_and!; [done..|]. cbn [ancestors].
  destruct (ancestors_walk_spec _ _ _ _ _ Hl) as (H1 & H2 & H3); [set_solver|]. intros a. split.
  - intros (p & Hp & Hr)%H2. eapply tc_rtc_r; [|exact Hr]. apply tc_once. apply bind_Some in Hp as (m & Hm & Hp). by exists m.
  - assert (Hup : forall x, rtc (up metas) x a -> x ∈ l -> a ∈ l).
    { intros x Hr. induction Hr as [|x y z Hu Hr IH]; [done|]. intros Hx. apply IH. destruct (H1 x y) as [|Hy]; [by right|done|set_solver|done]. }
    intros Ht. inversion Ht as [x y Hu|x y z Hu Ht']; subst; destruct Hu as (m & Hm & Hp); rewrite Hm in H3; cbn [mbind option_bind] in H3.
    + destruct (H3 a Hp) as [|Hin]; [set_solver|done].
    + destruct (H3 y Hp) as [|Hin]; [set_solver|]. apply (Hup y); [by apply tc_rtc|done].
Qed.

(** ** Theorems *)

(** A path leads from the root of the caller's tree down by its slugs, and to
    nothing else: what it resolves to is what its segments name. *)
Theorem path_resolves_exactly metas r caller path s :
  ids_unique metas -> slugs_unique metas -> top metas r caller -> starts_with "/" (strip_scheme_prefix path) = true ->
  resolve_path metas caller path = Some (Ok s) <-> descends metas r (segments_of (strip_scheme_prefix path)) s.
Proof. apply resolve_path_spec. Qed.

(** The path shown for a session whose ancestors have slugs resolves to that
    session from everywhere in its tree. *)
Theorem path_roundtrip metas r caller segs s :
  ids_unique metas -> slugs_unique metas -> top metas r caller ->
  (forall m, find_meta metas r = Some m -> parent m = None /\ slug_of m = None) ->
  descends metas r segs s -> valid_slugs segs ->
  exists path, compute_path metas s = Some path /\ path = SCHEME_PREFIX +:+ "/" +:+ join_with "/" segs /\
    resolve_path metas caller path = Some (Ok s).
Proof.
  intros Hids Hs Ht Hroot Hd Hv. exists (SCHEME_PREFIX +:+ "/" +:+ join_with "/" segs). pose proof (top_root metas r caller Ht) as Hr.
  split_and!; [|done|].
  - unfold compute_path. inversion Hd as [Hx|segs1 p m g Hd1 Hm Hp Hg Hx]; subst.
    + pose proof Hr as (m & Hm & _). rewrite Hm. by destruct (Hroot m Hm) as [-> _].
    + rewrite (find_meta_unique metas m), Hp by done.
      rewrite (path_walk_descends metas Hids r segs1); [|done..|apply unseen_length|].
      * cbn [mbind option_bind]. by rewrite Hg, <- (rev_involutive (segs1 ++ [g])), rev_app_distr.
      * intros y ->%elem_of_singleton. exists (S (length segs1)). split; [lia|].
        apply (height_up metas r _ _ p); [apply up_iff; eauto|by apply descends_height].
  - apply (resolve_path_spec metas r); [done..| |]; rewrite strip_scheme_path; [done|]. by rewrite segments_of_join.
Qed.

Lemma tc_down_up metas t x : ids_unique metas -> tc (down metas) t x <-> tc (up metas) x t.
Proof.
  intros Hids. split.
  - induction 1 as [t x H|t y x H _ IH]; [apply tc_once; by apply up_down|]. eapply tc_r; [exact IH|]. by apply up_down.
  - induction 1 as [x t H|x y t H _ IH]; [apply tc_once; by apply up_down|]. eapply tc_r; [exact IH|]. by apply up_down.
Qed.

(** The descendants of a session are exactly the other sessions whose chain of
    parents contains it, each listed once, on every store, cyclic ones
    included. *)
Theorem descendants_exact metas t : ids_unique metas ->
  exists ds, descendants_of t metas = Some ds /\ NoDup ds /\ forall x, x ∈ ds <-> x <> t /\ tc (up metas) x t.
Proof.
  intros Hids. destruct (descendants_of_spec t metas) as (ds & Hd & Hn & Hx). exists ds. split_and!; [done..|].
  intros x. rewrite Hx. by rewrite tc_down_up.
Qed.

(** Whatever the stored parents, cycles and gaps included, every walk over the
    tree ends. *)
Theorem walks_end metas id path :
  is_Some (tree_root metas id) /\ is_Some (resolve_path metas id path) /\ is_Some (compute_path metas id) /\
  is_Some (caller_context id metas) /\ is_Some (subagent_depth_of id metas) /\ is_Some (descendants_of id metas) /\
  is_Some (post_order id metas).
Proof.
  split_and!; [apply tree_root_total|apply resolve_path_total|apply compute_path_total|..].
  - by destruct (caller_context_spec id metas) as (c & -> & _).
  - apply depth_walk_total, unseen_length.
  - by destruct (descendants_of_spec id metas) as (ds & -> & _).
  - by destruct (post_order_spec id metas) as (po & -> & _).
Qed.

(** A slug derived for a branch is free among the children of its source. *)
Lemma first_free_spec metas source base n tries g :
  first_free metas source base n tries = Some g -> slug_conflict metas (Some source) g source = None.
Proof.
  revert n. induction tries as [|tries IH]; intros n H; cbn [first_free] in H; [done|].
  destruct (slug_conflict _ _ (base +:+ _) _) eqn:E; [by eapply IH|]. by injection H as <-.
Qed.
Theorem branch_slug_free metas source g m :
  derive_branch_slug metas source = Some g -> m ∈ metas -> parent m = Some source -> session_id m <> source -> slug_of m <> Some g.
Proof.
  intros H Hm Hp Hne Hg. assert (Hc : slug_conflict metas (Some source) g source = None).
  { unfold derive_branch_slug in H. destruct (find_meta metas source) as [s|]; [|done]. cbn [mbind option_bind] in H.
    destruct (slug_of s) as [sl|]; [|done]. cbn [mbind option_bind] in H.
    destruct (slug_conflict _ _ (_ +:+ "-branch") _) eqn:E; [by eapply first_free_spec|]. by injection H as <-. }
  unfold slug_conflict in Hc. apply fmap_None in Hc. apply list_elem_of_In in Hm. pose proof (find_none _ _ Hc m Hm) as Hx. cbn beta in Hx.
  rewrite !bool_decide_eq_true_2 in Hx by done. by destruct (String.eqb_spec (session_id m) source).
Qed.

(** ** Examples *)

Module PathsExample.

(** A trunk, a session without a slug below it with a named one, and a session
    of the trunk with the same name. *)
Definition at_place (id : string) (p s : option string) : SessionEntry :=
  set_place (entry_new 0 id "helper" (id +:+ ".jsonl")) {| parent_session_id := p; slug := s |}.
Definition store : list SessionEntry :=
  [at_place "t" None None; at_place "a" (Some "t") (Some "memory"); at_place "b" (Some "a") (Some "task-b");
   at_place "x" (Some "t") None; at_place "y" (Some "x") (Some "memory")].

Lemma store_unique : ids_unique store.
Proof. apply (bool_decide_unpack (NoDup _)). by vm_compute. Qed.
Lemma store_top : top store "t" "b".
Proof.
  apply (top_up _ _ _ "a"); [by exists (at_place "b" (Some "a") (Some "task-b"))|].
  apply (top_up _ _ _ "t"); [by exists (at_place "a" (Some "t") (Some "memory"))|].
  constructor. exists (at_place "t" None None). split; [done|]. intros p H. discriminate.
Qed.
Lemma store_slugs : slugs_unique store.
Proof.
  intros m m' g Hm Hm'. repeat (apply elem_of_cons in Hm as [->|Hm]); try by apply elem_of_nil in Hm.
  all: repeat (apply elem_of_cons in Hm' as [->|Hm']); try by apply elem_of_nil in Hm'.
  all: cbn; congruence.
Qed.
End PathsExample.

Lemma path_roundtrip_witness :
  let store := PathsExample.store in
  ids_unique store /\ slugs_unique store /\ top store "t" "b" /\
  exists path, compute_path store "b" = Some path /\ path = "sess:/memory/task-b" /\ resolve_path store "b" path = Some (Ok "b").
Proof.
  cbv zeta. split_and!; [apply PathsExample.store_unique|apply PathsExample.store_slugs|apply PathsExample.store_top|].
  apply (path_roundtrip PathsExample.store "t" "b" ["memory"; "task-b"] "b"
    PathsExample.store_unique PathsExample.store_slugs PathsExample.store_top).
  - intros m [= <-]. done.
  - apply (descends_step _ _ ["memory"] "a" (PathsExample.at_place "b" (Some "a") (Some "task-b")) "task-b"); [|set_solver|done..].
    apply (descends_step _ _ [] "t" (PathsExample.at_place "a" (Some "t") (Some "memory")) "memory"); [constructor|set_solver|done..].
  - repeat constructor.
Defined.
Lemma path_resolves_exactly_witness :
  resolve_path PathsExample.store "b" "/memory" = Some (Ok "a") <-> descends PathsExample.store "t" ["memory"] "a".
Proof.
  apply (path_resolves_exactly PathsExample.store "t" "b" "/memory" "a"
    PathsExample.store_unique PathsExample.store_slugs PathsExample.store_top). done.
Defined.
Lemma descendants_exact_witness :
  exists ds, descendants_of "t" PathsExample.store = Some ds /\ NoDup ds /\
    forall x, x ∈ ds <-> x <> "t" /\ tc (up PathsExample.store) x "t".
Proof. apply (descendants_exact PathsExample.store "t" PathsExample.store_unique). Defined.

(** *** Findings *)

(** The path shown for a session below an ancestor without a slug leaves that
    ancestor out, and may be the path of another session. *)
Theorem displayed_path_names_another :
  compute_path PathsExample.store "y" = Some "sess:/memory" /\ resolve_path PathsExample.store "t" "sess:/memory" = Some (Ok "a").
Proof. by vm_compute. Qed.

(** A bare UUID passes the check of paths. *)
Theorem uuid_path_accepted : validate_path "550e8400-e29b-41d4-a716-446655440000" = Ok tt.
Proof. by vm_compute. Qed.
