(* ===== verification/SessionHandle.v ===== *)
(** * SessionHandle: an open session and its bookkeeping

    The session an agent writes to (peko-rs/session/src/unified.rs): its
    counters in memory, the messages it appends to the transcript, the counts
    it reports to the index through a controller of its own, and the
    compactions it records with the retention of pages that follows.  The
    ids made up and the clock are inputs; a rotation sink pages the live file
    aside at its threshold.  A failing file operation is not modelled, and the
    counts are unbounded integers. *)

From Stdlib Require Import ZArith Lia Ascii.
From stdpp Require Import base tactics list gmap strings.
From S2P Require Import Prelude Text Usage Subject ActingFor Message Compaction Host SessionLog SessionPages SessionIndex.

Local Open Scope Z_scope.
Open Scope rust_scope.

(** ** The session *)

Record Tally := { tally_messages : Z; tally_last_total : Z; tally_input : Z; tally_output : Z }.
Record Session := {
  sess_id : string;
  sess_agent : string;
  session_key : string;
  peer : ActorRef;
  last_message_id : option string;
  tally : Tally;
  model_context_limit : option Z;
  current_provider : option string;
  current_model : option string;
  metadata_controller : option SessionIndex.SessionIndex;
  rotation_sink : option nat;
}.
Definition no_tally : Tally := {| tally_messages := 0; tally_last_total := 0; tally_input := 0; tally_output := 0 |}.
Definition from_components (id agent key : string) (p : ActorRef) : Session :=
  {| sess_id := id; sess_agent := agent; session_key := key; peer := p; last_message_id := None; tally := no_tally;
     model_context_limit := None; current_provider := None; current_model := None; metadata_controller := None; rotation_sink := None |}.
Definition set_messages (s : Session) (last : option string) (t : Tally) : Session :=
  {| sess_id := sess_id s; sess_agent := sess_agent s; session_key := session_key s; peer := peer s; last_message_id := last;
     tally := t; model_context_limit := model_context_limit s; current_provider := current_provider s; current_model := current_model s;
     metadata_controller := metadata_controller s; rotation_sink := rotation_sink s |}.
Definition set_controller (s : Session) (i : SessionIndex.SessionIndex) : Session :=
  {| sess_id := sess_id s; sess_agent := sess_agent s; session_key := session_key s; peer := peer s;
     last_message_id := last_message_id s; tally := tally s; model_context_limit := model_context_limit s;
     current_provider := current_provider s;
     current_model := current_model s; metadata_controller := Some i; rotation_sink := rotation_sink s |}.
Definition set_model (s : Session) (provider model : string) : Session :=
  {| sess_id := sess_id s; sess_agent := sess_agent s; session_key := session_key s; peer := peer s;
     last_message_id := last_message_id s; tally := tally s; model_context_limit := model_context_limit s;
     current_provider := Some provider;
     current_model := Some model; metadata_controller := metadata_controller s; rotation_sink := rotation_sink s |}.
Definition set_model_context_limit (s : Session) (limit : Z) : Session :=
  {| sess_id := sess_id s; sess_agent := sess_agent s; session_key := session_key s; peer := peer s;
     last_message_id := last_message_id s; tally := tally s; model_context_limit := Some limit;
     current_provider := current_provider s; current_model := current_model s;
     metadata_controller := metadata_controller s; rotation_sink := rotation_sink s |}.
Definition set_rotation_sink (s : Session) (rotate_bytes : nat) : Session :=
  {| sess_id := sess_id s; sess_agent := sess_agent s; session_key := session_key s; peer := peer s;
     last_message_id := last_message_id s; tally := tally s; model_context_limit := model_context_limit s;
     current_provider := current_provider s;
     current_model := current_model s; metadata_controller := metadata_controller s; rotation_sink := Some rotate_bytes |}.
Definition record_usage (t : Tally) (last input output : Z) : Tally :=
  {| tally_messages := tally_messages t; tally_last_total := last; tally_input := tally_input t + input;
     tally_output := tally_output t + output |}.
Definition count_message (t : Tally) : Tally :=
  {| tally_messages := tally_messages t + 1; tally_last_total := tally_last_total t; tally_input := tally_input t;
     tally_output := tally_output t |}.

(** [from_entries]: messages of user and assistant are counted, the last of
    them is the last message. *)
Definition counted_id (e : NormalizedEntry) : option string :=
  match e with NUserMessage id _ _ _ | NAssistantMessage id _ _ _ _ => Some id | _ => None end.
Definition from_entries (id agent key : string) (p : ActorRef) (entries : list NormalizedEntry) : Session :=
  let ids := omap counted_id entries in
  set_messages (from_components id agent key p) (last ids)
    {| tally_messages := Z.of_nat (length ids); tally_last_total := 0; tally_input := 0; tally_output := 0 |}.

(** ** Messages *)

(** The message of a role: [msg_id] and [ids] are the ids made up. *)
Definition tool_part (acc : string * string * bool * list string) (b : ContentBlock Json) : string * string * bool * list string :=
  let '(id, name, err, parts) := acc in
  match b with
  | ToolResult id name c err => (id, name, err, parts ++ omap text_of c)
  | Text t => (id, name, err, parts ++ [t])
  | _ => acc
  end.
Definition no_usage : TokenUsage :=
  {| usage_input := 0; usage_output := 0; usage_total := 0; usage_cache_creation := None; usage_cache_read := None; usage_reasoning := None |}.
Definition message_for (s : Session) (msg_id : string) (ids : string * string) (now : Z) (role : string)
    (blocks : list (ContentBlock Json)) (u : option TokenUsage) : SessionMessage :=
  if String.eqb role "user" then
    {| sm_envelope := envelope_new (fst ids) now; message_id := msg_id;
       sm_message := {| role := User; content := blocks; timestamp := now; metadata := ∅; tool_call_id := None; usage := None |};
       role_metadata := MetaUser FromUser |}
  else if String.eqb role "assistant" then
    assistant_with_blocks ids now blocks (default "" (current_provider s)) (default "" (current_model s)) (default no_usage u)
  else if String.eqb role "system" then system_message ids now (concat_text (omap text_of blocks))
  else if String.eqb role "tool" then
    let '(id, name, err, parts) := fold_left tool_part blocks ("", "", false, []) in
    tool_result ids now id name (concat_text parts) err
  else user_message ids now (concat_text (omap text_of blocks)) FromUser.

Section Handle.
  Context {J : SessionJson}.
  (** [SessionId::from]. *)
  Context (id_of : string -> string).
  Context (now : Z).

(** [ensure_metadata_controller] and a call on it. *)
Definition through {A} (c : M A) (sw : Session * World) : result A string * (Session * World) :=
  let '(s, w) := sw in
  let '(r, (i, w)) := c (default index_open (metadata_controller s), w) in (r, (set_controller s i, w)).
Definition append_to_storage (sw : Session * World) (e : SessionEvent) : Session * World :=
  let '(s, w) := sw in
  let f := match rotation_sink s with
           | Some rotate_bytes => snd (append_event_with_rotation rotate_bytes (files w) (sess_id s) e)
           | None => append_event (files w) (sess_id s) e
           end in
  (s, {| disk := disk w; files := f |}).
(** A failure is logged and otherwise ignored. *)
Definition sync_index_message_count (user_turn : bool) (sw : Session * World) : Session * World :=
  let t := tally (fst sw) in
  snd (through (update_message_counts id_of now (sess_id (fst sw)) (tally_messages t) (tally_last_total t) (tally_input t)
                  (tally_output t) user_turn) sw).
(** An appended message, counted and reported. *)
Definition store_message (msg_id : string) (m : SessionMessage) (user_turn : bool) (sw : Session * World) : Session * World :=
  let '(s, w) := append_to_storage sw (MessageV2 m) in
  sync_index_message_count user_turn (set_messages s (Some msg_id) (count_message (tally s)), w).
Definition add_llm_message (msg_id : string) (ids : string * string) (role : string) (blocks : list (ContentBlock Json))
    (thinking : option (string * option string)) (u : option TokenUsage) (sw : Session * World) : Session * World :=
  let '(s, w) := sw in
  let s := match u with
           | Some u => set_messages s (last_message_id s) (record_usage (tally s) (usage_total u) (usage_input u) (usage_output u))
           | None => s
           end in
  let blocks := blocks ++ match thinking with Some (t, sig) => [Thinking t sig] | None => [] end in
  store_message msg_id (message_for s msg_id ids now role blocks u) (String.eqb role "user") (s, w).
Definition add_user (msg_id : string) (ids : string * string) (t : string) : Session * World -> Session * World :=
  add_llm_message msg_id ids "user" [Text t] None None.
Definition add_user_with_source (ids : string * string) (t : string) (source : MessageSource) (sw : Session * World) : Session * World :=
  store_message (snd ids) (user_message ids now t source) true sw.
(** [calls] with the ids made up for them. *)
Definition add_assistant (msg_id : string) (ids : string * string) (t : string) (calls : list (string * string * Json))
    (u : option TokenUsage) : Session * World -> Session * World :=
  add_llm_message msg_id ids "assistant" (Text t :: map (fun '(id, name, args) => ToolCall id name args) calls) None u.
Definition add_tool_result (msg_id : string) (ids : string * string) (id name t : string) (err : bool)
    : Session * World -> Session * World :=
  add_llm_message msg_id ids "tool" [ToolResult id name [Text t] err] None None.
Definition add_thinking (msg_id : string) (ids : string * string) (t : string) (sig : option string)
    : Session * World -> Session * World :=
  add_llm_message msg_id ids "system" [] (Some (t, sig)) None.

(** The quotas of compaction: advisory, read as none used when the index
    fails, and a failure to store them is logged and ignored. *)
Definition session_limits_state (sw : Session * World) : CompactionLimitsState * (Session * World) :=
  match through (get_compaction_state id_of now (sess_id (fst sw))) sw with
  | (Ok c, sw) => (c, sw)
  | (Err _, sw) => (no_limits, sw)
  end.
Definition store_compaction_limits_state (c : CompactionLimitsState) (sw : Session * World) : Session * World :=
  snd (through (set_compaction_state id_of now (sess_id (fst sw)) c) sw).

(** ** Retention *)

Definition session_prune_overflow (sw : Session * World) : result nat string * (Session * World) :=
  let '(s, _) := sw in
  match through (get_entry id_of now (sess_id s) false) sw with
  | (Err e, sw) => (Err e, sw)
  | (Ok None, sw) => (Err ("Session " +:+ sess_id s +:+ " not found"), sw)
  | (Ok (Some e), (s, w)) =>
      let '(pruned, f) := prune_overflow (files w) (sess_id s) (Z.to_nat <$> entry_page_limit (paging e)) in
      (Ok pruned, (s, {| disk := disk w; files := f |}))
  end.
Definition add_pruned (n : nat) (e : SessionEntry) : SessionEntry :=
  set_paging e {| entry_page_limit := entry_page_limit (paging e); pruned_pages := pruned_pages (paging e) + Z.of_nat n |}.
Definition enforce_page_limit (sw : Session * World) : result nat string * (Session * World) :=
  match session_prune_overflow sw with
  | (Err e, sw) => (Err e, sw)
  | (Ok pruned, (s, w)) =>
      if Nat.eqb pruned 0 then (Ok pruned, (s, w))
      else match through (get_entry id_of now (sess_id s) false) (s, w) with
           | (Err e, sw) => (Err e, sw)
           | (Ok None, sw) => (Ok pruned, sw)
           | (Ok (Some e), sw) =>
               match through (update_entry now (add_pruned pruned e)) sw with
               | (Err e, sw) => (Err e, sw)
               | (Ok _, sw) => (Ok pruned, sw)
               end
           end
  end.
Definition record_compaction (entry_id summary : string) (messages_compacted tokens_before tokens_after number : Z)
    (details : option Json) (sw : Session * World) : Session * World :=
  let '(s, w) := sw in
  let f := append_compaction entry_id now (files w) (sess_id s) summary messages_compacted tokens_before tokens_after number details in
  snd (enforce_page_limit (s, {| disk := disk w; files := f |})).
End Handle.

(** [open_by_id]. *)
Definition open_by_id {J : SessionJson} (agent id : string) (p : option ActorRef) (w : World) : Session * World :=
  let '(es, f) := load_events (files w) id in
  let p := default (Subject.User (route_parse "")) p in
  (from_entries id agent (derive_base_session_key agent p) p (load_normalized es), {| disk := disk w; files := f |}).

(** ** What a session appends *)

Section Reading.
  Context {J : SessionJson} {L : SessionJsonLaws J}.
  Context (id_of : string -> string).

(** Computations on the index leave the transcripts alone. *)
Definition spares_files {A} (c : M A) : Prop := forall s, files (snd (snd (c s))) = files (snd s).
Lemma spares_bind {A B} (c : M A) (f : A -> M B) : spares_files c -> (forall a, spares_files (f a)) -> spares_files (c ≫= f).
Proof.
  intros Hc Hf s. unfold mbind, M_bind. pose proof (Hc s) as H. destruct (c s) as [[a|e] s1]; cbn [fst snd] in *; [|done]. by rewrite Hf.
Qed.
Lemma spares_load now : spares_files (load_sessions now).
Proof.
  intros [i w]. unfold load_sessions, index_of, world_of, mbind, M_bind. cbn [fst snd]. destruct (fresh now (sessions i)); [done|].
  unfold lift. destruct (read_json _) as [m|e]; [|done]. cbn [fst snd]. by destruct (backfill_peer_attribution m).
Qed.
Lemma spares_get now id : spares_files (get_entry id_of now id false).
Proof.
  unfold get_entry, index_get. apply spares_bind; [apply spares_bind; [apply spares_load|done]|]. intros [e|]; done.
Qed.
Lemma spares_save now : spares_files (save now).
Proof.
  intros [i w]. unfold save, merge_save_sessions, merge_save_peers, index_of, world_of, mbind, M_bind, lift, put_disk, put_sessions, put_peers, put_index.
  cbn [fst snd]. destruct (modified (sessions i)); unfold mret, M_ret; cbn [fst snd]; [destruct (read_json _); cbn [fst snd]; [|done]|];
    unfold index_of, mbind, M_bind; cbn [fst snd sessions peers disk files peers_json];
    destruct (modified (peers i)); try done; by destruct (read_json _).
Qed.
Lemma spares_update now e : spares_files (update_entry now e).
Proof. unfold update_entry, index_insert. apply spares_bind; [apply spares_bind; [apply spares_load|done]|]. intros _. apply spares_save. Qed.
Lemma spares_counts now id n last input output turn : spares_files (update_message_counts id_of now id n last input output turn).
Proof.
  unfold update_message_counts, need_entry. apply spares_bind; [apply spares_bind; [apply spares_get|done]|]. intros e. apply spares_update.
Qed.

(** A message stored is one event more, one message counted; the rest of the
    session is as before, its controller apart. *)
Definition same_session (s s' : Session) : Prop :=
  sess_id s' = sess_id s /\ current_provider s' = current_provider s /\ current_model s' = current_model s /\ rotation_sink s' = rotation_sink s.
Lemma through_spec {A} (c : M A) s w : spares_files c ->
  let '(r, (s', w')) := through c (s, w) in
  same_session s s' /\ tally s' = tally s /\ last_message_id s' = last_message_id s /\ files w' = files w.
Proof.
  intros Hc. unfold through. pose proof (Hc (default index_open (metadata_controller s), w)) as H. destruct (c _) as [r [i w']]. by split_and!.
Qed.
Lemma append_to_storage_spec s w e : sound_log (files w) (sess_id s) -> (last_page (files w) (sess_id s) < u32_max)%Z ->
  let '(s', w') := append_to_storage (s, w) e in
  s' = s /\ disk w' = disk w /\ sound_log (files w') (sess_id s) /\ events (files w') (sess_id s) = events (files w) (sess_id s) ++ [e] /\
  (last_page (files w') (sess_id s) <= last_page (files w) (sess_id s) + 1)%Z.
Proof.
  intros Hs Hp. unfold append_to_storage. destruct (rotation_sink s) as [n|]; cbn [files disk].
  - destruct (append_rotation_sound n (files w) (sess_id s) e Hs Hp) as (H1 & H2 & H3). by split_and!.
  - destruct (append_sound (files w) (sess_id s) e Hs) as (H1 & H2 & H3). split_and!; try done. unfold last_page. rewrite H3. lia.
Qed.
Lemma store_message_spec now msg_id m turn s w : sound_log (files w) (sess_id s) -> (last_page (files w) (sess_id s) < u32_max)%Z ->
  let '(s', w') := store_message id_of now msg_id m turn (s, w) in
  same_session s s' /\ last_message_id s' = Some msg_id /\ tally s' = count_message (tally s) /\
  sound_log (files w') (sess_id s) /\ events (files w') (sess_id s) = events (files w) (sess_id s) ++ [MessageV2 m] /\
  (last_page (files w') (sess_id s) <= last_page (files w) (sess_id s) + 1)%Z.
Proof.
  intros Hs Hp. unfold store_message. pose proof (append_to_storage_spec s w (MessageV2 m) Hs Hp) as H.
  destruct (append_to_storage (s, w) (MessageV2 m)) as [s1 w1]. destruct H as (-> & Hd & H1 & H2 & H3).
  unfold sync_index_message_count. cbn [fst tally sess_id set_messages].
  match goal with |- context [through ?c (?s2, w1)] => pose proof (through_spec c s2 w1 (spares_counts now _ _ _ _ _ turn)) as H; destruct (through c (s2, w1)) as [r [s' w']] end.
  destruct H as ((I1 & I2 & I3 & I4) & Ht & Hl & Hf). cbn [snd]. rewrite Ht, Hl, Hf. by split_and!.
Qed.
End Reading.

(** ** The history grows *)

Lemma latest_snoc l e : latest_compaction_boundary (l ++ [e]) = if is_compaction_boundary e then Some (length l) else latest_compaction_boundary l.
Proof.
  unfold latest_compaction_boundary. rewrite imap_app, omap_app. cbn [imap omap list_omap]. rewrite Nat.add_0_r.
  destruct (is_compaction_boundary e); cbn; [by rewrite last_snoc|by rewrite app_nil_r].
Qed.
Lemma latest_bound l idx : latest_compaction_boundary l = Some idx -> (idx < length l)%nat.
Proof.
  induction l as [|e l IH] using rev_ind; [done|]. rewrite latest_snoc, length_app. cbn. destruct (is_compaction_boundary e); [intros [= <-]; lia|].
  intros H%IH. lia.
Qed.
Lemma history_snoc details_of l m :
  load_history_native details_of (l ++ [MessageV2 m]) = load_history_native details_of l ++ [to_llm_message m].
Proof.
  unfold load_history_native. rewrite latest_snoc. cbn [is_compaction_boundary]. destruct (latest_compaction_boundary l) as [idx|] eqn:E.
  - apply latest_bound in E. rewrite drop_app_le, omap_app by lia. unfold compaction_summary_message. rewrite lookup_app_l by done.
    rewrite take_app_le by lia. by rewrite app_assoc.
  - by rewrite omap_app.
Qed.

(** ** Theorems *)

(** A message given to [add_llm_message]. *)
Record Added := {
  ad_msg_id : string;
  ad_ids : string * string;
  ad_now : Z;
  ad_role : string;
  ad_blocks : list (ContentBlock Json);
  ad_thinking : option (string * option string);
  ad_usage : option TokenUsage;
}.
Definition run_added {J : SessionJson} (id_of : string -> string) (sw : Session * World) (a : Added) : Session * World :=
  add_llm_message id_of (ad_now a) (ad_msg_id a) (ad_ids a) (ad_role a) (ad_blocks a) (ad_thinking a) (ad_usage a) sw.
Definition added_message (s : Session) (a : Added) : SessionMessage :=
  message_for s (ad_msg_id a) (ad_ids a) (ad_now a) (ad_role a)
    (ad_blocks a ++ match ad_thinking a with Some (t, sig) => [Thinking t sig] | None => [] end) (ad_usage a).
Definition used (f : TokenUsage -> Z) (a : Added) : Z := from_option f 0 (ad_usage a).

Lemma message_for_same s s' msg_id ids now r b u : same_session s s' -> message_for s' msg_id ids now r b u = message_for s msg_id ids now r b u.
Proof. intros (_ & H1 & H2 & _). unfold message_for. by rewrite H1, H2. Qed.
Lemma run_added_spec {J : SessionJson} {L : SessionJsonLaws J} id_of s w a : sound_log (files w) (sess_id s) -> (last_page (files w) (sess_id s) < u32_max)%Z ->
  let '(s', w') := run_added id_of (s, w) a in
  same_session s s' /\ last_message_id s' = Some (ad_msg_id a) /\ tally_messages (tally s') = tally_messages (tally s) + 1 /\
  tally_input (tally s') = tally_input (tally s) + used usage_input a /\ tally_output (tally s') = tally_output (tally s) + used usage_output a /\
  sound_log (files w') (sess_id s) /\ events (files w') (sess_id s) = events (files w) (sess_id s) ++ [MessageV2 (added_message s a)] /\
  (last_page (files w') (sess_id s) <= last_page (files w) (sess_id s) + 1)%Z.
Proof.
  intros Hs Hp. unfold run_added, add_llm_message.
  set (s1 := match ad_usage a with Some u => _ | None => s end).
  assert (Hs1 : same_session s s1 /\ tally_messages (tally s1) = tally_messages (tally s) /\
                tally_input (tally s1) = tally_input (tally s) + used usage_input a /\ tally_output (tally s1) = tally_output (tally s) + used usage_output a).
  { unfold s1, used. destruct (ad_usage a); cbn; split_and!; try done; lia. }
  destruct Hs1 as (Hsame & Hm & Hi & Ho). pose proof Hsame as (Hid & _). rewrite <- Hid in Hs, Hp.
  pose proof (store_message_spec id_of (ad_now a) (ad_msg_id a) (message_for s1 (ad_msg_id a) (ad_ids a) (ad_now a) (ad_role a)
    (ad_blocks a ++ match ad_thinking a with Some (t, sig) => [Thinking t sig] | None => [] end) (ad_usage a)) (String.eqb (ad_role a) "user") s1 w Hs Hp) as H.
  destruct (store_message _ _ _ _ _ (s1, w)) as [s' w']. destruct H as ((I1 & I2 & I3 & I4) & Hl & Ht & Hs' & He & Hp').
  destruct Hsame as (_ & J2 & J3 & J4). rewrite Hid in *. rewrite Ht. cbn [count_message tally_messages tally_input tally_output].
  rewrite (message_for_same s s1) in He by done. split_and!; [split_and!; congruence|done|lia|done..].
Qed.

(** *** Retention *)

(** The controller's cache, if there is one, agrees with the file on what [f]
    reads of the session. *)
Definition agrees {B} (f : SessionEntry -> B) (i : SessionIndex.SessionIndex) (w : World) (k : string) : Prop :=
  forall m, cache (sessions i) = Some m -> f <$> m !! k = f <$> stored w !! k.
Section Agreement.
  Context {B : Type} (f : SessionEntry -> B) (Hf : forall e b, f (set_binding e b) = f e).

Lemma load_agrees now i w k : at_rest (i, w) -> agrees f i w k ->
  exists es i1, load_sessions now (i, w) = (Ok es, (i1, w)) /\ at_rest (i1, w) /\ agrees f i1 w k /\ keyed es /\
    f <$> es !! k = f <$> stored w !! k.
Proof using Hf.
  intros Hr Ha. pose proof Hr as [Hs [(m & Hm & Hk) Hp]]. cbn [fst snd] in *. unfold load_sessions, index_of, world_of, mbind, M_bind. cbn [fst snd].
  destruct (fresh now (sessions i)) as [es|] eqn:Ef.
  - assert (Hce : cache (sessions i) = Some es) by (unfold fresh in Ef; destruct (loaded_at _); [|done]; by destruct (_ && _)).
    exists es, i. split_and!; [done..|by apply Hs|by apply Ha].
  - unfold lift. cbn [fst snd]. rewrite Hm. cbn [read_json]. pose proof (backfill_keyed (map fst (map_to_list m)) m Hk) as Hb.
    pose proof (backfill_same f (map fst (map_to_list m)) m Hf) as Hpg. unfold backfill_peer_attribution.
    destruct (backfill_over _ m) as [b es]. cbn [snd] in Hb, Hpg. destruct Hs as (H1&H2&H3&H4&H5&_).
    assert (Hes : f <$> es !! k = f <$> stored w !! k) by (unfold stored; rewrite Hm, <- !lookup_fmap; by rewrite Hpg).
    eexists es, _. split_and!; [reflexivity|split; [|split; eauto]| |done..].
    + unfold settled. cbn [fst sessions peers dirty removed cache modified]. split_and!; try done. by intros m' [= <-].
    + intros m'. cbn [sessions cache]. by intros [= <-].
Qed.
Lemma get_agrees {J : SessionJson} id_of now i w id e : at_rest (i, w) -> agrees f i w (id_of id) -> stored w !! id_of id = Some e ->
  exists e1 i1, get_entry id_of now id false (i, w) = (Ok (Some e1), (i1, w)) /\ at_rest (i1, w) /\ agrees f i1 w (id_of id) /\
    session_id e1 = id_of id /\ f e1 = f e.
Proof using Hf.
  intros Hr Ha He. destruct (load_agrees now i w (id_of id) Hr Ha) as (es & i1 & Hl & Hr1 & Ha1 & Hk & Hes). rewrite He in Hes.
  destruct (es !! id_of id) as [e1|] eqn:E; [|done]. exists e1, i1. unfold get_entry, index_get, mbind, M_bind. rewrite Hl. unfold mret, M_ret.
  cbn [fst snd]. rewrite E. split_and!; [done..|by apply Hk|]. by injection Hes.
Qed.
End Agreement.

Lemma overflow_sound {J : SessionJson} {L : SessionJsonLaws J} d id limit : sound_log d id ->
  let d' := snd (prune_overflow d id limit) in sound_log d' id /\ exists n, events d' id = drop n (events d id).
Proof.
  intros (Hdot & Htidy & Hw). cbv zeta. destruct limit as [limit|]; [|split; [done|by exists 0%nat]].
  pose proof (prune_overflow_spec d id limit Hdot Htidy) as H. cbv zeta in H. unfold prune_overflow in *. unfold load_events in *.
  set (es := flat_map _ _) in *. destruct (Nat.eqb (closed_pages es - limit) 0) eqn:E; cbn [snd] in *; destruct H as (_ & Ht & He); rewrite ?E in He; cbn [Nat.eqb] in He.
  - split; [|by exists 0%nat]. split_and!; [done..|]. unfold live. by rewrite live_cleanup.
  - split; [|by eexists]. split_and!; [done..|]. apply prune_whole. unfold live. by rewrite live_cleanup.
Qed.
Lemma load_sound {J : SessionJson} {L : SessionJsonLaws J} d id : sound_log d id ->
  sound_log (snd (load_events d id)) id /\ events (snd (load_events d id)) id = events d id.
Proof.
  intros Hs. pose proof Hs as (Hdot & Htidy & Hw). destruct (cleanup_pages d id Hdot Htidy) as (Ht0 & Hp0 & Hv0).
  change (snd (load_events d id)) with (cleanup_temp_files d id). split.
  - split_and!; [done..|]. unfold live. by rewrite live_cleanup.
  - rewrite !events_view by done. rewrite Hv0. unfold live. by rewrite live_cleanup.
Qed.

(** C9. What is added to a session is read back: however the live file was paged
    aside meanwhile, the transcript holds the messages after what it held, the
    history reloaded for the model ends with them, and the counters say how
    many there were and what they used. *)
Theorem messages_read_back {J : SessionJson} {L : SessionJsonLaws J} id_of details_of s w adds :
  sound_log (files w) (sess_id s) -> (last_page (files w) (sess_id s) + Z.of_nat (length adds) <= u32_max)%Z ->
  let '(s', w') := fold_left (run_added id_of) adds (s, w) in
  let ms := map (added_message s) adds in
  events (files w') (sess_id s) = events (files w) (sess_id s) ++ map MessageV2 ms /\
  load_history_native details_of (events (files w') (sess_id s))
    = load_history_native details_of (events (files w) (sess_id s)) ++ map to_llm_message ms /\
  tally_messages (tally s') = tally_messages (tally s) + Z.of_nat (length adds) /\
  tally_input (tally s') = tally_input (tally s) + foldr Z.add 0 (map (used usage_input) adds) /\
  tally_output (tally s') = tally_output (tally s) + foldr Z.add 0 (map (used usage_output) adds).
Proof.
  revert s w. induction adds as [|a adds IH]; intros s w Hs Hp; cbn [fold_left length map].
  { rewrite !app_nil_r. cbn. split_and!; done || lia. }
  cbn [length] in Hp. pose proof (run_added_spec id_of s w a Hs ltac:(lia)) as H. destruct (run_added id_of (s, w) a) as [s1 w1].
  destruct H as (Hsame & _ & Hm & Hi & Ho & Hs1 & He & Hp1). pose proof Hsame as (Hid & _). rewrite <- Hid in Hs1, Hp1, Hp |- *.
  specialize (IH s1 w1 Hs1 ltac:(lia)). destruct (fold_left _ adds (s1, w1)) as [s2 w2]. destruct IH as (E & H1 & H2 & H3 & H4).
  assert (Hms : map (added_message s1) adds = map (added_message s) adds).
  { apply map_ext. intros b. unfold added_message. by apply message_for_same. }
  rewrite Hms in *. rewrite <- Hid in He. rewrite He in E, H1. rewrite history_snoc in H1.
  split_and!; [by rewrite E, <- app_assoc|by rewrite H1, <- app_assoc|lia|cbn; rewrite H3; lia|cbn; rewrite H4; lia].
Qed.

(** C21. A compaction, by a session whose index cache agrees with the file about
    its page limit and its count of pruned pages (no other writer has changed
    them in the cache's thirty seconds, as [stale_write_reverts] says one may),
    closes a page and rotates the oldest out for that limit: what the tool
    reports of each page that stays, its number included, is what it reported
    before, for the count of pages pruned goes to the index with it. *)
Theorem compaction_keeps_addresses {J : SessionJson} {L : SessionJsonLaws J} id_of now entry_id summary compacted before after number details
    s w e limit shown :
  let id := sess_id s in
  let i := default index_open (metadata_controller s) in
  at_rest (i, w) -> agrees paging i w (id_of id) -> stored w !! id_of id = Some e ->
  entry_page_limit (paging e) = Some limit -> 0 <= limit -> 0 <= pruned_pages (paging e) -> sound_log (files w) id ->
  let es := events (files w) id ++ [compaction_event entry_id now summary compacted before after number details] in
  let '(s', w') := record_compaction id_of now entry_id summary compacted before after number details (s, w) in
  let es' := events (files w') id in
  let overflow := (closed_pages es - Z.to_nat limit)%nat in
  exists e', stored w' !! id_of id = Some e' /\ pruned_pages (paging e') = pruned_pages (paging e) + Z.of_nat overflow /\
    closed_pages es' = Nat.min (Z.to_nat limit) (closed_pages es) /\
    map (page_facts es') (catalog_pages (tool_list_pages es' (Z.to_nat (pruned_pages (paging e'))) shown))
    = drop overflow (map (page_facts es) (catalog_pages (tool_list_pages es (Z.to_nat (pruned_pages (paging e))) shown))).
Proof.
  cbv zeta. intros Hr Ha He Hlim Hl0 Hp0 Hs. unfold record_compaction, append_compaction.
  destruct (append_sound (files w) (sess_id s) (compaction_event entry_id now summary compacted before after number details) Hs) as ((Hdot & Htidy & _) & Hev & _).
  set (ev := compaction_event entry_id now summary compacted before after number details) in *.
  set (w1 := {| disk := disk w; files := append_event (files w) (sess_id s) ev |}).
  set (i := default index_open (metadata_controller s)) in *.
  destruct (get_agrees paging ltac:(done) id_of now i w1 (sess_id s) e Hr Ha He) as (e1 & i1 & Hg & Hr1 & Ha1 & _ & Hpg).
  unfold enforce_page_limit, session_prune_overflow, through at 1. fold i. rewrite Hg. rewrite Hpg, Hlim. cbn [fmap option_fmap option_map sess_id set_controller files].
  pose proof (retention_spec (append_event (files w) (sess_id s) ev) (sess_id s) (Z.to_nat limit) (Z.to_nat (pruned_pages (paging e))) shown Hdot Htidy) as Hret.
  pose proof (prune_overflow_spec (append_event (files w) (sess_id s) ev) (sess_id s) (Z.to_nat limit) Hdot Htidy) as Hspec.
  cbv zeta in Hret, Hspec. fold (events (append_event (files w) (sess_id s) ev) (sess_id s)) in Hret.
  change (files w1) with (append_event (files w) (sess_id s) ev).
  destruct (prune_overflow _ (sess_id s) (Some (Z.to_nat limit))) as [overflow f]. destruct Hspec as (Hov & _ & _).
  rewrite Hev in Hret, Hov. fold (events f (sess_id s)) in Hret. rewrite <- Hov. destruct Hret as [Hc Hcat].
  destruct (Nat.eqb_spec overflow 0) as [E|E].
  - cbn [snd files]. exists e. split_and!; [exact He|lia|done|]. rewrite E in *. by rewrite Nat.add_0_r in Hcat.
  - set (w2 := {| disk := disk w1; files := f |}).
    destruct (get_agrees paging ltac:(done) id_of now i1 w2 (sess_id s) e Hr1 Ha1 He) as (e2 & i2 & Hg2 & Hr2 & Ha2 & Hid2 & Hpg2).
    destruct (update_entry_spec now (add_pruned overflow e2) i2 w2 Hr2) as (i3 & Hu & _).
    assert (Hth : forall {A} (c : M A) i0 i' w0 w' r, c (i0, w0) = (r, (i', w')) ->
              through c (set_controller s i0, w0) = (r, (set_controller s i', w'))) by (intros A c i0 i' w0 w' r H; unfold through; cbn; by rewrite H).
    cbn [sess_id set_controller]. rewrite (Hth _ _ _ _ _ _ _ Hg2), (Hth _ _ _ _ _ _ _ Hu). cbn [snd files].
    exists (add_pruned overflow e2). split_and!.
    + unfold stored. cbn [disk sessions_json]. unfold add_pruned at 1, set_paging at 1. cbn [session_id]. rewrite Hid2. apply lookup_insert_eq.
    + cbn. by rewrite Hpg2.
    + done.
    + rewrite <- Hcat. do 2 f_equal. cbn. rewrite Hpg2. f_equal. f_equal. lia.
Qed.


(** ** Examples *)

Module HandleExample.
Import SessionCodec LogExample.

Definition entry (limit : option Z) : SessionEntry :=
  set_paging (with_peer 1 sid "helper" (sid +:+ ".jsonl") "user" "alice") {| entry_page_limit := limit; pruned_pages := 2 |}.
Definition world (limit : option Z) : World :=
  {| disk := {| sessions_json := Readable {[sid := entry limit]}; peers_json := Readable ∅ |}; files := opened |}.
Definition alice : ActorRef := Subject.User (route_parse "alice").
Definition session : Session := set_rotation_sink (from_components sid "helper" "agent:helper:peer:user:alice" alice) 1.
Definition usage (n : Z) : TokenUsage :=
  {| usage_input := n; usage_output := 1; usage_total := n + 1; usage_cache_creation := None; usage_cache_read := None; usage_reasoning := None |}.
Definition ask : Added :=
  {| ad_msg_id := "m1"; ad_ids := ("e1", "n1"); ad_now := 8; ad_role := "user"; ad_blocks := [Text "hi"]; ad_thinking := None; ad_usage := None |}.
Definition reply : Added :=
  {| ad_msg_id := "m2"; ad_ids := ("e2", "n2"); ad_now := 9; ad_role := "assistant"; ad_blocks := [Text "hello"]; ad_thinking := None; ad_usage := Some (usage 10) |}.
Definition same_id (s : string) : string := s.

Lemma world_rest limit : at_rest (index_open, world limit).
Proof.
  split; [|split; [|by exists ∅]].
  - unfold settled. cbn. by split_and!.
  - exists {[sid := entry limit]}. split; [done|]. by intros k e [<- <-]%lookup_singleton_Some.
Qed.
End HandleExample.

#[local] Existing Instances SessionCodec.json SessionCodec.json_laws.

Lemma messages_read_back_witness :
  let '(s', _) := fold_left (run_added HandleExample.same_id) [HandleExample.ask; HandleExample.reply]
                    (HandleExample.session, HandleExample.world None) in
  tally_messages (tally s') = 2 /\ tally_input (tally s') = 10.
Proof.
  pose proof (messages_read_back HandleExample.same_id (fun _ => None) HandleExample.session (HandleExample.world None)
    [HandleExample.ask; HandleExample.reply] LogExample.opened_sound) as H.
  destruct (fold_left _ _ _) as [s' w']. destruct H as (_ & _ & H1 & H2 & _).
  - cbn [files HandleExample.world length]. unfold last_page. change (sess_id HandleExample.session) with LogExample.sid.
    rewrite LogExample.opened_numbers. vm_compute. discriminate.
  - rewrite H1, H2. split; reflexivity.
Defined.
Lemma compaction_keeps_addresses_witness :
  let '(_, w') := record_compaction HandleExample.same_id 9 "c1" "all of it" 1 40 5 1 None (HandleExample.session, HandleExample.world (Some 0)) in
  exists e', stored w' !! LogExample.sid = Some e' /\ 2 <= pruned_pages (paging e').
Proof.
  pose proof (compaction_keeps_addresses HandleExample.same_id 9 "c1" "all of it" 1 40 5 1 None HandleExample.session
    (HandleExample.world (Some 0)) (HandleExample.entry (Some 0)) 0 None (HandleExample.world_rest (Some 0))) as H.
  destruct (record_compaction _ _ _ _ _ _ _ _ _ _) as [s' w']. destruct H as (e' & He & Hp & _).
  - intros m [=].
  - reflexivity.
  - reflexivity.
  - lia.
  - cbn. lia.
  - apply LogExample.opened_sound.
  - exists e'. split; [exact He|]. rewrite Hp. cbn. lia.
Defined.

(** The handle reports its totals and the index adds them to its own: after
    two replies of ten tokens the index counts thirty. *)
Theorem tokens_counted_twice :
  let '(s, w) := fold_left (run_added HandleExample.same_id) [HandleExample.reply; HandleExample.reply]
                   (HandleExample.session, HandleExample.world None) in
  tally_input (tally s) = 20 /\ total_input_tokens ∘ counts <$> stored w !! LogExample.sid = Some 30.
Proof. vm_compute. done. Qed.

(** A thinking block is given to a system message, which keeps the text blocks
    only: what is stored is empty. *)
Theorem thinking_dropped t sig msg_id ids now s :
  content (sm_message (added_message s {| ad_msg_id := msg_id; ad_ids := ids; ad_now := now; ad_role := "system"; ad_blocks := [];
                                          ad_thinking := Some (t, sig); ad_usage := None |})) = [Text ""].
Proof. reflexivity. Qed.

(** A tool's result is a message while the session is open and none after it
    is opened again. *)
Theorem reopened_count_differs :
  let sw := (HandleExample.session, HandleExample.world None) in
  let '(s, w) := add_tool_result HandleExample.same_id 9 "m1" ("e1", "n1") "call" "read" "done" false sw in
  tally_messages (tally s) = 1 /\
  tally_messages (tally (fst (open_by_id "helper" LogExample.sid (Some HandleExample.alice) w))) = 0.
Proof. vm_compute. done. Qed.
