(* ===== verification/Compactor.v ===== *)
(** * Compactor: summarising a conversation in the background

    The compactor (peko-rs/session/src/compaction/compaction_top.rs,
    summary_format.rs) sends the older part of a history to a model and puts
    its summary in front of the rest; the worker (background.rs) does so one
    request at a time and keeps the quota, the cooldown and the backoff that
    decide whether another may be asked for.  The model's answers are an
    input, one per call; instants are nanoseconds since the epoch; a panic is
    [None].  [usize] counts are unbounded except where the code saturates. *)

From Stdlib Require Import ZArith Lia Ascii.
From stdpp Require Import base tactics list gmap strings.
From S2P Require Import Prelude Text Usage Message Compaction Host SessionLog SessionPages SessionIndex.

Local Open Scope Z_scope.
Open Scope rust_scope.

(** ** Settings and results *)

Record CompactionConfig := {
  enabled : bool;
  auto_threshold_percent : Z;
  reserve_tokens : Z;
  keep_recent_tokens : Z;
  max_compactions_per_session : Z;
  cooldown_seconds : Z;
}.
Definition default_config : CompactionConfig :=
  {| enabled := true; auto_threshold_percent := 85; reserve_tokens := 16384; keep_recent_tokens := 20000;
     max_compactions_per_session := 100; cooldown_seconds := 60 |}.
Record CompactionEntry := {
  ce_timestamp : Z;
  ce_summary : string;
  first_kept_entry_id : string;
  messages_compacted : Z;
  tokens_before : Z;
  tokens_after : Z;
  compaction_number : Z;
  ce_phase : CompactionPhase;
  ce_details : option Json;
}.
Record CompactionState := { performed : Z; total_tokens_saved : Z; last_compaction_at : option Z }.
Record CompactionResult := {
  cr_messages : list (LlmMessage Json);
  cr_entry : CompactionEntry;
  cr_state : CompactionState;
  cr_usage : TokenUsage;
}.
Inductive CompactionResponse :=
  | Completed (r : CompactionResult)
  | NotNeeded
  | Skipped (reason : string)
  | Failed (error : string).
Record CompactionRequest := {
  rq_messages : list (LlmMessage Json);
  rq_previous_summary : option string;
  rq_phase : CompactionPhase;
}.

(** ** File operations *)

Definition no_details : CompactionDetails :=
  {| read_files := []; modified_files := []; image_token_count := 0; phase := PreTurn; user_messages := None |}.
Definition push_new (l : list string) (f : string) : list string := if decide (f ∈ l) then l else l ++ [f].
Definition merge (self other : CompactionDetails) : CompactionDetails :=
  {| read_files := fold_left push_new (read_files other) (read_files self);
     modified_files := fold_left push_new (modified_files other) (modified_files self);
     image_token_count := sat_add_u64 (image_token_count self) (image_token_count other);
     phase := phase other;
     user_messages := or_else (user_messages other) (user_messages self) |}.
Definition path_keys : list string := ["file_path"; "path"; "file"; "target"; "filepath"; "filename"].
Definition extract_path_from_args (args : Json) : option string :=
  head (omap (fun key => as_str (index args key)) path_keys).
Definition image_tokens_of (b : ContentBlock Json) : option Z :=
  match b with Image s mime => Some (Rewrite.estimate_image_tokens s mime) | _ => None end.
Definition stamp_phase (d : CompactionDetails) (p : CompactionPhase) : CompactionDetails :=
  {| read_files := read_files d; modified_files := modified_files d; image_token_count := image_token_count d; phase := p;
     user_messages := user_messages d |}.
Definition with_user_messages (d : CompactionDetails) (ms : list string) : CompactionDetails :=
  {| read_files := read_files d; modified_files := modified_files d; image_token_count := image_token_count d; phase := phase d;
     user_messages := match ms with [] => user_messages d | _ => Some ms end |}.
Definition phase_str (p : CompactionPhase) : string :=
  match p with PreTurn => "pre_turn" | MidTurn => "mid_turn" | StandaloneTurn => "standalone_turn" end.
(** [serde_json::to_value] of the details. *)
Definition details_value (d : CompactionDetails) : Json :=
  JObject ([("read_files", JArray (map JString (read_files d))); ("modified_files", JArray (map JString (modified_files d)));
            ("image_token_count", JNumber (dec (image_token_count d))); ("phase", JString (phase_str (phase d)))]
           ++ match user_messages d with Some ms => [("user_messages", JArray (map JString ms))] | None => [] end).

Section Files.
  (** [str::to_lowercase]. *)
  Context (lower : string -> string).

Definition file_call (b : ContentBlock Json) : option (bool * string) :=
  match b with
  | ToolCall _ name args =>
      path ← extract_path_from_args args;
      let name := lower name in
      Some (negb (contains_any name ["read"; "view"; "grep"; "search"]) && contains_any name ["write"; "edit"; "create"; "modify"], path)
  | _ => None
  end.
Definition add_file (d : CompactionDetails) (op : bool * string) : CompactionDetails :=
  let '(modifies, path) := op in
  {| read_files := if modifies then read_files d else push_new (read_files d) path;
     modified_files := if modifies then push_new (modified_files d) path else modified_files d;
     image_token_count := image_token_count d; phase := phase d; user_messages := user_messages d |}.
Definition scan_message (d : CompactionDetails) (m : LlmMessage Json) : CompactionDetails :=
  let d := {| read_files := read_files d; modified_files := modified_files d;
              image_token_count := fold_left sat_add_u64 (omap image_tokens_of (content m)) (image_token_count d);
              phase := phase d; user_messages := user_messages d |} in
  if bool_decide (role m = Assistant) then fold_left add_file (omap file_call (content m)) d else d.
Definition extract_file_ops_from_messages (ms : list (LlmMessage Json)) : CompactionDetails := fold_left scan_message ms no_details.
Definition compute_cumulative_details (previous : option CompactionDetails) (ms : list (LlmMessage Json)) : CompactionDetails :=
  merge (default no_details previous) (extract_file_ops_from_messages ms).
End Files.

(** ** What the user said *)

Definition PRESERVED_USER_MESSAGES_TOKEN_BUDGET : Z := 20000.
Definition PRESERVED_USER_MESSAGE_MAX_CHARS : nat := 2 * 10 ^ 3.
Definition TRUNCATED : string := "... [truncated]".
Definition take_chars (n : nat) (s : string) : string := concat_text (take n (chars s)).
Definition preserved_text (m : LlmMessage Json) : option string :=
  if bool_decide (role m = User) then
    let text := trim (join_with newline (omap text_of (content m))) in
    if String.eqb text "" || starts_with COMPACTION_SUMMARY_PREFIX text then None
    else Some (if Nat.ltb PRESERVED_USER_MESSAGE_MAX_CHARS (length (chars text))
               then take_chars PRESERVED_USER_MESSAGE_MAX_CHARS text +:+ TRUNCATED else text)
  else None.
Definition preserved_tokens (s : string) : Z := str_len s / CHARS_PER_TOKEN + 4.
(** The texts newest first, and what is kept of them, newest first. *)
Fixpoint keep_texts (budget : Z) (newest_first : list string) : list string :=
  match newest_first with
  | [] => []
  | capped :: older =>
      let tokens := preserved_tokens capped in
      if budget <? tokens then
        let avail := sat_sub_u64 budget 4 * CHARS_PER_TOKEN in
        if 0 <? avail then
          let truncated := trim_end (take_chars (Z.to_nat avail) capped) in
          if String.eqb truncated "" then [] else [truncated +:+ TRUNCATED]
        else []
      else capped :: keep_texts (budget - tokens) older
  end.
Definition collect_preserved_user_messages (region : list (LlmMessage Json)) : list string :=
  rev (keep_texts PRESERVED_USER_MESSAGES_TOKEN_BUDGET (omap preserved_text (rev region))).

(** ** Estimates *)

Record ContextUsageEstimate := { est_tokens : Z; usage_tokens : Z; trailing_tokens : Z; last_usage_index : option nat }.
Definition usage_anchor (m : LlmMessage Json) : option TokenUsage :=
  if bool_decide (role m = Assistant) then usage m else None.
Definition find_last_assistant_usage (ms : list (LlmMessage Json)) : option (TokenUsage * nat) :=
  last (omap (fun '(i, m) => (fun u => (u, i)) <$> usage_anchor m) (imap pair ms)).
Definition estimate_context_tokens (ms : list (LlmMessage Json)) : ContextUsageEstimate :=
  match find_last_assistant_usage ms with
  | Some (u, i) =>
      let used := usage_input u + usage_output u in
      let trailing := estimate_tokens (drop (S i) ms) in
      {| est_tokens := used + trailing; usage_tokens := used; trailing_tokens := trailing; last_usage_index := Some i |}
  | None =>
      let estimated := estimate_tokens ms in
      {| est_tokens := estimated; usage_tokens := 0; trailing_tokens := estimated; last_usage_index := None |}
  end.
Definition should_auto_compact (estimated context_window : Z) (c : CompactionConfig) : bool :=
  enabled c
  && ((context_window * auto_threshold_percent c / 100 <=? estimated)
      || (sat_sub_u64 context_window (reserve_tokens c) <=? estimated)).

(** ** The prompts *)

Definition QUOTE : string := String "034" "".
Definition INITIAL_SUMMARIZATION_PROMPT : string :=
  join_with newline
    ["The messages above are a conversation to summarize. Create a structured context checkpoint summary that another AI will use to continue the work.";
     "";
     "Use this EXACT format:";
     "";
     "## Goal";
     "[What is the user trying to accomplish? Can be multiple items if the session covers different tasks.]";
     "";
     "## Constraints & Preferences";
     "- [Any constraints, preferences, or requirements mentioned by user]";
     "- [Or " +:+ QUOTE +:+ "(none)" +:+ QUOTE +:+ " if none were mentioned]";
     "";
     "## Progress";
     "### Done";
     "- [x] [Completed tasks/changes]";
     "";
     "### In Progress";
     "- [ ] [Current work]";
     "";
     "### Blocked";
     "- [Issues preventing progress, if any]";
     "";
     "## Key Decisions";
     "- **[Decision]**: [Brief rationale]";
     "";
     "## Next Steps";
     "1. [Ordered list of what should happen next]";
     "";
     "## Critical Context";
     "- [Any data, examples, or references needed to continue]";
     "- [Or " +:+ QUOTE +:+ "(none)" +:+ QUOTE +:+ " if not applicable]";
     "";
     "Keep each section concise. Preserve exact file paths, function names, and error messages."].
Definition UPDATE_SUMMARIZATION_PROMPT : string :=
  join_with newline
    ["The messages above are NEW conversation messages to incorporate into the existing summary provided in <previous-summary> tags.";
     "";
     "Update the existing structured summary with new information. RULES:";
     "- PRESERVE all existing information from the previous summary";
     "- ADD new progress, decisions, and context from the new messages";
     "- UPDATE the Progress section: move items from " +:+ QUOTE +:+ "In Progress" +:+ QUOTE +:+ " to " +:+ QUOTE +:+ "Done" +:+ QUOTE +:+ " when completed";
     "- UPDATE " +:+ QUOTE +:+ "Next Steps" +:+ QUOTE +:+ " based on what was accomplished";
     "- PRESERVE exact file paths, function names, and error messages";
     "- If something is no longer relevant, you may remove it";
     "";
     "Use this EXACT format:";
     "";
     "## Goal";
     "[Preserve existing goals, add new ones if the task expanded]";
     "";
     "## Constraints & Preferences";
     "- [Preserve existing, add new ones discovered]";
     "";
     "## Progress";
     "### Done";
     "- [x] [Include previously done items AND newly completed items]";
     "";
     "### In Progress";
     "- [ ] [Current work - update based on progress]";
     "";
     "### Blocked";
     "- [Current blockers - remove if resolved]";
     "";
     "## Key Decisions";
     "- **[Decision]**: [Brief rationale] (preserve all previous, add new)";
     "";
     "## Next Steps";
     "1. [Update based on current state]";
     "";
     "## Critical Context";
     "- [Preserve important context, add new if needed]";
     "";
     "Keep each section concise. Preserve exact file paths, function names, and error messages."].

(** ** Compacting *)

Record Compactor := { config : CompactionConfig; state : CompactionState; previous_summary : option string }.
Definition compactor_with_config (c : CompactionConfig) (previous : option string) : Compactor :=
  {| config := c; state := {| performed := 0; total_tokens_saved := 0; last_compaction_at := None |}; previous_summary := previous |}.
Definition role_label (r : MessageRole) : string :=
  match r with System => "System" | User => "User" | Assistant => "Assistant" | Tool => "Tool" end.
Definition history_block (b : ContentBlock Json) : option string :=
  match b with
  | Text t => Some t
  | ToolCall _ name _ => Some ("[Tool: " +:+ name +:+ "]")
  | Image s mime =>
      let kind := match s with Base64 _ _ => "base64" | Url _ _ => "url" end in
      Some ("[image: mime=" +:+ mime +:+ ", kind=" +:+ kind +:+ ", ~" +:+ dec (Rewrite.estimate_image_tokens s mime) +:+ " tokens]")
  | _ => None
  end.
(** [&content[..500]] panics inside a character. *)
Definition PROMPT_CAP : nat := 5 * 10 ^ 2.
Definition history_line (m : LlmMessage Json) : option string :=
  let content := join_with " " (omap history_block (content m)) in
  display ← (if Nat.ltb PROMPT_CAP (String.length content)
             then if is_char_boundary content PROMPT_CAP then Some (take_bytes PROMPT_CAP content +:+ TRUNCATED) else None
             else Some content);
  Some (role_label (role m) +:+ ": " +:+ display +:+ newline +:+ newline).
Definition format_history_for_summary (ms : list (LlmMessage Json)) : option string := concat_text <$> mapM history_line ms.

(** The model: what it answers to the prompt of the [n]-th call. *)
Definition Chat : Type := nat -> string -> result (list (ContentBlock Json) * TokenUsage) string.
Definition summary_prompt (previous : option string) (history : string) : string :=
  let base := match previous with
              | Some prev => "<previous-summary>" +:+ newline +:+ prev +:+ newline +:+ "</previous-summary>" +:+ newline +:+ newline
                               +:+ UPDATE_SUMMARIZATION_PROMPT
              | None => INITIAL_SUMMARIZATION_PROMPT
              end in
  "<conversation>" +:+ newline +:+ history +:+ newline +:+ "</conversation>" +:+ newline +:+ newline +:+ base.
(** The fallback counts [messages], which is then the list of the one prompt. *)
Definition fallback_summary (previous : option string) : string :=
  let sent := dec 1 in
  match previous with
  | Some prev => prev +:+ newline +:+ newline +:+ "[Note: " +:+ sent +:+ " new messages not incorporated]"
  | None => "[" +:+ sent +:+ " messages summarized - conversation history]"
  end.
Definition generate_summary_with_llm (chat : Chat) (n : nat) (previous : option string) (ms : list (LlmMessage Json))
    : option (result (string * TokenUsage) string) :=
  history ← format_history_for_summary ms;
  Some (match chat n (summary_prompt previous history) with
        | Err _ => Err "Failed to generate compaction summary"
        | Ok (answer, u) =>
            let summary := concat_text (omap text_of answer) in
            Ok (if String.eqb summary "" then fallback_summary previous else summary, u)
        end).

Definition zero_usage : TokenUsage :=
  {| usage_input := 0; usage_output := 0; usage_total := 0; usage_cache_creation := None; usage_cache_read := None; usage_reasoning := None |}.
(** The initial system prompt and the conversation. *)
Definition split_system (ms : list (LlmMessage Json)) : list (LlmMessage Json) * list (LlmMessage Json) :=
  match ms with
  | m :: rest => if bool_decide (role m = System) then ([m], rest) else ([], ms)
  | [] => ([], [])
  end.
(** The summary of what is compacted, and what its calls used. *)
Definition summarize (chat : Chat) (previous : option string) (conversation to_compact to_keep : list (LlmMessage Json))
    (is_split_turn : bool) : option (result (string * TokenUsage) string) :=
  if is_split_turn && negb (bool_decide (to_compact = [])) then
    let turn_prefix := default [] (Boundaries.extract_turn_prefix conversation (length conversation - length to_keep)) in
    first ← generate_summary_with_llm chat 0 previous to_compact;
    match first with
    | Err e => Some (Err e)
    | Ok (history_text, history_usage) =>
        if bool_decide (turn_prefix = []) then Some (Ok (history_text, accumulate zero_usage history_usage))
        else
          second ← generate_summary_with_llm chat 1 previous turn_prefix;
          Some (match second with
                | Err e => Err e
                | Ok (text, u) =>
                    Ok (if String.eqb text "" then history_text
                        else history_text +:+ newline +:+ newline +:+ "---" +:+ newline +:+ newline
                               +:+ "**Turn Context (split turn):**" +:+ newline +:+ newline +:+ text,
                        accumulate (accumulate zero_usage history_usage) u)
                end)
    end
  else
    r ← generate_summary_with_llm chat 0 previous to_compact;
    Some (match r with Err e => Err e | Ok (text, u) => Ok (text, accumulate zero_usage u) end).
Definition summary_text (compacted : nat) (summary : string) (d : CompactionDetails) : string :=
  COMPACTION_SUMMARY_PREFIX +:+ " - " +:+ nat_text compacted +:+ " messages]:" +:+ newline +:+ format_summary_with_file_ops summary d.
Definition live_summary (now : Z) (text : string) : LlmMessage Json :=
  {| role := System; content := [Text text]; timestamp := now; metadata := ∅; tool_call_id := None; usage := None |}.

Section Compacting.
  Context (lower : string -> string).

Definition region_details (ph : CompactionPhase) (to_compact dropped : list (LlmMessage Json)) : CompactionDetails :=
  with_user_messages (stamp_phase (compute_cumulative_details lower None to_compact) ph) (collect_preserved_user_messages dropped).
Definition compact (chat : Chat) (now : Z) (c : Compactor) (ms : list (LlmMessage Json)) (ph : CompactionPhase)
    : option (result (CompactionResult * Compactor) string) :=
  if Nat.ltb (length ms) 4 then
    Some (Err ("Not enough messages to compact (need at least 4, got " +:+ nat_text (length ms) +:+ ")"))
  else
    let before := estimate_tokens ms in
    let '(initial, conversation) := split_system ms in
    let '(to_compact, to_keep, is_split_turn) :=
      Boundaries.select_messages_respecting_boundaries conversation (keep_recent_tokens (config c)) in
    if bool_decide (to_compact = []) && negb is_split_turn then
      Some (Err "No messages selected for compaction (conversation too short)")
    else
      r ← summarize chat (previous_summary c) conversation to_compact to_keep is_split_turn;
      Some (match r with
            | Err e => Err e
            | Ok (summary, u) =>
                let d := region_details ph to_compact (take (length conversation - length to_keep) conversation) in
                let compacted := initial ++ live_summary now (summary_text (length to_compact) summary d) :: to_keep in
                let after := estimate_tokens compacted in
                let st := {| performed := performed (state c) + 1;
                             total_tokens_saved := total_tokens_saved (state c) + sat_sub_u64 before after;
                             last_compaction_at := Some now |} in
                Ok ({| cr_messages := compacted;
                       cr_entry := {| ce_timestamp := now; ce_summary := summary;
                                      first_kept_entry_id := "kept_" +:+ nat_text (length to_keep);
                                      messages_compacted := Z.of_nat (length to_compact); tokens_before := before;
                                      tokens_after := after; compaction_number := performed st; ce_phase := ph;
                                      ce_details := Some (details_value d) |};
                       cr_state := st; cr_usage := u |},
                    {| config := config c; state := st; previous_summary := Some summary |})
            end).
End Compacting.

(** ** The worker *)

Record WorkerState := {
  last_attempt : option Z;
  worker_count : Z;
  worker_consecutive_auto : Z;
  worker_failures : Z;
  is_compacting : bool;
}.
Definition fresh_worker : WorkerState :=
  {| last_attempt := None; worker_count := 0; worker_consecutive_auto := 0; worker_failures := 0; is_compacting := false |}.
(** [max_consecutive_auto] of the default quota. *)
Definition MAX_CONSECUTIVE_AUTO : Z := 5.
Definition MAX_FAILURE_BACKOFF_SECONDS : Z := 15 * 60.
Definition failure_backoff_seconds (cooldown failures : Z) : Z :=
  Z.min (Z.min (cooldown * 2 ^ Z.min failures 10) u64_max) MAX_FAILURE_BACKOFF_SECONDS.
Definition NANOS : Z := 10 ^ 9.
(** [elapsed().unwrap_or(ZERO).as_secs()]. *)
Definition elapsed_secs (now last : Z) : Z := Z.max (now - last) 0 / NANOS.
Definition cooled_down (now : Z) (c : CompactionConfig) (w : WorkerState) : bool :=
  match last_attempt w with
  | Some last => failure_backoff_seconds (cooldown_seconds c) (worker_failures w) <=? elapsed_secs now last
  | None => true
  end.
Definition should_request (now : Z) (w : WorkerState) (estimated context_window : Z) (c : CompactionConfig) : bool :=
  should_auto_compact estimated context_window c
  && (worker_count w <? max_compactions_per_session c)
  && cooled_down now c w
  && negb (is_compacting w)
  && (worker_consecutive_auto w <? MAX_CONSECUTIVE_AUTO).
Definition reset_consecutive (w : WorkerState) : WorkerState :=
  {| last_attempt := last_attempt w; worker_count := worker_count w; worker_consecutive_auto := 0;
     worker_failures := worker_failures w; is_compacting := is_compacting w |}.
Definition MS : Z := 10 ^ 6.
Definition hydrate_limits_state (p : CompactionLimitsState) (w : WorkerState) : WorkerState :=
  {| last_attempt := (fun ms => ms * MS) <$> last_compaction_at_ms p; worker_count := compaction_count p;
     worker_consecutive_auto := consecutive_auto p; worker_failures := consecutive_failures p;
     is_compacting := is_compacting w |}.
Definition limits_state (w : WorkerState) : CompactionLimitsState :=
  {| compaction_count := Z.min (worker_count w) u32_max;
     last_compaction_at_ms := t ← last_attempt w; if t <? 0 then None else Some (Z.min (t / MS) u64_max);
     consecutive_auto := Z.min (worker_consecutive_auto w) u32_max;
     consecutive_failures := worker_failures w |}.

Definition set_compacting (b : bool) (w : WorkerState) : WorkerState :=
  {| last_attempt := last_attempt w; worker_count := worker_count w; worker_consecutive_auto := worker_consecutive_auto w;
     worker_failures := worker_failures w; is_compacting := b |}.
Definition renumbered (n : Z) (r : CompactionResult) : CompactionResult :=
  let e := cr_entry r in
  {| cr_messages := cr_messages r;
     cr_entry := {| ce_timestamp := ce_timestamp e; ce_summary := ce_summary e; first_kept_entry_id := first_kept_entry_id e;
                    messages_compacted := messages_compacted e; tokens_before := tokens_before e; tokens_after := tokens_after e;
                    compaction_number := n; ce_phase := ce_phase e; ce_details := ce_details e |};
     cr_state := {| performed := n; total_tokens_saved := total_tokens_saved (cr_state r);
                    last_compaction_at := last_compaction_at (cr_state r) |};
     cr_usage := cr_usage r |}.
(** [process_compaction_request_with_config] once it has marked the worker as
    compacting: the answer, or [None] when it panics; the mark is cleared by a
    task of its own. *)
Definition process_compaction_request (lower : string -> string) (chat : Chat) (now : Z) (c : CompactionConfig)
    (rq : CompactionRequest) (w : WorkerState) : option (CompactionResponse * WorkerState) :=
  if Nat.ltb (length (rq_messages rq)) 4 then Some (NotNeeded, w)
  else
    r ← compact lower chat now (compactor_with_config c (rq_previous_summary rq)) (rq_messages rq) (rq_phase rq);
    Some (match r with
          | Ok (res, _) =>
              let n := worker_count w + 1 in
              (Completed (renumbered n res),
               {| last_attempt := Some now; worker_count := n; worker_consecutive_auto := worker_consecutive_auto w + 1;
                  worker_failures := 0; is_compacting := is_compacting w |})
          | Err e =>
              (Failed e,
               {| last_attempt := Some now; worker_count := worker_count w; worker_consecutive_auto := worker_consecutive_auto w;
                  worker_failures := worker_failures w + 1; is_compacting := is_compacting w |})
          end).

(** ** Lemmas *)

Lemma wire_system (m : LlmMessage Json) ms : role m = System -> wire_ok (m :: ms) -> wire_ok ms.
Proof. intros Hr Hw. inversion Hw; [done|congruence]. Qed.
Lemma wire_summary now text ms : wire_ok ms -> wire_ok (live_summary now text :: ms).
Proof. intros Hw. by apply wire_plain. Qed.

Lemma preserved_tokens_pos s : 0 <= preserved_tokens s.
Proof. unfold preserved_tokens. pose proof (Z.div_pos (str_len s) CHARS_PER_TOKEN). unfold str_len, CHARS_PER_TOKEN in *. lia. Qed.
Lemma keep_texts_spec budget texts : 0 <= budget ->
  exists k cut, keep_texts budget texts = take k texts ++ option_list cut /\
    foldr Z.add 0 (map preserved_tokens (take k texts)) <= budget /\
    match cut with
    | None => True
    | Some c => exists t n, texts !! k = Some t /\ c = trim_end (take_chars n t) +:+ TRUNCATED
    end /\
    ((k < length texts)%nat -> budget < foldr Z.add 0 (map preserved_tokens (take (S k) texts))).
Proof.
  revert budget. induction texts as [|t texts IH]; intros budget Hb; cbn [keep_texts].
  { exists 0%nat, None. cbn. split_and!; done || lia. }
  pose proof (preserved_tokens_pos t) as Hp.
  destruct (Z.ltb_spec budget (preserved_tokens t)) as [Hlt|Hle].
  - assert (Hover : budget < foldr Z.add 0 (map preserved_tokens (take 1 (t :: texts)))) by (cbn [take]; rewrite take_0; cbn [map foldr]; lia).
    destruct (0 <? _) eqn:E1; [destruct (String.eqb _ "") eqn:E2|].
    + exists 0%nat, None. rewrite take_0. by split_and!.
    + exists 0%nat, (Some (trim_end (take_chars (Z.to_nat (sat_sub_u64 budget 4 * CHARS_PER_TOKEN)) t) +:+ TRUNCATED)).
      rewrite take_0. split_and!; [done..|by eexists _, _|done].
    + exists 0%nat, None. rewrite take_0. by split_and!.
  - destruct (IH (budget - preserved_tokens t)) as (k & cut & E & Hs & Hc & Ho); [lia|].
    exists (S k), cut. cbn [take app map foldr length]. rewrite E. split_and!; [done|lia|exact Hc|].
    intros Hk. specialize (Ho ltac:(lia)). cbn [take map foldr] in Ho |- *. lia.
Qed.

Lemma omap_rev {A B} (f : A -> option B) l : omap f (rev l) = rev (omap f l).
Proof.
  induction l as [|x l IH]; [done|]. cbn [rev omap list_omap]. rewrite omap_app, IH. cbn [omap list_omap].
  destruct (f x); [done|]. by rewrite app_nil_r.
Qed.
Lemma sum_rev l : foldr Z.add 0 (rev l) = foldr Z.add 0 l.
Proof. apply sumZ_perm. symmetry. apply Permutation_rev. Qed.

(** Images are counted within [usize]. *)
Lemma f64_ceil_pos a : 0 <= f64_ceil_usize a.
Proof.
  pose proof u64_max_pos. destruct a as [s|s| |[] m e]; cbn; try destruct s; try lia. destruct (Z.leb_spec 0 e); [lia|].
  assert (((- Z.pos m) / 2 ^ (- e)) <= 0); [|lia]. apply Z.div_le_upper_bound; lia.
Qed.
Lemma image_tokens_pos s mime : 0 <= Rewrite.estimate_image_tokens s mime.
Proof.
  unfold Rewrite.estimate_image_tokens. destruct (Rewrite.image_dimensions s) as [d|]; [destruct (_ && _) eqn:E|].
  - unfold high_detail_tokens. apply Z.div_pos; [|done]. rewrite andb_true_iff, !Z.ltb_lt in E. nia.
  - destruct s; [apply f64_ceil_pos|]. unfold Rewrite.mime_type_token_floor. repeat case_decide; lia.
  - destruct s; [apply f64_ceil_pos|]. unfold Rewrite.mime_type_token_floor. repeat case_decide; lia.
Qed.
Definition counts_images (d : CompactionDetails) : Prop := is_u64 (image_token_count d).
Lemma fold_images_range bs a : is_u64 a -> is_u64 (fold_left sat_add_u64 (omap image_tokens_of bs) a).
Proof.
  revert a. induction bs as [|b bs IH]; intros a Ha; [done|]. destruct b as [|s mime| | | | |]; csimpl; try by apply IH.
  apply IH. unfold is_u64, sat_add_u64 in *. pose proof (image_tokens_pos s mime). pose proof u64_max_pos. lia.
Qed.
Lemma scan_counts lower d m : counts_images d -> counts_images (scan_message lower d m).
Proof.
  intros Hd. unfold scan_message. set (d1 := {| read_files := _ |}). assert (H1 : counts_images d1) by (by apply fold_images_range).
  case_bool_decide; [|done]. clearbody d1. generalize (omap (file_call lower) (content m)). intros l. revert d1 H1.
  induction l as [|[b p] l IH]; intros d1 H1; [done|]. by apply IH.
Qed.
Lemma region_counts lower ph to_compact dropped : counts_images (region_details lower ph to_compact dropped).
Proof.
  assert (H : counts_images (extract_file_ops_from_messages lower to_compact)).
  { unfold extract_file_ops_from_messages. assert (H0 : counts_images no_details) by (unfold counts_images, is_u64; cbn; pose proof u64_max_pos; lia).
    revert H0. generalize no_details. induction to_compact as [|m ms IH]; intros d Hd; [done|]. cbn [fold_left]. by apply IH, scan_counts. }
  unfold counts_images, region_details, with_user_messages, stamp_phase, compute_cumulative_details, merge in *. cbn [image_token_count default no_details].
  unfold is_u64, sat_add_u64 in *. cbn. pose proof u64_max_pos. lia.
Qed.

(** What a compaction puts into its list and its entry. *)
Lemma compact_result lower chat now c ms ph res c' : compact lower chat now c ms ph = Some (Ok (res, c')) ->
  exists k summary d kept, cr_messages res = fst (split_system ms) ++ live_summary now (summary_text k summary d) :: kept /\
    (k <= length ms)%nat /\ messages_compacted (cr_entry res) = Z.of_nat k /\ ce_summary (cr_entry res) = summary /\
    ce_details (cr_entry res) = Some (details_value d) /\ counts_images d.
Proof.
  unfold compact. destruct (Nat.ltb _ _); [done|]. destruct (split_system ms) as [initial conversation] eqn:Es.
  assert (Hl : (length conversation <= length ms)%nat).
  { destruct ms as [|m rest]; [by injection Es as <- <-|]. unfold split_system in Es. case_bool_decide; injection Es as <- <-; cbn; lia. }
  unfold Boundaries.select_messages_respecting_boundaries. destruct (Nat.ltb _ _) eqn:El.
  - cbn [bool_decide decide negb andb]. done.
  - destruct (_ && _); [done|]. destruct (summarize _ _ _ _ _ _) as [[[summary u]|e]|]; [|done|done]. cbn [mbind option_bind].
    intros [= <- <-]. eexists (length _), summary, _, _. cbn. split_and!; [reflexivity| |reflexivity..|apply region_counts]. rewrite length_take. lia.
Qed.

Lemma compact_phase lower chat now c ms ph res c' : compact lower chat now c ms ph = Some (Ok (res, c')) -> ce_phase (cr_entry res) = ph.
Proof.
  unfold compact. destruct (Nat.ltb _ _); [done|]. destruct (split_system ms) as [initial conversation].
  destruct (Boundaries.select_messages_respecting_boundaries _ _) as [[to_compact to_keep] split]. destruct (_ && _); [done|].
  destruct (summarize _ _ _ _ _ _) as [[[summary u]|e]|]; [|done|done]. cbn [mbind option_bind]. by intros [= <- <-].
Qed.

(** ** Theorems *)

(** C28. A compaction that succeeds gives the initial system prompt, one summary and
    the end of the conversation as it was, of at least two messages and not
    beginning with a tool result unless the conversation does; everything else,
    and nothing else, is counted as compacted; and a history of provider shape
    keeps it. *)
Theorem compaction_keeps_tail lower chat now c ms ph res c' :
  compact lower chat now c ms ph = Some (Ok (res, c')) ->
  let '(initial, conversation) := split_system ms in
  exists n text, cr_messages res = initial ++ live_summary now text :: drop n conversation /\
    starts_with COMPACTION_SUMMARY_PREFIX text = true /\
    messages_compacted (cr_entry res) = Z.of_nat n /\ (n + 2 <= length conversation)%nat /\
    (forall m, conversation !! n = Some m -> n <> 0%nat -> role m <> Tool) /\
    (wire_ok ms -> wire_ok (cr_messages res)).
Proof.
  unfold compact. destruct (Nat.ltb_spec (length ms) 4) as [|Hlen]; [done|]. destruct (split_system ms) as [initial conversation] eqn:Es.
  assert (Hms : ms = initial ++ conversation /\ (3 <= length conversation)%nat /\ (initial = [] \/ exists m, initial = [m] /\ role m = System)).
  { destruct ms as [|m rest]; [cbn in Hlen; lia|]. unfold split_system in Es. case_bool_decide; injection Es as <- <-; cbn in Hlen.
    - split_and!; [done|lia|right; eauto].
    - split_and!; [done|cbn; lia|by left]. }
  destruct Hms as (Hms & Hconv & Hinit). unfold Boundaries.select_messages_respecting_boundaries.
  destruct (Nat.ltb_spec (length conversation) 3); [lia|]. set (n := Boundaries.split_point conversation _).
  pose proof (Boundaries.split_point_bound conversation (keep_recent_tokens (config c)) Hconv) as Hb. fold n in Hb.
  destruct (_ && _); [done|]. destruct (summarize _ _ _ _ _ _) as [[[summary u]|e]|]; [|done|done]. cbn [mbind option_bind].
  intros [= <- <-]. exists n. eexists. cbn [cr_messages cr_entry messages_compacted]. split_and!; [reflexivity| |by rewrite length_take_le by lia|lia| |].
  - apply starts_with_true. eexists. reflexivity.
  - intros m Hm. by apply (Boundaries.split_point_not_tool conversation (keep_recent_tokens (config c))).
  - rewrite Hms. intros Hw. destruct Hinit as [->|(m & -> & Hm)]; cbn [app] in *.
    + apply wire_summary. apply (Boundaries.wire_ok_split conversation n Hw). intros m Hm. by apply (Boundaries.split_point_not_tool conversation (keep_recent_tokens (config c))).
    + inversion Hw as [|? ? ? ? ? ? Hw'|]; [subst|congruence]. apply wire_plain; [done..|]. apply wire_summary.
      apply (Boundaries.wire_ok_split conversation n Hw'). intros m' Hm'. by apply (Boundaries.split_point_not_tool conversation (keep_recent_tokens (config c))).
Qed.

(** What the user said in the dropped region is kept from the newest message
    backwards for as long as it fits the budget; the first that does not fit
    may be kept shortened, and nothing before it is. *)
Theorem preserved_newest_first region :
  let texts := omap preserved_text region in
  let tokens l := foldr Z.add 0 (map preserved_tokens l) in
  exists k cut, collect_preserved_user_messages region = option_list cut ++ drop k texts /\
    tokens (drop k texts) <= PRESERVED_USER_MESSAGES_TOKEN_BUDGET /\
    match cut with
    | None => True
    | Some c => exists t n, texts !! (k - 1)%nat = Some t /\ (0 < k)%nat /\ c = trim_end (take_chars n t) +:+ TRUNCATED
    end /\
    ((0 < k)%nat -> (k <= length texts)%nat -> PRESERVED_USER_MESSAGES_TOKEN_BUDGET < tokens (drop (k - 1) texts)).
Proof.
  cbv zeta. unfold collect_preserved_user_messages. rewrite omap_rev. set (texts := omap preserved_text region).
  destruct (keep_texts_spec PRESERVED_USER_MESSAGES_TOKEN_BUDGET (rev texts)) as (k & cut & E & Hs & Hc & Ho); [vm_compute; discriminate|].
  rewrite E, rev_app_distr. rewrite length_rev in Ho.
  assert (Ht : forall j, rev (take j (rev texts)) = drop (length texts - j) texts).
  { intros j. rewrite firstn_rev, rev_involutive. done. }
  assert (Hsum : forall j, foldr Z.add 0 (map preserved_tokens (take j (rev texts))) = foldr Z.add 0 (map preserved_tokens (drop (length texts - j) texts))).
  { intros j. rewrite <- Ht, map_rev, sum_rev. done. }
  rewrite Hsum in Hs. exists (length texts - k)%nat, cut. split_and!.
  - rewrite Ht. f_equal. by destruct cut.
  - done.
  - destruct cut as [c|]; [|done]. destruct Hc as (t & n & Hl & ->). exists t, n.
    assert (Hk : (k < length texts)%nat) by (apply lookup_lt_Some in Hl; by rewrite length_rev in Hl).
    split_and!; [|lia|done]. rewrite rev_alt in Hl. change (rev_append texts []) with (reverse texts) in Hl. rewrite reverse_lookup in Hl by done.
    by replace (length texts - k - 1)%nat with (length texts - S k)%nat by lia.
  - intros H1 H2. specialize (Ho ltac:(lia)). rewrite Hsum in Ho. by replace (length texts - k - 1)%nat with (length texts - S k)%nat by lia.
Qed.

(** ** Examples *)

Module CompactorExample.
Definition said (r : MessageRole) (t : string) : LlmMessage Json :=
  {| role := r; content := [Text t]; timestamp := 1; metadata := ∅; tool_call_id := None; usage := None |}.
Definition talk : list (LlmMessage Json) :=
  [said System "You are helpful."; said User "hi"; said Assistant "hello"; said User "and now?"; said Assistant "done"].
Definition so_far : Chat := fun _ _ => Ok ([Text "so far"], zero_usage).
Definition silent : Chat := fun _ _ => Ok ([], zero_usage).
Definition same (s : string) : string := s.
(** Settings that keep the last two messages. *)
Definition short_memory : CompactionConfig :=
  {| enabled := true; auto_threshold_percent := 85; reserve_tokens := 16384; keep_recent_tokens := 0;
     max_compactions_per_session := 100; cooldown_seconds := 3600 |}.
Fixpoint repeat_text (n : nat) (s : string) : string := match n with O => "" | S n => s +:+ repeat_text n s end.
Definition e_acute : string := String "195" (String "169" "").
End CompactorExample.

Lemma compaction_keeps_tail_witness :
  match compact CompactorExample.same CompactorExample.so_far 7 (compactor_with_config CompactorExample.short_memory None) CompactorExample.talk PreTurn with
  | Some (Ok (res, _)) => exists n, messages_compacted (cr_entry res) = Z.of_nat n /\ (n + 2 <= 4)%nat
  | _ => False
  end.
Proof.
  destruct (compact _ _ _ _ _ _) as [[[res c']|e]|] eqn:E; [|vm_compute in E; discriminate..].
  pose proof (compaction_keeps_tail CompactorExample.same CompactorExample.so_far 7 (compactor_with_config CompactorExample.short_memory None)
    CompactorExample.talk PreTurn res c' E) as H. cbn [split_system CompactorExample.talk] in H.
  change (bool_decide (role (CompactorExample.said System "You are helpful.") = System)) with true in H. cbv iota in H.
  destruct H as (n & text & _ & _ & Hn & Hl & _). exists n. split; [exact Hn|exact Hl].
Defined.

(** A configured cooldown above a quarter of an hour is cut to it, failures or
    not. *)
Theorem backoff_caps_cooldown : failure_backoff_seconds 3600 0 = 900.
Proof. reflexivity. Qed.

(** A message with a character of two bytes across byte five hundred cannot be
    put into the prompt: the task panics. *)
Theorem prompt_slice_panics :
  format_history_for_summary
    [CompactorExample.said User (CompactorExample.repeat_text 499 "a" +:+ CompactorExample.e_acute +:+ "b")] = None.
Proof. vm_compute. reflexivity. Qed.

(** The fallback for an empty answer counts the prompt, not what it was to
    summarise. *)
Theorem fallback_counts_the_prompt :
  generate_summary_with_llm CompactorExample.silent 0 None CompactorExample.talk
  = Some (Ok ("[1 messages summarized - conversation history]", zero_usage)).
Proof. vm_compute. reflexivity. Qed.

(** A history that fits what is kept is compacted all the same: nothing is
    dropped, the model is asked to summarise nothing, and the history grows. *)
Theorem nothing_compacted_succeeds :
  match compact CompactorExample.same CompactorExample.so_far 7 (compactor_with_config default_config None) CompactorExample.talk StandaloneTurn with
  | Some (Ok (res, _)) => messages_compacted (cr_entry res) = 0 /\ length (cr_messages res) = 6%nat
  | _ => False
  end.
Proof. vm_compute. done. Qed.

(** A text shortened to what the budget leaves is counted in characters and
    takes more than that. *)
Theorem shortened_text_over_budget :
  match keep_texts 8 [CompactorExample.repeat_text 20 CompactorExample.e_acute] with
  | [kept] => 8 < preserved_tokens kept
  | _ => False
  end.
Proof. vm_compute. done. Qed.
