(* ===== verification/CompactionDriver.v ===== *)
(** * CompactionDriver: compaction within the agentic loop

    The driver of peko-rs/engine/src/compaction_driver.rs asks the background
    worker of [Compactor] for a compaction when the context fills up, goes on
    with the turn while the worker summarises, and installs the result when it
    finds it: the boundary goes to the session, the quota state to its index
    entry, the compacted list replaces the history of the run.  The session is
    the interface [SessionView] (peko-rs/session/src/session_core.rs) with what
    the driver relies on ([SessionViewLaws]); [SessionHandle]'s session is the
    instance.  Driver, worker and the loop's own writes interleave as the steps
    of a relation.  [reset] and the context cache, which nothing reads back
    here, are left out. *)

From Stdlib Require Import ZArith Lia Ascii.
From stdpp Require Import base tactics list gmap strings relations.
From S2P Require Import Prelude Text Usage Subject ActingFor Message Compaction Host SessionLog SessionPages SessionIndex SessionHandle Compactor.

Local Open Scope Z_scope.
Open Scope rust_scope.

(** ** The session, as the driver sees it *)

Class SessionView (S : Type) := {
  view_last_total : S -> Z;
  view_limits : Z -> S -> CompactionLimitsState * S;
  view_store_limits : Z -> CompactionLimitsState -> S -> S;
  view_previous_summary : S -> option string * S;
  view_record : Z -> string -> CompactionEntry -> S -> S;
  view_footer : S -> option string * S;
}.

(** ** The driver *)

(** The receiver of an answer, with where its request is: in the channel, with
    the worker, answered, or dropped by a worker that died. *)
Inductive Pending :=
  | Queued (rq : CompactionRequest)
  | Running (rq : CompactionRequest)
  | Answered (resp : CompactionResponse)
  | Closed.
Record Driver := {
  driver_config : CompactionConfig;
  context_window : Z;
  pending_compaction : option Pending;
  compaction_performed : bool;
  last_compaction_result : option CompactionResult;
  last_compaction_usage : option TokenUsage;
  limits_state_hydrated : bool;
  force_compact_once : bool;
}.
(** A run: its driver, its worker and whether that is alive, its history and
    its session. *)
Record Run (S : Type) := {
  driver : Driver;
  worker : WorkerState;
  worker_alive : bool;
  messages : list (LlmMessage Json);
  session : S;
}.
Arguments driver {S} _.
Arguments worker {S} _.
Arguments worker_alive {S} _.
Arguments messages {S} _.
Arguments session {S} _.
Arguments Build_Run {S} _ _ _ _ _.

Definition driver_new (c : CompactionConfig) (window : Z) (force : bool) : Driver :=
  {| driver_config := c; context_window := window; pending_compaction := None; compaction_performed := false;
     last_compaction_result := None; last_compaction_usage := None; limits_state_hydrated := false; force_compact_once := force |}.
Definition set_pending (p : option Pending) (d : Driver) : Driver :=
  {| driver_config := driver_config d; context_window := context_window d; pending_compaction := p;
     compaction_performed := compaction_performed d; last_compaction_result := last_compaction_result d;
     last_compaction_usage := last_compaction_usage d; limits_state_hydrated := limits_state_hydrated d;
     force_compact_once := force_compact_once d |}.
Definition set_flags (hydrated force : bool) (d : Driver) : Driver :=
  {| driver_config := driver_config d; context_window := context_window d; pending_compaction := pending_compaction d;
     compaction_performed := compaction_performed d; last_compaction_result := last_compaction_result d;
     last_compaction_usage := last_compaction_usage d; limits_state_hydrated := hydrated; force_compact_once := force |}.
Definition set_performed (done : bool) (r : option CompactionResult) (u : option TokenUsage) (d : Driver) : Driver :=
  {| driver_config := driver_config d; context_window := context_window d; pending_compaction := pending_compaction d;
     compaction_performed := done; last_compaction_result := r; last_compaction_usage := u;
     limits_state_hydrated := limits_state_hydrated d; force_compact_once := force_compact_once d |}.
Definition with_messages (r : CompactionResult) (ms : list (LlmMessage Json)) : CompactionResult :=
  {| cr_messages := ms; cr_entry := cr_entry r; cr_state := cr_state r; cr_usage := cr_usage r |}.

(** The footer goes to the first text of a system message that begins like a
    summary. *)
Fixpoint footer_blocks (footer : string) (bs : list (ContentBlock Json)) : option (list (ContentBlock Json)) :=
  match bs with
  | [] => None
  | b :: bs =>
      match b with
      | Text t => if starts_with COMPACTION_SUMMARY_PREFIX t then Some (Text (t +:+ newline +:+ newline +:+ footer) :: bs)
                  else cons b <$> footer_blocks footer bs
      | _ => cons b <$> footer_blocks footer bs
      end
  end.
Definition with_blocks (m : LlmMessage Json) (bs : list (ContentBlock Json)) : LlmMessage Json :=
  {| role := role m; content := bs; timestamp := timestamp m; metadata := metadata m; tool_call_id := tool_call_id m; usage := usage m |}.
Fixpoint append_archived_pages_footer (footer : string) (ms : list (LlmMessage Json)) : list (LlmMessage Json) :=
  match ms with
  | [] => []
  | m :: rest =>
      match (if bool_decide (role m = System) then footer_blocks footer (content m) else None) with
      | Some bs => with_blocks m bs :: rest
      | None => m :: append_archived_pages_footer footer rest
      end
  end.

(** [EnvironmentSnapshot]. *)
Definition render_markdown (runtime_environment : string) : string :=
  "## Environment Snapshot" +:+ newline +:+ newline +:+ "- **Runtime**: "
    +:+ (if String.eqb runtime_environment "" then "(unknown)" else runtime_environment) +:+ newline.
Definition to_system_message (now : Z) (env : string) : LlmMessage Json :=
  {| role := System; content := [Text (render_markdown env)]; timestamp := now; metadata := ∅; tool_call_id := None; usage := None |}.
(** [messages.iter().rposition(..)]. *)
Definition last_user_index (ms : list (LlmMessage Json)) : option nat :=
  last (omap (fun '(i, m) => if bool_decide (role m = User) then Some i else None) (imap pair ms)).
Definition splice_snapshot (snapshot : LlmMessage Json) (ms : list (LlmMessage Json)) : list (LlmMessage Json) :=
  let i := default 0%nat (last_user_index ms) in take i ms ++ snapshot :: drop i ms.

Section Driving.
  Context {S : Type} `{V : !SessionView S}.

Definition put_driver (d : Driver) (r : Run S) : Run S := Build_Run d (worker r) (worker_alive r) (messages r) (session r).
Definition put_session (s : S) (r : Run S) : Run S := Build_Run (driver r) (worker r) (worker_alive r) (messages r) s.
Definition put_worker (w : WorkerState) (r : Run S) : Run S := Build_Run (driver r) w (worker_alive r) (messages r) (session r).
Definition put_messages (ms : list (LlmMessage Json)) (r : Run S) : Run S := Build_Run (driver r) (worker r) (worker_alive r) ms (session r).

Definition ensure_limits_state_hydrated (now : Z) (r : Run S) : Run S :=
  if limits_state_hydrated (driver r) then r
  else
    let '(l, s) := view_limits now (session r) in
    Build_Run (set_flags true (force_compact_once (driver r)) (driver r)) (hydrate_limits_state l (worker r)) (worker_alive r) (messages r) s.
Definition sync_limits_state_to_session (now : Z) (r : Run S) : Run S :=
  put_session (view_store_limits now (limits_state (worker r)) (session r)) r.
(** A request to a worker that died fails and is logged. *)
Definition start_compaction (ph : CompactionPhase) (r : Run S) : Run S :=
  let '(previous, s) := view_previous_summary (session r) in
  let rq := {| rq_messages := messages r; rq_previous_summary := previous; rq_phase := ph |} in
  let r := put_session s r in
  if worker_alive r then put_driver (set_pending (Some (Queued rq)) (driver r)) r else r.
(** One look at the receiver; an answer that is not there yet times out. *)
Definition install (now : Z) (entry_id : string) (res : CompactionResult) (r : Run S) : Run S :=
  let r := put_session (view_record now entry_id (cr_entry res) (session r)) r in
  let r := sync_limits_state_to_session now r in
  let '(footer, s) := view_footer (session r) in
  let ms := match footer with Some f => append_archived_pages_footer f (cr_messages res) | None => cr_messages res end in
  let res := with_messages res ms in
  Build_Run (set_performed true (Some res) (Some (cr_usage res)) (driver r)) (worker r) (worker_alive r) ms s.
Definition poll_background_compaction (now : Z) (entry_id : string) (r : Run S) : Run S :=
  let done r := put_driver (set_pending None (driver r)) r in
  match pending_compaction (driver r) with
  | Some (Answered (Completed res)) => done (install now entry_id res r)
  | Some (Answered (Failed _)) => done (sync_limits_state_to_session now r)
  | Some (Answered NotNeeded) | Some (Answered (Skipped _)) | Some Closed => done r
  | Some (Queued _) | Some (Running _) | None => r
  end.

(** [check_and_compact] up to the poll, which waits a tenth of a second for the
    worker, and from it on: whether a compaction was applied.  The driver's
    estimator is a copy of the compactor's. *)
Definition check_begin (now : Z) (r : Run S) : Run S :=
  let effective := Z.max (est_tokens (estimate_context_tokens (messages r))) (view_last_total (session r)) in
  let r := ensure_limits_state_hydrated now r in
  let d := driver r in
  let forced := force_compact_once d in
  let r := put_driver (set_flags (limits_state_hydrated d) false d) r in
  if negb (is_some (pending_compaction d)) && (forced || should_request now (worker r) effective (context_window d) (driver_config d))
  then start_compaction (if forced then StandaloneTurn else PreTurn) r
  else r.
Definition check_end (now : Z) (entry_id : string) (r : Run S) : bool * Run S :=
  let r := poll_background_compaction now entry_id r in
  let applied := compaction_performed (driver r) in
  (applied, if applied then put_driver (set_performed false None (last_compaction_usage (driver r)) (driver r)) r else r).

(** [compact_mid_turn]: its start, unless one is under way, and each turn of the
    loop that waits, [None] while it goes on; the deadline of thirty seconds
    leaves the request pending. *)
Definition mid_turn_begin (now : Z) (r : Run S) : Run S :=
  if is_some (pending_compaction (driver r)) then r else start_compaction MidTurn (ensure_limits_state_hydrated now r).
Definition mid_turn_poll (now : Z) (entry_id env : string) (r : Run S) : option bool * Run S :=
  let r := poll_background_compaction now entry_id r in
  let d := driver r in
  if compaction_performed d then
    let ms := if is_some (last_compaction_result d) then splice_snapshot (to_system_message now env) (messages r) else messages r in
    (Some true, put_driver (set_performed false None (last_compaction_usage d) d) (put_messages ms r))
  else if is_some (pending_compaction d) then (None, r) else (Some false, r).

(** ** The worker *)

Definition work_begin (r : Run S) : Run S :=
  match pending_compaction (driver r) with
  | Some (Queued rq) => put_worker (set_compacting true (worker r)) (put_driver (set_pending (Some (Running rq)) (driver r)) r)
  | _ => r
  end.
(** The worker of [BackgroundCompactor::new] compacts with the default
    settings. *)
Definition work_answer (lower : string -> string) (chat : Chat) (now : Z) (r : Run S) : Run S :=
  match pending_compaction (driver r) with
  | Some (Running rq) =>
      match process_compaction_request lower chat now default_config rq (worker r) with
      | Some (resp, w) => put_worker w (put_driver (set_pending (Some (Answered resp)) (driver r)) r)
      | None => Build_Run (set_pending (Some Closed) (driver r)) (worker r) false (messages r) (session r)
      end
  | _ => r
  end.
(** The task that clears the mark runs when it is scheduled. *)
Definition work_clear (r : Run S) : Run S := put_worker (set_compacting false (worker r)) r.
Definition run_start (c : CompactionConfig) (window : Z) (force : bool) (ms : list (LlmMessage Json)) (s : S) : Run S :=
  Build_Run (driver_new c window force) fresh_worker true ms s.
End Driving.

(** ** What the driver relies on *)

(** How the session stores the details of a compaction: read back as typed
    details, which are written. *)
Definition stored_details (details_of : Json -> option CompactionDetails) (details : option Json) : option Json :=
  v ← details; details_value <$> details_of v.
Definition boundary_event (details_of : Json -> option CompactionDetails) (now : Z) (entry_id : string) (e : CompactionEntry) : SessionEvent :=
  compaction_event entry_id now (ce_summary e) (messages_compacted e) (tokens_before e) (tokens_after e) (compaction_number e)
    (stored_details details_of (ce_details e)).
(** Counts fit what is stored of them. *)
Definition in_range (l : CompactionLimitsState) : Prop :=
  0 <= compaction_count l <= u32_max /\ 0 <= consecutive_auto l <= u32_max.

(** [good] sessions keep a transcript and the limits last stored; recording
    appends the boundary and may rotate the oldest events out. *)
Class SessionViewLaws (S : Type) `{V : !SessionView S} (details_of : Json -> option CompactionDetails) := {
  good : S -> Prop;
  transcript : S -> list SessionEvent;
  kept_limits : S -> CompactionLimitsState;
  same_view (s s' : S) : Prop := good s' /\ transcript s' = transcript s /\ kept_limits s' = kept_limits s;
  limits_law now s : good s -> fst (view_limits now s) = kept_limits s /\ same_view s (snd (view_limits now s));
  store_law now l s : good s -> in_range l ->
    good (view_store_limits now l s) /\ transcript (view_store_limits now l s) = transcript s /\ kept_limits (view_store_limits now l s) = l;
  previous_law s : good s ->
    fst (view_previous_summary s) = load_previous_compaction_summary (load_normalized (transcript s)) /\ same_view s (snd (view_previous_summary s));
  record_law now entry_id e s : good s ->
    good (view_record now entry_id e s) /\ kept_limits (view_record now entry_id e s) = kept_limits s /\
    exists k, transcript (view_record now entry_id e s) = drop k (transcript s ++ [boundary_event details_of now entry_id e]);
  footer_law s : good s ->
    fst (view_footer s) = render_page_catalog (list_pages (transcript s)) /\ same_view s (snd (view_footer s));
}.

Section Steps.
  Context {S : Type} `{V : !SessionView S} {details_of : Json -> option CompactionDetails} {L : SessionViewLaws S details_of}.
  Context (lower : string -> string).

(** What the rest of the runtime does to the session meanwhile: messages are
    stored, other entries of the index written. *)
Definition others (s s' : S) : Prop :=
  good s' /\ kept_limits s' = kept_limits s /\ exists ms, transcript s' = transcript s ++ map MessageV2 ms.

(** The steps of a run and of the runs after it on the same session, forced
    runs and mid-turn compactions included; with [fixed], all of them have the
    configuration of the first.  Fewer than 2^32 - 1 compactions are assumed. *)
Inductive step (fixed : bool) (r : Run S) : Run S -> Prop :=
  | StCheckBegin now : step fixed r (check_begin now r)
  | StCheckEnd now entry_id : step fixed r (snd (check_end now entry_id r))
  | StMidBegin now : step fixed r (mid_turn_begin now r)
  | StMidPoll now entry_id env : step fixed r (snd (mid_turn_poll now entry_id env r))
  | StWorkBegin : step fixed r (work_begin r)
  | StWorkAnswer chat now : worker_count (worker r) < u32_max -> worker_consecutive_auto (worker r) < u32_max ->
      step fixed r (work_answer lower chat now r)
  | StWorkClear : step fixed r (work_clear r)
  | StLoop ms : step fixed r (put_messages ms r)
  | StSession s' : others (session r) s' -> step fixed r (put_session s' r)
  | StNewRun c window force ms s' : (fixed = true -> c = driver_config (driver r)) -> others (session r) s' ->
      step fixed r (run_start c window force ms s').

(** ** Invariants *)

Definition boundary_number (e : SessionEvent) : option Z := boundary_of e ≫= snd.
(** Consecutive numbers, the last of them [c]. *)
Definition ends_at (c : Z) (ns : list Z) : Prop :=
  forall i n, ns !! i = Some n -> n = c - Z.of_nat (length ns) + 1 + Z.of_nat i.
Definition numbered (s : S) : Prop :=
  Forall (fun e => is_compaction_boundary e = true -> is_Some (boundary_number e)) (transcript s) /\
  ends_at (compaction_count (kept_limits s)) (omap boundary_number (transcript s)).

(** One when the answer at hand is a compaction. *)
Definition unread (p : option Pending) : Z := match p with Some (Answered (Completed _)) => 1 | _ => 0 end.
(** The worker knows the limits of the session, and more by what it has
    answered and the driver has not read. *)
Definition caught_up (r : Run S) : Prop :=
  limits_state_hydrated (driver r) = true ->
  worker_count (worker r) = compaction_count (kept_limits (session r)) + unread (pending_compaction (driver r)) /\
  worker_consecutive_auto (worker r) = consecutive_auto (kept_limits (session r)) + unread (pending_compaction (driver r)).
Definition asked (r : Run S) : Prop :=
  is_Some (pending_compaction (driver r)) -> limits_state_hydrated (driver r) = true.
Definition answer_numbered (r : Run S) : Prop :=
  forall res, pending_compaction (driver r) = Some (Answered (Completed res)) -> compaction_number (cr_entry res) = worker_count (worker r).
Record sound_run (r : Run S) : Prop := {
  sr_good : good (session r);
  sr_numbered : numbered (session r);
  sr_range : in_range (kept_limits (session r));
  sr_worker : 0 <= worker_count (worker r) <= u32_max /\ 0 <= worker_consecutive_auto (worker r) <= u32_max;
  sr_asked : asked r;
  sr_caught_up : caught_up r;
  sr_answer : answer_numbered r;
}.

Lemma ends_at_suffix c ns k : ends_at c ns -> ends_at c (drop k ns).
Proof.
  intros H i n. rewrite lookup_drop. intros Hn. pose proof (lookup_lt_Some _ _ _ Hn). rewrite (H _ _ Hn), length_drop. lia.
Qed.
Lemma ends_at_snoc c ns : ends_at c ns -> ends_at (c + 1) (ns ++ [c + 1]).
Proof.
  intros H i n. rewrite length_app. cbn [length]. intros [Hn|[Hl Hn]]%lookup_app_Some.
  - rewrite (H _ _ Hn). lia.
  - apply list_lookup_singleton_Some in Hn as [Hi <-]. lia.
Qed.
Lemma boundary_number_event now entry_id e : 0 <= compaction_number e <= u64_max ->
  boundary_number (boundary_event details_of now entry_id e) = Some (compaction_number e).
Proof.
  intros Hn. unfold boundary_number, boundary_event, boundary_of, compaction_event. cbn [sys_event mbind option_bind snd].
  unfold detail_u64. cbn [sys_detail index].
  replace (field _ _) with (JNumber (dec (compaction_number e))).
  - unfold as_u64. by rewrite (proj1 (dec_digits _)), parse_usize_dec.
  - destruct (stored_details _ _); [|done]. by rewrite field_insert_other.
Qed.
Lemma messages_unnumbered (ms : list SessionMessage) : omap boundary_number (map MessageV2 ms) = [].
Proof. by induction ms. Qed.
Lemma messages_no_boundary (ms : list SessionMessage) P : Forall (fun e => is_compaction_boundary e = true -> P e) (map MessageV2 ms).
Proof. induction ms; by constructor. Qed.

Lemma numbered_same s s' : same_view s s' -> numbered s -> numbered s'.
Proof. intros (_ & Ht & Hk). unfold numbered. by rewrite Ht, Hk. Qed.
Lemma numbered_others s s' : others s s' -> numbered s -> numbered s'.
Proof.
  intros (_ & Hk & ms & Ht) [Hb Hn]. unfold numbered. rewrite Ht, Hk, omap_app, messages_unnumbered, app_nil_r. split; [|done].
  apply Forall_app. split; [done|apply messages_no_boundary].
Qed.
(** The boundary recorded and the limits stored after it. *)
Lemma numbered_installed now entry_id e l s :
  good s -> numbered s -> 0 <= compaction_count (kept_limits s) -> compaction_number e = compaction_count (kept_limits s) + 1 ->
  in_range l -> compaction_count l = compaction_number e ->
  let s' := view_store_limits now l (view_record now entry_id e s) in good s' /\ numbered s' /\ kept_limits s' = l.
Proof.
  intros Hg [Hb Hn] Hc He Hl Hcl. cbv zeta. destruct (record_law now entry_id e s Hg) as (Hg1 & Hk1 & k & Ht1).
  destruct (store_law now l _ Hg1 Hl) as (Hg2 & Ht2 & Hk2). split_and!; [done| |done].
  assert (Hnum : boundary_number (boundary_event details_of now entry_id e) = Some (compaction_number e)).
  { apply boundary_number_event. destruct Hl as [Hl _]. unfold u32_max, u64_max in *. lia. }
  unfold numbered. rewrite Ht2, Hk2, Hcl, Ht1. split.
  - apply Forall_drop, Forall_app. split; [done|]. constructor; [|done]. intros _. by rewrite Hnum.
  - set (evs := transcript s ++ _) in *.
    assert (Hd : omap boundary_number (drop k evs) = drop (length (omap boundary_number (take k evs))) (omap boundary_number evs)).
    { rewrite <- (take_drop k evs) at 3. rewrite omap_app, drop_app_length. done. }
    rewrite Hd. apply ends_at_suffix. unfold evs. rewrite omap_app. cbn [omap list_omap]. rewrite Hnum, He. by apply ends_at_snoc.
Qed.

Lemma hydrate_sound now r : sound_run r ->
  let r' := ensure_limits_state_hydrated now r in
  sound_run r' /\ limits_state_hydrated (driver r') = true /\ pending_compaction (driver r') = pending_compaction (driver r) /\
  force_compact_once (driver r') = force_compact_once (driver r) /\ driver_config (driver r') = driver_config (driver r) /\
  messages r' = messages r /\ worker_alive r' = worker_alive r /\ kept_limits (session r') = kept_limits (session r).
Proof.
  intros H. cbv zeta. unfold ensure_limits_state_hydrated. destruct (limits_state_hydrated (driver r)) eqn:E; [by split_and!|].
  destruct H as [Hg Hn Hr Hw Ha Hc Hans]. destruct (limits_law now (session r) Hg) as [Hl Hs]. pose proof Hs as (Hg' & Ht & Hk).
  destruct (view_limits now (session r)) as [l s']. cbn [fst snd] in *. subst l.
  assert (Hnone : pending_compaction (driver r) = None).
  { destruct (pending_compaction (driver r)) eqn:Ep; [|done]. unfold asked in Ha. rewrite Ep, E in Ha. by discriminate Ha; eauto. }
  split; [|by split_and!]. split; cbn [session driver worker set_flags pending_compaction limits_state_hydrated]; try done.
  - by eapply numbered_same.
  - by rewrite Hk.
  - intros _. cbn [driver worker session set_flags pending_compaction hydrate_limits_state worker_count worker_consecutive_auto]. rewrite Hnone, Hk. cbn. lia.
  - intros res. cbn. by rewrite Hnone.
Qed.
(** A run with the same driver state, worker and limits. *)
Lemma sound_same r d s ms : sound_run r -> same_view (session r) s ->
  pending_compaction d = pending_compaction (driver r) -> limits_state_hydrated d = limits_state_hydrated (driver r) ->
  sound_run (Build_Run d (worker r) (worker_alive r) ms s).
Proof.
  intros [Hg Hn Hr Hw Ha Hc Hans] Hs Hp Hh. pose proof Hs as (Hg' & Ht & Hk). split; cbn [session driver worker]; try done.
  - by eapply numbered_same.
  - by rewrite Hk.
  - unfold asked in *. cbn [driver]. by rewrite Hp, Hh.
  - unfold caught_up in *. cbn [driver worker session]. by rewrite Hp, Hh, Hk.
  - unfold answer_numbered in *. cbn [driver worker]. by rewrite Hp.
Qed.
Lemma same_view_refl s : good s -> same_view s s.
Proof. by repeat split. Qed.
Lemma start_sound ph r : sound_run r -> limits_state_hydrated (driver r) = true -> pending_compaction (driver r) = None ->
  let r' := start_compaction ph r in
  sound_run r' /\ worker r' = worker r /\ kept_limits (session r') = kept_limits (session r) /\
  driver_config (driver r') = driver_config (driver r) /\ limits_state_hydrated (driver r') = true /\
  (pending_compaction (driver r') = None \/ exists rq, pending_compaction (driver r') = Some (Queued rq) /\ rq_phase rq = ph).
Proof.
  intros H Hh Hp. cbv zeta. unfold start_compaction. destruct (previous_law (session r) (sr_good r H)) as [_ Hs].
  destruct (view_previous_summary (session r)) as [previous s']. cbn [snd] in Hs. pose proof Hs as (_ & _ & Hk). cbn [worker_alive put_session].
  destruct (worker_alive r) eqn:E.
  - split; [|split_and!; try done; right; eexists; split; reflexivity].
    pose proof (sound_same r (driver r) s' (messages r) H Hs eq_refl eq_refl) as [Hg Hn Hr Hw Ha Hc Hans].
    rewrite E in *. split; cbn [session driver worker put_driver put_session set_pending] in *; try done.
    + by intros _.
    + unfold caught_up in *. cbn [driver worker session put_driver put_session set_pending pending_compaction limits_state_hydrated unread] in *.
      rewrite Hp in Hc. cbn [unread] in Hc. exact Hc.
  - split; [|split_and!; try done; by left]. apply (sound_same r (driver r) s' (messages r) H Hs); done.
Qed.
Lemma limits_state_range w : 0 <= worker_count w <= u32_max -> 0 <= worker_consecutive_auto w <= u32_max ->
  in_range (limits_state w) /\ compaction_count (limits_state w) = worker_count w /\ consecutive_auto (limits_state w) = worker_consecutive_auto w.
Proof. intros H1 H2. unfold in_range, limits_state. cbn [compaction_count consecutive_auto]. lia. Qed.

(** A run with nothing pending whose worker agrees with the stored limits. *)
Lemma sound_settled d w alive ms s : good s -> numbered s -> in_range (kept_limits s) -> pending_compaction d = None ->
  0 <= worker_count w <= u32_max -> 0 <= worker_consecutive_auto w <= u32_max ->
  (limits_state_hydrated d = true -> worker_count w = compaction_count (kept_limits s) /\ worker_consecutive_auto w = consecutive_auto (kept_limits s)) ->
  sound_run (Build_Run d w alive ms s).
Proof.
  intros Hg Hn Hr Hp H1 H2 Hh. split; cbn [session driver worker]; try done.
  - unfold asked. cbn [driver]. rewrite Hp. by intros [].
  - unfold caught_up. cbn [driver worker session]. rewrite Hp. cbn [unread]. intros Hyd. specialize (Hh Hyd). lia.
  - unfold answer_numbered. cbn [driver]. by rewrite Hp.
Qed.
Lemma settle_read r d : sound_run r -> pending_compaction d = None -> limits_state_hydrated d = limits_state_hydrated (driver r) ->
  unread (pending_compaction (driver r)) = 0 -> sound_run (put_driver d r).
Proof.
  intros [Hg Hn Hr [Hw1 Hw2] Ha Hc Hans] Hp Hh Hu. apply sound_settled; try done. rewrite Hh. intros Hyd. specialize (Hc Hyd). lia.
Qed.
Lemma install_sound now entry_id res r : sound_run r -> pending_compaction (driver r) = Some (Answered (Completed res)) ->
  let r' := install now entry_id res r in
  sound_run (put_driver (set_pending None (driver r')) r') /\ worker r' = worker r /\ worker_alive r' = worker_alive r /\
  driver_config (driver r') = driver_config (driver r) /\ limits_state_hydrated (driver r') = limits_state_hydrated (driver r) /\
  kept_limits (session r') = limits_state (worker r).
Proof.
  intros [Hg Hn Hr [Hw1 Hw2] Ha Hc Hans] Hp. cbv zeta.
  assert (Hyd : limits_state_hydrated (driver r) = true) by (apply Ha; rewrite Hp; eauto).
  destruct (Hc Hyd) as [Hc1 Hc2]. rewrite Hp in Hc1, Hc2. cbn [unread] in Hc1, Hc2. pose proof (Hans res Hp) as Hnum.
  destruct (limits_state_range (worker r) Hw1 Hw2) as (Hlr & Hl1 & Hl2). destruct Hr as [Hr1 Hr2].
  destruct (numbered_installed now entry_id (cr_entry res) (limits_state (worker r)) (session r)) as (Hg' & Hn' & Hk'); try done; try lia.
  unfold install. cbn [sync_limits_state_to_session put_session session worker].
  set (s1 := view_store_limits _ _ _) in *. destruct (footer_law s1 Hg') as [_ Hs]. destruct (view_footer s1) as [footer s2]. cbn [snd] in Hs.
  pose proof Hs as (Hg2 & Ht2 & Hk2). split; [|by split_and!; try done; cbn [session]; rewrite Hk2, Hk'].
  apply sound_settled; cbn [driver worker session set_pending set_performed pending_compaction limits_state_hydrated]; try done.
  - by eapply numbered_same.
  - by rewrite Hk2, Hk'.
  - intros _. rewrite Hk2, Hk'. lia.
Qed.
Lemma poll_sound now entry_id r : sound_run r ->
  let r' := poll_background_compaction now entry_id r in
  sound_run r' /\ worker r' = worker r /\ driver_config (driver r') = driver_config (driver r) /\
  limits_state_hydrated (driver r') = limits_state_hydrated (driver r) /\
  (pending_compaction (driver r') = None \/
   pending_compaction (driver r') = pending_compaction (driver r) /\ kept_limits (session r') = kept_limits (session r)).
Proof.
  intros H. cbv zeta. unfold poll_background_compaction.
  destruct (pending_compaction (driver r)) as [[rq|rq|[res| |reason|err]|]|] eqn:Ep; try (split_and!; by auto);
    try (split_and!; [apply settle_read; by rewrite ?Ep|done..|by left]).
  - destruct (install_sound now entry_id res r H Ep) as (H1 & H2 & H3 & H4 & H5 & H6). by split_and!; auto.
  - split_and!; try done; [|by left]. pose proof H as [Hg Hn Hr [Hw1 Hw2] Ha Hc Hans].
    assert (Hyd : limits_state_hydrated (driver r) = true) by (apply Ha; rewrite Ep; eauto).
    destruct (Hc Hyd) as [Hc1 Hc2]. rewrite Ep in Hc1, Hc2. cbn [unread] in Hc1, Hc2.
    destruct (limits_state_range (worker r) Hw1 Hw2) as (Hlr & Hl1 & Hl2).
    destruct (store_law now (limits_state (worker r)) (session r) Hg Hlr) as (Hg' & Ht' & Hk').
    apply sound_settled; cbn [driver worker session put_session sync_limits_state_to_session]; try done.
    + destruct Hn as [Hb Hn]. unfold numbered. rewrite Ht', Hk'. split; [done|]. rewrite Hl1. by replace (worker_count (worker r)) with (compaction_count (kept_limits (session r))) by lia.
    + by rewrite Hk'.
    + intros _. rewrite Hk'. lia.
Qed.
(** What the worker answers: a compaction counts once, anything else not. *)
Lemma process_counts chat now c rq w resp w' : process_compaction_request lower chat now c rq w = Some (resp, w') ->
  worker_count w' = worker_count w + unread (Some (Answered resp)) /\
  worker_consecutive_auto w' = worker_consecutive_auto w + unread (Some (Answered resp)) /\
  (forall res, resp = Completed res -> compaction_number (cr_entry res) = worker_count w').
Proof.
  unfold process_compaction_request. destruct (Nat.ltb _ _); [intros [= <- <-]; cbn [unread]; split_and!; [lia..|by intros res [=]]|].
  destruct (compact _ _ _ _ _ _) as [[[res c']|e]|]; [| |done]; intros [= <- <-]; cbn [unread worker_count worker_consecutive_auto].
  - split_and!; [lia..|]. by intros res' [= <-].
  - split_and!; [lia..|by intros res [=]].
Qed.
Lemma process_phase chat now c rq w res w' : process_compaction_request lower chat now c rq w = Some (Completed res, w') ->
  ce_phase (cr_entry res) = rq_phase rq.
Proof.
  unfold process_compaction_request. destruct (Nat.ltb _ _); [done|].
  destruct (compact _ _ _ _ _ _) as [[[res' c']|e]|] eqn:E; [|done|done]. intros [= <- <-]. by apply compact_phase in E.
Qed.
Lemma answer_sound chat now r : sound_run r -> worker_count (worker r) < u32_max -> worker_consecutive_auto (worker r) < u32_max ->
  sound_run (work_answer lower chat now r).
Proof.
  intros H Hb1 Hb2. unfold work_answer. destruct (pending_compaction (driver r)) as [[|rq| |]|] eqn:Ep; try done.
  destruct H as [Hg Hn Hr [Hw1 Hw2] Ha Hc Hans].
  assert (Hyd : limits_state_hydrated (driver r) = true) by (apply Ha; rewrite Ep; eauto).
  destruct (Hc Hyd) as [Hc1 Hc2]. rewrite Ep in Hc1, Hc2. cbn [unread] in Hc1, Hc2.
  destruct (process_compaction_request _ _ _ _ _ _) as [[resp w]|] eqn:E.
  - destruct (process_counts _ _ _ _ _ _ _ E) as (H1 & H2 & H3).
    assert (Hu : 0 <= unread (Some (Answered resp)) <= 1) by (destruct resp; cbn; lia).
    split; cbn [session driver worker put_worker put_driver set_pending]; try done.
    + lia.
    + by intros _.
    + unfold caught_up. cbn [session driver worker put_worker put_driver set_pending pending_compaction]. intros _. lia.
    + intros res [= ->]. by apply H3.
  - split; cbn [session driver worker set_pending]; try done. by intros _.
Qed.
Lemma check_begin_sound now r : sound_run r ->
  let r0 := ensure_limits_state_hydrated now r in let r' := check_begin now r in
  sound_run r' /\ worker r' = worker r0 /\ limits_state_hydrated (driver r') = true /\ force_compact_once (driver r') = false /\
  driver_config (driver r') = driver_config (driver r) /\ kept_limits (session r') = kept_limits (session r) /\
  (pending_compaction (driver r') = pending_compaction (driver r) \/
   exists rq, pending_compaction (driver r) = None /\ pending_compaction (driver r') = Some (Queued rq) /\
     (rq_phase rq = StandaloneTurn \/ rq_phase rq = PreTurn /\
      worker_count (worker r0) < max_compactions_per_session (driver_config (driver r)) /\ worker_consecutive_auto (worker r0) < MAX_CONSECUTIVE_AUTO)).
Proof.
  intros H. cbv zeta. destruct (hydrate_sound now r H) as (H1 & Hyd & Hp & Hf & Hcfg & _ & _ & Hk). unfold check_begin. cbv zeta.
  set (r0 := ensure_limits_state_hydrated now r) in *. set (r1 := put_driver _ r0).
  assert (H2 : sound_run r1) by (apply (sound_same r0 (set_flags (limits_state_hydrated (driver r0)) false (driver r0)) (session r0) (messages r0) H1 (same_view_refl _ (sr_good _ H1))); done).
  destruct (negb _ && _) eqn:E.
  - apply andb_true_iff in E as [E1 E2]. assert (Hnone : pending_compaction (driver r1) = None) by (cbn; by destruct (pending_compaction (driver r0))).
    destruct (start_sound (if force_compact_once (driver r0) then StandaloneTurn else PreTurn) r1 H2) as (S1 & S2 & S3 & S4 & S5 & S6); [done..|].
    assert (S7 : force_compact_once (driver (start_compaction (if force_compact_once (driver r0) then StandaloneTurn else PreTurn) r1)) = false).
    { unfold start_compaction. destruct (view_previous_summary _). by destruct (worker_alive _). }
    rewrite S2, S3, S4. split_and!; try done. assert (Hnone' : pending_compaction (driver r) = None) by (rewrite <- Hp; exact Hnone).
    destruct S6 as [S6|(rq & S6 & S8)]; [left; by rewrite S6|]. right. exists rq. split_and!; [done..|]. rewrite S8.
    destruct (force_compact_once (driver r0)); [by left|right]. split; [done|]. cbn [orb] in E2. unfold should_request in E2. rewrite !andb_true_iff in E2.
    destruct E2 as [[[[_ E2] _] _] E3]. rewrite Hcfg in E2. cbn [worker r1 put_driver] in E2, E3. lia.
  - split_and!; try done. by left.
Qed.

Lemma step_sound fixed r r' : step fixed r r' -> sound_run r -> sound_run r'.
Proof.
  intros Hst H. destruct Hst as [now|now entry_id|now|now entry_id env| |chat now Hb1 Hb2| |ms|s' Ho|c window force ms s' Hauto Ho].
  - by apply check_begin_sound.
  - unfold check_end. cbn [snd]. destruct (poll_sound now entry_id r H) as (H1 & _). destruct (compaction_performed _); [|done].
    apply (sound_same _ _ _ _ H1 (same_view_refl _ (sr_good _ H1))); done.
  - unfold mid_turn_begin. destruct (pending_compaction (driver r)) eqn:Ep; [done|]. cbn [is_some].
    destruct (hydrate_sound now r H) as (H1 & Hyd & Hp & _). apply start_sound; [done..|by rewrite Hp].
  - unfold mid_turn_poll. destruct (poll_sound now entry_id r H) as (H1 & _). destruct (compaction_performed _); cbn [snd].
    + apply (sound_same _ _ _ _ H1 (same_view_refl _ (sr_good _ H1))); done.
    + by destruct (is_some _).
  - unfold work_begin. destruct (pending_compaction (driver r)) as [[rq| | |]|] eqn:Ep; try done.
    destruct H as [Hg Hn Hr Hw Ha Hc Hans]. split; cbn [session driver worker put_worker put_driver set_pending]; try done.
    + intros _. apply Ha. rewrite Ep. eauto.
    + unfold caught_up in *. rewrite Ep in Hc. exact Hc.
  - by apply answer_sound.
  - destruct H as [Hg Hn Hr Hw Ha Hc Hans]. by split.
  - apply (sound_same r (driver r) (session r) ms H (same_view_refl _ (sr_good _ H))); done.
  - pose proof Ho as (Hg' & Hk & _). destruct H as [Hg Hn Hr Hw Ha Hc Hans]. split; cbn [session driver worker put_session]; try done.
    + by eapply numbered_others.
    + by rewrite Hk.
    + unfold caught_up in *. cbn [session driver worker put_session]. by rewrite Hk.
  - pose proof Ho as (Hg' & Hk & _). destruct H as [Hg Hn Hr Hw Ha Hc Hans]. apply sound_settled; cbn; try done; try (unfold u32_max; lia).
    + by eapply numbered_others.
    + by rewrite Hk.
Qed.
Lemma start_is_sound c window force ms s : good s -> numbered s -> in_range (kept_limits s) -> sound_run (run_start c window force ms s).
Proof. intros Hg Hn Hr. apply sound_settled; cbn; try done; unfold u32_max; lia. Qed.
Lemma steps_sound fixed r r' : rtc (step fixed) r r' -> sound_run r -> sound_run r'.
Proof. induction 1; [done|]. eauto using step_sound. Qed.
(** *** Pre-turn compactions *)

#[export] Instance CompactionPhase_eq_dec : EqDecision CompactionPhase.
Proof. solve_decision. Defined.
(** The request or answer under way is one of the gate before a turn. *)
Definition pre_turn_pending (p : option Pending) : bool :=
  match p with
  | Some (Queued rq) | Some (Running rq) => bool_decide (rq_phase rq = PreTurn)
  | Some (Answered (Completed res)) => bool_decide (ce_phase (cr_entry res) = PreTurn)
  | _ => false
  end.
(** The step installs a compaction, which the kept count tells, and it is one of
    those. *)
Definition pre_turn_installed (r r' : Run S) : bool :=
  pre_turn_pending (pending_compaction (driver r))
  && bool_decide (compaction_count (kept_limits (session r)) < compaction_count (kept_limits (session r'))).
(** The steps of runs under one configuration, with the number of pre-turn
    compactions they install. *)
Inductive installing : nat -> Run S -> Run S -> Prop :=
  | InstallNone r : installing 0 r r
  | InstallStep n r r' r'' : step true r r' -> installing n r' r'' ->
      installing ((if pre_turn_installed r r' then 1 else 0) + n) r r''.

(** [n] more of them since the limits were [l0] are within the quotas. *)
Definition within (c : CompactionConfig) (l0 : CompactionLimitsState) (n : Z) : Prop :=
  n <= Z.max 0 (MAX_CONSECUTIVE_AUTO - consecutive_auto l0) /\ n <= Z.max 0 (max_compactions_per_session c - compaction_count l0).
(** After [n] of them: other compactions count too, and a request is within the
    quotas when it is made. *)
Record limited (c : CompactionConfig) (l0 : CompactionLimitsState) (n : Z) (r : Run S) : Prop := {
  li_config : driver_config (driver r) = c;
  li_count : compaction_count l0 + n <= compaction_count (kept_limits (session r));
  li_auto : consecutive_auto l0 + n <= consecutive_auto (kept_limits (session r));
  li_within : within c l0 n;
  li_pending : pre_turn_pending (pending_compaction (driver r)) = true -> within c l0 (n + 1);
}.
Lemma unread_bound p : 0 <= unread p <= 1.
Proof. destruct p as [[| |[]|]|]; cbn; lia. Qed.
(** A run that kept driver settings, limits and what is under way. *)
Lemma limited_same c l0 n r r' : limited c l0 n r ->
  driver_config (driver r') = driver_config (driver r) -> kept_limits (session r') = kept_limits (session r) ->
  (pre_turn_pending (pending_compaction (driver r')) = true -> pre_turn_pending (pending_compaction (driver r)) = true) ->
  limited c l0 n r'.
Proof. intros [H1 H2 H3 H4 H5] E1 E2 E3. split; rewrite ?E1, ?E2; auto. Qed.
Lemma not_installed r r' : kept_limits (session r') = kept_limits (session r) -> pre_turn_installed r r' = false.
Proof. intros E. unfold pre_turn_installed. rewrite E, bool_decide_false by lia. apply andb_false_r. Qed.

(** What a poll does to the bounds; [r'] is what the caller makes of it. *)
Lemma limited_poll c l0 n now entry_id r r' : sound_run r -> limited c l0 n r ->
  let p := poll_background_compaction now entry_id r in
  driver_config (driver r') = driver_config (driver p) -> session r' = session p ->
  pending_compaction (driver r') = pending_compaction (driver p) ->
  limited c l0 (n + (if pre_turn_installed r r' then 1 else 0)) r'.
Proof.
  intros H HL. cbv zeta. intros Ec Es Ep. destruct (poll_sound now entry_id r H) as (H1 & Hw & Hcfg & Hyd & Hp).
  destruct (pending_compaction (driver r)) as [q|] eqn:Eq.
  2:{ unfold poll_background_compaction in *. rewrite Eq in *. rewrite not_installed, Z.add_0_r by congruence.
      apply (limited_same c l0 n r); rewrite ?Es, ?Ep; congruence. }
  destruct Hp as [Hp|[Hp Hk]].
  2:{ rewrite not_installed, Z.add_0_r by congruence. apply (limited_same c l0 n r); rewrite ?Es, ?Ep, ?Hp; congruence. }
  assert (Hyd1 : limits_state_hydrated (driver r) = true) by (apply (sr_asked r H); rewrite Eq; eauto).
  destruct (sr_caught_up r H Hyd1) as [Hc1 Hc2]. rewrite Hyd1 in Hyd. destruct (sr_caught_up _ H1 Hyd) as [Hc3 Hc4].
  rewrite Hp, Hw in Hc3, Hc4. rewrite Eq in Hc1, Hc2. cbn [unread] in Hc3, Hc4. pose proof (unread_bound (Some q)) as Hu.
  destruct HL as [L1 L2 L3 L4 L5]. rewrite Eq in L5.
  unfold pre_turn_installed. rewrite Eq, Es.
  split; rewrite ?Es, ?Ep, ?Hp; try done; [congruence|..]; destruct (pre_turn_pending (Some q)); cbn [andb]; try case_bool_decide; rewrite ?Z.add_0_r;
    auto; try lia.
Qed.
Lemma step_limited c l0 n r r' : step true r r' -> sound_run r -> limited c l0 n r ->
  limited c l0 (n + (if pre_turn_installed r r' then 1 else 0)) r'.
Proof.
  intros Hst H HL. destruct Hst as [now|now entry_id|now|now entry_id env| |chat now Hb1 Hb2| |ms|s' Ho|c' window force ms s' Hfix Ho].
  - destruct (check_begin_sound now r H) as (H1 & Hw & Hyd & _ & Hcfg & Hk & Hp). rewrite not_installed, Z.add_0_r by done.
    destruct Hp as [Hp|(rq & _ & Hp & Hg)]; [apply (limited_same c l0 n r); try done; by rewrite Hp|].
    destruct (sr_caught_up _ H1 Hyd) as [Hc1 Hc2]. rewrite Hp, Hw, Hk in Hc1, Hc2. cbn [unread] in Hc1, Hc2.
    destruct HL as [L1 L2 L3 L4 L5]. split; rewrite ?Hk, ?Hcfg, ?Hp; try done. cbn [pre_turn_pending]. intros Hph%bool_decide_eq_true.
    destruct Hg as [Hg|(_ & Hg1 & Hg2)]; [congruence|]. rewrite L1 in Hg1. unfold within. lia.
  - apply (limited_poll c l0 n now entry_id r); try done; unfold check_end; cbn [snd]; by destruct (compaction_performed _).
  - unfold mid_turn_begin. destruct (pending_compaction (driver r)) as [q|] eqn:Ep; cbn [is_some].
    { rewrite not_installed, Z.add_0_r by done. done. }
    destruct (hydrate_sound now r H) as (H1 & Hyd & Hp & _ & Hcfg & _ & _ & Hk).
    destruct (start_sound MidTurn _ H1 Hyd) as (_ & _ & Hk' & Hcfg' & _ & Hq); [congruence|].
    rewrite not_installed, Z.add_0_r by congruence. apply (limited_same c l0 n r); try congruence.
    destruct Hq as [->|(rq & -> & Hph)]; [done|]. cbn [pre_turn_pending]. by rewrite Hph.
  - apply (limited_poll c l0 n now entry_id r); try done; unfold mid_turn_poll;
      (destruct (compaction_performed _); [done|by destruct (is_some _)]).
  - assert (Hk : session (work_begin r) = session r) by (unfold work_begin; by destruct (pending_compaction (driver r)) as [[]|]).
    rewrite not_installed, Z.add_0_r by (by rewrite Hk).
    unfold work_begin. destruct (pending_compaction (driver r)) as [[rq| | |]|] eqn:Ep; try done. apply (limited_same c l0 n r); try done. by rewrite Ep.
  - assert (Hk : session (work_answer lower chat now r) = session r).
    { unfold work_answer. destruct (pending_compaction (driver r)) as [[]|]; try done. by destruct (process_compaction_request _ _ _ _ _ _) as [[]|]. }
    rewrite not_installed, Z.add_0_r by (by rewrite Hk).
    unfold work_answer. destruct (pending_compaction (driver r)) as [[|rq| |]|] eqn:Ep; try done.
    destruct (process_compaction_request _ _ _ _ _ _) as [[resp w]|] eqn:E; apply (limited_same c l0 n r); try done.
    rewrite Ep. cbn. destruct resp; try done. by rewrite (process_phase _ _ _ _ _ _ _ E).
  - rewrite not_installed, Z.add_0_r by done. by apply (limited_same c l0 n r).
  - rewrite not_installed, Z.add_0_r by done. by apply (limited_same c l0 n r).
  - pose proof Ho as (_ & Hk & _). rewrite not_installed, Z.add_0_r by done. by apply (limited_same c l0 n r).
  - pose proof Ho as (_ & Hk & _). rewrite not_installed, Z.add_0_r by done. rewrite (Hfix eq_refl). by apply (limited_same c l0 n r).
Qed.
Lemma installing_limited c l0 n k r r' : installing k r r' -> sound_run r -> limited c l0 n r -> limited c l0 (n + Z.of_nat k) r'.
Proof.
  intros Hst. revert n. induction Hst as [r|k r r1 r2 Hst _ IH]; intros n H HL; [by rewrite Z.add_0_r|].
  specialize (IH _ (step_sound _ _ _ Hst H) (step_limited _ _ _ _ _ Hst H HL)).
  replace (n + Z.of_nat _) with (n + (if pre_turn_installed r r1 then 1 else 0) + Z.of_nat k); [done|]. destruct (pre_turn_installed r r1); lia.
Qed.

(** *** The summary, live and resumed *)

Lemma footer_skips footer pre m rest bs :
  Forall (fun x => role x = System -> footer_blocks footer (content x) = None) pre -> role m = System ->
  footer_blocks footer (content m) = Some bs ->
  append_archived_pages_footer footer (pre ++ m :: rest) = pre ++ with_blocks m bs :: rest.
Proof.
  intros Hpre Hm Hbs. induction Hpre as [|x pre Hx _ IH]; cbn [app append_archived_pages_footer].
  - by rewrite bool_decide_true, Hbs.
  - case_bool_decide as E; [rewrite (Hx E)|]; by rewrite IH.
Qed.
Lemma event_field key v e now entry_id : key <> "details" ->
  field key [("compaction_number", JNumber (dec (compaction_number e)));
             ("messages_compacted", JNumber (dec (messages_compacted e))); ("summary", JString (ce_summary e));
             ("tokens_after", JNumber (dec (tokens_after e))); ("tokens_before", JNumber (dec (tokens_before e)))] = v ->
  match boundary_event details_of now entry_id e with SystemEv s => index (sys_detail s) key = v | _ => False end.
Proof.
  intros Hk Hv. unfold boundary_event, compaction_event. cbn [sys_detail index]. destruct (stored_details _ _); [|done]. by rewrite field_insert_other.
Qed.

(** What reading the last boundary back gives. *)
Lemma resumed_text now entry_id e X k d :
  details_of (details_value d) = Some d ->
  0 <= messages_compacted e <= u64_max -> messages_compacted e = Z.of_nat k -> ce_details e = Some (details_value d) ->
  let es := X ++ [boundary_event details_of now entry_id e] in
  exists resumed, load_history_native details_of es = [resumed] /\ role resumed = System /\
    content resumed = [Text (summary_text k (ce_summary e) d
                             +:+ match render_page_catalog (list_pages es) with Some f => newline +:+ newline +:+ f | None => "" end)].
Proof.
  intros Hd Hr Hk Hdet. cbv zeta. set (es := X ++ [_]).
  pose proof (event_field "messages_compacted" (JNumber (dec (messages_compacted e))) e now entry_id ltac:(done) eq_refl) as F1.
  pose proof (event_field "summary" (JString (ce_summary e)) e now entry_id ltac:(done) eq_refl) as F2.
  assert (F3 : match boundary_event details_of now entry_id e with SystemEv s => index (sys_detail s) "details" = details_value d | _ => False end).
  { unfold boundary_event, compaction_event. cbn [sys_detail index]. unfold stored_details. rewrite Hdet. cbn [mbind option_bind]. rewrite Hd.
    cbn [fmap option_fmap option_map]. apply field_insert_same. }
  assert (Hs : exists s, boundary_event details_of now entry_id e = SystemEv s /\ String.eqb (sys_event s) "compaction" = true) by (by eexists).
  destruct Hs as (s & Eb & Hs). unfold es in *. rewrite Eb in *. clear Eb.
  unfold load_history_native. rewrite latest_snoc. cbn [is_compaction_boundary]. rewrite Hs.
  unfold compaction_summary_message. rewrite list_lookup_middle by done. rewrite Hs.
  rewrite take_ge by (rewrite length_app; cbn; lia). rewrite drop_ge by (rewrite length_app; cbn; lia).
  eexists. split; [reflexivity|]. split; [done|]. unfold summary_message. cbn [content]. rewrite F3. unfold detail_str, detail_u64. rewrite F1, F2.
  unfold details_value at 1. change (JObject _) with (details_value d). rewrite Hd. cbn [as_str default].
  unfold as_u64. rewrite (proj1 (dec_digits _)), parse_usize_dec by done. cbn [default]. unfold summary_text, nat_text. rewrite <- Hk. by rewrite <- !app_assoc_str.
Qed.

(** ** Theorems *)

(** C10. Whatever runs follow each other on a session, forced and mid-turn
    compactions, failures, runs cut short and retention included, its
    compaction boundaries carry consecutive numbers, of which the last is the
    count kept in the index. *)
Theorem boundaries_numbered fixed c window force ms s r :
  good s -> numbered s -> in_range (kept_limits s) -> rtc (step fixed) (run_start c window force ms s) r ->
  numbered (session r).
Proof. intros Hg Hn Hr Hst. apply sr_numbered. eapply steps_sound; [exact Hst|]. by apply start_is_sound. Qed.

(** C11. The compactions that the gate before a turn starts stop at the quotas,
    over all runs of the session together, of one configuration: they are at
    most [MAX_CONSECUTIVE_AUTO] less the compactions counted before, and at most
    the configured number less those; whatever compactions are forced or made
    in the middle of a turn meanwhile, which the gate does not see and the
    counts do. *)
Theorem pre_turn_compactions_limited c window force ms s r n :
  good s -> numbered s -> in_range (kept_limits s) -> installing n (run_start c window force ms s) r ->
  Z.of_nat n <= Z.max 0 (MAX_CONSECUTIVE_AUTO - consecutive_auto (kept_limits s)) /\
  Z.of_nat n <= Z.max 0 (max_compactions_per_session c - compaction_count (kept_limits s)) /\
  compaction_count (kept_limits s) + Z.of_nat n <= compaction_count (kept_limits (session r)).
Proof.
  intros Hg Hn Hr Hst.
  assert (H0 : limited c (kept_limits s) 0 (run_start c window force ms s)) by (split; cbn; [done|lia..|unfold within; lia|done]).
  destruct (installing_limited _ _ _ _ _ _ Hst (start_is_sound _ _ _ _ _ Hg Hn Hr) H0) as [_ H1 _ [H2 H3] _]. lia.
Qed.

(** A compaction in the middle of a turn is asked for whatever was counted. *)
Theorem mid_turn_ignores_quotas now r :
  pending_compaction (driver r) = None -> worker_alive r = true ->
  exists rq, pending_compaction (driver (mid_turn_begin now r)) = Some (Queued rq) /\ rq_phase rq = MidTurn.
Proof.
  intros Hp Ha. unfold mid_turn_begin. rewrite Hp. cbn [is_some].
  assert (Ha' : worker_alive (ensure_limits_state_hydrated now r) = true).
  { unfold ensure_limits_state_hydrated. destruct (limits_state_hydrated _); [done|]. by destruct (view_limits _ _). }
  unfold start_compaction. destruct (view_previous_summary _) as [previous s']. cbn [worker_alive put_session]. rewrite Ha'. by eexists.
Qed.

(** C27. The summary of a compaction reads the same in the run that installs it and
    in a session opened later, the catalogue of archived pages included. *)
Theorem resumed_summary_same chat now0 c ms ph res c' n now entry_id r :
  (forall d, counts_images d -> details_of (details_value d) = Some d) ->
  compact lower chat now0 c ms ph = Some (Ok (res, c')) -> Z.of_nat (length ms) <= u64_max ->
  Forall (fun m => forall f, footer_blocks f (content m) = None) (fst (split_system ms)) ->
  good (session r) -> in_range (limits_state (worker r)) ->
  let r' := install now entry_id (renumbered n res) r in
  last (transcript (session r')) = Some (boundary_event details_of now entry_id (cr_entry (renumbered n res))) ->
  exists pre live rest resumed, messages r' = pre ++ live :: rest /\
    load_history_native details_of (transcript (session r')) = [resumed] /\ content resumed = content live /\ role resumed = role live.
Proof.
  intros Hd Hc Hms Hpre Hg Hlr. cbv zeta. destruct (compact_result _ _ _ _ _ _ _ _ Hc) as (k & summary & d & kept & Hm & Hk & Hmc & Hsum & Hdet & Hcd).
  unfold install. cbn [sync_limits_state_to_session put_session session worker].
  destruct (record_law now entry_id (cr_entry (renumbered n res)) (session r) Hg) as (Hg1 & _ & _).
  destruct (store_law now _ _ Hg1 Hlr) as (Hg2 & _ & _). set (s1 := view_store_limits _ _ _) in *.
  destruct (footer_law s1 Hg2) as [Hf (_ & Ht & _)]. destruct (view_footer s1) as [footer s2]. cbn [fst snd] in Hf, Ht. cbn [session messages].
  rewrite Ht. intros [X HX]%last_Some. rewrite HX in Hf |- *.
  destruct (resumed_text now entry_id (cr_entry (renumbered n res)) X k d (Hd d Hcd)) as (resumed & H1 & H2 & H3); [cbn; lia|done..|].
  change (ce_summary (cr_entry (renumbered n res))) with (ce_summary (cr_entry res)) in H3. rewrite <- Hf, Hsum in H3. change (cr_messages (renumbered n res)) with (cr_messages res). rewrite Hm.
  destruct footer as [f|].
  - erewrite footer_skips; [|eapply Forall_impl; [exact Hpre|by auto]|done|cbn [content live_summary footer_blocks]; rewrite (proj2 (starts_with_true _ _)) by (eexists; reflexivity); reflexivity].
    do 4 eexists. split_and!; [reflexivity|exact H1| |done]. by rewrite H3.
  - do 4 eexists. split_and!; [reflexivity|exact H1| |done]. rewrite H3. cbn [content live_summary]. by rewrite app_nil_r_str.
Qed.
End Steps.

(** ** The session that implements it *)

Section Handle.
  Context {J : SessionJson} {LJ : SessionJsonLaws J}.
  Context (id_of : string -> string) (details_of : Json -> option CompactionDetails).

Definition read_transcript {A} (g : list SessionEvent -> A) (sw : Session * World) : A * (Session * World) :=
  let '(s, w) := sw in
  let '(es, f) := load_events (files w) (sess_id s) in (g es, (s, {| disk := disk w; files := f |})).
Definition handle_record (now : Z) (entry_id : string) (e : CompactionEntry) : Session * World -> Session * World :=
  record_compaction id_of now entry_id (ce_summary e) (messages_compacted e) (tokens_before e) (tokens_after e) (compaction_number e)
    (stored_details details_of (ce_details e)).
#[local] Instance handle_view : SessionView (Session * World) := {|
  view_last_total := fun sw => tally_last_total (tally (fst sw));
  view_limits := fun now => session_limits_state id_of now;
  view_store_limits := fun now => store_compaction_limits_state id_of now;
  view_previous_summary := read_transcript (fun es => load_previous_compaction_summary (load_normalized es));
  view_record := handle_record;
  view_footer := read_transcript (fun es => render_page_catalog (list_pages es));
|}.

Definition controller_of (s : Session) : SessionIndex.SessionIndex := default index_open (metadata_controller s).
Definition entry_core (e : SessionEntry) : Paging * CompactionLimitsState := (paging e, compaction_limits_state e).
(** The controller is at rest and knows the entry of the session, which there
    is; the transcript reads. *)
Record handle_good (sw : Session * World) : Prop := {
  hg_rest : at_rest (controller_of (fst sw), snd sw);
  hg_agrees : agrees entry_core (controller_of (fst sw)) (snd sw) (id_of (sess_id (fst sw)));
  hg_entry : is_Some (stored (snd sw) !! id_of (sess_id (fst sw)));
  hg_log : sound_log (files (snd sw)) (sess_id (fst sw));
}.
Definition handle_transcript (sw : Session * World) : list SessionEvent := events (files (snd sw)) (sess_id (fst sw)).
Definition handle_limits (sw : Session * World) : CompactionLimitsState :=
  from_option compaction_limits_state no_limits (stored (snd sw) !! id_of (sess_id (fst sw))).

Lemma controller_set s i : controller_of (set_controller s i) = i.
Proof. done. Qed.
Lemma through_set {A} (c : M A) s i w :
  through c (set_controller s i, w) = let '(r, (i', w')) := c (i, w) in (r, (set_controller (set_controller s i) i', w')).
Proof. done. Qed.
Lemma good_get now s w e : handle_good (s, w) -> stored w !! id_of (sess_id s) = Some e ->
  exists e1 i1, get_entry id_of now (sess_id s) false (controller_of s, w) = (Ok (Some e1), (i1, w)) /\
    handle_good (set_controller s i1, w) /\ session_id e1 = id_of (sess_id s) /\ entry_core e1 = entry_core e.
Proof.
  intros [Hr Ha He Hl] Hs. cbn [fst snd] in *.
  destruct (get_agrees entry_core ltac:(done) id_of now (controller_of s) w (sess_id s) e Hr Ha Hs) as (e1 & i1 & Hg & Hr1 & Ha1 & Hid & Hc).
  exists e1, i1. split_and!; [done|by split|done..].
Qed.
Lemma good_update now s w e : handle_good (s, w) -> session_id e = id_of (sess_id s) ->
  exists i1 w1, update_entry now e (controller_of s, w) = (Ok tt, (i1, w1)) /\ handle_good (set_controller s i1, w1) /\
    stored w1 !! id_of (sess_id s) = Some e /\ files w1 = files w.
Proof.
  intros [Hr Ha He Hl] Hid. cbn [fst snd] in *. destruct (update_entry_spec now e (controller_of s) w Hr) as (i1 & Hu & Hset & Hcache).
  destruct (keeps_write now (id_of (sess_id s)) e Hid (controller_of s, w) Hr) as (Hr1 & _). rewrite Hu in *. cbn [snd] in Hr1.
  eexists i1, _. split; [reflexivity|].
  assert (Hst : stored {| disk := {| sessions_json := Readable (<[session_id e := e]> (stored w)); peers_json := peers_json (disk w) |}; files := files w |}
                !! id_of (sess_id s) = Some e) by (unfold stored at 1; cbn [disk sessions_json]; rewrite Hid; apply lookup_insert_eq).
  split_and!; [|done..]. split; cbn [fst snd]; [exact Hr1| |exact (mk_is_Some _ _ Hst)|done].
  intros m. rewrite controller_set, Hcache. by intros [= <-].
Qed.
(** The files of a good session replaced by others that read. *)
Lemma good_files s w f : handle_good (s, w) -> sound_log f (sess_id s) -> handle_good (s, {| disk := disk w; files := f |}).
Proof. intros [Hr Ha He Hl] Hf. by split. Qed.

Lemma handle_read {A} (g : list SessionEvent -> A) sw : handle_good sw ->
  fst (read_transcript g sw) = g (handle_transcript sw) /\ handle_good (snd (read_transcript g sw)) /\
  handle_transcript (snd (read_transcript g sw)) = handle_transcript sw /\ handle_limits (snd (read_transcript g sw)) = handle_limits sw.
Proof.
  destruct sw as [s w]. intros Hg. destruct (load_sound (files w) (sess_id s) (hg_log _ Hg)) as [H1 H2].
  unfold read_transcript, handle_transcript, handle_limits. cbn [fst snd]. unfold events in *. destruct (load_events (files w) (sess_id s)) as [es f].
  cbn [fst snd files] in *. split_and!; [done|by apply (good_files s w f Hg)|exact H2|done].
Qed.
Lemma handle_limits_law now sw : handle_good sw ->
  fst (session_limits_state id_of now sw) = handle_limits sw /\ handle_good (snd (session_limits_state id_of now sw)) /\
  handle_transcript (snd (session_limits_state id_of now sw)) = handle_transcript sw /\
  handle_limits (snd (session_limits_state id_of now sw)) = handle_limits sw.
Proof.
  destruct sw as [s w]. intros Hg. destruct (hg_entry _ Hg) as [e He]. cbn [fst snd] in He.
  destruct (good_get now s w e Hg He) as (e1 & i1 & Hget & Hg1 & _ & Hc).
  unfold session_limits_state, through, get_compaction_state. fold (controller_of s). unfold mbind, M_bind. cbn [fst]. rewrite Hget.
  unfold mret, M_ret. cbn [fst snd from_option]. unfold handle_limits. cbn [fst snd]. rewrite He. cbn [from_option sess_id set_controller]. rewrite He.
  split_and!; [|done..]. by injection Hc.
Qed.
Lemma handle_store_law now l sw : handle_good sw ->
  handle_good (store_compaction_limits_state id_of now l sw) /\
  handle_transcript (store_compaction_limits_state id_of now l sw) = handle_transcript sw /\
  handle_limits (store_compaction_limits_state id_of now l sw) = l.
Proof.
  destruct sw as [s w]. intros Hg. destruct (hg_entry _ Hg) as [e He]. cbn [fst snd] in He.
  destruct (good_get now s w e Hg He) as (e1 & i1 & Hget & Hg1 & Hid & Hc). injection Hc as Hpg Hlim.
  unfold store_compaction_limits_state, through, set_compaction_state, need_entry. fold (controller_of s). unfold mbind, M_bind. cbn [fst]. rewrite Hget.
  unfold lift, ok_or. cbn [fst snd]. case_bool_decide as E.
  - unfold mret, M_ret. cbn [snd]. split_and!; [done..|]. unfold handle_limits. cbn [fst snd sess_id set_controller]. rewrite He. cbn. congruence.
  - destruct (good_update now (set_controller s i1) w (touch now (set_compaction_limits_state e1 l)) Hg1 Hid) as (i2 & w2 & Hu & Hg2 & Hst & Hfs).
    rewrite controller_set in Hu. rewrite Hu. cbn [snd]. split_and!.
    + exact Hg2.
    + unfold handle_transcript. cbn [fst snd sess_id set_controller]. by rewrite Hfs.
    + unfold handle_limits. cbn [fst snd sess_id set_controller] in *. by rewrite Hst.
Qed.
Lemma handle_record_law now entry_id e sw : handle_good sw ->
  handle_good (handle_record now entry_id e sw) /\ handle_limits (handle_record now entry_id e sw) = handle_limits sw /\
  exists k, handle_transcript (handle_record now entry_id e sw) = drop k (handle_transcript sw ++ [boundary_event details_of now entry_id e]).
Proof.
  destruct sw as [s w]. intros Hg. unfold handle_record, record_compaction, append_compaction. fold (boundary_event details_of now entry_id e).
  destruct (append_sound (files w) (sess_id s) (boundary_event details_of now entry_id e) (hg_log _ Hg)) as (Hlog & Hev & _).
  set (w1 := {| disk := disk w; files := append_event (files w) (sess_id s) (boundary_event details_of now entry_id e) |}).
  pose proof (good_files s w _ Hg Hlog) as Hg1. fold w1 in Hg1.
  destruct (hg_entry _ Hg) as [x Hx]. cbn [fst snd] in Hx. destruct (good_get now s w1 x Hg1 Hx) as (e1 & i1 & Hget & Hg2 & _ & _).
  fold w1. remember (snd (enforce_page_limit id_of now (s, w1))) as out eqn:Hout.
  unfold enforce_page_limit, session_prune_overflow, through at 1 in Hout. fold (controller_of s) in Hout. rewrite Hget in Hout.
  change (sess_id (set_controller s i1)) with (sess_id s) in Hout.
  change (files w1) with (append_event (files w) (sess_id s) (boundary_event details_of now entry_id e)) in Hout.
  set (limit := Z.to_nat <$> entry_page_limit (paging e1)) in *.
  destruct (overflow_sound (append_event (files w) (sess_id s) (boundary_event details_of now entry_id e)) (sess_id s) limit Hlog) as [Hlog2 (k & Hk)].
  destruct (prune_overflow _ (sess_id s) limit) as [pruned f]. cbn [snd] in Hlog2, Hk. rewrite Hev in Hk.
  set (w2 := {| disk := disk w; files := f |}). pose proof (good_files _ w1 f Hg2 Hlog2) as Hg3. change (disk w1) with (disk w) in *. fold w2 in Hg3, Hout.
  destruct (Nat.eqb pruned 0).
  - subst out. cbn [snd]. split_and!; [done..|]. exists k. exact Hk.
  - destruct (good_get now (set_controller s i1) w2 x Hg3 Hx) as (e2 & i2 & Hget2 & Hg4 & Hid2 & Hc2). injection Hc2 as _ Hlim2.
    destruct (good_update now (set_controller (set_controller s i1) i2) w2 (add_pruned pruned e2) Hg4 Hid2) as (i3 & w3 & Hu & Hg5 & Hst & Hfs).
    rewrite controller_set in Hget2, Hu. change (sess_id (set_controller s i1)) with (sess_id s) in *.
    change (sess_id (set_controller s i1)) with (sess_id s) in Hout. rewrite through_set, Hget2, through_set, Hu in Hout. subst out.
    cbn [snd]. split_and!; [exact Hg5| |exists k; unfold handle_transcript; cbn [fst snd sess_id set_controller]; rewrite Hfs; exact Hk].
    unfold handle_limits. cbn [fst snd sess_id set_controller] in *. rewrite Hst, Hx. cbn. exact Hlim2.
Qed.

#[local] Instance handle_laws : SessionViewLaws (Session * World) details_of := {|
  good := handle_good; transcript := handle_transcript; kept_limits := handle_limits;
  limits_law := handle_limits_law;
  store_law := fun now l sw Hg _ => handle_store_law now l sw Hg;
  previous_law := fun sw Hg => handle_read _ sw Hg;
  record_law := handle_record_law;
  footer_law := fun sw Hg => handle_read _ sw Hg;
|}.
End Handle.

(** ** Examples *)

Module DriverExample.
Import SessionCodec LogExample CompactorExample.

(** Details as serde reads them. *)
Definition strings_of (v : Json) : option (list string) := l ← as_array v; mapM as_str l.
Definition phase_of (v : Json) : option CompactionPhase :=
  t ← as_str v;
  if String.eqb t "pre_turn" then Some PreTurn else if String.eqb t "mid_turn" then Some MidTurn
  else if String.eqb t "standalone_turn" then Some StandaloneTurn else None.
Definition decode (v : Json) : option CompactionDetails :=
  read ← strings_of (index v "read_files");
  modified ← strings_of (index v "modified_files");
  images ← as_u64 (index v "image_token_count");
  ph ← phase_of (index v "phase");
  said ← match index v "user_messages" with JNull => Some None | u => Some <$> strings_of u end;
  Some {| read_files := read; modified_files := modified; image_token_count := images; phase := ph; user_messages := said |}.
Lemma strings_of_map l : strings_of (JArray (map JString l)) = Some l.
Proof. unfold strings_of. cbn [as_array mbind option_bind]. induction l as [|s l IH]; [done|]. cbn. by rewrite IH. Qed.
Lemma decode_value d : counts_images d -> decode (details_value d) = Some d.
Proof.
  intros Hd. unfold decode, details_value. cbn [index app field String.eqb Ascii.eqb Bool.eqb andb]. rewrite !strings_of_map. cbn [mbind option_bind].
  unfold as_u64. rewrite (proj1 (dec_digits _)), parse_usize_dec by done. cbn [mbind option_bind].
  destruct d as [rf mf n ph [um|]]; cbn [phase user_messages field String.eqb Ascii.eqb Bool.eqb andb read_files modified_files image_token_count];
    rewrite ?strings_of_map; by destruct ph.
Qed.

#[local] Existing Instances SessionCodec.json SessionCodec.json_laws.
#[export] Instance view : SessionView (Session * World) := handle_view HandleExample.same_id decode.
#[export] Instance laws : SessionViewLaws (Session * World) decode := handle_laws HandleExample.same_id decode.

Definition at_start : Session * World := (HandleExample.session, HandleExample.world None).
Lemma start_good : good at_start.
Proof.
  split; cbn [fst snd]; [apply HandleExample.world_rest|by intros m|by eexists|apply opened_sound].
Qed.
Lemma start_numbered : numbered at_start.
Proof.
  assert (E : transcript at_start = events opened sid) by done. unfold numbered. rewrite E. unfold events. rewrite opened_events.
  split; [by repeat constructor|]. intros i n. cbn. by rewrite lookup_nil.
Qed.
Lemma start_in_range : in_range (kept_limits at_start).
Proof. split; split; vm_compute; discriminate. Qed.

(** A run on a small model, and the worker's turn. *)
Definition small : Run (Session * World) := run_start default_config 10 false talk at_start.
Definition forced : Run (Session * World) := run_start default_config 100000 true talk at_start.
Definition worked (chat : Chat) (r : Run (Session * World)) : Run (Session * World) := work_answer same chat 70 (work_begin r).
Definition later : LlmMessage Json := said User "and one more thing".
(** The loop stores a message and appends it to the history. *)
Definition heard (r : Run (Session * World)) : Run (Session * World) :=
  put_messages (messages r ++ [later]) (put_session (add_user HandleExample.same_id 60 "m9" ("e9", "n9") "and one more thing" (session r)) r).
End DriverExample.

#[local] Existing Instances SessionCodec.json SessionCodec.json_laws DriverExample.view DriverExample.laws.

(** A compaction by hand and, in the run after it, one in the middle of a turn. *)
Lemma boundaries_numbered_witness :
  let r1 := snd (check_end 80 "c1" (DriverExample.worked CompactorExample.so_far (check_begin 50 DriverExample.forced))) in
  let r2 := run_start default_config 10 false CompactorExample.talk (session r1) in
  let r3 := snd (mid_turn_poll 95 "c2" "linux" (DriverExample.worked CompactorExample.so_far (mid_turn_begin 90 r2))) in
  numbered (session r3) /\ omap boundary_number (transcript (session r3)) = [1; 2].
Proof.
  intros r1 r2 r3. split; [|vm_compute; reflexivity].
  assert (H1 : rtc (step CompactorExample.same false) DriverExample.forced r1).
  { eapply rtc_l; [exact (StCheckBegin _ _ DriverExample.forced 50)|]. eapply rtc_l; [apply StWorkBegin|].
    eapply rtc_l; [apply (StWorkAnswer _ _ _ CompactorExample.so_far 70); vm_compute; reflexivity|].
    apply rtc_once. exact (StCheckEnd _ _ _ 80 "c1"). }
  assert (H2 : rtc (step CompactorExample.same false) r2 r3).
  { eapply rtc_l; [exact (StMidBegin _ _ r2 90)|]. eapply rtc_l; [apply StWorkBegin|].
    eapply rtc_l; [apply (StWorkAnswer _ _ _ CompactorExample.so_far 70); vm_compute; reflexivity|].
    apply rtc_once. exact (StMidPoll _ _ _ 95 "c2" "linux"). }
  pose proof (steps_sound _ _ _ _ H1 (start_is_sound _ _ _ _ _ DriverExample.start_good DriverExample.start_numbered DriverExample.start_in_range)) as S1.
  apply (boundaries_numbered CompactorExample.same false default_config 100000 true CompactorExample.talk DriverExample.at_start r3);
    [apply DriverExample.start_good|apply DriverExample.start_numbered|apply DriverExample.start_in_range|].
  etransitivity; [exact H1|]. eapply rtc_l; [|exact H2]. apply StNewRun; [done|].
  split; [exact (sr_good _ S1)|]. split; [done|]. exists []. by rewrite app_nil_r.
Defined.
(** A full context, the worker's answer, its installation: one of the five. *)
Lemma pre_turn_compactions_limited_witness :
  let asked := check_begin 50 DriverExample.small in
  let r := snd (check_end 80 "c1" (DriverExample.worked CompactorExample.so_far asked)) in
  compaction_count (kept_limits (session r)) = 1 /\
  Z.of_nat 1 <= Z.max 0 (MAX_CONSECUTIVE_AUTO - consecutive_auto (kept_limits DriverExample.at_start)).
Proof.
  cbv zeta. split; [vm_compute; reflexivity|].
  set (asked := check_begin 50 DriverExample.small). set (answered := DriverExample.worked CompactorExample.so_far asked).
  assert (H : installing CompactorExample.same
    ((if pre_turn_installed DriverExample.small asked then 1 else 0) + ((if pre_turn_installed asked (work_begin asked) then 1 else 0)
      + ((if pre_turn_installed (work_begin asked) answered then 1 else 0)
         + ((if pre_turn_installed answered (snd (check_end 80 "c1" answered)) then 1 else 0) + 0))))
    DriverExample.small (snd (check_end 80 "c1" answered))).
  { eapply InstallStep; [apply StCheckBegin|]. eapply InstallStep; [apply StWorkBegin|].
    eapply InstallStep; [apply StWorkAnswer; vm_compute; reflexivity|]. eapply InstallStep; [apply StCheckEnd|]. apply InstallNone. }
  match type of H with installing _ ?k _ _ => replace k with 1%nat in H by (vm_compute; reflexivity) end.
  apply (pre_turn_compactions_limited CompactorExample.same default_config 10 false CompactorExample.talk DriverExample.at_start
    (snd (check_end 80 "c1" answered)) 1);
    [apply DriverExample.start_good|apply DriverExample.start_numbered|apply DriverExample.start_in_range|exact H].
Defined.
Lemma resumed_summary_same_witness :
  match compact CompactorExample.same CompactorExample.so_far 7 (compactor_with_config default_config None) CompactorExample.talk PreTurn with
  | Some (Ok (res, _)) =>
      exists pre live rest resumed, messages (install 70 "c1" (renumbered 1 res) DriverExample.small) = pre ++ live :: rest /\
        load_history_native DriverExample.decode (transcript (session (install 70 "c1" (renumbered 1 res) DriverExample.small))) = [resumed] /\
        content resumed = content live /\ role resumed = role live
  | _ => False
  end.
Proof.
  destruct (compact _ _ _ _ _ _) as [[[res c']|e]|] eqn:E; [|vm_compute in E; discriminate..].
  apply (resumed_summary_same CompactorExample.same CompactorExample.so_far 7 (compactor_with_config default_config None) CompactorExample.talk PreTurn
    res c' 1 70 "c1" DriverExample.small); [apply DriverExample.decode_value|exact E| | |apply DriverExample.start_good| |].
  - vm_compute. discriminate.
  - repeat constructor.
  - split; split; vm_compute; discriminate.
  - vm_compute in E. injection E as <- <-. vm_compute. reflexivity.
Defined.

(** A message that arrives while the worker summarises is in neither the list
    that is installed nor, recorded before the boundary, the history reloaded
    later. *)
Theorem messages_since_request_lost :
  let '(applied, r) := check_end 80 "c1" (DriverExample.worked CompactorExample.so_far (DriverExample.heard (check_begin 50 DriverExample.small))) in
  applied = true /\ length (messages r) = 6%nat /\
  existsb (fun m => match content m with [Text t] => String.eqb t "and one more thing" | _ => false end) (messages r) = false /\
  length (load_history_native DriverExample.decode (transcript (session r))) = 1%nat.
Proof. vm_compute. done. Qed.

(** A compaction asked for by hand in a short session summarises nothing, and
    hides the whole conversation from the history reloaded later. *)
Theorem forced_compaction_forgets :
  let '(applied, r) := check_end 80 "c1" (DriverExample.worked CompactorExample.so_far (check_begin 50 DriverExample.forced)) in
  applied = true /\ map role (messages r) = System :: System :: [User; Assistant; User; Assistant] /\
  map role (load_history_native DriverExample.decode (transcript (session r))) = [System].
Proof. vm_compute. done. Qed.

(** The configured amount to keep is not what the worker keeps. *)
Theorem keep_recent_ignored :
  let run c := pending_compaction (driver (DriverExample.worked CompactorExample.so_far (check_begin 50 (run_start c 10 false CompactorExample.talk DriverExample.at_start)))) in
  run CompactorExample.short_memory = run default_config.
Proof. vm_compute. done. Qed.

(** A panic ends the worker: the run asks no more, however full its context. *)
Theorem panicked_worker_gone :
  let long := CompactorExample.said User (CompactorExample.repeat_text 499 "a" +:+ CompactorExample.e_acute +:+ "b") in
  let bulk := with_blocks long (repeat (Thinking "" None) (16 * 10 ^ 2)) in
  let r := DriverExample.worked CompactorExample.so_far
             (check_begin 50 (run_start default_config 10 false ([long; bulk] ++ CompactorExample.talk) DriverExample.at_start)) in
  let '(applied, r) := check_end 80 "c1" r in
  applied = false /\ pending_compaction (driver (check_begin 10000 r)) = None.
Proof. vm_compute. done. Qed.
