(* ===== verification/Floor.v ===== *)
(** * Floor: what no run may do below a given trust

    peko-rs/core/src/security/floor.rs, with the memory-run test of
    memory_gate.rs and the owner-decides and needs-review tests of judge.rs.
    All are functions of the stamp, the call and the place a path denotes. *)

From Stdlib Require Import ZArith Lia Ascii.
From stdpp Require Import base tactics list strings.
From S2P Require Import Prelude Text Host ActingFor.

Local Open Scope nat_scope.

Definition contains (l : list string) (s : string) : bool := existsb (String.eqb s) l.

(** ** Tools *)

Definition UNTRUSTED_DENIED_TOOLS : list string := ["MCP"].
Definition OWNER_ONLY_TOOLS : list string := ["Plan"; "Bash"].
Definition CHANNEL_OWNER_ACTIONS : list string :=
  ["create"; "invite"; "role"; "admin"; "history"; "register"; "link"; "join"].

Definition channel_owner_action (tool_name : string) (params : Json) : option string :=
  if negb (String.eqb tool_name "Channel") then None
  else match as_str (index params "action") with
       | Some a => if contains CHANNEL_OWNER_ACTIONS a then Some a else None
       | None => None
       end.

(** A peko's [principal:] address reads as [peko:]. *)
Definition shown_actor (actor : string) : string :=
  match strip_prefix "principal:" actor with
  | Some rest => "peko:" +:+ rest
  | None => actor
  end.

Definition action_refusal (stamp : ActingFor) (tool_name : string) (params : Json) : option string :=
  if negb (is_untrusted stamp) then None
  else match channel_owner_action tool_name params with
       | None => None
       | Some a =>
           let what :=
             if String.eqb a "role" then "Choosing the role for a conversation"
             else if String.eqb a "admin" then "Choosing a group's admins"
             else if String.eqb a "history" then "Choosing what a group's members may read"
             else if String.eqb a "join" then "Joining a group"
             else "Creating groups and inviting people" in
           Some (what +:+ " is not available while acting for " +:+ shown_actor (actor stamp)
                 +:+ " (untrusted). Ask the owner to set it up.")
       end.

(** memory_gate.rs *)
Definition MEMORY_JOB_ID : string := "memory".
Definition GENESIS_JOB_ID : string := "genesis".
Definition is_job (id : string) (o : Origin) : bool :=
  match o with Cron job_id => String.eqb job_id id | _ => false end.
Definition is_scheduled_owner (stamp : ActingFor) : bool :=
  is_owner stamp && match origin stamp with Cron _ => true | _ => false end.
Definition is_screened (stamp : ActingFor) : bool :=
  is_scheduled_owner stamp && negb (is_job GENESIS_JOB_ID (origin stamp)).
Definition is_memory_run (stamp : ActingFor) : bool :=
  is_owner stamp && is_job MEMORY_JOB_ID (origin stamp).

Definition tool_refusal (stamp : ActingFor) (tool_name : string) (mcp_untrusted_ok : option bool)
    : option string :=
  let who := shown_actor (actor stamp) +:+ " (" +:+ trust_as_str (trust stamp) +:+ ")" in
  if String.eqb tool_name "Bash" && is_memory_run stamp then
    Some ("`Bash` is not available in the memory-maintenance run (ADR-080): it reads other people's conversations, so it writes memory only through the file tools.")
  else if is_owner stamp then None
  else if String.eqb tool_name "Bash" then
    Some ("`Bash` is not available while acting for " +:+ who +:+ ": only work done for the owner gets the shell. Use the file tools inside the workspace, or ask the owner for the result.")
  else if contains OWNER_ONLY_TOOLS tool_name then
    Some ("`" +:+ tool_name +:+ "` holds the owner's internal work and is not available while acting for " +:+ who +:+ ". Track this conversation's work in your replies or with `Task`.")
  else if negb (is_untrusted stamp) then None
  else if contains UNTRUSTED_DENIED_TOOLS tool_name || bool_decide (mcp_untrusted_ok = Some false) then
    Some ("`" +:+ tool_name +:+ "` is not available while acting for " +:+ shown_actor (actor stamp)
          +:+ " (untrusted). The owner can permit this actor as `trusted`, or ask for the result on their behalf.")
  else None.

(** judge.rs *)
Definition EXEMPT_TOOLS : list string :=
  ["Task"; "ModelList"; "RoleCatalog"; "Session"; "ChannelRead"; "ToolLog"; "Suggest"].

Definition owner_decides (stamp : ActingFor) (tool_name : string) (params : Json) : option string :=
  if is_owner stamp then None
  else match channel_owner_action tool_name params with
       | None => None
       | Some a =>
           if String.eqb a "role" then
             Some "only the owner decides which role the principal runs in a conversation"
           else Some "only the owner decides who joins the principal's groups"
       end.

Definition needs_review (stamp : ActingFor) (tool_name : string) (params : Json) : bool :=
  if is_owner stamp || contains EXEMPT_TOOLS tool_name then false
  else if String.eqb tool_name "Channel" then false
  else
    let to := as_str (index params "to") in
    let own_channel := String.eqb tool_name "ChannelSend" && is_some to &&
                       bool_decide (to = compartment_channel (compartment stamp)) in
    negb own_channel.

(** ** Paths *)

Definition PROTECTED_FILES : list string :=
  ["peko.toml"; "principal.toml"; "POLICY.md"; "kb/MEMORY.md"; "kb/index.md"; "kb/CONVENTIONS.md"].
Definition PROTECTED_DIRS : list string :=
  ["roles"; "skills"; "hooks"; "mcp"; "workflows"; "plugins"; "kb/roles"; "kb/groups"; "kb/dreams"].
Definition INBOX_DIR : string := "kb/inbox".

(** common/paths.rs *)
Definition is_pekos_dir_name (name : string) : bool :=
  String.eqb name "pekos" || String.eqb name "principals".

Definition peko_home (workspace : Path) : option Path :=
  match parent workspace with
  | None => None
  | Some root =>
      match file_name root with
      | None => None
      | Some name => if is_pekos_dir_name name then parent root else None
      end
  end.

(** [components().map(as_os_str)], then [windows(n).any(..)]. *)
Fixpoint any_window3 (f : string -> string -> string -> bool) (l : list string) : bool :=
  match l with
  | a :: ((b :: c :: _) as rest) => f a b c || any_window3 f rest
  | _ => false
  end.
Fixpoint any_window4 (f : string -> string -> string -> string -> bool) (l : list string) : bool :=
  match l with
  | a :: ((b :: c :: d :: _) as rest) => f a b c d || any_window4 f rest
  | _ => false
  end.

Definition in_principal_local (p : Path) : bool :=
  any_window3 (fun a _ c => is_pekos_dir_name a && String.eqb c "local") (map component_text p).

Definition in_tool_ledger (p : Path) : bool :=
  any_window4 (fun a _ c d => is_pekos_dir_name a && String.eqb c "local" && String.eqb d "ledger")
    (map component_text p).

Definition is_runtime_state (workspace : option Path) (p : Path) : bool :=
  if in_principal_local p then true
  else match workspace with
       | None => false
       | Some w =>
           match peko_home w with
           | Some home => path_starts_with p home && negb (path_starts_with p w)
           | None => false
           end
       end.

Section WithFileSystem.
Context `{F : FileSystem}.

Definition is_person (v : Json) : bool :=
  match as_str v with Some s => starts_with "user:" s | None => false end.

Definition is_person_dm_dir (dir : Path) : bool :=
  match read (push dir (components "meta.json")) with
  | None => false
  | Some bytes =>
      match from_slice bytes with
      | None => false
      | Some meta =>
          let people := match as_array (index meta "participants") with
                        | Some all => length (List.filter is_person all)
                        | None => 0
                        end in
          match index meta "kind" with JString k => String.eqb k "dm" | _ => false end
          && (people =? 2)
      end
  end.

Definition in_people_only (p : Path) : bool :=
  if existsb (fun c => String.eqb (component_text c) "dm_requests") p
     || match file_name p with Some n => String.eqb n "blocked_people.json" | None => false end
  then true
  else
    match List.find (fun dir => match parent dir ≫= file_name with
                                | Some n => String.eqb n "channels" | None => false end)
            (ancestors p) with
    | Some dir => is_person_dm_dir dir
    | None => false
    end.

Definition search_reaches_people (root : Path) (candidates : list Path) : bool :=
  if in_people_only root then true
  else existsb (fun channels => match read_dir channels with
                                | Some entries => existsb is_person_dm_dir entries
                                | None => false
                                end)
         (List.filter (fun channels => path_starts_with channels root) candidates).

(** [.] and [..] resolved in the text. *)
Definition lexical_step (acc : Path) (c : Component) : Path :=
  match c with
  | CurDir => acc
  | ParentDir => pop acc
  | other => push acc [other]
  end.
Definition lexical (p : Path) : Path := fold_left lexical_step p [].

(** The loop over ancestors; the path and its parents shorten, so its length
    bounds the turns. *)
Fixpoint resolve_loop (fuel : nat) (whole existing : Path) (rest : list Component) : Path :=
  match canonicalize existing with
  | Some canonical => fold_left (fun out part => push out [part]) rest canonical
  | None =>
      match fuel, parent existing, file_name existing with
      | S fuel, Some up, Some name => resolve_loop fuel whole up (Normal name :: rest)
      | _, _, _ => whole
      end
  end.
Definition resolve (p : Path) : Path :=
  let l := lexical p in resolve_loop (length l) l l [].

Definition search_root_refusal (stamp : ActingFor) (workspace data_dir : option Path) (root : Path)
    : option string :=
  let root := resolve root in
  let workspace := resolve <$> workspace in
  let home := workspace ≫= peko_home in
  let data := resolve <$> data_dir in
  let runtime_channels := components "runtime/channels" in
  let candidates :=
    match home with Some h => [push h runtime_channels] | None => [] end ++
    match data with
    | Some d => [push d runtime_channels; push d (components "channels")]
    | None => []
    end in
  if search_reaches_people root candidates then
    Some ("a search from " +:+ display root +:+ " would read conversations between people, which no peko reads; search a narrower folder")
  else if is_owner stamp then None
  else
    let reaches state := match state with Some s => path_starts_with s root | None => false end in
    if reaches home || reaches data then
      Some ("a search from " +:+ display root +:+ " would read the runtime's conversations and keys; while acting for "
            +:+ shown_actor (actor stamp) +:+ " (" +:+ trust_as_str (trust stamp)
            +:+ ") search inside the workspace or a project folder")
    else None.

(** [replace('\\', "/")] on the text of a relative path. *)
Definition slash_of (c : ascii) : ascii := if Ascii.eqb c "092" then SLASH else c.
Fixpoint forward_slashes (s : string) : string :=
  match s with EmptyString => EmptyString | String c s => String (slash_of c) (forward_slashes s) end.

Definition inside (relative dir : string) : bool :=
  String.eqb relative dir || starts_with (dir +:+ "/") relative.

Definition protected_relative (workspace p : Path) : option string :=
  match path_strip_prefix workspace p with
  | None => None
  | Some rel =>
      let relative := forward_slashes (display rel) in
      if contains PROTECTED_FILES relative || existsb (inside relative) PROTECTED_DIRS
         || inside relative INBOX_DIR
      then Some relative else None
  end.

Inductive PathDecision :=
  | Allow
  | Propose (relative : string)
  | Deny (reason : string).

(** [target.starts_with(root) && !target.starts_with(workspace)] when the
    workspace sits in a folder of pekos. *)
Definition foreign (workspace : option Path) (target : Path) : bool :=
  match workspace with
  | None => false
  | Some w =>
      match parent w with
      | Some root =>
          if match file_name root with Some n => is_pekos_dir_name n | None => false end
          then path_starts_with target root && negb (path_starts_with target w)
          else false
      | None => false
      end
  end.

Definition check_path (stamp : ActingFor) (workspace : option Path) (p : Path) (write : bool)
    : PathDecision :=
  let target := resolve p in
  if in_people_only target then
    Deny (display target +:+ " is a conversation between people (or their requests or blocks); no peko reads or writes it")
  else if write && in_tool_ledger target then
    Deny (display target +:+ " is a tool ledger; only the runtime writes it")
  else
    let workspace := resolve <$> workspace in
    if foreign workspace target && (write || negb (is_owner stamp)) then
      Deny (display target +:+ " belongs to another peko")
    else if negb (is_owner stamp) && is_runtime_state workspace target then
      Deny (display target +:+ " is the runtime's own state (conversations, keys, settings); only work done for the owner reaches it")
    else if is_untrusted stamp &&
            negb (match workspace with Some w => path_starts_with target w | None => false end) then
      Deny (display target +:+ " is outside this peko's workspace; while acting for "
            +:+ shown_actor (actor stamp) +:+ " (untrusted) only workspace files are reachable")
    else if negb write then Allow
    else
      match workspace with
      | None => Allow
      | Some w =>
          match protected_relative w target with
          | Some relative =>
              if inside relative INBOX_DIR then
                Deny (relative +:+ " is the proposal inbox; proposals are filed by the runtime")
              else if negb (is_owner stamp) then Propose relative
              else Allow
          | None => Allow
          end
      end.

End WithFileSystem.

(** [expand_tilde] (tools/builtin/paths.rs) as the text of the path, with the
    user's home directory. *)
Definition expand_tilde_text (home : option string) (path : string) : string :=
  if String.eqb path "~" then default "~" home
  else match strip_prefix "~/" path with
       | Some rest => push_text (default "~" home) rest
       | None => path
       end.
Definition expand_tilde (home : option string) (path : string) : Path := components (expand_tilde_text home path).

Definition file_tool_target (home : option string) (tool_name : string) (params : Json)
    : option (Path * bool) :=
  let target key write :=
    match as_str (index params key) with
    | Some raw => Some (expand_tilde home raw, write)
    | None => None
    end in
  if String.eqb tool_name "Read" then target "file_path" false
  else if String.eqb tool_name "Write" || String.eqb tool_name "Edit" then target "file_path" true
  else if String.eqb tool_name "Glob" || String.eqb tool_name "Grep" then target "path" false
  else None.

Definition glob_pattern_escapes (pattern : string) : bool :=
  starts_with "/" pattern || starts_with "~" pattern
  || existsb (fun c => bool_decide (c = ParentDir)) (components pattern).

(** ** Resolution *)

Lemma fold_push_normals r p :
  Forall (fun c => is_normal c = true) r -> fold_left (fun out part => push out [part]) r p = p ++ r.
Proof.
  revert p. induction r as [|c r IH]; intros p H; cbn [fold_left]; [by rewrite app_nil_r|].
  apply Forall_cons in H as [Hc Hr]. rewrite IH by done. destruct c; try done.
  cbn [push]. by rewrite <- app_assoc.
Qed.

Lemma fold_lexical_normals q l :
  Forall (fun c => is_normal c = true) q ->
  fold_left lexical_step q l = fold_left (fun out part => push out [part]) q l.
Proof. intros Hq. revert l. induction Hq as [|c q Hc Hq IH]; intros l; [done|]. cbn [fold_left]. rewrite IH. by destruct c. Qed.

Lemma clean_lexical p : clean p -> lexical p = p.
Proof.
  intros (q & -> & Hq). unfold lexical. cbn [fold_left]. rewrite fold_lexical_normals by done.
  by rewrite fold_push_normals.
Qed.

Lemma clean_pop p : clean p -> clean (pop p).
Proof.
  intros (q & -> & Hq). unfold pop, parent.
  destruct q as [|c q _] using rev_ind; [exists []; split; [reflexivity|constructor]|].
  apply Forall_app in Hq as [Hq Hc]. apply Forall_cons in Hc as [Hc _].
  rewrite app_comm_cons, last_snoc, removelast_last. destruct c; try discriminate Hc.
  exists q. split; [reflexivity|exact Hq].
Qed.

Lemma lexical_clean q : RootDir ∉ q -> clean (lexical (RootDir :: q)).
Proof.
  intros Hq. unfold lexical. cbn [fold_left lexical_step push].
  assert (Hc : clean [RootDir]) by (exists []; split; [reflexivity|constructor]). revert Hc. generalize [RootDir].
  induction q as [|c q IH]; intros l Hl; [done|]. cbn [fold_left].
  apply not_elem_of_cons in Hq as [Hne Hq]. apply IH; [done|]. destruct c as [| | |s]; [done|done|..].
  - by apply clean_pop.
  - cbn [lexical_step push]. apply clean_app; [done|]. by repeat constructor.
Qed.

(** Absolute as text gives it: one root, in front. *)
Lemma components_absolute s : starts_with "/" s = true -> exists q, components s = RootDir :: q /\ RootDir ∉ q.
Proof.
  intros (r & ->)%starts_with_true. unfold components. rewrite app_cons_str. cbn [split_on].
  rewrite Ascii.eqb_refl. cbn. eexists. split; [done|]. rewrite list_elem_of_In, in_flat_map.
  intros (part & _ & Hp). unfold inner_component in Hp.
  repeat (destruct (String.eqb part _); [by cbn in Hp; intuition|]). cbn in Hp. by intuition.
Qed.

Section Resolution.
Context `{F : FileSystem} `{L : !FileSystemLaws F}.

(** The canonical form of an existing part, then names that do not exist. *)
Definition resolved_as (p e r c out : Path) : Prop :=
  p = e ++ r /\ canonicalize e = Some c /\ out = c ++ r /\
  Forall (fun c => is_normal c = true) r /\
  (forall n r', r = n :: r' -> canonicalize (e ++ [n]) = None).

Lemma resolve_loop_spec fuel whole q rest :
  Forall (fun c => is_normal c = true) q -> Forall (fun c => is_normal c = true) rest ->
  length q <= fuel ->
  (forall n r', rest = n :: r' -> canonicalize ((RootDir :: q) ++ [n]) = None) ->
  exists e r c, resolved_as ((RootDir :: q) ++ rest) e r c (resolve_loop fuel whole (RootDir :: q) rest).
Proof.
  revert fuel rest. induction q as [|x q IH] using rev_ind; intros fuel rest Hq Hr Hf Hnone.
  - exists [RootDir], rest, [RootDir]. pose proof canonicalize_root as Hroot.
    repeat split; try done. destruct fuel; cbn [resolve_loop]; rewrite Hroot; by apply fold_push_normals.
  - destruct (canonicalize (RootDir :: q ++ [x])) as [c|] eqn:Ec.
    + exists (RootDir :: q ++ [x]), rest, c. repeat split; try done.
      destruct fuel; cbn [resolve_loop]; rewrite Ec; by apply fold_push_normals.
    + apply Forall_app in Hq as [Hq Hx]. apply Forall_cons in Hx as [Hx _].
      rewrite length_app in Hf. cbn in Hf. destruct fuel as [|fuel]; [lia|].
      cbn [resolve_loop]. rewrite Ec, !app_comm_cons.
      destruct x as [| | |name]; try done.
      rewrite parent_snoc, file_name_snoc by done.
      destruct (IH fuel (Normal name :: rest)) as (e & r & c & H); [done|by constructor|lia|..].
      * intros n r' [= <- <-]. exact Ec.
      * exists e, r, c. by rewrite <- app_assoc.
Qed.

Lemma resolve_spec q :
  RootDir ∉ q -> exists e r c, resolved_as (lexical (RootDir :: q)) e r c (resolve (RootDir :: q)).
Proof.
  intros Hq. destruct (lexical_clean q Hq) as (l & Hl & Hn). unfold resolve. rewrite Hl.
  destruct (resolve_loop_spec (length (RootDir :: l)) (RootDir :: l) l []) as (e & r & c & H);
    [done|constructor|cbn; lia|done|]. exists e, r, c. by rewrite app_nil_r in H.
Qed.

Lemma resolve_loop_missing fuel whole c r rest :
  canonicalize c = Some c -> Forall (fun x => is_normal x = true) r ->
  Forall (fun x => is_normal x = true) rest -> length r <= fuel ->
  (forall k, 0 < k <= length r -> canonicalize (c ++ take k r) = None) ->
  resolve_loop fuel whole (c ++ r) rest = c ++ r ++ rest.
Proof.
  intros Hc. revert fuel rest. induction r as [|x r IH] using rev_ind; intros fuel rest Hr Hrest Hf Hnone.
  - rewrite app_nil_r. destruct fuel; cbn [resolve_loop]; rewrite Hc; by apply fold_push_normals.
  - rewrite length_app in *. cbn in Hf. destruct fuel as [|fuel]; [lia|].
    apply Forall_app in Hr as [Hr Hx]. apply Forall_cons in Hx as [Hx _].
    cbn [resolve_loop]. pose proof (Hnone (length (r ++ [x]))) as Hlast.
    rewrite firstn_all, length_app in Hlast. rewrite Hlast by (cbn; lia).
    destruct x as [| | |name]; try done. rewrite app_assoc, parent_snoc, file_name_snoc by done.
    rewrite IH; [by rewrite <- !app_assoc|done|by constructor|lia|].
    intros k Hk. specialize (Hnone k). rewrite take_app_le in Hnone by lia. apply Hnone. cbn; lia.
Qed.

Lemma missing_prefixes p r :
  p <> [] -> Forall (fun x => is_normal x = true) r ->
  (forall n r', r = n :: r' -> canonicalize (p ++ [n]) = None) ->
  forall k, 0 < k <= length r -> canonicalize (p ++ take k r) = None.
Proof.
  intros Hp Hr Hfirst k Hk. destruct r as [|n r]; [cbn in Hk; lia|]. specialize (Hfirst n r eq_refl).
  apply Forall_cons in Hr as [_ Hr]. destruct k as [|k]; [lia|]. cbn in Hk |- *.
  assert (Hk' : k <= length r) by lia. clear Hk.
  induction k as [|k IH]; [done|].
  destruct (lookup_lt_is_Some_2 r k) as [x Hx]; [lia|]. rewrite (take_S_r _ _ _ Hx).
  change (n :: take k r ++ [x]) with ((n :: take k r) ++ [x]). rewrite app_assoc.
  apply canonicalize_parent; [by destruct p|apply IH; lia|].
  rewrite Forall_lookup in Hr. by apply (Hr k).
Qed.

(**  What is checked is what is touched: resolving an absolute path gives
    an absolute path without [.] or [..] whose existing part is canonical (no
    link left to follow), and resolving the result again changes nothing. *)
Theorem resolve_stable text :
  starts_with "/" text = true ->
  clean (resolve (components text)) /\
  resolve (resolve (components text)) = resolve (components text) /\
  exists c r, resolve (components text) = c ++ r /\ canonicalize c = Some c /\
    forall k, 0 < k <= length r -> canonicalize (c ++ take k r) = None.
Proof.
  intros (q & -> & Hq)%components_absolute.
  destruct (resolve_spec q Hq) as (e & r & c & He & Hc & Hout & Hr & Hfirst).
  pose proof (canonicalize_fixed _ _ Hc) as Hcc. pose proof (canonicalize_clean _ _ Hc) as Hclean.
  assert (Hmiss : forall k, 0 < k <= length r -> canonicalize (c ++ take k r) = None).
  { apply missing_prefixes; [by destruct Hclean as (? & -> & _)|done|].
    intros n r' Hrn. rewrite <- (canonicalize_step e c n Hc); [by apply (Hfirst n r')|].
    rewrite Hrn in Hr. by apply Forall_cons in Hr as [? _]. }
  assert (Hco : clean (c ++ r)) by (by apply clean_app). rewrite Hout. split; [done|]. split; [|eauto].
  unfold resolve. rewrite (clean_lexical _ Hco).
  rewrite resolve_loop_missing; [by rewrite app_nil_r|done|done|constructor|rewrite length_app; lia|done].
Qed.
End Resolution.

(** A file system with a root, one directory [/ws], and a link to it. *)
Module SmallDisk.
Definition ws : Path := [RootDir; Normal "ws"].
Definition canon (p : Path) : option Path :=
  match p with
  | [RootDir] => Some [RootDir]
  | [RootDir; Normal s] => if contains ["ws"; "link"] s then Some ws else None
  | _ => None
  end.
Definition fs : FileSystem :=
  {| canonicalize := canon; read _ := None; read_dir _ := None; from_slice _ := None |}.

Lemma canon_Some p q :
  canon p = Some q -> (p = [RootDir] /\ q = [RootDir]) \/ (length p = 2 /\ hd_error p = Some RootDir /\ q = ws).
Proof.
  destruct p as [|[] [|[] [|? ?]]]; cbn; try discriminate; [intros [= <-]; auto|].
  destruct (_ || _); [intros [= <-]; auto|discriminate].
Qed.
Lemma canon_long a b c p : canon (a :: b :: c :: p) = None.
Proof. by destruct a, b. Qed.

Lemma laws : FileSystemLaws fs.
Proof.
  split; cbn [canonicalize fs].
  - reflexivity.
  - intros p q [[_ ->]|(_ & _ & ->)]%canon_Some; eexists; (split; [reflexivity|]); by repeat constructor.
  - intros p q [[_ ->]|(_ & _ & ->)]%canon_Some; reflexivity.
  - intros p q c [[-> ->]|(Hl & _ & ->)]%canon_Some Hc; [done|].
    destruct p as [|a [|b [|? ?]]]; cbn in Hl; try discriminate. cbn [app ws]. by rewrite !canon_long.
  - intros p c Hp Hn Hc. destruct p as [|a [|b p]]; [done| |by apply canon_long || (cbn; destruct p; apply canon_long)].
    cbn [app]. destruct a; cbn in Hn |- *; done.
Qed.
End SmallDisk.

Lemma resolve_stable_witness :
  resolve (F := SmallDisk.fs) (components "/link/./x/../notes.md") = SmallDisk.ws ++ [Normal "notes.md"] /\
  clean (resolve (F := SmallDisk.fs) (components "/link/./x/../notes.md")).
Proof.
  split; [reflexivity|].
  apply (resolve_stable (L := SmallDisk.laws) "/link/./x/../notes.md"). reflexivity.
Defined.

(** ** The path floor *)

Section Decisions.
Context `{F : FileSystem}.
Implicit Types (stamp : ActingFor) (w target : Path).

Lemma forward_slashes_app s t : forward_slashes (s +:+ t) = forward_slashes s +:+ forward_slashes t.
Proof. induction s as [|c s IH]; [done|]. rewrite app_cons_str. cbn [forward_slashes]. by rewrite IH, app_cons_str. Qed.

(** Below a listed folder the text of the relative path says so. *)
Lemma below_inside (d : string) rel :
  forward_slashes (display (components d)) = d -> components d <> [] -> hd_error (components d) <> Some RootDir ->
  components d `prefix_of` rel -> inside (forward_slashes (display rel)) d = true.
Proof.
  intros Hd Hne Hroot [k ->]. unfold inside. destruct k as [|c k].
  - rewrite app_nil_r, Hd. by rewrite String.eqb_refl.
  - assert (Hdisp : forall p, p <> [] -> hd_error p <> Some RootDir -> display p = join_with "/" (map component_text p)).
    { intros [|[] p]; done. }
    rewrite Hdisp; [|by destruct (components d)..].
    rewrite map_app, join_app, forward_slashes_app, forward_slashes_app by (by destruct (components d)).
    rewrite <- Hdisp, Hd by done. apply orb_true_iff. right. apply starts_with_true.
    eexists. rewrite <- app_assoc_str. reflexivity.
Qed.

(** The paths only an owner run may write, and the inbox no run may. *)
Definition protected_path w target : Prop :=
  (exists f, f ∈ PROTECTED_FILES /\ target = w ++ components f) \/
  (exists d, d ∈ PROTECTED_DIRS /\ w ++ components d `prefix_of` target).
Definition inbox_path w target : Prop := w ++ components INBOX_DIR `prefix_of` target.

Lemma prefix_split w d target : w ++ d `prefix_of` target -> exists rel, target = w ++ rel /\ d `prefix_of` rel.
Proof. intros [k ->]. exists (d ++ k). split; [by rewrite app_assoc|by apply prefix_app_r]. Qed.

Lemma protected_relative_inbox w target :
  inbox_path w target ->
  exists rel, protected_relative w target = Some rel /\ inside rel INBOX_DIR = true.
Proof.
  intros (rel & -> & Hp)%prefix_split. unfold protected_relative.
  rewrite (proj2 (path_strip_prefix_Some w (w ++ rel) rel) eq_refl).
  pose proof (below_inside INBOX_DIR rel eq_refl ltac:(done) ltac:(done) Hp) as Hi.
  rewrite Hi, orb_true_r. eauto.
Qed.

Lemma protected_relative_covers w target :
  protected_path w target -> exists rel, protected_relative w target = Some rel.
Proof.
  intros [(f & Hf & ->)|(d & Hd & (rel & -> & Hp)%prefix_split)]; unfold protected_relative;
    rewrite (proj2 (path_strip_prefix_Some w _ _) eq_refl).
  - apply list_elem_of_In in Hf. cbn in Hf.
    repeat (destruct Hf as [<-|Hf]; [by eexists|]). done.
  - assert (Hi : inside (forward_slashes (display rel)) d = true).
    { apply list_elem_of_In in Hd. cbn in Hd.
      repeat (destruct Hd as [<-|Hd]; [by apply below_inside|]). done. }
    assert (He : existsb (inside (forward_slashes (display rel))) PROTECTED_DIRS = true).
    { apply existsb_exists. exists d. by rewrite <- list_elem_of_In. }
    rewrite He, orb_true_r. eauto.
Qed.

(** What an allowed or proposed call may not be. *)
Definition within_floor stamp (ws : option Path) target (write : bool) : Prop :=
  in_people_only target = false /\
  (write = true -> in_tool_ledger target = false /\ foreign ws target = false) /\
  (trust stamp <> Owner -> foreign ws target = false /\ is_runtime_state ws target = false) /\
  (trust stamp = Untrusted -> exists w, ws = Some w /\ w `prefix_of` target).

(** The reasons for which a call is refused. *)
Definition below_floor stamp (ws : option Path) target (write : bool) : Prop :=
  in_people_only target = true \/
  (write = true /\ in_tool_ledger target = true) \/
  (foreign ws target = true /\ (write = true \/ trust stamp <> Owner)) \/
  (trust stamp <> Owner /\ is_runtime_state ws target = true) \/
  (trust stamp = Untrusted /\ forall w, ws = Some w -> ~ w `prefix_of` target) \/
  (write = true /\ exists w rel, ws = Some w /\ protected_relative w target = Some rel /\
                                 inside rel INBOX_DIR = true).

Lemma is_owner_spec stamp : is_owner stamp = true <-> trust stamp = Owner.
Proof. unfold is_owner. apply bool_decide_eq_true. Qed.
Lemma is_untrusted_spec stamp : is_untrusted stamp = true <-> trust stamp = Untrusted.
Proof. unfold is_untrusted. apply bool_decide_eq_true. Qed.

Lemma not_owner stamp : is_owner stamp = false <-> trust stamp <> Owner.
Proof. rewrite <- is_owner_spec. by destruct (is_owner stamp). Qed.

Lemma inside_ws (ws : option Path) target :
  match ws with Some w => path_starts_with target w | None => false end = true <->
  exists w, ws = Some w /\ w `prefix_of` target.
Proof.
  destruct ws as [w|]; [rewrite path_starts_with_prefix|]; split; try done; [eauto|..].
  - by intros (? & [= <-] & ?).
  - by intros (? & [=] & ?).
Qed.

(** The write part of [check_path], once the place is within the floor. *)
Definition write_decision stamp (ws : option Path) target : PathDecision :=
  match ws with
  | None => Allow
  | Some w =>
      match protected_relative w target with
      | Some relative =>
          if inside relative INBOX_DIR then
            Deny (relative +:+ " is the proposal inbox; proposals are filed by the runtime")
          else if negb (is_owner stamp) then Propose relative
          else Allow
      | None => Allow
      end
  end.

Lemma check_path_cases stamp workspace p write :
  let target := resolve p in
  let ws := resolve <$> workspace in
  (exists msg, check_path stamp workspace p write = Deny msg /\ below_floor stamp ws target write) \/
  (check_path stamp workspace p write = (if write then write_decision stamp ws target else Allow) /\
   within_floor stamp ws target write).
Proof.
  intros target ws. unfold check_path. fold target ws. unfold within_floor, below_floor.
  destruct (in_people_only target) eqn:Ep; [left; eauto|].
  destruct (write && in_tool_ledger target) eqn:El.
  { apply andb_true_iff in El as [-> El]. left. eauto 8. }
  destruct (foreign ws target && (write || negb (is_owner stamp))) eqn:Ef.
  { apply andb_true_iff in Ef as [Ef1 Ef2%orb_true_iff]. left. eexists. split; [done|]. right; right; left.
    split; [done|]. destruct Ef2 as [?|H%negb_true_iff%not_owner]; auto. }
  destruct (negb (is_owner stamp) && is_runtime_state ws target) eqn:Er.
  { apply andb_true_iff in Er as [Er1%negb_true_iff%not_owner Er2]. left. eexists. split; [done|]. auto 8. }
  destruct (is_untrusted stamp && _) eqn:Eu.
  { apply andb_true_iff in Eu as [Eu1%is_untrusted_spec Eu2%negb_true_iff]. left. eexists. split; [done|].
    do 4 right. left. split; [done|]. intros w Hw Hp. apply not_true_iff_false in Eu2. apply Eu2, inside_ws. eauto. }
  right. split; [by destruct write|]. split; [done|]. split; [|split].
  - intros ->. split; [by apply andb_false_iff in El as [?|?]|].
    destruct (foreign ws target); [done|done].
  - intros Hn%not_owner. rewrite Hn, andb_true_l in Er. split; [|done].
    rewrite Hn, orb_true_r, andb_true_r in Ef. done.
  - intros Hu%is_untrusted_spec. rewrite Hu, andb_true_l in Eu. apply inside_ws.
    by apply negb_false_iff.
Qed.

(** An allowed write is outside the inbox and, unless it is the owner's,
    outside every protected place. *)
Lemma write_decision_Allow stamp (ws : option Path) target w :
  write_decision stamp ws target = Allow -> ws = Some w ->
  ~ inbox_path w target /\ (trust stamp <> Owner -> ~ protected_path w target).
Proof.
  intros H ->. unfold write_decision in H. destruct (protected_relative w target) as [rel|] eqn:Er.
  - assert (Hin : inbox_path w target -> inside rel INBOX_DIR = true).
    { intros (r & Hr & ?)%protected_relative_inbox. congruence. }
    destruct (inside rel INBOX_DIR); [done|]. split; [by intros ?%Hin|].
    intros Hn%not_owner. by rewrite Hn in H.
  - split; [intros (r & Hr & _)%protected_relative_inbox|intros _ (r & Hr)%protected_relative_covers]; congruence.
Qed.
Lemma check_path_Allow stamp workspace p write :
  let target := resolve p in
  let ws := resolve <$> workspace in
  check_path stamp workspace p write = Allow ->
  within_floor stamp ws target write /\
  (write = true -> forall w, ws = Some w ->
     ~ inbox_path w target /\ (trust stamp <> Owner -> ~ protected_path w target)).
Proof.
  intros target ws H. destruct (check_path_cases stamp workspace p write) as [(msg & Hm & _)|[Hc Hw]]; [congruence|].
  split; [done|]. intros -> w Hws. rewrite H in Hc. by eapply write_decision_Allow.
Qed.


(** ** More trust never allows less *)

(** [s] is [s'] with at most its trust. *)
Record lower (s s' : ActingFor) : Prop := {
  lower_compartment : compartment s = compartment s';
  lower_origin : origin s = origin s';
  lower_owner : is_owner s = true -> is_owner s' = true;
  lower_untrusted : is_untrusted s' = true -> is_untrusted s = true;
}.

Lemma capped_lower stamp c : lower (capped stamp c) stamp.
Proof.
  pose proof (trust_min_le_l (trust stamp) c) as H. split; [done|done|..].
  - rewrite !is_owner_spec. by apply trust_le_owner.
  - rewrite !is_untrusted_spec. by apply trust_le_untrusted.
Qed.

Lemma owner_not_untrusted stamp : is_owner stamp = true -> is_untrusted stamp = false.
Proof. unfold is_owner, is_untrusted. by destruct (trust stamp). Qed.

Section Lower.
Context (s s' : ActingFor) (H : lower s s').

Lemma lower_cases :
  (is_owner s = true /\ is_untrusted s = false /\ is_owner s' = true /\ is_untrusted s' = false) \/
  (is_owner s = false /\ is_owner s' = true /\ is_untrusted s' = false) \/
  (is_owner s = false /\ is_untrusted s = true /\ is_owner s' = false) \/
  (is_owner s = false /\ is_untrusted s = false /\ is_owner s' = false /\ is_untrusted s' = false).
Proof.
  pose proof (lower_owner _ _ H). pose proof (lower_untrusted _ _ H).
  pose proof (owner_not_untrusted s). pose proof (owner_not_untrusted s').
  destruct (is_owner s), (is_owner s'), (is_untrusted s), (is_untrusted s'); intuition congruence.
Qed.

(** Splits on the trust of both stamps, leaving the possible combinations. *)
Ltac trust_cases :=
  rewrite <- ?(lower_compartment _ _ H), <- ?(lower_origin _ _ H);
  let E1 := fresh in let E2 := fresh in let E3 := fresh in let E4 := fresh in
  destruct lower_cases as [(E1 & E2 & E3 & E4)|[(E1 & E2 & E3)|[(E1 & E2 & E3)|(E1 & E2 & E3 & E4)]]];
  rewrite ?E1, ?E2, ?E3, ?E4; cbn [negb andb orb]; rewrite ?andb_false_r, ?andb_true_r, ?orb_false_r, ?orb_true_r;
  auto.

Lemma tool_refusal_lower tool mcp : tool_refusal s tool mcp = None -> tool_refusal s' tool mcp = None.
Proof.
  unfold tool_refusal, is_memory_run. trust_cases; repeat case_match; done.
Qed.

Lemma action_refusal_lower tool params :
  action_refusal s tool params = None -> action_refusal s' tool params = None.
Proof. unfold action_refusal. trust_cases; repeat case_match; done. Qed.

Lemma owner_decides_lower tool params :
  owner_decides s tool params = None -> owner_decides s' tool params = None.
Proof. unfold owner_decides. trust_cases; repeat case_match; done. Qed.

Lemma needs_review_lower tool params :
  needs_review s tool params = false -> needs_review s' tool params = false.
Proof. unfold needs_review. trust_cases; repeat case_match; done. Qed.

Lemma may_reach_lower k : may_reach s k = true -> may_reach s' k = true.
Proof. unfold may_reach. trust_cases; repeat case_match; done. Qed.

Lemma search_root_refusal_lower ws data root :
  search_root_refusal s ws data root = None -> search_root_refusal s' ws data root = None.
Proof.
  unfold search_root_refusal. destruct (search_reaches_people _ _); [done|].
  trust_cases; repeat case_match; done.
Qed.

Lemma check_path_lower ws p write : check_path s ws p write = Allow -> check_path s' ws p write = Allow.
Proof.
  unfold check_path. destruct (in_people_only _); [done|]. destruct (write && _); [done|].
  destruct (foreign _ _), write, (is_runtime_state _ _); trust_cases; rewrite ?andb_false_r in *;
    repeat case_match; rewrite ?andb_false_r in *; cbn in *; congruence.
Qed.
End Lower.

(**  Lowering a stamp's trust never opens anything: each tool, action,
    file access, search root and session the capped stamp is granted, and each
    call it may make without review, the stamp itself was granted. *)
Theorem trust_cap_monotone stamp c :
  (forall tool mcp, tool_refusal (capped stamp c) tool mcp = None -> tool_refusal stamp tool mcp = None) /\
  (forall tool params, action_refusal (capped stamp c) tool params = None ->
                       action_refusal stamp tool params = None) /\
  (forall tool params, owner_decides (capped stamp c) tool params = None ->
                       owner_decides stamp tool params = None) /\
  (forall tool params, needs_review (capped stamp c) tool params = false ->
                       needs_review stamp tool params = false) /\
  (forall ws p write, check_path (capped stamp c) ws p write = Allow ->
                      check_path stamp ws p write = Allow) /\
  (forall ws data root, search_root_refusal (capped stamp c) ws data root = None ->
                        search_root_refusal stamp ws data root = None) /\
  (forall k, may_reach (capped stamp c) k = true -> may_reach stamp k = true).
Proof.
  pose proof (capped_lower stamp c) as H.
  repeat split; intros *; [by apply tool_refusal_lower|by apply action_refusal_lower
    |by apply owner_decides_lower|by apply needs_review_lower|by apply check_path_lower
    |by apply search_root_refusal_lower|by apply may_reach_lower].
Qed.
End Decisions.
