(* ===== verification/Stamps.v ===== *)
(** * Stamps: deriving whom a run acts for

    peko-rs/core/src/security/stamps.rs with the principal's trust source
    (core/src/principal/trust.rs) and the part of the channel port it uses
    (channel/src/port.rs). *)

From Stdlib Require Import ZArith Lia Ascii.
From stdpp Require Import base tactics list gmap strings.
From S2P Require Import Prelude Subject Auth ActingFor Actors.

Local Open Scope nat_scope.

(** ** The channel port, as seen from here *)

(** The trait's methods used here. *)
Record ChannelPort := {
  port_actor_info : ActorRef -> ActorInfo;
  port_key_of : ActorRef -> string;
  list_members : string -> result (list ActorRef) string;
  participants : string -> result (list ActorInfo) string;
}.
(** The trait's body of [participants], for a port that has no other. *)
Definition default_participants (port_info : ActorRef -> ActorInfo)
    (members : string -> result (list ActorRef) string) (channel : string) : result (list ActorInfo) string :=
  match members channel with
  | Ok members => Ok (map port_info members)
  | Err e => Err e
  end.
Definition PortKeys (port : ChannelPort) : ActorKeys := port_key_of port.

(** ** Trust *)

#[local] Existing Instance Ownership.Permission_eq_dec.

Definition trust_for (owner : ActorRef) (grants : list Ownership.PermissionGrant) (keys : ActorKeys)
    (a : ActorRef) : Trust :=
  if same_actor keys owner a then Owner
  else if existsb (fun g => bool_decide (Ownership.grant_permission g = Ownership.Trusted)
                            && same_actor keys (Ownership.grant_subject g) a) grants
  then Trusted else Untrusted.

(** The owner and grants of a principal's configuration. *)
Record PrincipalConfig := {
  config_owner : ActorRef;
  config_permissions : list Ownership.PermissionGrant;
}.

(** trust.rs: [None] once the principal is gone. *)
Definition source_trust_of (config : option PrincipalConfig) (a : ActorRef) (keys : ActorKeys) : Trust :=
  match config with
  | None => Untrusted
  | Some c => trust_for (config_owner c) (config_permissions c) keys a
  end.
Definition source_owner (config : option PrincipalConfig) : ActorRef :=
  match config with
  | Some c => config_owner c
  | None => User (route_parse "local")
  end.

(** ** Sessions *)

Abbreviation SessionId := string.
Record SessionMetadata := {
  session_id : SessionId;
  parent_session_id : option SessionId;
  channel_id : option string;
  meta_compartment : option Compartment;
}.

Definition find_meta (metas : list SessionMetadata) (id : SessionId) : option SessionMetadata :=
  List.find (fun m => bool_decide (session_id m = id)) metas.

(** [seen.insert] fails on an id met before and ends the walk.  Each turn that
    goes on finds a session of its own, so one turn more than there are
    sessions is enough; [None] is the walk still running. *)
Fixpoint compartment_walk (fuel : nat) (metas : list SessionMetadata) (seen : gset SessionId)
    (current : option SessionId) : option Compartment :=
  match current with
  | None => Some Internal
  | Some id =>
      if bool_decide (id ∈ seen) then Some Internal
      else match fuel with
      | O => None
      | S fuel =>
          match find_meta metas id with
          | None => Some Internal
          | Some meta =>
              match meta_compartment meta, channel_id meta with
              | Some c, _ => Some c
              | None, Some channel => Some (Conversation channel)
              | None, None => compartment_walk fuel metas ({[id]} ∪ seen) (parent_session_id meta)
              end
          end
      end
  end.
Definition compartment_of (metas : list SessionMetadata) (session : SessionId) : option Compartment :=
  compartment_walk (S (length metas)) metas ∅ (Some session).

Definition may_reach_session (stamp : ActingFor) (metas : list SessionMetadata) (session : SessionId) : bool :=
  match compartment_of metas session with Some c => may_reach stamp c | None => false end.

(** The inner loop of [visible_metas]: keep the session and its ancestors. *)
Fixpoint keep_chain (fuel : nat) (metas : list SessionMetadata) (keep : gset SessionId)
    (current : option SessionId) : option (gset SessionId) :=
  match current with
  | None => Some keep
  | Some id =>
      if bool_decide (id ∈ keep) then Some keep
      else match fuel with
      | O => None
      | S fuel => keep_chain fuel metas ({[id]} ∪ keep) (find_meta metas id ≫= parent_session_id)
      end
  end.
Fixpoint keep_all (stamp : ActingFor) (metas todo : list SessionMetadata) (keep : gset SessionId)
    : option (gset SessionId) :=
  match todo with
  | [] => Some keep
  | meta :: todo =>
      if may_reach_session stamp metas (session_id meta)
      then keep ← keep_chain (S (length metas)) metas keep (Some (session_id meta));
           keep_all stamp metas todo keep
      else keep_all stamp metas todo keep
  end.
Definition visible_metas (stamp : ActingFor) (metas : list SessionMetadata) : option (list SessionMetadata) :=
  if is_owner stamp then Some metas
  else keep ← keep_all stamp metas metas ∅;
       Some (List.filter (fun m => bool_decide (session_id m ∈ keep)) metas).

(** ** Stamps *)

Record Driver := { driver_actor : string; driver_name : option string; driver_trust : Trust }.
Definition driver_from (s : ActingFor) : Driver :=
  {| driver_actor := actor s; driver_name := actor_name s; driver_trust := trust s |}.

Record Stamps := {
  principal : string;
  trust_source : option PrincipalConfig;
  channels : option ChannelPort;
}.

Definition trust_of (st : Stamps) (a : ActorRef) : Trust :=
  match channels st with
  | Some port => source_trust_of (trust_source st) a (PortKeys port)
  | None => source_trust_of (trust_source st) a CanonicalKeys
  end.

Definition address_of (st : Stamps) (subject : ActorRef) : string * option string :=
  match channels st with
  | Some port => let info := port_actor_info port subject in (address info, info_name info)
  | None => (address (from_subject subject None), None)
  end.

Definition owner_driver (st : Stamps) : Driver :=
  let '(a, n) := address_of st (source_owner (trust_source st)) in
  {| driver_actor := a; driver_name := n; driver_trust := Owner |}.

Definition driver (st : Stamps) (author authority : ActorRef) : Driver :=
  let '(a, n) := address_of st author in
  {| driver_actor := a; driver_name := n; driver_trust := trust_of st authority |}.

(** The principal itself, as the port knows it. *)
Definition own_key (st : Stamps) (port : ChannelPort) : string :=
  identity_key (port_actor_info port (Principal (route_local (principal st)))).

Fixpoint least_trust (st : Stamps) (port : ChannelPort) (members : list ActorRef) (ceiling : option Trust)
    : option Trust :=
  match members with
  | [] => ceiling
  | member :: members =>
      if String.eqb (identity_key (port_actor_info port member)) (own_key st port)
      then least_trust st port members ceiling
      else
        let t := trust_of st member in
        least_trust st port members (Some (match ceiling with Some c => trust_min c t | None => t end))
  end.

Definition ceiling (st : Stamps) (c : Compartment) : Trust :=
  match c with
  | Internal => Owner
  | Detached => Untrusted
  | Conversation channel =>
      match channels st with
      | None => Untrusted
      | Some port =>
          match list_members port channel with
          | Err _ => Untrusted
          | Ok members => default Untrusted (least_trust st port members None)
          end
      end
  end.

Definition counterpart (st : Stamps) (channel : string) : string * option string :=
  match channels st with
  | None => (channel, None)
  | Some port =>
      match participants port channel with
      | Err _ => (channel, None)
      | Ok ps =>
          match List.filter (fun p => negb (String.eqb (identity_key p) (own_key st port))) ps with
          | [only] => (address only, info_name only)
          | _ => (channel, None)
          end
      end
  end.

Definition is_member (st : Stamps) (channel a : string) : bool :=
  match channels st with
  | None => false
  | Some port =>
      match participants port channel with
      | Ok ps => existsb (fun p => String.eqb (address p) a) ps
      | Err _ => false
      end
  end.

Definition enter (st : Stamps) (d : Driver) (c : Compartment) (o : Origin) : ActingFor :=
  let own := (driver_actor d, driver_name d) in
  let '(a, n) := match c with
                 | Conversation channel =>
                     if negb (is_member st channel (driver_actor d)) then counterpart st channel else own
                 | _ => own
                 end in
  {| actor := a; actor_name := n; trust := trust_min (driver_trust d) (ceiling st c);
     compartment := c; origin := o |}.

Definition derive (st : Stamps) (caller : ActingFor) (target : Compartment) : ActingFor :=
  if bool_decide (compartment caller = target) then capped caller (ceiling st target)
  else enter st (driver_from caller) target (origin caller).

Definition natural (st : Stamps) (c : Compartment) (o : Origin) : ActingFor :=
  match c with
  | Conversation channel =>
      let '(a, n) := counterpart st channel in
      {| actor := a; actor_name := n; trust := ceiling st c; compartment := c; origin := o |}
  | _ => enter st (owner_driver st) c o
  end.

(** ** Trust only falls *)

Lemma trust_enter st d c o :
  trust (enter st d c o) = trust_min (driver_trust d) (ceiling st c) /\ compartment (enter st d c o) = c.
Proof. unfold enter. destruct c; cbn; repeat case_match; done. Qed.

Lemma derive_spec st s c :
  trust (derive st s c) = trust_min (trust s) (ceiling st c) /\ compartment (derive st s c) = c.
Proof. unfold derive. case_bool_decide; [by subst|apply (trust_enter st (driver_from s))]. Qed.

Lemma least_trust_acc st port members c :
  exists t, least_trust st port members (Some c) = Some t /\ trust_le t c.
Proof.
  revert c. induction members as [|m ms IH]; intros c; cbn [least_trust]; [exists c; done|].
  destruct (String.eqb _ _); [apply IH|].
  destruct (IH (trust_min c (trust_of st m))) as (t & Ht & Hle). exists t. split; [done|].
  etrans; [done|]. apply trust_min_le_l.
Qed.

Lemma least_trust_le st port members acc m :
  m ∈ members -> identity_key (port_actor_info port m) <> own_key st port ->
  exists t, least_trust st port members acc = Some t /\ trust_le t (trust_of st m).
Proof.
  revert acc. induction members as [|m' ms IH]; intros acc Hin Hne; [by apply elem_of_nil in Hin|].
  cbn [least_trust]. apply elem_of_cons in Hin as [<-|Hin].
  - rewrite (proj2 (String.eqb_neq _ _) Hne).
    destruct (least_trust_acc st port ms (match acc with Some c => trust_min c (trust_of st m) | None => trust_of st m end))
      as (t & Ht & Hle).
    exists t. split; [done|]. etrans; [done|]. destruct acc; [apply trust_min_le_r|done].
  - destruct (String.eqb _ _); by apply IH.
Qed.

(**  C4. Trust only falls along a chain of runs: whatever sessions a run and
    its descendants enter, with the membership and grants of each moment, the
    last stamp is trusted no more than the first, nor than the ceiling of any
    session entered; and a conversation's ceiling is at most the trust of each
    participant other than the principal itself, so one participant without
    the owner's consent leaves every later run of the chain untrusted. *)
Theorem trust_never_rises (hops : list (Stamps * Compartment)) (first : ActingFor) :
  let final := fold_left (fun s hop => derive hop.1 s hop.2) hops first in
  trust_le (trust final) (trust first) /\
  (forall st c, (st, c) ∈ hops -> trust_le (trust final) (ceiling st c)) /\
  (forall st channel port members m, (st, Conversation channel) ∈ hops ->
     channels st = Some port -> list_members port channel = Ok members -> m ∈ members ->
     identity_key (port_actor_info port m) <> own_key st port ->
     trust_le (trust final) (trust_of st m)).
Proof.
  intros final.
  assert (Hall : trust_le (trust final) (trust first) /\
                 forall st c, (st, c) ∈ hops -> trust_le (trust final) (ceiling st c)).
  { subst final. revert first. induction hops as [|[st c] hops IH]; intros first; cbn [fold_left fst snd].
    { split; [done|]. by intros ? ? []%elem_of_nil. }
    destruct (IH (derive st first c)) as [IH1 IH2]. destruct (derive_spec st first c) as [Ht _].
    rewrite Ht in IH1. split; [etrans; [exact IH1|apply trust_min_le_l]|].
    intros st' c' [[= -> ->]|Hin]%elem_of_cons; [|by apply IH2].
    etrans; [exact IH1|apply trust_min_le_r]. }
  destruct Hall as [H1 H2]. split; [done|split; [done|]].
  intros st channel port members m Hin Hp Hm Hmem Hne. etrans; [by apply (H2 st)|].
  cbn [ceiling]. rewrite Hp, Hm.
  destruct (least_trust_le st port members None m Hmem Hne) as (t & -> & Hle). done.
Qed.

(** ** Compartments of sessions *)

(** The nearest session up the chain that says where it belongs. *)
Inductive belongs (metas : list SessionMetadata) : SessionId -> Compartment -> Prop :=
  | belongs_unknown id : find_meta metas id = None -> belongs metas id Internal
  | belongs_stamped id m c :
      find_meta metas id = Some m -> meta_compartment m = Some c -> belongs metas id c
  | belongs_bound id m channel :
      find_meta metas id = Some m -> meta_compartment m = None -> channel_id m = Some channel ->
      belongs metas id (Conversation channel)
  | belongs_root id m :
      find_meta metas id = Some m -> meta_compartment m = None -> channel_id m = None ->
      parent_session_id m = None -> belongs metas id Internal
  | belongs_parent id m up c :
      find_meta metas id = Some m -> meta_compartment m = None -> channel_id m = None ->
      parent_session_id m = Some up -> belongs metas up c -> belongs metas id c.

Lemma find_meta_Some metas id m : find_meta metas id = Some m -> m ∈ metas /\ session_id m = id.
Proof.
  intros [Hin Heq%bool_decide_eq_true]%find_some. by rewrite list_elem_of_In.
Qed.

(** Ids of the sessions a walk can still meet. *)
Definition unseen (metas : list SessionMetadata) (seen : gset SessionId) : nat :=
  size (list_to_set (map session_id metas) ∖ seen).

Lemma unseen_step metas seen id m :
  find_meta metas id = Some m -> id ∉ seen -> unseen metas ({[id]} ∪ seen) < unseen metas seen.
Proof.
  intros [Hin <-]%find_meta_Some Hns. unfold unseen.
  assert (Hid : session_id m ∈ (list_to_set (map session_id metas) : gset SessionId)).
  { apply elem_of_list_to_set. by apply list_elem_of_fmap_2. }
  apply subset_size. set_solver.
Qed.

Lemma unseen_empty metas : unseen metas ∅ <= length metas.
Proof.
  unfold unseen. rewrite difference_empty_L.
  induction metas as [|m metas IH]; cbn [map list_to_set length]; [by rewrite size_empty|].
  rewrite size_union_alt, size_singleton.
  assert (size ((list_to_set (map session_id metas) : gset SessionId) ∖ {[session_id m]})
          <= size (list_to_set (map session_id metas) : gset SessionId)) by (apply subseteq_size; set_solver).
  lia.
Qed.

(** The walk ends, at the session's compartment if a chain leads to one not
    behind an id already met, and at [Internal] on a cycle. *)
Lemma compartment_walk_total fuel metas seen current :
  unseen metas seen < fuel -> exists c, compartment_walk fuel metas seen current = Some c.
Proof.
  revert seen current. induction fuel as [|fuel IH]; intros seen current Hf; [lia|].
  destruct current as [id|]; cbn [compartment_walk]; [|eauto].
  case_bool_decide as Hs; [eauto|]. destruct (find_meta metas id) as [m|] eqn:Em; [|eauto].
  destruct (meta_compartment m), (channel_id m); eauto.
  apply IH. pose proof (unseen_step metas seen id m Em Hs). lia.
Qed.

(** [belongs] with the length of its chain, which the session determines. *)
Inductive belongs_in (metas : list SessionMetadata) : nat -> SessionId -> Compartment -> Prop :=
  | belongs_in_here id c :
      (forall m, find_meta metas id = Some m -> meta_compartment m = None -> channel_id m = None ->
                 parent_session_id m = None) ->
      belongs metas id c -> belongs_in metas 0 id c
  | belongs_in_up n id m up c :
      find_meta metas id = Some m -> meta_compartment m = None -> channel_id m = None ->
      parent_session_id m = Some up -> belongs_in metas n up c -> belongs_in metas (S n) id c.

Lemma belongs_length metas id c : belongs metas id c -> exists n, belongs_in metas n id c.
Proof.
  induction 1 as [id H|id m c H1 H2|id m ch H1 H2 H3|id m H1 H2 H3 H4|id m up c H1 H2 H3 H4 H5 [n IH]].
  - exists 0. constructor; [congruence|by constructor].
  - exists 0. constructor; [congruence|by econstructor].
  - exists 0. constructor; [congruence|by econstructor].
  - exists 0. constructor; [congruence|by eapply belongs_root].
  - exists (S n). by econstructor.
Qed.

Lemma belongs_in_length metas n n' id c c' :
  belongs_in metas n id c -> belongs_in metas n' id c' -> n = n'.
Proof.
  intros H. revert n' c'. induction H as [id c Hup Hb|n id m up c H1 H2 H3 H4 H5 IH]; intros n' c' H'.
  - inversion H' as [|? ? m up ? G1 G2 G3 G4 G5]; subst; [done|]. specialize (Hup m G1 G2 G3). congruence.
  - inversion H' as [? ? Hup Hb|? ? m' up' ? G1 G2 G3 G4 G5]; subst.
    + specialize (Hup m H1 H2 H3). congruence.
    + assert (m' = m) as -> by congruence. assert (up' = up) as -> by congruence. f_equal. by eapply IH.
Qed.

Lemma compartment_walk_belongs fuel metas seen id c c' n :
  belongs_in metas n id c ->
  (forall x, x ∈ seen -> exists n' d, belongs_in metas n' x d /\ n < n') ->
  compartment_walk fuel metas seen (Some id) = Some c' -> c' = c.
Proof.
  revert fuel seen id. induction n as [|n IH]; intros fuel seen id Hb Hseen Hw.
  all: assert (Hs : id ∉ seen)
    by (intros Hs; destruct (Hseen id Hs) as (n' & d & Hd & Hlt);
        pose proof (belongs_in_length _ _ _ _ _ _ Hb Hd); lia).
  all: destruct fuel as [|fuel]; cbn [compartment_walk] in Hw;
    rewrite bool_decide_eq_false_2 in Hw by done; [done|].
  - inversion Hb as [? ? Hup Hbl|]; subst. clear Hb Hseen Hs.
    destruct Hbl as [id E|id m c E E1|id m ch E E1 E2|id m E E1 E2 E3|id m up c E E1 E2 E3];
      rewrite E in Hw.
    + congruence.
    + rewrite E1 in Hw. congruence.
    + rewrite E1, E2 in Hw. congruence.
    + rewrite E1, E2, E3 in Hw. destruct fuel; cbn in Hw; congruence.
    + specialize (Hup m E E1 E2). congruence.
  - inversion Hb as [|? ? m up ? E E1 E2 E3 Hup]; subst.
    rewrite E, E1, E2, E3 in Hw. apply (IH fuel ({[id]} ∪ seen) up Hup); [|done].
    intros x [->%elem_of_singleton|Hx]%elem_of_union; [eauto|].
    destruct (Hseen x Hx) as (n' & d & Hd & Hlt). exists n', d. split; [done|lia].
Qed.

Lemma compartment_walk_sound fuel metas seen id c :
  compartment_walk fuel metas seen (Some id) = Some c -> belongs metas id c \/ c = Internal.
Proof.
  revert seen id. induction fuel as [|fuel IH]; intros seen id; cbn [compartment_walk];
    case_bool_decide; try (intros [= <-]; auto).
  destruct (find_meta metas id) as [m|] eqn:E; [|intros [= <-]; auto].
  destruct (meta_compartment m) as [k|] eqn:E1; [intros [= <-]; left; by econstructor|].
  destruct (channel_id m) as [ch|] eqn:E2; [intros [= <-]; left; by eapply belongs_bound|].
  destruct (parent_session_id m) as [up|] eqn:E3.
  - intros [Hb|Hc]%IH; [left; by eapply belongs_parent|auto].
  - destruct fuel; intros [= <-]; auto.
Qed.

Lemma compartment_of_spec metas id :
  exists c, compartment_of metas id = Some c /\
    (forall d, belongs metas id d -> c = d) /\ ((forall d, ~ belongs metas id d) -> c = Internal).
Proof.
  unfold compartment_of.
  destruct (compartment_walk_total (S (length metas)) metas ∅ (Some id)) as [c Hc].
  { pose proof (unseen_empty metas). lia. }
  exists c. split; [done|]. split.
  - intros d (n & Hn)%belongs_length. apply (compartment_walk_belongs _ _ _ _ _ _ n Hn) in Hc; [done|].
    intros x Hx. by apply elem_of_empty in Hx.
  - intros Hno. apply compartment_walk_sound in Hc as [Hc|]; [by destruct (Hno c)|done].
Qed.

(** ** What a run sees *)

(** [top] is the session itself or an ancestor of it. *)
Inductive above (metas : list SessionMetadata) : SessionId -> SessionId -> Prop :=
  | above_refl id : above metas id id
  | above_up id m up top :
      find_meta metas id = Some m -> parent_session_id m = Some up -> above metas up top ->
      above metas id top.

(** Every kept session's parent is kept, or is the one to visit next. *)
Definition parents_in (metas : list SessionMetadata) (keep : gset SessionId) (next : option SessionId) : Prop :=
  forall x m up, x ∈ keep -> find_meta metas x = Some m -> parent_session_id m = Some up ->
    up ∈ keep \/ next = Some up.

Lemma keep_chain_spec fuel metas keep cur :
  parents_in metas keep cur -> unseen metas keep < fuel ->
  exists keep', keep_chain fuel metas keep cur = Some keep' /\ keep ⊆ keep' /\
    (forall id, cur = Some id -> id ∈ keep') /\ parents_in metas keep' None /\
    (forall x, x ∈ keep' -> x ∈ keep \/ exists id, cur = Some id /\ above metas id x).
Proof.
  revert keep cur. induction fuel as [|fuel IH]; intros keep cur Hp Hf; [lia|].
  destruct cur as [id|]; cbn [keep_chain]; [|exists keep; repeat split; auto; done].
  case_bool_decide as Hk.
  { exists keep. split; [done|]. split; [done|]. split; [by intros ? [= <-]|]. split; [|auto].
    intros x m up Hx Hm Hup. destruct (Hp x m up Hx Hm Hup) as [?|[= ->]]; auto. }
  assert (Hp' : parents_in metas ({[id]} ∪ keep) (find_meta metas id ≫= parent_session_id)).
  { intros x m up [->%elem_of_singleton|Hx]%elem_of_union Hm Hup.
    - right. rewrite Hm. done.
    - left. destruct (Hp x m up Hx Hm Hup) as [?|[= ->]]; set_solver. }
  destruct (find_meta metas id) as [m|] eqn:Em; cbn [mbind option_bind] in *.
  - destruct (IH _ _ Hp') as (keep' & H1 & H2 & H3 & H4 & H5);
      [pose proof (unseen_step metas keep id m Em Hk); lia|].
    exists keep'. split; [done|]. split; [set_solver|]. split; [intros ? [= <-]; set_solver|]. split; [done|].
    intros x [Hx|(up & Hup & Ha)]%H5.
    + apply elem_of_union in Hx as [->%elem_of_singleton|?]; [right; exists id; split; [done|constructor]|auto].
    + right. exists id. split; [done|]. by eapply above_up.
  - exists ({[id]} ∪ keep). split; [by destruct fuel|]. split; [set_solver|].
    split; [intros ? [= <-]; set_solver|]. split; [done|].
    intros x [->%elem_of_singleton|?]%elem_of_union; [right; exists id; split; [done|constructor]|auto].
Qed.

Lemma above_closed metas keep id x :
  parents_in metas keep None -> id ∈ keep -> above metas id x -> x ∈ keep.
Proof.
  intros Hp Hin Ha. induction Ha as [|id m up top Hm Hup Ha IH]; [done|].
  apply IH. by destruct (Hp id m up Hin Hm Hup).
Qed.

Lemma unseen_mono metas keep : unseen metas keep <= length metas.
Proof.
  transitivity (unseen metas ∅); [|apply unseen_empty]. unfold unseen. apply subseteq_size. set_solver.
Qed.

Lemma keep_all_spec stamp metas todo keep :
  parents_in metas keep None ->
  exists keep', keep_all stamp metas todo keep = Some keep' /\ parents_in metas keep' None /\
    forall x, x ∈ keep' <-> x ∈ keep \/ exists m, m ∈ todo /\
      may_reach_session stamp metas (session_id m) = true /\ above metas (session_id m) x.
Proof.
  revert keep. induction todo as [|m todo IH]; intros keep Hp; cbn [keep_all].
  { exists keep. split; [done|split; [done|]]. intros x. split; [auto|].
    intros [?|(? & []%elem_of_nil & _)]; done. }
  destruct (may_reach_session stamp metas (session_id m)) eqn:Er.
  - destruct (keep_chain_spec (S (length metas)) metas keep (Some (session_id m))) as (k1 & -> & G1 & G2 & G3 & G4).
    { intros x u up Hx Hu Hup. by destruct (Hp x u up Hx Hu Hup) as [?|?]; [left|]. }
    { pose proof (unseen_mono metas keep). lia. }
    cbn [mbind option_bind]. destruct (IH k1 G3) as (k2 & -> & H2 & H3).
    exists k2. split; [done|split; [done|]]. intros x. rewrite H3. split.
    + intros [[?|(id & [= <-] & Ha)]%G4|(u & ? & ? & ?)]; [auto|..]; right.
      * exists m. rewrite elem_of_cons. auto.
      * exists u. rewrite elem_of_cons. auto.
    + intros [?|(u & [->|?]%elem_of_cons & ? & Ha)]; [left; set_solver|left|right; eauto].
      eapply above_closed; [done|by apply G2|done].
  - destruct (IH keep Hp) as (k2 & -> & H2 & H3). exists k2. split; [done|split; [done|]].
    intros x. rewrite H3. split; (intros [?|(u & Hu & ? & ?)]; [auto|right]).
    + exists u. rewrite elem_of_cons. auto.
    + apply elem_of_cons in Hu as [->|?]; [congruence|eauto].
Qed.

(**  What a run sees of the session store: the walk over ancestors ends on
    every store, cyclic ones included, and finds the compartment of the nearest
    ancestor that names one; an owner run sees every session, and any other run
    exactly the sessions of its own compartment and their ancestors. *)
Theorem visible_metas_exact stamp metas :
  exists vs, visible_metas stamp metas = Some vs /\
    forall m, m ∈ vs <-> m ∈ metas /\
      (trust stamp = Owner \/
       exists m' c, m' ∈ metas /\ compartment_of metas (session_id m') = Some c /\
         (forall d, belongs metas (session_id m') d -> c = d) /\
         c <> Detached /\ compartment stamp = c /\ above metas (session_id m') (session_id m)).
Proof.
  unfold visible_metas. destruct (is_owner stamp) eqn:Eo.
  { apply bool_decide_eq_true in Eo. exists metas. split; [done|]. intros m. tauto. }
  assert (Hne : trust stamp <> Owner) by (by apply bool_decide_eq_false in Eo).
  destruct (keep_all_spec stamp metas metas ∅) as (keep & -> & _ & Hk); [by intros x m up []%elem_of_empty|].
  eexists. split; [done|]. intros m.
  rewrite list_elem_of_In, filter_In, bool_decide_eq_true, <- list_elem_of_In, Hk.
  split; (intros [Hm H]; split; [done|]).
  - right. destruct H as [[]%elem_of_empty|(m' & Hm' & Hr & Ha)].
    destruct (compartment_of_spec metas (session_id m')) as (c & Hc & Hb & _). exists m', c.
    unfold may_reach_session, may_reach in Hr. rewrite Hc, Eo in Hr.
    apply andb_true_iff in Hr as [Hr1%negb_true_iff%bool_decide_eq_false Hr2%bool_decide_eq_true].
    repeat split; try done. by rewrite <- Hr2.
  - destruct H as [?|(m' & c & Hm' & Hc & _ & Hd & Hs & Ha)]; [done|]. right. exists m'.
    split; [done|]. split; [|done]. unfold may_reach_session, may_reach. rewrite Hc, Eo.
    rewrite bool_decide_eq_false_2 by congruence. by rewrite bool_decide_eq_true_2.
Qed.
