(* ===== verification/SessionTree.v ===== *)
(** * SessionTree: the session tool's changes of the tree

    Renaming, moving, copying and deleting sessions
    (peko-rs/core/src/session/session_runtime_impl.rs) over the manager
    (peko-rs/session/src/manager.rs) and its metadata controller: the caller
    is placed in the tree, references are resolved among what it may see, the
    guards run, and the writes go through the index.  A call is one step with
    one reading of the clock.  Which sessions have a run in flight, the ids
    made up for new sessions and events, [SessionId::from] and
    [Uuid::parse_str] are inputs. *)

From Stdlib Require Import ZArith Lia Ascii.
From stdpp Require Import base tactics list gmap strings.
From S2P Require Import Prelude Text Usage Subject ActingFor Message Host Stamps SessionLog SessionIndex SessionPaths.

Local Open Scope nat_scope.
Open Scope rust_scope.

(** What a walk found; [None], the walk still running, does not occur. *)
Definition ended {A} (o : option A) : M A := lift (ok_or o "the walk is still running").

(** ** The manager *)

Section Manager.
  Context {J : SessionJson}.
  Context (id_of : string -> SessionId).
  Context (now : Z).

Definition set_slug (id : string) (slug : option string) : M unit :=
  e ← need_entry id_of now id "set slug";
  _ ← match slug with
      | None => mret tt
      | Some g =>
          _ ← lift (validate_slug g);
          siblings ← list_metadata now;
          match slug_conflict siblings (parent e) g (id_of id) with
          | Some conflict => throw (err_slug_conflict g conflict (parent e))
          | None => mret tt
          end
      end;
  if bool_decide (slug_of e = slug) then mret tt
  else update_entry now (touch now (set_place e {| parent_session_id := parent e; SessionIndex.slug := slug |})).

Definition opt_json (o : option string) : Json := match o with Some s => JString s | None => JNull end.
Definition reparent_event (event_id : string) (old new : option SessionId) : SessionEvent :=
  SystemEv {| sys_envelope := envelope_new event_id now; sys_event := "reparent";
              sys_detail := JObject [("new_parent", opt_json new); ("old_parent", opt_json old)] |}.
Definition manager_move (event_id id : string) (new_parent : option SessionId) : M unit :=
  r ← get_entry id_of now id false;
  e ← lift (ok_or r ("Session " +:+ id +:+ " not found"));
  _ ← SessionIndex.set_parent id_of now id new_parent;
  w ← world_of;
  put_files (append_event (files w) id (reparent_event event_id (parent e) new_parent)).

(** The entry of a branch, from its source's. *)
Definition branch_entry (agent : string) (new_id source : SessionId) (label : option string) (from : SessionEntry) : SessionEntry :=
  let c := counts from in
  let e := entry_new now new_id agent (safe_filename_component false new_id +:+ ".jsonl") in
  let e := set_place e {| parent_session_id := Some source; SessionIndex.slug := None |} in
  let e := set_title now (match label with Some t => Some t | None => (fun t => "Branch: " +:+ t) <$> entry_title from end) e in
  let e := set_counts (set_trigger "branch" e)
             {| message_count := message_count c; turn_count := 0; last_total_tokens := last_total_tokens c;
                total_input_tokens := total_input_tokens c; total_output_tokens := total_output_tokens c |} in
  set_compaction_limits_state e (compaction_limits_state from).
Definition branch_session_by_id (agent : string) (new_id : SessionId) (source : string) (label : option string) : M SessionId :=
  r ← get_entry id_of now source false;
  from ← lift (ok_or r ("Parent session '" +:+ source +:+ "' not found"));
  w ← world_of;
  f ← lift (copy_session (files w) source new_id);
  _ ← put_files f;
  _ ← update_entry now (branch_entry agent new_id (id_of source) label from);
  mret new_id.
End Manager.

(** ** The tool *)

(** Who calls: the stamp of the run, the session it is in, the run permits the
    inbox registry says are held (when there is a registry) and the subagent
    runs in flight. *)
Record Run := {
  acting_for : option ActingFor;
  current_key : string;
  inbox : option (SessionId -> bool);
  subagents : SessionId -> bool;
}.

Definition view (m : SessionEntry) : SessionMetadata :=
  {| Stamps.session_id := session_id m; Stamps.parent_session_id := parent m;
     Stamps.channel_id := channel_id (binding m); meta_compartment := entry_compartment m |}.
(** [visible_metas] over whole entries. *)
Definition visible (run : Run) (metas : list SessionEntry) : option (list SessionEntry) :=
  match acting_for run with
  | Some stamp =>
      if is_owner stamp then Some metas
      else keep ← keep_all stamp (map view metas) (map view metas) ∅;
           Some (List.filter (fun m => bool_decide (session_id m ∈ keep)) metas)
  | None => Some metas
  end.
Definition reachable (run : Run) (metas : list SessionEntry) (id : SessionId) : bool :=
  match acting_for run with Some stamp => may_reach_session stamp (map view metas) id | None => true end.

Definition err_self_mutation (target : string) : string :=
  "cannot modify session '" +:+ target +:+ "': it is the session you are currently running in. " +:+
  "The engine compacts and pages it automatically; to manage a different session, pass its session_id from `session list`.".
Definition err_delete_ancestor (target : string) : string :=
  "cannot delete session '" +:+ target +:+ "': it is an ancestor of the session you are running in".
Definition err_move_ancestor (target : string) : string :=
  "cannot move session '" +:+ target +:+ "': it is an ancestor of the session you are running in".
Definition err_move_cycle (target new_parent : string) : string :=
  "cannot move session '" +:+ target +:+ "' under '" +:+ new_parent +:+
  "': the destination is the session itself or one of its descendants — the move would create a cycle".
Definition err_live_base_managed (target : string) : string :=
  "session '" +:+ target +:+ "' is the principal's root session: it is continuous and managed by the engine — " +:+
  "you cannot delete, archive, or move it. To manage a different session, pass its session_id from `session list`.".
Definition err_run_active (target : string) : string :=
  "session '" +:+ target +:+ "' has an active run in flight — retry after the run completes".
Definition err_descendants_exist (target : string) (descendants : list string) : string :=
  "session '" +:+ target +:+ "' has descendants [" +:+ join_with ", " descendants +:+
  "] — pass recursive:true to delete the whole subtree".
Definition err_dangling (cur : string) : string :=
  "cannot act on sessions: your current session '" +:+ cur +:+
  "' has no entry in the session store — refusing until it is recovered or re-attached".
Definition err_out_of_reach (reference : string) : string := "Session not found: " +:+ reference.
Definition TRUNK_SESSION_LITERAL : string := "root:self".

Record BranchOutcome := { new_session_id : SessionId; new_path : string; outcome_parent : SessionId }.
Record DeleteOutcome := { deleted : list SessionId; deleted_paths : list string }.

Section Tool.
  Context {J : SessionJson}.
  Context (id_of : string -> SessionId) (parse_uuid : string -> option SessionId).
  Context (now : Z) (run : Run).

Definition refuse_if (b : bool) (why : string) : M unit := if b then throw why else mret tt.

Definition trunk_session_id : SessionId := id_of TRUNK_SESSION_LITERAL.
Definition caller_and_metas : M (CallerContext * list SessionEntry) :=
  all ← list_metadata now;
  metas ← ended (visible run all);
  caller ← ended (caller_context (id_of (current_key run)) metas);
  mret (caller, metas).
Definition guard_not_self (caller : CallerContext) (target : SessionId) : M unit :=
  refuse_if (String.eqb target (current_session_id caller)) (err_self_mutation target).
Definition guard_dangling (caller : CallerContext) : M unit :=
  refuse_if (dangling caller) (err_dangling (current_session_id caller)).
Definition resolve_ref (caller : CallerContext) (metas : list SessionEntry) (reference : string) : M SessionId :=
  r ← ended (resolve_reference parse_uuid metas (id_of (current_session_id caller)) reference);
  id ← lift r;
  _ ← refuse_if (negb (reachable run metas id)) (err_out_of_reach reference);
  mret id.

Definition known (metas : list SessionEntry) (id : SessionId) : M unit :=
  refuse_if (negb (is_some (find_meta metas id))) ("Session not found: " +:+ id).
Definition is_ancestor (caller : CallerContext) (id : SessionId) : bool := existsb (String.eqb id) (ancestors caller).
(** The run permits of a session and its descendants, then their subagent runs. *)
Definition guard_runs (ids : list SessionId) : M unit :=
  _ ← match inbox run with
      | Some held => match List.find held ids with Some id => throw (err_run_active id) | None => mret tt end
      | None => mret tt
      end;
  match List.find (subagents run) ids with Some id => throw (err_run_active id) | None => mret tt end.

Definition rename_session (session_key : string) (title slug : option string) : M unit :=
  '(caller, metas) ← caller_and_metas;
  key ← resolve_ref caller metas session_key;
  _ ← guard_not_self caller key;
  _ ← guard_dangling caller;
  _ ← match slug with Some g => set_slug id_of now key (Some g) | None => mret tt end;
  match title with Some t => set_session_title id_of now key (Some t) | None => mret tt end.

Definition move_session (event_id session_key new_parent : string) (new_slug : option string) : M unit :=
  '(caller, metas) ← caller_and_metas;
  key ← resolve_ref caller metas session_key;
  target ← resolve_ref caller metas new_parent;
  _ ← known metas key;
  _ ← known metas target;
  _ ← guard_not_self caller key;
  _ ← refuse_if (is_ancestor caller key) (err_move_ancestor key);
  _ ← guard_dangling caller;
  _ ← refuse_if (String.eqb key trunk_session_id) (err_live_base_managed key);
  ds ← ended (descendants_of key metas);
  let descendants := sort_by String.leb ds in
  _ ← refuse_if (String.eqb target key || existsb (String.eqb target) descendants) (err_move_cycle key target);
  let effective_slug := match new_slug with Some g => Some g | None => find_meta metas key ≫= slug_of end in
  _ ← match effective_slug with
      | Some g => match slug_conflict metas (Some target) g key with
                  | Some conflict => throw (err_slug_conflict g conflict (Some target))
                  | None => mret tt
                  end
      | None => mret tt
      end;
  _ ← guard_runs (key :: descendants);
  _ ← manager_move id_of now event_id key (Some (id_of target));
  match new_slug with Some g => set_slug id_of now key (Some g) | None => mret tt end.

Definition tool_copy_session (agent : string) (new_id : SessionId) (event_id session_key target_parent target_slug : string)
    (title : option string) : M BranchOutcome :=
  '(caller, metas) ← caller_and_metas;
  key ← resolve_ref caller metas session_key;
  _ ← guard_dangling caller;
  target ← resolve_ref caller metas target_parent;
  _ ← guard_dangling caller;
  _ ← match slug_conflict metas (Some (id_of target)) target_slug (id_of key) with
      | Some conflict => throw (err_slug_conflict target_slug conflict (Some (id_of target)))
      | None => mret tt
      end;
  source_compartment ← ended (compartment_of (map view metas) (id_of key));
  n ← branch_session_by_id id_of now agent new_id key title;
  _ ← set_session_compartment id_of now n source_compartment;
  _ ← (if String.eqb target key then mret tt else manager_move id_of now event_id n (Some (id_of target)));
  _ ← set_slug id_of now n (Some target_slug);
  fresh_metas ← list_metadata now;
  path ← ended (compute_path fresh_metas n);
  mret {| new_session_id := n; new_path := path; outcome_parent := key |}.

Fixpoint delete_each (metas : list SessionEntry) (ids : list SessionId) : M DeleteOutcome :=
  match ids with
  | [] => mret {| deleted := []; deleted_paths := [] |}
  | id :: ids =>
      existed ← delete_session_by_id id_of now id;
      rest ← delete_each metas ids;
      mret (if existed : bool
            then {| deleted := id :: deleted rest; deleted_paths := default "" (compute_path metas (id_of id)) :: deleted_paths rest |}
            else rest)
  end.
Definition tool_delete_session (session_key : string) (recursive : bool) : M DeleteOutcome :=
  '(caller, metas) ← caller_and_metas;
  key ← resolve_ref caller metas session_key;
  _ ← known metas key;
  _ ← guard_not_self caller key;
  _ ← refuse_if (is_ancestor caller key) (err_delete_ancestor key);
  _ ← guard_dangling caller;
  _ ← refuse_if (String.eqb key trunk_session_id) (err_live_base_managed key);
  ds ← ended (descendants_of key metas);
  let descendants := sort_by String.leb ds in
  _ ← refuse_if (negb (match descendants with [] => true | _ => false end) && negb recursive) (err_descendants_exist key descendants);
  order ← ended (post_order key metas);
  _ ← guard_runs (key :: descendants);
  delete_each metas order.
End Tool.

(** ** The stored tree *)

(** Parents and slugs, as the file has them. *)
Abbreviation Tree := (gmap SessionId Place).
Definition tree_of (w : World) : Tree := place <$> stored w.
Definition tree_at (s : SessionIndex.SessionIndex * World) : Tree := tree_of (snd s).
(** The manager's cache, when it has one, agrees with the file about parents
    and slugs: no one else has changed them since it was loaded.  A manager
    opened for the call has no cache yet; one kept for longer reads its cache
    for thirty seconds whatever others write ([stale_moves_make_cycle]). *)
Definition coherent (s : SessionIndex.SessionIndex * World) : Prop :=
  at_rest s /\ forall m, cache (sessions (fst s)) = Some m -> place <$> m = tree_at s.

(** What a computation does from a tree. *)
Definition runs {A} (t : Tree) (c : M A) (post : result A string -> Tree -> Prop) : Prop :=
  forall s, coherent s -> tree_at s = t -> coherent (snd (c s)) /\ post (fst (c s)) (tree_at (snd (c s))).

Lemma runs_ret {A} t (a : A) post : post (Ok a) t -> runs t (mret a) post.
Proof. intros H s Hs <-. by split. Qed.
Lemma runs_lift {A} t (r : result A string) post : post r t -> runs t (lift r) post.
Proof. intros H s Hs <-. by split. Qed.
Lemma runs_throw {A} t e (post : result A string -> Tree -> Prop) : post (Err e) t -> runs t (throw e) post.
Proof. intros H s Hs <-. by split. Qed.
Lemma runs_bind {A B} t (c : M A) (f : A -> M B) (mid : result A string -> Tree -> Prop) post :
  runs t c mid -> (forall a t', mid (Ok a) t' -> runs t' (f a) post) -> (forall e t', mid (Err e) t' -> post (Err e) t') ->
  runs t (c ≫= f) post.
Proof.
  intros Hc Hf He s Hs Ht. destruct (Hc s Hs Ht) as [Hs1 Hm]. unfold mbind, M_bind.
  destruct (c s) as [[a|e] s1]; cbn [fst snd] in *; [by apply (Hf a _ Hm)|]. split; [done|by apply He].
Qed.
Lemma runs_weaken {A} t (c : M A) (post post' : result A string -> Tree -> Prop) :
  runs t c post -> (forall r t', post r t' -> post' r t') -> runs t c post'.
Proof. intros Hc H s Hs Ht. destruct (Hc s Hs Ht). split; auto. Qed.

(** Entries that are those of the file as far as the tree goes. *)
Definition shows (t : Tree) (es : gmap string SessionEntry) : Prop := keyed es /\ place <$> es = t.
Lemma runs_load t now : runs t (load_sessions now) (fun r t' => t' = t /\ exists es, r = Ok es /\ shows t es).
Proof.
  intros [i w] [Hr Hc] Ht. unfold tree_at in *. cbn [fst snd] in *. pose proof Hr as [Hs [(m & Hm & Hk) Hp]]. cbn [fst snd] in *.
  unfold load_sessions, index_of, world_of, mbind, M_bind. cbn [fst snd].
  destruct (fresh now (sessions i)) as [es|] eqn:Ef.
  - assert (Hce : cache (sessions i) = Some es)
      by (unfold fresh in Ef; destruct (loaded_at _); [|done]; by destruct (_ && _)).
    cbn [fst snd mret M_ret]. unfold mret, M_ret. cbn [fst snd]. split; [done|]. split; [done|]. exists es. split; [done|].
    split; [by apply Hs|]. rewrite <- Ht. by apply Hc.
  - unfold lift. cbn [fst snd]. rewrite Hm. cbn [read_json].
    pose proof (backfill_keyed (map fst (map_to_list m)) m Hk) as Hb. pose proof (backfill_same place (map fst (map_to_list m)) m ltac:(done)) as Hpl.
    unfold backfill_peer_attribution. destruct (backfill_over _ m) as [b es]. cbn [snd] in Hb, Hpl.
    assert (Hst : place <$> es = tree_of w) by (unfold tree_of, stored; by rewrite Hm).
    unfold put_sessions, put_index, index_of, mret, M_ret, mbind, M_bind. cbn [fst snd].
    destruct Hs as (H1&H2&H3&H4&H5&_). split; [split; [split|]|].
    + unfold settled. cbn [fst sessions peers dirty removed cache modified]. split_and!; try done. by intros m' [= <-].
    + split; eauto.
    + cbn [fst snd sessions cache]. by intros m' [= <-].
    + cbn [snd fst]. split; [done|]. exists es. split; [done|]. split; [done|]. by rewrite Hst.
Qed.
Lemma runs_update t now e : runs t (update_entry now e) (fun r t' => r = Ok tt /\ t' = <[session_id e := place e]> t).
Proof.
  intros [i w] [Hr Hc] Ht. destruct (update_entry_spec now e i w Hr) as (i' & Hu & Hs & Hca). rewrite Hu. cbn [fst snd].
  destruct Hr as [_ [(m & Hm & Hkm) (ps & Hps)]]. cbn [snd] in *.
  assert (Htree : tree_at (i', {| disk := {| sessions_json := Readable (<[session_id e := e]> (stored w)); peers_json := peers_json (disk w) |};
                                  files := files w |}) = <[session_id e := place e]> t).
  { unfold tree_at, tree_of. cbn [snd]. unfold stored at 1. cbn [disk sessions_json]. rewrite fmap_insert. by rewrite <- Ht. }
  split; [|done]. split.
  - split; [done|]. cbn [snd disk]. split; [|eauto]. eexists. split; [done|]. apply keyed_insert. unfold stored. by rewrite Hm.
  - cbn [fst]. rewrite Hca. intros m' [= <-]. done.
Qed.

(** *** Rules for the operations *)

Lemma runs_world t : runs t world_of (fun r t' => t' = t /\ exists w, r = Ok w).
Proof. intros [i w] Hs <-. split; [done|]. split; [done|]. by exists w. Qed.
Lemma runs_files t f : runs t (put_files f) (fun r t' => r = Ok tt /\ t' = t).
Proof. intros [i w] [[Hs Hd] Hc] <-. split; [split; [split|]|]; done. Qed.
Lemma runs_ended {A} t (o : option A) : is_Some o -> runs t (ended o) (fun r t' => t' = t /\ exists a, r = Ok a /\ o = Some a).
Proof. intros [a ->]. apply runs_lift. split; [done|]. by exists a. Qed.
(** Going on behind a guard, or behind a walk. *)
Lemma runs_guard {A} t b why (k : unit -> M A) (post : result A string -> Tree -> Prop) :
  (forall e, post (Err e) t) -> (b = false -> runs t (k tt) post) -> runs t (refuse_if b why ≫= k) post.
Proof. intros He Hk s Hs Ht. unfold refuse_if. destruct b; [subst t; split; [exact Hs|apply He]|by apply Hk]. Qed.
Lemma runs_walk {A B} t (o : option A) a (k : A -> M B) (post : result B string -> Tree -> Prop) :
  o = Some a -> runs t (k a) post -> runs t (ended o ≫= k) post.
Proof. intros -> Hk s. apply Hk. Qed.

Lemma shows_lookup t es k : shows t es -> t !! k = place <$> es !! k.
Proof. intros [_ <-]. apply lookup_fmap. Qed.

Section Rules.
  Context {J : SessionJson} (id_of : string -> SessionId) (now : Z).

Definition entry_in (t : Tree) (k : SessionId) (o : option SessionEntry) : Prop :=
  match o with Some e => session_id e = k /\ t !! k = Some (place e) | None => t !! k = None end.
Lemma runs_get t id : runs t (get_entry id_of now id false) (fun r t' => t' = t /\ exists o, r = Ok o /\ entry_in t (id_of id) o).
Proof.
  unfold get_entry, index_get. eapply runs_bind; [eapply runs_bind; [apply runs_load| |]| |].
  - intros es t' (-> & es' & [= <-] & Hes). apply (runs_ret t (es !! id_of id) (fun r t' => t' = t /\ exists o, r = Ok o /\ entry_in t (id_of id) o)).
    split; [done|]. exists (es !! id_of id). split; [done|]. unfold entry_in. rewrite (shows_lookup t es) by done.
    destruct (es !! id_of id) as [e|] eqn:E; [|done]. split; [by apply Hes|done].
  - intros e t' (_ & es & H & _). done.
  - intros o t' (-> & o' & [= <-] & Ho). destruct o as [e|]; apply runs_ret; (split; [done|]); by eexists.
  - intros e t' (_ & o & H & _). done.
Qed.
Definition found (t : Tree) (k : SessionId) (r : result SessionEntry string) : Prop :=
  match r with Ok e => session_id e = k /\ t !! k = Some (place e) | Err _ => t !! k = None end.
Lemma runs_entry t id why :
  runs t (r ← get_entry id_of now id false; lift (ok_or r why)) (fun r t' => t' = t /\ found t (id_of id) r).
Proof.
  eapply runs_bind; [apply runs_get| |].
  - intros o t' (-> & o' & [= <-] & Ho). apply runs_lift. split; [done|]. by destruct o.
  - intros e t' (_ & o & H & _). done.
Qed.
Lemma runs_need t id what : runs t (need_entry id_of now id what) (fun r t' => t' = t /\ found t (id_of id) r).
Proof. apply runs_entry. Qed.

(** A place is set, or the session is unknown and nothing changes. *)
Definition sets (t : Tree) (k : SessionId) (f : Place -> Place) (r : result unit string) (t' : Tree) : Prop :=
  match t !! k with Some pl => r = Ok tt /\ t' = <[k := f pl]> t | None => r <> Ok tt /\ t' = t end.
Definition with_parent_id (p : option SessionId) (pl : Place) : Place :=
  {| parent_session_id := p; SessionIndex.slug := SessionIndex.slug pl |}.
Definition with_slug (g : option string) (pl : Place) : Place :=
  {| parent_session_id := parent_session_id pl; SessionIndex.slug := g |}.
Lemma runs_set_parent t id p : runs t (SessionIndex.set_parent id_of now id p) (sets t (id_of id) (with_parent_id p)).
Proof.
  eapply runs_bind; [apply runs_need| |].
  - intros e t' (-> & Hid & Hl). unfold sets. rewrite Hl. case_bool_decide as Hp.
    + apply runs_ret. split; [done|]. symmetry. apply insert_id. rewrite Hl. f_equal. rewrite <- Hp. by destruct (place e).
    + eapply runs_weaken; [apply runs_update|]. intros r t' (-> & ->). by rewrite <- Hid.
  - intros e t' (-> & Hl). unfold sets, found in *. by rewrite Hl.
Qed.
Lemma runs_edit t id f : (forall e, session_id (f e) = session_id e /\ place (f e) = place e) ->
  runs t (edit id_of now id f) (fun r t' => t' = t).
Proof.
  intros Hf. unfold edit. eapply runs_bind; [apply runs_get| |intros e t' (-> & _); done].
  intros o t' (-> & o' & [= <-] & Ho). eapply runs_bind.
  - apply (runs_lift t _ (fun r t' => t' = t /\ forall e, r = Ok e -> o = Some e)). split; [done|]. destruct o; cbn; by intros e [= ->].
  - intros e t' (-> & He). rewrite (He e eq_refl) in Ho. destruct Ho as [Hid Hl]. eapply runs_weaken; [apply runs_update|].
    intros r t' (_ & ->). destruct (Hf e) as [-> ->]. rewrite Hid. by apply insert_id.
  - by intros e t' [-> _].
Qed.

(** [metas] lists the sessions of the tree. *)
Definition listed (t : Tree) (metas : list SessionEntry) : Prop :=
  ids_unique metas /\ forall k pl, t !! k = Some pl <-> exists m, m ∈ metas /\ session_id m = k /\ place m = pl.
Lemma listed_perm t l l' : l ≡ₚ l' -> listed t l -> listed t l'.
Proof.
  intros Hp [Hn Hl]. split.
  - unfold ids_unique in *. by rewrite <- Hp.
  - intros k pl. rewrite Hl. by setoid_rewrite Hp.
Qed.
Lemma runs_list t : runs t (list_metadata now) (fun r t' => t' = t /\ exists metas, r = Ok metas /\ listed t metas).
Proof.
  unfold list_metadata, list_all. eapply runs_bind; [eapply runs_bind; [apply runs_load| |]| |].
  - intros es t' (-> & es' & [= <-] & Hes).
    apply (runs_ret t _ (fun r t' => t' = t /\ exists metas, r = Ok metas /\ listed t metas)). split; [done|]. eexists. split; [done|].
    eapply listed_perm; [symmetry; apply sort_by_perm|]. destruct Hes as [Hk <-]. split.
    + unfold ids_unique. rewrite map_map. erewrite map_ext_in; [apply (NoDup_fst_map_to_list es)|].
      intros [k e] Hin. cbn. apply list_elem_of_In, elem_of_map_to_list in Hin. by apply Hk.
    + intros k pl. rewrite lookup_fmap, fmap_Some. split.
      * intros (e & He & ->). exists e. split_and!; [|by apply Hk|done]. apply list_elem_of_fmap. exists (k, e). split; [done|]. by apply elem_of_map_to_list.
      * intros (m & ([k' e] & -> & Hin)%list_elem_of_fmap & Hid & <-). apply elem_of_map_to_list in Hin. cbn [snd] in *.
        exists e. split; [|done]. by rewrite <- Hid, (Hk k' e Hin).
  - intros e t' (_ & es & H & _). done.
  - intros metas t' (-> & m & [= <-] & Hl). apply runs_ret. split; [done|]. eexists. split; [done|].
    eapply listed_perm; [symmetry; apply sort_by_perm|done].
  - intros e t' (_ & es & H & _). done.
Qed.

(** What is free among the siblings, in the tree. *)
Definition free_slug (t : Tree) (under : option SessionId) (g : string) (exclude : SessionId) : Prop :=
  forall k pl, t !! k = Some pl -> k <> exclude -> parent_session_id pl = under -> SessionIndex.slug pl <> Some g.
Lemma slug_conflict_free t metas under g exclude : listed t metas -> slug_conflict metas under g exclude = None <-> free_slug t under g exclude.
Proof.
  intros [_ Hl]. unfold slug_conflict. split.
  - intros Hc k pl Hk Hne Hp Hg. apply fmap_None in Hc. apply Hl in Hk as (m & Hm & <- & <-). apply list_elem_of_In in Hm.
    pose proof (find_none _ _ Hc m Hm) as Hx. cbn beta in Hx. rewrite !bool_decide_eq_true_2 in Hx by done.
    by destruct (String.eqb_spec (session_id m) exclude).
  - intros Hf. destruct (List.find _ metas) as [m|] eqn:E; [|done]. exfalso. apply find_some in E as [Hm Hc].
    apply andb_prop in Hc as [[Hne Hp%bool_decide_eq_true]%andb_prop Hg%bool_decide_eq_true]. apply list_elem_of_In in Hm.
    apply (Hf (session_id m) (place m)); [apply Hl; eauto| |done..]. by destruct (String.eqb_spec (session_id m) exclude).
Qed.
Lemma runs_set_slug t id g : runs t (set_slug id_of now id g)
  (fun r t' => match t !! id_of id with
               | Some pl =>
                   (r = Ok tt /\ t' = <[id_of id := with_slug g pl]> t /\
                    forall s, g = Some s -> validate_slug s = Ok tt /\ free_slug t (parent_session_id pl) s (id_of id)) \/
                   (r <> Ok tt /\ t' = t /\
                    exists s, g = Some s /\ ~ (validate_slug s = Ok tt /\ free_slug t (parent_session_id pl) s (id_of id)))
               | None => r <> Ok tt /\ t' = t
               end).
Proof.
  eapply runs_bind; [apply runs_need| |intros e t' (-> & Hl); unfold found in Hl; by rewrite Hl].
  intros e t' (-> & Hid & Hl). rewrite Hl.
  eapply (runs_bind t _ _ (fun r t' => t' = t /\
    (r = Ok tt <-> forall s, g = Some s -> validate_slug s = Ok tt /\ free_slug t (parent_session_id (place e)) s (id_of id)))).
  - destruct g as [s|]; [|apply runs_ret; split; [done|]; split; [done|]; done].
    eapply (runs_bind t _ _ (fun r t' => t' = t /\ r = validate_slug s)); [by apply runs_lift| |].
    + intros [] t' (-> & Hv). eapply runs_bind; [apply runs_list| |intros ? ? (_ & ? & ? & _); done].
      intros metas t' (-> & m & [= <-] & Hm).
      destruct (slug_conflict metas (parent e) s (id_of id)) as [c|] eqn:E.
      * apply runs_throw. split; [done|]. split; [done|]. intros H. destruct (H s eq_refl) as [_ Hf].
        apply (slug_conflict_free t metas) in Hf; [|done]. unfold parent in E. congruence.
      * apply runs_ret. split; [done|]. split; [|done]. intros _ s' [= <-]. split; [done|]. by apply (slug_conflict_free t metas) in E.
    + intros err t' (-> & Hv). split; [done|]. split; [done|]. intros H. destruct (H s eq_refl) as [Hv' _]. congruence.
  - intros [] t' (-> & Hok). case_bool_decide as Hs.
    + apply runs_ret. left. split_and!; [done| |by apply Hok]. symmetry. apply insert_id. rewrite Hl. f_equal. rewrite <- Hs. unfold slug_of. by destruct (place e).
    + eapply runs_weaken; [apply runs_update|]. intros r t' (-> & ->). left. split_and!; [done| |by apply Hok]. by rewrite <- Hid.
  - intros err t' (-> & Hok). right. split_and!; [done..|]. destruct Hok as [_ Hok]. destruct g as [s|].
    + exists s. split; [done|]. intros H. assert (Hx : Err (A := unit) err = Ok tt) by (apply Hok; by intros s' [= <-]). done.
    + assert (Hx : Err (A := unit) err = Ok tt) by (apply Hok; intros s H; discriminate H). done.
Qed.
Lemma runs_storage_delete t id : runs t (storage_delete id) (fun r t' => r = Ok tt /\ t' = t).
Proof.
  eapply runs_bind; [apply runs_world| |intros e t' (_ & w & H); done]. intros w t' (-> & _). apply runs_files.
Qed.
Lemma runs_scrub t key id : runs t (_ ← remove_session_from_peer now key id; save now) (fun r t' => r = Ok tt /\ t' = t).
Proof.
  intros [i w] [Hr Hc] Ht. destruct (remove_peer_spec now key id i w Hr) as (p & Hp & Hap). unfold mbind, M_bind. rewrite Hp.
  destruct (save_peers_rest now "" i w p Hr Hap) as [H1 _]. destruct Hr as [Hs [(m & Hm & Hkm) (ps & Hps)]].
  destruct Hs as (D1&D2&_). unfold tree_at in *. cbn [fst snd] in *.
  rewrite (save_spec now _ w m ps) in * by done. cbn [fst snd sessions peers] in *. rewrite (merged_rest (sessions i)) in * by done.
  assert (Htree : forall pj, tree_of {| disk := {| sessions_json := Readable (if modified (sessions i) then m else m); peers_json := pj |}; files := files w |} = t).
  { intros pj. rewrite <- Ht. unfold tree_of, stored. cbn [disk sessions_json]. rewrite Hm. by destruct (modified _). }
  split; [|by rewrite Htree]. split; [done|]. intros m'. unfold tree_at. cbn [fst snd sessions]. rewrite Htree.
  destruct (modified (sessions i)); cbn [saved cache]; [|intros Hm'; rewrite <- Ht; by apply Hc].
  intros [= <-]. rewrite <- Ht. unfold tree_of, stored. by rewrite Hm.
Qed.
Lemma runs_delete_metadata t id : runs t (delete_metadata id_of now id)
  (fun r t' => r = Ok (is_some (t !! id_of id)) /\ t' = delete (id_of id) t).
Proof.
  intros [i w] Hco Ht. pose proof (runs_load t now (i, w) Hco Ht) as [Hco1 (Ht1 & es & Hes & Hsh)]. pose proof Hco as [Hr Hc].
  destruct (delete_metadata_spec id_of now id i w Hr) as (es' & i1 & Hl & Hs1 & H). rewrite Hl in *. cbn [fst snd] in *. injection Hes as ->.
  rewrite (shows_lookup t es) by done. destruct (es !! id_of id) as [e|] eqn:E.
  - destruct H as (i' & -> & Hs & Hca). cbn [fst snd]. destruct Hr as [_ [(m & Hm & Hkm) (ps & Hps)]]. cbn [snd] in *.
    assert (Htree : tree_at (i', {| disk := {| sessions_json := Readable (delete (id_of id) (stored w)); peers_json := peers_json (disk w) |};
                                    files := files w |}) = delete (id_of id) t).
    { unfold tree_at, tree_of. cbn [snd]. unfold stored at 1. cbn [disk sessions_json]. rewrite fmap_delete. by rewrite <- Ht. }
    split; [|done]. split.
    + split; [done|]. cbn [snd disk]. split; [|eauto]. eexists. split; [done|]. unfold stored. rewrite Hm.
      intros k x [_ Hx]%lookup_delete_Some. by apply Hkm.
    + cbn [fst]. rewrite Hca, Htree. intros m' [= <-]. rewrite fmap_delete. by rewrite <- Ht.
  - rewrite H. cbn [fst snd]. split; [done|]. split; [done|]. rewrite Ht1. symmetry. apply delete_id. by rewrite (shows_lookup t es), E.
Qed.
Lemma runs_delete t id : runs t (delete_session_by_id id_of now id)
  (fun r t' => r = Ok (is_some (t !! id_of id)) /\ t' = delete (id_of id) t).
Proof.
  eapply runs_bind; [apply runs_get| |intros e t' (_ & o & H & _); done].
  intros o t' (-> & o' & [= <-] & Ho). destruct o as [e|].
  - destruct Ho as [Hid Hl]. rewrite Hl.
    eapply (runs_bind t _ _ (fun r t' => r = Ok tt /\ t' = t)); [destruct (entry_peer e); [apply runs_scrub|by apply runs_ret]| |by intros ? ? [? _]].
    intros _ t' (_ & ->). eapply runs_bind; [apply runs_storage_delete| |by intros ? ? [? _]].
    intros _ t' (_ & ->). eapply runs_weaken; [apply runs_delete_metadata|]. intros r t' [-> ->]. by rewrite Hl.
  - cbn in Ho. rewrite Ho. eapply runs_bind; [apply runs_storage_delete| |by intros ? ? [? _]].
    intros _ t' (_ & ->). apply runs_ret. split; [done|]. symmetry. by apply delete_id.
Qed.
End Rules.

(** ** The shape of the tree *)

Definition parent_in (t : Tree) (c p : SessionId) : Prop := exists pl, t !! c = Some pl /\ parent_session_id pl = Some p.
Definition acyclic (t : Tree) : Prop := forall x, ~ tc (parent_in t) x x.
(** Siblings have different slugs, all of them valid. *)
Definition distinct_slugs (t : Tree) : Prop :=
  (forall k k' pl pl' g, t !! k = Some pl -> t !! k' = Some pl' -> parent_session_id pl = parent_session_id pl' ->
     SessionIndex.slug pl = Some g -> SessionIndex.slug pl' = Some g -> k = k') /\
  (forall k pl g, t !! k = Some pl -> SessionIndex.slug pl = Some g -> validate_slug g = Ok tt).
(** Ids are stored in the canonical form. *)
Definition canonical (id_of : string -> SessionId) (t : Tree) : Prop :=
  forall k pl, t !! k = Some pl -> id_of k = k /\ forall p, parent_session_id pl = Some p -> id_of p = p.

Lemma parent_in_subseteq (t t' : Tree) c p : t ⊆ t' -> parent_in t c p -> parent_in t' c p.
Proof. intros Hs (pl & Hk & Hp). exists pl. split; [by eapply lookup_weaken|done]. Qed.
Lemma tc_mono {A} (R R' : relation A) x y : (forall a b, R a b -> R' a b) -> tc R x y -> tc R' x y.
Proof. intros H. induction 1; [by apply tc_once, H|]. eapply tc_l; [by apply H|done]. Qed.
Lemma acyclic_subseteq (t t' : Tree) : t ⊆ t' -> acyclic t' -> acyclic t.
Proof. intros Hs Ha x Hx. apply (Ha x). eapply tc_mono; [|exact Hx]. intros a b. by apply parent_in_subseteq. Qed.

(** Putting a session elsewhere: what a new chain of parents is made of. *)
Lemma tc_moved (t : Tree) k pl p x y : parent_session_id pl = Some p ->
  tc (parent_in (<[k := pl]> t)) x y -> tc (parent_in t) x y \/ (rtc (parent_in t) x k /\ rtc (parent_in t) p y).
Proof.
  intros Hpl. assert (He : forall a b, parent_in (<[k := pl]> t) a b -> parent_in t a b \/ (a = k /\ b = p)).
  { intros a b (pl' & Ha & Hb). destruct (decide (a = k)) as [->|Hn].
    - rewrite lookup_insert_eq in Ha. simplify_eq. by right.
    - rewrite lookup_insert_ne in Ha by done. left. by exists pl'. }
  induction 1 as [x y Hxy|x z y Hxz _ IH].
  - destruct (He x y Hxy) as [?|[-> ->]]; [left; by apply tc_once|by right].
  - destruct (He x z Hxz) as [Hx|[-> ->]].
    + destruct IH as [IH|[IH1 IH2]]; [left; by eapply tc_l|right]. split; [by eapply rtc_l|done].
    + right. split; [done|]. destruct IH as [IH|[_ IH2]]; [by apply tc_rtc|done].
Qed.
Lemma acyclic_moved (t : Tree) k pl p : acyclic t -> parent_session_id pl = Some p -> ~ rtc (parent_in t) p k -> acyclic (<[k := pl]> t).
Proof.
  intros Ha Hp Hn x Hx. destruct (tc_moved t k pl p x x Hp Hx) as [H|[H1 H2]]; [by apply (Ha x)|]. apply Hn. by etransitivity.
Qed.
Lemma acyclic_same (t : Tree) k pl pl' : acyclic t -> t !! k = Some pl -> parent_session_id pl' = parent_session_id pl -> acyclic (<[k := pl']> t).
Proof.
  intros Ha Hk Hp x Hx. apply (Ha x). eapply tc_mono; [|exact Hx]. intros a b (pl0 & Hl & Hb).
  destruct (decide (a = k)) as [->|Hn].
  - rewrite lookup_insert_eq in Hl. simplify_eq. exists pl. split; [done|congruence].
  - rewrite lookup_insert_ne in Hl by done. by exists pl0.
Qed.
Lemma slugs_placed (t : Tree) k pl : distinct_slugs t ->
  (forall g, SessionIndex.slug pl = Some g -> validate_slug g = Ok tt /\ free_slug t (parent_session_id pl) g k) ->
  distinct_slugs (<[k := pl]> t).
Proof.
  intros [Hu Hv] Hg. split.
  - intros a b pa pb g Ha Hb Hp Hsa Hsb. destruct (decide (a = k)) as [->|Hna]; destruct (decide (b = k)) as [->|Hnb]; [done|..].
    + rewrite lookup_insert_eq in Ha. rewrite lookup_insert_ne in Hb by done. simplify_eq.
      destruct (Hg g Hsa) as [_ Hf]. by destruct (Hf b pb Hb Hnb (eq_sym Hp)).
    + rewrite lookup_insert_eq in Hb. rewrite lookup_insert_ne in Ha by done. simplify_eq.
      destruct (Hg g Hsb) as [_ Hf]. by destruct (Hf a pa Ha Hna Hp).
    + rewrite lookup_insert_ne in Ha, Hb by done. by eapply Hu.
  - intros a pa g Ha Hsa. destruct (decide (a = k)) as [->|Hna].
    + rewrite lookup_insert_eq in Ha. simplify_eq. by apply Hg.
    + rewrite lookup_insert_ne in Ha by done. by eapply Hv.
Qed.
Lemma slugs_subseteq (t t' : Tree) : t ⊆ t' -> distinct_slugs t' -> distinct_slugs t.
Proof.
  intros Hs [Hu Hv]. split.
  - intros k k' pl pl' g Hk Hk'. eapply Hu; by eapply lookup_weaken.
  - intros k pl g Hk. eapply Hv. by eapply lookup_weaken.
Qed.
Lemma canonical_placed id_of (t : Tree) k pl : canonical id_of t -> id_of k = k ->
  (forall p, parent_session_id pl = Some p -> id_of p = p) -> canonical id_of (<[k := pl]> t).
Proof.
  intros Hc Hk Hp a pa Ha. destruct (decide (a = k)) as [->|Hn].
  - rewrite lookup_insert_eq in Ha. simplify_eq. by split.
  - rewrite lookup_insert_ne in Ha by done. by apply Hc.
Qed.
Lemma canonical_subseteq id_of (t t' : Tree) : t ⊆ t' -> canonical id_of t' -> canonical id_of t.
Proof. intros Hs Hc k pl Hk. apply Hc. by eapply lookup_weaken. Qed.

(** *** What a caller sees of it *)

(** Some of the sessions, with every parent there is of theirs. *)
Definition subtree (t : Tree) (metas : list SessionEntry) : Prop :=
  ids_unique metas /\ (forall m, m ∈ metas -> t !! session_id m = Some (place m)) /\
  (forall m p, m ∈ metas -> parent m = Some p -> is_Some (t !! p) -> is_Some (find_meta metas p)).
Lemma listed_subtree t metas : listed t metas -> subtree t metas.
Proof.
  intros [Hn Hl]. split_and!; [done|intros m Hm; apply Hl; eauto|].
  intros m p Hm Hp [pl Hpl]. apply Hl in Hpl as (m' & Hm' & <- & _). by rewrite (find_meta_unique metas m').
Qed.
Lemma subtree_up t metas c p : subtree t metas -> is_Some (find_meta metas c) -> parent_in t c p -> up metas c p.
Proof.
  intros (_ & Hm & _) [m Hc] (pl & Hpl & Hp). exists m. split; [done|]. apply found_meta in Hc as [Hin <-].
  rewrite (Hm m Hin) in Hpl. by simplify_eq.
Qed.
Lemma subtree_tc t metas c x : subtree t metas -> is_Some (find_meta metas c) -> tc (parent_in t) c x -> tc (up metas) c x.
Proof.
  intros Hs Hc Ht. revert Hc. induction Ht as [c x Hx|c p x Hp Ht IH]; intros Hc; [by eapply tc_once, subtree_up|].
  pose proof (subtree_up t metas c p Hs Hc Hp) as Hu. eapply tc_l; [exact Hu|]. apply IH.
  destruct Hu as (m & [Hm <-]%found_meta & Hpm). destruct Hs as (_ & _ & Hcl). apply (Hcl m p Hm Hpm).
  inversion Ht as [? ? (pl & Hpl & _)|? ? ? (pl & Hpl & _)]; subst; by exists pl.
Qed.

(** A caller that sees and reaches everything. *)
Definition unrestricted (run : Run) : Prop := match acting_for run with Some stamp => is_owner stamp = true | None => True end.
Lemma find_view metas id : Stamps.find_meta (map view metas) id = view <$> find_meta metas id.
Proof.
  unfold Stamps.find_meta, find_meta. induction metas as [|m metas IH]; [done|]. cbn [map List.find].
  destruct (String.eqb_spec (session_id m) id) as [E|E]; [by rewrite bool_decide_eq_true_2|by rewrite bool_decide_eq_false_2].
Qed.
Lemma visible_spec run t all : listed t all ->
  exists metas, visible run all = Some metas /\ subtree t metas /\ (unrestricted run -> listed t metas).
Proof.
  intros Hl. pose proof (listed_subtree t all Hl) as Hsub. unfold visible, unrestricted.
  destruct (acting_for run) as [stamp|]; [|by exists all]. destruct (is_owner stamp) eqn:Eo; [by exists all|].
  destruct (keep_all_spec stamp (map view all) (map view all) ∅) as (keep & -> & Hp & _); [intros x m u; set_solver|].
  cbn [mbind option_bind]. eexists. split; [done|]. split; [|done].
  destruct Hsub as (Hn & Hm & Hcl).
  assert (Hin : forall m, m ∈ List.filter (fun m => bool_decide (session_id m ∈ keep)) all <-> m ∈ all /\ session_id m ∈ keep).
  { intros m. rewrite !list_elem_of_In, filter_In, bool_decide_eq_true. done. }
  assert (Hids : ids_unique (List.filter (fun m => bool_decide (session_id m ∈ keep)) all)).
  { unfold ids_unique in *. clear -Hn. induction all as [|m all IH]; [done|]. cbn [map List.filter] in *. apply NoDup_cons in Hn as [Hni Hn].
    destruct (bool_decide _); [|by apply IH]. cbn [map]. apply NoDup_cons. split; [|by apply IH].
    intros (m' & Hm' & Hin)%list_elem_of_fmap. apply Hni. rewrite Hm'. apply list_elem_of_fmap_2.
    rewrite list_elem_of_In in *. by apply filter_In in Hin as [? _]. }
  split_and!; [done|intros m [? _]%Hin; by apply Hm|].
  intros m p [Hma Hk]%Hin Hpm Hsp. destruct (Hcl m p Hma Hpm Hsp) as [up_ Hup].
  assert (Hkp : p ∈ keep).
  { destruct (Hp (session_id m) (view m) p Hk) as [?|?]; [|done|done|done]. by rewrite find_view, (find_meta_unique all m). }
  apply found_meta in Hup as [Hu Hid]. rewrite <- Hid in *.
  rewrite (find_meta_unique _ up_); [done|done|]. by apply Hin.
Qed.

(** ** The tool's operations on the tree *)

Lemma root_walk_known fuel metas seen m r : m ∈ metas -> root_walk fuel metas seen m = Some r -> is_Some (find_meta metas r).
Proof.
  assert (Hin : forall m, m ∈ metas -> is_Some (find_meta metas (session_id m))).
  { intros m' Hm'. destruct (find_meta metas (session_id m')) eqn:E; [done|]. apply find_meta_None in E. destruct E. by apply list_elem_of_fmap_2. }
  revert seen m. induction fuel as [|fuel IH]; intros seen m Hm H; cbn [root_walk] in H; destruct (parent m) as [p|];
    try (injection H as <-; by apply Hin); destruct (bool_decide _); try (injection H as <-; by apply Hin);
    destruct (find_meta metas p) as [m'|] eqn:E; try (injection H as <-; by apply Hin); try done.
  apply found_meta in E as [Hm' _]. by eapply IH.
Qed.
Lemma resolve_path_known metas caller path s : resolve_path metas caller path = Some (Ok s) -> is_Some (find_meta metas s).
Proof.
  unfold resolve_path. destruct (negb _); [done|]. unfold tree_root. destruct (find_meta metas caller) as [m|] eqn:Em; [|done].
  destruct (root_walk _ _ _ m) as [r|] eqn:Er; [|done]. cbn [fmap option_fmap option_map mbind option_bind]. intros [= H].
  apply found_meta in Em as [Hm _]. apply root_walk_known in Er; [|done].
  pose proof (descend_sound metas r _ _ r [] _ _ (descends_here metas r) H) as Hd. inversion Hd as [Hx|segs p m' g Hd' Hm' Hp Hg]; subst; [done|].
  destruct (find_meta metas (session_id m')) eqn:E; [done|]. apply find_meta_None in E. destruct E. by apply list_elem_of_fmap_2.
Qed.
Lemma resolve_reference_total parse_uuid metas caller reference : is_Some (resolve_reference parse_uuid metas caller reference).
Proof.
  unfold resolve_reference. destruct (String.eqb reference ""); [done|]. destruct (String.eqb reference caller); [done|].
  destruct (starts_with _ _); [apply resolve_path_total|]. by destruct (parse_uuid reference).
Qed.

Section Operations.
  Context {J : SessionJson}.
  Context (id_of : string -> SessionId) (parse_uuid : string -> option SessionId) (now : Z) (run : Run).
  (** [SessionId::from] keeps the text of a UUID, which is what both give. *)
  Context (id_of_idem : forall x, id_of (id_of x) = id_of x).
  Context (uuid_canonical : forall s x, parse_uuid s = Some x -> id_of x = x).

(** The caller, placed among what it sees. *)
Definition placed (t : Tree) (c : CallerContext) (metas : list SessionEntry) : Prop :=
  subtree t metas /\ (unrestricted run -> listed t metas) /\ current_session_id c = id_of (current_key run) /\
  dangling c = negb (is_some (find_meta metas (id_of (current_key run)))) /\
  forall a, a ∈ ancestors c <-> tc (up metas) (id_of (current_key run)) a.
Lemma runs_caller {A} t (k : CallerContext * list SessionEntry -> M A) (post : result A string -> Tree -> Prop) :
  (forall c metas, placed t c metas -> runs t (k (c, metas)) post) -> runs t (caller_and_metas id_of now run ≫= k) post.
Proof.
  intros Hk. eapply (runs_bind t _ _ (fun r t' => t' = t /\ exists c metas, r = Ok (c, metas) /\ placed t c metas)); [|naive_solver..].
  eapply runs_bind; [apply runs_list| |by naive_solver].
  intros all t' (-> & all' & [= <-] & Hl). destruct (visible_spec run t all Hl) as (metas & Hv & Hs & Hu).
  eapply runs_walk; [exact Hv|]. destruct (caller_context_spec (id_of (current_key run)) metas) as (c & Hc & H1 & H2 & H3).
  eapply runs_walk; [exact Hc|]. apply runs_ret. split; [done|]. by eexists _, _.
Qed.

(** A reference leads to a session the caller sees, to the caller's own, or is
    the text of an id. *)
Definition names (metas : list SessionEntry) (reference : string) (id : SessionId) : Prop :=
  id_of id = id /\ (is_Some (find_meta metas id) \/ id = id_of (current_key run) \/ parse_uuid reference = Some id).
Lemma runs_resolve {A} t c metas reference (k : SessionId -> M A) (post : result A string -> Tree -> Prop) :
  canonical id_of t -> placed t c metas -> (forall e, post (Err e) t) ->
  (forall id, names metas reference id -> runs t (k id) post) ->
  runs t (resolve_ref id_of parse_uuid run c metas reference ≫= k) post.
Proof.
  intros Hcan (Hs & _ & Hcur & _) He Hk.
  eapply (runs_bind t _ _ (fun r t' => t' = t /\ forall id, r = Ok id -> names metas reference id)); [|naive_solver..]. unfold resolve_ref.
  destruct (resolve_reference_total parse_uuid metas (id_of (current_session_id c)) reference) as [r Hr].
  eapply runs_walk; [exact Hr|]. eapply (runs_bind t _ _ (fun x t' => t' = t /\ x = r)); [by apply runs_lift| |naive_solver].
  intros id t' (-> & <-). apply runs_guard; [done|]. intros _. apply runs_ret. split; [done|]. intros id' [= <-]. unfold names.
  unfold resolve_reference in Hr. rewrite Hcur, id_of_idem in Hr.
  destruct (String.eqb reference ""); [done|]. destruct (String.eqb reference (id_of (current_key run))); [injection Hr as <-; split; [apply id_of_idem|auto]|].
  destruct (starts_with _ _).
  - apply resolve_path_known in Hr. split; [|by left]. destruct Hr as [m [Hm <-]%found_meta]. destruct Hs as (_ & Hs & _).
    exact (proj1 (Hcan _ _ (Hs m Hm))).
  - destruct (parse_uuid reference) as [u|] eqn:E; [|done]. injection Hr as <-. split; [by eapply uuid_canonical|auto].
Qed.
Lemma runs_manager_move t event_id id p : runs t (manager_move id_of now event_id id p) (sets t (id_of id) (with_parent_id p)).
Proof.
  unfold manager_move. eapply runs_bind; [apply runs_get| |by naive_solver]. intros o t' (-> & o' & [= <-] & Ho).
  eapply (runs_bind t _ _ (fun r t' => t' = t /\ match r with Ok e => o = Some e | Err _ => o = None end)).
  - apply runs_lift. by destruct o.
  - intros e t' (-> & ->). destruct Ho as [Hid Hl]. eapply runs_bind; [apply runs_set_parent| |].
    + intros [] t' H. unfold sets in *. rewrite Hl in *. destruct H as [_ ->].
      eapply runs_bind; [apply runs_world| |by naive_solver]. intros w t' (-> & _). eapply runs_weaken; [apply runs_files|]. by intros r t' [-> ->].
    + intros err t' H. unfold sets in *. rewrite Hl in *. by destruct H.
  - intros err t' (-> & ->). cbn in Ho. unfold sets. by rewrite Ho.
Qed.
Lemma runs_guard_runs t ids : runs t (guard_runs run ids) (fun r t' => t' = t /\
  (r = Ok tt -> (forall held, inbox run = Some held -> Forall (fun id => held id = false) ids) /\ Forall (fun id => subagents run id = false) ids)).
Proof.
  assert (Hfind : forall (p : SessionId -> bool), List.find p ids = None -> Forall (fun id => p id = false) ids)
    by (intros p H; apply Forall_forall; intros x Hx; apply (find_none _ _ H); by rewrite <- list_elem_of_In).
  unfold guard_runs.
  eapply (runs_bind t _ _ (fun r t' => t' = t /\ (r = Ok tt -> forall held, inbox run = Some held -> Forall (fun id => held id = false) ids))).
  - destruct (inbox run) as [held|]; [|by apply runs_ret]. destruct (List.find held ids) eqn:E; [by apply runs_throw|].
    apply runs_ret. split; [done|]. intros _ ? [= <-]. by apply Hfind.
  - intros [] t' (-> & Hh). destruct (List.find (subagents run) ids) eqn:E; [by apply runs_throw|].
    apply runs_ret. split; [done|]. intros _. split; [by apply Hh|by apply Hfind].
  - naive_solver.
Qed.

(** What both guards of a structural change have checked of [key]. *)
Definition spared (t : Tree) (key : SessionId) : Prop :=
  key <> id_of (current_key run) /\ ~ tc (parent_in t) (id_of (current_key run)) key /\ key <> trunk_session_id id_of.
(** The effect of [move_session]. *)
Definition move_effect (t : Tree) (new_slug : option string) (r : result unit string) (t' : Tree) : Prop :=
  (r <> Ok tt /\ t' = t) \/
  exists key target pl,
    t !! key = Some pl /\ is_Some (t !! target) /\ spared t key /\ ~ rtc (parent_in t) target key /\
    (unrestricted run -> forall g, or_else new_slug (SessionIndex.slug pl) = Some g -> free_slug t (Some target) g key) /\
    ((r = Ok tt /\ t' = <[key := {| parent_session_id := Some target; SessionIndex.slug := or_else new_slug (SessionIndex.slug pl) |}]> t /\
      forall g, new_slug = Some g -> validate_slug g = Ok tt /\ free_slug t (Some target) g key) \/
     (r <> Ok tt /\ t' = <[key := with_parent_id (Some target) pl]> t /\
      exists g, new_slug = Some g /\ ~ (validate_slug g = Ok tt /\ free_slug t (Some target) g key))).

Lemma free_slug_insert t key pl under g : free_slug (<[key := pl]> t) under g key <-> free_slug t under g key.
Proof.
  split; intros H k pl' Hk Hn; [apply (H k pl'); [by rewrite lookup_insert_ne|done]|].
  rewrite lookup_insert_ne in Hk by done. by apply (H k pl').
Qed.
Lemma find_known (o : option SessionEntry) : negb (is_some o) = false -> is_Some o.
Proof. by destruct o. Qed.
Lemma existsb_elem (x : SessionId) l : existsb (String.eqb x) l = false -> x ∉ l.
Proof. intros H Hx. assert (existsb (String.eqb x) l = true); [|congruence]. apply existsb_exists. exists x. rewrite <- list_elem_of_In. by rewrite String.eqb_refl. Qed.
(** The guards on the session to be changed. *)
Lemma guards_spare t c metas key : placed t c metas -> String.eqb key (current_session_id c) = false -> is_ancestor c key = false ->
  dangling c = false -> String.eqb key (trunk_session_id id_of) = false -> spared t key.
Proof.
  intros (Hs & _ & Hcur & Hd & Ha) H1%String.eqb_neq H2%existsb_elem H3 H4%String.eqb_neq. rewrite Hcur in H1. split_and!; [done| |done].
  intros Ht. apply H2, Ha. apply (subtree_tc t); [done| |done]. apply find_known. congruence.
Qed.
Lemma runs_move t event_id session_key new_parent new_slug : canonical id_of t ->
  runs t (move_session id_of parse_uuid now run event_id session_key new_parent new_slug) (move_effect t new_slug).
Proof.
  intros Hcan. unfold move_session. assert (Hfail : forall e, move_effect t new_slug (Err e) t) by (by left).
  apply runs_caller. intros c metas Hpl. apply runs_resolve; [done..|]. intros key [Hk _]. apply runs_resolve; [done..|]. intros target [Htc _].
  apply runs_guard; [done|]. intros Hkn%find_known. apply runs_guard; [done|]. intros Htn%find_known.
  apply runs_guard; [done|]. intros Hself. apply runs_guard; [done|]. intros Hanc. apply runs_guard; [done|]. intros Hdang.
  apply runs_guard; [done|]. intros Htrunk. pose proof (guards_spare t c metas key Hpl Hself Hanc Hdang Htrunk) as Hspared.
  destruct (descendants_of_spec key metas) as (ds & Hds & _ & Hdx). eapply runs_walk; [exact Hds|].
  apply runs_guard; [done|]. intros [Hne%String.eqb_neq Hcyc%existsb_elem]%orb_false_iff.
  destruct Hpl as (Hsub & Hall & Hcur & _). pose proof Hsub as (Hids & Hin & Hcl).
  destruct Hkn as [m Hm]. pose proof (found_meta _ _ _ Hm) as [Hmin Hmid]. pose proof (Hin m Hmin) as Hpl. rewrite Hmid in Hpl.
  assert (Hnr : ~ rtc (parent_in t) target key).
  { intros [?|Ht]%rtc_tc; [done|]. apply Hcyc. rewrite sort_by_perm. apply Hdx. split; [done|]. apply tc_down_up; [done|]. by apply (subtree_tc t). }
  assert (Htin : is_Some (t !! target)) by (destruct Htn as [m' [Hm' <-]%found_meta]; by rewrite (Hin m' Hm')).
  rewrite Hm. cbn [mbind option_bind].
  replace (match new_slug with Some g => Some g | None => slug_of m end) with (or_else new_slug (slug_of m)) by (by destruct new_slug).
  eapply (runs_bind t _ _ (fun r t' => t' = t /\ (r = Ok tt -> unrestricted run ->
    forall g, or_else new_slug (slug_of m) = Some g -> free_slug t (Some target) g key))); [|intros [] t' (-> & Hfree)|by intros e t' (-> & _)].
  { destruct (or_else new_slug (slug_of m)) as [g|]; [|by apply runs_ret]. destruct (slug_conflict metas (Some target) g key) eqn:E; [by apply runs_throw|].
    apply runs_ret. split; [done|]. intros _ Hu ? [= <-]. by apply (slug_conflict_free t metas) in E; [|apply Hall]. }
  eapply runs_bind; [apply runs_guard_runs| |by intros e t' (-> & _)]. intros [] t' (-> & _).
  eapply runs_bind; [apply runs_manager_move| |]; rewrite Hk, Htc; unfold sets; rewrite Hpl; [|by intros e t' [? _]].
  intros [] t' (_ & ->). set (t1 := <[key := with_parent_id (Some target) (place m)]> t).
  assert (Hdone : forall r t', (r = Ok tt /\ t' = <[key := {| parent_session_id := Some target; SessionIndex.slug := or_else new_slug (slug_of m) |}]> t /\
      forall g, new_slug = Some g -> validate_slug g = Ok tt /\ free_slug t (Some target) g key) \/
     (r <> Ok tt /\ t' = t1 /\ exists g, new_slug = Some g /\ ~ (validate_slug g = Ok tt /\ free_slug t (Some target) g key)) -> move_effect t new_slug r t').
  { intros r t' H. right. exists key, target, (place m). split_and!; try done. by apply Hfree. }
  destruct new_slug as [g|]; [|apply runs_ret, Hdone; left; by split_and!].
  eapply runs_weaken; [apply runs_set_slug|]. rewrite Hk. unfold t1 at 1. rewrite lookup_insert_eq. intros r t' H. apply Hdone.
  assert (Hiff : forall s, free_slug t1 (Some target) s key <-> free_slug t (Some target) s key) by (intros s; apply free_slug_insert).
  destruct H as [(-> & -> & H)|(Hr & -> & s & [= <-] & H)].
  - left. split_and!; [done|by unfold t1; rewrite insert_insert_eq|]. intros s [= <-]. destruct (H g eq_refl) as [Hv Hf]. split; [done|by apply Hiff].
  - right. split_and!; [done..|]. exists g. split; [done|]. intros [Hv Hf]. apply H. split; [done|by apply Hiff].
Qed.

(** The effect of [rename_session]. *)
Definition rename_effect (t : Tree) (slug : option string) (t' : Tree) : Prop :=
  t' = t \/ exists key pl g, slug = Some g /\ t !! key = Some pl /\ key <> id_of (current_key run) /\
    t' = <[key := with_slug (Some g) pl]> t /\ validate_slug g = Ok tt /\ free_slug t (parent_session_id pl) g key.
Lemma runs_rename t session_key title slug : canonical id_of t ->
  runs t (rename_session id_of parse_uuid now run session_key title slug) (fun r t' => rename_effect t slug t').
Proof.
  intros Hcan. unfold rename_session. apply runs_caller. intros c metas Hpl. apply runs_resolve; [done..|by left|]. intros key [Hk _].
  apply runs_guard; [by left|]. intros Hself%String.eqb_neq. apply runs_guard; [by left|]. intros _.
  destruct Hpl as (_ & _ & Hcur & _). rewrite Hcur in Hself.
  assert (Htitle : forall t0, rename_effect t slug t0 ->
    runs t0 (match title with Some ti => set_session_title id_of now key (Some ti) | None => mret tt end) (fun r t' => rename_effect t slug t')).
  { intros t0 H0. destruct title; [|by apply runs_ret]. eapply runs_weaken; [by apply runs_edit|]. by intros r t' ->. }
  destruct slug as [g|].
  - eapply runs_bind; [apply runs_set_slug| |]; rewrite Hk; destruct (t !! key) as [pl|] eqn:E.
    + intros [] t' [(_ & -> & H)|(H & _)]; [|done]. apply Htitle. right. exists key, pl, g. destruct (H g eq_refl). by split_and!.
    + by intros [] t' [? _].
    + intros e t' [(H & _)|(_ & -> & _)]; [done|by left].
    + intros e t' [_ ->]. by left.
  - eapply (runs_bind t _ _ (fun r t' => t' = t)); [by apply runs_ret| |intros e t' ->; by left]. intros [] t' ->. apply Htitle. by left.
Qed.

(** The effect of [copy_session]: nothing, or the new session under the source
    or the target, with the slug or still without. *)
Definition copy_effect (t : Tree) (n : SessionId) (target_parent target_slug : string) (t' : Tree) : Prop :=
  t' = t \/ exists p g,
    t' = <[n := {| parent_session_id := Some p; SessionIndex.slug := g |}]> t /\ id_of p = p /\
    (is_Some (t !! p) \/ parse_uuid target_parent = Some p) /\
    (forall s, g = Some s -> s = target_slug /\ validate_slug s = Ok tt /\ free_slug t (Some p) s n).
Lemma seen_known t metas id : subtree t metas -> is_Some (find_meta metas id) -> is_Some (t !! id).
Proof. intros (_ & Hm & _) [m [Hin <-]%found_meta]. by rewrite (Hm m Hin). Qed.
Lemma runs_branch t agent n source label : t !! n = None ->
  runs t (branch_session_by_id id_of now agent n source label)
    (fun r t' => (t' = t /\ exists e, r = Err e) \/
                 (r = Ok n /\ is_Some (t !! id_of source) /\ t' = <[n := {| parent_session_id := Some (id_of source); SessionIndex.slug := None |}]> t)).
Proof.
  intros Hn. unfold branch_session_by_id. eapply runs_bind; [apply runs_get| |naive_solver]. intros o t' (-> & o' & [= <-] & Ho).
  eapply (runs_bind t _ _ (fun r t' => t' = t /\ forall e, r = Ok e -> o = Some e)).
  { apply runs_lift. split; [done|]. destruct o; cbn; by intros e [= ->]. }
  2: { intros e t' (-> & _). left. eauto. }
  intros from t' (-> & Hf). rewrite (Hf from eq_refl) in Ho. destruct Ho as [Hid Hl].
  eapply runs_bind; [apply runs_world| |naive_solver]. intros w t' (-> & _).
  eapply (runs_bind t _ _ (fun r t' => t' = t)); [by apply runs_lift| |intros e t' ->; left; eauto]. intros f t' ->.
  eapply runs_bind; [apply runs_files| |naive_solver]. intros [] t' (_ & ->).
  eapply runs_bind; [apply runs_update| |naive_solver]. intros [] t' (_ & ->). apply runs_ret. right. split; [done|]. rewrite Hl. by split.
Qed.
Lemma runs_copy t agent n event_id session_key target_parent target_slug title :
  canonical id_of t -> t !! n = None -> id_of n = n ->
  runs t (tool_copy_session id_of parse_uuid now run agent n event_id session_key target_parent target_slug title)
    (fun r t' => copy_effect t n target_parent target_slug t').
Proof.
  intros Hcan Hn Hnc. unfold tool_copy_session. apply runs_caller. intros c metas Hpl.
  apply runs_resolve; [done..|by left|]. intros key [Hk Hkey]. apply runs_guard; [by left|]. intros Hd.
  apply runs_resolve; [done..|by left|]. intros target [Htc Htg]. apply runs_guard; [by left|]. intros _.
  assert (Hcur : is_Some (t !! id_of (current_key run))).
  { destruct Hpl as (Hs & _ & _ & Hdang & _). eapply seen_known; [done|]. apply find_known. congruence. }
  assert (Ht : is_Some (t !! target) \/ parse_uuid target_parent = Some target).
  { destruct Htg as [?|[->|?]]; [left|by left|by right]. destruct Hpl as (Hs & _). by eapply seen_known. }
  eapply (runs_bind t _ _ (fun r t' => t' = t)); [destruct (slug_conflict _ _ _ _); [by apply runs_throw|by apply runs_ret]| |intros e t' ->; by left].
  intros [] t' ->. destruct (compartment_of_spec (map view metas) (id_of key)) as (comp & Hcomp & _). eapply runs_walk; [exact Hcomp|].
  eapply runs_bind; [by apply runs_branch| |intros e t' [[-> _]|[? _]]; [by left|done]].
  intros n' t' [(_ & e & H)|([= ->] & Hsrc & ->)]; [done|]. rewrite Hk in *.
  set (at_ p g := <[n := {| parent_session_id := Some p; SessionIndex.slug := g |}]> t).
  assert (Hat : forall p, id_of p = p -> is_Some (t !! p) \/ parse_uuid target_parent = Some p -> copy_effect t n target_parent target_slug (at_ p None))
    by (intros p Hp Hin; right; by exists p, None).
  assert (Hbase : copy_effect t n target_parent target_slug (at_ key None)) by (apply Hat; auto).
  eapply runs_bind; [by apply runs_edit| |intros e t' ->; exact Hbase]. intros [] t' ->.
  eapply (runs_bind _ _ _ (fun r t' => r = Ok tt /\ t' = at_ target None)).
  { destruct (String.eqb_spec target key) as [->|Hne]; [by apply runs_ret|]. eapply runs_weaken; [apply runs_manager_move|].
    intros r t'. rewrite Hnc, Htc. unfold sets. rewrite lookup_insert_eq. by rewrite insert_insert_eq. }
  2: { by intros e t' [? _]. }
  intros [] t' (_ & ->). assert (Hend : copy_effect t n target_parent target_slug (at_ target None)) by (by apply Hat).
  eapply (runs_bind _ _ _ (fun r t' => copy_effect t n target_parent target_slug t')).
  { eapply runs_weaken; [apply runs_set_slug|]. intros r t'. rewrite Hnc. unfold at_ at 1. rewrite lookup_insert_eq.
    intros [(_ & -> & H)|(_ & -> & _)]; [|done]. right. exists target, (Some target_slug). destruct (H target_slug eq_refl) as [Hv Hf].
    split_and!; [by unfold at_; rewrite insert_insert_eq|done..|]. intros s [= <-]. split_and!; [done..|]. by apply free_slug_insert in Hf. }
  2: done.
  intros [] t' Heff. eapply runs_bind; [apply runs_list| |by intros e t2 (-> & _)]. intros fresh_metas t2 (-> & _).
  destruct (compute_path_total fresh_metas n) as [path Hpath]. eapply runs_walk; [exact Hpath|]. by apply runs_ret.
Qed.

(** The effect of [delete_session]. *)
Lemma runs_delete_each t metas ids : NoDup ids -> Forall (fun id => id_of id = id /\ is_Some (t !! id)) ids ->
  runs t (delete_each id_of now metas ids) (fun r t' => exists o, r = Ok o /\ deleted o = ids /\
    deleted_paths o = map (fun id => default "" (compute_path metas id)) ids /\ forall k, t' !! k = if decide (k ∈ ids) then None else t !! k).
Proof.
  revert t. induction ids as [|id ids IH]; intros t Hn Hf; cbn [delete_each].
  - apply runs_ret. eexists. split_and!; [done..|]. intros k. by rewrite decide_False by set_solver.
  - apply NoDup_cons in Hn as [Hni Hn]. apply Forall_cons in Hf as [[Hc Hs] Hf].
    eapply runs_bind; [apply runs_delete| |by naive_solver]. intros b t' ([= ->] & ->). rewrite Hc in *.
    eapply runs_bind; [apply IH; [done|]| |by naive_solver].
    { rewrite Forall_forall in *. intros x Hx. destruct (Hf x Hx) as [Hxc Hxs]. split; [done|]. rewrite lookup_delete_ne; [done|]. by intros ->. }
    intros rest t' (o & [= <-] & Hd & Hp & Hk). apply runs_ret. destruct Hs as [pl Hs]. rewrite Hs. cbn [is_some]. eexists. split; [done|].
    cbn [deleted deleted_paths map]. rewrite Hd, Hp. split_and!; [done..|]. intros k. rewrite Hk. destruct (decide (k = id)) as [->|Hne].
    + rewrite (decide_True (P := id ∈ id :: ids)) by set_solver. rewrite decide_False by done. apply lookup_delete_eq.
    + rewrite lookup_delete_ne by done. destruct (decide (k ∈ ids)); [by rewrite decide_True by set_solver|by rewrite decide_False by set_solver].
Qed.

Definition delete_effect (t : Tree) (recursive : bool) (r : result DeleteOutcome string) (t' : Tree) : Prop :=
  (t' = t /\ exists e, r = Err e) \/
  exists key metas o,
    is_Some (t !! key) /\ spared t key /\ subtree t metas /\ (unrestricted run -> listed t metas) /\ r = Ok o /\
    NoDup (deleted o) /\ (forall x, x ∈ deleted o <-> x = key \/ tc (up metas) x key) /\
    (forall i k, deleted o !! i = Some k -> k = key \/ exists j p, i < j /\ deleted o !! j = Some p /\ parent_in t k p) /\
    (recursive = false -> deleted o = [key]) /\
    deleted_paths o = map (fun id => default "" (compute_path metas id)) (deleted o) /\
    (forall k, t' !! k = if decide (k ∈ deleted o) then None else t !! k).
Lemma up_parent_in t metas c p : subtree t metas -> up metas c p -> parent_in t c p.
Proof. intros (_ & Hm & _) (m & [Hin <-]%found_meta & Hp). exists (place m). split; [by apply Hm|done]. Qed.
Lemma runs_tool_delete t session_key recursive : canonical id_of t ->
  runs t (tool_delete_session id_of parse_uuid now run session_key recursive) (delete_effect t recursive).
Proof.
  intros Hcan. unfold tool_delete_session. assert (Hfail : forall e, delete_effect t recursive (Err e) t) by (left; eauto).
  apply runs_caller. intros c metas Hpl. apply runs_resolve; [done..|]. intros key [Hk _].
  apply runs_guard; [done|]. intros Hkn%find_known. apply runs_guard; [done|]. intros Hself. apply runs_guard; [done|]. intros Hanc.
  apply runs_guard; [done|]. intros Hdang. apply runs_guard; [done|]. intros Htrunk.
  pose proof (guards_spare t c metas key Hpl Hself Hanc Hdang Htrunk) as Hspared.
  destruct (descendants_of_spec key metas) as (ds & Hds & _ & Hdx). eapply runs_walk; [exact Hds|]. apply runs_guard; [done|]. intros Hrec.
  destruct (post_order_spec key metas) as (po & Hpo & Hn & Hpx & Hord). eapply runs_walk; [exact Hpo|].
  eapply runs_bind; [apply runs_guard_runs| |by intros e t' (-> & _)]. intros [] t' (-> & _).
  destruct Hpl as (Hsub & Hall & _). pose proof Hsub as (Hids & Hin & _).
  assert (Hmem : forall x, x ∈ po <-> x = key \/ tc (up metas) x key).
  { intros x. rewrite Hpx, rtc_tc, tc_down_up by done. naive_solver. }
  assert (Hseen : forall x, x ∈ po -> is_Some (find_meta metas x)).
  { intros x [->|Hx]%Hmem; [done|]. inversion Hx as [? ? (m & Hm & _)|? ? ? (m & Hm & _)]; subst; by rewrite Hm. }
  eapply runs_weaken; [apply runs_delete_each; [done|]|].
  - apply Forall_forall. intros x Hx%Hseen. pose proof (seen_known t metas x Hsub Hx) as [pl Hl]. split; [exact (proj1 (Hcan x pl Hl))|by rewrite Hl].
  - intros r t' (o & -> & Hd & Hp & Hk'). right. exists key, metas, o. rewrite Hd. split_and!; try done.
    + by eapply seen_known.
    + intros i k Hi. destruct (Hord i k Hi) as [?|(j & p & Hj & Hjp & Hkp)]; [by left|]. right. exists j, p. split_and!; [done..|].
      apply (up_parent_in t metas); [done|]. by apply up_down.
    + intros ->. destruct (sort_by String.leb ds) as [|d l] eqn:E; [|done]. assert (ds = []) as -> by (apply Permutation_nil; by rewrite <- E, sort_by_perm).
      assert (Hone : forall x, x ∈ po -> x = key).
      { intros x [?|Hx]%Hmem; [done|]. destruct (decide (x = key)); [done|]. exfalso. apply (not_elem_of_nil x), Hdx. split; [done|]. by apply tc_down_up. }
      assert (Hkey : key ∈ po) by (apply Hmem; by left). destruct po as [|a po]; [by apply elem_of_nil in Hkey|].
      rewrite (Hone a) in * by set_solver. destruct po as [|b po]; [done|]. rewrite (Hone b) in Hn by set_solver.
      apply NoDup_cons in Hn as [Hn _]. set_solver.
Qed.
End Operations.

(** ** Sequences of calls *)

Inductive ToolCall :=
  | CallRename (session_key : string) (title slug : option string)
  | CallMove (event_id session_key new_parent : string) (new_slug : option string)
  | CallCopy (agent : string) (new_id : SessionId) (event_id session_key target_parent target_slug : string) (title : option string)
  | CallDelete (session_key : string) (recursive : bool).
(** New ids are new, to the store and to the text of the call; slugs of moves
    are segments of a path the tool has validated. *)
Definition admissible (id_of : string -> SessionId) (parse_uuid : string -> option SessionId) (t : Tree) (c : ToolCall) : Prop :=
  match c with
  | CallMove _ _ _ new_slug => forall g, new_slug = Some g -> validate_slug g = Ok tt
  | CallCopy _ n _ _ target _ _ => t !! n = None /\ (forall k, ~ parent_in t k n) /\ id_of n = n /\ parse_uuid target <> Some n
  | _ => True
  end.

Section Calls.
  Context {J : SessionJson}.
  Context (id_of : string -> SessionId) (parse_uuid : string -> option SessionId).
  Context (id_of_idem : forall x, id_of (id_of x) = id_of x).
  Context (uuid_canonical : forall s x, parse_uuid s = Some x -> id_of x = x).

Definition tool_call (now : Z) (run : Run) (c : ToolCall) : M unit :=
  match c with
  | CallRename key title slug => rename_session id_of parse_uuid now run key title slug
  | CallMove ev key to slug => move_session id_of parse_uuid now run ev key to slug
  | CallCopy agent n ev key to slug title => _ ← tool_copy_session id_of parse_uuid now run agent n ev key to slug title; mret tt
  | CallDelete key recursive => _ ← tool_delete_session id_of parse_uuid now run key recursive; mret tt
  end.
(** One call on the store, by some run [P] holds of, at some time, through any
    manager whose cache agrees with the file when the call starts. *)
Inductive tree_step (P : Run -> Prop) (w : World) : World -> Prop :=
  | tree_step_intro manager now run c :
      P run -> coherent (manager, w) -> admissible id_of parse_uuid (tree_of w) c ->
      tree_step P w (snd (snd (tool_call now run c (manager, w)))).

Lemma runs_unit {A} t (c : M A) (post : Tree -> Prop) : runs t c (fun r t' => post t') -> runs t (_ ← c; mret tt) (fun r t' => post t').
Proof. intros H. eapply runs_bind; [exact H| |done]. intros a t' Ht. by apply runs_ret. Qed.

Lemma move_canonical run t g r t' : canonical id_of t -> acyclic t -> move_effect id_of run t g r t' -> canonical id_of t' /\ acyclic t'.
Proof.
  intros Hc Ha [[_ ->]|(key & target & pl & Hk & [plt Htt] & _ & Hn & _ & H)]; [done|].
  assert (Hgo : forall pl', parent_session_id pl' = Some target -> canonical id_of (<[key := pl']> t) /\ acyclic (<[key := pl']> t)).
  { intros pl' Hp. split; [|by eapply acyclic_moved]. apply canonical_placed; [done|exact (proj1 (Hc key pl Hk))|]. intros p Hpp. rewrite Hp in Hpp.
    injection Hpp as <-. exact (proj1 (Hc target plt Htt)). }
  destruct H as [(_ & -> & _)|(_ & -> & _)]; by apply Hgo.
Qed.
Lemma move_slugs run t new_slug r t' : unrestricted run -> (forall g, new_slug = Some g -> validate_slug g = Ok tt) -> distinct_slugs t ->
  move_effect id_of run t new_slug r t' -> distinct_slugs t'.
Proof.
  intros Hu Hv Hd [[_ ->]|(key & target & pl & Hk & _ & _ & _ & Hf & H)]; [done|].
  destruct H as [(_ & -> & _)|(_ & -> & g & -> & H)].
  - apply slugs_placed; [done|]. cbn [SessionIndex.slug parent_session_id]. intros g Hg. split; [|by apply Hf].
    destruct new_slug as [s|]; cbn in Hg; [by apply Hv|]. destruct Hd as [_ Hd]. by apply (Hd key pl).
  - destruct H. split; [by apply Hv|by apply Hf].
Qed.
Lemma rename_sound run t g t' : rename_effect id_of run t g t' ->
  (canonical id_of t -> acyclic t -> canonical id_of t' /\ acyclic t') /\ (distinct_slugs t -> distinct_slugs t').
Proof.
  intros [->|(key & pl & s & _ & Hk & _ & -> & Hv & Hf)]; [done|]. split.
  - intros Hc Ha. destruct (Hc key pl Hk). split; [by apply canonical_placed|by eapply acyclic_same].
  - intros Hd. apply slugs_placed; [done|]. cbn. by intros ? [= <-].
Qed.
Lemma copy_sound t n target g t' : (t !! n = None /\ (forall k, ~ parent_in t k n) /\ id_of n = n /\ parse_uuid target <> Some n) ->
  copy_effect id_of parse_uuid t n target g t' ->
  (canonical id_of t -> acyclic t -> canonical id_of t' /\ acyclic t') /\ (distinct_slugs t -> distinct_slugs t').
Proof.
  intros (Hn & Hnp & Hnc & Hu) [->|(p & s & -> & Hp & Hin & Hs)]; [done|]. split.
  - intros Hc Ha. split; [apply canonical_placed; [done..|]; cbn; by intros ? [= <-]|]. eapply acyclic_moved; [done..|].
    intros Hr. apply rtc_tc in Hr as [->|Hr]; [destruct Hin as [[? ?]|?]; congruence|].
    assert (Hlast : forall a b, tc (parent_in t) a b -> exists k, parent_in t k b) by (intros a b; induction 1 as [a b|a c b _ _ IH]; eauto).
    destruct (Hlast _ _ Hr) as [k Hk]. by apply (Hnp k).
  - intros Hd. apply slugs_placed; [done|]. cbn. intros x Hx. by apply Hs.
Qed.
Lemma delete_subseteq run t b r t' : delete_effect id_of run t b r t' -> t' ⊆ t.
Proof.
  intros [[-> _]|(key & metas & o & _ & _ & _ & _ & _ & _ & _ & _ & _ & _ & Hk)]; [done|].
  apply map_subseteq_spec. intros k pl. rewrite Hk. by destruct (decide _).
Qed.
Lemma runs_call now run c t : canonical id_of t -> acyclic t -> admissible id_of parse_uuid t c ->
  runs t (tool_call now run c) (fun r t' => canonical id_of t' /\ acyclic t' /\ (unrestricted run -> distinct_slugs t -> distinct_slugs t')).
Proof.
  intros Hc Ha Hadm. destruct c as [key title slug|ev key to slug|agent n ev key to slug title|key recursive]; cbn [tool_call].
  - eapply runs_weaken; [by apply runs_rename|]. intros r t' H. destruct (rename_sound _ _ _ _ H) as [H1 H2]. destruct (H1 Hc Ha). by split_and!.
  - eapply runs_weaken; [by apply runs_move|]. intros r t' H. destruct (move_canonical _ _ _ _ _ Hc Ha H). split_and!; [done..|].
    intros Hu Hd. by eapply move_slugs.
  - apply runs_unit. pose proof Hadm as (Hn & _ & Hnc & _). eapply runs_weaken; [by apply runs_copy|]. intros r t' H.
    destruct (copy_sound _ _ _ _ _ Hadm H) as [H1 H2]. destruct (H1 Hc Ha). by split_and!.
  - apply runs_unit. eapply runs_weaken; [by apply runs_tool_delete|]. intros r t' H%delete_subseteq.
    split_and!; [by eapply canonical_subseteq|by eapply acyclic_subseteq|]. intros _. by apply slugs_subseteq.
Qed.
End Calls.

(** ** Theorems *)

(** C13. Through any sequence of the tool's calls, one at a time, by whatever runs
    and through whatever managers, each call made with a cache that agrees with
    the file (a manager opened for the call, or one whose cache no other manager
    has overtaken), the stored parents never form a cycle; when every caller
    sees the whole store, siblings keep different, valid slugs too. *)
Theorem session_tree_kept {J : SessionJson} id_of parse_uuid P w w' :
  (forall x, id_of (id_of x) = id_of x) -> (forall t x, parse_uuid t = Some x -> id_of x = x) ->
  rtc (tree_step id_of parse_uuid P) w w' -> canonical id_of (tree_of w) -> acyclic (tree_of w) ->
  canonical id_of (tree_of w') /\ acyclic (tree_of w') /\
  ((forall run, P run -> unrestricted run) -> distinct_slugs (tree_of w) -> distinct_slugs (tree_of w')).
Proof.
  intros Hidem Huuid. induction 1 as [w|w w1 w2 Hstep _ IH]; intros Hc Ha; [done|].
  destruct Hstep as [manager now run c HP Hco Hadm].
  destruct (runs_call id_of parse_uuid Hidem Huuid now run c (tree_of w) Hc Ha Hadm (manager, w) Hco eq_refl) as (_ & Hc1 & Ha1 & Hd1).
  destruct (IH Hc1 Ha1) as (H2 & H3 & H4). split_and!; [done..|]. intros HU Hd. apply H4; [done|]. apply Hd1; auto.
Qed.

(** A successful move puts the session, which is not the caller's own, none of
    the caller's ancestors and not the trunk, under the destination, which is
    not below it; its slug is the new one or stays; nothing else moves. *)
Theorem move_exact {J : SessionJson} id_of parse_uuid now run s event_id session_key new_parent new_slug s' :
  (forall x, id_of (id_of x) = id_of x) -> (forall t x, parse_uuid t = Some x -> id_of x = x) ->
  coherent s -> canonical id_of (tree_at s) ->
  move_session id_of parse_uuid now run event_id session_key new_parent new_slug s = (Ok tt, s') ->
  exists key target pl, let me := id_of (current_key run) in
    tree_at s !! key = Some pl /\ is_Some (tree_at s !! target) /\
    key <> me /\ ~ tc (parent_in (tree_at s)) me key /\ key <> trunk_session_id id_of /\ ~ rtc (parent_in (tree_at s)) target key /\
    tree_at s' = <[key := {| parent_session_id := Some target; SessionIndex.slug := or_else new_slug (SessionIndex.slug pl) |}]> (tree_at s).
Proof.
  intros Hidem Huuid Hco Hc Hm.
  destruct (runs_move id_of parse_uuid now run Hidem Huuid (tree_at s) event_id session_key new_parent new_slug Hc s Hco eq_refl) as [_ H].
  rewrite Hm in H. cbn [fst snd] in H. destruct H as [[H _]|(key & target & pl & Hk & Ht & (H1 & H2 & H3) & Hn & _ & H)]; [done|].
  exists key, target, pl. cbv zeta. destruct H as [(_ & -> & _)|[H _]]; [by split_and!|done].
Qed.

(** C29. Deleting, by a caller that sees the whole store and through a cache that
    agrees with the file, removes exactly the session and everything below it,
    each before its parent, and says so; the caller's own session and its
    ancestors stay, and without [recursive] only a session with nothing below
    goes. *)
Theorem delete_exact {J : SessionJson} id_of parse_uuid now run s session_key recursive o s' :
  (forall x, id_of (id_of x) = id_of x) -> (forall t x, parse_uuid t = Some x -> id_of x = x) ->
  coherent s -> canonical id_of (tree_at s) -> unrestricted run ->
  tool_delete_session id_of parse_uuid now run session_key recursive s = (Ok o, s') ->
  let t := tree_at s in let me := id_of (current_key run) in
  exists key, is_Some (t !! key) /\ NoDup (deleted o) /\
    (forall x, x ∈ deleted o <-> x = key \/ tc (parent_in t) x key) /\
    (forall i k, deleted o !! i = Some k -> k = key \/ exists j p, i < j /\ deleted o !! j = Some p /\ parent_in t k p) /\
    (recursive = false -> deleted o = [key]) /\
    (forall k, tree_at s' !! k = if decide (k ∈ deleted o) then None else t !! k) /\
    (forall a, rtc (parent_in t) me a -> a ∉ deleted o).
Proof.
  intros Hidem Huuid Hco Hc Hu Hdel. cbv zeta.
  destruct (runs_tool_delete id_of parse_uuid now run Hidem Huuid (tree_at s) session_key recursive Hc s Hco eq_refl) as [_ H].
  rewrite Hdel in H. cbn [fst snd] in H.
  destruct H as [[_ [e H]]|(key & metas & o' & Hk & (H1 & H2 & _) & Hsub & Hall & [= <-] & Hn & Hx & Hord & Hrec & _ & Ht)]; [done|].
  specialize (Hall Hu). assert (Hiff : forall x, tc (up metas) x key <-> tc (parent_in (tree_at s)) x key).
  { intros x. split; [apply tc_mono; intros a b; by apply up_parent_in|]. intros Htc. apply (subtree_tc (tree_at s)); [done| |done].
    destruct Hall as [_ Hl]. inversion Htc as [? ? (pl & Hpl & _)|? ? ? (pl & Hpl & _)]; subst;
      apply Hl in Hpl as (m & Hm & <- & _); destruct Hsub as (Hids & _); by rewrite (find_meta_unique metas m). }
  exists key. split_and!; try done.
  - intros x. by rewrite Hx, Hiff.
  - intros a Ha [->|Hka]%Hx; [apply rtc_tc in Ha as [Ha|Ha]; [by apply H1|by apply H2]|]. apply Hiff in Hka. apply H2. by eapply tc_rtc_l.
Qed.

(** C14. In a store whose siblings have different, valid slugs, read through a cache
    that agrees with the file: under a root without a slug, the path the tool
    shows for a session below it resolves to that session from every session of
    the tree, when the session and those between it and the root have slugs. *)
Theorem shown_paths_resolve now s : coherent s -> distinct_slugs (tree_at s) ->
  let t := tree_at s in
  exists metas, fst (list_metadata now s) = Ok metas /\
    forall r pl caller x, t !! r = Some pl -> parent_session_id pl = None -> SessionIndex.slug pl = None ->
      rtc (parent_in t) caller r -> rtc (parent_in t) x r ->
      (forall y ply, rtc (parent_in t) x y -> y <> r -> t !! y = Some ply -> SessionIndex.slug ply <> None) ->
      exists path, compute_path metas x = Some path /\ resolve_path metas caller path = Some (Ok x).
Proof.
  intros Hco [Hd Hv]. cbv zeta. destruct (runs_list now (tree_at s) s Hco eq_refl) as (_ & _ & metas & Hm & Hl).
  exists metas. split; [done|]. pose proof (listed_subtree _ _ Hl) as Hsub. pose proof Hl as [Hids Hin].
  assert (Hplace : forall m, m ∈ metas -> tree_at s !! session_id m = Some (place m)) by (intros m Hmm; apply Hin; eauto).
  intros r pl caller x Hr Hp Hs Hcr Hxr Hslug.
  apply Hin in Hr as (mr & Hmr & <- & <-). pose proof (find_meta_unique metas mr Hids Hmr) as Hfr.
  assert (Hroot : is_root metas (session_id mr)) by (exists mr; split; [done|]; unfold parent; congruence).
  assert (Hknown : forall c p, parent_in (tree_at s) c p -> up metas c p).
  { intros c p Hc. apply (subtree_up (tree_at s)); [done| |done]. destruct Hc as (plc & Hplc & _). apply Hin in Hplc as (m & Hmm & <- & _). by rewrite (find_meta_unique metas m). }
  assert (Htop : top metas (session_id mr) caller).
  { clear -Hcr Hroot Hknown. remember (session_id mr) as r eqn:E. clear E. induction Hcr as [|c p r Hcp _ IH]; [by constructor|]. eapply top_up; [by apply Hknown|]. by apply IH. }
  assert (Hdesc : exists segs, descends metas (session_id mr) segs x /\ valid_slugs segs).
  { clear Hcr Htop. remember (session_id mr) as r eqn:E. induction Hxr as [|c p r Hcp Hpr IH]; [exists []; split; constructor|].
    destruct IH as (segs & Hsegs & Hval); [done| |done..|].
    { intros y ply Hy. apply Hslug. by eapply rtc_l. }
    destruct (decide (c = r)) as [->|Hne]; [exists []; split; constructor|].
    pose proof (Hknown c p Hcp) as (m & [Hmm <-]%found_meta & Hpm). pose proof (Hslug _ _ (rtc_refl _ _) Hne (Hplace m Hmm)) as Hg.
    destruct (SessionIndex.slug (place m)) as [g|] eqn:Eg; [|done]. exists (segs ++ [g]). split; [by econstructor|].
    apply Forall_app. split; [done|]. apply Forall_singleton. by eapply Hv; [apply Hplace|]. }
  destruct Hdesc as (segs & Hdesc & Hval).
  destruct (path_roundtrip metas (session_id mr) caller segs x Hids) as (path & H1 & _ & H2); try done; [| |eauto].
  - intros m m' g Hm1 Hm2 Hpp Hg1 Hg2. apply (Hd (session_id m) (session_id m') (place m) (place m') g); try done; by apply Hplace.
  - rewrite Hfr. intros m [= <-]. done.
Qed.

(** ** Examples *)

Lemma acyclic_rank (rank : SessionId -> nat) (t : Tree) : (forall c p, parent_in t c p -> rank p < rank c) -> acyclic t.
Proof.
  intros Hr x Hx. assert (Hlt : forall a b, tc (parent_in t) a b -> rank b < rank a); [|specialize (Hlt x x Hx); lia].
  intros a b. induction 1 as [a b H|a c b H _ IH]; [by apply Hr|]. specialize (Hr _ _ H). lia.
Qed.

(** A manager just opened has nothing to disagree with. *)
Lemma coherent_fresh w : sound_disk w -> coherent (index_open, w).
Proof. intros H. split; [|by intros m]. split; [by split_and!|done]. Qed.

Module TreeExample.

Definition same (x : string) : SessionId := x.
Definition no_uuid (x : string) : option SessionId := None.
Definition entry (id : string) (p s : option string) (c : option Compartment) : SessionEntry :=
  let e := set_place (entry_new 0 id "helper" (id +:+ ".jsonl")) {| parent_session_id := p; SessionIndex.slug := s |} in
  match c with Some c => set_compartment c e | None => e end.
Definition store_of (es : list SessionEntry) : SessionIndex.SessionIndex * World :=
  (index_open, {| disk := {| sessions_json := Readable (list_to_map (map (fun e => (session_id e, e)) es)); peers_json := Readable ∅ |};
                  files := ∅ |}).
(** The trunk with two sessions below it, one of them with a child. *)
Definition home : SessionIndex.SessionIndex * World :=
  store_of [entry "root:self" None None None; entry "a" (Some "root:self") (Some "memory") None;
            entry "b" (Some "a") (Some "task") None; entry "c" (Some "root:self") (Some "notes") None].
Definition from (id : SessionId) : Run := {| acting_for := None; current_key := id; inbox := None; subagents := fun _ => false |}.

Lemma home_coherent : coherent home.
Proof.
  split; [|by intros m]. split; [by split_and!|]. split; [|by exists ∅]. eexists. split; [reflexivity|].
  apply (bool_decide_unpack (map_Forall (fun k e => session_id e = k) _)). by vm_compute.
Qed.
Lemma same_canonical t : canonical same t.
Proof. done. Qed.
Definition depth (id : SessionId) : nat := if String.eqb id "root:self" then 0 else if String.eqb id "b" then 2 else 1.
Lemma home_acyclic : acyclic (tree_at home).
Proof.
  apply (acyclic_rank depth). intros c p (pl & Hc & Hp).
  assert (H : map_Forall (fun c pl => match parent_session_id pl with Some p => Nat.ltb (depth p) (depth c) | None => true end = true) (tree_at home)).
  { refine (bool_decide_unpack _ _). by vm_compute. }
  specialize (H c pl Hc). cbn beta in H. rewrite Hp in H. by apply Nat.ltb_lt.
Qed.
Lemma home_slugs : distinct_slugs (tree_at home).
Proof.
  assert (H1 : map_Forall (fun k pl => map_Forall (fun k' pl' => parent_session_id pl = parent_session_id pl' ->
                 SessionIndex.slug pl = SessionIndex.slug pl' -> SessionIndex.slug pl <> None -> k = k') (tree_at home)) (tree_at home)).
  { refine (bool_decide_unpack _ _). by vm_compute. }
  assert (H2 : map_Forall (fun k pl => match SessionIndex.slug pl with Some g => slug_problem g | None => None end = None) (tree_at home)).
  { refine (bool_decide_unpack _ _). by vm_compute. }
  split.
  - intros k k' pl pl' g Hk Hk' Hp Hs Hs'. apply (H1 k pl Hk k' pl' Hk'); congruence.
  - intros k pl g Hk Hs. specialize (H2 k pl Hk). cbn beta in H2. rewrite Hs in H2. unfold validate_slug. by rewrite H2.
Qed.
End TreeExample.

#[local] Existing Instances SessionCodec.json SessionCodec.json_laws.

(** Two moves by two managers, the second opened after the first call. *)
Lemma session_tree_kept_witness :
  let w1 := snd (snd (tool_call TreeExample.same TreeExample.no_uuid 5 (TreeExample.from "root:self") (CallMove "e" "/notes" "/memory" None) TreeExample.home)) in
  let w2 := snd (snd (tool_call TreeExample.same TreeExample.no_uuid 6 (TreeExample.from "root:self") (CallMove "f" "/memory/task" "/memory/notes" None) (index_open, w1))) in
  (parent_session_id <$> tree_of w2 !! "b") = Some (Some "c") /\ acyclic (tree_of w2) /\ distinct_slugs (tree_of w2).
Proof.
  cbv zeta. set (w1 := snd (snd (tool_call _ _ 5 _ _ _))).
  assert (Hco : coherent (index_open, w1)).
  { apply coherent_fresh. destruct (runs_call TreeExample.same TreeExample.no_uuid (fun _ => eq_refl) ltac:(done) 5 (TreeExample.from "root:self")
      (CallMove "e" "/notes" "/memory" None) (tree_at TreeExample.home) (TreeExample.same_canonical _) TreeExample.home_acyclic
      ltac:(by intros g [=]) TreeExample.home TreeExample.home_coherent eq_refl) as [[[_ H] _] _]. exact H. }
  destruct (session_tree_kept TreeExample.same TreeExample.no_uuid (fun run => acting_for run = None) (snd TreeExample.home)
    (snd (snd (tool_call TreeExample.same TreeExample.no_uuid 6 (TreeExample.from "root:self") (CallMove "f" "/memory/task" "/memory/notes" None) (index_open, w1)))))
    as (_ & Ha & Hd).
  - done.
  - intros t x H. discriminate.
  - eapply rtc_l; [exact (tree_step_intro _ _ (fun run => acting_for run = None) _ (fst TreeExample.home) 5%Z (TreeExample.from "root:self") (CallMove "e" "/notes" "/memory" None)
                            eq_refl TreeExample.home_coherent ltac:(intros g H; discriminate H))|].
    apply rtc_once. apply tree_step_intro; [reflexivity|exact Hco|]. intros g H. discriminate.
  - apply TreeExample.same_canonical.
  - apply TreeExample.home_acyclic.
  - split; [vm_compute; reflexivity|]. split; [exact Ha|]. apply Hd; [|apply TreeExample.home_slugs]. intros run H. unfold unrestricted. by rewrite H.
Defined.
Lemma move_exact_witness :
  let m := move_session TreeExample.same TreeExample.no_uuid 5 (TreeExample.from "a") "e" "/notes" "/memory" (Some "kept") TreeExample.home in
  fst m = Ok tt /\ exists key target pl, tree_at TreeExample.home !! key = Some pl /\
    tree_at (snd m) = <[key := {| parent_session_id := Some target; SessionIndex.slug := Some "kept" |}]> (tree_at TreeExample.home).
Proof.
  cbv zeta. assert (H : fst (move_session TreeExample.same TreeExample.no_uuid 5 (TreeExample.from "a") "e" "/notes" "/memory" (Some "kept") TreeExample.home) = Ok tt)
    by (vm_compute; reflexivity).
  split; [exact H|].
  destruct (move_exact TreeExample.same TreeExample.no_uuid 5 (TreeExample.from "a") TreeExample.home "e" "/notes" "/memory" (Some "kept")
    (snd (move_session TreeExample.same TreeExample.no_uuid 5 (TreeExample.from "a") "e" "/notes" "/memory" (Some "kept") TreeExample.home)))
    as (key & target & pl & Hk & _ & _ & _ & _ & _ & Ht).
  - done.
  - intros t x Hx. discriminate.
  - apply TreeExample.home_coherent.
  - apply TreeExample.same_canonical.
  - by rewrite <- H, <- surjective_pairing.
  - exists key, target, pl. split; [exact Hk|exact Ht].
Defined.
Lemma delete_exact_witness :
  let d := tool_delete_session TreeExample.same TreeExample.no_uuid 5 (TreeExample.from "c") "/memory" true TreeExample.home in
  deleted <$> (match fst d with Ok o => Some o | Err _ => None end) = Some ["b"; "a"] /\ tree_at (snd d) !! "b" = None.
Proof.
  cbv zeta. set (d := tool_delete_session TreeExample.same TreeExample.no_uuid 5 (TreeExample.from "c") "/memory" true TreeExample.home).
  assert (H : fst d = Ok {| deleted := ["b"; "a"]; deleted_paths := ["sess:/memory/task"; "sess:/memory"] |}) by (vm_compute; reflexivity).
  rewrite H. split; [reflexivity|].
  destruct (delete_exact TreeExample.same TreeExample.no_uuid 5 (TreeExample.from "c") TreeExample.home "/memory" true
    {| deleted := ["b"; "a"]; deleted_paths := ["sess:/memory/task"; "sess:/memory"] |} (snd d)) as (key & _ & _ & _ & _ & _ & Ht & _).
  - done.
  - intros t x Hx. discriminate.
  - apply TreeExample.home_coherent.
  - apply TreeExample.same_canonical.
  - done.
  - by rewrite <- H, <- surjective_pairing.
  - rewrite Ht. reflexivity.
Defined.
Lemma shown_paths_resolve_witness :
  exists metas, fst (list_metadata 0 TreeExample.home) = Ok metas /\
    exists path, compute_path metas "b" = Some path /\ resolve_path metas "c" path = Some (Ok "b").
Proof.
  destruct (shown_paths_resolve 0 TreeExample.home TreeExample.home_coherent TreeExample.home_slugs) as (metas & Hm & H).
  exists metas. split; [exact Hm|]. apply (H "root:self" {| parent_session_id := None; SessionIndex.slug := None |} "c" "b").
  - reflexivity.
  - reflexivity.
  - reflexivity.
  - eapply rtc_l; [eexists; split; reflexivity|apply rtc_refl].
  - eapply rtc_l; [eexists; split; reflexivity|]. eapply rtc_l; [eexists; split; reflexivity|apply rtc_refl].
  - assert (Hall : map_Forall (fun k pl => k <> "root:self" -> SessionIndex.slug pl <> None) (tree_at TreeExample.home))
      by (refine (bool_decide_unpack _ _); vm_compute; exact I).
    intros y ply _ Hne Hy. exact (Hall y ply Hy Hne).
Defined.

(** *** Findings *)

Module TreeFindings.
Import TreeExample.

(** A room's sessions beside one of the runtime's own below them. *)
Definition room : option Compartment := Some (Conversation "room").
Definition shared : SessionIndex.SessionIndex * World :=
  store_of [entry "root:self" None None (Some Internal); entry "p" (Some "root:self") (Some "p") room;
            entry "q" (Some "root:self") (Some "x") room; entry "r" (Some "root:self") (Some "r") room;
            entry "h" (Some "p") (Some "x") (Some Internal)].
Definition guest : Run :=
  {| acting_for := Some {| actor := "user:bo"; actor_name := None; trust := Trusted; compartment := Conversation "room"; origin := Runtime |};
     current_key := "r"; inbox := None; subagents := fun _ => false |}.
End TreeFindings.
Import TreeExample TreeFindings.

(** A move is checked against the siblings the caller sees: under a parent
    with a hidden child of that slug it makes a second one. *)
Theorem hidden_sibling_slug_taken :
  let '(r, s) := move_session same no_uuid 5 guest "e" "/x" "/p" None shared in
  r = Ok tt /\ ~ distinct_slugs (tree_at s).
Proof.
  rewrite (surjective_pairing (move_session same no_uuid 5 guest "e" "/x" "/p" None shared)).
  assert (H : let t := tree_at (snd (move_session same no_uuid 5 guest "e" "/x" "/p" None shared)) in
              t !! "q" = Some {| parent_session_id := Some "p"; SessionIndex.slug := Some "x" |} /\
              t !! "h" = Some {| parent_session_id := Some "p"; SessionIndex.slug := Some "x" |}) by (by vm_compute).
  split; [by vm_compute|]. destruct H as [Hq Hh]. intros [Hd _]. by specialize (Hd "q" "h" _ _ "x" Hq Hh eq_refl eq_refl eq_refl).
Qed.

(** A delete without [recursive] looks for descendants among what the caller
    sees: a session with a hidden child goes, and the child is left without
    its parent. *)
Theorem hidden_child_orphaned :
  let '(r, s) := tool_delete_session same no_uuid 5 guest "/p" false shared in
  (deleted <$> match r with Ok o => Some o | Err _ => None end) = Some ["p"] /\
  (parent_session_id <$> tree_at s !! "h") = Some (Some "p") /\ tree_at s !! "p" = None.
Proof. by vm_compute. Qed.

(** Two managers that loaded the same file: the first moves [c] below [a]; the
    second, its cache a second old, still sees [a] beside [c] and moves [a]
    below [c].  Each is now the other's parent. *)
Theorem stale_moves_make_cycle :
  let opened := snd (list_metadata 5 home) in
  let first := move_session same no_uuid 5 (from "root:self") "e" "/notes" "/memory" None opened in
  let second := move_session same no_uuid 6 (from "root:self") "f" "/memory" "/notes" None (fst opened, snd (snd first)) in
  fst first = Ok tt /\ fst second = Ok tt /\ ~ acyclic (tree_at (snd second)).
Proof.
  cbv zeta. split; [by vm_compute|]. split; [by vm_compute|]. intros Ha. apply (Ha "a").
  eapply tc_l; [|apply tc_once]; (eexists; split; [vm_compute; reflexivity|reflexivity]).
Qed.

(** Renaming does not spare the trunk: once it has a slug, the paths shown for
    the sessions below it no longer resolve. *)
Theorem trunk_slug_breaks_paths :
  let '(r, s) := rename_session same no_uuid 5 (from "a") "sess:/" None (Some "home") home in
  let shown := match fst (list_metadata 5 s) with Ok metas => compute_path metas "b" | Err _ => None end in
  let back := match fst (list_metadata 5 s) with Ok metas => resolve_path metas "a" "sess:/home/memory/task" | Err _ => None end in
  r = Ok tt /\ shown = Some "sess:/home/memory/task" /\ match back with Some (Err _) => true | _ => false end = true.
Proof. by vm_compute. Qed.
