(* ===== verification/MemoryGate.v ===== *)
(** * MemoryGate: what a scheduled owner run may add to the hot files

    peko-rs/core/src/security/memory_gate.rs: the entries of a hot file, what
    a write adds, the sources an entry cites, the screening of a write by its
    sources and by the reviewer's findings, and the excerpts the reviewer is
    shown.  The dispatcher composes them ([Dispatch]). *)

From Stdlib Require Import ZArith Lia Ascii.
From stdpp Require Import base tactics list gmap strings pretty sorting.
From S2P Require Import Prelude Text ActingFor.

Local Open Scope nat_scope.

(** ** Constants and verdicts *)

Definition HOT_MEMORY : string := "kb/MEMORY.md".
Definition HOT_CONVENTIONS : string := "kb/CONVENTIONS.md".
Definition SOURCED_HOT_FILES : list string := [HOT_MEMORY; HOT_CONVENTIONS].

Inductive SourceClass := SourceOwner | SourceOther (c : Compartment) | SourceUnknown.

Inductive HeldReason :=
| Uncited
| UnknownSource (source : string)
| OtherSource (source : string) (compartment : Compartment)
| Unsupported (reason : string)
| Unchecked (reason : string).

Record Held := { held_entry : string; held_reason : HeldReason }.

(** [Held::inbox_compartment]. *)
Definition inbox_compartment (h : Held) (own : Compartment) : Compartment :=
  match held_reason h with OtherSource _ c => c | _ => own end.

(** [Held::describe]. *)
Definition describe (h : Held) : string :=
  match held_reason h with
  | Uncited => "names no source"
  | UnknownSource source => "cites `" +:+ source +:+ "`, which was not found"
  | OtherSource source c =>
      "cites `" +:+ source +:+ "`, a conversation with others in it ("
      +:+ default "internal" (compartment_channel c) +:+ ")"
  | Unsupported reason => "the reviewer found it unsupported by its sources: " +:+ reason
  | Unchecked reason => "could not be checked: " +:+ reason
  end.

(** ** Entries *)

(** Every run of white space made one space. *)
Definition flatten (text : string) : string := join_with " " (split_whitespace text).

Definition HASH : ascii := "#"%char.
Definition starts_white (s : string) : bool := is_some (white_prefix s).

(** Blank, a heading, a rule or a code fence. *)
Definition is_structure (t : string) : bool :=
  let hashes := run_length (Ascii.eqb HASH) t in
  let rest := drop_bytes hashes t in
  bool_decide (t = EmptyString)
  || ((1 <=? hashes) && (hashes <=? 6) && (bool_decide (rest = EmptyString) || starts_white rest))
  || starts_with "```" t
  || all_bytes (fun c => Ascii.eqb c "-" || Ascii.eqb c "*" || Ascii.eqb c "_" || Ascii.eqb c " ") t.

Definition strip_one (p : ascii -> bool) (s : string) : option string :=
  match s with String c s => if p c then Some s else None | EmptyString => None end.

(** The start of a list item. *)
Definition is_item (t : string) : bool :=
  let digits := run_length is_digit t in
  let rest :=
    if 0 <? digits then strip_one (fun c => Ascii.eqb c "." || Ascii.eqb c ")") (drop_bytes digits t)
    else strip_one (fun c => Ascii.eqb c "-" || Ascii.eqb c "*" || Ascii.eqb c "+") t in
  match rest with
  | Some r => bool_decide (r = EmptyString) || starts_white r
  | None => false
  end.

Definition NL : string := String LF EmptyString.

(** The lines still to read, with those of the entry in progress. *)
Definition flush (current : list string) : list string :=
  match current with [] => [] | _ => [join_with NL current] end.
Fixpoint entries_from (current : list string) (ls : list string) : list string :=
  match ls with
  | [] => flush current
  | line :: ls =>
      let t := trim line in
      if is_structure t then flush current ++ entries_from [] ls
      else if is_item t then flush current ++ entries_from [trim_end line] ls
      else entries_from (current ++ [trim_end line]) ls
  end.
Definition entries (text : string) : list string := entries_from [] (lines text).

(** The entries whose flattened text is neither in [old] nor seen before. *)
Fixpoint fresh (old seen : gset string) (es : list string) : list string :=
  match es with
  | [] => []
  | e :: es =>
      let key := flatten e in
      if decide (key ∈ old) then fresh old seen es
      else if decide (key ∈ seen) then fresh old seen es
      else e :: fresh old ({[key]} ∪ seen) es
  end.
Definition added (existing candidate : string) : list string :=
  fresh (list_to_set (map flatten (entries existing))) ∅ (entries candidate).

(** The file as an [Edit] would leave it. *)
Definition apply_edit (existing old new : string) (replace_all : bool) : option string :=
  let occurrences := match old with EmptyString => 0 | _ => matches_count old existing end in
  match occurrences with
  | 0 => None
  | 1 => Some (replacen existing old new 1)
  | _ => if replace_all then Some (replace existing old new) else None
  end.

(** ** Sources *)

Definition SOURCE_PREFIXES : list string := ["sources:"; "source:"].

Definition push_new (out : list string) (s : string) : list string :=
  if decide (s ∈ out) then out else out ++ [s].

(** The items of one group; [channel] is the channel of the item before. *)
Fixpoint group_items (channel : option string) (out : list string) (items : list string) : list string :=
  match items with
  | [] => out
  | item :: items =>
      let item := trim (trim_matches "`" (trim item)) in
      match item with
      | EmptyString => group_items channel out items
      | _ =>
          let source :=
            match channel with
            | Some channel => if starts_with "#" item then channel +:+ item else item
            | None => item
            end in
          let channel :=
            match split_once HASH source with
            | Some (channel, _) => if bool_decide (channel = EmptyString) then None else Some channel
            | None => None
            end in
          group_items channel (push_new out source) items
      end
  end.

(** [rest] is the flattened entry from [from] on. *)
Fixpoint sources_loop (fuel : nat) (rest : string) (out : list string) : list string :=
  match fuel with
  | 0 => out
  | S fuel =>
      match split_once "(" rest with
      | None => out
      | Some (_, inner) =>
          let text := trim_start inner in
          match List.find (fun p => starts_with p (to_ascii_lowercase text)) SOURCE_PREFIXES with
          | None => sources_loop fuel inner out
          | Some p =>
              match split_once ")" (drop_bytes (String.length p) text) with
              | None => out
              | Some (group, after) =>
                  sources_loop fuel after
                    (group_items None out
                       (split_any (fun c => Ascii.eqb c "," || Ascii.eqb c ";") group))
              end
          end
      end
  end.
Definition sources (entry : string) : list string :=
  let flat := flatten entry in sources_loop (S (String.length flat)) flat [].

Definition cited (existing candidate : string) : list string :=
  fold_left (fun out e => fold_left push_new (sources e) out) (added existing candidate) [].

(** ** The screen *)

(** Why one source holds its entry back, if it does. *)
Definition source_reason (classes : gmap string SourceClass) (source : string) : option HeldReason :=
  match classes !! source with
  | Some SourceOwner => None
  | Some (SourceOther c) => Some (OtherSource source c)
  | Some SourceUnknown | None => Some (UnknownSource source)
  end.
Fixpoint find_map {A B} (f : A -> option B) (l : list A) : option B :=
  match l with
  | [] => None
  | x :: l => match f x with Some y => Some y | None => find_map f l end
  end.
Definition entry_reason (classes : gmap string SourceClass) (entry : string) : option HeldReason :=
  match sources entry with
  | [] => Some Uncited
  | cited => find_map (source_reason classes) cited
  end.
Definition screen (existing candidate : string) (classes : gmap string SourceClass) : list Held :=
  omap (fun entry => option_map (fun r => {| held_entry := entry; held_reason := r |}) (entry_reason classes entry))
       (added existing candidate).

(** ** Claims and the reviewer's findings *)

Record Claim := { claim_entry : string; claim_sources : list string }.

Inductive ClaimCheck :=
| CheckSupported
| CheckUnsupported (reason : string)
| CheckUnchecked (reason : string)
| CheckSkipped (reason : string).

Definition claims (existing candidate : string) : list Claim :=
  omap (fun entry =>
          match sources entry with
          | [] => None
          | ss => Some {| claim_entry := entry; claim_sources := ss |}
          end) (added existing candidate).

Definition REVIEW_BASE_TOKENS : Z := 2048.
Definition REVIEW_TOKENS_PER_CLAIM : Z := 64.
(** [claims as u32] truncates; the arithmetic is unchecked in release. *)
Definition review_budget (claims : Z) : Z :=
  ((REVIEW_BASE_TOKENS + REVIEW_TOKENS_PER_CLAIM * (claims mod 2 ^ 32)) mod 2 ^ 32)%Z.

(** The reviewer's prompt. *)
Definition evidence_text (e : string * string) : string :=
  let '(source, excerpt) := e in
  let excerpt := if is_blank excerpt then "(nothing found)" else neutralize_runtime_tags excerpt in
  "Evidence from " +:+ neutralize_runtime_tags source +:+ ":" +:+ NL +:+ "<<<" +:+ NL +:+ excerpt
  +:+ NL +:+ ">>>" +:+ NL.
Fixpoint claims_text (index : nat) (cs : list (Claim * list (string * string))) : string :=
  match cs with
  | [] => EmptyString
  | (claim, evidence) :: cs =>
      NL +:+ "Line " +:+ pretty (N.of_nat (index + 1)) +:+ ": "
      +:+ neutralize_runtime_tags (flatten (claim_entry claim)) +:+ NL
      +:+ foldr (fun e acc => evidence_text e +:+ acc) EmptyString evidence
      +:+ claims_text (S index) cs
  end.
Definition review_prompt (cs : list (Claim * list (string * string))) : string :=
  "Check each memory line against the evidence under it." +:+ NL
  +:+ claims_text 0 cs
  +:+ NL +:+ "Answer one line per memory line, exactly:" +:+ NL
  +:+ "<n>: supported" +:+ NL +:+ "<n>: unsupported - <short reason>" +:+ NL.

Fixpoint eq_ignore_ascii_case (s t : string) : bool :=
  match s, t with
  | EmptyString, EmptyString => true
  | String a s, String b t => Ascii.eqb (ascii_lower a) (ascii_lower b) && eq_ignore_ascii_case s t
  | _, _ => false
  end.
Definition strip_prefix_ci (text prefix : string) : option string :=
  if eq_ignore_ascii_case (take_bytes (String.length prefix) text) prefix
  then Some (drop_bytes (String.length prefix) text) else None.

(** [checked_sub(1)] on a parsed line number, kept when it is below [count]. *)
Definition slot_of (n : Z) (count : nat) : option nat :=
  if (1 <=? n)%Z && (n <=? Z.of_nat count)%Z then Some (Z.to_nat (n - 1)) else None.

Definition is_unchecked (c : ClaimCheck) : bool := match c with CheckUnchecked _ => true | _ => false end.

Definition EM_DASH : string := String "226" (String "128" (String "148" EmptyString)).
Definition EN_DASH : string := String "226" (String "128" (String "147" EmptyString)).

(** What the text after the line number says. *)
Definition finding (rest : string) : option ClaimCheck :=
  let rest := trim (trim_start_matches [":"; "."; ")"; " "] rest) in
  let lower := to_ascii_lowercase rest in
  if starts_with "unsupported" lower then
    let reason := trim (trim_start_matches [" "; "-"; ":"; EM_DASH; EN_DASH]
                          (drop_bytes (String.length "unsupported") rest)) in
    Some (CheckUnsupported (if bool_decide (reason = EmptyString) then "no reason given" else reason))
  else if starts_with "supported" lower then Some CheckSupported
  else None.

(** The claim a line of the answer is about, and what it says of it. *)
Definition slot_and_rest (checks : list ClaimCheck) (count : nat) (line : string) : option (option nat * string) :=
  match strip_prefix "<" line with
  | Some inner =>
      match split_once ">" inner with
      | None => None
      | Some (label, rest) =>
          match parse_usize (trim label) with
          | Some n => Some (slot_of n count, rest)
          | None => Some (position is_unchecked checks, rest)
          end
      end
  | None =>
      let d := run_length is_digit line in
      match parse_usize (take_bytes d line) with
      | None => None
      | Some n => Some (slot_of n count, drop_bytes d line)
      end
  end.
(** The claim a line of the answer gives a finding for, and the finding. *)
Definition says (count : nat) (checks : list ClaimCheck) (line : string) : option (nat * ClaimCheck) :=
  let line := trim_start_matches ["-"; "*"; " "] (trim line) in
  let line := default line (strip_prefix_ci line "line ") in
  match slot_and_rest checks count line with
  | Some (Some slot, rest) => option_map (pair slot) (finding rest)
  | _ => None
  end.
Definition review_line (count : nat) (checks : list ClaimCheck) (line : string) : list ClaimCheck :=
  match says count checks line with
  | Some (slot, c) => <[slot := c]> checks
  | None => checks
  end.
Definition no_findings (count : nat) : list ClaimCheck :=
  replicate count (CheckUnchecked "the reviewer gave no finding").
Definition parse_review (answer : string) (count : nat) : list ClaimCheck :=
  fold_left (review_line count) (lines answer) (no_findings count).

Definition merge_check (a b : ClaimCheck) : ClaimCheck :=
  match a with CheckUnchecked _ => b | found => found end.
Definition merge_reviews (first second : list ClaimCheck) : list ClaimCheck :=
  zip_with merge_check first second.

Definition check_reason (c : ClaimCheck) : option HeldReason :=
  match c with
  | CheckSupported | CheckSkipped _ => None
  | CheckUnsupported r => Some (Unsupported r)
  | CheckUnchecked r => Some (Unchecked r)
  end.
Definition hold_unsupported (cs : list Claim) (checks : list ClaimCheck) : list Held :=
  omap (fun '(claim, check) =>
          option_map (fun r => {| held_entry := claim_entry claim; held_reason := r |}) (check_reason check))
       (zip cs checks).

(** ** The [Edit] tool

    What [EditTool::replace_in_file] (tools/builtin/fs/edit.rs) makes of the
    content it read, under its file lock. *)
Inductive EditError := EmptyOld | NotFound | NotUnique (occurrences : nat).
Definition replace_in_file (content old_string new_string : string) (replace_all : bool)
  : result string EditError :=
  if bool_decide (old_string = EmptyString) then Err EmptyOld
  else
    let occurrences := matches_count old_string content in
    if occurrences =? 0 then Err NotFound
    else if negb replace_all && (1 <? occurrences) then Err (NotUnique occurrences)
    else Ok (if replace_all then replace content old_string new_string
             else replacen content old_string new_string 1).

(** ** Excerpts *)

Record Passage := { label : string; passage_text : string; first : bool }.

Definition is_runtime_text (text : string) : bool :=
  let lower := to_ascii_lowercase text in
  starts_with "[runtime]" (trim_start lower)
  || contains_str "<runtime-context" lower || contains_str "<acting-for" lower.

(** [text] cut on a character boundary, with an ellipsis when cut. *)
Fixpoint boundary_before (text : string) (n : nat) : nat :=
  if is_char_boundary text n then n else match n with 0 => 0 | S n => boundary_before text n end.
Definition ELLIPSIS : string := String "226" (String "128" (String "166" EmptyString)).
Definition clip (text : string) (max_bytes : nat) : string :=
  if String.length text <=? max_bytes then text
  else if max_bytes <? 4 then EmptyString
  else take_bytes (boundary_before text (max_bytes - 3)) text +:+ ELLIPSIS.

Definition PASSAGE_BYTES : nat := 600.
Definition STOPWORDS : list string :=
  ["the"; "and"; "for"; "with"; "that"; "this"; "these"; "those"; "are"; "was"; "were"; "has";
   "have"; "had"; "you"; "your"; "not"; "but"; "from"; "into"; "about"; "they"; "them";
   "their"; "his"; "her"; "its"; "our"; "all"; "any"; "can"; "will"; "would"; "should";
   "there"; "here"; "what"; "when"; "which"; "who"; "how"; "also"; "just"].

Section Excerpts.
(** Unicode's tables: [char::is_alphanumeric] and [str::to_lowercase]. *)
Context (is_alphanumeric : string -> bool) (to_lowercase : string -> string).

(** The runs of alphanumeric characters, each as its characters. *)
Fixpoint runs (cs : list string) : list (list string) :=
  match cs with
  | [] => [[]]
  | c :: cs =>
      if is_alphanumeric c
      then match runs cs with w :: ws => (c :: w) :: ws | [] => [[c]] end
      else [] :: runs cs
  end.
Definition claim_words (text : string) : gset string :=
  list_to_set
    (List.filter (fun w => negb (existsb (String.eqb w) STOPWORDS))
       (map (fun w => to_lowercase (String.concat "" w))
          (List.filter (fun w => 3 <=? length w) (runs (chars text))))).

(** [claim.split(" (source").next()]. *)
Fixpoint before (p s : string) : string :=
  match s with
  | EmptyString => EmptyString
  | String a s1 => if starts_with p s then EmptyString else String a (before p s1)
  end.

(** A scored passage: its score, its index, the passage. *)
Record Scored := { score : nat; place : nat; passage : Passage }.
Fixpoint score_passages (wanted : gset string) (index : nat) (ps : list Passage) : list Scored :=
  match ps with
  | [] => []
  | p :: ps =>
      let n := size (claim_words (passage_text p) ∩ wanted) in
      (if 0 <? n then [{| score := n; place := index; passage := p |}] else [])
        ++ score_passages wanted (S index) ps
  end.
(** The comparison of [sort_by]: first passages, then the higher score, then
    the earlier one. *)
Definition sorts_before (a b : Scored) : bool :=
  let fa := first (passage a) in let fb := first (passage b) in
  if Bool.eqb fa fb
  then if score a =? score b then place a <=? place b else score b <? score a
  else fa.
Fixpoint insert_scored (le : Scored -> Scored -> bool) (x : Scored) (l : list Scored) : list Scored :=
  match l with
  | [] => [x]
  | y :: l => if le x y then x :: y :: l else y :: insert_scored le x l
  end.
Definition sort_scored (le : Scored -> Scored -> bool) (l : list Scored) : list Scored :=
  foldr (insert_scored le) [] l.

(** The passages that fit the budget, best first. *)
Fixpoint choose (max_bytes used : nat) (l : list Scored) : list (nat * string) :=
  match l with
  | [] => []
  | s :: l =>
      let p := passage s in
      let text := clip (clip (label p +:+ ": " +:+ passage_text p) PASSAGE_BYTES) (max_bytes - used) in
      match text with
      | EmptyString => []
      | _ => (place s, text) :: choose max_bytes (used + String.length text + 1) l
      end
  end.
Fixpoint insert_place (x : nat * string) (l : list (nat * string)) : list (nat * string) :=
  match l with
  | [] => [x]
  | y :: l => if x.1 <=? y.1 then x :: y :: l else y :: insert_place x l
  end.
Definition best_excerpts (claim : string) (passages : list Passage) (max_bytes : nat) : string :=
  let wanted := claim_words (before " (source" claim) in
  let chosen := choose max_bytes 0 (sort_scored sorts_before (score_passages wanted 0 passages)) in
  join_with NL (map snd (foldr insert_place [] chosen)).
End Excerpts.

(** The channel a source names. *)
Definition channel_of (source : string) : option string :=
  let channel := trim match split_once HASH source with Some (c, _) => c | None => source end in
  let named :=
    starts_with "chan_" channel || starts_with "dm_" channel
    || match strip_prefix "group:" channel with
       | Some slug => negb (bool_decide (slug = EmptyString))
       | None => false
       end in
  if named then Some channel else None.

(** ** Entries: nothing but structure is left out *)

Lemma flatten_words s t : flatten s = flatten t <-> split_whitespace s = split_whitespace t.
Proof.
  unfold flatten. split; [|by intros ->]. intros H.
  apply (f_equal split_whitespace) in H. by rewrite !split_whitespace_join in H by apply split_whitespace_solid.
Qed.

Definition is_content (line : string) : bool := negb (is_structure (trim line)).
Definition text_words (ls : list string) : list string := concat (map split_whitespace ls).

Lemma text_words_app ls ms : text_words (ls ++ ms) = text_words ls ++ text_words ms.
Proof. unfold text_words. by rewrite map_app, concat_app. Qed.
Lemma text_words_flush current : text_words (flush current) = text_words current.
Proof.
  destruct current as [|l ls]; [done|]. unfold flush, text_words at 1. cbn [map concat].
  by rewrite app_nil_r, split_whitespace_lines.
Qed.
Lemma text_words_cons l ls : text_words (l :: ls) = split_whitespace l ++ text_words ls.
Proof. done. Qed.

Lemma entries_from_words current ls :
  text_words (entries_from current ls) = text_words current ++ text_words (List.filter is_content ls).
Proof.
  revert current. induction ls as [|l ls IH]; intros current; cbn [entries_from List.filter].
  - by rewrite text_words_flush, app_nil_r.
  - unfold is_content at 1. destruct (is_structure (trim l)); cbn [negb].
    + by rewrite text_words_app, text_words_flush, IH.
    + destruct (is_item (trim l)).
      * rewrite text_words_app, text_words_flush, IH, !text_words_cons, split_whitespace_trim_end. by rewrite app_nil_r.
      * rewrite IH, text_words_app, !text_words_cons, split_whitespace_trim_end.
        change (text_words []) with (@nil string). by rewrite app_nil_r, <- app_assoc.
Qed.

(** The entries of a file carry every word of its lines that are not
    structure (blank lines, headings, rules, fences), in order and once each:
    no content line escapes the screen by the way the file is cut. *)
Theorem entries_cover_content text :
  concat (map split_whitespace (entries text))
  = concat (map split_whitespace (List.filter (fun l => negb (is_structure (trim l))) (lines text))).
Proof. apply (entries_from_words []). Qed.

(** ** What a write adds *)

Lemma elem_of_fresh old seen es e :
  e ∈ fresh old seen es -> e ∈ es /\ flatten e ∉ old.
Proof.
  revert seen. induction es as [|x es IH]; intros seen; cbn [fresh]; [set_solver|].
  repeat case_decide; [..|rewrite elem_of_cons; intros [->|]]; set_solver.
Qed.
Lemma fresh_complete old seen es e :
  e ∈ es -> flatten e ∉ old -> flatten e ∉ seen -> exists e', e' ∈ fresh old seen es /\ flatten e' = flatten e.
Proof.
  revert seen. induction es as [|x es IH]; intros seen He Ho Hs; [set_solver|]. cbn [fresh].
  apply elem_of_cons in He as [<-|He].
  - rewrite decide_False, decide_False by done. exists e. split; [apply elem_of_cons; by left|done].
  - repeat case_decide; [by apply IH..|].
    destruct (decide (flatten e = flatten x)) as [Heq|Hne]; [exists x; split; [apply elem_of_cons; by left|done]|].
    destruct (IH ({[flatten x]} ∪ seen)) as (e' & ? & ?); [done..|set_solver|].
    exists e'. split; [apply elem_of_cons; by right|done].
Qed.

Definition held_already (existing e : string) : Prop :=
  exists e', e' ∈ entries existing /\ split_whitespace e' = split_whitespace e.
Lemma old_entries existing e :
  flatten e ∈ (list_to_set (map flatten (entries existing)) : gset string) <-> held_already existing e.
Proof.
  rewrite elem_of_list_to_set. unfold held_already. setoid_rewrite <- flatten_words.
  rewrite list_elem_of_fmap. naive_solver.
Qed.

Lemma elem_of_added existing candidate e :
  e ∈ added existing candidate -> e ∈ entries candidate /\ ~ held_already existing e.
Proof. intros (? & H)%elem_of_fresh. by rewrite old_entries in H. Qed.
Lemma added_complete existing candidate e :
  e ∈ entries candidate -> ~ held_already existing e ->
  exists e', e' ∈ added existing candidate /\ split_whitespace e' = split_whitespace e.
Proof.
  intros He Hn. destruct (fresh_complete (list_to_set (map flatten (entries existing))) ∅ (entries candidate) e)
    as (e' & ? & ?%flatten_words); [done|by rewrite old_entries|set_solver|by exists e'].
Qed.

(** An entry's sources are read off its words. *)
Lemma sources_words e e' : split_whitespace e = split_whitespace e' -> sources e = sources e'.
Proof. intros ?%flatten_words. unfold sources. congruence. Qed.

(** Every added entry satisfies what depends only on the words of an entry
    exactly when every entry the file did not hold does. *)
Lemma added_forall (P : string -> Prop) existing candidate :
  (forall e e', split_whitespace e = split_whitespace e' -> P e -> P e') ->
  (forall e, e ∈ added existing candidate -> P e)
  <-> forall e, e ∈ entries candidate -> held_already existing e \/ P e.
Proof.
  intros HP. split.
  - intros H e He. destruct (decide (flatten e ∈ (list_to_set (map flatten (entries existing)) : gset string))) as [Hi|Hn];
      rewrite old_entries in *; [by left|right].
    destruct (added_complete existing candidate e) as (e' & Ha & Hw); [done..|]. eapply HP; [done|by apply H].
  - intros H e (He & Hn)%elem_of_added. by destruct (H e He).
Qed.

Lemma omap_nil {A B} (f : A -> option B) l : omap f l = [] <-> forall x, x ∈ l -> f x = None.
Proof.
  induction l as [|x l IH]; [set_solver|]. cbn. split.
  - intros H y [->|Hy]%elem_of_cons; destruct (f x) eqn:E; simplify_eq/=; [done|]. by apply IH.
  - intros H. rewrite (H x (list_elem_of_here _ _)). apply IH. intros y Hy. apply H. by right.
Qed.
Lemma find_map_None {A B} (f : A -> option B) l : find_map f l = None <-> forall x, x ∈ l -> f x = None.
Proof.
  induction l as [|x l IH]; [set_solver|]. cbn [find_map]. split.
  - intros H y [->|Hy]%elem_of_cons; destruct (f x) eqn:E; simplify_eq/=; [done|]. by apply IH.
  - intros H. rewrite (H x (list_elem_of_here _ _)). apply IH. intros y Hy. apply H. by right.
Qed.

Definition owner_sourced (classes : gmap string SourceClass) (e : string) : Prop :=
  sources e <> [] /\ forall s, s ∈ sources e -> classes !! s = Some SourceOwner.

Lemma source_reason_None classes s : source_reason classes s = None <-> classes !! s = Some SourceOwner.
Proof. unfold source_reason. by destruct (classes !! s) as [[]|]. Qed.
Lemma entry_reason_None classes e : entry_reason classes e = None <-> owner_sourced classes e.
Proof.
  unfold entry_reason, owner_sourced. destruct (sources e) as [|s l] eqn:E; [naive_solver|].
  rewrite find_map_None. setoid_rewrite source_reason_None. naive_solver.
Qed.
Lemma screen_nil existing candidate classes :
  screen existing candidate classes = [] <-> forall e, e ∈ added existing candidate -> owner_sourced classes e.
Proof.
  unfold screen. rewrite omap_nil. setoid_rewrite <- entry_reason_None.
  split; intros H e He; specialize (H e He); by destruct (entry_reason classes e).
Qed.

(** A write passes the source check exactly when every entry of the file
    it would leave either has the words of an entry the file already holds
    (moved, re-indented, re-wrapped or repeated), or cites at least one source
    and cites only conversations the owner alone speaks in. *)
Theorem memory_screen_exact existing candidate classes :
  screen existing candidate classes = []
  <-> forall e, e ∈ entries candidate ->
        (exists e', e' ∈ entries existing /\ split_whitespace e' = split_whitespace e)
        \/ (sources e <> [] /\ forall s, s ∈ sources e -> classes !! s = Some SourceOwner).
Proof.
  rewrite screen_nil. apply added_forall. unfold owner_sourced. intros e e' Hw. by rewrite (sources_words e e').
Qed.

(** ** The sources the caller classifies, and the claims it checks *)

Lemma elem_of_push_new out s x : x ∈ push_new out s <-> x ∈ out \/ x = s.
Proof. unfold push_new. case_decide; set_solver. Qed.
Lemma elem_of_push_all ss out x : x ∈ fold_left push_new ss out <-> x ∈ out \/ x ∈ ss.
Proof.
  revert out. induction ss as [|s ss IH]; intros out; cbn [fold_left]; [set_solver|].
  rewrite IH, elem_of_push_new. set_solver.
Qed.
Lemma elem_of_cited existing candidate s :
  s ∈ cited existing candidate <-> exists e, e ∈ added existing candidate /\ s ∈ sources e.
Proof.
  unfold cited. assert (Hg : forall es out,
    s ∈ fold_left (fun out e => fold_left push_new (sources e) out) es out
    <-> s ∈ out \/ exists e, e ∈ es /\ s ∈ sources e).
  { induction es as [|e es IH]; intros out; cbn [fold_left]; [set_solver|].
    rewrite IH, elem_of_push_all. set_solver. }
  rewrite Hg. set_solver.
Qed.

Lemma claims_of existing candidate e :
  e ∈ added existing candidate -> sources e <> [] ->
  {| claim_entry := e; claim_sources := sources e |} ∈ claims existing candidate.
Proof.
  intros He Hs. unfold claims. apply list_elem_of_omap. exists e. split; [done|].
  by destruct (sources e).
Qed.

Definition check_passes (c : ClaimCheck) : Prop := c = CheckSupported \/ exists r, c = CheckSkipped r.
Lemma check_reason_None c : check_reason c = None <-> check_passes c.
Proof. unfold check_passes. destruct c; naive_solver. Qed.

Lemma hold_unsupported_nil cs checks :
  length checks = length cs ->
  hold_unsupported cs checks = [] <-> forall i c, checks !! i = Some c -> check_passes c.
Proof.
  intros Hl. unfold hold_unsupported. rewrite omap_nil. split.
  - intros H i c Hc. apply check_reason_None. destruct (lookup_lt_is_Some_2 cs i) as [cl Hcl].
    { rewrite <- Hl. by eapply lookup_lt_Some. }
    destruct (check_reason c) eqn:E; [|done]. enough (Hin : (cl, c) ∈ zip cs checks).
    { specialize (H _ Hin). cbn in H. by rewrite E in H. }
    apply list_elem_of_lookup. exists i. by rewrite lookup_zip_with, Hcl; cbn; rewrite Hc.
  - intros H [cl c] (i & Hi)%list_elem_of_lookup. rewrite lookup_zip_with in Hi.
    destruct (cs !! i); [|done]. cbn in Hi. destruct (checks !! i) eqn:Hc; [|done]. simplify_eq/=.
    by rewrite (proj2 (check_reason_None c) (H _ _ Hc)).
Qed.

(** ** The reviewer's answer *)

Lemma review_line_length count checks l : length (review_line count checks l) = length checks.
Proof. unfold review_line. repeat case_match; rewrite ?length_insert; done. Qed.
Lemma fold_review_length count ls checks : length (fold_left (review_line count) ls checks) = length checks.
Proof. revert checks. induction ls as [|l ls IH]; intros; cbn; [done|]. by rewrite IH, review_line_length. Qed.
Lemma parse_review_length answer count : length (parse_review answer count) = count.
Proof. unfold parse_review. rewrite fold_review_length. apply length_replicate. Qed.

(** Line [l] of [answer] gives claim [i] the finding [c]. *)
Definition answers (answer : string) (count i : nat) (c : ClaimCheck) : Prop :=
  exists pre l post, lines answer = pre ++ l :: post
    /\ says count (fold_left (review_line count) pre (no_findings count)) l = Some (i, c).

Lemma parse_review_lookup answer count i c :
  parse_review answer count !! i = Some c ->
  c = CheckUnchecked "the reviewer gave no finding" \/ answers answer count i c.
Proof.
  unfold parse_review, answers. induction (lines answer) as [|l ls IH] using rev_ind.
  - cbn. unfold no_findings. rewrite lookup_replicate. naive_solver.
  - rewrite fold_left_app. cbn [fold_left]. unfold review_line at 1.
    destruct (says _ _ l) as [[j c']|] eqn:Hs.
    + rewrite list_lookup_insert_Some. intros [(-> & -> & _) | [Hne H]].
      * right. by exists ls, l, [].
      * apply IH in H as [->|(pre & m & post & -> & Hm)]; [by left|right].
        exists pre, m, (post ++ [l]). by rewrite <- app_assoc.
    + intros H. apply IH in H as [->|(pre & m & post & -> & Hm)]; [by left|right].
      exists pre, m, (post ++ [l]). by rewrite <- app_assoc.
Qed.

Lemma finding_never_skips rest c : finding rest = Some c -> c = CheckSupported \/ exists r, c = CheckUnsupported r.
Proof. unfold finding. repeat case_match; naive_solver. Qed.
Lemma says_passes count checks l i c :
  says count checks l = Some (i, c) -> check_passes c -> c = CheckSupported.
Proof.
  unfold says. intros H Hp. repeat case_match; try done. destruct (finding _) eqn:Hf; simplify_eq/=.
  apply finding_never_skips in Hf as [|[r ->]]; [done|]. by destruct Hp as [|[]].
Qed.
Lemma parse_review_supported answer count i c :
  parse_review answer count !! i = Some c -> check_passes c -> answers answer count i CheckSupported.
Proof.
  intros [->|(pre & l & post & ? & Hs)]%parse_review_lookup Hp; [by destruct Hp as [|[]]|].
  rewrite (says_passes _ _ _ _ _ Hs Hp) in Hs. by exists pre, l, post.
Qed.

(** C36. The review fails closed: when a first answer and the answer to its
    retry, read and merged, leave no claim held, then for every claim one of
    the two answers has a line that says it is supported.  A claim no line
    covers, and any answer that cannot be read, is held. *)
Theorem review_fails_closed (cs : list Claim) answer retry :
  hold_unsupported cs (merge_reviews (parse_review answer (length cs)) (parse_review retry (length cs))) = [] ->
  forall i, i < length cs ->
    answers answer (length cs) i CheckSupported \/ answers retry (length cs) i CheckSupported.
Proof.
  intros H i Hi. rewrite hold_unsupported_nil in H
    by (unfold merge_reviews; rewrite length_zip_with, !parse_review_length; lia).
  destruct (lookup_lt_is_Some_2 (parse_review answer (length cs)) i) as [a Ha]; [by rewrite parse_review_length|].
  destruct (lookup_lt_is_Some_2 (parse_review retry (length cs)) i) as [b Hb]; [by rewrite parse_review_length|].
  specialize (H i (merge_check a b)). unfold merge_reviews in H. rewrite lookup_zip_with, Ha in H. cbn in H.
  rewrite Hb in H. specialize (H eq_refl).
  destruct a; [left|left|right|left]; by eapply parse_review_supported.
Qed.
Lemma review_fails_closed_witness :
  answers ("1: supported" +:+ NL +:+ "Line 2: I am not sure") 2 1 CheckSupported
  \/ answers "- <2>: Supported" 2 1 CheckSupported.
Proof.
  apply (review_fails_closed
           [{| claim_entry := "- tea (source: /a)"; claim_sources := ["/a"] |};
            {| claim_entry := "- dogs (source: /b)"; claim_sources := ["/b"] |}]);
    [vm_compute; reflexivity|cbn; lia].
Defined.

(** ** Edits *)

Lemma replace_from_none p new n m skip s :
  count_from p skip s = 0 -> replace_from p new n skip s = replace_from p new m skip s.
Proof.
  revert n m skip. induction s as [|a s IH]; intros n m skip H; [done|].
  cbn [count_from replace_from] in *. destruct skip as [|k]; [|by apply IH].
  destruct (starts_with p (String a s)); [done|]. cbn [andb]. f_equal. by apply IH.
Qed.
Lemma replace_from_once p new skip s :
  count_from p skip s = 1 -> replace_from p new (Some 1) skip s = replace_from p new None skip s.
Proof.
  revert skip. induction s as [|a s IH]; intros skip H; [done|].
  cbn [count_from replace_from] in *. destruct skip as [|k]; [|by apply IH].
  destruct (starts_with p (String a s)); cbn [andb].
  - rewrite !bool_decide_eq_false_2 by done. cbn [negb option_map pred]. f_equal.
    apply replace_from_none. lia.
  - f_equal. by apply IH.
Qed.

Lemma apply_edit_tool existing old new replace_all :
  apply_edit existing old new replace_all
  = match replace_in_file existing old new replace_all with Ok content => Some content | Err _ => None end.
Proof.
  unfold apply_edit, replace_in_file. destruct old as [|a old]; [by rewrite bool_decide_eq_true_2|].
  rewrite bool_decide_eq_false_2 by done. set (p := String a old). cbn zeta.
  destruct (matches_count p existing) as [|[|n]] eqn:Hc; [done|..]; destruct replace_all; cbn [negb andb Nat.ltb Nat.leb Nat.eqb].
  - unfold replace, replacen. by rewrite (replace_from_once p new 0 existing).
  - done.
  - done.
  - done.
Qed.

(** The screen judges the file the tool will write: [apply_edit] gives
    exactly the content the [Edit] tool would write, and nothing exactly when
    the tool would refuse; and text that occurs exactly once is replaced the
    same way with and without [replace_all]. *)
Theorem apply_edit_mirrors_tool existing old new replace_all :
  apply_edit existing old new replace_all
  = match replace_in_file existing old new replace_all with Ok content => Some content | Err _ => None end
  /\ (matches_count old existing = 1 -> apply_edit existing old new true = apply_edit existing old new false).
Proof.
  split; [apply apply_edit_tool|]. intros H. unfold apply_edit. by destruct old; [|rewrite H].
Qed.

(** ** The scan for sources ends *)

Lemma split_once_shorter c s l r : split_once c s = Some (l, r) -> String.length r < String.length s.
Proof. intros [-> _]%split_once_Some. rewrite length_app_str. cbn. lia. Qed.
Lemma trim_start_from_shorter k s : String.length (trim_start_from k s) <= String.length s.
Proof.
  revert k. induction s as [|a s IH]; intros k; cbn [trim_start_from]; [done|].
  destruct k; [|by rewrite IH; cbn; lia]. destruct (white_prefix (String a s)); [rewrite IH; cbn; lia|done].
Qed.

(** The loop of [sources] without a bound on its rounds: [scan rest out out']
    when the loop entered with [rest] still to read and [out] found ends with
    [out']. *)
Inductive scan : string -> list string -> list string -> Prop :=
| scan_end rest out : split_once "(" rest = None -> scan rest out out
| scan_other rest before inner out out' :
    split_once "(" rest = Some (before, inner) ->
    List.find (fun p => starts_with p (to_ascii_lowercase (trim_start inner))) SOURCE_PREFIXES = None ->
    scan inner out out' -> scan rest out out'
| scan_open rest before inner p out :
    split_once "(" rest = Some (before, inner) ->
    List.find (fun p => starts_with p (to_ascii_lowercase (trim_start inner))) SOURCE_PREFIXES = Some p ->
    split_once ")" (drop_bytes (String.length p) (trim_start inner)) = None -> scan rest out out
| scan_group rest before inner p group after out out' :
    split_once "(" rest = Some (before, inner) ->
    List.find (fun p => starts_with p (to_ascii_lowercase (trim_start inner))) SOURCE_PREFIXES = Some p ->
    split_once ")" (drop_bytes (String.length p) (trim_start inner)) = Some (group, after) ->
    scan after (group_items None out (split_any (fun c => Ascii.eqb c "," || Ascii.eqb c ";") group)) out' ->
    scan rest out out'.

Lemma sources_loop_scan fuel rest out :
  String.length rest < fuel -> scan rest out (sources_loop fuel rest out).
Proof.
  revert rest out. induction fuel as [|fuel IH]; intros rest out Hf; [lia|]. cbn [sources_loop].
  destruct (split_once "(" rest) as [[before inner]|] eqn:Ho; [|by constructor].
  pose proof (split_once_shorter _ _ _ _ Ho).
  destruct (List.find _ SOURCE_PREFIXES) as [p|] eqn:Hp.
  - destruct (split_once ")" _) as [[group after]|] eqn:Hc; [|by eapply scan_open].
    eapply scan_group; [done..|]. apply IH. pose proof (split_once_shorter _ _ _ _ Hc) as Hl.
    rewrite drop_bytes_length in Hl. pose proof (trim_start_from_shorter 0 inner). unfold trim_start in Hl. lia.
  - eapply scan_other; [done..|]. apply IH. lia.
Qed.
Lemma scan_det rest out r1 r2 : scan rest out r1 -> scan rest out r2 -> r1 = r2.
Proof. intros H. revert r2. induction H; inversion 1; simplify_eq; eauto. Qed.

(** Reading an entry's sources always ends, and its result is that of the
    loop however long it runs: the bound on the rounds is never reached. *)
Theorem sources_scan_terminates entry :
  scan (flatten entry) [] (sources entry)
  /\ forall out, scan (flatten entry) [] out -> out = sources entry.
Proof.
  assert (H : scan (flatten entry) [] (sources entry)) by (apply sources_loop_scan; lia).
  split; [done|]. intros out Ho. by eapply scan_det.
Qed.

(** ** Bounds of the excerpts *)

Lemma boundary_before_le s n : boundary_before s n <= n.
Proof. induction n as [|n IH]; cbn [boundary_before]; destruct (is_char_boundary _ _); lia. Qed.
Lemma clip_length s m : String.length (clip s m) <= m.
Proof.
  unfold clip. destruct (Nat.leb_spec (String.length s) m); [done|]. destruct (Nat.ltb_spec m 4); [cbn; lia|].
  rewrite length_app_str. pose proof (take_bytes_length (boundary_before s (m - 3)) s).
  pose proof (boundary_before_le s (m - 3)). change (String.length ELLIPSIS) with 3. lia.
Qed.

Fixpoint spent (l : list (nat * string)) : nat :=
  match l with [] => 0 | x :: l => S (String.length x.2) + spent l end.
Lemma choose_spent max used l : choose max used l = [] \/ used + spent (choose max used l) <= max + 1.
Proof.
  revert used. induction l as [|s l IH]; intros used; [by left|]. cbn [choose].
  destruct (clip _ (max - used)) as [|a t] eqn:Hc; [by left|right].
  pose proof (clip_length (clip (label (passage s) +:+ ": " +:+ passage_text (passage s)) PASSAGE_BYTES) (max - used)) as Hl.
  rewrite Hc in Hl. cbn [spent snd].
  cbn [String.length] in *. destruct (IH (used + S (String.length t) + 1)) as [->|]; [cbn; lia|lia].
Qed.
Lemma insert_place_spent x l : spent (insert_place x l) = S (String.length x.2) + spent l.
Proof. induction l as [|y l IH]; [done|]. cbn [insert_place]. case_match; [done|]. cbn [spent]. lia. Qed.
Lemma sort_place_spent l : spent (foldr insert_place [] l) = spent l.
Proof. induction l as [|x l IH]; [done|]. cbn [foldr]. by rewrite insert_place_spent, IH. Qed.
Lemma join_length l : l <> [] -> S (String.length (join_with NL (map snd l))) = spent l.
Proof.
  induction l as [|x l IH]; [done|]. intros _. destruct (decide (l = [])) as [->|Hl]; [cbn; lia|].
  cbn [map]. rewrite join_cons by (by destruct l). rewrite !length_app_str. cbn [spent]. rewrite <- IH by done. cbn [NL String.length]. lia.
Qed.

(** Whatever is quoted to the reviewer for one source fits its budget:
    the excerpts, separators and ellipses included, are at most [max_bytes]
    bytes. *)
Theorem best_excerpts_bounded is_alphanumeric to_lowercase claim passages max_bytes :
  String.length (best_excerpts is_alphanumeric to_lowercase claim passages max_bytes) <= max_bytes.
Proof.
  unfold best_excerpts. set (l := sort_scored _ _).
  destruct (choose_spent max_bytes 0 l) as [->|Hs]; [cbn; lia|].
  destruct (decide (foldr insert_place [] (choose max_bytes 0 l) = [])) as [->|Hn]; [cbn; lia|].
  pose proof (join_length _ Hn) as Hj. rewrite sort_place_spent in Hj. lia.
Qed.
