(* ===== verification/Dispatch.v ===== *)
(** * Dispatch: what stands between a tool call and its tool

    The gate of [ToolDispatcher::execute_inner]
    (peko-rs/core/src/tools/dispatcher.rs), from the resolution of the tool to
    the point where its body runs: the schema check, the trust floor, the
    workspace written into the parameters, the path floor, the screening of
    hot memory and the policy reviewer with its cache.  The policy gate is an
    interface ([PolicyGate], the trait of security/judge.rs); the catalog, the
    JSON schema checker, the hash and the file system are parameters. *)

From Stdlib Require Import ZArith Lia Ascii.
From stdpp Require Import base tactics list gmap strings pretty.
From S2P Require Import Prelude Text Host ActingFor Floor MemoryGate Proposals.

Open Scope Z_scope.

(** ** Calls and verdicts *)

Inductive ToolSource := BuiltIn | Mcp (server : string) (untrusted_ok : bool).
Record ToolMetadata := { source : ToolSource; parameters : Json }.

(** The tools one principal can reach by name. *)
Definition Catalog : Type := string -> string -> option ToolMetadata.

Record ToolCallSpec := {
  tool_name : string;
  params : Json;
  workspace : option string;
  agent_id : option string;
  session_id : option string;
  acting_for : option ActingFor;
  principal_id : option string;
  principal_name : option string;
  (** [None]: no binding; [Some None]: a binding that is no catalog. *)
  catalog_binding : option (option Catalog);
  (** The body of a background task. *)
  background_progress : bool;
}.

Inductive Outcome :=
  | OutcomeOk | OutcomeError | Cancelled | FloorDenied | PolicyDenied | AwaitingOwner | Proposed | OutcomeDetached.
#[export] Instance Outcome_eq_dec : EqDecision Outcome.
Proof. solve_decision. Defined.

Record Dispatched := { text : string; json : Json; success : bool; outcome : Outcome }.
Definition refused (t : string) (o : Outcome) : Dispatched :=
  {| text := t; json := JString t; success := false; outcome := o |}.

Record GatedCall := {
  gc_principal_id : string;
  gc_principal_name : option string;
  gc_session_id : option string;
  gc_agent_id : option string;
  gc_workspace : option string;
  gc_stamp : ActingFor;
  gc_tool_name : string;
  gc_params : Json;
  gc_call_id : option string;
}.

Inductive Verdict := VerdictAllow | VerdictDeny (reason : string) | VerdictAskOwner (reason : string).

(** The trait [PolicyGate] (security/judge.rs) over the gate's own state. *)
Record PolicyGate (G : Type) := {
  gate_review : GatedCall -> G -> Verdict * G;
  gate_ask_owner : GatedCall -> string -> G -> result string string * G;
  gate_is_approved_replay : GatedCall -> G -> bool;
  gate_source_class : string -> string -> G -> SourceClass;
  gate_check_claims : string -> list Claim -> G -> list ClaimCheck * G;
}.
Arguments gate_review {_}.
Arguments gate_ask_owner {_}.
Arguments gate_is_approved_replay {_}.
Arguments gate_source_class {_}.
Arguments gate_check_claims {_}.

(** ** Parameters on their way to the tool *)

Definition SYSTEM_PRINCIPAL : string := "__system__".
Definition WORKFLOW_TOOL_NAME : string := "Workflow".

Definition non_empty (o : option string) : option string :=
  match o with Some EmptyString => None | _ => o end.
Definition is_one_of (names : list string) (s : string) : bool := contains names s.

(** [EditTool::resolve_path] (tools/builtin/fs/edit.rs), with the directory
    the tool was built with; [Read], [Write] and [Grep] have the same text. *)
Definition resolve_path (home tool_dir : option string) (path : string) : string :=
  let expanded := expand_tilde_text home path in
  if is_absolute expanded then expanded
  else match tool_dir with Some dir => push_text dir expanded | None => expanded end.

(** Where [GrepTool::grep] searches (tools/builtin/fs/grep.rs): the file, or
    everything below the directory. *)
Definition grep_search_path (home tool_dir path : option string) : string :=
  match path with
  | Some p => resolve_path home tool_dir p
  | None => default "." tool_dir
  end.
(** [GlobTool::resolve_directory] (tools/builtin/fs/glob.rs). *)
Definition resolve_directory (home tool_dir path : option string) : string :=
  match path with
  | Some dir =>
      let path := expand_tilde_text home dir in
      if is_absolute path then path
      else match tool_dir with Some workspace => push_text workspace path | None => path end
  | None => default "." tool_dir
  end.

(** [trim_end_matches(['/', '\\'])]. *)
Definition is_slash (c : ascii) : bool := Ascii.eqb c "/" || Ascii.eqb c "092".
Fixpoint trim_end_slashes (s : string) : string :=
  match s with
  | EmptyString => EmptyString
  | String c rest => if all_bytes is_slash s then EmptyString else String c (trim_end_slashes rest)
  end.
(** The directory [GlobTool::glob] opens, from the base directory and the
    pattern. *)
Definition glob_search_root (base_dir pattern : string) : string :=
  match split_at_str "**" pattern with
  | Some (before, _) =>
      let prefix := trim_end_slashes before in
      if String.eqb prefix "" then base_dir else push_text base_dir prefix
  | None =>
      push_text base_dir (match parent (components pattern) with
                          | Some ((_ :: _) as p) => display p
                          | _ => "."
                          end)
  end.

Definition map_object (f : list (string * Json) -> list (string * Json)) (v : Json) : Json :=
  match v with JObject fields => JObject (f fields) | other => other end.

Definition inject_default (key ws : string) (fields : list (string * Json)) : list (string * Json) :=
  if contains_key key fields then fields else insert_field key (JString ws) fields.

Definition apply_workspace_injection (home : option string) (params : Json) (tool_name : string)
    (workspace : option string) : Json :=
  map_object (fun obj =>
    match non_empty workspace with
    | None => obj
    | Some ws =>
        if is_one_of ["Glob"; "Grep"] tool_name then inject_default "path" ws obj
        else if String.eqb tool_name "Bash" then inject_default "cwd" ws obj
        else if is_one_of ["Write"; "Edit"; "Read"] tool_name then
          match as_str (field "file_path" obj) with
          | Some path_str =>
              let expanded := expand_tilde_text home path_str in
              let resolved := if is_absolute expanded then expanded else push_text ws path_str in
              insert_field "file_path" (JString resolved) obj
          | None => obj
          end
        else obj
    end) params.

(** The parameter that names a file tool's place. *)
Definition path_key (tool_name : string) : option string :=
  if is_one_of ["Read"; "Write"; "Edit"] tool_name then Some "file_path"
  else if is_one_of ["Glob"; "Grep"] tool_name then Some "path"
  else None.

Definition confine_relative_paths (home : option string) (params : Json) (tool_name : string)
    (workspace : option string) : Json :=
  map_object (fun obj =>
    match workspace, path_key tool_name with
    | Some ws, Some key =>
        match as_str (field key obj) with
        | Some raw =>
            let path := expand_tilde_text home raw in
            if is_absolute path then obj else insert_field key (JString (push_text ws path)) obj
        | None =>
            if String.eqb key "path" then insert_field key (JString ws) obj else obj
        end
    | _, _ => obj
    end) params.

(** ** The dispatcher *)

(** [Duration::from_mins(10)], in milliseconds. *)
Definition REVIEW_CACHE_TTL : Z := 600000.
Definition fresh_at (now : Z) (entry : string * (Z * Verdict)) : Prop :=
  now - entry.2.1 < REVIEW_CACHE_TTL.
#[export] Instance fresh_at_dec now entry : Decision (fresh_at now entry).
Proof. unfold fresh_at. apply _. Defined.

Section Dispatcher.
Context {G : Type} `{F : FileSystem}.
(** [validate_tool_args] on the [jsonschema] crate; [Value]'s text; SHA-256 in
    hexadecimal; serde's text of an origin; the user's home and the runtime's
    data directory. *)
Context (validate_tool_args : Json -> Json -> string -> result unit string)
        (json_text : Json -> string) (sha256_hex : string -> string)
        (origin_json : Origin -> string) (home : option string) (data_dir : string).

Record Dispatcher := {
  catalog : Catalog;
  principal_workspaces : gmap string string;
  policy_gate : option (PolicyGate G);
}.

(** What calls change: the gate's state, the review cache, the inboxes and
    the denials sent to the security audit. *)
Record World := {
  gate_state : G;
  review_cache : gmap string (Z * Verdict);
  files : Files;
  denials : list (ActingFor * string);
}.
Definition set_gate (w : World) (g : G) : World :=
  {| gate_state := g; review_cache := review_cache w; files := files w; denials := denials w |}.
Definition set_cache (w : World) (c : gmap string (Z * Verdict)) : World :=
  {| gate_state := gate_state w; review_cache := c; files := files w; denials := denials w |}.
Definition set_files (w : World) (f : Files) : World :=
  {| gate_state := gate_state w; review_cache := review_cache w; files := f; denials := denials w |}.
Definition emit_floor_denial (w : World) (stamp : ActingFor) (reason : string) : World :=
  {| gate_state := gate_state w; review_cache := review_cache w; files := files w;
     denials := denials w ++ [(stamp, reason)] |}.

(** The clock during a call, in milliseconds: when the cache is read and when
    the reviewer has answered; and what a filing meets. *)
Record Moment := { at_read : Z; at_answer : Z; filing : Filing }.

(** [GatedCall::digest]. *)
Definition digest (c : GatedCall) : string :=
  sha256_hex (gc_tool_name c +:+ NL +:+ json_text (gc_params c)).
Definition cache_key (c : GatedCall) : string := actor (gc_stamp c) +:+ "|" +:+ digest c.

Definition asks_owner (v : Verdict) : bool := match v with VerdictAskOwner _ => true | _ => false end.

Definition review (d : Dispatcher) (m : Moment) (c : GatedCall) (w : World) : Verdict * World :=
  match policy_gate d with
  | None => (VerdictDeny "no policy reviewer is configured on this runtime", w)
  | Some gate =>
      if gate_is_approved_replay gate c (gate_state w) then (VerdictAllow, w)
      else
        let key := cache_key c in
        let w := set_cache w (filter (fresh_at (at_read m)) (review_cache w)) in
        match review_cache w !! key with
        | Some (_, verdict) => (verdict, w)
        | None =>
            let '(verdict, g) := gate_review gate c (gate_state w) in
            let w := set_gate w g in
            (verdict, if asks_owner verdict then w
                      else set_cache w (<[key := (at_answer m, verdict)]> (review_cache w)))
        end
  end.

(** ** Hot memory *)

Inductive MemoryScreen := ScreenPass | ScreenDone (d : Dispatched).

Definition hot_file (workspace target : Path) : option string :=
  match protected_relative workspace target with
  | Some relative => List.find (fun f => String.eqb f relative) SOURCED_HOT_FILES
  | None => None
  end.

(** The file as the call would leave it. *)
Definition candidate_of (existing tool_name : string) (params : Json) : option string :=
  if String.eqb tool_name "Write" then as_str (index params "content")
  else if String.eqb tool_name "Edit" then
    match as_str (index params "new_string") with
    | None => None
    | Some new =>
        Some (default new
                (apply_edit existing (default EmptyString (as_str (index params "old_string"))) new
                            (default false (as_bool (index params "replace_all")))))
    end
  else None.

Definition classify (d : Dispatcher) (principal : string) (g : G) (sources : list string)
  : gmap string SourceClass :=
  fold_left (fun classes s =>
    <[s := match policy_gate d with
           | Some gate => gate_source_class gate principal s g
           | None => SourceUnknown
           end]> classes) sources ∅.

Definition held_note (hot tool_name : string) (held : list Held) (filed : list string) : string :=
  let reasons := foldr (fun h acc => NL +:+ "- " +:+ flatten (held_entry h) +:+ " " +:+ EM_DASH +:+ " " +:+ describe h +:+ acc)
                       EmptyString held in
  let elsewhere :=
    if String.eqb hot HOT_MEMORY then "Keep facts about other people in `kb/people/` notes instead."
    else "Keep lessons from conversations with others in `kb/dreams/` instead." in
  "Nothing was written to `" +:+ hot +:+ "`: " +:+ pretty (N.of_nat (length held)) +:+ " entr"
  +:+ (if (length held =? 1)%nat then "y" else "ies") +:+ " in this " +:+ tool_name
  +:+ " could not be added, so the whole " +:+ tool_name +:+ " was filed for the owner ("
  +:+ join_with ", " filed +:+ ") and the file is unchanged. A scheduled run adds an entry there only when the entry cites `(source: "
  +:+ ELLIPSIS +:+ ")` naming sessions or channels that only the owner speaks in and, while others are talking to this principal, a reviewer finds it supported by them. To apply the rest, repeat the change without these entries, leaving any existing entry they would replace as it is. "
  +:+ elsewhere +:+ reasons.

Definition screen_hot_memory (d : Dispatcher) (m : Moment) (principal : string) (workspace : string) (target : Path)
    (stamp : ActingFor) (tool_name : string) (params : Json) (w : World) : MemoryScreen * World :=
  let ws := resolve (components workspace) in
  let target := resolve target in
  match hot_file ws target with
  | None => (ScreenPass, w)
  | Some hot =>
      let existing := default EmptyString (read target) in
      match candidate_of existing tool_name params with
      | None => (ScreenPass, w)
      | Some candidate =>
          let classes := classify d principal (gate_state w) (cited existing candidate) in
          let held := screen existing candidate classes in
          let '(held, w) :=
            match held, claims existing candidate with
            | [], ((_ :: _) as cs) =>
                match policy_gate d with
                | Some gate =>
                    let '(checks, g) := gate_check_claims gate principal cs (gate_state w) in
                    (hold_unsupported cs checks, set_gate w g)
                | None =>
                    (hold_unsupported cs (map (fun _ => CheckUnchecked "no reviewer is configured") cs), w)
                end
            | _, _ => (held, w)
            end in
          match held with
          | [] => (ScreenPass, w)
          | _ =>
              let '(filed, fs) := file_held origin_json (filing m) (files w) (display ws) stamp hot held in
              let w := set_files w fs in
              match filed with
              | Err e => (ScreenDone (refused ("Error: could not file the held-back entries: " +:+ e) OutcomeError), w)
              | Ok paths =>
                  let note := held_note hot tool_name held paths in
                  (ScreenDone {| text := note;
                                 json := JObject [("message", JString note);
                                                  ("proposals", JArray (map JString paths));
                                                  ("proposed", JBool true); ("target", JString hot)];
                                 success := true; outcome := Proposed |}, w)
              end
          end
      end
  end.

(** ** The gate *)

Definition is_builtin (meta : ToolMetadata) : bool := match source meta with BuiltIn => true | Mcp _ _ => false end.
Definition mcp_untrusted_ok (meta : ToolMetadata) : option bool :=
  match source meta with Mcp _ ok => Some ok | BuiltIn => None end.

Definition caller_principal (call : ToolCallSpec) : option string := non_empty (principal_id call).
Definition dispatch_principal (call : ToolCallSpec) : string := default SYSTEM_PRINCIPAL (caller_principal call).
Definition stamp_of (call : ToolCallSpec) : ActingFor := default unattributed (acting_for call).

Definition resolve_tool (d : Dispatcher) (call : ToolCallSpec) : option ToolMetadata :=
  match catalog_binding call with
  | Some (Some bound) => bound (tool_name call) (dispatch_principal call)
  | Some None => None
  | None => catalog d (tool_name call) (dispatch_principal call)
  end.

(** The workflow depth is the runtime's, not part of the schema. *)
Definition public_params (meta : ToolMetadata) (call : ToolCallSpec) : Json :=
  if is_builtin meta && String.eqb (tool_name call) WORKFLOW_TOOL_NAME
  then map_object (remove_field "_workflow_depth") (params call)
  else params call.

Definition principal_workspace (d : Dispatcher) (call : ToolCallSpec) : option string :=
  match caller_principal call with
  | Some id => principal_workspaces d !! id
  | None => None
  end.
Definition call_workspace (d : Dispatcher) (call : ToolCallSpec) : option string :=
  or_else (non_empty (workspace call)) (principal_workspace d call).

(** The parameters the tool will run with. *)
Definition tool_params (d : Dispatcher) (call : ToolCallSpec) : Json :=
  let injected := apply_workspace_injection home (params call) (tool_name call) (call_workspace d call) in
  if is_owner (stamp_of call) then injected
  else confine_relative_paths home injected (tool_name call) (principal_workspace d call).

Definition GLOB_REFUSAL : string :=
  "Glob patterns may not leave their base path while acting for someone other than the owner".

Definition denied (w : World) (stamp : ActingFor) (reason shown : string) (o : Outcome) : option Dispatched * World :=
  (Some (refused ("Error: " +:+ shown) o), emit_floor_denial w stamp reason).

(** The path floor and, behind it, the memory screen: a result that ends the
    call, or none. *)
Definition path_gate (d : Dispatcher) (m : Moment) (call : ToolCallSpec) (p : Json) (w : World)
  : option Dispatched * World :=
  let stamp := stamp_of call in
  let tool := tool_name call in
  let ws := principal_workspace d call in
  let ws_path := components <$> ws in
  match file_tool_target home tool p with
  | None => (None, w)
  | Some (target, write) =>
      if negb (is_owner stamp) && String.eqb tool "Glob"
         && match as_str (index p "pattern") with Some pat => glob_pattern_escapes pat | None => false end
      then denied w stamp GLOB_REFUSAL GLOB_REFUSAL FloorDenied
      else
        match (if is_one_of ["Glob"; "Grep"] tool
               then search_root_refusal stamp ws_path (Some (components data_dir)) target else None) with
        | Some reason => denied w stamp reason reason FloorDenied
        | None =>
            match check_path stamp ws_path target write with
            | Deny reason => denied w stamp reason reason FloorDenied
            | Propose relative =>
                let '(filed, fs) :=
                  file origin_json (filing m) (files w) (default EmptyString ws) stamp relative tool p in
                let w := set_files w fs in
                (Some match filed with
                      | Ok path =>
                          let t := "`" +:+ relative +:+ "` is protected: only the owner writes it. Your change was filed for the owner's review at "
                                   +:+ path +:+ "; it is not applied." in
                          {| text := t;
                             json := JObject [("message", JString t); ("proposal", JString path);
                                              ("proposed", JBool true); ("target", JString relative)];
                             success := true; outcome := Proposed |}
                      | Err e => refused ("Error: could not file the proposal: " +:+ e) OutcomeError
                      end, w)
            | Allow =>
                match ws with
                | Some ws =>
                    if write && is_screened stamp then
                      match screen_hot_memory d m (dispatch_principal call) ws target stamp tool p w with
                      | (ScreenPass, w) => (None, w)
                      | (ScreenDone r, w) => (Some r, w)
                      end
                    else (None, w)
                | None => (None, w)
                end
            end
        end
  end.

Definition gated_call (call : ToolCallSpec) (call_id : string) (p : Json) : GatedCall :=
  {| gc_principal_id := dispatch_principal call; gc_principal_name := principal_name call;
     gc_session_id := session_id call; gc_agent_id := agent_id call; gc_workspace := workspace call;
     gc_stamp := stamp_of call; gc_tool_name := tool_name call; gc_params := p; gc_call_id := Some call_id |}.

(** The verdict on a call that needs one. *)
Definition verdict_of (d : Dispatcher) (m : Moment) (call : ToolCallSpec) (g : GatedCall) (p : Json) (w : World)
  : option Verdict * World :=
  match owner_decides (stamp_of call) (tool_name call) p with
  | Some reason =>
      (Some match policy_gate d with
            | Some gate => if gate_is_approved_replay gate g (gate_state w) then VerdictAllow else VerdictAskOwner reason
            | None => VerdictAskOwner reason
            end, w)
  | None =>
      if needs_review (stamp_of call) (tool_name call) p
      then let '(v, w) := review d m g w in (Some v, w)
      else (None, w)
  end.

Definition policy_gate_of (d : Dispatcher) (m : Moment) (call : ToolCallSpec) (call_id : string) (p : Json) (w : World)
  : option Dispatched * World :=
  let g := gated_call call call_id p in
  match verdict_of d m call g p w with
  | (None, w) | (Some VerdictAllow, w) => (None, w)
  | (Some (VerdictDeny reason), w) =>
      let reason := "not allowed by the owner's policy: " +:+ reason in
      denied w (stamp_of call) reason reason PolicyDenied
  | (Some (VerdictAskOwner reason), w) =>
      let '(filed, w) :=
        match policy_gate d with
        | Some gate => let '(r, gs) := gate_ask_owner gate g reason (gate_state w) in (r, set_gate w gs)
        | None => (Err "no policy reviewer is configured", w)
        end in
      (Some match filed with
            | Ok id =>
                let t := "Waiting for the owner's approval (" +:+ id +:+ "): " +:+ reason
                         +:+ ". Nothing was done yet. If the owner approves, the result arrives in this conversation as a completed task." in
                {| text := t;
                   json := JObject [("message", JString t); ("pending_approval", JString id); ("reason", JString reason)];
                   success := false; outcome := AwaitingOwner |}
            | Err e =>
                let t := "Error: the owner must approve this, but asking failed: " +:+ e in
                {| text := t; json := JString t; success := false; outcome := OutcomeError |}
            end, w)
  end.

(** Either the call's result without its tool, or the parameters its tool
    runs with. *)
Definition decide_call (d : Dispatcher) (m : Moment) (call : ToolCallSpec) (call_id : string) (w : World)
  : (Dispatched + Json) * World :=
  match resolve_tool d call with
  | None => (inl (refused ("Tool '" +:+ tool_name call +:+ "' not available") OutcomeError), w)
  | Some meta =>
      match validate_tool_args (parameters meta) (public_params meta call) (tool_name call) with
      | Err msg => (inl (refused ("Error: " +:+ msg) OutcomeError), w)
      | Ok _ =>
          let stamp := stamp_of call in
          match or_else (tool_refusal stamp (tool_name call) (mcp_untrusted_ok meta))
                        (action_refusal stamp (tool_name call) (params call)) with
          | Some reason => (inl (refused ("Error: " +:+ reason) FloorDenied), emit_floor_denial w stamp reason)
          | None =>
              let p := tool_params d call in
              match path_gate d m call p w with
              | (Some r, w) => (inl r, w)
              | (None, w) =>
                  match policy_gate_of d m call call_id p w with
                  | (Some r, w) => (inl r, w)
                  | (None, w) => (inr p, w)
                  end
              end
          end
      end
  end.

(** ** What a call that reaches its tool has passed *)

Implicit Types (d : Dispatcher) (m : Moment) (call : ToolCallSpec) (w : World).

Lemma decide_call_runs d m call call_id w p w' :
  decide_call d m call call_id w = (inr p, w') ->
  p = tool_params d call
  /\ (exists meta, resolve_tool d call = Some meta
        /\ tool_refusal (stamp_of call) (tool_name call) (mcp_untrusted_ok meta) = None)
  /\ action_refusal (stamp_of call) (tool_name call) (params call) = None
  /\ exists w1, path_gate d m call p w = (None, w1) /\ policy_gate_of d m call call_id p w1 = (None, w').
Proof.
  unfold decide_call. intros H. destruct (resolve_tool d call) as [meta|]; [|done].
  destruct (validate_tool_args _ _ _); [|done].
  destruct (or_else _ _) eqn:Hr; [done|]. apply or_else_None in Hr as [Ht Ha].
  destruct (path_gate _ _ _ _ _) as [[r|] w1] eqn:Hp; [done|].
  destruct (policy_gate_of _ _ _ _ _ _) as [[r|] w2] eqn:Hq; simplify_eq. eauto 10.
Qed.

(** The path gate lets a file call through only within the floor. *)
Lemma path_gate_passes d m call p w w1 target write :
  path_gate d m call p w = (None, w1) ->
  file_tool_target home (tool_name call) p = Some (target, write) ->
  check_path (stamp_of call) (components <$> principal_workspace d call) target write = Allow
  /\ (is_one_of ["Glob"; "Grep"] (tool_name call) = true ->
      search_root_refusal (stamp_of call) (components <$> principal_workspace d call) (Some (components data_dir)) target = None)
  /\ (is_owner (stamp_of call) = false -> tool_name call = "Glob" ->
      forall pat, as_str (index p "pattern") = Some pat -> glob_pattern_escapes pat = false)
  /\ (write && is_screened (stamp_of call) = true -> forall ws, principal_workspace d call = Some ws ->
      screen_hot_memory d m (dispatch_principal call) ws target (stamp_of call) (tool_name call) p w = (ScreenPass, w1)).
Proof.
  unfold path_gate. intros H Ht. rewrite Ht in H.
  destruct (negb _ && _ && _) eqn:Hg; [done|].
  destruct (if is_one_of _ _ then _ else None) eqn:Hs; [done|].
  destruct (check_path _ _ _ _) eqn:Hc; [|by destruct (file _ _ _ _ _ _ _ _)|done].
  split_and!; [done|by intros Hi; rewrite Hi in Hs|..].
  - intros Ho Hn pat Hp. rewrite Ho, Hn, Hp in Hg. cbn in Hg. done.
  - intros Hw ws Hws. rewrite Hws, Hw in H. destruct (screen_hot_memory _ _ _ _ _ _ _ _ _) as [[|r] w2]; by simplify_eq.
Qed.

(** ** The path checked is the path opened *)

Lemma index_map_object f v key :
  index (map_object f v) key = match v with JObject fields => field key (f fields) | _ => JNull end.
Proof. by destruct v. Qed.

Lemma expand_tilde_absolute h s : is_absolute s = true -> expand_tilde_text h s = s.
Proof.
  unfold is_absolute, expand_tilde_text, starts_with. destruct s as [|c s]; [done|]. cbn [strip_prefix].
  case_decide as Hc; [|done]. subst. by destruct s.
Qed.
Lemma resolve_path_absolute h dir s :
  is_absolute (expand_tilde_text h s) = true -> resolve_path h dir s = expand_tilde_text h s.
Proof. unfold resolve_path. by intros ->. Qed.

Lemma confine_absolute (params : Json) tool ws key text :
  is_absolute ws = true -> path_key tool = Some key ->
  as_str (index (confine_relative_paths home params tool (Some ws)) key) = Some text ->
  is_absolute (expand_tilde_text home text) = true.
Proof.
  intros Hws Hk. unfold confine_relative_paths. rewrite index_map_object. rewrite Hk.
  destruct params as [| | | | |fields]; try done.
  destruct (as_str (field key fields)) as [raw|] eqn:Hr.
  - destruct (is_absolute (expand_tilde_text home raw)) eqn:Ha; [rewrite Hr; by intros [= <-]|].
    rewrite field_insert_same. intros [= <-].
    rewrite expand_tilde_absolute by (by apply push_text_absolute). by apply push_text_absolute.
  - destruct (String.eqb key "path"); [|by rewrite Hr].
    rewrite field_insert_same. intros [= <-]. by rewrite expand_tilde_absolute.
Qed.

Lemma file_tool_target_of tool (p : Json) target write :
  file_tool_target home tool p = Some (target, write) <->
  exists key text, path_key tool = Some key /\ as_str (index p key) = Some text
    /\ target = components (expand_tilde_text home text) /\ write = is_one_of ["Write"; "Edit"] tool.
Proof.
  unfold file_tool_target, path_key, is_one_of, contains, expand_tilde. cbn [existsb].
  split.
  - intros H. destruct (String.eqb tool "Read") eqn:E1; cbn [orb] in *;
      [apply String.eqb_eq in E1 as ->; exists "file_path"; destruct (as_str _); simplify_eq/=; eauto|].
    destruct (String.eqb tool "Write") eqn:E2; cbn [orb] in *;
      [exists "file_path"; destruct (as_str _); simplify_eq/=; eauto 8|].
    destruct (String.eqb tool "Edit") eqn:E3; cbn [orb] in *;
      [exists "file_path"; destruct (as_str _); simplify_eq/=; eauto 8|].
    destruct (String.eqb tool "Glob") eqn:E4; cbn [orb] in *;
      [exists "path"; destruct (as_str _); simplify_eq/=; eauto 8|].
    destruct (String.eqb tool "Grep") eqn:E5; cbn [orb] in *; [|done].
    exists "path"; destruct (as_str _); simplify_eq/=; eauto 8.
  - intros (key & text & Hk & Ht & -> & ->).
    destruct (String.eqb tool "Read") eqn:E1; cbn [orb] in *;
      [apply String.eqb_eq in E1 as ->; simplify_eq; by rewrite Ht|].
    destruct (String.eqb tool "Write") eqn:E2; cbn [orb] in *; [simplify_eq; by rewrite Ht|].
    destruct (String.eqb tool "Edit") eqn:E3; cbn [orb] in *; [simplify_eq; by rewrite Ht|].
    destruct (String.eqb tool "Glob") eqn:E4; cbn [orb] in *; [simplify_eq; by rewrite Ht|].
    destruct (String.eqb tool "Grep") eqn:E5; cbn [orb] in *; [simplify_eq; by rewrite Ht|done].
Qed.

(** What the floor leaves of a directory a search starts from, in the text the
    tool opens: an absolute place within the floor that holds neither the home
    of the pekos nor the data directory. *)
Definition search_base_ok (stamp : ActingFor) (root : Path) (text : string) : Prop :=
  let start := resolve (components text) in
  is_absolute text = true /\ within_floor stamp (Some root) start false
  /\ (forall peko_dir, peko_home root = Some peko_dir -> ~ start `prefix_of` peko_dir)
  /\ ~ start `prefix_of` resolve (components data_dir).

Lemma search_root_refusal_None stamp ws data root :
  trust stamp <> Owner -> search_root_refusal stamp (Some ws) (Some data) root = None ->
  (forall h, peko_home (resolve ws) = Some h -> ~ resolve root `prefix_of` h) /\ ~ resolve root `prefix_of` resolve data.
Proof.
  intros Hn%not_owner. unfold search_root_refusal. cbn [fmap option_fmap option_map mbind option_bind].
  destruct (search_reaches_people _ _); [done|]. rewrite Hn.
  destruct (_ || _) eqn:Ho; [done|]. intros _. apply orb_false_iff in Ho as [Hh Hd]. split.
  - intros h Hp Hpre. cbn in Hh. rewrite Hp in Hh. apply path_starts_with_prefix in Hpre. by rewrite Hpre in Hh.
  - intros Hpre. apply path_starts_with_prefix in Hpre. by rewrite Hpre in Hd.
Qed.

(** C1. A file tool run for anyone but the owner, with a workspace bound, whose
    call reaches its tool.  [Read], [Write] and [Edit] open one file, named
    absolutely whatever directory the tool was built with, and that file, links
    resolved, is within the floor: no conversation between people, no other
    peko's workspace, none of the runtime's state around that workspace, inside
    the workspace when the run is untrusted, and for a write no tool ledger, no
    proposal inbox and no protected file.  For [Grep] and [Glob] this bounds the
    directory their [path] names, which moreover holds neither the home of the
    pekos nor the data directory; what a search then reads below it, or a
    [Glob] pattern's own directory part, is not bounded (see
    [search_reaches_runtime_state] and [glob_pattern_climbs]). *)
Theorem dispatched_files_within_floor d m call call_id w p w' ws key path tool_dir :
  decide_call d m call call_id w = (inr p, w') ->
  trust (stamp_of call) <> Owner ->
  principal_workspace d call = Some ws -> is_absolute ws = true ->
  path_key (tool_name call) = Some key -> as_str (index p key) = Some path ->
  let root := resolve (components ws) in
  (is_one_of ["Read"; "Write"; "Edit"] (tool_name call) = true ->
     let text := resolve_path home tool_dir path in
     let opened := resolve (components text) in
     let write := is_one_of ["Write"; "Edit"] (tool_name call) in
     is_absolute text = true
     /\ within_floor (stamp_of call) (Some root) opened write
     /\ (write = true -> ~ inbox_path root opened /\ ~ protected_path root opened))
  /\ (tool_name call = "Grep" ->
       search_base_ok (stamp_of call) root (grep_search_path home tool_dir (Some path)))
  /\ (tool_name call = "Glob" ->
       search_base_ok (stamp_of call) root (resolve_directory home tool_dir (Some path))).
Proof.
  intros H Hn Hws Habs Hk Hp. cbn zeta.
  apply decide_call_runs in H as (-> & _ & _ & w1 & Hpath & _).
  assert (Ha : is_absolute (expand_tilde_text home path) = true).
  { unfold tool_params in Hp. rewrite (proj2 (not_owner _) Hn), Hws in Hp. by eapply confine_absolute. }
  eapply path_gate_passes in Hpath as (Hc & Hs & _); [|by apply file_tool_target_of; eauto 8].
  rewrite Hws in Hc, Hs. apply check_path_Allow in Hc as [Hf Hwr]. cbn [fmap option_fmap option_map] in Hf, Hwr, Hs.
  unfold grep_search_path, resolve_directory. rewrite resolve_path_absolute, Ha by done.
  assert (Hsearch : is_one_of ["Glob"; "Grep"] (tool_name call) = true -> is_one_of ["Write"; "Edit"] (tool_name call) = false ->
    search_base_ok (stamp_of call) (resolve (components ws)) (expand_tilde_text home path)).
  { intros Hi Hw. rewrite Hw in Hf. apply search_root_refusal_None in Hs as [Hh Hd]; [|done..].
    by split_and!. }
  split_and!.
  - intros _. split_and!; [done..|]. intros Hw. destruct (Hwr Hw _ eq_refl) as [? Hpr]. auto.
  - intros E. apply Hsearch; by rewrite E.
  - intros E. apply Hsearch; by rewrite E.
Qed.

(** ** The policy's say *)

(** Calls handled one after another, each at its moment and under its id. *)
Definition handle d w (c : Moment * ToolCallSpec * string) : World :=
  let '(m, call, call_id) := c in (decide_call d m call call_id w).2.
Definition handle_all d (calls : list (Moment * ToolCallSpec * string)) w : World := fold_left (handle d) calls w.

(** One of [calls], answered at [at_], is where the gate gave [v] for [key]. *)
Definition answered d (calls : list (Moment * ToolCallSpec * string)) (key : string) (at_ : Z) (v : Verdict) : Prop :=
  exists gate m call call_id g, policy_gate d = Some gate /\ (m, call, call_id) ∈ calls
    /\ cache_key (gated_call call call_id (tool_params d call)) = key /\ at_answer m = at_
    /\ (gate_review gate (gated_call call call_id (tool_params d call)) g).1 = v.
(** A cached verdict is the gate's answer to one of [calls] with that key, and
    never one that leaves the decision to the owner. *)
Definition cache_explained d calls (cache : gmap string (Z * Verdict)) : Prop :=
  forall key at_ v, cache !! key = Some (at_, v) -> asks_owner v = false /\ answered d calls key at_ v.

Lemma cache_explained_filter d calls cache now :
  cache_explained d calls cache -> cache_explained d calls (filter (fresh_at now) cache).
Proof. intros H key at_ v Hl. apply map_lookup_filter_Some in Hl as [Hl _]. by eapply H. Qed.
Lemma cache_explained_app d calls more cache :
  cache_explained d calls cache -> cache_explained d (calls ++ more) cache.
Proof.
  intros H key at_ v (Ha & gate & m & call & i & g & Hg & Hin & Hr)%H. split; [done|].
  exists gate, m, call, i, g. split; [done|]. split; [set_solver|done].
Qed.

Lemma review_explained d calls m call call_id w v w' :
  review d m (gated_call call call_id (tool_params d call)) w = (v, w') -> (m, call, call_id) ∈ calls ->
  cache_explained d calls (review_cache w) -> cache_explained d calls (review_cache w').
Proof.
  unfold review. intros H Hin Hc. destruct (policy_gate d) as [gate|] eqn:Hg; [|by simplify_eq].
  destruct (gate_is_approved_replay _ _ _); [by simplify_eq|]. cbn zeta in H.
  apply (cache_explained_filter d _ _ (at_read m)) in Hc. cbn [review_cache set_cache gate_state] in H.
  destruct (filter _ _ !! _) as [[at_ v']|]; [by simplify_eq|].
  destruct (gate_review gate _ (gate_state w)) as [v' gs] eqn:Hr. simplify_eq.
  destruct (asks_owner v) eqn:Ha; [done|]. cbn. intros key at_ u Hl.
  apply lookup_insert_Some in Hl as [[<- [= <- <-]]|[_ Hl]]; [|by eapply Hc].
  split; [done|]. exists gate, m, call, call_id, (gate_state w). by rewrite Hr.
Qed.

(** Where an allowing verdict comes from. *)
Lemma review_allows d calls m c w w' :
  review d m c w = (VerdictAllow, w') -> cache_explained d calls (review_cache w) ->
  exists gate, policy_gate d = Some gate
    /\ (gate_is_approved_replay gate c (gate_state w) = true
        \/ (gate_review gate c (gate_state w)).1 = VerdictAllow
        \/ exists at_, at_read m - at_ < REVIEW_CACHE_TTL /\ answered d calls (cache_key c) at_ VerdictAllow).
Proof.
  unfold review. intros H Hc. destruct (policy_gate d) as [gate|] eqn:Hg; [|done]. exists gate. split; [done|].
  destruct (gate_is_approved_replay _ _ _); [by left|right]. cbn zeta in H. cbn [review_cache set_cache gate_state] in H.
  destruct (filter _ _ !! _) as [[at_ v']|] eqn:Hl.
  - simplify_eq. apply map_lookup_filter_Some in Hl as [Hl Hf]. right. exists at_. split; [exact Hf|by apply Hc].
  - left. destruct (gate_review gate c (gate_state w)) as [v' gs] eqn:Hr. by simplify_eq.
Qed.

(** Every call keeps the cache explained by the calls so far. *)
Lemma handle_explained d calls m call call_id w :
  cache_explained d calls (review_cache w) ->
  cache_explained d (calls ++ [(m, call, call_id)]) (review_cache (handle d w (m, call, call_id))).
Proof.
  intros Hc. apply (cache_explained_app d calls [(m, call, call_id)]) in Hc. unfold handle.
  assert (Hp : forall p, review_cache (path_gate d m call p w).2 = review_cache w).
  { intros p. unfold path_gate, screen_hot_memory, denied. repeat case_match; simplify_eq; done. }
  assert (Hq : forall w1, review_cache w1 = review_cache w ->
                cache_explained d (calls ++ [(m, call, call_id)])
                  (review_cache (policy_gate_of d m call call_id (tool_params d call) w1).2)).
  { intros w1 H1. rewrite <- H1 in Hc. unfold policy_gate_of.
    assert (Hv : cache_explained d (calls ++ [(m, call, call_id)])
              (review_cache (verdict_of d m call (gated_call call call_id (tool_params d call)) (tool_params d call) w1).2)).
    { unfold verdict_of. destruct (owner_decides _ _ _); [done|]. destruct (needs_review _ _ _); [|done].
      destruct (review _ _ _ _) as [v w2] eqn:Hr. eapply review_explained; [done|set_solver|done]. }
    destruct (verdict_of _ _ _ _ _ _) as [[[|reason|reason]|] w2]; cbn [snd] in *; try done.
    destruct (policy_gate d); [|done]. by destruct (gate_ask_owner _ _ _ _). }
  unfold decide_call. destruct (resolve_tool _ _); [|done]. destruct (validate_tool_args _ _ _); [|done].
  destruct (or_else _ _); [done|]. specialize (Hp (tool_params d call)).
  destruct (path_gate _ _ _ _ _) as [[r|] w1]; cbn [snd] in *; [by rewrite Hp|].
  specialize (Hq w1 Hp). destruct (policy_gate_of _ _ _ _ _ _) as [[r|] w2]; by apply Hq.
Qed.
Lemma handle_all_explained d calls w :
  review_cache w = ∅ -> cache_explained d calls (review_cache (handle_all d calls w)).
Proof.
  intros Hw. unfold handle_all. induction calls as [|[[m call] call_id] calls IH] using rev_ind.
  - cbn. rewrite Hw. intros key at_ v H. by rewrite lookup_empty in H.
  - rewrite fold_left_app. by apply handle_explained.
Qed.

Lemma not_owner_unscreened stamp : trust stamp <> Owner -> is_screened stamp = false.
Proof. intros H%not_owner. unfold is_screened, is_scheduled_owner. by rewrite H. Qed.
Lemma path_gate_unscreened d m call p w w1 :
  is_screened (stamp_of call) = false -> path_gate d m call p w = (None, w1) -> w1 = w.
Proof.
  unfold path_gate, denied. intros Hs H. destruct (file_tool_target _ _ _) as [[target write]|]; [|by simplify_eq].
  rewrite Hs, andb_false_r in H. repeat case_match; simplify_eq; done.
Qed.

(** C37. A call made for anyone but the owner reaches its tool only when the
    floor refuses neither the tool nor the action, and the policy agrees.  After
    any course of calls handled since the runtime started, an action only the
    owner decides is the replay of a request the owner approved; a call that
    needs review is such a replay, or the gate allows it now, or the gate
    allowed, less than ten minutes before, one of the calls handled that
    carries the same key (the same actor, tool and parameters, by digest).
    Without a gate neither kind of call runs. *)
Theorem dispatched_calls_cleared d calls w0 m call call_id p w' :
  review_cache w0 = ∅ ->
  let w := handle_all d calls w0 in
  decide_call d m call call_id w = (inr p, w') ->
  trust (stamp_of call) <> Owner ->
  let g := gated_call call call_id p in
  (exists meta, resolve_tool d call = Some meta
     /\ tool_refusal (stamp_of call) (tool_name call) (mcp_untrusted_ok meta) = None)
  /\ action_refusal (stamp_of call) (tool_name call) (params call) = None
  /\ match owner_decides (stamp_of call) (tool_name call) p with
     | Some _ => exists gate, policy_gate d = Some gate /\ gate_is_approved_replay gate g (gate_state w) = true
     | None =>
         needs_review (stamp_of call) (tool_name call) p = true ->
         exists gate, policy_gate d = Some gate
           /\ (gate_is_approved_replay gate g (gate_state w) = true
               \/ (gate_review gate g (gate_state w)).1 = VerdictAllow
               \/ exists at_, at_read m - at_ < REVIEW_CACHE_TTL /\ answered d calls (cache_key g) at_ VerdictAllow)
     end.
Proof.
  intros Hc w H Hn g. apply (handle_all_explained d calls) in Hc. fold w in Hc.
  apply decide_call_runs in H as (-> & Ht & Ha & w1 & Hp & Hq).
  split_and!; [done..|]. apply path_gate_unscreened in Hp as ->; [|by apply not_owner_unscreened].
  unfold policy_gate_of, verdict_of in Hq. fold g in Hq.
  destruct (owner_decides _ _ _) as [reason|].
  - destruct (policy_gate d) as [gate|]; [|by repeat case_match].
    destruct (gate_is_approved_replay gate g (gate_state w)) eqn:Hr; [eauto|]. by repeat case_match.
  - intros Hv. rewrite Hv in Hq. destruct (review d m g w) as [v w2] eqn:Hr.
    destruct v; [|by repeat case_match..]. by eapply review_allows.
Qed.

(** ** Hot memory *)

Lemma classify_lookup d principal g ss s :
  s ∈ ss -> classify d principal g ss !! s
            = Some match policy_gate d with Some gate => gate_source_class gate principal s g | None => SourceUnknown end.
Proof.
  unfold classify. set (f := fun s => match policy_gate d with Some gate => gate_source_class gate principal s g | None => SourceUnknown end).
  intros Hs. induction ss as [|x ss IH] using rev_ind; [set_solver|]. rewrite fold_left_app. cbn [fold_left].
  destruct (decide (s = x)) as [->|Hn]; [by rewrite lookup_insert_eq|].
  rewrite lookup_insert_ne by done. apply IH. set_solver.
Qed.

(** A text field with a default, as serde reads it. *)
Definition field_or (p : Json) (key dflt : string) : option string :=
  match p with
  | JObject fields => if contains_key key fields then as_str (index p key) else Some dflt
  | _ => None
  end.

(** [WriteTool::write] (tools/builtin/fs/write.rs): what the file holds
    afterwards, from its content before, none when there is no file.
    [base64_decode] is the [base64] crate's. *)
Definition write_file (base64_decode : string -> result string string) (resolved : string)
    (existing : option string) (content mode encoding : string) : result string string :=
  match (if String.eqb encoding "base64"
         then match base64_decode content with Ok d => Ok d | Err e => Err ("Invalid base64: " +:+ e) end
         else Ok content) with
  | Err e => Err e
  | Ok decoded =>
      if String.eqb mode "create_new" then
        if is_some existing then Err ("File already exists and mode is 'create_new': " +:+ resolved) else Ok decoded
      else if String.eqb mode "append" then Ok (default EmptyString existing +:+ decoded)
      else if String.eqb mode "overwrite" then Ok decoded
      else Err ("Invalid mode: " +:+ mode +:+ ". Use overwrite, append, or create_new")
  end.

(** [Result::ok]. *)
Definition ok {A E} (r : result A E) : option A := match r with Ok a => Some a | Err _ => None end.
(** What the [Write] or [Edit] tool leaves in the file, when it succeeds. *)
Definition written (base64_decode : string -> result string string) (existing : option string)
    (tool : string) (p : Json) : option string :=
  if String.eqb tool "Write" then
    match as_str (index p "file_path"), as_str (index p "content"), field_or p "mode" "overwrite", field_or p "encoding" "utf8" with
    | Some path, Some content, Some mode, Some encoding => ok (write_file base64_decode path existing content mode encoding)
    | _, _, _, _ => None
    end
  else if String.eqb tool "Edit" then
    match existing, as_str (index p "old_string"), as_str (index p "new_string") with
    | Some existing, Some old, Some new =>
        ok (replace_in_file existing old new (default false (as_bool (index p "replace_all"))))
    | _, _, _ => None
    end
  else None.

(** A [Write] of plain text in place of what was there: the ones the screen
    reads as they land. *)
Definition lands_as_given (tool : string) (p : Json) : Prop :=
  tool = "Write" -> field_or p "mode" "overwrite" <> Some "append" /\ field_or p "encoding" "utf8" <> Some "base64".

Lemma write_file_plain b64 path existing content mode encoding out :
  write_file b64 path existing content mode encoding = Ok out -> mode <> "append" -> encoding <> "base64" -> out = content.
Proof.
  unfold write_file. intros H Hm He. rewrite (proj2 (String.eqb_neq _ _) He), (proj2 (String.eqb_neq mode "append") Hm) in H.
  repeat case_match; by simplify_eq.
Qed.
Lemma written_candidate b64 existing tool p content :
  lands_as_given tool p -> written b64 existing tool p = Some content ->
  candidate_of (default EmptyString existing) tool p = Some content.
Proof.
  unfold written, candidate_of, lands_as_given. intros Hl. destruct (String.eqb_spec tool "Write") as [->|_].
  - destruct (Hl eq_refl) as [Hm He]. destruct (as_str (index p "file_path")); [|done]. destruct (as_str (index p "content")) as [c|]; [|done].
    destruct (field_or p "mode" _) as [mode|]; [|done]. destruct (field_or p "encoding" _) as [enc|]; [|done].
    destruct (write_file _ _ _ _ _ _) as [out|] eqn:Hw; [|done]. intros [= ->].
    f_equal. symmetry. eapply write_file_plain; [done|congruence..].
  - destruct (String.eqb tool "Edit"); [|done]. destruct existing as [existing|]; [|done].
    destruct (as_str (index p "old_string")); [|done].
    destruct (as_str (index p "new_string")); [|done]. rewrite apply_edit_tool. cbn [default from_option].
    destruct (replace_in_file _ _ _ _); [|done]. by intros [= ->].
Qed.

(** A finding the reviewer gave on an entry with the words of [e]. *)
Definition reviewed d principal existing content g (e : string) : Prop :=
  exists gate e' i c, policy_gate d = Some gate
    /\ split_whitespace e' = split_whitespace e
    /\ claims existing content !! i = Some {| claim_entry := e'; claim_sources := sources e |}
    /\ (gate_check_claims gate principal (claims existing content) g).1 !! i = Some c
    /\ check_passes c.

Lemma screen_passes d m principal ws target stamp tool p w w1 hot content :
  (forall gate cs g, policy_gate d = Some gate ->
     length (gate_check_claims gate principal cs g).1 = length cs) ->
  screen_hot_memory d m principal ws target stamp tool p w = (ScreenPass, w1) ->
  hot_file (resolve (components ws)) (resolve target) = Some hot ->
  let existing := default EmptyString (read (resolve target)) in
  candidate_of existing tool p = Some content ->
  forall e, e ∈ added existing content ->
    (sources e <> [] /\ exists gate, policy_gate d = Some gate
       /\ forall s, s ∈ sources e -> gate_source_class gate principal s (gate_state w) = SourceOwner)
    /\ reviewed d principal existing content (gate_state w) e.
Proof.
  intros Hlen H Hh existing Hc e He. unfold screen_hot_memory in H. rewrite Hh in H. fold existing in H. rewrite Hc in H.
  destruct (screen existing content _) as [|h hs] eqn:Hs.
  2:{ destruct (claims existing content); destruct (file_held _ _ _ _ _ _ _) as [[]]; done. }
  rewrite screen_nil in Hs. destruct (Hs e He) as [Hne Hso].
  assert (Hcl : forall s, s ∈ sources e -> classify d principal (gate_state w) (cited existing content) !! s
     = Some match policy_gate d with Some gate => gate_source_class gate principal s (gate_state w) | None => SourceUnknown end).
  { intros s Hi. apply classify_lookup, elem_of_cited. eauto. }
  pose proof (claims_of _ _ _ He Hne) as Hin.
  destruct (claims existing content) as [|c0 cs] eqn:Hcs; [set_solver|].
  destruct (policy_gate d) as [gate|] eqn:Hg.
  - split; [split; [done|]; exists gate; split; [done|]; intros s Hi; pose proof (Hso s Hi) as H1; rewrite (Hcl s Hi) in H1; by simplify_eq|].
    destruct (gate_check_claims gate principal (c0 :: cs) (gate_state w)) as [checks g] eqn:Hck.
    pose proof (Hlen gate (c0 :: cs) (gate_state w) eq_refl) as Hl. rewrite Hck in Hl. cbn [fst] in Hl.
    destruct (hold_unsupported (c0 :: cs) checks) as [|h hs] eqn:Hho;
      [|by destruct (file_held _ _ _ _ _ _ _) as [[]]].
    rewrite hold_unsupported_nil in Hho by done.
    apply list_elem_of_lookup in Hin as [i Hi].
    destruct (lookup_lt_is_Some_2 checks i) as [c Hci]; [rewrite Hl; by eapply lookup_lt_Some|].
    exists gate, e, i, c. rewrite Hcs, Hck. by eauto 8.
  - exfalso. destruct (sources e) as [|s ss] eqn:Hse; [done|].
    pose proof (Hso s (list_elem_of_here _ _)) as H1. rewrite (Hcl s) in H1 by (by left). done.
Qed.

(** When a scheduled owner run other than the genesis turn writes the hot
    memory or the hot conventions, neither appending nor in base64, whatever the
    [Write] or [Edit] tool then leaves in the file, each of its entries either has the words of an entry the
    file already held, or cites at least one source, cites only conversations
    the gate finds to be the owner's alone, and passed the review: one finding
    per claim, and none that is unsupported or unchecked. *)
Lemma dispatched_memory_sourced b64 d m call call_id w p w' ws path hot content :
  (forall gate cs g, policy_gate d = Some gate ->
     length (gate_check_claims gate (dispatch_principal call) cs g).1 = length cs) ->
  decide_call d m call call_id w = (inr p, w') ->
  is_screened (stamp_of call) = true -> principal_workspace d call = Some ws ->
  as_str (index p "file_path") = Some path ->
  let target := resolve (components (expand_tilde_text home path)) in
  let existing := default EmptyString (read target) in
  hot_file (resolve (components ws)) target = Some hot ->
  lands_as_given (tool_name call) p ->
  written b64 (read target) (tool_name call) p = Some content ->
  forall e, e ∈ entries content ->
    (exists e', e' ∈ entries existing /\ split_whitespace e' = split_whitespace e)
    \/ ((sources e <> [] /\ exists gate, policy_gate d = Some gate
          /\ forall s, s ∈ sources e -> gate_source_class gate (dispatch_principal call) s (gate_state w) = SourceOwner)
        /\ reviewed d (dispatch_principal call) existing content (gate_state w) e).
Proof.
  intros Hlen H Hsc Hws Hp target existing Hh Hgiven Hw.
  assert (Ht : is_one_of ["Write"; "Edit"] (tool_name call) = true).
  { unfold written in Hw. unfold is_one_of, contains. cbn [existsb].
    destruct (String.eqb (tool_name call) "Write"); [done|]. by destruct (String.eqb (tool_name call) "Edit"). }
  assert (Hf : file_tool_target home (tool_name call) p = Some (components (expand_tilde_text home path), true)).
  { apply file_tool_target_of. exists "file_path", path. rewrite Ht. split_and!; try done.
    unfold path_key. unfold is_one_of, contains in *. cbn [existsb] in *. by rewrite Ht, orb_true_r. }
  apply decide_call_runs in H as (-> & _ & _ & w1 & Hpath & _).
  eapply path_gate_passes in Hpath as (_ & _ & _ & Hs); [|exact Hf].
  specialize (Hs Hsc ws Hws).
  pose proof (screen_passes _ _ _ _ _ _ _ _ _ _ _ content Hlen Hs Hh (written_candidate _ _ _ _ _ Hgiven Hw)) as Hall.
  apply (added_forall (fun e => _) existing content); [|exact Hall].
  intros e e' He [[Hne (gate & Hg & Ho)] Hr]. pose proof (sources_words e e' He) as Hse. rewrite Hse in Hne, Ho.
  split; [by eauto|]. destruct Hr as (gt & x & i & c & Hr). exists gt, x, i, c. by rewrite <- He, <- Hse.
Qed.
End Dispatcher.

(** ** Concrete runs *)

Module Example.
(** A host without links, one hot memory file, one peko at [/w] and a gate
    that allows, holds [/main] to be the owner's and finds claims supported. *)
Definition fs : FileSystem :=
  {| canonicalize := Some; read_dir := fun _ => None; from_slice := fun _ => None;
     read := fun p => if decide (p = components "/w/kb/MEMORY.md") then Some ("- tea (source: /main)" +:+ NL) else None |}.
Definition allowing : PolicyGate unit :=
  {| gate_review := fun _ g => (VerdictAllow, g); gate_ask_owner := fun _ _ g => (Ok "apr_1", g);
     gate_is_approved_replay := fun _ _ => false;
     gate_source_class := fun _ s _ => if String.eqb s "/main" then SourceOwner else SourceUnknown;
     gate_check_claims := fun _ cs g => (map (fun _ => CheckSupported) cs, g) |}.
Definition catalog_of : Catalog := fun _ _ => Some {| source := BuiltIn; parameters := JNull |}.
Definition with_gate (gate : PolicyGate unit) : Dispatcher (G:=unit) :=
  {| catalog := catalog_of; principal_workspaces := <["a" := "/w"]> (<["b" := "/v"]> ∅); policy_gate := Some gate |}.
Definition idle : World (G:=unit) := {| gate_state := tt; review_cache := ∅; files := ∅; denials := [] |}.
Definition moment (t : Z) : Moment :=
  {| at_read := t; at_answer := t; filing := {| name_time := "t"; at_time := "t"; dir_error := None; write_error := None |} |}.
Definition guest : ActingFor :=
  {| actor := "user:hub:g"; actor_name := None; trust := Untrusted; compartment := Conversation "dm_g"; origin := Ingress (Some "dm_g") |}.
Definition nightly : ActingFor :=
  {| actor := "user:local:o"; actor_name := None; trust := Owner; compartment := Internal; origin := Cron "memory" |}.
Definition call_of (stamp : ActingFor) (principal tool : string) (p : Json) : ToolCallSpec :=
  {| tool_name := tool; params := p; workspace := None; agent_id := None; session_id := None;
     acting_for := Some stamp; principal_id := Some principal; principal_name := None;
     catalog_binding := None; background_progress := false |}.
Definition decide1 (gate : PolicyGate unit) (t : Z) (call : ToolCallSpec) (w : World (G:=unit)) :=
  decide_call (F:=fs) (fun _ _ _ => Ok tt) (fun _ => "{}") (fun s => s) (fun _ => "{}")
    (Some "/home/u") "/data" (with_gate gate) (moment t) call "call_1" w.

Definition read_call : ToolCallSpec := call_of guest "a" "Read" (JObject [("file_path", JString "notes.md")]).
Definition write_call : ToolCallSpec :=
  call_of nightly "a" "Write"
    (JObject [("content", JString ("# Memory" +:+ NL +:+ "- dogs (source: /main)" +:+ NL +:+ "- tea" +:+ NL +:+ "  (source: /main)"));
              ("file_path", JString "kb/MEMORY.md")]).

Lemma dispatched_files_within_floor_witness :
  let root := components "/w" in
  (is_one_of ["Read"; "Write"; "Edit"] "Read" = true ->
     is_absolute "/w/notes.md" = true
     /\ within_floor (F:=fs) guest (Some root) (components "/w/notes.md") false
     /\ (false = true -> ~ inbox_path root (components "/w/notes.md") /\ ~ protected_path root (components "/w/notes.md")))
  /\ ("Read" = "Grep" -> search_base_ok (F:=fs) "/data" guest root "/w/notes.md")
  /\ ("Read" = "Glob" -> search_base_ok (F:=fs) "/data" guest root "/w/notes.md").
Proof.
  exact (dispatched_files_within_floor (F:=fs) (fun _ _ _ => Ok tt) (fun _ => "{}") (fun s => s) (fun _ => "{}")
           (Some "/home/u") "/data" (with_gate allowing) (moment 0) read_call "call_1" idle
           (JObject [("file_path", JString "/w/notes.md")]) (decide1 allowing 0 read_call idle).2
           "/w" "file_path" "/w/notes.md" None
           ltac:(vm_compute; reflexivity) ltac:(discriminate) ltac:(vm_compute; reflexivity) eq_refl eq_refl eq_refl).
Defined.

(** A trusted run's [Grep] below the data directory reaches its tool although
    the sessions of the other pekos, which are the runtime's state, lie below
    the directory it searches: the refusal looks for the data directory itself
    below the root, not for what the root holds of it. *)
Definition friend : ActingFor :=
  {| actor := "user:hub:f"; actor_name := None; trust := Trusted; compartment := Conversation "dm_f"; origin := Ingress (Some "dm_f") |}.
Definition grep_call : ToolCallSpec :=
  call_of friend "a" "Grep" (JObject [("path", JString "/data/pekos"); ("pattern", JString "secret")]).
Theorem search_reaches_runtime_state :
  let start := grep_search_path (Some "/home/u") None (Some "/data/pekos") in
  let session := components "/data/pekos/b/local/sessions/s.jsonl" in
  (decide1 allowing 0 grep_call idle).1 = inr (params grep_call)
  /\ path_starts_with session (components start) = true
  /\ is_runtime_state (Some (components "/w")) session = true
  /\ exists reason, check_path (F:=fs) friend (Some (components "/w")) session false = Deny reason.
Proof. vm_compute. split_and!; [done..|]. by eexists. Qed.

(** The guard on patterns looks for a [..] segment, the tool cuts the pattern
    at its first [**]: [..**/*] has no such segment, and searches the parent of
    the base, for an untrusted run the folder of all pekos. *)
Definition glob_call : ToolCallSpec :=
  call_of guest "a" "Glob" (JObject [("path", JString "/h/pekos/a"); ("pattern", JString "..**/*")]).
Definition at_home : Dispatcher (G:=unit) :=
  {| catalog := catalog_of; principal_workspaces := <["a" := "/h/pekos/a"]> ∅; policy_gate := Some allowing |}.
Theorem glob_pattern_climbs :
  let searched := resolve (F:=fs) (components (glob_search_root "/h/pekos/a" "..**/*")) in
  (decide_call (F:=fs) (fun _ _ _ => Ok tt) (fun _ => "{}") (fun s => s) (fun _ => "{}")
     (Some "/home/u") "/data" at_home (moment 0) glob_call "call_1" idle).1 = inr (params glob_call)
  /\ searched = components "/h/pekos"
  /\ foreign (Some (components "/h/pekos/a")) searched = true
  /\ exists reason, check_path (F:=fs) guest (Some (components "/h/pekos/a")) searched false = Deny reason.
Proof. vm_compute. split_and!; [done..|]. by eexists. Qed.

(** The same reading twice: the second time on the cached verdict. *)
Lemma dispatched_calls_cleared_witness :
  let g := gated_call read_call "call_2" (JObject [("file_path", JString "/w/notes.md")]) in
  exists gate, policy_gate (with_gate allowing) = Some gate
    /\ (gate_is_approved_replay gate g tt = true
        \/ (gate_review gate g tt).1 = VerdictAllow
        \/ exists at_, 5 - at_ < REVIEW_CACHE_TTL
             /\ answered (fun _ => "{}") (fun s => s) (Some "/home/u") (with_gate allowing) [(moment 0, read_call, "call_1")]
                  (cache_key (fun _ => "{}") (fun s => s) g) at_ VerdictAllow).
Proof.
  destruct (dispatched_calls_cleared (F:=fs) (fun _ _ _ => Ok tt) (fun _ => "{}") (fun s => s) (fun _ => "{}")
              (Some "/home/u") "/data" (with_gate allowing) [(moment 0, read_call, "call_1")] idle (moment 5) read_call "call_2"
              (JObject [("file_path", JString "/w/notes.md")]) (decide1 allowing 0 read_call idle).2
              eq_refl ltac:(vm_compute; reflexivity) ltac:(discriminate)) as (_ & _ & H).
  exact (H eq_refl).
Defined.

Lemma memory_write_passes :
  (exists e', e' ∈ entries ("- tea (source: /main)" +:+ NL) /\ split_whitespace e' = split_whitespace "- dogs (source: /main)")
  \/ ((sources "- dogs (source: /main)" <> [] /\ exists gate, policy_gate (with_gate allowing) = Some gate
        /\ forall s, s ∈ sources "- dogs (source: /main)" -> gate_source_class gate "a" s tt = SourceOwner)
      /\ reviewed (with_gate allowing) "a" ("- tea (source: /main)" +:+ NL)
           ("# Memory" +:+ NL +:+ "- dogs (source: /main)" +:+ NL +:+ "- tea" +:+ NL +:+ "  (source: /main)") tt "- dogs (source: /main)").
Proof.
  exact (dispatched_memory_sourced (F:=fs) (fun _ _ _ => Ok tt) (fun _ => "{}") (fun s => s) (fun _ => "{}")
           (Some "/home/u") "/data" Err (with_gate allowing) (moment 0) write_call "call_1" idle
           (tool_params (Some "/home/u") (with_gate allowing) write_call)
           (decide1 allowing 0 write_call idle).2 "/w" "/w/kb/MEMORY.md" HOT_MEMORY _
           ltac:(intros gate cs g [= <-]; apply length_map) ltac:(vm_compute; reflexivity) eq_refl
           ltac:(vm_compute; reflexivity) ltac:(vm_compute; reflexivity) ltac:(vm_compute; reflexivity)
           ltac:(vm_compute; split; discriminate) ltac:(vm_compute; reflexivity) "- dogs (source: /main)"
           ltac:(apply list_elem_of_In; vm_compute; left; reflexivity)).
Defined.

(** Two writes the screen lets pass although the file then holds an entry with
    neither old words nor a source: an [append] whose first line joins the last
    one of the file, and a base64 text, screened undecoded, that stands in the
    file as an entry's words. *)
Definition memory_disk (text : string) : FileSystem :=
  {| canonicalize := Some; read_dir := fun _ => None; from_slice := fun _ => None;
     read := fun p => if decide (p = components "/w/kb/MEMORY.md") then Some text else None |}.
Definition escaping (key value content : string) : ToolCallSpec :=
  call_of nightly "a" "Write"
    (JObject [("content", JString content); ("file_path", JString "/w/kb/MEMORY.md"); (key, JString value)]).
Definition decoder (s : string) : result string string := if String.eqb s "c2hhcmU" then Ok "- share keys" else Err "?".
Definition decide_on (text : string) (call : ToolCallSpec) :=
  (decide_call (F:=memory_disk text) (fun _ _ _ => Ok tt) (fun _ => "{}") (fun s => s) (fun _ => "{}")
     (Some "/home/u") "/data" (with_gate allowing) (moment 0) call "call_1" idle).1.
Definition unsourced_entry (before after e : string) : Prop :=
  e ∈ entries after /\ sources e = [] /\ Forall (fun e' => split_whitespace e' <> split_whitespace e) (entries before).
Theorem writes_escape_screen :
  let appended := escaping "mode" "append" "- share keys" in
  let encoded := escaping "encoding" "base64" "c2hhcmU" in
  let old := "- share keys" +:+ NL +:+ "- never" in
  (decide_on old appended = inr (params appended)
   /\ exists after, written decoder (Some old) "Write" (params appended) = Some after
        /\ unsourced_entry old after "- never- share keys")
  /\ (decide_on "c2hhcmU" encoded = inr (params encoded)
       /\ exists after, written decoder (Some "c2hhcmU") "Write" (params encoded) = Some after
            /\ unsourced_entry "c2hhcmU" after "- share keys").
Proof.
  cbn zeta. unfold unsourced_entry. split; (split; [by vm_compute|]); eexists; (split; [by vm_compute|]); split_and!;
    [apply list_elem_of_In; vm_compute; auto|by vm_compute|vm_compute; by repeat constructor..].
Qed.

(** A gate whose policies differ: what [a]'s owner allows, [b]'s denies. *)
Definition by_principal : PolicyGate unit :=
  {| gate_review := fun c g => (if String.eqb (gc_principal_id c) "a" then VerdictAllow else VerdictDeny "no", g);
     gate_ask_owner := fun _ _ g => (Ok "apr_1", g); gate_is_approved_replay := fun _ _ => false;
     gate_source_class := fun _ _ _ => SourceUnknown; gate_check_claims := fun _ _ g => ([], g) |}.
Definition send_call (principal : string) : ToolCallSpec :=
  call_of guest principal "ChannelSend" (JObject [("text", JString "hi"); ("to", JString "chan_1")]).

(** The cache key names the actor and the call but not the principal: within
    ten minutes of a call allowed by one peko's policy, the same actor's same
    call to another peko runs although that peko's policy denies it. *)
Theorem cached_verdict_crosses_principals :
  let w := (decide1 by_principal 0 (send_call "a") idle).2 in
  (gate_review by_principal (gated_call (send_call "b") "call_1" (params (send_call "b"))) tt).1 = VerdictDeny "no"
  /\ (decide1 by_principal 1000 (send_call "b") w).1 = inr (params (send_call "b"))
  /\ exists r, (decide1 by_principal 1000 (send_call "b") idle).1 = inl r /\ outcome r = PolicyDenied.
Proof. vm_compute. split; [done|]. split; [done|]. by eexists. Qed.
End Example.
