(* ===== verification/Ledger.v ===== *)
(** * Ledger: what is recorded of every call

    [ToolDispatcher::execute] around the gate of [Dispatch] (dispatcher.rs),
    the end of [execute_inner], the late end of a detached call ([LateEnd]),
    the records of the tool ledger (security/ledger/mod.rs) and the receipt of
    the router that detaches a running call (async_router.rs).  The files
    behind a ledger are the hash chain's ([Chain]); here a ledger is the list of
    records appended to it.  Excerpts, durations and exit codes are left out of
    the records. *)

From Stdlib Require Import ZArith Lia Ascii.
From stdpp Require Import base tactics list gmap strings pretty relations.
From S2P Require Import Prelude Text Host ActingFor Floor MemoryGate Proposals Dispatch.

Local Open Scope nat_scope.

Definition outcome_as_str (o : Outcome) : string :=
  match o with
  | OutcomeOk => "ok" | OutcomeError => "error" | Cancelled => "cancelled"
  | FloorDenied => "floor_denied" | PolicyDenied => "policy_denied"
  | AwaitingOwner => "awaiting_owner" | Proposed => "proposed" | OutcomeDetached => "detached"
  end.

(** A [start] or an [end] record. *)
Inductive LedgerRecord :=
  | Start (call_id : string)
  | End (call_id : string) (o : Outcome) (task_id : option string) (late : bool).
#[export] Instance LedgerRecord_eq_dec : EqDecision LedgerRecord.
Proof. solve_decision. Defined.

(** ** Results *)

Definition is_json_string (v : Json) (s : string) : bool := bool_decide (as_str v = Some s).

Section Settle.
Context (json_text : Json -> string).

(** The agent-facing text, value and success of a tool's result. *)
Definition settle (tool_name : string) (source : ToolSource) (r : result Json string) : string * Json * bool :=
  match r with
  | Ok value =>
      let text := match value with JString s => s | other => json_text other end in
      let success :=
        negb (String.eqb tool_name "Agent" && is_json_string (index value "error_type") "ConcurrentLimitExceeded")
        && negb (match source with Mcp _ _ => true | BuiltIn => false end
                 && bool_decide (as_bool (index value "isError") = Some true)) in
      (text, value, success)
  | Err e => let text := "Error: " +:+ e in (text, JString text, false)
  end.
End Settle.

(** A tool that reports its own failure is an error in the ledger. *)
Definition outcome_of (success : bool) (json : Json) : Outcome :=
  if success && negb (bool_decide (as_bool (index json "success") = Some false)) then OutcomeOk else OutcomeError.

Definition detached_task_id (json : Json) : option string :=
  if is_json_string (index json "_async_status") "queued" && is_json_string (index json "reason") "timeout"
  then as_str (index json "task_id") else None.

(** The router: why a call stopped holding the turn, and the receipt the agent
    gets instead of its result. *)
Inductive DetachReason := Timeout | Message.
Definition detach_receipt (reason : DetachReason) (tool_name task_id : string) (after_secs : N) : Json :=
  let '(r, why) :=
    match reason with
    | Timeout => ("timeout", "is still running after " +:+ pretty after_secs +:+ "s")
    | Message => ("message", "was still running when a new message arrived (" +:+ pretty after_secs +:+ "s in)")
    end in
  JObject [("_async_status", JString "queued");
           ("detached_after_secs", JNumber (pretty after_secs));
           ("note", JString (tool_name +:+ " " +:+ why +:+ ", so it now runs in the background with no time limit. Its result will be delivered to this session when it finishes. To check sooner use Async action output (block: true waits) or action status with this task_id; to cancel use Async action stop."));
           ("reason", JString r);
           ("status", JString "running");
           ("task_id", JString task_id);
           ("tool_name", JString tool_name)].

(** The end of [execute_inner]: the cancel notice wins over the result. *)
Definition finish (json_text : Json -> string) (call : ToolCallSpec) (source : ToolSource)
    (notice : option string) (r : result Json string) : Dispatched :=
  match notice with
  | Some text => {| text := text; json := JString text; success := true; outcome := Cancelled |}
  | None =>
      let '(t, j, ok) := settle json_text (tool_name call) source r in
      {| text := t; json := j; success := ok;
         outcome := if negb (background_progress call) && is_some (detached_task_id j)
                    then OutcomeDetached else outcome_of ok j |}
  end.

(** ** The late end *)

Inductive LateState :=
  | Running
  | DetachedState
  | Finished (o : Outcome)
  | Done.

(** Both give the state after and the record to append, if any. *)
Definition late_record (call_id : string) (o : Outcome) : LedgerRecord := End call_id o None true.
Definition body_finished (call_id : string) (o : Outcome) (s : LateState) : LateState * option LedgerRecord :=
  match s with
  | DetachedState => (Done, Some (late_record call_id o))
  | _ => (Finished o, None)
  end.
Definition detached (call_id : string) (s : LateState) : LateState * option LedgerRecord :=
  match s with
  | Finished o => (Done, Some (late_record call_id o))
  | _ => (DetachedState, None)
  end.

(** ** [execute] *)

Definition UNAVAILABLE : string := "Error: the tool ledger is unavailable, so this call was not run".

(** The principal's ledger when the call arrives, and what its writes and the
    audit meet. *)
Record LedgerState := {
  bound : option (list LedgerRecord);
  unledgered : bool;
  start_error : option string;
  end_error : option string;
}.

Record Executed := {
  reply : string * Json * bool;
  (** The ledger the call saw when its gate was entered, if it was. *)
  entered : option (option (list LedgerRecord));
  (** The ledger afterwards, and the audited outcome. *)
  after : option (list LedgerRecord);
  (** Ledger failures sent to the security audit. *)
  failures : list string;
  audited : option (Outcome * bool);
}.

(** The call is known to be the owner's only by its own stamp. *)
Definition owner_call (call : ToolCallSpec) : bool :=
  match acting_for call with Some stamp => is_owner stamp | None => false end.

Definition not_run (l : option (list LedgerRecord)) (e : string) : Executed :=
  {| reply := (UNAVAILABLE, JString UNAVAILABLE, false); entered := None; after := l; failures := [e]; audited := None |}.

(** [inner] is [execute_inner]: it runs only after the start record is down. *)
Definition run_recorded (call_id : string) (st : LedgerState) (ledger : option (list LedgerRecord)) (failed : list string)
    (inner : unit -> Dispatched) : Executed :=
  let d := inner tt in
  let task := if decide (outcome d = OutcomeDetached) then detached_task_id (json d) else None in
  let '(after, failed) :=
    match ledger with
    | None => (None, failed)
    | Some l =>
        match end_error st with
        | Some e => (Some l, failed ++ [e])
        | None => (Some (l ++ [End call_id (outcome d) task false]), failed)
        end
    end in
  {| reply := (text d, json d, success d); entered := Some ledger; after := after; failures := failed;
     audited := Some (outcome d, success d) |}.

Definition execute (call : ToolCallSpec) (call_id : string) (st : LedgerState) (inner : unit -> Dispatched) : Executed :=
  let has_principal := is_some (caller_principal call) in
  let ledger := if has_principal then bound st else None in
  let missing := has_principal && unledgered st && negb (is_some ledger) in
  let opening := if missing then ["the tool ledger could not be opened"] else [] in
  if missing && negb (owner_call call) then not_run ledger "the tool ledger could not be opened"
  else
    match ledger with
    | None => run_recorded call_id st None opening inner
    | Some l =>
        match start_error st with
        | None => run_recorded call_id st (Some (l ++ [Start call_id])) opening inner
        | Some e =>
            if negb (owner_call call) then not_run ledger e
            else (* the owner's run goes on, unrecorded *)
              let r := run_recorded call_id st None (opening ++ [e]) inner in
              {| reply := reply r; entered := entered r; after := ledger; failures := failures r; audited := audited r |}
        end
    end.

(** ** Every call is recorded before it runs *)

(** No call made for anyone but the owner is run unrecorded: for a
    principal with a ledger, the gate and the tool are entered only once the
    call's start record is in the ledger, and when the ledger cannot be opened
    or written the call is refused.  When the end can be written the ledger then
    gains exactly the start and the end with the call's outcome; a call
    unstamped counts as not the owner's. *)
Theorem calls_recorded_before_they_run call call_id st inner :
  owner_call call = false -> is_some (caller_principal call) = true ->
  bound st <> None \/ unledgered st = true ->
  let r := execute call call_id st inner in
  match entered r with
  | None => reply r = (UNAVAILABLE, JString UNAVAILABLE, false) /\ after r = bound st /\ failures r <> []
  | Some seen =>
      exists l, bound st = Some l /\ seen = Some (l ++ [Start call_id])
        /\ reply r = (text (inner tt), json (inner tt), success (inner tt))
        /\ (end_error st = None -> exists task,
              after r = Some (l ++ [Start call_id; End call_id (outcome (inner tt)) task false])
              /\ (is_some task = true -> outcome (inner tt) = OutcomeDetached))
  end.
Proof.
  intros Ho Hp Hb. cbn zeta. unfold execute. rewrite Hp, Ho. destruct (bound st) as [l|] eqn:El.
  - cbn [is_some negb andb]. rewrite andb_false_r. destruct (start_error st) as [e|] eqn:Es; [by cbn|].
    cbn [andb]. unfold run_recorded. destruct (end_error st) eqn:Ee; cbn; eexists; split_and!; try done.
    intros _. eexists. rewrite <- app_assoc. split; [done|]. by case_decide.
  - destruct Hb as [|Hu]; [done|]. by rewrite Hu.
Qed.
Lemma calls_recorded_before_they_run_witness :
  entered (execute Example.read_call "c" {| bound := Some []; unledgered := false; start_error := None; end_error := None |}
             (fun _ => refused "no" FloorDenied)) = Some (Some [Start "c"]).
Proof.
  assert (H : forall st inner, bound st = Some [] -> start_error st = None ->
            is_some (entered (execute Example.read_call "c" st inner)) = true -> entered (execute Example.read_call "c" st inner) = Some (Some [Start "c"])).
  { intros st inner Hb Hs He.
    pose proof (calls_recorded_before_they_run Example.read_call "c" st inner ltac:(vm_compute; reflexivity)
                  ltac:(vm_compute; reflexivity) ltac:(left; by rewrite Hb)) as H.
    cbn zeta in H. destruct (entered _) as [seen|]; [|done]. destruct H as (l & Hl & -> & _). rewrite Hb in Hl. by simplify_eq. }
  apply H; reflexivity.
Defined.

(** ** A detached call ends twice, in order *)

Inductive DispatcherPhase := BeforeEnd | EndWritten | Told.

(** One detached call: the dispatcher writes the detached end and then tells
    [LateEnd]; the body finishes in the background at any time, and what its
    finishing appends is appended by a task of its own. *)
Record Detaching := {
  ledger : list LedgerRecord;
  late : LateState;
  phase : DispatcherPhase;
  body_done : bool;
  spawned : option LedgerRecord;
}.

Section Detach.
Context (call_id task : string) (o : Outcome).

Definition detached_end : LedgerRecord := End call_id OutcomeDetached (Some task) false.
Definition option_list {A} (x : option A) : list A := match x with Some a => [a] | None => [] end.

Inductive detach_step : Detaching -> Detaching -> Prop :=
| step_body s l' r :
    body_done s = false -> body_finished call_id o (late s) = (l', r) ->
    detach_step s {| ledger := ledger s; late := l'; phase := phase s; body_done := true; spawned := r |}
| step_end s :
    phase s = BeforeEnd ->
    detach_step s {| ledger := ledger s ++ [detached_end]; late := late s; phase := EndWritten;
                     body_done := body_done s; spawned := spawned s |}
| step_tell s l' r :
    phase s = EndWritten -> detached call_id (late s) = (l', r) ->
    detach_step s {| ledger := ledger s ++ option_list r; late := l'; phase := Told;
                     body_done := body_done s; spawned := spawned s |}
| step_spawned s r :
    spawned s = Some r ->
    detach_step s {| ledger := ledger s ++ [r]; late := late s; phase := phase s;
                     body_done := body_done s; spawned := None |}.

Definition called : Detaching :=
  {| ledger := [Start call_id]; late := Running; phase := BeforeEnd; body_done := false; spawned := None |}.

(** What each phase holds. *)
Definition in_order (s : Detaching) : Prop :=
  match phase s, body_done s with
  | BeforeEnd, b => ledger s = [Start call_id] /\ late s = (if b then Finished o else Running) /\ spawned s = None
  | EndWritten, b =>
      ledger s = [Start call_id; detached_end] /\ late s = (if b then Finished o else Running) /\ spawned s = None
  | Told, false => ledger s = [Start call_id; detached_end] /\ late s = DetachedState /\ spawned s = None
  | Told, true =>
      late s = Done /\
      ((ledger s = [Start call_id; detached_end; late_record call_id o] /\ spawned s = None)
       \/ (ledger s = [Start call_id; detached_end] /\ spawned s = Some (late_record call_id o)))
  end.

Lemma in_order_step s s' : in_order s -> detach_step s s' -> in_order s'.
Proof.
  unfold in_order. intros H Hs. destruct Hs as [s l' r Hb Hf|s Hp|s l' r Hp Hd|s r Hr]; cbn.
  - rewrite Hb in H. destruct (phase s); destruct H as (Hl & Hla & Hsp); rewrite Hla in Hf; cbn in Hf; simplify_eq; auto.
  - rewrite Hp in H. destruct (body_done s); destruct H as (-> & -> & ->); auto.
  - rewrite Hp in H. destruct (body_done s); destruct H as (-> & Hla & ->); rewrite Hla in Hd; cbn in Hd; simplify_eq; cbn; auto.
  - destruct (phase s); [destruct H as (_ & _ & H); congruence..|].
    destruct (body_done s); [|destruct H as (_ & _ & H); congruence].
    destruct H as (Hla & [[_ H]|[-> H]]); [congruence|]. split; [done|]. left. rewrite H in Hr. by simplify_eq.
Qed.
Lemma in_order_reachable s : rtc detach_step called s -> in_order s.
Proof.
  intros H. assert (Hg : forall a b, rtc detach_step a b -> in_order a -> in_order b).
  { induction 1; eauto using in_order_step. }
  by eapply Hg.
Qed.

(** Steps still to come. *)
Definition remaining (s : Detaching) : nat :=
  match phase s with BeforeEnd => 2 | EndWritten => 1 | Told => 0 end
  + (if body_done s then 0 else 2) + length (option_list (spawned s)).

Lemma step_remaining s s' : detach_step s s' -> in_order s -> remaining s' < remaining s.
Proof.
  intros Hs Ho. unfold remaining. destruct Hs as [s l' r Hb Hf|s Hp|s l' r Hp Hd|s r Hr]; cbn.
  - rewrite Hb. destruct r; cbn; destruct (spawned s); cbn; lia.
  - rewrite Hp. lia.
  - rewrite Hp. lia.
  - rewrite Hr. cbn. lia.
Qed.
End Detach.

(** Whichever comes first of the dispatcher's receipt and the body's own
    end, the ledger of a detached call reads: its start, its detached end, its
    late end, in that order and once each.  In every state reached the ledger is
    a beginning of these three records; every step brings the end nearer, and a
    state with no step left has all three. *)
Theorem detached_call_ends_in_order call_id task o s :
  rtc (detach_step call_id task o) (called call_id) s ->
  let whole := [Start call_id; End call_id OutcomeDetached (Some task) false; End call_id o None true] in
  ledger s `prefix_of` whole
  /\ (forall s', detach_step call_id task o s s' -> remaining s' < remaining s)
  /\ ((forall s', ~ detach_step call_id task o s s') -> ledger s = whole).
Proof.
  intros H%in_order_reachable. cbn zeta. split_and!.
  - unfold in_order in H. destruct (phase s), (body_done s); destruct H as (H1 & H2);
      try (rewrite H1; eexists; reflexivity). destruct H2 as [[-> _]|[-> _]]; eexists; reflexivity.
  - intros s' Hs. by eapply step_remaining.
  - intros Hn. unfold in_order in H. destruct (phase s) eqn:Hp.
    + edestruct Hn. by apply step_end.
    + edestruct Hn. by eapply step_tell; [done|apply surjective_pairing].
    + destruct (body_done s) eqn:Hb; [|edestruct Hn; by eapply step_body; [done|apply surjective_pairing]].
      destruct H as (_ & [[-> _]|[_ Hs]]); [done|]. edestruct Hn. by eapply step_spawned.
Qed.
Lemma detached_call_ends_in_order_witness :
  exists s, rtc (detach_step "c" "t" OutcomeError) (called "c") s
    /\ ledger s `prefix_of` [Start "c"; End "c" OutcomeDetached (Some "t") false; End "c" OutcomeError None true].
Proof.
  eexists. assert (H : rtc (detach_step "c" "t" OutcomeError) (called "c")
    {| ledger := [Start "c"; detached_end "c" "t"]; late := DetachedState; phase := Told; body_done := false; spawned := None |}).
  { eapply rtc_l; [by apply step_end|]. eapply rtc_l; [by eapply step_tell|]. apply rtc_refl. }
  split; [exact H|]. exact (proj1 (detached_call_ends_in_order "c" "t" OutcomeError _ H)).
Defined.

(** A call moved to the background because a message arrived is recorded as
    finished: its receipt is read as detached only when the wait ran out, so
    its first end says [ok], names no task, and no late end will follow. *)
Theorem message_detach_recorded_as_done json_text call source tool task secs :
  background_progress call = false ->
  outcome (finish json_text call source None (Ok (detach_receipt Timeout tool task secs))) = OutcomeDetached
  /\ detached_task_id (detach_receipt Timeout tool task secs) = Some task
  /\ outcome (finish json_text call source None (Ok (detach_receipt Message tool task secs))) = OutcomeOk
  /\ detached_task_id (detach_receipt Message tool task secs) = None.
Proof.
  intros Hb. unfold finish. rewrite Hb. cbn. destruct source; cbn; rewrite ?andb_false_r; done.
Qed.
Lemma message_detach_recorded_as_done_witness :
  outcome (finish (fun _ => EmptyString) Example.read_call BuiltIn None (Ok (detach_receipt Message "Bash" "Bash:1" 3))) = OutcomeOk.
Proof. apply (message_detach_recorded_as_done (fun _ => EmptyString) Example.read_call BuiltIn "Bash" "Bash:1" 3 eq_refl). Defined.
