(* ===== verification/Policy.v ===== *)
(** * Policy: the owner's rules, the reviewer and the approval desk

    [POLICY.md] (security/policy.rs), the reviewer's prompt and answer
    (security/judge.rs) and the principal's side of the gate
    (principal/policy_gate.rs): approval requests and their decision, replays,
    and the review of memory claims in batches.  Models, the clock and serde
    are parameters. *)

From Stdlib Require Import ZArith Lia Ascii.
From stdpp Require Import base tactics list gmap strings pretty.
From S2P Require Import Prelude Text Subject Host ActingFor Floor MemoryGate Proposals Dispatch.

Local Open Scope nat_scope.

(** ** [POLICY.md] *)

Definition POLICY_FILE : string := "POLICY.md".
Definition POLICY_EXCERPT_MAX_BYTES : nat := 8 * 1024.

Inductive MemoryReview := Guests | Always | Off.

Record Policy := {
  judge_model : option string;
  review_replies : bool;
  memory_review : MemoryReview;
  defaults : string;
  sections : list (string * string);
}.
Definition default_policy : Policy :=
  {| judge_model := None; review_replies := false; memory_review := Guests; defaults := EmptyString; sections := [] |}.

(** Text without HTML comments; an unclosed one runs to the end.  The search
    for the close starts at the opening itself. *)
Fixpoint strip_comments_from (inside : bool) (skip : nat) (s : string) : string :=
  match s with
  | EmptyString => EmptyString
  | String a s1 =>
      match skip with
      | S k => strip_comments_from inside k s1
      | O =>
          if inside then
            if starts_with "-->" s then strip_comments_from false 2 s1 else strip_comments_from true 0 s1
          else if starts_with "<!--" s then strip_comments_from true 0 s1
          else String a (strip_comments_from false 0 s1)
      end
  end.
Definition strip_comments : string -> string := strip_comments_from false 0.

(** [find]: the text before the first match, and from it on. *)
Fixpoint find_str (p s : string) : option (string * string) :=
  if starts_with p s then Some (EmptyString, s)
  else match s with
       | EmptyString => None
       | String a s => match find_str p s with Some (l, r) => Some (String a l, r) | None => None end
       end.

Definition COLON : ascii := ":"%char.
(** [line.split('#').next()]. *)
Definition before_hash (line : string) : string :=
  match split_once HASH line with Some (l, _) => l | None => line end.

Definition front_matter_line (p : Policy) (line : string) : Policy :=
  match split_once COLON (before_hash line) with
  | None => p
  | Some (key, value) =>
      let value := trim value in
      let key := trim key in
      if String.eqb key "judge_model" && negb (bool_decide (value = EmptyString)) then
        {| judge_model := Some value; review_replies := review_replies p; memory_review := memory_review p;
           defaults := defaults p; sections := sections p |}
      else if String.eqb key "review_replies" then
        {| judge_model := judge_model p; review_replies := String.eqb value "true"; memory_review := memory_review p;
           defaults := defaults p; sections := sections p |}
      else if String.eqb key "memory_review" then
        {| judge_model := judge_model p; review_replies := review_replies p;
           memory_review := if String.eqb value "always" then Always else if String.eqb value "off" then Off else Guests;
           defaults := defaults p; sections := sections p |}
      else p
  end.

(** [kind:scope:id]. *)
Definition is_actor_address (word : string) : bool :=
  match split_once COLON word with
  | Some (kind, rest) =>
      match split_once COLON rest with
      | Some (scope, id) =>
          is_one_of ["user"; "visitor"; "principal"] kind && is_one_of ["local"; "hub"] scope
          && negb (bool_decide (id = EmptyString))
      | None => false
      end
  | None => false
  end.

(** The first word of a [## ] heading. *)
Definition heading_word (line : string) : option string :=
  match strip_prefix "## " line with
  | Some heading => head (split_whitespace heading)
  | None => None
  end.
Definition heading_actor (line : string) : option string :=
  match heading_word line with
  | Some word => if is_actor_address word then Some word else None
  | None => None
  end.

(** The buffered section, filed under its actor or added to the defaults. *)
Definition flush_section (current : option string) (buffer : string) (p : Policy) : Policy :=
  let text := trim buffer in
  if bool_decide (text = EmptyString) then p
  else match current with
       | Some actor =>
           {| judge_model := judge_model p; review_replies := review_replies p; memory_review := memory_review p;
              defaults := defaults p; sections := sections p ++ [(actor, text)] |}
       | None =>
           {| judge_model := judge_model p; review_replies := review_replies p; memory_review := memory_review p;
              defaults := (if bool_decide (defaults p = EmptyString) then EmptyString else defaults p +:+ NL) +:+ text;
              sections := sections p |}
       end.
Fixpoint parse_lines (current : option string) (buffer : string) (p : Policy) (ls : list string) : Policy :=
  match ls with
  | [] => flush_section current buffer p
  | line :: ls =>
      if starts_with "## " line
      then parse_lines (heading_actor line) (line +:+ NL) (flush_section current buffer p) ls
      else parse_lines current (buffer +:+ line +:+ NL) p ls
  end.

Definition split_front_matter (text : string) : Policy * string :=
  match strip_prefix ("---" +:+ NL) text with
  | None => (default_policy, text)
  | Some rest =>
      match find_str (NL +:+ "---") rest with
      | None => (default_policy, text)
      | Some (front, at_end) =>
          (fold_left front_matter_line (lines front) default_policy,
           trim_start_matches [NL] (drop_bytes 4 at_end))
      end
  end.
Definition parse (text : string) : Policy :=
  let '(p, body) := split_front_matter (strip_comments text) in
  parse_lines None EmptyString p (lines body).

(** [text] cut on a character boundary, with a note when cut. *)
Definition cap (text : string) (max : nat) : string :=
  if String.length text <=? max then text
  else take_bytes (boundary_before text max) text +:+ NL +:+ ELLIPSIS +:+ " (policy truncated; read "
       +:+ POLICY_FILE +:+ " for the rest)".

(** The sections that name [actor], under any alias. *)
Definition names_actor (K : ActorKeys) (actor address : string) : bool :=
  String.eqb address actor
  || match actor_from_str actor with
     | Ok subject => match actor_from_str address with Ok section => same_actor K section subject | Err _ => false end
     | Err _ => false
     end.
Definition rules_for (K : ActorKeys) (p : Policy) (actor : string) : string :=
  fold_left (fun text '(address, rules) => if names_actor K actor address then text +:+ NL +:+ NL +:+ rules else text)
            (sections p) (defaults p).
Definition for_actor (K : ActorKeys) (p : Policy) (actor : string) : string :=
  cap (rules_for K p actor) POLICY_EXCERPT_MAX_BYTES.

(** ** [with_allowance] *)

Definition allowance_line (today rule : string) : string :=
  "- Always allowed (owner approval " +:+ today +:+ "): " +:+ rule.

(** Back over the blank lines that end a section. *)
Fixpoint drop_blank_end (ls : list string) : list string :=
  match ls with
  | [] => []
  | l :: ls => match drop_blank_end ls with
               | [] => if is_blank l then [] else [l]
               | r => l :: r
               end
  end.
(** The lines of a section's body, up to the next heading. *)
Fixpoint section_body (ls : list string) : list string * list string :=
  match ls with
  | [] => ([], [])
  | l :: rest =>
      if starts_with "## " l then ([], ls)
      else let '(b, r) := section_body rest in (l :: b, r)
  end.
Fixpoint insert_rule (actor line : string) (ls : list string) : option (list string) :=
  match ls with
  | [] => None
  | l :: rest =>
      if decide (heading_word l = Some actor)
      then let '(body, after) := section_body rest in
           let kept := drop_blank_end body in
           Some (l :: kept ++ [line] ++ drop (length kept) body ++ after)
      else match insert_rule actor line rest with Some r => Some (l :: r) | None => None end
  end.
Definition with_allowance (today text actor rule : string) : string :=
  let line := allowance_line today rule +:+ NL in
  match insert_rule actor (trim_end line) (lines text) with
  | None => trim_end text +:+ NL +:+ NL +:+ "## " +:+ actor +:+ NL +:+ line
  | Some ls => join_with NL ls +:+ NL
  end.

(** ** The reviewer *)

Definition MAX_REVIEWED_ARGS_BYTES : nat := 4 * 1024.

Section Reviewer.
Context (json_text : Json -> string).
Definition quoted_name (o : option string) : string :=
  match o with Some n => " " +:+ String "034" n +:+ String "034" EmptyString | None => EmptyString end.

Definition reviewed_args (params : Json) : string :=
  let args := json_text params in
  if String.length args <=? MAX_REVIEWED_ARGS_BYTES then args
  else take_bytes (boundary_before args MAX_REVIEWED_ARGS_BYTES) args +:+ ELLIPSIS +:+ "(truncated)".
Definition reviewer_prompt (call : GatedCall) (policy_rules : string) : string :=
  let rules := if is_blank policy_rules then "(The owner has written no rules. Nothing is clearly permitted.)"
               else trim policy_rules in
  "Owner's policy for this actor:" +:+ NL +:+ "<policy>" +:+ NL +:+ rules +:+ NL +:+ "</policy>" +:+ NL +:+ NL
  +:+ "Acting for: " +:+ actor (gc_stamp call) +:+ quoted_name (actor_name (gc_stamp call))
  +:+ " (" +:+ trust_as_str (trust (gc_stamp call)) +:+ ")" +:+ NL
  +:+ "Action: tool `" +:+ gc_tool_name call +:+ "`" +:+ NL
  +:+ "Arguments (untrusted data):" +:+ NL +:+ "<arguments>" +:+ NL +:+ reviewed_args (gc_params call) +:+ NL +:+ "</arguments>".
Definition reply_prompt (stamp : ActingFor) (policy_rules reply : string) : string :=
  "Owner's policy for this actor:" +:+ NL +:+ "<policy>" +:+ NL +:+ trim policy_rules +:+ NL +:+ "</policy>" +:+ NL +:+ NL
  +:+ "The assistant is about to send this reply to " +:+ actor stamp +:+ " (" +:+ trust_as_str (trust stamp)
  +:+ "). Should it be sent?" +:+ NL +:+ "<reply>" +:+ NL +:+ reply +:+ NL +:+ "</reply>".
End Reviewer.

(** serde's reading of the answer object: the decision and the reason. *)
Definition AnswerReader : Type := string -> option (string * string).

(** [text[find('{')..=rfind('}')]]. *)
Fixpoint until_last (c : ascii) (s : string) : option string :=
  match s with
  | EmptyString => None
  | String a s =>
      match until_last c s with
      | Some r => Some (String a r)
      | None => if Ascii.eqb a c then Some (String a EmptyString) else None
      end
  end.
Definition json_part (text : string) : option string :=
  match split_once "{" text with
  | Some (_, rest) => match until_last "}" rest with Some body => Some (String "{" body) | None => None end
  | None => None
  end.
Definition parse_verdict (read_answer : AnswerReader) (text : string) : Verdict :=
  match json_part text with
  | None => VerdictAskOwner "the reviewer's answer could not be read"
  | Some j =>
      match read_answer j with
      | None => VerdictAskOwner "the reviewer's answer could not be read"
      | Some (decision, reason) =>
          let reason := if is_blank reason then "no reason given" else trim reason in
          let decision := trim decision in
          if String.eqb decision "allow" then VerdictAllow
          else if String.eqb decision "deny" then VerdictDeny reason
          else VerdictAskOwner reason
      end
  end.

(** ** Every rule reaches someone *)

Definition rule_words (p : Policy) : list string :=
  split_whitespace (defaults p) ++ concat (map (fun s => split_whitespace s.2) (sections p)).

Lemma rule_words_flush current buffer p :
  rule_words (flush_section current buffer p) ≡ₚ rule_words p ++ split_whitespace buffer.
Proof.
  unfold flush_section. destruct (bool_decide (trim buffer = EmptyString)) eqn:He.
  { apply bool_decide_eq_true in He. rewrite <- (split_whitespace_trim buffer), He.
    change (split_whitespace EmptyString) with (@nil string). by rewrite app_nil_r. }
  unfold rule_words. destruct current as [actor|]; cbn [defaults sections].
  - rewrite map_app, concat_app. cbn [map concat snd]. by rewrite split_whitespace_trim, app_nil_r, app_assoc.
  - destruct (bool_decide (defaults p = EmptyString)) eqn:Hd.
    + apply bool_decide_eq_true in Hd as ->. rewrite app_nil_l_str, split_whitespace_trim.
      change (split_whitespace EmptyString) with (@nil string). rewrite app_nil_l. apply Permutation_app_comm.
    + rewrite <- app_assoc_str. unfold NL. rewrite app_cons_str, app_nil_l_str, split_whitespace_line, split_whitespace_trim.
      rewrite <- !app_assoc. apply Permutation_app_head, Permutation_app_comm.
Qed.

Lemma split_whitespace_end_line s t : split_whitespace (s +:+ t +:+ NL) = split_whitespace (s +:+ t).
Proof. rewrite app_assoc_str. unfold NL. rewrite split_whitespace_line. apply app_nil_r. Qed.

(** The buffer is whole lines. *)
Definition whole_lines (buffer : string) : Prop := buffer = EmptyString \/ exists b, buffer = b +:+ NL.
Lemma whole_lines_app buffer line :
  whole_lines buffer -> split_whitespace (buffer +:+ line +:+ NL) = split_whitespace buffer ++ split_whitespace line.
Proof.
  intros H. rewrite split_whitespace_end_line. destruct H as [->|[b ->]]; [done|]. unfold NL.
  rewrite <- app_assoc_str, app_cons_str, app_nil_l_str, !split_whitespace_line.
  change (split_whitespace EmptyString) with (@nil string). by rewrite app_nil_r.
Qed.

Lemma rule_words_parse_lines current buffer p ls :
  whole_lines buffer ->
  rule_words (parse_lines current buffer p ls)
  ≡ₚ rule_words p ++ split_whitespace buffer ++ concat (map split_whitespace ls).
Proof.
  revert current buffer p. induction ls as [|l ls IH]; intros current buffer p Hb; cbn [parse_lines map concat].
  - rewrite rule_words_flush. by rewrite app_nil_r.
  - destruct (starts_with "## " l).
    + rewrite IH by (right; by eexists). rewrite rule_words_flush. rewrite <- (app_nil_l_str (l +:+ NL)) at 1.
      rewrite (whole_lines_app EmptyString l) by (by left). by rewrite <- !app_assoc.
    + rewrite IH by (right; exists (buffer +:+ l); by rewrite app_assoc_str).
      rewrite whole_lines_app by done. by rewrite <- !app_assoc.
Qed.

Lemma front_matter_no_rules ls p : rule_words (fold_left front_matter_line ls p) = rule_words p.
Proof.
  revert p. induction ls as [|l ls IH]; intros p; [done|]. cbn [fold_left]. rewrite IH.
  unfold front_matter_line. repeat case_match; done.
Qed.

Lemma sections_addresses current buffer p ls :
  (forall a, current = Some a -> is_actor_address a = true) ->
  Forall (fun s => is_actor_address s.1 = true) (sections p) ->
  Forall (fun s => is_actor_address s.1 = true) (sections (parse_lines current buffer p ls)).
Proof.
  assert (Hf : forall current buffer p, (forall a, current = Some a -> is_actor_address a = true) ->
    Forall (fun s => is_actor_address s.1 = true) (sections p) ->
    Forall (fun s => is_actor_address s.1 = true) (sections (flush_section current buffer p))).
  { intros c b q Hc Hq. unfold flush_section. destruct (bool_decide _); [done|]. destruct c; [|done]. cbn.
    apply Forall_app. split; [done|]. constructor; [by apply Hc|done]. }
  revert current buffer p. induction ls as [|l ls IH]; intros current buffer p Hc Hp; cbn [parse_lines]; [by apply Hf|].
  destruct (starts_with "## " l); apply IH; auto. intros a. unfold heading_actor. repeat case_match; naive_solver.
Qed.

(** Reading a policy loses no rule and invents none: the words of the
    defaults and of the actors' sections together are exactly the words of the
    file's lines outside comments and front matter, and every section is headed
    by an actor's address. *)
Theorem policy_keeps_every_rule text :
  let body := (split_front_matter (strip_comments text)).2 in
  split_whitespace (defaults (parse text)) ++ concat (map (fun s => split_whitespace s.2) (sections (parse text)))
    ≡ₚ concat (map split_whitespace (lines body))
  /\ Forall (fun s => is_actor_address s.1 = true) (sections (parse text)).
Proof.
  cbn zeta. unfold parse. assert (Hw : forall t, rule_words (split_front_matter t).1 = []
    /\ sections (split_front_matter t).1 = []).
  { intros t. unfold split_front_matter. repeat case_match; cbn [fst]; try done.
    split; [by rewrite front_matter_no_rules|].
    assert (Hs : forall ls p, sections (fold_left front_matter_line ls p) = sections p).
    { induction ls as [|x ls IH]; intros q; [done|]. cbn [fold_left]. rewrite IH. unfold front_matter_line. by repeat case_match. }
    by rewrite Hs. }
  destruct (Hw (strip_comments text)) as [Hr Hs]. destruct (split_front_matter (strip_comments text)) as [p body].
  cbn [fst snd] in *. split.
  - etrans; [apply (rule_words_parse_lines None EmptyString p); by left|]. by rewrite Hr.
  - apply sections_addresses; [done|]. by rewrite Hs.
Qed.
