(* ===== verification/Chain.v ===== *)
(** * Chain: hash-chained, append-only logs

    peko-rs/observability/src/chain.rs.  A chain's directory is a list of day
    files in order of their dates, each the text it holds; the writer's state
    is the day, the next sequence number and the hash of the last line.  The
    hash and serde's printing and reading of a record are an interface
    ([ChainRecords]) with the laws the code relies on. *)

From Stdlib Require Import ZArith Lia Ascii.
From stdpp Require Import base tactics list gmap strings sorting.
From S2P Require Import Prelude Text.

Local Open Scope nat_scope.

(** ** Lines *)

Definition QUOTE : string := String "034" EmptyString.
Definition HASH_OPEN : string := "," +:+ QUOTE +:+ "hash" +:+ QUOTE +:+ ":" +:+ QUOTE.
Definition HASH_CLOSE : string := QUOTE +:+ "}".
Definition HASH_SUFFIX_LEN : nat := 9 + 7 + 64 + 2.
Definition ZEROS : string := "0000000000000000000000000000000000000000000000000000000000000000".
Definition GENESIS_PREV : string := "sha256:" +:+ ZEROS.

Definition is_hexdigit (a : ascii) : bool :=
  let n := N_of_ascii a in
  ((48 <=? n) && (n <=? 57) || (65 <=? n) && (n <=? 70) || (97 <=? n) && (n <=? 102))%N.

Fixpoint trim_end_bytes (p : ascii -> bool) (s : string) : string :=
  match s with
  | EmptyString => EmptyString
  | String a s1 => if all_bytes p s then EmptyString else String a (trim_end_bytes p s1)
  end.
Definition is_line_end (a : ascii) : bool := Ascii.eqb a LF || Ascii.eqb a CR.

(** The hashed body and the stored hash of a line. *)
Definition split_line (raw : string) : option (string * string) :=
  let line := trim_end_bytes is_line_end raw in
  let n := String.length line - HASH_SUFFIX_LEN in
  if (String.length line <=? HASH_SUFFIX_LEN) || negb (is_char_boundary line n) then None
  else
    match strip_prefix HASH_OPEN (drop_bytes n line) with
    | None => None
    | Some rest =>
        match strip_suffix HASH_CLOSE rest with
        | None => None
        | Some hash =>
            match strip_prefix "sha256:" hash with
            | None => None
            | Some hex =>
                if (String.length hex =? 64) && all_bytes is_hexdigit hex
                then Some (take_bytes n line +:+ "}", hash) else None
            end
        end
    end.

(** The body without its closing brace, the hash and the brace again. *)
Definition sealed (body hash : string) : string :=
  take_bytes (String.length body - 1) body +:+ HASH_OPEN +:+ hash +:+ HASH_CLOSE.

(** What the chain needs of SHA-256 and of serde: a record printed with its
    sequence number and link, and the number and link read from a line ([None]:
    no JSON object). *)
Class ChainRecords (R : Type) := {
  hash_hex : string -> string;
  to_body : R -> Z -> string -> string;
  read_record : string -> option (option Z * string);
}.
Definition hash_body `{ChainRecords R} (body : string) : string := "sha256:" +:+ hash_hex body.

(** ** Files and the writer *)

Abbreviation Days := (list (Z * string)).

Record Writer := { date : Z; next_seq : Z; head_hash : string }.

Inductive Problem :=
  | Unreadable (file : Z) (line : nat)
  | BadHash (seq : Z)
  | BrokenLink (seq : Z)
  | SeqGap (expected found : Z)
  | CheckpointMismatch (seq : Z)
  | Truncated (checkpoint_seq : Z) (last_seq : option Z).

Record VerifyReport := {
  records : nat;
  first_seq : option Z;
  last_seq : option Z;
  report_head : option string;
  problems : list Problem;
}.

Section Chain.
Context `{C : ChainRecords R}.

(** A day's file, appended to; created when it is not there. *)
Fixpoint append_text (days : Days) (day : Z) (text : string) : Days :=
  match days with
  | [] => [(day, text)]
  | (d, t) :: rest =>
      if (d =? day)%Z then (d, t +:+ text) :: rest
      else if (day <? d)%Z then (day, text) :: days
      else (d, t) :: append_text rest day text
  end.

(** [append]: the line and the writer after it. *)
Definition new_line (w : Writer) (r : R) : string :=
  let body := to_body r (next_seq w) (head_hash w) in sealed body (hash_body body).
Definition advance (w : Writer) (today : Z) (r : R) : Writer :=
  {| date := today; next_seq := (next_seq w + 1)%Z;
     head_hash := hash_body (to_body r (next_seq w) (head_hash w)) |}.
Definition append (days : Days) (w : Writer) (today : Z) (r : R) : Days * Writer :=
  (append_text days today (new_line w r +:+ String LF EmptyString), advance w today r).

(** A write that fails after [k] bytes: an error, the writer as it was. *)
Definition append_cut (days : Days) (w : Writer) (today : Z) (r : R) (k : nat) : Days * Writer :=
  (append_text days today (take_bytes k (new_line w r +:+ String LF EmptyString)),
   {| date := today; next_seq := next_seq w; head_hash := head_hash w |}).

(** [last_intact_in]. *)
Definition intact_line (raw : string) : option (Z * string) :=
  match split_line raw with
  | None => None
  | Some (_, hash) =>
      match read_record raw with
      | Some (Some seq, _) => Some (seq, hash)
      | _ => None
      end
  end.
Definition last_intact_in (text : string) : option (Z * string) := last (omap intact_line (lines text)).

(** The last byte of a file is a line break, or one is added. *)
Fixpoint ends_line (s : string) : bool :=
  match s with
  | EmptyString => true
  | String a EmptyString => Ascii.eqb a LF
  | String _ s => ends_line s
  end.
Definition close_torn_tail (text : string) : string :=
  if ends_line text then text else text +:+ String LF EmptyString.

(** Newest file first; every file looked at is closed. *)
Fixpoint last_intact (newest_first : Days) : option (Z * string) * Days :=
  match newest_first with
  | [] => (None, [])
  | (d, t) :: rest =>
      let t := close_torn_tail t in
      match last_intact_in t with
      | Some last => (Some last, (d, t) :: rest)
      | None => let '(r, rest) := last_intact rest in (r, (d, t) :: rest)
      end
  end.

Definition open (days : Days) (today : Z) : Days * Writer :=
  let '(found, closed) := last_intact (rev days) in
  let days := append_text (rev closed) today EmptyString in
  (days, match found with
         | Some (seq, hash) => {| date := today; next_seq := (seq + 1)%Z; head_hash := hash |}
         | None => {| date := today; next_seq := 0; head_hash := GENESIS_PREV |}
         end).

(** ** Verification *)

Record StoredLine := { file : Z; line : nat; raw : string }.
Fixpoint number_lines (file : Z) (n : nat) (ls : list string) : list StoredLine :=
  match ls with
  | [] => []
  | l :: ls =>
      (if String.eqb l EmptyString then [] else [{| file := file; line := n; raw := l |}])
        ++ number_lines file (S n) ls
  end.
Definition read_all (days : Days) : list StoredLine :=
  concat (map (fun '(d, t) => number_lines d 1 (lines t)) days).

(** The line's sequence number, link, body and hash, when it is an intact
    chained record. *)
Definition chained (s : StoredLine) : option (Z * string * string * string) :=
  match read_record (raw s), split_line (raw s) with
  | Some (Some seq, prev), Some (body, hash) => Some (seq, prev, body, hash)
  | _, _ => None
  end.

Definition link_problems (starts : list string) (previous : option (Z * string)) (seq : Z) (prev : string) : list Problem :=
  match previous with
  | None => if existsb (fun s => String.eqb s prev) starts then [] else [BrokenLink seq]
  | Some (last_seq, last_hash) =>
      (if (seq =? last_seq + 1)%Z then [] else [SeqGap (last_seq + 1) seq])
        ++ (if String.eqb prev last_hash then [] else [BrokenLink seq])
  end.
Definition line_problems (starts : list string) (checkpoints : gmap Z string) (previous : option (Z * string))
    (l : Z * string * string * string) : list Problem :=
  let '(seq, prev, body, hash) := l in
  (if String.eqb (hash_body body) hash then [] else [BadHash seq])
    ++ link_problems starts previous seq prev
    ++ match checkpoints !! seq with
       | Some expected => if String.eqb expected hash then [] else [CheckpointMismatch seq]
       | None => []
       end.

Fixpoint walk (starts : list string) (checkpoints : gmap Z string) (previous : option (Z * string)) (rep : VerifyReport)
    (ls : list StoredLine) : VerifyReport :=
  match ls with
  | [] => rep
  | s :: ls =>
      match chained s with
      | None =>
          walk starts checkpoints previous
            {| records := records rep; first_seq := first_seq rep; last_seq := last_seq rep;
               report_head := report_head rep; problems := problems rep ++ [Unreadable (file s) (line s)] |} ls
      | Some ((seq, _, _, hash) as l) =>
          walk starts checkpoints (Some (seq, hash))
            {| records := S (records rep); first_seq := or_else (first_seq rep) (Some seq); last_seq := Some seq;
               report_head := Some hash; problems := problems rep ++ line_problems starts checkpoints previous l |} ls
      end
  end.

Definition empty_report : VerifyReport :=
  {| records := 0; first_seq := None; last_seq := None; report_head := None; problems := [] |}.

Definition max_key (checkpoints : gmap Z string) : option Z :=
  foldr (fun '(k, _) m => match m with Some n => Some (Z.max k n) | None => Some k end) None (map_to_list checkpoints).

Definition verify_lines (starts : list string) (checkpoints : gmap Z string) (ls : list StoredLine) : VerifyReport :=
  let rep := walk starts checkpoints None empty_report ls in
  match max_key checkpoints with
  | Some c =>
      if match last_seq rep with None => true | Some last => (last <? c)%Z end
      then {| records := records rep; first_seq := first_seq rep; last_seq := last_seq rep; report_head := report_head rep;
              problems := problems rep ++ [Truncated c (last_seq rep)] |}
      else rep
  | None => rep
  end.
Definition verify (days : Days) (starts : list string) (checkpoints : gmap Z string) : VerifyReport :=
  verify_lines starts checkpoints (read_all days).
Definition is_intact (r : VerifyReport) : bool := match problems r with [] => true | _ => false end.

(** ** Pruning *)

(** Days before [cutoff], never today's, are deleted; the anchor is the last
    intact line deleted. *)
Fixpoint prune_days (days : Days) (cutoff today : Z) (anchor : option (Z * string)) : option (Z * string) * Days :=
  match days with
  | [] => (anchor, [])
  | (d, t) :: rest =>
      if ((cutoff <=? d) || (today <=? d))%Z then (anchor, days)
      else prune_days rest cutoff today (or_else (last_intact_in t) anchor)
  end.
Definition prune_before (days : Days) (cutoff today : Z) : option (Z * string) * Days := prune_days days cutoff today None.

(** ** What serde and the hash give *)

Definition is_hash (h : string) : Prop :=
  exists hex, h = "sha256:" +:+ hex /\ String.length hex = 64 /\ all_bytes is_hexdigit hex = true.

End Chain.

Class ChainLaws (R : Type) (C : ChainRecords R) : Prop := {
  (** SHA-256 in hexadecimal. *)
  hash_hex_shape : forall s, String.length (hash_hex s) = 64 /\ all_bytes is_hexdigit (hash_hex s) = true;
  (** A record is printed as one object on one line. *)
  body_shape : forall r n p, is_hash p -> exists b, to_body r n p = String "{" b +:+ "}"
                 /\ str_has LF b = false /\ str_has CR b = false;
  (** A printed record reads back, with the hash added as its last field. *)
  read_sealed : forall r n p h, (0 <= n)%Z -> is_hash p -> is_hash h ->
    read_record (sealed (to_body r n p) h) = Some (Some n, p);
  (** White space after an object is ignored. *)
  read_trimmed : forall a b, trim_end_bytes is_line_end a = trim_end_bytes is_line_end b -> read_record a = read_record b;
  (** An object cut short is no JSON. *)
  read_cut : forall r n p h k, (0 <= n)%Z -> is_hash p -> is_hash h ->
    k < String.length (sealed (to_body r n p) h) -> read_record (take_bytes k (sealed (to_body r n p) h)) = None;
}.

(** ** Lemmas on text *)

Lemma all_bytes_app_str p s t : all_bytes p (s +:+ t) = all_bytes p s && all_bytes p t.
Proof. induction s as [|a s IH]; [done|]. rewrite app_cons_str. cbn [all_bytes]. by rewrite IH, andb_assoc. Qed.

Lemma trim_end_bytes_id p s c : p c = false -> trim_end_bytes p (s +:+ String c EmptyString) = s +:+ String c EmptyString.
Proof.
  intros H. induction s as [|a s IH].
  - rewrite app_nil_l_str. cbn [trim_end_bytes all_bytes]. by rewrite H.
  - rewrite app_cons_str. cbn [trim_end_bytes]. rewrite IH. destruct (all_bytes _ _) eqn:E; [|done].
    cbn [all_bytes] in E. rewrite all_bytes_app_str in E. cbn in E. rewrite H in E. by rewrite !andb_false_r in E.
Qed.

(** ** Lines *)

Section Lines.
Context `{C : ChainRecords R} `{L : !ChainLaws R C}.

Lemma hash_body_is_hash b : is_hash (hash_body b).
Proof. exists (hash_hex b). split; [done|]. apply hash_hex_shape. Qed.
Lemma genesis_is_hash : is_hash GENESIS_PREV.
Proof. by exists ZEROS. Qed.
Lemma is_hash_length h : is_hash h -> String.length h = 71.
Proof. intros (hex & -> & Hl & _). rewrite length_app_str. cbn. lia. Qed.

Lemma sealed_app b h : sealed (b +:+ "}") h = b +:+ HASH_OPEN +:+ h +:+ HASH_CLOSE.
Proof.
  unfold sealed. rewrite length_app_str. change (String.length "}") with 1.
  replace (String.length b + 1 - 1) with (String.length b) by lia. by rewrite take_bytes_app.
Qed.

Lemma sealed_trim b h : trim_end_bytes is_line_end (sealed (b +:+ "}") h) = sealed (b +:+ "}") h.
Proof.
  rewrite sealed_app. unfold HASH_CLOSE. rewrite !app_assoc_str. by apply trim_end_bytes_id.
Qed.

Lemma split_sealed b h : b <> EmptyString -> is_hash h -> split_line (sealed (b +:+ "}") h) = Some (b +:+ "}", h).
Proof.
  intros Hb Hh. pose proof (is_hash_length h Hh) as Hl. destruct Hh as (hex & -> & Hx & Hd).
  unfold split_line. rewrite sealed_trim, sealed_app. cbn zeta.
  assert (Hs : String.length (b +:+ HASH_OPEN +:+ ("sha256:" +:+ hex) +:+ HASH_CLOSE) = String.length b + HASH_SUFFIX_LEN).
  { rewrite !length_app_str. change (String.length HASH_OPEN) with 9. change (String.length HASH_CLOSE) with 2.
    change (String.length "sha256:") with 7. unfold HASH_SUFFIX_LEN. lia. }
  rewrite Hs. replace (String.length b + HASH_SUFFIX_LEN - HASH_SUFFIX_LEN) with (String.length b) by lia.
  destruct (Nat.leb_spec (String.length b + HASH_SUFFIX_LEN) HASH_SUFFIX_LEN) as [Hle|_]; [destruct b; [done|cbn in Hle; lia]|].
  assert (Hc : is_char_boundary (b +:+ HASH_OPEN +:+ ("sha256:" +:+ hex) +:+ HASH_CLOSE) (String.length b) = true).
  { unfold is_char_boundary. rewrite drop_bytes_app. apply orb_true_r. }
  rewrite Hc, drop_bytes_app, take_bytes_app. cbn [negb orb].
  rewrite strip_prefix_app. rewrite (proj2 (strip_suffix_Some _ _ ("sha256:" +:+ hex)) eq_refl).
  rewrite strip_prefix_app, Hx, Hd. done.
Qed.

Lemma split_line_inv raw body hash :
  split_line raw = Some (body, hash) ->
  is_hash hash /\ exists b, body = b +:+ "}" /\ trim_end_bytes is_line_end raw = b +:+ HASH_OPEN +:+ hash +:+ HASH_CLOSE.
Proof.
  unfold split_line. intros H. set (line := trim_end_bytes is_line_end raw) in *. set (n := String.length line - HASH_SUFFIX_LEN) in *.
  destruct (_ || _); [done|]. destruct (strip_prefix HASH_OPEN _) as [rest|] eqn:E1; [|done].
  destruct (strip_suffix HASH_CLOSE rest) as [h|] eqn:E2; [|done].
  destruct (strip_prefix "sha256:" h) as [hex|] eqn:E3; [|done].
  destruct (_ && _) eqn:E4; [|done]. simplify_eq. apply strip_prefix_Some in E1, E3. apply strip_suffix_Some in E2. subst.
  apply andb_true_iff in E4 as [Hl%Nat.eqb_eq Hd]. split; [by exists hex|].
  exists (take_bytes n line). split; [done|]. rewrite <- E1. by rewrite take_drop_bytes.
Qed.

(** The line a writer appends is an intact record with its number and link. *)
Lemma new_line_shape w r :
  is_hash (head_hash w) -> exists b, to_body r (next_seq w) (head_hash w) = b +:+ "}" /\ b <> EmptyString /\ str_has LF b = false /\ str_has CR b = false.
Proof.
  intros Hh. destruct (body_shape r (next_seq w) (head_hash w) Hh) as (b & Hb & H1 & H2). exists (String "{" b).
  split_and!; [done|done|..]; cbn [str_has]; by rewrite decide_False.
Qed.
Lemma hex_has c hex : is_hexdigit c = false -> all_bytes is_hexdigit hex = true -> str_has c hex = false.
Proof.
  intros Hc. induction hex as [|a s IH]; [done|]. cbn [all_bytes str_has]. intros [Ha Hs]%andb_true_iff.
  case_decide; [congruence|by apply IH].
Qed.
Lemma str_has_hash c h : is_hash h -> c = LF \/ c = CR -> str_has c h = false.
Proof.
  intros (hex & -> & _ & Hd) Hc. rewrite str_has_app.
  destruct Hc as [-> | ->]; rewrite (hex_has _ hex) by done; reflexivity.
Qed.
End Lines.

(** ** Tampering shows *)

Section Tamper.
Context `{C : ChainRecords R} `{L : !ChainLaws R C}.

Abbreviation Cell := (Z * string * string * string)%type.

(** The cells of a log found intact: each line's hash is its body's, and each
    links to the line before it, the first to a start. *)
Definition linked_to (starts : list string) (previous : option (Z * string)) (prev : string) : Prop :=
  match previous with None => prev ∈ starts | Some (_, h) => prev = h end.
Inductive links (starts : list string) : option (Z * string) -> list Cell -> Prop :=
| links_nil p : links starts p []
| links_cons p seq prev body hash cells :
    hash_body body = hash -> linked_to starts p prev ->
    links starts (Some (seq, hash)) cells -> links starts p ((seq, prev, body, hash) :: cells).

Lemma walk_problems starts cps p rep ls : problems rep `prefix_of` problems (walk starts cps p rep ls).
Proof.
  revert p rep. induction ls as [|s ls IH]; intros p rep; [done|]. cbn [walk].
  destruct (chained s) as [[[[seq prev] body] hash]|]; (etrans; [|apply IH]; by eexists).
Qed.
Lemma no_problems_before starts cps p rep ls : problems (walk starts cps p rep ls) = [] -> problems rep = [].
Proof. intros H. pose proof (walk_problems starts cps p rep ls) as Hp. rewrite H in Hp. by apply prefix_nil_inv in Hp. Qed.

Lemma walk_links starts cps p rep ls :
  problems (walk starts cps p rep ls) = [] ->
  exists cells, map chained ls = map Some cells /\ links starts p cells
    /\ report_head (walk starts cps p rep ls) = or_else (option_map snd (last cells)) (report_head rep).
Proof.
  revert p rep. induction ls as [|s ls IH]; intros p rep H.
  { exists []. split_and!; [done|apply links_nil|reflexivity]. }
  cbn [walk map] in *. destruct (chained s) as [[[[seq prev] body] hash]|] eqn:Hc.
  2:{ apply no_problems_before in H. cbn in H. by destruct (problems rep). }
  pose proof (no_problems_before _ _ _ _ _ H) as Hp. cbn [problems] in Hp. apply app_eq_nil in Hp as [_ Hp].
  cbn [line_problems] in Hp. apply app_eq_nil in Hp as [Hh Hp]. apply app_eq_nil in Hp as [Hl _].
  destruct (String.eqb (hash_body body) hash) eqn:Eh; [|done]. apply String.eqb_eq in Eh.
  apply IH in H as (cells & Hm & Hli & Hr). exists ((seq, prev, body, hash) :: cells). split_and!.
  - cbn. by rewrite Hm.
  - constructor; [done| |done]. unfold link_problems in Hl. destruct p as [[ls' lh]|]; cbn.
    + apply app_eq_nil in Hl as [_ Hl]. destruct (String.eqb prev lh) eqn:E; [|done]. by apply String.eqb_eq in E.
    + destruct (existsb _ starts) eqn:E; [|done]. apply existsb_exists in E as (x & Hx & ->%String.eqb_eq). by apply list_elem_of_In.
  - rewrite Hr, last_cons. by destruct (last cells).
Qed.

Lemma links_snoc starts p cells c :
  links starts p (cells ++ [c]) ->
  links starts p cells /\ hash_body c.1.2 = c.2
  /\ linked_to starts (match last cells with Some (seq, _, _, h) => Some (seq, h) | None => p end) c.1.1.2.
Proof.
  revert p. induction cells as [|[[[seq prev] body] hash] cells IH]; intros p H; inversion H; subst; cbn.
  - split_and!; [constructor|done|done].
  - match goal with Hi : links _ _ (_ ++ [c]) |- _ => apply IH in Hi as (Hc & Hh & Hl) end.
    split_and!; [by constructor|done|]. rewrite last_cons. by destruct (last cells) as [[[[? ?] ?] ?]|].
Qed.

(** A line's number and link are read off its body and hash. *)
Lemma chained_det s s' seq prev seq' prev' body hash :
  chained s = Some (seq, prev, body, hash) -> chained s' = Some (seq', prev', body, hash) ->
  trim_end_bytes is_line_end (raw s) = trim_end_bytes is_line_end (raw s') /\ seq = seq' /\ prev = prev'.
Proof.
  unfold chained. intros H H'.
  destruct (read_record (raw s)) as [[[q|] pv]|] eqn:E1; try done.
  destruct (split_line (raw s)) as [[b h]|] eqn:E2; [|done]. simplify_eq.
  destruct (read_record (raw s')) as [[[q'|] pv']|] eqn:E1'; try done.
  destruct (split_line (raw s')) as [[b' h']|] eqn:E2'; [|done]. simplify_eq.
  apply split_line_inv in E2 as (_ & b & -> & Hb). apply split_line_inv in E2' as (_ & b' & Heq & Hb').
  apply app_inj_r_str in Heq. subst b'. rewrite Hb, Hb'. split; [done|].
  pose proof (read_trimmed (raw s) (raw s') ltac:(congruence)) as Hr. rewrite E1, E1' in Hr. by simplify_eq.
Qed.

(** [b] is the body of one of the lines. *)
Definition has_body (ls : list StoredLine) (b : string) : Prop :=
  exists s seq prev hash, s ∈ ls /\ chained s = Some (seq, prev, b, hash).
(** The two logs themselves exhibit the break: two different bodies, one of
    each, with one hash, or a body of one whose hash is a start of the chain. *)
Definition hash_broken (starts : list string) (ls ls' : list StoredLine) : Prop :=
  (exists b b', has_body ls b /\ has_body ls' b' /\ b <> b' /\ hash_body b = hash_body b')
  \/ exists b, (has_body ls b \/ has_body ls' b) /\ hash_body b ∈ starts.

Lemma has_body_last ls s seq prev b hash : chained s = Some (seq, prev, b, hash) -> has_body (ls ++ [s]) b.
Proof. exists s, seq, prev, hash. split; [set_solver|done]. Qed.
Lemma has_body_app ls s b : has_body ls b -> has_body (ls ++ [s]) b.
Proof. intros (s' & q & p & h & Hs & Hc). exists s', q, p, h. split; [set_solver|done]. Qed.
Lemma has_body_cells ls cells seq prev b hash :
  map chained ls = map Some (cells ++ [(seq, prev, b, hash)]) -> has_body ls b.
Proof.
  destruct ls as [|s ls _] using rev_ind; rewrite map_app; [by destruct cells|].
  rewrite map_app. intros [_ H]%app_inj_tail. by eapply has_body_last.
Qed.
Lemma hash_broken_app starts ls ls' s s' :
  hash_broken starts ls ls' -> hash_broken starts (ls ++ [s]) (ls' ++ [s']).
Proof.
  intros [(b & b' & H & H' & Hd)|(b & [H|H] & Hs)].
  - left. exists b, b'. eauto using has_body_app.
  - right. exists b. eauto using has_body_app.
  - right. exists b. eauto using has_body_app.
Qed.

Definition line_text (s : StoredLine) : string := trim_end_bytes is_line_end (raw s).

Lemma links_agree starts (ls ls' : list StoredLine) cells cells' :
  map chained ls = map Some cells -> map chained ls' = map Some cells' ->
  links starts None cells -> links starts None cells' ->
  cells <> [] -> cells' <> [] -> option_map snd (last cells) = option_map snd (last cells') ->
  map line_text ls = map line_text ls' \/ hash_broken starts ls ls'.
Proof.
  revert ls ls' cells'. induction cells as [|c cells IH] using rev_ind; intros ls ls' cells' Hm Hm' Hl Hl' Hn Hn' Hlast; [done|].
  destruct cells' as [|c' cells' _] using rev_ind; [done|]. clear Hn Hn'.
  rewrite map_app in Hm, Hm'. cbn [map] in Hm, Hm'.
  destruct ls as [|s ls _] using rev_ind; [by destruct (map Some cells)|].
  destruct ls' as [|s' ls' _] using rev_ind; [by destruct (map Some cells')|].
  rewrite map_app in Hm, Hm'. cbn [map] in Hm, Hm'.
  apply app_inj_tail in Hm as [Hm Hs]. apply app_inj_tail in Hm' as [Hm' Hs'].
  apply links_snoc in Hl as (Hl & Hh & Hk). apply links_snoc in Hl' as (Hl' & Hh' & Hk').
  rewrite !last_snoc in Hlast. cbn in Hlast. injection Hlast as Hlast.
  destruct c as [[[seq prev] body] hash], c' as [[[seq' prev'] body'] hash']. cbn [fst snd] in *. subst hash'.
  destruct (decide (body = body')) as [->|Hne].
  2:{ right. left. exists body, body'. split_and!; [by eapply has_body_last..|done|congruence]. }
  rewrite <- Hh in Hs. destruct (chained_det s s' _ _ _ _ _ _ Hs Hs') as (Ht & -> & ->).
  rewrite !map_app. cbn [map]. unfold line_text at 2 4. rewrite Ht.
  destruct (decide (cells = [])) as [->|Hc], (decide (cells' = [])) as [->|Hc'].
  - left. apply fmap_nil_inv in Hm, Hm'. by subst.
  - right. right. cbn in Hk. destruct (last cells') as [[[[q pv] b] h]|] eqn:E; [|by apply last_None in E].
    cbn in Hk'. subst. apply last_Some in E as [l' ->]. apply links_snoc in Hl' as (_ & Hb & _). cbn in Hb.
    exists b. rewrite Hb. split; [right; apply has_body_app; by eapply has_body_cells|done].
  - right. right. cbn in Hk'. destruct (last cells) as [[[[q pv] b] h]|] eqn:E; [|by apply last_None in E].
    cbn in Hk. subst. apply last_Some in E as [l' ->]. apply links_snoc in Hl as (_ & Hb & _). cbn in Hb.
    exists b. rewrite Hb. split; [left; apply has_body_app; by eapply has_body_cells|done].
  - destruct (IH ls ls' cells' Hm Hm' Hl Hl' Hc Hc') as [Heq|]; [|left; by rewrite Heq|right; by apply hash_broken_app].
    destruct (last cells) as [[[[q pv] b] h]|] eqn:E; [|by apply last_None in E].
    destruct (last cells') as [[[[q' pv'] b'] h']|] eqn:E'; [|by apply last_None in E']. cbn in *. congruence.
Qed.

(** C8. The head of a log pins the whole log: two directories that both
    verify as intact from the same starts and end in the same hash hold the same
    lines, line by line, unless the two logs themselves break the hash: a body
    of each, different, with one hash, or a body whose hash is one of the starts.  Whoever edits, inserts, deletes or
    reorders lines and keeps the log intact must change its head. *)
Theorem intact_logs_agree starts cps cps' (days days' : Days) h :
  problems (verify days starts cps) = [] -> problems (verify days' starts cps') = [] ->
  report_head (verify days starts cps) = Some h -> report_head (verify days' starts cps') = Some h ->
  map line_text (read_all days) = map line_text (read_all days')
  \/ hash_broken starts (read_all days) (read_all days').
Proof.
  assert (Hw : forall c d, problems (verify d starts c) = [] -> report_head (verify d starts c) = Some h ->
    exists cells, map chained (read_all d) = map Some cells /\ links starts None cells /\ cells <> []
                  /\ option_map snd (last cells) = Some h).
  { intros c d Hp Hh. unfold verify, verify_lines in *.
    assert (Hp' : problems (walk starts c None empty_report (read_all d)) = []
                  /\ report_head (walk starts c None empty_report (read_all d)) = Some h).
    { destruct (max_key c); [|done]. destruct (match last_seq _ with Some _ => _ | None => _ end); [|done].
      cbn in Hp. by destruct (problems _). }
    destruct Hp' as [Hp' Hr]. apply walk_links in Hp' as (cells & Hm & Hl & Hr'). rewrite Hr in Hr'. exists cells.
    cbn in Hr'. split_and!; [done..|by intros ->|by destruct (option_map snd (last cells))]. }
  intros H1 H2 H3 H4. destruct (Hw _ _ H1 H3) as (cells & Hm & Hl & Hn & He).
  destruct (Hw _ _ H2 H4) as (cells' & Hm' & Hl' & Hn' & He'). eapply links_agree; eauto. congruence.
Qed.
End Tamper.

(** ** Writing, crashing and reopening *)

Lemma end_lines_app a b : b <> [] -> end_lines (a ++ b) = map drop_last_cr a ++ end_lines b.
Proof.
  intros Hb. induction a as [|x a IH]; [done|]. cbn [app map]. rewrite <- IH. destruct (a ++ b) eqn:E; [|done].
  by apply app_eq_nil in E as [-> ->].
Qed.
Lemma ends_line_split t : ends_line t = true -> t = EmptyString \/ exists t', t = t' +:+ String LF EmptyString.
Proof.
  induction t as [|a t IH]; [by left|]. intros H. right. cbn in H. destruct t as [|b t].
  - apply Ascii.eqb_eq in H as ->. by exists EmptyString.
  - destruct (IH H) as [|[t' ->]]; [done|]. by exists (String a t').
Qed.
Lemma lines_app t s : ends_line t = true -> lines (t +:+ s) = lines t ++ lines s.
Proof.
  intros [->|[t' ->]]%ends_line_split; [done|]. unfold lines. rewrite <- app_assoc_str, app_cons_str, app_nil_l_str.
  rewrite !split_lines_app, !end_lines_app by apply split_lines_not_nil. by rewrite <- app_assoc.
Qed.
Lemma ends_line_app t s : ends_line (t +:+ s +:+ String LF EmptyString) = true.
Proof.
  rewrite app_assoc_str. generalize (t +:+ s). clear. intros s. induction s as [|a s IH]; [done|].
  rewrite app_cons_str. cbn [ends_line]. destruct (s +:+ _) eqn:E; [|done]. by destruct s.
Qed.
Lemma number_lines_app f n a b : number_lines f n (a ++ b) = number_lines f n a ++ number_lines f (n + length a) b.
Proof.
  revert n. induction a as [|x a IH]; intros n; cbn [app number_lines length]; [by rewrite Nat.add_0_r|].
  rewrite IH, <- app_assoc. by rewrite Nat.add_succ_r.
Qed.

Section Log.
Context `{C : ChainRecords R} `{L : !ChainLaws R C}.
Implicit Types (days : Days) (w : Writer).

Definition cell_head (c : Z * string * string * string) : Z * string := (c.1.1.1, c.2).

(** A directory whose files are in order, each ending its last line, none
    after [today]. *)
Definition tidy days (today : Z) : Prop :=
  StronglySorted Z.lt (map fst days) /\ Forall (fun d => d <= today)%Z (map fst days)
  /\ Forall (fun dt => ends_line dt.2 = true) days.

Lemma tidy_later days t t' : tidy days t -> (t <= t')%Z -> tidy days t'.
Proof. intros (Hs & Hd & He) Ht. split_and!; try done. eapply Forall_impl; [done|]. cbn. lia. Qed.

(** Appending at the end of a tidy directory: to today's file, which comes
    last, or to a new one. *)
Lemma append_text_before before today t x :
  Forall (fun d => d < today)%Z (map fst before) ->
  append_text before today x = before ++ [(today, x)]
  /\ append_text (before ++ [(today, t)]) today x = before ++ [(today, t +:+ x)].
Proof.
  induction before as [|[d s] before IH]; cbn [map app append_text]; intros H; [by rewrite Z.eqb_refl|].
  apply Forall_cons in H as [Hd H]. cbn in Hd. destruct (IH H) as [-> ->].
  destruct (Z.eqb_spec d today); [lia|]. by destruct (Z.ltb_spec today d); [lia|].
Qed.

Lemma tidy_last days today :
  tidy days today ->
  exists before t, (days = before ++ [(today, t)] \/ days = before /\ t = EmptyString)
    /\ ends_line t = true /\ Forall (fun d => d < today)%Z (map fst before)
    /\ Forall (fun dt => ends_line dt.2 = true) before /\ StronglySorted Z.lt (map fst before).
Proof.
  intros (Hs & Hd & He). destruct days as [|[d t] days _] using rev_ind.
  { exists [], EmptyString. split_and!; auto; constructor. }
  rewrite map_app in Hs, Hd. cbn [map fst] in Hs, Hd.
  apply Forall_app in Hd as [Hd Hdt], He as [He Het]. apply Forall_cons in Hdt as [Hdt _], Het as [Het _]. cbn in Het.
  assert (Hlt : Forall (fun x => x < d)%Z (map fst days)).
  { apply Forall_forall. intros x Hx. eapply (StronglySorted_app_1_elem_of _ (map fst days) [d]); [done|done|set_solver]. }
  destruct (decide (d = today)) as [->|Hne].
  - exists days, t. split_and!; auto. by apply StronglySorted_app_1_l in Hs.
  - exists (days ++ [(d, t)]), EmptyString. rewrite map_app. cbn [map fst].
    split_and!; auto.
    + apply Forall_app. split; [eapply Forall_impl; [exact Hlt|cbn; lia]|constructor; [lia|done]].
    + apply Forall_app. split; [done|by constructor].
Qed.

Lemma tidy_snoc before today t :
  Forall (fun d => d < today)%Z (map fst before) -> Forall (fun dt => ends_line dt.2 = true) before ->
  StronglySorted Z.lt (map fst before) -> ends_line t = true -> tidy (before ++ [(today, t)]) today.
Proof.
  intros Hl He Hs Ht. unfold tidy. rewrite map_app. cbn [map fst]. split_and!.
  - apply StronglySorted_app. split_and!; [|done|repeat constructor].
    intros x y Hx Hy. apply list_elem_of_singleton in Hy as ->. by eapply Forall_forall in Hl.
  - apply Forall_app. split; [eapply Forall_impl; [exact Hl|cbn; lia]|by constructor; [lia|]].
  - apply Forall_app. split; [done|by constructor].
Qed.

Lemma read_all_snoc before today t : read_all (before ++ [(today, t)]) = read_all before ++ number_lines today 1 (lines t).
Proof. unfold read_all. rewrite map_app, concat_app. cbn. by rewrite app_nil_r. Qed.

(** A line appended to a tidy directory is read after all others. *)
Lemma append_line days today l :
  tidy days today -> l <> EmptyString -> str_has LF l = false -> str_has CR l = false ->
  tidy (append_text days today (l +:+ String LF EmptyString)) today
  /\ exists n, read_all (append_text days today (l +:+ String LF EmptyString))
               = read_all days ++ [{| file := today; line := n; raw := l |}].
Proof.
  intros Ht Hn Hl Hc. destruct (tidy_last days today Ht) as (before & t & Hd & He & Hb & Hbe & Hbs).
  destruct (append_text_before before today t (l +:+ String LF EmptyString) Hb) as [H1 H2].
  assert (Ha : append_text days today (l +:+ String LF EmptyString) = before ++ [(today, t +:+ (l +:+ String LF EmptyString))])
    by (by destruct Hd as [->|[-> ->]]).
  rewrite Ha. split; [apply tidy_snoc; auto using ends_line_app|].
  assert (Hr : read_all days = read_all before ++ number_lines today 1 (lines t)).
  { destruct Hd as [->|[-> ->]]; [apply read_all_snoc|cbn; by rewrite app_nil_r]. }
  exists (1 + length (lines t)). rewrite read_all_snoc, Hr, lines_app, number_lines_app, lines_one by done.
  cbn [number_lines]. apply String.eqb_neq in Hn. rewrite Hn. by rewrite <- app_assoc.
Qed.

Lemma append_nothing days today :
  tidy days today -> tidy (append_text days today EmptyString) today
  /\ read_all (append_text days today EmptyString) = read_all days.
Proof.
  intros Ht. destruct (tidy_last days today Ht) as (before & t & Hd & He & Hb & Hbe & Hbs).
  destruct (append_text_before before today t EmptyString Hb) as [H1 H2]. rewrite app_nil_r_str in H2.
  destruct Hd as [->|[-> ->]]; [rewrite H2; split; [by apply tidy_snoc|done]|].
  rewrite H1. split; [by apply tidy_snoc|]. rewrite read_all_snoc. apply app_nil_r.
Qed.

(** ** Resuming *)

Lemma intact_chained f n raw : intact_line raw = option_map cell_head (chained {| file := f; line := n; raw := raw |}).
Proof. unfold intact_line, chained. cbn. destruct (split_line raw) as [[b h]|]; by destruct (read_record raw) as [[[]]|]. Qed.
Lemma omap_intact f n ls : omap intact_line ls = map cell_head (omap chained (number_lines f n ls)).
Proof.
  revert n. induction ls as [|l ls IH]; intros n; [done|]. cbn [number_lines].
  destruct (String.eqb l EmptyString) eqn:E.
  - apply String.eqb_eq in E as ->. cbn [app]. rewrite <- IH. done.
  - cbn [app omap list_omap]. rewrite (intact_chained f n l). destruct (chained _); cbn [option_map map]; by rewrite (IH (S n)).
Qed.

(** Only the newest file may be torn. *)
Lemma last_intact_spec days d t :
  Forall (fun dt => ends_line dt.2 = true) days ->
  last_intact (rev (days ++ [(d, t)]))
  = (last (map cell_head (omap chained (read_all (days ++ [(d, close_torn_tail t)])))), rev (days ++ [(d, close_torn_tail t)])).
Proof.
  revert d t. induction days as [|[d' t'] days IH] using rev_ind; intros d t He.
  - unfold last_intact, read_all, last_intact_in. cbn. rewrite app_nil_r, (omap_intact d 1).
    by destruct (last (map cell_head _)).
  - apply Forall_app in He as [He Ht]. apply Forall_cons in Ht as [Ht _]. cbn in Ht.
    specialize (IH d' t' He). rewrite (rev_app_distr (days ++ _)). cbn [rev app last_intact].
    rewrite read_all_snoc, omap_app, map_app. unfold last_intact_in. rewrite (omap_intact d 1).
    rewrite (rev_app_distr (days ++ _)). cbn [rev app]. rewrite last_app.
    destruct (last (map cell_head (omap chained (number_lines d 1 (lines (close_torn_tail t)))))) as [x|] eqn:El; [done|].
    rewrite IH. assert (Hct : close_torn_tail t' = t') by (unfold close_torn_tail; by rewrite Ht). by rewrite Hct.
Qed.

(** The directory as [open] leaves it: closed, with a file for today. *)
Lemma open_spec days today :
  Forall (fun dt => ends_line dt.2 = true) (removelast days) ->
  let closed := map (fun dt => (dt.1, close_torn_tail dt.2)) days in
  open days today
  = (append_text closed today EmptyString,
     match last (map cell_head (omap chained (read_all closed))) with
     | Some (seq, hash) => {| date := today; next_seq := (seq + 1)%Z; head_hash := hash |}
     | None => {| date := today; next_seq := 0; head_hash := GENESIS_PREV |}
     end).
Proof.
  intros He. cbn zeta. unfold open. destruct days as [|[d t] days _] using rev_ind; [done|].
  rewrite removelast_last in He. rewrite map_app. cbn [map fst snd].
  assert (Hm : map (fun dt : Z * string => (dt.1, close_torn_tail dt.2)) days = days).
  { clear -He. induction He as [|[d' t'] days Ht He IH]; [done|]. cbn [map fst snd]. cbn in Ht. unfold close_torn_tail at 1.
    by rewrite Ht, IH. }
  rewrite Hm, last_intact_spec by done. by rewrite rev_involutive.
Qed.

(** ** The log's invariant *)

(** [cells] numbered from [n]. *)
Fixpoint numbered (n : Z) (cells : list (Z * string * string * string)) : Prop :=
  match cells with [] => True | c :: cells => c.1.1.1 = n /\ numbered (n + 1)%Z cells end.

Lemma numbered_snoc n cells c :
  numbered n (cells ++ [c]) <-> numbered n cells /\ c.1.1.1 = (n + Z.of_nat (length cells))%Z.
Proof.
  revert n. induction cells as [|x cells IH]; intros n; cbn [app numbered length].
  - rewrite Z.add_0_r. tauto.
  - rewrite IH. replace (n + 1 + Z.of_nat (length cells))%Z with (n + Z.of_nat (S (length cells)))%Z by lia. tauto.
Qed.
Lemma links_app_one starts p cells c :
  links starts p cells -> hash_body c.1.2 = c.2 ->
  linked_to starts (match last cells with Some x => Some (cell_head x) | None => p end) c.1.1.2 ->
  links starts p (cells ++ [c]).
Proof.
  intros H Hh. destruct c as [[[seq prev] body] hash]. induction H as [p|p seq' prev' body' hash' cells Hb Hk Hl IH]; intros Hc.
  - constructor; [done|done|]. apply links_nil.
  - cbn [app]. constructor; [done|done|]. apply IH. rewrite last_cons in Hc. by destruct (last cells).
Qed.

(** The directory holds [cells], all linked and numbered from 0, and [w]
    continues them; [torn] of its lines are not records. *)
Record log_ok days w cells (torn : nat) : Prop := {
  ok_tidy : tidy days (date w);
  ok_cells : omap chained (read_all days) = cells;
  ok_torn : length (read_all days) = length cells + torn;
  ok_links : links [GENESIS_PREV] None cells;
  ok_numbered : numbered 0 cells;
  ok_seq : next_seq w = Z.of_nat (length cells);
  ok_head : head_hash w = default GENESIS_PREV (option_map snd (last cells));
}.

Lemma log_head_is_hash days w cells torn : log_ok days w cells torn -> is_hash (head_hash w).
Proof.
  intros [_ _ _ Hl _ _ Hh]. rewrite Hh. destruct (last cells) as [c|] eqn:E; [|apply genesis_is_hash].
  apply last_Some in E as [l ->]. apply links_snoc in Hl as (_ & Hc & _). cbn. rewrite <- Hc. apply hash_body_is_hash.
Qed.

(** The cell of the next record. *)
Definition next_cell w (r : R) : Z * string * string * string :=
  let body := to_body r (next_seq w) (head_hash w) in (next_seq w, head_hash w, body, hash_body body).

Lemma new_line_facts w r :
  (0 <= next_seq w)%Z -> is_hash (head_hash w) ->
  new_line w r <> EmptyString /\ str_has LF (new_line w r) = false /\ str_has CR (new_line w r) = false
  /\ forall f n, chained {| file := f; line := n; raw := new_line w r |} = Some (next_cell w r).
Proof.
  intros Hn Hh. destruct (new_line_shape w r Hh) as (b & Hb & Hne & H1 & H2). unfold new_line, chained, next_cell. cbn [raw].
  pose proof (hash_body_is_hash (to_body r (next_seq w) (head_hash w))) as Hhb.
  rewrite read_sealed by done. rewrite Hb in *. rewrite split_sealed, sealed_app by done. split_and!; [by destruct b|..|done];
    rewrite !str_has_app, (str_has_hash _ _ Hhb) by auto; rewrite ?H1, ?H2; reflexivity.
Qed.

Lemma log_ok_append days w cells torn today r :
  log_ok days w cells torn -> (date w <= today)%Z ->
  log_ok (append days w today r).1 (append days w today r).2 (cells ++ [next_cell w r]) torn.
Proof.
  intros H Ht. pose proof (log_head_is_hash _ _ _ _ H) as Hh. destruct H as [Hti Hc Hto Hl Hnu Hs Hhd].
  destruct (new_line_facts w r) as (Hn & HLF & HCR & Hch); [lia|done|].
  destruct (append_line days today (new_line w r) (tidy_later _ _ _ Hti Ht) Hn HLF HCR) as (Hti' & n & Hr).
  unfold append. cbn [fst snd]. split; cbn [advance date next_seq head_hash].
  - done.
  - rewrite Hr, omap_app, Hc. cbn [omap list_omap]. by rewrite Hch.
  - rewrite Hr, !length_app. cbn. lia.
  - apply links_app_one; [done|done|]. unfold next_cell. cbn [fst snd]. rewrite Hhd. destruct (last cells) as [c|]; cbn; [done|set_solver].
  - apply numbered_snoc. split; [done|]. cbn. lia.
  - rewrite Hs, length_app. cbn. lia.
  - by rewrite last_snoc.
Qed.

Lemma close_tidy days today :
  tidy days today -> map (fun dt : Z * string => (dt.1, close_torn_tail dt.2)) days = days.
Proof.
  intros (_ & _ & He). induction He as [|[d t] days Ht He IH]; [done|]. cbn [map fst snd]. cbn in Ht.
  unfold close_torn_tail at 1. by rewrite Ht, IH.
Qed.
Lemma Forall_removelast {A} (P : A -> Prop) l : Forall P l -> Forall P (removelast l).
Proof. induction 1 as [|x l Hx Hl IH]; [constructor|]. destruct l; [constructor|]. cbn in *. by constructor. Qed.

(** [open] on a directory that, closed, holds [cells]. *)
Lemma log_ok_open days days' cells torn today :
  Forall (fun dt => ends_line dt.2 = true) (removelast days) ->
  map (fun dt : Z * string => (dt.1, close_torn_tail dt.2)) days = days' -> tidy days' today ->
  omap chained (read_all days') = cells -> length (read_all days') = length cells + torn ->
  links [GENESIS_PREV] None cells -> numbered 0 cells ->
  log_ok (open days today).1 (open days today).2 cells torn
  /\ next_seq (open days today).2 = Z.of_nat (length cells)
  /\ head_hash (open days today).2 = default GENESIS_PREV (option_map snd (last cells)).
Proof.
  intros He Hm Hti Hc Hto Hl Hn. rewrite (open_spec days today He), Hm. cbn [fst snd].
  destruct (append_nothing days' today Hti) as [Hti' Hr]. rewrite Hc.
  set (w := match last (map cell_head cells) with Some _ => _ | None => _ end).
  assert (Hw : date w = today /\ next_seq w = Z.of_nat (length cells)
               /\ head_hash w = default GENESIS_PREV (option_map snd (last cells))).
  { subst w. destruct cells as [|c cells _] using rev_ind; [done|]. rewrite map_app. cbn [map]. rewrite !last_snoc.
    apply numbered_snoc in Hn as [_ Hn]. unfold cell_head. cbn. rewrite length_app. cbn. split_and!; [done|lia|done]. }
  destruct Hw as (Hd & Hs & Hh). split; [|done]. split; try done; [by rewrite Hd|by rewrite Hr|by rewrite Hr].
Qed.

Lemma log_ok_reopen days w cells torn today :
  log_ok days w cells torn -> (date w <= today)%Z ->
  log_ok (open days today).1 (open days today).2 cells torn
  /\ next_seq (open days today).2 = next_seq w /\ head_hash (open days today).2 = head_hash w.
Proof.
  intros [Hti Hc Hto Hl Hnu Hs Hhd] Ht. pose proof (tidy_later _ _ _ Hti Ht) as Hti'. rewrite Hs, Hhd.
  apply (log_ok_open days days); try done; [apply Forall_removelast, Hti|by eapply close_tidy].
Qed.

(** A line cut short by a crash, and the reopening after it. *)
Lemma take_bytes_has c k s : str_has c s = false -> str_has c (take_bytes k s) = false.
Proof.
  revert s. induction k as [|k IH]; intros [|a s] H; try done. cbn [str_has take_bytes] in *. case_decide; [done|]. by apply IH.
Qed.
Lemma take_bytes_prefix k s t : k <= String.length s -> take_bytes k (s +:+ t) = take_bytes k s.
Proof.
  revert s. induction k as [|k IH]; intros [|a s] Hk; cbn in Hk; [by destruct t|by rewrite app_cons_str|lia|].
  rewrite app_cons_str. cbn. f_equal. apply IH. lia.
Qed.
Lemma ends_line_no_lf s : str_has LF s = false -> s <> EmptyString -> forall t, ends_line (t +:+ s) = false.
Proof.
  intros Hs Hn. assert (He : ends_line s = false).
  { revert Hn. induction s as [|a s IH]; intros; [done|]. cbn [str_has] in Hs. case_decide as Ha; [done|]. cbn [ends_line].
    destruct s as [|b s]; [by apply Ascii.eqb_neq|]. by apply IH. }
  intros t. induction t as [|a t IH]; [done|]. rewrite app_cons_str. cbn [ends_line].
  destruct (t +:+ s) eqn:E; [|done]. destruct t; [by destruct s|done].
Qed.

Lemma log_ok_crash days w cells torn today today' r k :
  log_ok days w cells torn -> (date w <= today <= today')%Z -> k < String.length (new_line w r) ->
  let cut := (append_cut days w today r k).1 in
  exists torn', torn' <= S torn
    /\ log_ok (open cut today').1 (open cut today').2 cells torn'
    /\ next_seq (open cut today').2 = next_seq w /\ head_hash (open cut today').2 = head_hash w.
Proof.
  intros H Ht Hk. pose proof (log_head_is_hash _ _ _ _ H) as Hh. destruct H as [Hti Hc Hto Hl Hnu Hs Hhd].
  destruct (new_line_facts w r) as (Hn & HLF & HCR & Hch); [lia|done|].
  pose proof (tidy_later _ _ today Hti ltac:(lia)) as Hti'. cbn zeta. unfold append_cut. cbn [fst].
  rewrite take_bytes_prefix by lia. set (frag := take_bytes k (new_line w r)) in *. rewrite Hs, Hhd.
  destruct (decide (frag = EmptyString)) as [->|Hf].
  { destruct (append_nothing days today Hti') as [Hti1 Hr]. exists torn. split; [lia|].
    apply (log_ok_open _ (append_text days today EmptyString)); try done.
    - apply Forall_removelast, Hti1.
    - by eapply close_tidy.
    - eapply tidy_later; [done|lia].
    - by rewrite Hr.
    - by rewrite Hr. }
  assert (Hfl : str_has LF frag = false) by (by apply take_bytes_has).
  assert (Hfc : str_has CR frag = false) by (by apply take_bytes_has).
  destruct (append_line days today frag Hti' Hf Hfl Hfc) as (Hti1 & n & Hr).
  assert (Hno : forall f m, chained {| file := f; line := m; raw := frag |} = None).
  { intros f m. unfold chained. cbn [raw]. unfold frag, new_line. rewrite read_cut; [done|lia|done|apply hash_body_is_hash|done]. }
  assert (Hclose : Forall (fun dt => ends_line dt.2 = true) (removelast (append_text days today frag))
    /\ map (fun dt : Z * string => (dt.1, close_torn_tail dt.2)) (append_text days today frag)
       = append_text days today (frag +:+ String LF EmptyString)).
  { destruct (tidy_last days today Hti') as (before & t & Hd & He & Hb & Hbe & Hbs).
    destruct (append_text_before before today t frag Hb) as [H1 H2].
    destruct (append_text_before before today t (frag +:+ String LF EmptyString) Hb) as [H3 H4].
    assert (Ha : append_text days today frag = before ++ [(today, t +:+ frag)]) by (by destruct Hd as [->|[-> ->]]).
    assert (Ha' : append_text days today (frag +:+ String LF EmptyString) = before ++ [(today, t +:+ (frag +:+ String LF EmptyString))])
      by (by destruct Hd as [->|[-> ->]]).
    rewrite Ha, Ha', removelast_last, map_app. split; [done|]. cbn [map fst snd].
    assert (Hbm : map (fun dt : Z * string => (dt.1, close_torn_tail dt.2)) before = before).
    { clear -Hbe. induction Hbe as [|[d s] l Hd He IH]; [done|]. cbn [map fst snd]. cbn in Hd. unfold close_torn_tail at 1. by rewrite Hd, IH. }
    rewrite Hbm. do 3 f_equal. unfold close_torn_tail. rewrite ends_line_no_lf by done. by rewrite app_assoc_str. }
  destruct Hclose as [Hcl Hcm]. exists (S torn). split; [lia|].
  apply (log_ok_open _ (append_text days today (frag +:+ String LF EmptyString))); try done.
  - eapply tidy_later; [done|lia].
  - rewrite Hr, omap_app, Hc. cbn [omap list_omap]. rewrite Hno. by rewrite app_nil_r.
  - rewrite Hr, length_app. cbn. lia.
Qed.

(** ** What verification says of a log *)

Definition unreadable (ls : list StoredLine) : list Problem :=
  omap (fun s => match chained s with None => Some (Unreadable (file s) (line s)) | Some _ => None end) ls.
Lemma unreadable_length ls : length (unreadable ls) + length (omap chained ls) = length ls.
Proof. induction ls as [|s ls IH]; [done|]. unfold unreadable in *. cbn. destruct (chained s); cbn; lia. Qed.

Lemma walk_log starts cps p rep ls n :
  links starts p (omap chained ls) -> numbered n (omap chained ls) ->
  (forall q h, p = Some (q, h) -> n = (q + 1)%Z) ->
  (forall c h, c ∈ omap chained ls -> cps !! c.1.1.1 = Some h -> h = c.2) ->
  let rep' := walk starts cps p rep ls in
  problems rep' = problems rep ++ unreadable ls
  /\ records rep' = records rep + length (omap chained ls)
  /\ last_seq rep' = or_else (option_map (fun c => c.1.1.1) (last (omap chained ls))) (last_seq rep)
  /\ report_head rep' = or_else (option_map snd (last (omap chained ls))) (report_head rep).
Proof.
  cbn zeta. revert p rep n. induction ls as [|s ls IH]; intros p rep n Hl Hn Hp Hc.
  { cbn. rewrite app_nil_r, Nat.add_0_r. done. }
  cbn [walk]. unfold unreadable. cbn [omap list_omap] in *. destruct (chained s) as [[[[seq prev] body] hash]|].
  - inversion Hl as [|? ? ? ? ? ? Hb Hk Hl']; subst. destruct Hn as [Hs Hn]. cbn in Hs. subst n.
    edestruct (IH (Some (seq, hash_body body))) as (H1 & H2 & H3 & H4); [done|exact Hn|intros q h [= <- <-]; done| |].
    { intros c h Hin. apply Hc. by right. }
    rewrite H1, H2, H3, H4. cbn [problems records last_seq report_head length].
    assert (Hlp : line_problems starts cps p (seq, prev, body, hash_body body) = []).
    { unfold line_problems. rewrite String.eqb_refl. cbn [app]. unfold link_problems. destruct p as [[q h]|]; cbn in Hk.
      - subst. rewrite (Hp q h eq_refl), Z.eqb_refl, String.eqb_refl. cbn. destruct (cps !! _) as [e|] eqn:Ee; [|done].
        rewrite <- (Hp q h eq_refl) in Ee.
        rewrite (Hc _ _ (list_elem_of_here _ _) Ee). cbn. by rewrite String.eqb_refl.
      - assert (He : existsb (fun s0 => String.eqb s0 prev) starts = true).
        { apply existsb_exists. exists prev. rewrite String.eqb_refl. split; [by apply list_elem_of_In|done]. }
        rewrite He. cbn. destruct (cps !! seq) as [e|] eqn:Ee; [|done].
        rewrite (Hc _ _ (list_elem_of_here _ _) Ee). cbn. by rewrite String.eqb_refl. }
    rewrite Hlp, app_nil_r, last_cons. split_and!; [done|lia|by destruct (last (omap chained ls))..].
  - edestruct (IH p) as (H1 & H2 & H3 & H4); [done|exact Hn|done|done|].
    rewrite H1, H2, H3, H4. cbn [problems records last_seq report_head]. split_and!; try done. by rewrite <- app_assoc.
Qed.

Lemma numbered_bound n cells c : numbered n cells -> c ∈ cells -> (n <= c.1.1.1 < n + Z.of_nat (length cells))%Z.
Proof.
  revert n. induction cells as [|x cells IH]; intros n Hn Hc; [set_solver|]. destruct Hn as [Hx Hn]. cbn [length].
  apply elem_of_cons in Hc as [->|Hc]; [lia|]. specialize (IH _ Hn Hc). lia.
Qed.
Lemma max_key_in (cps : gmap Z string) m : max_key cps = Some m -> exists h, cps !! m = Some h.
Proof.
  unfold max_key. intros H. enough (Hg : forall l m, foldr (fun '(k, _) m => match m with Some n => Some (Z.max k n) | None => Some k end) None l = Some m
    -> exists h : string, (m, h) ∈ l).
  { apply Hg in H as [h Hh]. exists h. by apply elem_of_map_to_list. }
  clear. induction l as [|[k v] l IH]; intros m H; [done|]. cbn [foldr] in H.
  destruct (foldr _ None l) as [n|] eqn:E; simplify_eq.
  - destruct (IH n eq_refl) as [h Hh]. destruct (Z.max_spec k n) as [[_ ->]|[_ ->]]; [exists h|exists v]; set_solver.
  - exists v. set_solver.
Qed.

(** A log's life: opened, appended to, reopened, and reopened after a crash
    in the middle of a line, the clock never before the last day written.
    [heads] are the places reported by the appends, [crashes] counts. *)
Inductive logged : Days -> Writer -> list (Z * string) -> nat -> Prop :=
| logged_open today : logged (open [] today).1 (open [] today).2 [] 0
| logged_append days w heads n today r :
    logged days w heads n -> (date w <= today)%Z ->
    logged (append days w today r).1 (append days w today r).2
           (heads ++ [(next_seq w, head_hash (append days w today r).2)]) n
| logged_reopen days w heads n today :
    logged days w heads n -> (date w <= today)%Z -> logged (open days today).1 (open days today).2 heads n
| logged_crash days w heads n today today' r k :
    logged days w heads n -> (date w <= today <= today')%Z -> k < String.length (new_line w r) ->
    let cut := (append_cut days w today r k).1 in
    logged (open cut today').1 (open cut today').2 heads (S n).

Lemma logged_ok days w heads n :
  logged days w heads n -> exists cells torn, torn <= n /\ log_ok days w cells torn /\ heads = map cell_head cells.
Proof.
  induction 1 as [today|days w heads n today r H (cells & torn & Hle & Hok & ->) Ht
                 |days w heads n today H (cells & torn & Hle & Hok & ->) Ht
                 |days w heads n today today' r k H (cells & torn & Hle & Hok & ->) Ht Hk].
  - exists [], 0. split_and!; [done| |done]. apply (log_ok_open [] []); try done; [split_and!; constructor|apply links_nil].
  - exists (cells ++ [next_cell w r]), torn. split_and!; [done|by apply log_ok_append|]. by rewrite map_app.
  - exists cells, torn. split_and!; [done|by eapply log_ok_reopen|done].
  - destruct (log_ok_crash _ _ _ _ _ _ r k Hok Ht Hk) as (torn' & Hle' & Hok' & _).
    exists cells, torn'. split_and!; [lia|done|done].
Qed.
End Log.

(** A log written by its writer verifies: after any course of appends,
    reopenings and crashes in the middle of a line (the clock not running
    back to an earlier day), verification finds every record appended, the last
    place and the head the writer continues from, and agrees with every
    checkpoint taken from the places the appends reported; the only problems it
    names are unreadable lines, at most one for each crash. *)
Theorem written_log_verifies `{C : ChainRecords R} `{!ChainLaws R C} days w heads crashes cps :
  logged days w heads crashes ->
  (forall k h, cps !! k = Some h -> (k, h) ∈ heads) ->
  let rep := verify days [GENESIS_PREV] cps in
  records rep = length heads
  /\ option_map (fun s => s + 1)%Z (last_seq rep) = (if decide (heads = []) then None else Some (next_seq w))
  /\ report_head rep = option_map snd (last heads)
  /\ Forall (fun p => exists f n, p = Unreadable f n) (problems rep)
  /\ length (problems rep) <= crashes.
Proof.
  intros H Hcp. apply logged_ok in H as (cells & torn & Hle & Hok & ->). destruct Hok as [Hti Hc Hto Hl Hn Hs Hh].
  assert (Hcps : forall c h, c ∈ cells -> cps !! c.1.1.1 = Some h -> h = c.2).
  { intros c h Hin Hk. apply Hcp, list_elem_of_fmap in Hk as (c' & Heq & Hin'). unfold cell_head in Heq. injection Heq as Hseq ->.
    apply list_elem_of_lookup in Hin as [i Hi], Hin' as [j Hj].
    assert (Hnum : forall i c n cs, numbered n cs -> cs !! i = Some c -> c.1.1.1 = (n + Z.of_nat i)%Z).
    { clear. induction i as [|i IH]; intros c n [|x cs] Hn Hi; try done; destruct Hn as [Hx Hn]; cbn in Hi; simplify_eq; [lia|].
      rewrite (IH _ _ _ Hn Hi). lia. }
    rewrite (Hnum _ _ _ _ Hn Hi), (Hnum _ _ _ _ Hn Hj) in Hseq. assert (i = j) as -> by lia. congruence. }
  rewrite <- Hc in Hl, Hn, Hcps. cbn zeta. unfold verify, verify_lines.
  destruct (walk_log [GENESIS_PREV] cps None empty_report (read_all days) 0 Hl Hn ltac:(done) Hcps) as (H1 & H2 & H3 & H4).
  rewrite Hc in *. cbn [empty_report problems records last_seq report_head app Nat.add] in *.
  assert (Hls : or_else (option_map (fun c => c.1.1.1) (last cells)) None
                = if decide (map cell_head cells = []) then None else Some (Z.of_nat (length cells) - 1)%Z).
  { destruct cells as [|c cells _] using rev_ind; [done|]. rewrite last_snoc. apply numbered_snoc in Hn as [_ Hn].
    rewrite decide_False by (by destruct cells). cbn. rewrite Hn, length_app. cbn. f_equal. lia. }
  assert (Hunr : Forall (fun p => exists f n, p = Unreadable f n) (unreadable (read_all days)) /\ length (unreadable (read_all days)) <= crashes).
  { split; [|pose proof (unreadable_length (read_all days)) as Hu; rewrite Hc in Hu; lia].
    apply Forall_forall. intros p (s & _ & Hp)%list_elem_of_omap. destruct (chained s); simplify_eq. eauto. }
  set (rep := walk _ _ _ _ _) in *.
  assert (Htr : (match max_key cps with
                 | Some c => if match last_seq rep with None => true | Some l => (l <? c)%Z end
                             then {| records := records rep; first_seq := first_seq rep; last_seq := last_seq rep;
                                     report_head := report_head rep; problems := problems rep ++ [Truncated c (last_seq rep)] |}
                             else rep
                 | None => rep end) = rep).
  { destruct (max_key cps) as [m|] eqn:Em; [|done]. apply max_key_in in Em as [h Hm%Hcp%list_elem_of_fmap].
    destruct Hm as (c & Heq & Hin). injection Heq as -> _. pose proof (numbered_bound _ _ _ Hn Hin) as Hb.
    rewrite H3, Hls. rewrite decide_False by (by destruct cells; [set_solver|]). destruct (Z.ltb_spec (Z.of_nat (length cells) - 1) c.1.1.1); [lia|done]. }
  rewrite Htr, H1, H2, H3, H4, Hls. split_and!; try apply Hunr.
  - by rewrite length_map.
  - rewrite Hs. case_decide; [done|]. cbn. f_equal. lia.
  - rewrite fmap_last. by destruct (last cells).
Qed.

(** ** Pruning *)

Section Prune.
Context `{C : ChainRecords R} `{L : !ChainLaws R C}.
Implicit Types (days : Days) (w : Writer).

Lemma read_all_app a b : read_all (a ++ b) = read_all a ++ read_all b.
Proof. unfold read_all. by rewrite map_app, concat_app. Qed.

Lemma prune_days_split days cutoff today anchor a rest :
  prune_days days cutoff today anchor = (a, rest) ->
  exists gone, days = gone ++ rest /\ Forall (fun dt => dt.1 < cutoff /\ dt.1 < today)%Z gone
    /\ a = or_else (last (map cell_head (omap chained (read_all gone)))) anchor.
Proof.
  revert anchor. induction days as [|[d t] days IH]; intros anchor H; cbn [prune_days] in H.
  { simplify_eq. exists []. split_and!; [done|constructor|done]. }
  destruct ((cutoff <=? d) || (today <=? d))%Z eqn:E.
  { simplify_eq. exists []. split_and!; [done|constructor|done]. }
  apply orb_false_iff in E as [E1%Z.leb_gt E2%Z.leb_gt].
  apply IH in H as (gone & -> & Hg & ->). exists ((d, t) :: gone). split_and!; [done|by constructor|].
  change ((d, t) :: gone) with ([(d, t)] ++ gone). rewrite read_all_app, omap_app, map_app, last_app.
  assert (Hone : read_all [(d, t)] = number_lines d 1 (lines t)) by (unfold read_all; cbn; apply app_nil_r).
  rewrite Hone. unfold last_intact_in. rewrite (omap_intact d 1).
  by destruct (last (map cell_head (omap chained (read_all gone)))), (last (map cell_head (omap chained (number_lines d 1 (lines t))))).
Qed.

Lemma links_app starts p a b :
  links starts p (a ++ b) ->
  links starts p a /\ links starts (match last a with Some c => Some (cell_head c) | None => p end) b.
Proof.
  revert p. induction a as [|[[[seq prev] body] hash] a IH]; intros p H; [by split; [apply links_nil|]|].
  inversion H; subst. match goal with Hi : links _ _ (a ++ b) |- _ => apply IH in Hi as [Ha Hb] end.
  split; [by constructor|]. rewrite last_cons. by destruct (last a).
Qed.
Lemma links_more_starts starts starts' p cells : starts ⊆ starts' -> links starts p cells -> links starts' p cells.
Proof. intros Hs. induction 1; constructor; try done. destruct p as [[]|]; [done|]. by apply Hs. Qed.
Lemma links_from_anchor starts q h cells : links starts (Some (q, h)) cells -> h ∈ starts -> links starts None cells.
Proof. intros H Hh. inversion H; subst; constructor; try done. cbn in *. by subst. Qed.
Lemma numbered_app n a b : numbered n (a ++ b) -> numbered n a /\ numbered (n + Z.of_nat (length a))%Z b.
Proof.
  revert n. induction a as [|c a IH]; intros n; cbn [app numbered length]; [by rewrite Z.add_0_r|].
  intros [Hc [Ha Hb]%IH]. replace (n + Z.of_nat (S (length a)))%Z with (n + 1 + Z.of_nat (length a))%Z by lia. auto.
Qed.
End Prune.

(** Pruning keeps a log verifiable: with the anchor it returns as a second
    start, what remains of a log its writer wrote has only unreadable lines as
    problems, at most one per crash; only days before the cutoff and before
    today are deleted. *)
Theorem pruned_log_verifies `{C : ChainRecords R} `{!ChainLaws R C} days w heads crashes cutoff today anchor rest :
  logged days w heads crashes ->
  prune_before days cutoff today = (anchor, rest) ->
  let starts := GENESIS_PREV :: match anchor with Some (_, h) => [h] | None => [] end in
  Forall (fun p => exists f n, p = Unreadable f n) (problems (verify rest starts ∅))
  /\ length (problems (verify rest starts ∅)) <= crashes
  /\ exists gone, days = gone ++ rest /\ Forall (fun dt => dt.1 < cutoff /\ dt.1 < today)%Z gone.
Proof.
  intros H Hp. cbn zeta. apply logged_ok in H as (cells & torn & Hle & Hok & _). destruct Hok as [_ Hc Hto Hl Hn _ _].
  apply prune_days_split in Hp as (gone & -> & Hg & ->). rewrite read_all_app, omap_app in Hc. subst cells.
  change (map cell_head (omap chained (read_all gone))) with (cell_head <$> omap chained (read_all gone)). rewrite fmap_last.
  set (starts := GENESIS_PREV :: _).
  apply links_app in Hl as [_ Hl]. apply numbered_app in Hn as [_ Hn].
  assert (Hls : links starts None (omap chained (read_all rest))).
  { destruct (last (omap chained (read_all gone))) as [c|].
    - apply (links_more_starts _ starts) in Hl; [|subst starts; set_solver]. eapply links_from_anchor; [exact Hl|].
      subst starts. cbn. set_solver.
    - eapply links_more_starts; [|exact Hl]. subst starts. set_solver. }
  unfold verify, verify_lines.
  destruct (walk_log starts ∅ None empty_report (read_all rest) _ Hls Hn ltac:(done)
              ltac:(intros c h _ Hk; by rewrite lookup_empty in Hk)) as (H1 & _).
  cbn [max_key map_to_list]. unfold max_key. rewrite map_to_list_empty. cbn [foldr]. rewrite H1. cbn [empty_report problems app].
  split_and!; [..|by eauto].
  - apply Forall_forall. intros p (s & _ & Hp)%list_elem_of_omap. destruct (chained s); simplify_eq. eauto.
  - pose proof (unreadable_length (read_all rest)). pose proof (unreadable_length (read_all gone)).
    rewrite read_all_app, !length_app in Hto. lia.
Qed.

(** When every day of a log is old enough, pruning leaves nothing to resume
    from: the log starts again from the genesis, and any checkpoint taken
    earlier makes verification report a cut tail. *)
Theorem fully_pruned_log_reads_truncated `{C : ChainRecords R} days cutoff today anchor cps k h starts :
  prune_before days cutoff today = (anchor, []) -> cps !! k = Some h ->
  open [] today = ([(today, EmptyString)], {| date := today; next_seq := 0; head_hash := GENESIS_PREV |})
  /\ exists c, problems (verify [] starts cps) = [Truncated c None].
Proof.
  intros _ Hk. split; [done|]. unfold verify, verify_lines. cbn.
  destruct (max_key cps) as [c|] eqn:E; [by exists c|]. exfalso. unfold max_key in E.
  assert (Hin : (k, h) ∈ map_to_list cps) by (by apply elem_of_map_to_list).
  destruct (map_to_list cps) as [|[k' h'] l]; [set_solver|]. cbn [foldr] in E. by destruct (foldr _ _ l).
Qed.

(** ** A concrete log *)

Module Toy.
(** Records without content, numbers in binary, and a hash of the right
    shape. *)
Definition print (n : Z) (p : string) : string := String "{" (bits (Z.to_pos (n + 1)) +:+ "|" +:+ p) +:+ "}".
Definition parse (raw : string) : option (option Z * string) :=
  match strip_prefix "{" (trim_end_bytes is_line_end raw) with
  | None => None
  | Some l =>
      match split_once "|" l with
      | None => None
      | Some (b, r) =>
          if String.length r =? 153 then Some (Some (Z.pos (unbits b) - 1)%Z, take_bytes 71 r) else None
      end
  end.
#[export] Instance records : ChainRecords unit :=
  {| hash_hex := fun _ => ZEROS; to_body := fun _ => print; read_record := parse |}.

Lemma sealed_print n p h :
  sealed (print n p) h = String "{" (bits (Z.to_pos (n + 1)) +:+ String "|" (p +:+ HASH_OPEN +:+ h +:+ HASH_CLOSE)).
Proof. unfold print. rewrite sealed_app. rewrite app_cons_str. by rewrite <- !app_assoc_str. Qed.
Lemma length_trim p s : String.length (trim_end_bytes p s) <= String.length s.
Proof. induction s as [|a s IH]; [done|]. cbn [trim_end_bytes]. destruct (all_bytes _ _); cbn; lia. Qed.
Lemma trim_prefix p s : exists t, s = trim_end_bytes p s +:+ t.
Proof.
  induction s as [|a s [t IH]]; [by exists EmptyString|]. cbn [trim_end_bytes]. destruct (all_bytes _ _); [by eexists|].
  exists t. rewrite app_cons_str. by rewrite <- IH.
Qed.

Lemma bits_clean n c : c = LF \/ c = CR \/ c = "|"%char -> str_has c (bits (Z.to_pos (n + 1))) = false.
Proof. intros [->|[->| ->]]; by apply bits_has. Qed.
Lemma parse_cut n p h k :
  is_hash p -> is_hash h -> k < String.length (sealed (print n p) h) -> parse (take_bytes k (sealed (print n p) h)) = None.
Proof.
  intros Hp Hh Hk. unfold parse. destruct (strip_prefix "{" _) as [l|] eqn:E1; [|done].
  destruct (split_once "|" l) as [[b r]|] eqn:E2; [|done]. destruct (Nat.eqb_spec (String.length r) 153) as [Hr|]; [|done]. exfalso.
  set (F := sealed (print n p) h) in *. destruct (trim_prefix is_line_end (take_bytes k F)) as [t Ht].
  pose proof (length_trim is_line_end (take_bytes k F)) as Hlt. pose proof (take_drop_bytes k F) as Hf.
  apply strip_prefix_Some in E1. rewrite E1 in Ht, Hlt. apply split_once_Some in E2 as [-> Hb].
  assert (Hu : 0 < String.length (drop_bytes k F)) by (rewrite drop_bytes_length; lia).
  revert Hu Hf. generalize (drop_bytes k F). intros u Hu Hf. rewrite Ht, <- !app_assoc_str, !app_cons_str, app_nil_l_str in Hf.
  unfold F in Hf. rewrite sealed_print in Hf. injection Hf as Hf.
  apply (f_equal (split_once "|")) in Hf. rewrite !split_once_app in Hf by (done || by apply bits_clean; auto). injection Hf as -> Hf.
  apply (f_equal String.length) in Hf. rewrite !length_app_str, (is_hash_length p Hp), (is_hash_length h Hh) in Hf.
  change (String.length HASH_OPEN) with 9 in Hf. change (String.length HASH_CLOSE) with 2 in Hf. lia.
Qed.

#[export] Instance laws : ChainLaws unit records.
Proof.
  split.
  - done.
  - intros r n p Hp. exists (bits (Z.to_pos (n + 1)) +:+ "|" +:+ p). split; [done|].
    rewrite !str_has_app, !(str_has_hash _ p Hp), !bits_clean by auto. done.
  - intros r n p h Hn Hp Hh. cbn [read_record to_body records]. unfold parse.
    assert (Ht : trim_end_bytes is_line_end (sealed (print n p) h) = sealed (print n p) h) by apply sealed_trim.
    rewrite Ht, sealed_print. change (String "{" ?x) with ("{" +:+ x). rewrite strip_prefix_app.
    rewrite split_once_app by (apply bits_clean; auto).
    assert (Hl : String.length (p +:+ HASH_OPEN +:+ h +:+ HASH_CLOSE) = 153).
    { rewrite !length_app_str, (is_hash_length p Hp), (is_hash_length h Hh). reflexivity. }
    rewrite Hl, unbits_bits. cbn [Nat.eqb]. rewrite <- (is_hash_length p Hp), take_bytes_app. do 3 f_equal. lia.
  - intros a b H. cbn. unfold parse. by rewrite H.
  - intros r n p h k Hn Hp Hh Hk. by apply parse_cut.
Qed.

(** Two records on day 1, one on day 2. *)
Definition day1 : Days * Writer := open [] 1.
Definition log1 : Days * Writer := append day1.1 day1.2 1 tt.
Definition log2 : Days * Writer := append log1.1 log1.2 1 tt.
Definition log3 : Days * Writer := append log2.1 log2.2 2 tt.
Definition h1 : string := hash_body (print 0 GENESIS_PREV).

Lemma log3_logged : logged log3.1 log3.2 [(0%Z, h1); (1%Z, h1); (2%Z, h1)] 0.
Proof.
  assert (H1 : logged log1.1 log1.2 [(0%Z, h1)] 0) by (exact (logged_append _ _ [] 0 1 tt (logged_open 1) ltac:(done))).
  assert (H2 : logged log2.1 log2.2 [(0%Z, h1); (1%Z, h1)] 0)
    by (exact (logged_append _ _ [(0%Z, h1)] 0 1 tt H1 ltac:(vm_compute; done))).
  exact (logged_append _ _ [(0%Z, h1); (1%Z, h1)] 0 2 tt H2 ltac:(vm_compute; done)).
Qed.

Lemma written_log_verifies_witness :
  Chain.records (verify log3.1 [GENESIS_PREV] {[1%Z := h1]}) = 3
  /\ length (problems (verify log3.1 [GENESIS_PREV] {[1%Z := h1]})) <= 0.
Proof.
  destruct (written_log_verifies log3.1 log3.2 _ 0 {[1%Z := h1]} log3_logged) as (H1 & _ & _ & _ & H2); [|done].
  intros k h Hk. apply lookup_singleton_Some in Hk as [<- <-]. set_solver.
Defined.

Lemma intact_logs_agree_witness :
  map line_text (read_all log2.1) = map line_text (read_all log2.1)
  \/ hash_broken [GENESIS_PREV] (read_all log2.1) (read_all log2.1).
Proof.
  apply (intact_logs_agree [GENESIS_PREV] ∅ ∅ log2.1 log2.1 h1); vm_compute; reflexivity.
Defined.

Lemma pruned_log_verifies_witness :
  length (problems (verify [(2%Z, new_line log2.2 tt +:+ String LF EmptyString)] [GENESIS_PREV; h1] ∅)) <= 0.
Proof.
  exact (proj1 (proj2 (pruned_log_verifies log3.1 log3.2 _ 0 2 5 (Some (1%Z, h1)) _ log3_logged ltac:(vm_compute; reflexivity)))).
Defined.

Lemma fully_pruned_log_reads_truncated_witness :
  exists c, problems (verify [] [GENESIS_PREV; h1] {[2%Z := h1]}) = [Truncated c None].
Proof.
  exact (proj2 (fully_pruned_log_reads_truncated (C:=records) log3.1 90 100 (Some (2%Z, h1)) {[2%Z := h1]} 2 h1 [GENESIS_PREV; h1]
           ltac:(vm_compute; reflexivity) ltac:(apply lookup_singleton_eq))).
Defined.

(** A write that fails part way leaves its fragment without a line break, and
    only [open] closes a torn line: the next append reports success, but its
    record is glued to the fragment and can not be read back; the one after it
    no longer links. *)
Definition cut : Days * Writer := append_cut log1.1 log1.2 1 tt 5.
Definition glued : Days * Writer := append cut.1 cut.2 1 tt.
Theorem append_after_failed_write_is_lost :
  next_seq glued.2 = 2%Z
  /\ omap chained (read_all glued.1) = omap chained (read_all log1.1)
  /\ problems (verify (append glued.1 glued.2 1 tt).1 [GENESIS_PREV] ∅) = [Unreadable 1 2; SeqGap 1 2].
Proof. vm_compute. done. Qed.
End Toy.
