(* ===== verification/Retry.v ===== *)
(** * Retry: provider errors, rate limits and retries

    What the runtime makes of a failed model call: the error message of the
    HTTP client (peko-rs/providers/src/transport/client.rs), the rate-limit
    metadata embedded in it (provider-api/src/rate_limit.rs, retry_after.rs),
    the classification of errors by their text
    (provider-api/src/retryable_error.rs), the retry loop with its shared
    budget (providers/src/transport/retry.rs) and the waits between the
    attempts of a disrupted run (core/src/common/disruption.rs).  Durations and
    times are in nanoseconds.  Dates in headers and the computed backoff of the
    HTTP client (floating point, random jitter) are parameters. *)

From Stdlib Require Import ZArith Lia Ascii.
From stdpp Require Import base tactics list strings relations.
From S2P Require Import Prelude Text Calendar.

Open Scope Z_scope.

(** ** Durations *)

(** [Duration::MAX]. *)
Definition max_duration : Z := u64_max * sec_ns + (sec_ns - 1).
Definition from_secs (n : Z) : Z := n * sec_ns.
Definition as_secs (d : Z) : Z := d / sec_ns.

(** ** Rate-limit metadata *)

Inductive RateLimitKind := UnknownKind | OpenAi | Anthropic | Standard.

Record RateLimitSnapshot := {
  kind : RateLimitKind;
  requests_remaining : option Z;
  tokens_remaining : option Z;
  requests_limit : option Z;
  tokens_limit : option Z;
  (** since the Unix epoch *)
  reset_at : option Z;
  snap_retry_after : option Z;
  body_delay : option Z;
}.
Definition empty_snapshot (k : RateLimitKind) : RateLimitSnapshot :=
  {| kind := k; requests_remaining := None; tokens_remaining := None; requests_limit := None; tokens_limit := None;
     reset_at := None; snap_retry_after := None; body_delay := None |}.

Definition is_zero_free (o : option Z) : option Z :=
  match o with Some 0 => None | _ => o end.
(** [RateLimitSnapshot::effective_retry_after]. *)
Definition effective_retry_after (s : RateLimitSnapshot) : option Z :=
  is_zero_free (or_else (snap_retry_after s) (body_delay s)).

(** *** The token block *)

Definition kind_text (k : RateLimitKind) : string :=
  match k with UnknownKind => "Unknown" | OpenAi => "OpenAi" | Anthropic => "Anthropic" | Standard => "Standard" end.
Definition kind_of_text (v : string) : RateLimitKind :=
  if String.eqb v "OpenAi" then OpenAi
  else if String.eqb v "Anthropic" then Anthropic
  else if String.eqb v "Standard" then Standard
  else UnknownKind.

Definition part (key : string) (show : Z -> string) (o : option Z) : list string :=
  match o with Some n => [key +:+ "=" +:+ show n] | None => [] end.
Definition show_secs (d : Z) : string := dec (as_secs d) +:+ "s".
Definition show_unix (t : Z) : string := dec (as_secs t).

Definition snapshot_parts (s : RateLimitSnapshot) : list string :=
  ["rate_limit_kind=" +:+ kind_text (kind s)]
  ++ part "rate_limit_requests_remaining" dec (requests_remaining s)
  ++ part "rate_limit_tokens_remaining" dec (tokens_remaining s)
  ++ part "rate_limit_requests_limit" dec (requests_limit s)
  ++ part "rate_limit_tokens_limit" dec (tokens_limit s)
  ++ part "rate_limit_retry_after" show_secs (snap_retry_after s)
  ++ part "rate_limit_body_delay" show_secs (body_delay s)
  ++ part "rate_limit_reset_at_unix" show_unix
       (match reset_at s with Some t => if 0 <=? t then Some t else None | None => None end).
Definition format_snapshot (s : RateLimitSnapshot) : string := join_with "; " (snapshot_parts s).

Definition EQUALS : ascii := "="%char.
Definition token_char (a : ascii) : bool :=
  let n := N_of_ascii a in
  is_digit a || ((65 <=? n) && (n <=? 90))%N || ((97 <=? n) && (n <=? 122))%N
  || Ascii.eqb a "_" || Ascii.eqb a EQUALS || Ascii.eqb a "." || Ascii.eqb a "-".
Definition token_iter (msg : string) : list string :=
  List.filter (fun t => negb (String.eqb t EmptyString) && str_has EQUALS t)
    (map trim (split_any (fun a => negb (token_char a)) msg)).

(** [strip_suffix('s')]. *)
Fixpoint strip_s (v : string) : option string :=
  match v with
  | EmptyString => None
  | String c EmptyString => if Ascii.eqb c "s" then Some EmptyString else None
  | String c v => match strip_s v with Some w => Some (String c w) | None => None end
  end.
Definition parse_secs_token (v : string) : option Z :=
  or_else (match strip_s v with Some s => parse_usize s | None => None end) (parse_usize v).

Definition with_kind (k : RateLimitKind) (s : RateLimitSnapshot) : RateLimitSnapshot :=
  {| kind := k; requests_remaining := requests_remaining s; tokens_remaining := tokens_remaining s;
     requests_limit := requests_limit s; tokens_limit := tokens_limit s; reset_at := reset_at s;
     snap_retry_after := snap_retry_after s; body_delay := body_delay s |}.
Definition with_requests_remaining (n : Z) (s : RateLimitSnapshot) : RateLimitSnapshot :=
  {| kind := kind s; requests_remaining := Some n; tokens_remaining := tokens_remaining s;
     requests_limit := requests_limit s; tokens_limit := tokens_limit s; reset_at := reset_at s;
     snap_retry_after := snap_retry_after s; body_delay := body_delay s |}.
Definition with_tokens_remaining (n : Z) (s : RateLimitSnapshot) : RateLimitSnapshot :=
  {| kind := kind s; requests_remaining := requests_remaining s; tokens_remaining := Some n;
     requests_limit := requests_limit s; tokens_limit := tokens_limit s; reset_at := reset_at s;
     snap_retry_after := snap_retry_after s; body_delay := body_delay s |}.
Definition with_requests_limit (n : Z) (s : RateLimitSnapshot) : RateLimitSnapshot :=
  {| kind := kind s; requests_remaining := requests_remaining s; tokens_remaining := tokens_remaining s;
     requests_limit := Some n; tokens_limit := tokens_limit s; reset_at := reset_at s;
     snap_retry_after := snap_retry_after s; body_delay := body_delay s |}.
Definition with_tokens_limit (n : Z) (s : RateLimitSnapshot) : RateLimitSnapshot :=
  {| kind := kind s; requests_remaining := requests_remaining s; tokens_remaining := tokens_remaining s;
     requests_limit := requests_limit s; tokens_limit := Some n; reset_at := reset_at s;
     snap_retry_after := snap_retry_after s; body_delay := body_delay s |}.
Definition with_retry_after (n : Z) (s : RateLimitSnapshot) : RateLimitSnapshot :=
  {| kind := kind s; requests_remaining := requests_remaining s; tokens_remaining := tokens_remaining s;
     requests_limit := requests_limit s; tokens_limit := tokens_limit s; reset_at := reset_at s;
     snap_retry_after := Some n; body_delay := body_delay s |}.
Definition with_body_delay (n : Z) (s : RateLimitSnapshot) : RateLimitSnapshot :=
  {| kind := kind s; requests_remaining := requests_remaining s; tokens_remaining := tokens_remaining s;
     requests_limit := requests_limit s; tokens_limit := tokens_limit s; reset_at := reset_at s;
     snap_retry_after := snap_retry_after s; body_delay := Some n |}.
Definition with_reset_at (t : Z) (s : RateLimitSnapshot) : RateLimitSnapshot :=
  {| kind := kind s; requests_remaining := requests_remaining s; tokens_remaining := tokens_remaining s;
     requests_limit := requests_limit s; tokens_limit := tokens_limit s; reset_at := Some t;
     snap_retry_after := snap_retry_after s; body_delay := body_delay s |}.

Definition set_if (f : Z -> RateLimitSnapshot -> RateLimitSnapshot) (o : option Z) (s : RateLimitSnapshot) : RateLimitSnapshot :=
  match o with Some n => f n s | None => s end.

Definition read_token (snap : RateLimitSnapshot) (token : string) : RateLimitSnapshot :=
  match split_once EQUALS token with
  | None => snap
  | Some (k, v) =>
      if String.eqb k "rate_limit_kind" then with_kind (kind_of_text v) snap
      else if String.eqb k "rate_limit_requests_remaining" then set_if with_requests_remaining (parse_u32 v) snap
      else if String.eqb k "rate_limit_tokens_remaining" then set_if with_tokens_remaining (parse_u32 v) snap
      else if String.eqb k "rate_limit_requests_limit" then set_if with_requests_limit (parse_u32 v) snap
      else if String.eqb k "rate_limit_tokens_limit" then set_if with_tokens_limit (parse_u32 v) snap
      else if String.eqb k "rate_limit_retry_after"
           then set_if with_retry_after (from_secs <$> parse_secs_token v) snap
      else if String.eqb k "rate_limit_body_delay"
           then set_if with_body_delay (from_secs <$> parse_secs_token v) snap
      else if String.eqb k "rate_limit_reset_at_unix"
           then set_if with_reset_at (from_secs <$> parse_usize v) snap
      else snap
  end.
Definition parse_snapshot_metadata (msg : string) : RateLimitSnapshot :=
  fold_left read_token (token_iter msg) (empty_snapshot UnknownKind).

(** ** The client's error message *)

Definition classify_http_error (status : Z) (error_text : string) (retry_after : option Z)
    (snapshot : option RateLimitSnapshot) : string :=
  let tokens :=
    match is_zero_free retry_after with Some d => ["retry_after=" +:+ dec (as_secs d) +:+ "s"] | None => [] end
    ++ match snapshot with Some s => [format_snapshot s] | None => [] end in
  let prefix :=
    match tokens with
    | [] => "HTTP error " +:+ dec status
    | _ => "HTTP error " +:+ dec status +:+ " (" +:+ join_with "; " tokens +:+ ")"
    end in
  prefix +:+ ": " +:+ error_text.

(** [retry_after], of [RetryableError for anyhow::Error] and of
    [BodyStringClassifier] alike: the hint read back from the message. *)
Definition retry_after_hint (msg : string) : option Z :=
  match split_at_str "(retry_after=" msg with
  | None => None
  | Some (_, after) =>
      match split_at_str "s)" after with
      | None => None
      | Some (digits, _) =>
          match parse_usize digits with
          | Some secs => if secs =? 0 then None else Some (from_secs secs)
          | None => None
          end
      end
  end.

(** ** Classification *)

Inductive RetryClassification :=
  | Transient (retry_after : option Z)
  | AuthFailure
  | UsageLimitReached
  | UsageNotIncluded
  | QuotaExceeded
  | InvalidRequest
  | RateLimitedTerminal
  | ContextWindowExceeded.

Inductive Disruption := ProviderQuota | ProviderUnreachable.
Definition disruption_as_str (d : Disruption) : string :=
  match d with ProviderQuota => "provider_quota" | ProviderUnreachable => "provider_unreachable" end.

Definition disruption (c : RetryClassification) : option Disruption :=
  match c with
  | Transient _ => Some ProviderUnreachable
  | QuotaExceeded | UsageLimitReached | UsageNotIncluded => Some ProviderQuota
  | AuthFailure | InvalidRequest | RateLimitedTerminal | ContextWindowExceeded => None
  end.
Definition is_retryable (c : RetryClassification) : bool := match c with Transient _ => true | _ => false end.
Definition classification_retry_after (c : RetryClassification) : option Z :=
  match c with Transient r => r | _ => None end.

Definition ACCOUNT : list string :=
  ["billing"; "credit"; "insufficient balance"; "payment"; "usage limit"; "plan limit"; "upgrade your plan"].
Definition NETWORK : list string :=
  ["error sending request"; "error trying to connect"; "dns error"; "failed to lookup address"; "connection closed";
   "connection aborted"; "broken pipe"; "unexpected eof"; "error decoding response body";
   "request or response body error"; "incomplete message"; "network is unreachable"; "no route to host";
   "host unreachable"; "tls handshake"].

Definition from_msg_substring (msg : string) : RetryClassification :=
  let lower := to_ascii_lowercase msg in
  if contains_str "usage_limit_reached" msg then UsageLimitReached
  else if contains_str "usage_not_included" msg then UsageNotIncluded
  else if contains_str "server_is_overloaded" msg || contains_str "slow_down" msg then Transient None
  else if contains_any msg ["insufficient_quota"; "quota_exceeded"; "billing_hard_limit"] then QuotaExceeded
  else if contains_any msg ["prompt is too long"; "context_length_exceeded"; "maximum context length"; "context window"]
       then ContextWindowExceeded
  else if contains_any msg ["401"; "Unauthorized"] then AuthFailure
  else if contains_any msg ["HTTP error 402"; "HTTP error 403"] && (contains_str "quota" lower || contains_any lower ACCOUNT)
       then QuotaExceeded
  else if contains_str "HTTP error 429" msg && contains_any lower ACCOUNT then QuotaExceeded
  else if contains_any msg ["400"; "Bad Request"; "413"; "Payload Too Large"; "invalid_request"] then InvalidRequest
  else if contains_any msg ["429"; "Too Many Requests"; "rate limit"] then Transient None
  else if contains_any msg ["529"; "Overloaded"] then Transient None
  else if contains_any msg ["500"; "502"; "503"; "504"] then Transient None
  else if contains_any msg ["timeout"; "timed out"; "connection reset"; "refused"; "connection error"] then Transient None
  else if contains_any lower NETWORK then Transient None
  else InvalidRequest.

(** [RetryableError for anyhow::Error]: the classifier before. *)
Definition RETRYABLE_CODES : list string := ["429"; "500"; "502"; "503"; "504"; "529"].
Definition names_code (msg code : string) : bool :=
  contains_str (" " +:+ code) msg || contains_str ("HTTP error " +:+ code) msg || contains_str ("status " +:+ code) msg.
Definition is_retryable_message (msg : string) : bool :=
  existsb (names_code msg) RETRYABLE_CODES
  || contains_any msg ["timeout"; "timed out"; "connection"; "reset"; "refused"].
Definition http_status (msg : string) : option string :=
  List.find (names_code msg) ["400"; "401"; "408"; "413"; "429"; "500"; "502"; "503"; "504"; "529"].

(** disruption.rs, on an error of which the text is left. *)
Definition PEKO_LIMIT : string := "peko_limit".
Definition FAILED : string := "failed".
Definition is_peko_limit_text (msg : string) : bool :=
  (contains_str "quota exceeded: " msg || contains_str "budget exceeded: " msg) && contains_str "(resets at " msg.
Definition failure_kind (msg : string) : string :=
  if is_peko_limit_text msg then PEKO_LIMIT
  else match disruption (from_msg_substring msg) with Some d => disruption_as_str d | None => FAILED end.

(** ** Reading a failed response *)

(** *** Delays named in a body *)

(** [trim_end_matches] of white space and commas. *)
Fixpoint blank_or_commas (skip : nat) (s : string) : bool :=
  match s, skip with
  | EmptyString, _ => true
  | String _ s, S k => blank_or_commas k s
  | String c s', O =>
      if Ascii.eqb c "," then blank_or_commas 0 s'
      else match white_prefix s with Some n => blank_or_commas (n - 1) s' | None => false end
  end.
Fixpoint trim_blank_commas (s : string) : string :=
  match s with
  | EmptyString => EmptyString
  | String c s' => if blank_or_commas 0 s then EmptyString else String c (trim_blank_commas s')
  end.
(** The digits a text ends in; nothing but a digit stands right before a
    longer run, so the run is isolated. *)
Fixpoint trailing_digits (s : string) : string :=
  match s with
  | EmptyString => EmptyString
  | String _ s' => if all_bytes is_digit s then s else trailing_digits s'
  end.

Definition amount_before (before : string) (unit_seconds : Z) : option Z :=
  match trailing_digits (trim_blank_commas before) with
  | EmptyString => None
  | digits =>
      match parse_usize digits with
      | Some n =>
          let secs := Z.min (n * unit_seconds) u64_max in
          if 0 <? secs then Some (from_secs secs) else None
      | None => None
      end
  end.

(** The occurrences of [unit] one after another, each with all the text that
    stands before it. *)
Fixpoint scan_unit (fuel : nat) (unit seen rest : string) (unit_seconds : Z) : option Z :=
  match fuel with
  | O => None
  | S fuel =>
      match split_at_str unit rest with
      | None => None
      | Some (l, r) =>
          match amount_before (seen +:+ l) unit_seconds with
          | Some d => Some d
          | None => scan_unit fuel unit (seen +:+ l +:+ unit) r unit_seconds
          end
      end
  end.
Fixpoint extract_numeric_with_unit (body : string) (units : list string) (unit_seconds : Z) : option Z :=
  match units with
  | [] => None
  | u :: us =>
      or_else (scan_unit (S (String.length body)) u EmptyString body unit_seconds)
              (extract_numeric_with_unit body us unit_seconds)
  end.

Definition MAX_BODY_DELAY : Z := 24 * 60 * 60 * sec_ns.
Definition extract_body_delay (body : string) : option Z :=
  let lc := to_ascii_lowercase body in
  (fun d => Z.min d MAX_BODY_DELAY) <$>
    or_else (extract_numeric_with_unit lc ["second"; "sec"; "s"] 1)
    (or_else (extract_numeric_with_unit lc ["ms"; "millisecond"] 0)
    (or_else (extract_numeric_with_unit lc ["minute"; "min"] 60)
             (extract_numeric_with_unit lc ["hour"; "hr"] 3600))).

(** *** Headers *)

Abbreviation Headers := (list (string * string)).
Definition header_value (headers : Headers) (name : string) : option string :=
  match List.find (fun h => String.eqb (to_ascii_lowercase h.1) (to_ascii_lowercase name)) headers with
  | Some (_, v) => Some v
  | None => None
  end.
Definition header_number (parse : string -> option Z) (headers : Headers) (name : string) : option Z :=
  match header_value headers name with Some s => parse s | None => None end.

Definition parse_openai (headers : Headers) (body : string) : option RateLimitSnapshot :=
  let snap :=
    {| kind := OpenAi;
       requests_remaining := header_number parse_u32 headers "x-ratelimit-remaining-requests";
       tokens_remaining := header_number parse_u32 headers "x-ratelimit-remaining-tokens";
       requests_limit := header_number parse_u32 headers "x-ratelimit-limit-requests";
       tokens_limit := header_number parse_u32 headers "x-ratelimit-limit-tokens";
       reset_at := None; snap_retry_after := None; body_delay := extract_body_delay body |} in
  if is_some (requests_remaining snap) || is_some (tokens_remaining snap) || is_some (body_delay snap)
  then Some snap else None.

(** [SystemTime::checked_add]; the clock runs to [max_time]. *)
Definition reset_from (max_time now : Z) (s : string) : option Z :=
  match parse_usize (trim s) with
  | Some secs => if now + from_secs secs <=? max_time then Some (now + from_secs secs) else None
  | None => None
  end.

Definition parse_anthropic (max_time : Z) (headers : Headers) (body : string) (now : Z) : option RateLimitSnapshot :=
  let snap :=
    {| kind := Anthropic;
       requests_remaining := header_number parse_u32 headers "anthropic-ratelimit-requests-remaining";
       tokens_remaining := header_number parse_u32 headers "anthropic-ratelimit-tokens-remaining";
       requests_limit := None; tokens_limit := None;
       reset_at :=
         match header_value headers "anthropic-ratelimit-requests-reset" with
         | Some s => reset_from max_time now s
         | None => header_number (reset_from max_time now) headers "anthropic-ratelimit-tokens-reset"
         end;
       snap_retry_after := header_number (fun s => from_secs <$> parse_usize (trim s)) headers "retry-after";
       body_delay := extract_body_delay body |} in
  if is_some (requests_remaining snap) || is_some (tokens_remaining snap) || is_some (reset_at snap)
     || is_some (snap_retry_after snap) || is_some (body_delay snap)
  then Some snap else None.

Definition merge_snapshots (o a : RateLimitSnapshot) : RateLimitSnapshot :=
  {| kind := Standard;
     requests_remaining := requests_remaining o;
     tokens_remaining := or_else (tokens_remaining o) (tokens_remaining a);
     requests_limit := or_else (requests_limit o) (requests_limit a);
     tokens_limit := tokens_limit o;
     reset_at := or_else (reset_at o) (reset_at a);
     snap_retry_after := or_else (snap_retry_after o) (snap_retry_after a);
     body_delay := or_else (body_delay o) (body_delay a) |}.

Definition parse_standard (max_time : Z) (headers : Headers) (body : string) (now : Z) : option RateLimitSnapshot :=
  match parse_openai headers body, parse_anthropic max_time headers body now with
  | Some o, Some a => Some (merge_snapshots o a)
  | Some o, None => Some o
  | None, Some a => Some a
  | None, None => None
  end.

Section Client.
(** An RFC 2822 or RFC 3339 date, since the Unix epoch. *)
Context (parse_http_date : string -> option Z).

Definition delta_from_now (target now : Z) : option Z := if now <? target then Some (target - now) else None.
Definition parse_retry_after_header (value : string) (now : Z) : option Z :=
  let trimmed := trim value in
  if String.eqb trimmed EmptyString then None
  else match parse_usize trimmed with
  | Some secs => if secs =? 0 then None else Some (from_secs secs)
  | None => match parse_http_date trimmed with Some t => delta_from_now t now | None => None end
  end.

(** The adapter's parser, if it names one. *)
Definition process_failed_response (parser : option (Headers -> string -> Z -> option RateLimitSnapshot))
    (status : Z) (headers : Headers) (body : string) (now : Z) : string :=
  let retry_after := match header_value headers "retry-after" with
                     | Some v => parse_retry_after_header v now
                     | None => None
                     end in
  let snapshot :=
    match parser with
    | None => None
    | Some parse =>
        match parse headers body now with
        | None => None
        | Some s =>
            Some {| kind := kind s; requests_remaining := requests_remaining s; tokens_remaining := tokens_remaining s;
                    requests_limit := requests_limit s; tokens_limit := tokens_limit s; reset_at := reset_at s;
                    snap_retry_after := or_else (snap_retry_after s) retry_after;
                    body_delay := or_else (body_delay s) (extract_body_delay body) |}
        end
    end in
  classify_http_error status body retry_after snapshot.
End Client.

(** ** Retrying *)

(** [SharedRetryBudget::try_consume] as one step; its compare-and-swap loop is
    below. *)
Definition try_consume (budget : option Z) : bool * option Z :=
  match budget with
  | None => (true, None)
  | Some b => if 0 <? b then (true, Some (b - 1)) else (false, Some b)
  end.

Record RetryPolicy := { max_retries : nat; max_delay : Z }.

Section Executor.
Context {T : Type} (policy : RetryPolicy)
        (** [RetryPolicy::delay_for_attempt] *)
        (delay_for_attempt : nat -> Z)
        (** the outcome of each attempt *)
        (operation : nat -> result T string)
        (** the permits that the other holders of the shared budget take up to
            the end of each attempt, while this call waits for it *)
        (taken : nat -> nat).

(** What [n] calls of [try_consume] elsewhere leave. *)
Definition taken_by_others (n : nat) (budget : option Z) : option Z := (fun b => Z.max (b - Z.of_nat n) 0) <$> budget.

Definition delay_after (msg : string) (attempt : nat) : Z :=
  match or_else (classification_retry_after (from_msg_substring msg)) (retry_after_hint msg) with
  | Some d => Z.min d (max_delay policy)
  | None => delay_for_attempt attempt
  end.

(** The result, the budget left and the waits; [fuel] counts attempts. The
    counter is shared (an [Arc] of an atomic), so it moves between attempts. *)
Fixpoint execute_from (fuel : nat) (attempt : nat) (budget : option Z) (waits : list Z)
  : option (result T string * option Z * list Z) :=
  match fuel with
  | O => None
  | S fuel =>
      let budget := taken_by_others (taken attempt) budget in
      match operation attempt with
      | Ok v => Some (Ok v, budget, waits)
      | Err e =>
          let '(shared_budget_ok, budget) := try_consume budget in
          if (attempt <? max_retries policy)%nat && shared_budget_ok && is_retryable (from_msg_substring e)
          then execute_from fuel (S attempt) budget (waits ++ [delay_after e attempt])
          else Some (Err e, budget, waits)
      end
  end.
Definition execute_with_classifier_and_budget (budget : option Z) : option (result T string * option Z * list Z) :=
  execute_from (S (max_retries policy)) 0 budget [].
End Executor.

(** *** The compare-and-swap loop *)

(** Where one caller of [try_consume] stands. *)
Inductive Caller := Calling | Holding (current : Z) | Consumed | Refused.
#[export] Instance Caller_eq_dec : EqDecision Caller.
Proof. solve_decision. Defined.

Record Budget := { remaining : Z; callers : list Caller }.
Definition move (b : Budget) (i : nat) (r : Z) (c : Caller) : Budget :=
  {| remaining := r; callers := <[i := c]> (callers b) |}.

(** The exchange is the weak one: it may fail although the value is as
    expected. *)
Inductive cas_step : Budget -> Budget -> Prop :=
| step_load b i : callers b !! i = Some Calling -> cas_step b (move b i (remaining b) (Holding (remaining b)))
| step_swap b i c : callers b !! i = Some (Holding c) -> 0 < c -> remaining b = c ->
    cas_step b (move b i (c - 1) Consumed)
| step_fail b i c : callers b !! i = Some (Holding c) -> 0 < c ->
    cas_step b (move b i (remaining b) (Holding (remaining b)))
| step_refuse b i c : callers b !! i = Some (Holding c) -> c <= 0 -> cas_step b (move b i (remaining b) Refused).

(** ** Waiting out a disruption *)

Definition QUOTA_BASE : Z := 60 * sec_ns.
Definition QUOTA_CAP : Z := 24 * hour_ns.
Definition UNREACHABLE_BASE : Z := 30 * sec_ns.
Definition UNREACHABLE_CAP : Z := hour_ns.
Definition LIMIT_FALLBACK : Z := hour_ns.

(** [backoff]; [attempts] is a u32. *)
Definition backoff (base attempts cap : Z) : Z :=
  let doublings := Z.min (Z.max (attempts - 1) 0) 20 in
  Z.min (Z.min (base * Z.shiftl 1 doublings) max_duration) cap.

Record Disrupted := { disrupted_kind : string; disrupted_message : string; resets_at : option Z }.

(** [jitter] spreads a wait by up to a tenth. *)
Definition next_attempt (jitter : Z -> Z) (d : Disrupted) (attempts now : Z) : Z :=
  if String.eqb (disrupted_kind d) PEKO_LIMIT then
    match resets_at d with
    | Some t => if now <? t then t else now + LIMIT_FALLBACK
    | None => now + LIMIT_FALLBACK
    end
  else if String.eqb (disrupted_kind d) "provider_quota" then now + jitter (backoff QUOTA_BASE attempts QUOTA_CAP)
  else now + jitter (backoff UNREACHABLE_BASE attempts UNREACHABLE_CAP).

(** ** The metadata reads back *)

Lemma all_bytes_impl (p q : ascii -> bool) s :
  (forall a, p a = true -> q a = true) -> all_bytes p s = true -> all_bytes q s = true.
Proof. intros H. induction s as [|a s IH]; cbn; [done|]. intros [Ha Hs]%andb_prop. by rewrite (H a Ha), (IH Hs). Qed.
Lemma all_bytes_concat p a b : all_bytes p (a +:+ b) = all_bytes p a && all_bytes p b.
Proof. induction a as [|x a IH]; [done|]. rewrite app_cons_str. cbn. by rewrite IH, andb_assoc. Qed.

(** Tokens hold no white space, so trimming leaves them as they are. *)
Lemma token_char_not_white c s : token_char c = true -> white_prefix (String c s) = None.
Proof.
  intros H. destruct (white_prefix (String c s)) eqn:E; [|done]. exfalso. apply white_head in E.
  unfold token_char, is_digit in H. rewrite !orb_true_iff, !andb_true_iff, !N.leb_le, !Ascii.eqb_eq in H.
  destruct H as [[[[[[H|H]|H]| ->]| ->]| ->]| ->]; cbn in E; lia.
Qed.
Lemma trim_token w : all_bytes token_char w = true -> trim w = w.
Proof.
  intros H. assert (Hs : trim_start w = w).
  { unfold trim_start. destruct w as [|c w]; [done|]. cbn in H. apply andb_prop in H as [Hc _].
    cbn [trim_start_from]. by rewrite (token_char_not_white c w Hc). }
  unfold trim. rewrite Hs. clear Hs. induction w as [|c w IH]; [done|]. cbn in H. apply andb_prop in H as [Hc Hw].
  cbn [trim_end]. assert (Hb : is_blank (String c w) = false).
  { rewrite is_blank_unfold. by rewrite (token_char_not_white c w Hc). }
  rewrite Hb. by rewrite IH.
Qed.

Definition is_token (t : string) : bool := negb (String.eqb t EmptyString) && str_has EQUALS t.
Lemma token_iter_pieces msg : token_iter msg = List.filter is_token (split_any (fun a => negb (token_char a)) msg).
Proof.
  unfold token_iter. f_equal. pose proof (split_any_pieces (fun a => negb (token_char a)) msg) as H.
  induction H as [|w l Hw Hl IH]; cbn; [done|]. rewrite IH. f_equal. apply trim_token.
  revert Hw. apply all_bytes_impl. intros a. by destruct (token_char a).
Qed.
Lemma token_iter_sep a c b : token_char c = false -> token_iter (a +:+ String c b) = token_iter a ++ token_iter b.
Proof. intros H. rewrite !token_iter_pieces, split_any_sep by (by rewrite H). apply List.filter_app. Qed.
Lemma token_iter_clean w : all_bytes token_char w = true -> token_iter w = if is_token w then [w] else [].
Proof.
  intros H. rewrite token_iter_pieces. assert (Hw : split_any (fun a => negb (token_char a)) w = [w]).
  { induction w as [|c w IH]; [done|]. cbn in *. apply andb_prop in H as [Hc Hw]. rewrite Hc. cbn. by rewrite IH. }
  rewrite Hw. cbn. by destruct (is_token w).
Qed.
(** A text without [=] holds no token. *)
Lemma token_iter_none s : str_has EQUALS s = false -> token_iter s = [].
Proof.
  rewrite token_iter_pieces. intros H.
  assert (Hp : Forall (fun w => str_has EQUALS w = false) (split_any (fun a => negb (token_char a)) s)).
  { induction s as [|a s IH]; [by repeat constructor|]. cbn in H. destruct (decide (a = EQUALS)) as [|Ha]; [done|].
    specialize (IH H). cbn [split_any]. destruct (negb (token_char a)); [by constructor|].
    destruct (split_any _ s) as [|l ls]; [constructor; [cbn; by rewrite decide_False|done]|].
    inversion_clear IH. constructor; [|done]. cbn. by rewrite decide_False. }
  induction Hp as [|w l Hw Hl IH]; [done|]. cbn. unfold is_token at 1. by rewrite Hw, andb_false_r.
Qed.

(** What the block keeps: whole seconds, and no reset before the epoch. *)
Definition whole_seconds (s : RateLimitSnapshot) : RateLimitSnapshot :=
  {| kind := kind s; requests_remaining := requests_remaining s; tokens_remaining := tokens_remaining s;
     requests_limit := requests_limit s; tokens_limit := tokens_limit s;
     reset_at := match reset_at s with Some t => if 0 <=? t then Some (from_secs (as_secs t)) else None | None => None end;
     snap_retry_after := (fun d => from_secs (as_secs d)) <$> snap_retry_after s;
     body_delay := (fun d => from_secs (as_secs d)) <$> body_delay s |}.

(** The fields are what their types hold: u32 counts, durations, and a clock
    that counts its seconds in 64 bits. *)
Definition u32_field (o : option Z) : Prop := forall n, o = Some n -> 0 <= n <= u32_max.
Definition time_field (o : option Z) : Prop := forall n, o = Some n -> as_secs n <= u64_max.
Definition snapshot_ok (s : RateLimitSnapshot) : Prop :=
  u32_field (requests_remaining s) /\ u32_field (tokens_remaining s) /\ u32_field (requests_limit s)
  /\ u32_field (tokens_limit s) /\ time_field (reset_at s)
  /\ (forall d, snap_retry_after s = Some d \/ body_delay s = Some d -> 0 <= d <= max_duration).

Lemma digit_token a : is_digit a = true -> token_char a = true.
Proof. intros H. unfold token_char. by rewrite H. Qed.
Lemma dec_token n : all_bytes token_char (dec n) = true.
Proof. destruct (dec_digits n) as [H _]. eapply all_bytes_impl, H. apply digit_token. Qed.
Lemma strip_s_app w : strip_s (w +:+ "s") = Some w.
Proof. induction w as [|c w IH]; [done|]. rewrite app_cons_str. cbn [strip_s]. rewrite IH. by destruct w. Qed.
Lemma parse_secs_show d : 0 <= d -> as_secs d <= u64_max -> parse_secs_token (show_secs d) = Some (as_secs d).
Proof.
  intros H0 H1. unfold parse_secs_token, show_secs. rewrite strip_s_app, parse_usize_dec; [done|].
  split; [|done]. apply Z.div_pos; [done|]. reflexivity.
Qed.

(** Each part is one token and sets its field. *)
Lemma part_tokens key show o :
  all_bytes token_char key = true -> (forall n, all_bytes token_char (show n) = true) ->
  Forall (fun t => all_bytes token_char t = true /\ is_token t = true) (part key show o).
Proof.
  intros Hk Hs. destruct o as [n|]; [|constructor]. cbn. constructor; [|constructor]. split.
  - by rewrite !all_bytes_concat, Hk, Hs.
  - unfold is_token. rewrite !str_has_app. cbn. rewrite orb_true_r, andb_true_r. apply negb_true_iff, String.eqb_neq.
    destruct key; [|done]. by destruct (show n).
Qed.

Lemma fold_part key show f o snap :
  (forall n, o = Some n -> read_token snap (key +:+ "=" +:+ show n) = f n snap) ->
  fold_left read_token (part key show o) snap = set_if f o snap.
Proof. intros H. destruct o as [n|]; [|done]. cbn. by apply H. Qed.

Lemma token_key key v : str_has EQUALS key = false -> split_once EQUALS (key +:+ "=" +:+ v) = Some (key, v).
Proof. intros H. change ("=" +:+ v) with (String EQUALS v). by apply split_once_app. Qed.

Ltac read_key := unfold read_token; rewrite token_key by reflexivity; reflexivity.
Lemma read_requests_remaining snap v :
  read_token snap ("rate_limit_requests_remaining" +:+ "=" +:+ v) = set_if with_requests_remaining (parse_u32 v) snap.
Proof. read_key. Qed.
Lemma read_tokens_remaining snap v :
  read_token snap ("rate_limit_tokens_remaining" +:+ "=" +:+ v) = set_if with_tokens_remaining (parse_u32 v) snap.
Proof. read_key. Qed.
Lemma read_requests_limit snap v :
  read_token snap ("rate_limit_requests_limit" +:+ "=" +:+ v) = set_if with_requests_limit (parse_u32 v) snap.
Proof. read_key. Qed.
Lemma read_tokens_limit snap v :
  read_token snap ("rate_limit_tokens_limit" +:+ "=" +:+ v) = set_if with_tokens_limit (parse_u32 v) snap.
Proof. read_key. Qed.
Lemma read_retry_after snap v :
  read_token snap ("rate_limit_retry_after" +:+ "=" +:+ v) = set_if with_retry_after (from_secs <$> parse_secs_token v) snap.
Proof. read_key. Qed.
Lemma read_body_delay snap v :
  read_token snap ("rate_limit_body_delay" +:+ "=" +:+ v) = set_if with_body_delay (from_secs <$> parse_secs_token v) snap.
Proof. read_key. Qed.
Lemma read_reset_at snap v :
  read_token snap ("rate_limit_reset_at_unix" +:+ "=" +:+ v) = set_if with_reset_at (from_secs <$> parse_usize v) snap.
Proof. read_key. Qed.
Lemma read_kind snap k : read_token snap ("rate_limit_kind=" +:+ kind_text k) = with_kind k snap.
Proof. by destruct k. Qed.

Lemma show_secs_token d : all_bytes token_char (show_secs d) = true.
Proof. unfold show_secs. by rewrite all_bytes_concat, dec_token. Qed.
Lemma snapshot_parts_tokens s :
  Forall (fun t => all_bytes token_char t = true /\ is_token t = true) (snapshot_parts s).
Proof.
  unfold snapshot_parts. repeat apply Forall_app_2; try (by apply part_tokens; [|intros; apply dec_token || apply show_secs_token]).
  constructor; [by destruct (kind s)|constructor].
Qed.
Lemma token_iter_space s : token_iter (String " " s) = token_iter s.
Proof. exact (token_iter_sep EmptyString " " s eq_refl). Qed.
Lemma token_iter_join l :
  Forall (fun t => all_bytes token_char t = true /\ is_token t = true) l -> token_iter (join_with "; " l) = l.
Proof.
  induction 1 as [|t l [Hc Ht] Hl IH]; [done|]. destruct l as [|u l].
  - cbn [join_with]. by rewrite token_iter_clean, Ht.
  - rewrite join_cons by done. change ("; " +:+ ?x) with (String ";" (String " " x)).
    rewrite token_iter_sep by done. rewrite token_iter_clean, Ht by done. cbn [app]. f_equal.
    by rewrite token_iter_space.
Qed.

Lemma as_secs_bounds d : 0 <= d <= max_duration -> 0 <= as_secs d <= u64_max.
Proof.
  unfold as_secs, max_duration. intros H. split; [apply Z.div_pos; [lia|reflexivity]|].
  assert (d / sec_ns < u64_max + 1); [|lia]. apply Z.div_lt_upper_bound; [reflexivity|]. unfold sec_ns in *. lia.
Qed.

Lemma snapshot_reads s : snapshot_ok s ->
  fold_left read_token (snapshot_parts s) (empty_snapshot UnknownKind) = whole_seconds s.
Proof.
  intros (H1 & H2 & H3 & H4 & H5 & H6). unfold snapshot_parts. rewrite !fold_left_app. cbn [fold_left]. rewrite read_kind.
  rewrite (fold_part "rate_limit_requests_remaining" dec with_requests_remaining) by (intros n Hn; by rewrite read_requests_remaining, parse_u32_dec by auto).
  rewrite (fold_part "rate_limit_tokens_remaining" dec with_tokens_remaining) by (intros n Hn; by rewrite read_tokens_remaining, parse_u32_dec by auto).
  rewrite (fold_part "rate_limit_requests_limit" dec with_requests_limit) by (intros n Hn; by rewrite read_requests_limit, parse_u32_dec by auto).
  rewrite (fold_part "rate_limit_tokens_limit" dec with_tokens_limit) by (intros n Hn; by rewrite read_tokens_limit, parse_u32_dec by auto).
  rewrite (fold_part "rate_limit_retry_after" show_secs (fun n => with_retry_after (from_secs (as_secs n)))).
  2:{ intros n Hn. assert (Hb : 0 <= n <= max_duration) by auto. pose proof (as_secs_bounds n Hb).
      rewrite read_retry_after, parse_secs_show by lia. done. }
  rewrite (fold_part "rate_limit_body_delay" show_secs (fun n => with_body_delay (from_secs (as_secs n)))).
  2:{ intros n Hn. assert (Hb : 0 <= n <= max_duration) by auto. pose proof (as_secs_bounds n Hb).
      rewrite read_body_delay, parse_secs_show by lia. done. }
  rewrite (fold_part "rate_limit_reset_at_unix" show_unix (fun t => with_reset_at (from_secs (as_secs t)))).
  2:{ intros n Hn. destruct (reset_at s) as [t|]; [|done]. destruct (Z.leb_spec 0 t); [|done]. injection Hn as <-.
      specialize (H5 t eq_refl). unfold show_unix. rewrite read_reset_at, parse_usize_dec; [done|].
      split; [|done]. apply Z.div_pos; [done|]. reflexivity. }
  clear. unfold whole_seconds. destruct s as [k [?|] [?|] [?|] [?|] [t|] [?|] [?|]]; cbn -[Z.leb]; try reflexivity; destruct (0 <=? t); reflexivity.
Qed.

(** The rate-limit metadata of an error survives its trip through the
    error message: from the message the client builds, with or without a
    [Retry-After], the reader recovers the snapshot, its durations cut to whole
    seconds and a reset before the epoch dropped, provided the response body
    itself holds no [=]. *)
Theorem snapshot_survives_message status error_text retry_after s :
  snapshot_ok s -> str_has EQUALS error_text = false ->
  parse_snapshot_metadata (classify_http_error status error_text retry_after (Some s)) = whole_seconds s.
Proof.
  intros Hs Ht. unfold parse_snapshot_metadata.
  set (hint := match is_zero_free retry_after with Some d => ["retry_after=" +:+ dec (as_secs d) +:+ "s"] | None => [] end).
  assert (Hm : classify_http_error status error_text retry_after (Some s)
             = ("HTTP error " +:+ dec status +:+ " ") +:+ String "(" (join_with "; " (hint ++ [format_snapshot s])
                 +:+ String ")" (": " +:+ error_text))).
  { unfold classify_http_error. fold hint. destruct (hint ++ [format_snapshot s]) as [|x l] eqn:E; [by destruct hint|].
    rewrite <- !app_assoc_str. done. }
  rewrite Hm, !token_iter_sep by done. rewrite token_iter_none, (token_iter_none (": " +:+ _)).
  2:{ by rewrite str_has_app, Ht. }
  2:{ rewrite !str_has_app, dec_lacks by done. done. }
  cbn [app]. rewrite app_nil_r.
  assert (Hj : token_iter (join_with "; " (hint ++ [format_snapshot s])) = hint ++ snapshot_parts s).
  { assert (Hh : Forall (fun t => all_bytes token_char t = true /\ is_token t = true) hint).
    { unfold hint. destruct (is_zero_free retry_after); [|constructor]. constructor; [|constructor]. split; [|done].
      by rewrite !all_bytes_concat, dec_token. }
    unfold format_snapshot. destruct hint as [|h l] eqn:E; cbn [app].
    - cbn [join_with]. apply token_iter_join, snapshot_parts_tokens.
    - assert (l = []) as -> by (unfold hint in E; destruct (is_zero_free retry_after); by simplify_eq). cbn [app join_with].
      inversion_clear Hh as [|? ? [Hc Hk] _]. change ("; " +:+ ?x) with (String ";" (String " " x)).
      rewrite token_iter_sep, token_iter_clean, Hk by done. cbn [app]. f_equal.
      rewrite token_iter_space. apply token_iter_join, snapshot_parts_tokens. }
  rewrite Hj, fold_left_app. assert (Hr : fold_left read_token hint (empty_snapshot UnknownKind) = empty_snapshot UnknownKind).
  { unfold hint. destruct (is_zero_free retry_after) as [d|]; [|done]. cbn [fold_left]. unfold read_token.
    change ("retry_after=" +:+ ?x) with ("retry_after" +:+ "=" +:+ x). by rewrite token_key. }
  rewrite Hr. by apply snapshot_reads.
Qed.

(** ** Where the hint is lost *)

Lemma split_at_str_first c p l r :
  str_has c l = false -> split_at_str (String c p) (l +:+ String c p +:+ r) = Some (l, r).
Proof.
  induction l as [|x l IH]; intros H.
  - pose proof (strip_prefix_app (String c p) r) as Hp. rewrite app_nil_l_str, app_cons_str in *. cbn [split_at_str]. by rewrite Hp.
  - rewrite (app_cons_str x l). cbn in H. destruct (decide (x = c)) as [|Hx]; [done|]. cbn [split_at_str strip_prefix].
    rewrite decide_False by congruence. by rewrite IH.
Qed.
Lemma split_at_str_inv p s l r : split_at_str p s = Some (l, r) -> s = l +:+ p +:+ r.
Proof.
  revert l. induction s as [|x s IH]; intros l; cbn [split_at_str].
  - destruct (strip_prefix p _) eqn:E; [|done]. intros [= <- <-]. by apply strip_prefix_Some in E.
  - destruct (strip_prefix p _) eqn:E; [intros [= <- <-]; by apply strip_prefix_Some in E|].
    destruct (split_at_str p s) as [[l' r']|]; [|done]. intros [= <- <-]. rewrite app_cons_str. f_equal. by apply IH.
Qed.
Lemma digits_end a b c c' x y :
  all_bytes is_digit a = true -> all_bytes is_digit b = true -> is_digit c = false -> is_digit c' = false ->
  a +:+ String c x = b +:+ String c' y -> c = c' /\ x = y.
Proof.
  revert b. induction a as [|d a IH]; intros [|e b] Ha Hb Hc Hc'; rewrite ?app_nil_l_str, ?app_cons_str; cbn in *.
  - by intros [= -> ->].
  - intros [= -> _]. apply andb_prop in Hb as [Hb _]. congruence.
  - intros [= -> _]. apply andb_prop in Ha as [Ha _]. congruence.
  - apply andb_prop in Ha as [_ Ha]. apply andb_prop in Hb as [_ Hb]. intros [= _ H]. by eapply IH.
Qed.
Lemma parse_usize_digits s n : parse_usize s = Some n -> all_bytes is_digit (default s (strip_prefix "+" s)) = true.
Proof. unfold parse_usize. destruct (default s _) as [|c d] eqn:E; [done|]. by destruct (all_bytes is_digit _). Qed.

(** Whenever the response yields a rate-limit snapshot, the message's
    [Retry-After] is followed by the snapshot instead of the closing
    parenthesis the reader looks for, and the hint the server gave is not
    read back. *)
Theorem hint_lost_beside_snapshot status error_text d s :
  d <> 0 -> retry_after_hint (classify_http_error status error_text (Some d) (Some s)) = None.
Proof.
  intros Hd. unfold retry_after_hint.
  set (tail := format_snapshot s +:+ ")" +:+ ": " +:+ error_text).
  assert (Hm : classify_http_error status error_text (Some d) (Some s)
             = ("HTTP error " +:+ dec status +:+ " ") +:+ "(retry_after=" +:+ (dec (as_secs d) +:+ "s; " +:+ tail)).
  { unfold classify_http_error, tail. assert (Hz : is_zero_free (Some d) = Some d) by (by destruct d). rewrite Hz.
    cbn [app join_with]. by rewrite <- !app_assoc_str. }
  rewrite Hm.
  change "(retry_after=" with (String "(" "retry_after="). rewrite split_at_str_first.
  2:{ rewrite !str_has_app, dec_lacks by done. done. }
  destruct (split_at_str "s)" _) as [[digits r]|] eqn:E; [|done]. apply split_at_str_inv in E.
  destruct (parse_usize digits) as [n|] eqn:Hp; [|done]. exfalso. apply parse_usize_digits in Hp.
  destruct (dec_digits (as_secs d)) as [Hdd Hne].
  assert (Hplus : default digits (strip_prefix "+" digits) = digits).
  { destruct (strip_prefix "+" digits) as [x|] eqn:Ex; [|done]. apply strip_prefix_Some in Ex as ->.
    destruct (dec (as_secs d)) as [|c w]; [done|]. rewrite !app_cons_str in E. injection E as -> _. by vm_compute in Hdd. }
  rewrite Hplus in Hp.
  destruct (digits_end (dec (as_secs d)) digits "s" "s" ("; " +:+ tail) (")" +:+ r) Hdd Hp eq_refl eq_refl E) as [_ H].
  clearbody tail. discriminate H.
Qed.

(** The reply of an overloaded server with a [Retry-After] of 400 seconds (or
    401) is taken for a bad request (or a bad credential), because the digits of
    the hint itself are searched for status codes; with 30 seconds it is
    retried. *)
Theorem hint_misread_as_status :
  let reply secs := classify_http_error 503 "overloaded" (Some (from_secs secs)) None in
  from_msg_substring (reply 30) = Transient None
  /\ from_msg_substring (reply 400) = InvalidRequest
  /\ from_msg_substring (reply 401) = AuthFailure
  /\ is_retryable_message (reply 400) = true.
Proof. vm_compute. done. Qed.

(** With the parser for both header families, a [Retry-After] in seconds always
    yields a snapshot, so the hint is always lost. *)
Theorem retry_after_header_ignored :
  let msg := process_failed_response (fun _ => None) (Some (parse_standard (10 ^ 30)))
               429 [("Retry-After", "7")] "busy" 0 in
  retry_after_hint msg = None
  /\ snap_retry_after (parse_snapshot_metadata msg) = Some (from_secs 7).
Proof. vm_compute. done. Qed.

(** ** The retry loop *)

Section Loop.
Context {T : Type} (policy : RetryPolicy) (delay_for_attempt : nat -> Z) (operation : nat -> result T string)
        (taken : nat -> nat).

(** Attempt [n] fails in a way that is worth another attempt. *)
Definition retries_at (n : nat) : Prop :=
  exists e, operation n = Err e /\ is_retryable (from_msg_substring e) = true.
(** The permits that others have taken once attempts [0 .. n - 1] are over. *)
Definition others_by (n : nat) : nat := list_sum (map taken (seq 0 n)).
(** What is left of the budget when the others have taken [o] permits and this
    call [n]. *)
Definition budget_less (o n : nat) (budget : option Z) : option Z := (fun b => Z.max (b - Z.of_nat (o + n)) 0) <$> budget.
(** The error of attempt [n] still finds a permit: one for each attempt before
    it and those the others took are fewer than there were. *)
Definition permits (n : nat) (budget : option Z) : Prop := forall b, budget = Some b -> Z.of_nat (others_by (S n) + n) < b.
(** The waits after attempts [0 .. n - 1]. *)
Definition waits_of (n : nat) : list Z :=
  map (fun i => match operation i with Err e => delay_after policy delay_for_attempt e i | Ok _ => 0 end) (seq 0 n).

Lemma waits_of_snoc n e : operation n = Err e -> waits_of (S n) = waits_of n ++ [delay_after policy delay_for_attempt e n].
Proof. intros H. unfold waits_of. rewrite seq_S, map_app. cbn. by rewrite H. Qed.
Lemma others_by_snoc n : others_by (S n) = (others_by n + taken n)%nat.
Proof. unfold others_by. rewrite seq_S, map_app, list_sum_app. cbn. lia. Qed.
Lemma others_take n k budget : taken_by_others (taken n) (budget_less (others_by n) k budget) = budget_less (others_by (S n)) k budget.
Proof. rewrite others_by_snoc. destruct budget as [b|]; [|done]. cbn -[others_by]. f_equal. lia. Qed.

Lemma try_consume_permits n budget :
  permits n budget ->
  try_consume (budget_less (others_by (S n)) n budget) = (true, budget_less (others_by (S n)) (S n) budget).
Proof.
  intros H. destruct budget as [b|]; [|done]. specialize (H b eq_refl). cbn -[others_by].
  destruct (Z.ltb_spec 0 (Z.max (b - Z.of_nat (others_by (S n) + n)) 0)); [|lia]. do 2 f_equal. lia.
Qed.
Lemma try_consume_exhausted n b :
  b <= Z.of_nat (others_by (S n) + n) ->
  try_consume (budget_less (others_by (S n)) n (Some b)) = (false, budget_less (others_by (S n)) (S n) (Some b)).
Proof.
  intros H. cbn -[others_by]. destruct (Z.ltb_spec 0 (Z.max (b - Z.of_nat (others_by (S n) + n)) 0)); [lia|]. do 2 f_equal. lia.
Qed.
Lemma permits_dec n budget : permits n budget \/ exists b, budget = Some b /\ b <= Z.of_nat (others_by (S n) + n).
Proof.
  destruct budget as [b|]; [|by left].
  destruct (Z.lt_decidable (Z.of_nat (others_by (S n) + n)) b); [left; by intros ? [= <-]|right; eauto with lia].
Qed.

(** What the error of attempt [k] does to the budget, and when it is retried. *)
Lemma error_step k budget e :
  operation k = Err e ->
  exists ok, try_consume (budget_less (others_by (S k)) k budget) = (ok, budget_less (others_by (S k)) (S k) budget)
    /\ ((k <? max_retries policy)%nat && ok && is_retryable (from_msg_substring e) = true
        <-> (k < max_retries policy)%nat /\ retries_at k /\ permits k budget).
Proof.
  intros Ho. assert (Hr : retries_at k <-> is_retryable (from_msg_substring e) = true).
  { split; [intros (e' & He & H); congruence|intros H; by exists e]. }
  destruct (permits_dec k budget) as [Hp|(b & -> & Hb)].
  - exists true. split; [by apply try_consume_permits|]. rewrite andb_true_r, andb_true_iff, Nat.ltb_lt, Hr. naive_solver.
  - exists false. split; [by apply try_consume_exhausted|]. rewrite andb_false_r. cbn [andb]. split; [done|].
    intros (_ & _ & H). specialize (H b eq_refl). lia.
Qed.

Lemma execute_from_spec fuel k budget :
  (k + fuel = S (max_retries policy))%nat -> (0 < fuel)%nat ->
  exists n, (k <= n <= max_retries policy)%nat
    /\ (forall i, (k <= i < n)%nat -> retries_at i /\ permits i budget)
    /\ execute_from policy delay_for_attempt operation taken fuel k (budget_less (others_by k) k budget) (waits_of k)
       = Some (operation n, budget_less (others_by (S n)) (match operation n with Ok _ => n | Err _ => S n end) budget, waits_of n)
    /\ (retries_at n -> permits n budget -> n = max_retries policy).
Proof.
  revert k. induction fuel as [|fuel IH]; intros k Hk Hf; [lia|]. cbn [execute_from]. rewrite others_take.
  destruct (operation k) as [v|e] eqn:Ho.
  { exists k. rewrite Ho. split_and!; [lia..|intros i ?; lia|done|]. intros (e & He & _). congruence. }
  destruct (error_step k budget e Ho) as (ok & -> & Hgo).
  destruct ((k <? max_retries policy)%nat && ok && is_retryable (from_msg_substring e)).
  - destruct (proj1 Hgo eq_refl) as (Hlt & Hr & Hp). rewrite <- waits_of_snoc by done.
    destruct (IH (S k)) as (n & Hn & Hi & He & Hs); [lia..|]. exists n. split_and!; [lia..| |done|done].
    intros i Hk'. destruct (decide (i = k)) as [->|]; [done|apply Hi; lia].
  - exists k. rewrite Ho. split_and!; [lia..|intros i ?; lia|done|]. intros Hr Hp.
    destruct (decide (k < max_retries policy)%nat); [|lia]. by discriminate (proj2 Hgo (conj l (conj Hr Hp))).
Qed.

(** C39. A model call is tried again exactly as long as its errors are worth it
    and allowed, whatever permits of the shared budget other calls take
    meanwhile: the loop always ends, with the outcome of the first attempt
    that succeeds, fails for good, or comes when the retries are used up or
    the shared permits, its own and the others' together, are. It makes at
    most [max_retries] retries, waits once between attempts, by the server's
    hint cut to the policy's maximum or by the policy's backoff, and has taken
    one permit for each retry it made, and for a call that fails at most one
    more. *)
Theorem retry_loop_exact (permits_at_start : option nat) :
  let budget := Z.of_nat <$> permits_at_start in
  exists n left k, (n <= max_retries policy)%nat
    /\ (forall i, (i < n)%nat -> retries_at i /\ permits i budget)
    /\ (retries_at n -> permits n budget -> n = max_retries policy)
    /\ execute_with_classifier_and_budget policy delay_for_attempt operation taken budget
       = Some (operation n, left, waits_of n)
    /\ left = budget_less (others_by (S n)) k budget
    /\ (n <= k <= S n)%nat /\ (forall v, operation n = Ok v -> k = n).
Proof.
  intros budget.
  destruct (execute_from_spec (S (max_retries policy)) 0 budget) as (n & Hn & Hi & He & Hs); [lia..|].
  assert (Hb : budget_less (others_by 0) 0 budget = budget) .
  { unfold budget. destruct permits_at_start as [p|]; [|done].
    change (Some (Z.max (Z.of_nat p - Z.of_nat 0) 0) = Some (Z.of_nat p)). f_equal. lia. }
  rewrite Hb in He. eexists n, _, _. split; [lia|]. split; [intros i Hlt; apply Hi; lia|]. split; [done|].
  split; [exact He|]. split; [reflexivity|]. split; [destruct (operation n); lia|]. by intros v ->.
Qed.
End Loop.

(** The shared budget is charged for errors that are not retried: an error
    final at once takes one of the permits meant for retries. *)
Theorem final_error_takes_permit (e : string) (b : Z) policy delays :
  is_retryable (from_msg_substring e) = false -> 0 < b ->
  execute_with_classifier_and_budget (T:=unit) policy delays (fun _ => Err e) (fun _ => 0%nat) (Some b) = Some (Err e, Some (b - 1), []).
Proof.
  intros He Hb. unfold execute_with_classifier_and_budget. cbn [execute_from try_consume taken_by_others fmap option_fmap option_map].
  replace (Z.max (b - Z.of_nat 0) 0) with b by lia.
  destruct (Z.ltb_spec 0 b); [|lia]. by rewrite He, andb_false_r.
Qed.

(** The two classifiers disagree: a connection error in other words than those
    listed was retried by the first and is final for the second. *)
Theorem classifiers_disagree :
  is_retryable_message "connection lost" = true /\ is_retryable (from_msg_substring "connection lost") = false.
Proof. vm_compute. done. Qed.

(** ** The budget under concurrency *)

Definition consumed (b : Budget) : nat := length (List.filter (fun c => bool_decide (c = Consumed)) (callers b)).

Lemma filter_insert_count (p : Caller -> bool) (l : list Caller) i old new :
  l !! i = Some old ->
  (length (List.filter p (<[i := new]> l)) + (if p old then 1 else 0)
   = length (List.filter p l) + (if p new then 1 else 0))%nat.
Proof.
  revert i. induction l as [|c l IH]; intros [|i]; [done..| |]; cbn.
  - intros [= ->]. destruct (p new), (p old); cbn; lia.
  - intros H. specialize (IH i H). destruct (p c); cbn; [exact (f_equal S IH)|exact IH].
Qed.
Lemma consumed_move b i r old new : callers b !! i = Some old ->
  (consumed (move b i r new) + (if bool_decide (old = Consumed) then 1 else 0)
   = consumed b + (if bool_decide (new = Consumed) then 1 else 0))%nat.
Proof. apply (filter_insert_count (fun c => bool_decide (c = Consumed))). Qed.

(** Every value a caller holds was once the counter's, so it is no less than
    the counter now; a caller refused saw the counter at zero. *)
Definition budget_inv (max : Z) (b : Budget) : Prop :=
  0 <= remaining b /\ Z.of_nat (consumed b) + remaining b = max
  /\ Forall (fun c => match c with
                      | Holding v => remaining b <= v
                      | Refused => remaining b = 0
                      | _ => True
                      end) (callers b).

Lemma budget_inv_step max b b' : cas_step b b' -> budget_inv max b -> budget_inv max b'.
Proof.
  intros Hs (H0 & Hc & Hf). destruct Hs as [b i Hi|b i c Hi Hpos Heq|b i c Hi Hpos|b i c Hi Hneg];
    pose proof (consumed_move b i) as Hm; unfold budget_inv.
  - specialize (Hm (remaining b) _ (Holding (remaining b)) Hi). rewrite !bool_decide_eq_false_2 in Hm by done. cbn iota in Hm.
    split_and!; [done|cbn [remaining move]; lia|]. cbn. apply Forall_insert; [done|]. lia.
  - specialize (Hm (c - 1) _ Consumed Hi). rewrite bool_decide_eq_false_2, bool_decide_eq_true_2 in Hm by done. cbn iota in Hm.
    split_and!; cbn [remaining move]; [lia|lia|]. cbn. apply Forall_insert; [|done].
    eapply Forall_impl; [exact Hf|]. intros [| | |]; cbn; lia.
  - specialize (Hm (remaining b) _ (Holding (remaining b)) Hi). rewrite !bool_decide_eq_false_2 in Hm by done. cbn iota in Hm.
    split_and!; [done|cbn [remaining move]; lia|]. cbn. apply Forall_insert; [done|]. lia.
  - specialize (Hm (remaining b) _ Refused Hi). rewrite !bool_decide_eq_false_2 in Hm by done. cbn iota in Hm.
    split_and!; [done|cbn [remaining move]; lia|]. cbn. apply Forall_insert; [done|].
    pose proof (Forall_lookup_1 _ _ _ _ Hf Hi) as Hh. cbn in Hh. lia.
Qed.

(** The shared budget is never overspent and never refuses too early: any
    number of callers that race on its compare-and-swap loop, with exchanges
    failing at will, consume together with what remains exactly the permits
    there were; a caller is refused only once all of them are consumed. *)
Theorem budget_never_oversubscribed (max n : nat) b :
  rtc cas_step {| remaining := Z.of_nat max; callers := replicate n Calling |} b ->
  0 <= remaining b /\ Z.of_nat (consumed b) + remaining b = Z.of_nat max
  /\ (Refused ∈ callers b -> consumed b = max).
Proof.
  intros H. assert (Hi : budget_inv (Z.of_nat max) b).
  { remember {| remaining := Z.of_nat max; callers := replicate n Calling |} as b0 eqn:E.
    assert (H0 : budget_inv (Z.of_nat max) b0).
    { subst b0. split_and!; cbn [remaining]; [lia| |].
      - unfold consumed. cbn [callers]. clear. induction n; cbn; [lia|]. done.
      - cbn. apply Forall_replicate. done. }
    clear E. induction H as [|b b1 b2 Hs _ IH]; [done|]. apply IH. by eapply budget_inv_step. }
  destruct Hi as (H0 & Hc & Hf). split_and!; [done..|]. intros Hin.
  rewrite Forall_forall in Hf. specialize (Hf _ Hin). cbn in Hf. lia.
Qed.

(** ** Backoff *)

(** The wait after a failed attempt starts at the base, doubles with each
    attempt, never shrinks and never passes the cap. *)
Theorem backoff_doubles base cap attempts :
  0 <= base <= cap -> cap <= max_duration -> 0 <= attempts ->
  backoff base attempts cap <= cap
  /\ backoff base attempts cap <= backoff base (attempts + 1) cap
  /\ (1 <= attempts <= 20 -> backoff base attempts cap = Z.min (base * 2 ^ (attempts - 1)) cap).
Proof.
  intros Hb Hc Ha. unfold backoff. set (k := Z.min (Z.max (attempts - 1) 0) 20).
  set (k' := Z.min (Z.max (attempts + 1 - 1) 0) 20). assert (Hk : 0 <= k <= k') by lia.
  rewrite !Z.shiftl_mul_pow2, !Z.mul_1_l by lia. split; [lia|]. split.
  - assert (2 ^ k <= 2 ^ k') by (apply Z.pow_le_mono_r; lia). nia.
  - intros H. replace k with (attempts - 1) by lia. lia.
Qed.

(** ** Concrete runs *)

Module RetryExample.

Definition limited : RateLimitSnapshot :=
  {| kind := Anthropic; requests_remaining := Some 2; tokens_remaining := None; requests_limit := None;
     tokens_limit := None; reset_at := Some (from_secs 100); snap_retry_after := Some (from_secs 7); body_delay := None |}.

Lemma snapshot_survives_message_witness :
  parse_snapshot_metadata (classify_http_error 429 "slow" (Some (from_secs 7)) (Some limited)) = limited.
Proof.
  apply (snapshot_survives_message 429 "slow" (Some (from_secs 7)) limited); [|reflexivity].
  split_and!; try (intros n [= <-]; vm_compute; split; discriminate); [intros n [= <-]; vm_compute; discriminate|].
  intros d [[= <-]|[=]]. vm_compute. split; discriminate.
Defined.

(** One permit, two callers: the second sees the counter change under it. *)
Lemma budget_never_oversubscribed_witness :
  consumed {| remaining := 0; callers := [Consumed; Refused] |} = 1%nat.
Proof.
  destruct (budget_never_oversubscribed 1 2 {| remaining := 0; callers := [Consumed; Refused] |}) as (_ & _ & H).
  - eapply rtc_l; [exact (step_load {| remaining := 1; callers := [Calling; Calling] |} 0 eq_refl)|].
    eapply rtc_l; [exact (step_load {| remaining := 1; callers := [Holding 1; Calling] |} 1 eq_refl)|].
    eapply rtc_l; [exact (step_swap {| remaining := 1; callers := [Holding 1; Holding 1] |} 0 1 eq_refl eq_refl eq_refl)|].
    eapply rtc_l; [exact (step_fail {| remaining := 0; callers := [Consumed; Holding 1] |} 1 1 eq_refl eq_refl)|].
    eapply rtc_l; [exact (step_refuse {| remaining := 0; callers := [Consumed; Holding 0] |} 1 0 eq_refl ltac:(lia))|].
    apply rtc_refl.
  - apply H. set_solver.
Defined.

Lemma backoff_doubles_witness : backoff QUOTA_BASE 3 QUOTA_CAP = Z.min (QUOTA_BASE * 2 ^ (3 - 1)) QUOTA_CAP.
Proof.
  apply (backoff_doubles QUOTA_BASE QUOTA_CAP 3); try (split; vm_compute; discriminate); vm_compute; discriminate.
Defined.
End RetryExample.
