(* ===== verification/Schedule.v ===== *)
(** * Schedule: when a scheduled job fires

    The schedule kinds of peko-rs/cron/src/tools/mod.rs, how a tool call names
    one, the next fire of a schedule, the interval grid with its catch-up, and
    the idle detector (peko-rs/cron/src/idle.rs).  Times are instants and
    durations in nanoseconds.  chrono and the cron expression parser are the
    interface [Chrono]; an operation of theirs that panics gives [None].  A
    computation that may panic or loop is a [Run]. *)

From Stdlib Require Import ZArith Lia Ascii.
From stdpp Require Import base tactics list gmap strings.
From S2P Require Import Prelude Text Calendar.

Open Scope Z_scope.

(** ** Computations that may not return *)

Inductive Run (A : Type) :=
  | Returns (a : A)
  | Panics
  (** still looping when the steps allowed are used up *)
  | Unfinished.
Arguments Returns {A} a.
Arguments Panics {A}.
Arguments Unfinished {A}.

Definition run_bind {A B} (r : Run A) (k : A -> Run B) : Run B :=
  match r with Returns a => k a | Panics => Panics | Unfinished => Unfinished end.
Definition or_panic {A} (o : option A) : Run A := match o with Some a => Returns a | None => Panics end.
Notation "x <-! c ; k" := (run_bind c (fun x => k)) (at level 90, c at next level, right associativity) : rust_scope.
Local Open Scope rust_scope.

(** ** chrono and cron *)

Definition ms_ns : Z := 10 ^ 6.
Definition i64_max : Z := 2 ^ 63 - 1.
(** [n as i64] of a u64. *)
Definition as_i64 (n : Z) : Z := if n <=? i64_max then n else n - 2 ^ 64.

Class Chrono := {
  (** instants a [DateTime<Utc>] holds *)
  representable : Z -> bool;
  (** [Duration::milliseconds] and [Duration::minutes] *)
  milliseconds : Z -> option Z;
  minutes_delta : Z -> option Z;
  parse_from_rfc3339 : string -> result Z string;
  to_rfc3339 : Z -> string;
  (** [Schedule::from_str], [Tz::from_str] *)
  parse_schedule : string -> result unit string;
  parse_timezone : string -> result unit string;
  (** [schedule.after(t).next()] in a zone *)
  next_occurrence : string -> option string -> Z -> option Z;
}.

Class ChronoLaws (C : Chrono) : Prop := {
  representable_bounded : exists lo hi, forall t, representable t = true <-> lo <= t <= hi;
  (** a duration is at most [i64::MAX] milliseconds, either way *)
  milliseconds_law : forall n, milliseconds n = if Z.abs n <=? i64_max then Some (n * ms_ns) else None;
  minutes_law : forall n, minutes_delta n = if Z.abs (n * 60000) <=? i64_max then Some (n * min_ns) else None;
  next_occurrence_later : forall expr tz t t', next_occurrence expr tz t = Some t' -> t < t';
}.

(** [DateTime + Duration]. *)
Definition plus `{Chrono} (t d : Z) : option Z := if representable (t + d) then Some (t + d) else None.

(** ** Schedules *)

Inductive ScheduleKind :=
  | At (at_ : string)
  | Every (every_ms : Z)
  | CronExpr (expr : string) (tz : option string)
  | Idle (minutes : Z).

Definition schedule_display (s : ScheduleKind) : string :=
  match s with
  | At at_ => "at " +:+ at_
  | Every every_ms =>
      let secs := every_ms / 1000 in
      if secs <? 60 then "every " +:+ dec secs +:+ "s"
      else if secs <? 3600 then "every " +:+ dec (secs / 60) +:+ "m"
      else "every " +:+ dec (secs / 3600) +:+ "h"
  | CronExpr expr (Some tz) => "cron '" +:+ expr +:+ "' (" +:+ tz +:+ ")"
  | CronExpr expr None => "cron '" +:+ expr +:+ "'"
  | Idle minutes => "idle " +:+ dec minutes +:+ "m"
  end.

(** Five fields become seven: seconds in front, years behind. *)
Definition normalize_cron_expr (expr : string) : string :=
  let trimmed := trim expr in
  if (length (split_whitespace trimmed) =? 5)%nat then "0 " +:+ trimmed +:+ " *" else trimmed.

Definition CENTURY : Z := 365 * 100 * day_ns.

Section Next.
Context `{C : Chrono}.

Definition calculate_next_run (schedule : ScheduleKind) (after : Z) : Run (result Z string) :=
  match schedule with
  | At at_ =>
      match parse_from_rfc3339 at_ with
      | Err e => Returns (Err ("Invalid timestamp: " +:+ e))
      | Ok dt => if dt <=? after then t <-! or_panic (plus after CENTURY); Returns (Ok t) else Returns (Ok dt)
      end
  | Every every_ms =>
      step <-! or_panic (milliseconds (as_i64 every_ms));
      t <-! or_panic (plus after step);
      Returns (Ok t)
  | CronExpr expr tz =>
      let normalized := normalize_cron_expr expr in
      match parse_schedule normalized with
      | Err e => Returns (Err ("Invalid cron expression: " +:+ e))
      | Ok _ =>
          match (match tz with Some z => parse_timezone z | None => Ok tt end) with
          | Err e => Returns (Err ("Invalid timezone: " +:+ e))
          | Ok _ =>
              match next_occurrence normalized tz after with
              | Some next => Returns (Ok next)
              | None => Returns (Err "No next occurrence found")
              end
          end
      end
  | Idle _ => t <-! or_panic (plus after CENTURY); Returns (Ok t)
  end.

(** [while next <= now { next += step }], at most [fuel] tests. *)
Fixpoint skip_slots (fuel : nat) (step now next : Z) : Run Z :=
  match fuel with
  | O => Unfinished
  | S fuel =>
      if next <=? now then next <-! or_panic (plus next step); skip_slots fuel step now next
      else Returns next
  end.
(** Tests enough for a step forward. *)
Definition slots_fuel (scheduled step now : Z) : nat := Z.to_nat (Z.max 1 ((now - scheduled) / step + 1)).

Definition calculate_next_interval_anchored (scheduled every_ms now : Z) : Run Z :=
  if every_ms =? 0 then Returns now
  else
    step <-! or_panic (milliseconds (as_i64 every_ms));
    next <-! or_panic (plus scheduled step);
    skip_slots (slots_fuel scheduled step now) step now next.

Definition interval_catch_up_slot (scheduled every_ms finished : Z) : Run (option Z) :=
  if every_ms =? 0 then Returns None
  else
    step <-! or_panic (milliseconds (as_i64 every_ms));
    next <-! calculate_next_interval_anchored scheduled every_ms finished;
    missed <-! or_panic (plus next (- step));
    Returns (if scheduled <? missed then Some missed else None).

(** ** Schedules a tool call names *)

(** The schedule fields of a call, each as [params.get(..)] reads it. *)
Record ScheduleParams := {
  p_at : option string;
  p_interval_ms : option Z;
  p_cron : option string;
  p_timezone : option string;
  p_idle_ms : option Z;
}.

(** [local_timezone]: the machine's zone, if it is known and valid. *)
Definition resolve_schedule_kind (local_timezone : option string) (p : ScheduleParams) : result ScheduleKind string :=
  match p_at p, p_interval_ms p, p_cron p, p_idle_ms p with
  | Some time_str, _, _, _ =>
      match parse_from_rfc3339 time_str with
      | Ok _ => Ok (At time_str)
      | Err e => Err ("Invalid 'at' time format (use RFC3339): " +:+ e)
      end
  | None, Some interval_ms, _, _ => Ok (Every interval_ms)
  | None, None, Some expr, _ =>
      match parse_schedule (normalize_cron_expr expr) with
      | Err e => Err ("Invalid cron expression: " +:+ e)
      | Ok _ =>
          match p_timezone p with
          | Some tz =>
              match parse_timezone tz with
              | Ok _ => Ok (CronExpr expr (Some tz))
              | Err e => Err ("Invalid timezone '" +:+ tz +:+ "': " +:+ e)
              end
          | None => Ok (CronExpr expr local_timezone)
          end
      end
  | None, None, None, Some idle_ms => Ok (Idle (Z.max (idle_ms / 60000) 1))
  | None, None, None, None => Err "No schedule provided. Supply one of: cron, at, interval_ms, idle_ms."
  end.

(** [value * mult] wraps around in a release build. *)
Definition duration_unit (input : string) : string * Z :=
  let n := String.length input in
  let digits := take_bytes (n - 1) input in
  match drop_bytes (n - 1) input with
  | "s" => (digits, 1000)
  | "m" => (digits, 60000)
  | "h" => (digits, 3600000)
  | "d" => (digits, 86400000)
  | _ => (input, 1)
  end.
Definition parse_duration_ms (input : string) : result Z string :=
  let input := trim input in
  let '(digits, mult) := duration_unit input in
  match parse_usize (trim digits) with
  | Some value => Ok ((value * mult) mod 2 ^ 64)
  | None => Err ("Invalid duration '" +:+ input +:+ "' (use e.g. 60000, 30s, 5m, 1h, 1d)")
  end.

Definition quoted (s : string) : string := String "034" s +:+ String "034" "".
(** create.rs: [delay] is made an absolute time at once. *)
Definition resolve_schedule (local_timezone : option string) (delay : option string) (p : ScheduleParams) (now : Z)
  : Run (result ScheduleKind string) :=
  match delay with
  | None => Returns (resolve_schedule_kind local_timezone p)
  | Some delay =>
      if is_some (p_at p) || is_some (p_cron p) || is_some (p_interval_ms p) || is_some (p_idle_ms p)
      then Returns (Err "`delay` cannot be combined with `at`, `cron`, `interval_ms`, or `idle_ms`")
      else match parse_duration_ms delay with
           | Err e => Returns (Err e)
           | Ok ms =>
               if ms =? 0 then Returns (Err ("`delay` must be a positive duration (e.g. " +:+ quoted "90s" +:+ ", " +:+ quoted "5m" +:+ ")"))
               else
                 d <-! or_panic (milliseconds (as_i64 ms));
                 at_ <-! or_panic (plus now d);
                 Returns (Ok (At (to_rfc3339 at_)))
           end
  end.
Definition resolve_one_shot (one_shot : option bool) (schedule : ScheduleKind) : bool :=
  default false one_shot || match schedule with At _ => true | _ => false end.

(** update.rs: the schedule an update asks for. *)
Definition resolve_new_schedule (local_timezone : option string) (p : ScheduleParams) (current : ScheduleKind)
  : result (option ScheduleKind) string :=
  let given := length (List.filter (fun b : bool => b) [is_some (p_interval_ms p); is_some (p_cron p); is_some (p_idle_ms p)]) in
  if (1 <? given)%nat then Err "give one new schedule: `interval_ms`, `cron` or `idle_ms`"
  else
    let current_tz := match current with CronExpr _ tz => tz | _ => None end in
    match p_timezone p, p_cron p with
    | Some tz, None =>
        match current with
        | CronExpr expr _ =>
            if (0 <? given)%nat then Err "`timezone` applies to cron expressions, not `interval_ms` or `idle_ms`"
            else match parse_timezone tz with
                 | Ok _ => Ok (Some (CronExpr expr (Some tz)))
                 | Err e => Err ("Invalid timezone '" +:+ tz +:+ "': " +:+ e)
                 end
        | _ => Err ("`timezone` applies to cron expressions; this job runs " +:+ schedule_display current)
        end
    | _, _ =>
        if (given =? 0)%nat then Ok None
        else
          let tz := match p_cron p, p_timezone p with Some _, None => or_else current_tz None | _, _ => p_timezone p end in
          match resolve_schedule_kind local_timezone
                  {| p_at := p_at p; p_interval_ms := p_interval_ms p; p_cron := p_cron p; p_timezone := tz; p_idle_ms := p_idle_ms p |} with
          | Ok s => Ok (Some s)
          | Err e => Err e
          end
    end.

(** ** Idle time *)

(** When each principal was last active; [started_at] stands in for those
    never seen. *)
Record IdleDetector := { last_activities : gmap string Z; started_at : Z }.

Definition record_activity_at (d : IdleDetector) (principal : string) (at_ : Z) : IdleDetector :=
  {| last_activities :=
       <[principal := match last_activities d !! principal with Some entry => Z.max entry at_ | None => at_ end]>
         (last_activities d);
     started_at := started_at d |}.
Definition last_activity (d : IdleDetector) (principal : string) : Z :=
  default (started_at d) (last_activities d !! principal).
Definition idle_window (minutes : Z) : option Z :=
  minutes_delta (if minutes <=? i64_max then minutes else i64_max / 60000).
Definition is_idle (d : IdleDetector) (principal : string) (minutes now : Z) : option bool :=
  (fun window => window <=? now - last_activity d principal) <$> idle_window minutes.
(** [None] is a panic. *)
Definition idle_job_due (d : IdleDetector) (principal : string) (minutes : Z) (last_run : option Z) (now : Z) : option bool :=
  (fun window => (window <=? now - last_activity d principal)
                 && match last_run with Some run => run <? last_activity d principal | None => true end)
    <$> idle_window minutes.
End Next.

(** ** The grid an interval job keeps *)

Section Grid.
Context `{C : Chrono} `{L : !ChronoLaws C}.

Lemma representable_between a b t :
  representable a = true -> representable b = true -> a <= t <= b -> representable t = true.
Proof.
  destruct representable_bounded as (lo & hi & Hb). rewrite !Hb. lia.
Qed.

(** The slot the grid gives: the first one after [now], never the one that
    just ran. *)
Definition grid_index (scheduled step now : Z) : Z := Z.max 1 ((now - scheduled) / step + 1).

Lemma grid_index_spec scheduled step now :
  0 < step ->
  let k := grid_index scheduled step now in
  1 <= k /\ now < scheduled + k * step /\ (forall j, 1 <= j < k -> scheduled + j * step <= now).
Proof.
  intros Hs k. unfold k, grid_index.
  pose proof (Z.div_mod (now - scheduled) step ltac:(lia)) as Hd.
  pose proof (Z.mod_pos_bound (now - scheduled) step Hs) as Hm.
  set (q := (now - scheduled) / step) in *.
  split; [lia|split].
  - destruct (Z.max_spec 1 (q + 1)) as [[? ->]|[? ->]]; nia.
  - intros j Hj. assert (j <= q) by lia. nia.
Qed.

Lemma skip_slots_grid step now next (n : nat) :
  0 < step -> representable next = true -> representable (next + Z.of_nat n * step) = true ->
  (forall j, 0 <= j < Z.of_nat n -> next + j * step <= now) -> now < next + Z.of_nat n * step ->
  skip_slots (S n) step now next = Returns (next + Z.of_nat n * step).
Proof.
  intros Hs. revert next. induction n as [|n IH]; intros next Hr Hr' Hbelow Habove.
  - cbn. destruct (Z.leb_spec next now); [lia|]. f_equal. lia.
  - cbn [skip_slots]. pose proof (Hbelow 0 ltac:(lia)).
    destruct (Z.leb_spec next now); [|lia].
    assert (Hn : representable (next + step) = true)
      by (apply (representable_between next (next + Z.of_nat (S n) * step)); [done..|nia]).
    unfold plus. rewrite Hn. cbn [or_panic run_bind].
    replace (next + Z.of_nat (S n) * step) with (next + step + Z.of_nat n * step) in * by lia.
    apply IH; [done|done| |done].
    intros j Hj. replace (next + step + j * step) with (next + (j + 1) * step) by lia. apply Hbelow. lia.
Qed.

Lemma milliseconds_forward every_ms :
  0 < every_ms <= i64_max -> milliseconds (as_i64 every_ms) = Some (every_ms * ms_ns).
Proof.
  intros Hm. unfold as_i64. destruct (Z.leb_spec every_ms i64_max); [|lia].
  rewrite milliseconds_law. destruct (Z.leb_spec (Z.abs every_ms) i64_max); [done|lia].
Qed.

Lemma anchored_is_grid scheduled every_ms now :
  0 < every_ms <= i64_max -> representable scheduled = true ->
  representable (scheduled + grid_index scheduled (every_ms * ms_ns) now * (every_ms * ms_ns)) = true ->
  calculate_next_interval_anchored scheduled every_ms now
  = Returns (scheduled + grid_index scheduled (every_ms * ms_ns) now * (every_ms * ms_ns)).
Proof.
  intros Hm Hr Hr'. unfold calculate_next_interval_anchored.
  destruct (Z.eqb_spec every_ms 0); [lia|]. rewrite milliseconds_forward by done. cbn [or_panic run_bind].
  assert (Hs : 0 < every_ms * ms_ns) by (unfold ms_ns; lia).
  set (step := every_ms * ms_ns) in *. set (k := grid_index scheduled step now) in *.
  destruct (grid_index_spec scheduled step now Hs) as (Hk & Habove & Hbelow). fold k in Hk, Habove, Hbelow.
  assert (Hn : representable (scheduled + step) = true)
    by (apply (representable_between scheduled (scheduled + k * step)); [done..|nia]).
  unfold plus. rewrite Hn. cbn [or_panic run_bind].
  unfold slots_fuel. fold (grid_index scheduled step now). fold k.
  replace (Z.to_nat k) with (S (Z.to_nat (k - 1))) by lia.
  rewrite skip_slots_grid; rewrite ?Z2Nat.id by lia; try done.
  - f_equal. lia.
  - replace (scheduled + step + (k - 1) * step) with (scheduled + k * step) by lia. done.
  - intros j Hj. replace (scheduled + step + j * step) with (scheduled + (j + 1) * step) by lia. apply Hbelow. lia.
  - lia.
Qed.

Lemma catch_up_is_grid (scheduled every_ms now : Z) :
  let step := every_ms * ms_ns in let k := grid_index scheduled step now in
  0 < every_ms <= i64_max -> representable scheduled = true -> representable (scheduled + k * step) = true ->
  interval_catch_up_slot scheduled every_ms now = Returns (if 1 <? k then Some (scheduled + (k - 1) * step) else None).
Proof.
  cbv zeta. intros Hm Hr Hr'. pose proof (anchored_is_grid scheduled every_ms now Hm Hr Hr') as Hgrid.
  assert (Hs : 0 < every_ms * ms_ns) by (unfold ms_ns; lia).
  pose proof (grid_index_spec scheduled (every_ms * ms_ns) now Hs) as (Hk & _ & _).
  set (step := every_ms * ms_ns) in *. set (k := grid_index scheduled step now) in *.
  assert (Hrp : representable (scheduled + k * step + - step) = true)
    by (apply (representable_between scheduled (scheduled + k * step)); [done..|nia]).
  unfold interval_catch_up_slot. destruct (Z.eqb_spec every_ms 0); [lia|].
  rewrite milliseconds_forward by done. cbn [or_panic run_bind]. rewrite Hgrid. cbn [run_bind].
  fold step. unfold plus. rewrite Hrp. cbn [or_panic run_bind]. f_equal.
  destruct (Z.ltb_spec 1 k), (Z.ltb_spec scheduled (scheduled + k * step + - step)); try nia; [|done].
  f_equal. lia.
Qed.
(** The first slot after [now] is in range when one interval past both the
    schedule and [now] is. *)
Lemma grid_slot_representable (scheduled step now : Z) :
  0 < step -> representable scheduled = true -> representable (Z.max scheduled now + step) = true ->
  representable (scheduled + grid_index scheduled step now * step) = true.
Proof.
  intros Hs Hr Hr'. destruct (grid_index_spec scheduled step now Hs) as (Hk & _ & Hbelow).
  set (k := grid_index scheduled step now) in *.
  assert (Hlast : k = 1 \/ scheduled + (k - 1) * step <= now) by (destruct (Z.eq_dec k 1); [auto|right; apply Hbelow; lia]).
  apply (representable_between scheduled (Z.max scheduled now + step)); [done..|nia].
Qed.

(** C31. For every positive interval up to [i64::MAX] milliseconds, when the
    scheduled time and one interval past the later of it and [now] are dates
    [chrono] can represent, the loop over missed slots ends and gives the first
    slot of the job's own grid [scheduled + k * interval], [k >= 1], that is
    after [now]: the slots it skips are all missed, none is skipped that is
    still ahead, and the grid never drifts.  The catch-up slot is the slot
    before it, the latest one missed, and there is one exactly when a slot was
    missed.  Out of that range the code panics, and an interval of zero gives
    [now] itself ([interval_out_of_range]). *)
Theorem interval_grid (scheduled every_ms now : Z) :
  0 < every_ms <= i64_max -> representable scheduled = true ->
  representable (Z.max scheduled now + every_ms * ms_ns) = true ->
  exists k : Z,
    1 <= k
    /\ calculate_next_interval_anchored scheduled every_ms now = Returns (scheduled + k * (every_ms * ms_ns))
    /\ now < scheduled + k * (every_ms * ms_ns)
    /\ (forall j, 1 <= j < k -> scheduled + j * (every_ms * ms_ns) <= now)
    /\ interval_catch_up_slot scheduled every_ms now
       = Returns (if 1 <? k then Some (scheduled + (k - 1) * (every_ms * ms_ns)) else None).
Proof.
  intros Hm Hr Hr'. assert (Hs : 0 < every_ms * ms_ns) by (unfold ms_ns; lia).
  pose proof (grid_slot_representable _ _ _ Hs Hr Hr') as Hk.
  destruct (grid_index_spec scheduled (every_ms * ms_ns) now Hs) as (? & ? & ?).
  exists (grid_index scheduled (every_ms * ms_ns) now). split_and!; try done; [by apply anchored_is_grid|by apply catch_up_is_grid].
Qed.

(** An interval above [i64::MAX] milliseconds becomes a step backwards:
    no number of tests of the loop over missed slots gives a slot. *)
Theorem huge_interval_never_scheduled (scheduled every_ms now : Z) (fuel : nat) :
  i64_max < every_ms < 2 ^ 64 -> scheduled <= now ->
  forall step next, milliseconds (as_i64 every_ms) = Some step -> plus scheduled step = Some next ->
  forall t, skip_slots fuel step now next <> Returns t.
Proof.
  intros He Hn step next Hstep Hnext.
  assert (Hneg : step < 0).
  { revert Hstep. unfold as_i64. destruct (Z.leb_spec every_ms i64_max); [lia|].
    rewrite milliseconds_law. destruct (_ <=? _); [|done]. intros [= <-]. unfold ms_ns. lia. }
  assert (Hle : next <= now) by (revert Hnext; unfold plus; destruct (representable _); [|done]; intros [= <-]; lia).
  clear Hnext Hstep. revert next Hle. induction fuel as [|fuel IH]; intros next Hle t; [done|].
  cbn. destruct (Z.leb_spec next now); [|lia].
  unfold plus. destruct (representable _); cbn; [|done]. apply IH. lia.
Qed.

(** ** Idle stretches *)

Lemma last_activity_record d p q at_ :
  last_activity (record_activity_at d q at_) p
  = if decide (p = q) then match last_activities d !! q with Some e => Z.max e at_ | None => at_ end
    else last_activity d p.
Proof.
  unfold last_activity, record_activity_at. cbn. destruct (decide (p = q)) as [->|Hne].
  - by rewrite lookup_insert_eq.
  - by rewrite lookup_insert_ne.
Qed.

Definition record_all (d : IdleDetector) (acts : list (string * Z)) : IdleDetector :=
  foldl (fun d a => record_activity_at d a.1 a.2) d acts.

Lemma last_activity_source acts : forall d p,
  last_activity (record_all d acts) p = last_activity d p
  \/ (p, last_activity (record_all d acts) p) ∈ acts.
Proof.
  induction acts as [|[q at_] acts IH]; intros d p; [by left|]. cbn.
  destruct (IH (record_activity_at d q at_) p) as [Heq|Hin]; [|right; by apply list_elem_of_further].
  unfold record_all in *. cbn in *. rewrite Heq, last_activity_record.
  destruct (decide (p = q)) as [->|Hne]; [|by left].
  unfold last_activity. destruct (last_activities d !! q) as [e|]; cbn.
  - destruct (Z.max_spec e at_) as [[? ->]|[? ->]]; [right; left|left]; done.
  - right. left.
Qed.

(** An idle job fires once per idle stretch: after a fire at [ran], it is
    due again only once some activity of its own principal was recorded
    after [ran] and the principal then stayed idle for the whole window. *)
Theorem idle_job_once_per_stretch (d : IdleDetector) (principal : string) (minutes : Z) last_run (ran now : Z)
    (acts : list (string * Z)) (window : Z) :
  0 <= minutes -> idle_window minutes = Some window ->
  idle_job_due d principal minutes last_run ran = Some true ->
  idle_job_due (record_all d acts) principal minutes (Some ran) now = Some true ->
  exists at_, (principal, at_) ∈ acts /\ ran < at_ /\ at_ + window <= now
              /\ at_ = last_activity (record_all d acts) principal.
Proof.
  intros Hm Hw. unfold idle_job_due. rewrite Hw. cbn. intros [= Hdue] [= Hdue'].
  apply andb_prop in Hdue as [Hidle _]. apply andb_prop in Hdue' as [Hidle' Hrun].
  apply Z.leb_le in Hidle, Hidle'. apply Z.ltb_lt in Hrun.
  assert (Hpos : 0 <= window).
  { revert Hw. unfold idle_window. rewrite minutes_law. set (n := if minutes <=? i64_max then _ else _).
    assert (0 <= n) by (subst n; unfold i64_max in *; destruct (_ <=? _); [lia|done]).
    destruct (Z.abs (n * 60000) <=? i64_max); [|discriminate]. intros [= <-]. unfold min_ns, sec_ns. lia. }
  destruct (last_activity_source acts d principal) as [Heq|Hin]; [lia|].
  eexists. split; [exact Hin|]. lia.
Qed.

(** The clamp of the idle window does not cover the values that need it:
    the window of a number of minutes that fits an i64 but not a duration
    panics, and only a number that does not fit an i64 is clamped. *)
Theorem idle_window_panics (minutes : Z) :
  0 <= minutes < 2 ^ 64 ->
  (idle_window minutes = None <-> i64_max / 60000 < minutes <= i64_max).
Proof.
  intros Hm. unfold idle_window. rewrite minutes_law. unfold i64_max in *.
  destruct (Z.leb_spec minutes (2 ^ 63 - 1)).
  - destruct (Z.leb_spec (Z.abs (minutes * 60000)) (2 ^ 63 - 1)); split; try done; intros; lia.
  - split; [|lia]. intros Hn. exfalso. revert Hn. vm_compute. discriminate.
Qed.
End Grid.

(** A duration is the written number times its unit modulo 2^64: a delay
    of 213503982335 days is taken for one of about nine and a half hours. *)
Lemma parse_duration_wraps : parse_duration_ms "213503982335d" = Ok 34448384.
Proof. vm_compute. reflexivity. Qed.

(** ** A concrete clock *)

Module ScheduleExample.

(** Instants within 2^80 ns of the epoch, chrono's durations, and expressions
    that match every whole minute. *)
#[local] Instance clock : Chrono := {
  representable t := (- 2 ^ 80 <=? t) && (t <=? 2 ^ 80);
  milliseconds n := if Z.abs n <=? i64_max then Some (n * ms_ns) else None;
  minutes_delta n := if Z.abs (n * 60000) <=? i64_max then Some (n * min_ns) else None;
  parse_from_rfc3339 s := match parse_usize s with Some n => Ok (n * ms_ns) | None => Err "not a time" end;
  to_rfc3339 t := dec (t / ms_ns);
  parse_schedule _ := Ok tt;
  parse_timezone _ := Ok tt;
  next_occurrence _ _ t := Some ((t / min_ns + 1) * min_ns);
}.

#[local] Instance clock_laws : ChronoLaws clock.
Proof.
  split; [|done|done|].
  - exists (- 2 ^ 80), (2 ^ 80). intros t. cbn [representable clock].
    rewrite andb_true_iff, !Z.leb_le. done.
  - intros expr tz t t' [= <-]. pose proof (Z.div_mod t min_ns ltac:(done)).
    pose proof (Z.mod_pos_bound t min_ns ltac:(done)). lia.
Qed.

(** A job every minute, due at 0, that finished after two and a half. *)
Lemma interval_grid_witness :
  exists k, calculate_next_interval_anchored 0 60000 (150000 * ms_ns) = Returns (0 + k * (60000 * ms_ns)).
Proof.
  destruct (interval_grid 0 60000 (150000 * ms_ns)) as (k & _ & Hk & _); [done|reflexivity|reflexivity|].
  exists k. exact Hk.
Defined.

(** A slot past the last date panics, and no interval gives no later slot. *)
Theorem interval_out_of_range :
  calculate_next_interval_anchored 0 (2 ^ 61) 0 = Panics /\ calculate_next_interval_anchored 0 0 5 = Returns 5.
Proof. split; reflexivity. Qed.

Lemma huge_interval_never_scheduled_witness :
  forall t, skip_slots 100 (- 60000 * ms_ns) 0 (- 60000 * ms_ns) <> Returns t.
Proof.
  apply (huge_interval_never_scheduled 0 (2 ^ 64 - 60000) 0 100); [done|done|reflexivity|reflexivity].
Defined.

Lemma idle_job_once_per_stretch_witness :
  exists at_, ("p", at_) ∈ [("p", 20 * min_ns)] /\ 10 * min_ns < at_ /\ at_ + 5 * min_ns <= 30 * min_ns
    /\ at_ = last_activity (record_all {| last_activities := ∅; started_at := 0 |} [("p", 20 * min_ns)]) "p".
Proof.
  apply (idle_job_once_per_stretch {| last_activities := ∅; started_at := 0 |} "p" 5 None (10 * min_ns) (30 * min_ns));
    [lia|reflexivity|reflexivity|reflexivity].
Defined.

Lemma idle_window_panics_witness : idle_window (2 ^ 60) = None.
Proof. apply idle_window_panics; [done|]. split; reflexivity || discriminate. Defined.
End ScheduleExample.
