(* ===== verification/CronStore.v ===== *)
(** * CronStore: scheduled jobs and their run history on disk

    The job types and checks of peko-rs/cron/src/tools/mod.rs and the
    scheduler store [CronScheduler] of peko-rs/cron/src/lib.rs.  A schedule
    file is the database it holds, or why none can be read; every change is a
    read-modify-write under the file lock, so it is one function from file to
    file, and a failed or panicking change leaves the file as it was. *)

From Stdlib Require Import ZArith Lia Ascii.
From stdpp Require Import base tactics list gmap strings sorting.
From S2P Require Import Prelude Text Calendar Host ActingFor Schedule.

Open Scope Z_scope.
Local Open Scope rust_scope.

(** ** Jobs *)

Inductive FireWhen := Always | Attention | Quiet.
#[export] Instance FireWhen_eq_dec : EqDecision FireWhen.
Proof. solve_decision. Defined.
Definition fire_when_as_str (w : FireWhen) : string :=
  match w with Always => "always" | Attention => "attention" | Quiet => "quiet" end.
Definition fire_when_parse (s : string) : option FireWhen :=
  match s with "always" => Some Always | "attention" => Some Attention | "quiet" => Some Quiet | _ => None end.

Inductive CronJobAction :=
  | Send (message : string) (target model : option string) (when_ : option FireWhen)
  | SpawnTool (tool_name : string) (tool_params : Json) (wake_on_completion : option bool) (timeout_secs : option Z).
Definition kind_label (a : CronJobAction) : string :=
  match a with Send _ _ _ _ => "send" | SpawnTool _ _ _ _ => "spawn_tool" end.

Record CronJob := {
  job_id : string;
  name : string;
  principal_id : string;
  schedule : ScheduleKind;
  action : CronJobAction;
  delete_after_run : bool;
  enabled : bool;
  job_created_at : Z;
  next_run : Z;
  last_run : option Z;
  last_status : option string;
  run_count : Z;
  consecutive_failures : Z;
  max_retries : option Z;
  origin_session : option string;
  created_by : option ActingFor;
}.

(** Assignments to a job's fields. *)
Definition with_schedule (j : CronJob) (s : ScheduleKind) (next : Z) : CronJob :=
  {| job_id := job_id j; name := name j; principal_id := principal_id j; schedule := s; action := action j;
     delete_after_run := delete_after_run j; enabled := enabled j; job_created_at := job_created_at j;
     next_run := next; last_run := last_run j; last_status := last_status j; run_count := run_count j;
     consecutive_failures := consecutive_failures j; max_retries := max_retries j;
     origin_session := origin_session j; created_by := created_by j |}.
Definition with_action (j : CronJob) (a : CronJobAction) : CronJob :=
  {| job_id := job_id j; name := name j; principal_id := principal_id j; schedule := schedule j; action := a;
     delete_after_run := delete_after_run j; enabled := enabled j; job_created_at := job_created_at j;
     next_run := next_run j; last_run := last_run j; last_status := last_status j; run_count := run_count j;
     consecutive_failures := consecutive_failures j; max_retries := max_retries j;
     origin_session := origin_session j; created_by := created_by j |}.
Definition with_enabled (j : CronJob) (b : bool) : CronJob :=
  {| job_id := job_id j; name := name j; principal_id := principal_id j; schedule := schedule j; action := action j;
     delete_after_run := delete_after_run j; enabled := b; job_created_at := job_created_at j;
     next_run := next_run j; last_run := last_run j; last_status := last_status j; run_count := run_count j;
     consecutive_failures := consecutive_failures j; max_retries := max_retries j;
     origin_session := origin_session j; created_by := created_by j |}.
Definition with_history (j : CronJob) (next : Z) (ran : option Z) (status : option string) (runs failures : Z) : CronJob :=
  {| job_id := job_id j; name := name j; principal_id := principal_id j; schedule := schedule j; action := action j;
     delete_after_run := delete_after_run j; enabled := enabled j; job_created_at := job_created_at j;
     next_run := next; last_run := ran; last_status := status; run_count := runs;
     consecutive_failures := failures; max_retries := max_retries j;
     origin_session := origin_session j; created_by := created_by j |}.

Definition task_description (j : CronJob) : string :=
  match action j with
  | Send message _ _ _ => if bool_decide (message = "") then "scheduled job '" +:+ name j +:+ "'" else message
  | SpawnTool _ _ _ _ => "scheduled job '" +:+ name j +:+ "'"
  end.

(** [n += 1] on a u32, in a release build. *)
Definition incr_u32 (n : Z) : Z := (n + 1) mod 2 ^ 32.

(** ** Checks on a new or changed job *)

Definition SEND_TARGET_TRUNK : string := "trunk".
Definition TRUNK_MIN_INTERVAL_MS : Z := 60000.
Definition ATTENTION_MAX_QUIET_MS : Z := 60 * 60 * 1000.
Definition QUIET_STRETCH_MS : Z := 4 * 60 * 60 * 1000.
Definition QUIET_MAX_WAIT_MS : Z := 12 * 60 * 60 * 1000.
Definition DASH : string := String "226" (String "128" (String "148" EmptyString)).

Definition validate_send_target (target : option string) : result unit string :=
  match target with
  | None => Ok tt
  | Some other =>
      if bool_decide (other = SEND_TARGET_TRUNK) then Ok tt
      else Err ("invalid cron Send target '" +:+ other +:+ "': only " +:+ quoted SEND_TARGET_TRUNK +:+ " is supported")
  end.

Definition validate_trunk_send_interval (s : ScheduleKind) (target : option string) : result unit string :=
  if match target with Some t => negb (bool_decide (t = SEND_TARGET_TRUNK)) | None => false end then Ok tt
  else match s with
       | Every every_ms =>
           if every_ms <? TRUNK_MIN_INTERVAL_MS then
             Err ("cron Send (trunk target) with an interval schedule requires every_ms >= "
                  +:+ dec TRUNK_MIN_INTERVAL_MS +:+ " (" +:+ dec (TRUNK_MIN_INTERVAL_MS / 1000) +:+ "s); got "
                  +:+ dec every_ms +:+ "ms. A faster self-targeted keepalive burns tokens on every tick with no external input "
                  +:+ DASH +:+ " use a cron expression or a one-shot 'at' for sub-minute timing.")
           else Ok tt
       | _ => Ok tt
       end.

Definition when_refusal (w : FireWhen) (s : ScheduleKind) : option string :=
  match w, s with
  | (Attention | Quiet), At _ => Some "`when` needs a recurring schedule; a one-shot job always runs its turn"
  | Quiet, Idle _ =>
      Some ("`when: " +:+ quoted "quiet" +:+ "` needs an interval or cron schedule; an idle schedule already fires once per quiet stretch")
  | _, _ => None
  end.

(** How a run's status moves the failure count: reset, count, or leave. *)
Definition QUIET_STATUS : string := "quiet".
Definition INTERRUPTED_STATUS : string := "interrupted".
Definition SKIPPED_STATUS : string := "skipped".
Definition DEFERRED_STATUS : string := "deferred".
Definition status_resets_failures (status : string) : option bool :=
  if bool_decide (status = "success") then Some true
  else if bool_decide (status = INTERRUPTED_STATUS) || bool_decide (status = SKIPPED_STATUS) || bool_decide (status = DEFERRED_STATUS)
  then None else Some false.
Definition count_failure (failures : Z) (status : string) : Z :=
  match status_resets_failures status with
  | Some true => 0
  | Some false => incr_u32 failures
  | None => failures
  end.

(** ** The database *)

Record CronRun := {
  run_id : string;
  run_job_id : string;
  run_started_at : Z;
  finished_at : option Z;
  status : string;
  output : option string;
  error : option string;
}.
#[export] Instance CronRun_eq_dec : EqDecision CronRun.
Proof. solve_decision. Defined.
Record CronDatabase := { version : Z; jobs : list CronJob; runs : list CronRun }.
Definition default_db : CronDatabase := {| version := 2; jobs := []; runs := [] |}.
Definition set_jobs (db : CronDatabase) (l : list CronJob) : CronDatabase :=
  {| version := version db; jobs := l; runs := runs db |}.
Definition set_runs (db : CronDatabase) (l : list CronRun) : CronDatabase :=
  {| version := version db; jobs := jobs db; runs := l |}.

(** What a schedule file holds. *)
Inductive ScheduleFile :=
  | Absent
  | Blank
  (** it cannot be read, or not parsed: why *)
  | Unreadable (why : string)
  | Holds (db : CronDatabase).

Definition read_db (f : ScheduleFile) : result CronDatabase string :=
  match f with
  | Absent | Blank => Ok default_db
  | Unreadable why => Err why
  | Holds db => Ok db
  end.
(** [refused] is why the file cannot be written, when it cannot; the rename
    of the finished temporary file is what changes it. *)
Definition write_db (refused : option string) (f : ScheduleFile) (db : CronDatabase) : ScheduleFile * result unit string :=
  match refused with
  | Some why => (f, Err why)
  | None => (Holds db, Ok tt)
  end.
Definition init_db (refused : option string) (f : ScheduleFile) : ScheduleFile * result unit string :=
  match f with Absent => write_db refused f default_db | _ => (f, Ok tt) end.

(** A change gives the database it leaves, its result, and whether it changed
    anything. *)
Definition mutate {T} (refused : option string) (f : ScheduleFile)
    (change : CronDatabase -> Run (result (CronDatabase * T * bool) string)) : ScheduleFile * Run (result T string) :=
  match read_db f with
  | Err e => (f, Returns (Err e))
  | Ok db =>
      match change db with
      | Panics => (f, Panics)
      | Unfinished => (f, Unfinished)
      | Returns (Err e) => (f, Returns (Err e))
      | Returns (Ok (db', out, false)) => (f, Returns (Ok out))
      | Returns (Ok (db', out, true)) =>
          let '(f', w) := write_db refused f db' in
          (f', Returns (match w with Ok _ => Ok out | Err e => Err e end))
      end
  end.

(** The first job [id] changed by [g]: [None] when there is none. *)
Fixpoint change_first {A} (p : A -> bool) (g : A -> A) (l : list A) : option (list A) :=
  match l with
  | [] => None
  | x :: l => if p x then Some (g x :: l) else (fun l' => x :: l') <$> change_first p g l
  end.
Definition is_job (id : string) (j : CronJob) : bool := bool_decide (job_id j = id).
Definition is_run (id : string) (r : CronRun) : bool := bool_decide (run_id r = id).

(** The shape of most changes: one job, whether it was there. *)
Definition change_job (id : string) (g : CronJob -> CronJob) (db : CronDatabase)
  : Run (result (CronDatabase * bool * bool) string) :=
  Returns (Ok (match change_first (is_job id) g (jobs db) with
               | Some l => (set_jobs db l, true, true)
               | None => (db, false, false)
               end)).

(** ** Changes *)

Section Store.
Context `{C : Chrono}.

(** What [add_job] checks before it opens the file. *)
Definition check_action (j : CronJob) : result unit string :=
  match action j with
  | Send message target _ when_ =>
      match match when_ with Some w => when_refusal w (schedule j) | None => None end with
      | Some refusal => Err refusal
      | None =>
          if bool_decide (trim message = "") then Err ("CronJob " +:+ kind_label (action j) +:+ " action requires a non-empty 'message'")
          else _ <-? validate_send_target target; validate_trunk_send_interval (schedule j) target
      end
  | SpawnTool tool_name _ _ _ =>
      if bool_decide (trim tool_name = "") then Err "CronJob SpawnTool action requires a non-empty 'tool_name'" else Ok tt
  end.
Definition check_at_time (s : ScheduleKind) (now : Z) : result unit string :=
  match s with
  | At at_ =>
      match parse_from_rfc3339 at_ with
      | Err e => Err ("Invalid 'at' timestamp (use RFC3339): " +:+ e)
      | Ok dt => if dt <=? now then Err ("'at' time " +:+ at_ +:+ " is in the past; use a future timestamp or interval_ms") else Ok tt
      end
  | _ => Ok tt
  end.
Definition add_job (refused : option string) (now : Z) (j : CronJob) (f : ScheduleFile)
  : ScheduleFile * Run (result unit string) :=
  match (_ <-? check_action j; check_at_time (schedule j) now) with
  | Err e => (f, Returns (Err e))
  | Ok _ =>
      mutate refused f (fun db =>
        Returns (if existsb (is_job (job_id j)) (jobs db)
                 then Err ("Cron job with id '" +:+ job_id j +:+ "' already exists")
                 else Ok (set_jobs db (jobs db ++ [j]), tt, true)))
  end.

Definition after_run (st : string) (next now : Z) (j : CronJob) : CronJob :=
  with_history j next (Some now) (Some st) (incr_u32 (run_count j)) (count_failure (consecutive_failures j) st).
Definition update_job_after_run (refused : option string) (now : Z) (id st : string) (next : Z) (f : ScheduleFile)
  : ScheduleFile * Run (result unit string) :=
  let '(f', r) := mutate refused f (change_job id (after_run st next now)) in
  (f', o <-! r; Returns (_ <-? o; Ok tt)).

Definition held_back (st : string) (next : Z) (j : CronJob) : CronJob :=
  with_history j next (last_run j) (Some st) (run_count j) (consecutive_failures j).
Definition record_quiet (refused : option string) (id : string) (next : Z) (f : ScheduleFile) :=
  mutate refused f (change_job id (held_back QUIET_STATUS next)).
Definition record_deferred (refused : option string) (id : string) (next : Z) (f : ScheduleFile) :=
  mutate refused f (change_job id (held_back DEFERRED_STATUS next)).

Definition brought_forward (at_ : Z) (j : CronJob) : CronJob :=
  with_history j at_ (last_run j) (last_status j) (run_count j) (consecutive_failures j).
Definition bring_forward (refused : option string) (id : string) (at_ : Z) (f : ScheduleFile) :=
  mutate refused f (fun db =>
    match List.find (is_job id) (jobs db) with
    | None => Returns (Ok (db, false, false))
    | Some j => if next_run j <=? at_ then Returns (Ok (db, false, false)) else change_job id (brought_forward at_) db
    end).

Definition ended (st : string) (now : Z) (j : CronJob) : CronJob :=
  with_history j (next_run j) (Some now) (Some st) (run_count j) (count_failure (consecutive_failures j) st).
Definition set_job_last_status (refused : option string) (now : Z) (id st : string) (f : ScheduleFile) :=
  mutate refused f (change_job id (ended st now)).

Definition delete_job (refused : option string) (id : string) (f : ScheduleFile) :=
  mutate refused f (fun db =>
    let kept := List.filter (fun j => negb (is_job id j)) (jobs db) in
    let deleted := (length kept <? length (jobs db))%nat in
    Returns (Ok (set_jobs db kept, deleted, deleted))).

Definition set_job_enabled (refused : option string) (id : string) (b : bool) (f : ScheduleFile) :=
  mutate refused f (change_job id (fun j => with_enabled j b)).

Record JobPatch := {
  p_enabled : option bool;
  p_wake_on_completion : option bool;
  p_model : option (option string);
  p_when : option FireWhen;
  p_schedule : option ScheduleKind;
  p_message : option string;
}.
Definition patch_is_empty (p : JobPatch) : bool :=
  negb (is_some (p_enabled p)) && negb (is_some (p_wake_on_completion p)) && negb (is_some (p_model p))
  && negb (is_some (p_when p)) && negb (is_some (p_schedule p)) && negb (is_some (p_message p)).

(** The blocks of [apply_patch], in order. *)
Definition patch_schedule (p : JobPatch) (now : Z) (j : CronJob) : Run (result CronJob string) :=
  match p_schedule p with
  | None => Returns (Ok j)
  | Some (At _) =>
      Returns (Err ("update keeps a job recurring; create a one-shot job instead of moving job " +:+ job_id j +:+ " to a single time"))
  | Some s =>
      next <-! calculate_next_run s now;
      Returns (t <-? next; Ok (with_schedule j s t))
  end.
Definition patch_action (p : JobPatch) (j : CronJob) : result CronJob string :=
  if negb (is_some (p_model p) || is_some (p_when p) || is_some (p_message p)) then Ok j
  else match action j with
       | SpawnTool _ _ _ _ =>
           Err ("`model`, `when` and `message` apply to message jobs only; job " +:+ job_id j +:+ " runs a fixed tool call")
       | Send message target model when_ =>
           message' <-? match p_message p with
                        | Some m => if bool_decide (trim m = "") then Err "`message` must be non-empty" else Ok m
                        | None => Ok message
                        end;
           let model' := match p_model p with
                         | Some (Some m) => if bool_decide (trim m = "") then None else Some m
                         | Some None => None
                         | None => model
                         end in
           let when' := match p_when p with Some w => Some w | None => when_ end in
           Ok (with_action j (Send message' target model' when'))
       end.
Definition patch_checks (p : JobPatch) (j : CronJob) : result unit string :=
  match action j with
  | SpawnTool _ _ _ _ => Ok tt
  | Send _ target _ when_ =>
      _ <-? match (if is_some (p_when p) || is_some (p_schedule p)
                   then match when_ with Some w => when_refusal w (schedule j) | None => None end else None) with
            | Some refusal => Err refusal
            | None => Ok tt
            end;
      if is_some (p_schedule p) then validate_trunk_send_interval (schedule j) target else Ok tt
  end.
Definition patch_enabled (p : JobPatch) (j : CronJob) : CronJob :=
  match p_enabled p with
  | None => j
  | Some false => with_enabled j false
  | Some true =>
      let j := with_enabled j true in
      with_history j (next_run j) (last_run j) (last_status j) (run_count j) 0
  end.
Definition patch_wake (p : JobPatch) (j : CronJob) : CronJob :=
  match p_wake_on_completion p, action j with
  | Some wake, SpawnTool tool_name tool_params _ timeout_secs => with_action j (SpawnTool tool_name tool_params (Some wake) timeout_secs)
  | _, _ => j
  end.
Definition apply_patch (p : JobPatch) (now : Z) (j : CronJob) : Run (result CronJob string) :=
  scheduled <-! patch_schedule p now j;
  Returns (j1 <-? scheduled; j2 <-? patch_action p j1; _ <-? patch_checks p j2; Ok (patch_wake p (patch_enabled p j2))).

Definition update_job_fields (refused : option string) (now : Z) (id : string) (p : JobPatch) (f : ScheduleFile) :=
  mutate refused f (fun db =>
    match List.find (is_job id) (jobs db) with
    | None => Returns (Ok (db, false, false))
    | Some j =>
        patched <-! apply_patch p now j;
        match patched with
        | Err e => Returns (Err e)
        | Ok j' => change_job id (fun _ => j') db
        end
    end).

(** ** Runs *)

(** [sort_by_key] on [Reverse(started_at)], a stable sort. *)
Fixpoint insert_newest (r : CronRun) (l : list CronRun) : list CronRun :=
  match l with
  | [] => [r]
  | x :: l => if run_started_at x <=? run_started_at r then r :: x :: l else x :: insert_newest r l
  end.
Definition newest_first (l : list CronRun) : list CronRun := foldr insert_newest [] l.

Definition MAX_RUNS : nat := 1000.
Definition record_run (refused : option string) (r : CronRun) (f : ScheduleFile) :=
  mutate refused f (fun db =>
    let all := runs db ++ [r] in
    Returns (Ok (set_runs db (if (MAX_RUNS <? length all)%nat then take MAX_RUNS (newest_first all) else all), tt, true))).

(** A change to the open run [id]. *)
Definition change_open_run (id : string) (g : CronRun -> CronRun) (db : CronDatabase)
  : Run (result (CronDatabase * bool * bool) string) :=
  match List.find (is_run id) (runs db) with
  | None => Returns (Ok (db, false, false))
  | Some r =>
      if is_some (finished_at r) then Returns (Ok (db, false, false))
      else Returns (Ok (match change_first (is_run id) g (runs db) with
                        | Some l => (set_runs db l, true, true)
                        | None => (db, false, false)
                        end))
  end.
Definition attached (out err : option string) (r : CronRun) : CronRun :=
  {| run_id := run_id r; run_job_id := run_job_id r; run_started_at := run_started_at r; finished_at := finished_at r;
     status := status r; output := out; error := err |}.
Definition attach_run_output (refused : option string) (id : string) (out err : option string) (f : ScheduleFile) :=
  mutate refused f (change_open_run id (attached out err)).
Definition finalized (now : Z) (st : string) (out err : option string) (r : CronRun) : CronRun :=
  {| run_id := run_id r; run_job_id := run_job_id r; run_started_at := run_started_at r; finished_at := Some now;
     status := st; output := out; error := err |}.
Definition finalize_run (refused : option string) (now : Z) (id st : string) (out err : option string) (f : ScheduleFile) :=
  mutate refused f (change_open_run id (finalized now st out err)).

(** ** Reads *)

Definition get_job (id : string) (f : ScheduleFile) : result (option CronJob) string :=
  db <-? read_db f; Ok (List.find (is_job id) (jobs db)).
Fixpoint insert_soonest (j : CronJob) (l : list CronJob) : list CronJob :=
  match l with
  | [] => [j]
  | x :: l => if next_run j <=? next_run x then j :: x :: l else x :: insert_soonest j l
  end.
Definition soonest_first (l : list CronJob) : list CronJob := foldr insert_soonest [] l.
Definition list_jobs (include_disabled : bool) (f : ScheduleFile) : result (list CronJob) string :=
  db <-? read_db f; Ok (soonest_first (if include_disabled then jobs db else List.filter enabled (jobs db))).
Definition due_jobs (now : Z) (f : ScheduleFile) : result (list CronJob) string :=
  db <-? read_db f; Ok (soonest_first (List.filter (fun j => enabled j && (next_run j <=? now)) (jobs db))).
Definition idle_jobs (include_disabled : bool) (f : ScheduleFile) : result (list CronJob) string :=
  l <-? list_jobs include_disabled f;
  Ok (List.filter (fun j => match schedule j with Idle _ => true | _ => false end) l).
Definition get_run_history (id : string) (limit : nat) (f : ScheduleFile) : result (list CronRun) string :=
  db <-? read_db f; Ok (take limit (newest_first (List.filter (fun r => bool_decide (run_job_id r = id)) (runs db)))).
Definition list_running_runs (f : ScheduleFile) : result (list CronRun) string :=
  db <-? read_db f;
  Ok (List.filter (fun r => bool_decide (status r = "running") && negb (is_some (finished_at r))) (runs db)).
End Store.

(** ** Lemmas on changes *)

Lemma mutate_post {T} refused f (change : CronDatabase -> Run (result (CronDatabase * T * bool) string)) :
  (mutate refused f change).1 = f
  \/ exists db db' out, read_db f = Ok db /\ change db = Returns (Ok (db', out, true)) /\ (mutate refused f change).1 = Holds db'.
Proof.
  unfold mutate. destruct (read_db f) as [db|e] eqn:Hr; [|by left].
  destruct (change db) as [[[[db' out] []]|e]| |] eqn:Hc; try by left.
  unfold write_db. destruct refused; [by left|]. right. by exists db, db', out.
Qed.

Lemma change_first_spec {A} (p : A -> bool) g l l' :
  change_first p g l = Some l' ->
  exists a x b, l = a ++ x :: b /\ l' = a ++ g x :: b /\ p x = true /\ List.find p l = Some x /\ Forall (fun y => p y = false) a.
Proof.
  revert l'. induction l as [|x l IH]; intros l'; cbn; [done|].
  destruct (p x) eqn:Hp.
  - intros [= <-]. by exists [], x, l.
  - destruct (change_first p g l) as [l0|]; [|done]. intros [= <-].
    destruct (IH l0 eq_refl) as (a & y & b & -> & -> & Hy & Hf & Ha).
    exists (x :: a), y, b. repeat split; [done|done|by constructor].
Qed.

Lemma change_first_None {A} (p : A -> bool) g l : change_first p g l = None <-> List.find p l = None.
Proof.
  induction l as [|x l IH]; cbn; [done|]. destruct (p x); [done|].
  rewrite <- IH. destruct (change_first p g l); cbn; split; done.
Qed.

Lemma change_job_spec id g db db' out :
  change_job id g db = Returns (Ok (db', out, true)) ->
  exists a j b, jobs db = a ++ j :: b /\ db' = set_jobs db (a ++ g j :: b) /\ job_id j = id /\ List.find (is_job id) (jobs db) = Some j.
Proof.
  unfold change_job. destruct (change_first _ _ _) as [l|] eqn:Hc; [|done]. intros [= <- <-].
  apply change_first_spec in Hc as (a & j & b & Hl & -> & Hj & Hf & _).
  apply bool_decide_eq_true in Hj. by exists a, j, b.
Qed.

Lemma change_open_run_spec id g db db' out :
  change_open_run id g db = Returns (Ok (db', out, true)) ->
  exists a r b, runs db = a ++ r :: b /\ db' = set_runs db (a ++ g r :: b) /\ run_id r = id /\ finished_at r = None.
Proof.
  unfold change_open_run. destruct (List.find _ _) as [r|] eqn:Hf; [|done].
  destruct (is_some (finished_at r)) eqn:Ho; [done|].
  destruct (change_first _ _ _) as [l|] eqn:Hc; [|done]. intros [= <- <-].
  apply change_first_spec in Hc as (a & r' & b & Hl & -> & Hr & Hf' & _).
  rewrite Hf' in Hf. injection Hf as ->. apply bool_decide_eq_true in Hr.
  exists a, r, b. repeat split; [done..|]. by destruct (finished_at r).
Qed.

Lemma insert_newest_perm r l : insert_newest r l ≡ₚ r :: l.
Proof.
  induction l as [|x l IH]; cbn; [done|]. destruct (_ <=? _); [done|]. rewrite IH. apply Permutation_swap.
Qed.
Lemma newest_first_perm l : newest_first l ≡ₚ l.
Proof. induction l as [|x l IH]; cbn; [done|]. by rewrite insert_newest_perm, IH. Qed.

Definition newer (a b : CronRun) : Prop := run_started_at b <= run_started_at a.
Lemma insert_newest_sorted r l : StronglySorted newer l -> StronglySorted newer (insert_newest r l).
Proof.
  unfold newer. induction 1 as [|x l Hs IH Hx]; cbn; [repeat constructor|].
  destruct (Z.leb_spec (run_started_at x) (run_started_at r)).
  - constructor; [by constructor|]. constructor; [lia|]. eapply Forall_impl; [exact Hx|]. cbn. intros. lia.
  - constructor; [done|]. rewrite insert_newest_perm. constructor; [lia|done].
Qed.
Lemma newest_first_sorted l : StronglySorted newer (newest_first l).
Proof. induction l; cbn; [constructor|]. by apply insert_newest_sorted. Qed.

Lemma soonest_first_perm l : soonest_first l ≡ₚ l.
Proof.
  assert (Hi : forall j l, insert_soonest j l ≡ₚ j :: l).
  { intros j k. induction k as [|x k IH]; cbn; [done|]. destruct (_ <=? _); [done|]. rewrite IH. apply Permutation_swap. }
  induction l as [|x l IH]; cbn; [done|]. by rewrite Hi, IH.
Qed.

(** ** What every stored job satisfies *)

Definition schedule_takes (w : option FireWhen) (s : ScheduleKind) : Prop :=
  match s, w with
  | At _, (Some Attention | Some Quiet) => False
  | Idle _, Some Quiet => False
  | _, _ => True
  end.
Definition action_ok (a : CronJobAction) (s : ScheduleKind) : Prop :=
  match a with
  | Send message target _ when_ =>
      trim message <> "" /\ (target = None \/ target = Some "trunk") /\ schedule_takes when_ s
      /\ (forall every_ms, s = Every every_ms -> 60000 <= every_ms)
  | SpawnTool tool_name _ _ _ => trim tool_name <> ""
  end.
Definition job_ok (j : CronJob) : Prop :=
  action_ok (action j) (schedule j) /\ is_u32 (run_count j) /\ is_u32 (consecutive_failures j).
Definition db_ok (db : CronDatabase) : Prop :=
  Forall job_ok (jobs db) /\ NoDup (map job_id (jobs db)) /\ (length (runs db) <= 1000)%nat.
Definition file_ok (f : ScheduleFile) : Prop := forall db, read_db f = Ok db -> db_ok db.

Lemma schedule_takes_refusal w s :
  match w with Some w => when_refusal w s | None => None end = None <-> schedule_takes w s.
Proof. destruct w as [[]|], s; cbn; split; done. Qed.

Lemma validate_send_target_ok t : validate_send_target t = Ok tt <-> t = None \/ t = Some "trunk".
Proof.
  unfold validate_send_target, SEND_TARGET_TRUNK. destruct t as [t|]; [|naive_solver].
  case_bool_decide; naive_solver.
Qed.

Lemma validate_interval_ok s t :
  t = None \/ t = Some "trunk" ->
  (validate_trunk_send_interval s t = Ok tt <-> forall every_ms, s = Every every_ms -> 60000 <= every_ms).
Proof.
  intros Ht. unfold validate_trunk_send_interval, TRUNK_MIN_INTERVAL_MS.
  replace (match t with Some t => _ | None => false end) with false
    by (destruct Ht as [->| ->]; [done|by rewrite bool_decide_eq_true_2]).
  destruct s as [|ms| |]; [naive_solver| |naive_solver..].
  destruct (Z.ltb_spec ms 60000); split; try done.
  - intros H'. specialize (H' ms eq_refl). lia.
  - intros _ ? [= ->]. done.
Qed.

Lemma check_action_ok j : check_action j = Ok tt <-> action_ok (action j) (schedule j).
Proof.
  unfold check_action, action_ok. destruct (action j) as [m t md w|n ps wk ts].
  - rewrite <- (schedule_takes_refusal w).
    destruct (match w with Some w => _ | None => None end); [split; [done|intros (_ & _ & ? & _); done]|].
    case_bool_decide; [split; [done|intros (? & _); done]|].
    destruct (validate_send_target t) as [[]|e] eqn:Ht; cbn.
    + apply validate_send_target_ok in Ht. rewrite validate_interval_ok by done. naive_solver.
    + split; [done|]. intros (_ & Ht' & _). apply validate_send_target_ok in Ht'. congruence.
  - case_bool_decide; naive_solver.
Qed.

Lemma incr_u32_is_u32 n : is_u32 (incr_u32 n).
Proof. unfold incr_u32, is_u32, u32_max. pose proof (Z.mod_pos_bound (n + 1) (2 ^ 32) ltac:(done)). lia. Qed.
Lemma count_failure_is_u32 n st : is_u32 n -> is_u32 (count_failure n st).
Proof.
  unfold count_failure. intros Hn. destruct (status_resets_failures st) as [[]|]; [|apply incr_u32_is_u32|done].
  unfold is_u32, u32_max. lia.
Qed.
Create HintDb cron.
#[export] Hint Resolve incr_u32_is_u32 count_failure_is_u32 : cron.

(** What no change of a job touches. *)
Definition same_owner (j j' : CronJob) : Prop :=
  job_id j' = job_id j /\ principal_id j' = principal_id j /\ created_by j' = created_by j
  /\ origin_session j' = origin_session j /\ delete_after_run j' = delete_after_run j.

Section StoreLemmas.
Context `{C : Chrono}.

Lemma patch_schedule_Ok p now j j' :
  patch_schedule p now j = Returns (Ok j') ->
  (p_schedule p = None /\ j' = j)
  \/ exists s t, p_schedule p = Some s /\ (forall a, s <> At a) /\ j' = with_schedule j s t.
Proof.
  unfold patch_schedule. destruct (p_schedule p) as [s|]; [|intros [= <-]; by left].
  destruct s as [a|ms|e tz|m]; [done| | |].
  all: match goal with |- context [calculate_next_run ?s ?n] => destruct (calculate_next_run s n) as [[t|e']| |]; [|done..] end.
  all: intros [= <-]; right; by eexists _, _.
Qed.

Lemma patch_action_Ok p j j' :
  patch_action p j = Ok j' ->
  j' = j /\ p_when p = None
  \/ exists m t md w m' md', action j = Send m t md w
       /\ j' = with_action j (Send m' t md' (match p_when p with Some w' => Some w' | None => w end))
       /\ (trim m <> "" -> trim m' <> "").
Proof.
  unfold patch_action. destruct (negb _) eqn:Hn.
  - intros [= <-]. left. split; [done|]. destruct (p_when p); [|done].
    by rewrite negb_true_iff, orb_false_iff, orb_false_iff in Hn; destruct Hn as [[_ ?] _].
  - destruct (action j) as [m t md w|]; [|done].
    destruct (p_message p) as [m'|]; cbn.
    + case_bool_decide; [done|]. cbn. intros [= <-]. right. by eexists m, t, md, w, m', _.
    + intros [= <-]. right. by eexists m, t, md, w, m, _.
Qed.

Lemma patch_checks_Ok p j s m t md w :
  action j = Send m t md w -> schedule j = s -> patch_checks p j = Ok tt ->
  ((p_when p <> None \/ p_schedule p <> None) -> schedule_takes w s)
  /\ (p_schedule p <> None -> validate_trunk_send_interval s t = Ok tt).
Proof.
  intros Ha <-. unfold patch_checks. rewrite Ha.
  destruct (p_when p), (p_schedule p); cbn; rewrite <- ?schedule_takes_refusal;
    try (destruct (match w with Some _ => _ | None => None end); cbn; [done|]); intros Hv; split; intros; try done; naive_solver.
Qed.

Lemma apply_patch_Ok p now j j' :
  apply_patch p now j = Returns (Ok j') ->
  exists j1 j2, patch_schedule p now j = Returns (Ok j1) /\ patch_action p j1 = Ok j2
    /\ patch_checks p j2 = Ok tt /\ j' = patch_wake p (patch_enabled p j2).
Proof.
  unfold apply_patch. destruct (patch_schedule p now j) as [[j1|]| |] eqn:H1; cbn; try done.
  destruct (patch_action p j1) as [j2|] eqn:H2; cbn; [|done].
  destruct (patch_checks p j2) as [[]|] eqn:H3; cbn; [|done]. intros [= <-]. by exists j1, j2.
Qed.

Lemma patch_tail p j :
  let j' := patch_wake p (patch_enabled p j) in
  same_owner j j' /\ schedule j' = schedule j
  /\ (action_ok (action j) (schedule j) -> action_ok (action j') (schedule j))
  /\ run_count j' = run_count j /\ (is_u32 (consecutive_failures j) -> is_u32 (consecutive_failures j')).
Proof.
  unfold patch_wake, patch_enabled. destruct (p_enabled p) as [[]|], (p_wake_on_completion p); cbn;
    destruct (action j) eqn:Ha; cbn; rewrite ?Ha; unfold same_owner; split_and!; try done;
    intros _; unfold is_u32, u32_max; lia.
Qed.

Lemma apply_patch_same_owner p now j j' : apply_patch p now j = Returns (Ok j') -> same_owner j j'.
Proof.
  intros (j1 & j2 & H1 & H2 & _ & ->)%apply_patch_Ok.
  assert (Ht : same_owner j2 (patch_wake p (patch_enabled p j2))) by apply patch_tail.
  assert (same_owner j j1) by (apply patch_schedule_Ok in H1 as [[_ ->]|(s & t & _ & _ & ->)]; done).
  assert (same_owner j1 j2) by (apply patch_action_Ok in H2 as [[-> _]|(? & ? & ? & ? & ? & ? & _ & -> & _)]; done).
  unfold same_owner in *. naive_solver congruence.
Qed.

Lemma apply_patch_job_ok p now j j' : apply_patch p now j = Returns (Ok j') -> job_ok j -> job_ok j'.
Proof.
  intros (j1 & j2 & H1 & H2 & H3 & ->)%apply_patch_Ok (Ha & Hr & Hc).
  destruct (patch_tail p j2) as (_ & Hs & Ht & Hr' & Hc').
  assert (Hn : run_count j2 = run_count j /\ consecutive_failures j2 = consecutive_failures j).
  { apply patch_schedule_Ok in H1 as [[_ ->]|(s & t & _ & _ & ->)];
      apply patch_action_Ok in H2 as [[-> _]|(? & ? & ? & ? & ? & ? & _ & -> & _)]; done. }
  destruct Hn as [Hn1 Hn2].
  unfold job_ok. rewrite Hs, Hr', Hn1. split; [|split; [done|apply Hc'; by rewrite Hn2]].
  apply Ht. clear Ht Hs Hr' Hc' Hn1 Hn2.
  assert (Hact : action j1 = action j) by (apply patch_schedule_Ok in H1 as [[_ ->]|(s & t & _ & _ & ->)]; done).
  destruct (action j2) as [m t md w|n ps wk ts] eqn:Ha2.
  - pose proof (patch_checks_Ok p j2 _ m t md w Ha2 eq_refl H3) as [Hw Hi].
    apply patch_action_Ok in H2 as [[-> Hpw]|(m0 & t0 & md0 & w0 & m' & md' & Ha1 & -> & Hm)].
    + rewrite Hact in Ha2. rewrite Ha2 in Ha. cbn in Ha. destruct Ha as (Hm & Htg & Hsw & He).
      apply patch_schedule_Ok in H1 as [[_ ->]|(s & t' & Hps & _ & ->)]; [done|].
      cbn. rewrite Hps in Hw, Hi. cbn in Hw, Hi. repeat split; [done..|apply Hw; by right|].
      apply (validate_interval_ok s t Htg), Hi. done.
    + cbn in Ha2. injection Ha2 as -> -> -> Hw0. rewrite Hact in Ha1. rewrite Ha1 in Ha.
      destruct Ha as (Hm0 & Htg & Hsw & He). split; [by apply Hm|split; [done|]].
      apply patch_schedule_Ok in H1 as [[Hps ->]|(s & t' & Hps & _ & ->)]; cbn in *.
      * split; [|done]. destruct (p_when p) eqn:Hpw; [apply Hw; by left|by subst].
      * rewrite Hps in Hw, Hi. split; [apply Hw; by right|].
        apply (validate_interval_ok s t Htg), Hi. done.
  - apply patch_action_Ok in H2 as [[-> _]|(? & ? & ? & ? & ? & ? & _ & -> & _)]; [|done].
    rewrite Hact in Ha2. by rewrite Ha2 in Ha.
Qed.
End StoreLemmas.

(** ** Histories of a schedule file *)

Inductive StoreOp :=
  | AddJob (j : CronJob)
  | UpdateAfterRun (id st : string) (next : Z)
  | RecordQuiet (id : string) (next : Z)
  | RecordDeferred (id : string) (next : Z)
  | BringForward (id : string) (at_ : Z)
  | SetLastStatus (id st : string)
  | DeleteJob (id : string)
  | SetEnabled (id : string) (b : bool)
  | UpdateFields (id : string) (p : JobPatch)
  | RecordRun (r : CronRun)
  | AttachOutput (id : string) (out err : option string)
  | FinalizeRun (id st : string) (out err : option string).

(** One operation at its time, and why its write fails when it does. *)
Record StoreEvent := { refused : option string; at_time : Z; op : StoreOp }.

Section Histories.
Context `{C : Chrono}.

Definition store_step (f : ScheduleFile) (e : StoreEvent) : ScheduleFile :=
  let r := refused e in
  let now := at_time e in
  match op e with
  | AddJob j => (add_job r now j f).1
  | UpdateAfterRun id st next => (update_job_after_run r now id st next f).1
  | RecordQuiet id next => (record_quiet r id next f).1
  | RecordDeferred id next => (record_deferred r id next f).1
  | BringForward id at_ => (bring_forward r id at_ f).1
  | SetLastStatus id st => (set_job_last_status r now id st f).1
  | DeleteJob id => (delete_job r id f).1
  | SetEnabled id b => (set_job_enabled r id b f).1
  | UpdateFields id p => (update_job_fields r now id p f).1
  | RecordRun x => (record_run r x f).1
  | AttachOutput id out err => (attach_run_output r id out err f).1
  | FinalizeRun id st out err => (finalize_run r now id st out err f).1
  end.
Definition store_run (f : ScheduleFile) (l : list StoreEvent) : ScheduleFile := foldl store_step f l.

(** What a change does to the database of the file, if it does anything. *)
Inductive changes : StoreEvent -> CronDatabase -> CronDatabase -> Prop :=
  | changes_add r now j db :
      check_action j = Ok tt -> check_at_time (schedule j) now = Ok tt -> existsb (is_job (job_id j)) (jobs db) = false ->
      changes {| refused := r; at_time := now; op := AddJob j |} db (set_jobs db (jobs db ++ [j]))
  | changes_job e db g a j b :
      jobs db = a ++ j :: b -> same_owner j (g j) -> (job_ok j -> job_ok (g j)) ->
      changes e db (set_jobs db (a ++ g j :: b))
  | changes_delete r now id db :
      changes {| refused := r; at_time := now; op := DeleteJob id |} db
        (set_jobs db (List.filter (fun j => negb (is_job id j)) (jobs db)))
  | changes_record r now x db :
      changes {| refused := r; at_time := now; op := RecordRun x |} db
        (set_runs db (if (MAX_RUNS <? length (runs db ++ [x]))%nat then take MAX_RUNS (newest_first (runs db ++ [x]))
                      else runs db ++ [x]))
  | changes_open e db g a x b :
      runs db = a ++ x :: b -> finished_at x = None -> run_id (g x) = run_id x -> run_job_id (g x) = run_job_id x ->
      (status (g x) = status x \/ finished_at (g x) <> None) -> changes e db (set_runs db (a ++ g x :: b)).

Lemma change_job_changes e id g db db' out :
  (forall j, same_owner j (g j)) -> (forall j, job_ok j -> job_ok (g j)) ->
  change_job id g db = Returns (Ok (db', out, true)) -> changes e db db'.
Proof. intros Ho Hk (a & j & b & Hl & -> & _ & _)%change_job_spec. apply changes_job; [done|apply Ho|apply Hk]. Qed.

Lemma change_open_run_changes e id g db db' out :
  (forall r, run_id (g r) = run_id r /\ run_job_id (g r) = run_job_id r /\ (status (g r) = status r \/ finished_at (g r) <> None)) ->
  change_open_run id g db = Returns (Ok (db', out, true)) -> changes e db db'.
Proof. intros Hg (a & r & b & Hl & -> & _ & Ho)%change_open_run_spec. destruct (Hg r) as (? & ? & ?). by apply changes_open. Qed.

Lemma with_history_ok j next ran st n c : is_u32 n -> is_u32 c -> job_ok j -> job_ok (with_history j next ran st n c).
Proof. intros ?? (? & _ & _). done. Qed.

Lemma store_step_changes f e :
  store_step f e = f \/ exists db db', read_db f = Ok db /\ store_step f e = Holds db' /\ changes e db db'.
Proof.
  assert (Hlift : forall T (change : CronDatabase -> Run (result (CronDatabase * T * bool) string)),
    (forall db db' out, change db = Returns (Ok (db', out, true)) -> changes e db db') ->
    (mutate (refused e) f change).1 = f
    \/ exists db db', read_db f = Ok db /\ (mutate (refused e) f change).1 = Holds db' /\ changes e db db').
  { intros T change Hc. destruct (mutate_post (refused e) f change) as [?|(db & db' & out & Hr & Hd & Hm)]; [by left|].
    right. exists db, db'. eauto. }
  destruct e as [r now o]. cbn [refused at_time] in *.
  destruct o as [j|id st next|id next|id next|id at_|id st|id|id b|id p|x|id out err|id st out err]; cbn.
  - unfold add_job. destruct (check_action j) as [[]|] eqn:Ha; [|by left]. cbn.
    destruct (check_at_time (schedule j) now) as [[]|] eqn:Ht; [|by left]. apply Hlift. intros db db' out.
    destruct (existsb _ _) eqn:Hx; [done|]. intros [= <- <-]. by apply changes_add.
  - unfold update_job_after_run. destruct (mutate _ _ _) as [f' res] eqn:Hm. cbn.
    replace f' with (mutate r f (change_job id (after_run st next now))).1 by (by rewrite Hm).
    apply Hlift. intros db db' out. apply change_job_changes; [done|].
    intros j Hj. pose proof Hj as (_ & ? & ?). apply with_history_ok; auto with cron.
  - apply Hlift. intros db db' out. apply change_job_changes; [done|].
    intros j Hj. pose proof Hj as (_ & ? & ?). by apply with_history_ok.
  - apply Hlift. intros db db' out. apply change_job_changes; [done|].
    intros j Hj. pose proof Hj as (_ & ? & ?). by apply with_history_ok.
  - apply Hlift. intros db db' out. destruct (List.find _ _); [|done]. destruct (_ <=? _); [done|].
    apply change_job_changes; [done|]. intros j Hj. pose proof Hj as (_ & ? & ?). by apply with_history_ok.
  - apply Hlift. intros db db' out. apply change_job_changes; [done|].
    intros j Hj. pose proof Hj as (_ & ? & ?). apply with_history_ok; auto with cron.
  - apply Hlift. intros db db' out [= <- <- _]. apply changes_delete.
  - apply Hlift. intros db db' out. by apply change_job_changes.
  - apply Hlift. intros db db' out. destruct (List.find _ _) as [j|] eqn:Hf; [|done].
    destruct (apply_patch p now j) as [[j'|]| |] eqn:Hp; [|done..].
    intros (a & j0 & b & Hl & -> & _ & Hf')%change_job_spec. rewrite Hf' in Hf. injection Hf as ->.
    apply (changes_job _ _ (fun _ => j') a j b); [done|by eapply apply_patch_same_owner|by eapply apply_patch_job_ok].
  - apply Hlift. intros db db' out [= <- <-]. apply changes_record.
  - apply Hlift. intros db db' out0. apply change_open_run_changes. intros ?. split_and!; [done|done|by left].
  - apply Hlift. intros db db' out0. apply change_open_run_changes. intros ?. split_and!; [done|done|by right].
Qed.

(** A new job's counters are machine integers. *)
Definition event_ok (e : StoreEvent) : Prop :=
  match op e with AddJob j => is_u32 (run_count j) /\ is_u32 (consecutive_failures j) | _ => True end.

Lemma same_ids a j j' b : same_owner j j' -> map job_id (a ++ j' :: b) = map job_id (a ++ j :: b).
Proof. intros (Hid & _). rewrite !map_app. cbn. by rewrite Hid. Qed.

Lemma NoDup_map_filter {A B} (g : A -> B) (p : A -> bool) l : NoDup (map g l) -> NoDup (map g (List.filter p l)).
Proof.
  induction l as [|x l IH]; cbn; [done|]. rewrite NoDup_cons. intros [Hx Hl].
  destruct (p x); cbn; [|auto]. constructor; [|auto].
  rewrite list_elem_of_In, in_map_iff in *. intros (y & Hy & Hin). apply Hx. exists y.
  rewrite filter_In in Hin. naive_solver.
Qed.

Lemma record_length l x : (length l <= 1000)%nat ->
  (length (if (MAX_RUNS <? length (l ++ [x]))%nat then take MAX_RUNS (newest_first (l ++ [x])) else l ++ [x]) <= 1000)%nat.
Proof.
  intros Hl. destruct (Nat.ltb_spec MAX_RUNS (length (l ++ [x]))) as [Hm|Hm].
  - rewrite length_take. unfold MAX_RUNS. lia.
  - exact Hm.
Qed.

Lemma changes_db_ok e db db' : changes e db db' -> event_ok e -> db_ok db -> db_ok db'.
Proof.
  intros Hc He (Hj & Hid & Hl).
  destruct Hc as [r now j db Ha _ Hx|e db g a j b Hs Ho Hk|r now id db|r now x db|e db g a x b Hs Ho _ _ _]; unfold db_ok; cbn [runs set_runs jobs set_jobs].
  - destruct He as [Hr Hf]. apply check_action_ok in Ha. split_and!; [| |done].
    + apply Forall_app. split; [done|]. repeat constructor; try done; [apply Hr|apply Hr|apply Hf|apply Hf].
    + rewrite map_app. apply NoDup_app. split_and!; [done| |apply NoDup_singleton].
      intros i Hi. rewrite list_elem_of_In, in_map_iff in Hi. destruct Hi as (j' & <- & Hin).
      cbn. rewrite list_elem_of_singleton. intros Heq.
      assert (Ht : existsb (is_job (job_id j)) (jobs db) = true).
      { apply existsb_exists. exists j'. split; [done|]. by apply bool_decide_eq_true. }
      congruence.
  - rewrite Hs in Hj, Hid. split_and!; [| |done].
    + apply Forall_app in Hj as [Hj1 Hj2]. inversion Hj2; subst. apply Forall_app. split; [done|].
      constructor; [by apply Hk|done].
    + by rewrite (same_ids a j).
  - split_and!; [|by apply NoDup_map_filter|done].
    rewrite Forall_forall in *. intros j Hin. apply Hj. rewrite list_elem_of_In, filter_In in Hin.
    rewrite list_elem_of_In. apply Hin.
  - split_and!; [done|done|by apply record_length].
  - rewrite Hs, length_app in Hl. split_and!; [done|done|]. rewrite length_app. cbn in *. lia.
Qed.

Lemma store_run_invariant (P : ScheduleFile -> Prop) (ok : StoreEvent -> Prop) f l :
  (forall f e, ok e -> P f -> P (store_step f e)) -> Forall ok l -> P f -> P (store_run f l).
Proof. intros Hs Hl. revert f. induction Hl as [|e l He Hl IH]; intros f Hf; [done|]. apply IH. by apply Hs. Qed.

(** C23. Whatever operations are run on a schedule file, in whatever order and
    whichever of their writes fail: every job it holds has a non-blank
    message or tool name, a known target, a [when] its schedule takes and, for
    message jobs, an interval of at least a minute, so that a patch cannot get
    past what the creation of a job checks; job ids stay distinct, the counters
    stay machine integers, and at most 1000 run rows are kept. *)
Theorem schedule_file_well_formed (f : ScheduleFile) (l : list StoreEvent) :
  Forall event_ok l -> file_ok f -> file_ok (store_run f l).
Proof.
  intros Hl. apply store_run_invariant with (ok := event_ok); [|done]. clear.
  intros f e He Hf db Hr. destruct (store_step_changes f e) as [Hs|(db0 & db' & Hr0 & Hs & Hc)]; rewrite Hs in Hr; [auto|].
  injection Hr as <-. eapply changes_db_ok; eauto.
Qed.

(** ** Run rows *)

Lemma take_sorted_newest n l r :
  r ∈ l -> r ∉ take n (newest_first l) ->
  (n <= length l)%nat /\ Forall (fun k => run_started_at r <= run_started_at k) (take n (newest_first l)).
Proof.
  intros Hin Hno. rewrite <- (newest_first_perm l) in Hin.
  pose proof (newest_first_sorted l) as Hs.
  rewrite <- (take_drop n (newest_first l)) in Hs, Hin. apply elem_of_app in Hin as [?|Hin]; [done|]. split.
  - rewrite <- (Permutation_length (newest_first_perm l)).
    destruct (decide (n <= length (newest_first l))%nat); [done|]. rewrite drop_ge in Hin by lia. by apply elem_of_nil in Hin.
  - apply Forall_forall. intros k Hk.
    eapply (StronglySorted_app_1_elem_of newer); [exact Hs|exact Hk|exact Hin].
Qed.

Lemma changes_closed_run e db db' r :
  changes e db db' -> r ∈ runs db -> finished_at r <> None ->
  r ∈ runs db' \/ length (runs db') = 1000%nat /\ Forall (fun k => run_started_at r <= run_started_at k) (runs db').
Proof.
  intros Hc Hin Hf.
  destruct Hc as [r0 now j db Ha _ Hx|e db g a j b Hs Ho Hk|r0 now id db|r0 now x db|e db g a x b Hs Ho _ _ _]; cbn [runs set_runs set_jobs]; [by left..| |].
  - destruct (decide (r ∈ (if (MAX_RUNS <? length (runs db ++ [x]))%nat then take MAX_RUNS (newest_first (runs db ++ [x]))
                           else runs db ++ [x]))) as [?|Hno]; [by left|right].
    assert (Hin' : r ∈ runs db ++ [x]) by set_solver.
    revert Hno. destruct (Nat.ltb_spec MAX_RUNS (length (runs db ++ [x]))) as [Hm|Hm]; intros Hno; [|done].
    destruct (take_sorted_newest MAX_RUNS _ r Hin' Hno) as [Hn Hk]. split; [|exact Hk].
    rewrite length_take, (Permutation_length (newest_first_perm _)). unfold MAX_RUNS in *. lia.
  - left. rewrite Hs in Hin. apply elem_of_app in Hin as [Hin|Hin]; [set_solver|].
    apply elem_of_cons in Hin as [->|Hin]; [done|]. set_solver.
Qed.

(** Every row was written by a [record_run] or was there. *)
Lemma changes_rows_from e db db' r :
  changes e db db' -> r ∈ runs db' -> exists r0, (r0 ∈ runs db \/ op e = RecordRun r0) /\ run_id r0 = run_id r /\ run_job_id r0 = run_job_id r.
Proof.
  intros Hc.
  destruct Hc as [r0 now j db Ha _ Hx|e db g a j b Hs Ho Hk|r0 now id db|r0 now x db|e db g a x b Hs Ho Hi Hj _]; cbn [runs set_runs set_jobs op]; intros Hin; [by exists r; auto..| |].
  - exists r. split; [|done]. assert (Hin' : r ∈ runs db ++ [x]).
    { destruct (_ <? _)%nat; [|done]. rewrite <- (newest_first_perm (runs db ++ [x])).
      rewrite <- (take_drop MAX_RUNS (newest_first _)). set_solver. }
    apply elem_of_app in Hin' as [?|Hx]; [by left|]. apply list_elem_of_singleton in Hx as ->. by right.
  - rewrite elem_of_app, elem_of_cons in Hin. destruct Hin as [Hin|[->|Hin]].
    + exists r. split; [left; rewrite Hs; set_solver|done].
    + exists x. split; [left; rewrite Hs; set_solver|done].
    + exists r. split; [left; rewrite Hs; set_solver|done].
Qed.

Lemma read_store_step f e db' :
  read_db (store_step f e) = Ok db' ->
  read_db f = Ok db' \/ exists db, read_db f = Ok db /\ changes e db db'.
Proof.
  destruct (store_step_changes f e) as [->|(db & db0 & Hr & -> & Hc)]; [by left|].
  intros [= <-]. right. eauto.
Qed.

(** A run row that has ended is history: no sequence of operations changes
    it, deletes of its job included.  It leaves the file only when a thousand
    rows that started no earlier are kept instead. *)
Theorem closed_runs_are_history (f : ScheduleFile) (l : list StoreEvent) db db' r :
  read_db f = Ok db -> r ∈ runs db -> finished_at r <> None -> read_db (store_run f l) = Ok db' ->
  r ∈ runs db'
  \/ exists l1 l2 mid, l = l1 ++ l2 /\ read_db (store_run f l1) = Ok mid /\ length (runs mid) = 1000%nat
       /\ Forall (fun k => run_started_at r <= run_started_at k) (runs mid).
Proof.
  intros Hr Hin Hf. revert f db Hr Hin. induction l as [|e l IH]; intros f db Hr Hin Hr'.
  - left. cbn in Hr'. rewrite Hr in Hr'. by injection Hr' as ->.
  - assert (Hm : exists mid, read_db (store_step f e) = Ok mid).
    { destruct (store_step_changes f e) as [->|(? & ? & _ & -> & _)]; eauto. }
    destruct Hm as [mid Hm].
    assert (Hkeep : r ∈ runs mid \/ length (runs mid) = 1000%nat /\ Forall (fun k => run_started_at r <= run_started_at k) (runs mid)).
    { destruct (read_store_step f e mid Hm) as [Hs|(db0 & Hs & Hc)].
      - left. rewrite Hr in Hs. by injection Hs as ->.
      - rewrite Hr in Hs. injection Hs as ->. by eapply changes_closed_run. }
    destruct Hkeep as [Hk|[Hn Hk]].
    + destruct (IH _ _ Hm Hk Hr') as [?|(l1 & l2 & m & -> & Hrest)]; [by left|].
      right. by exists (e :: l1), l2, m.
    + right. exists [e], l, mid. done.
Qed.
End Histories.

(** ** Concrete schedules *)

Module CronStoreExample.

Definition a_job (id : string) (s : ScheduleKind) (a : CronJobAction) : CronJob :=
  {| job_id := id; name := id; principal_id := "did:p"; schedule := s; action := a; delete_after_run := false;
     enabled := true; job_created_at := 0; next_run := 0; last_run := None; last_status := None; run_count := 0;
     consecutive_failures := 0; max_retries := None; origin_session := None; created_by := Some runtime |}.
Definition a_run (n : nat) (done : option Z) : CronRun :=
  {| run_id := dec (Z.of_nat n); run_job_id := "j"; run_started_at := Z.of_nat n; finished_at := done;
     status := match done with Some _ => "success" | None => "running" end; output := None; error := None |}.
Definition ping : CronJob := a_job "j" (Every 60000) (Send "check the mail" None None None).
Definition at_0 (o : StoreOp) : StoreEvent := {| refused := None; at_time := 0; op := o |}.
Definition slower : JobPatch :=
  {| p_enabled := None; p_wake_on_completion := None; p_model := None; p_when := Some Quiet; p_schedule := Some (Every 120000);
     p_message := None |}.
Definition history : list StoreEvent :=
  [at_0 (AddJob ping); at_0 (RecordRun (a_run 1 None)); at_0 (FinalizeRun "1" "success" None None);
   at_0 (UpdateFields "j" slower); at_0 (DeleteJob "j")].

Lemma schedule_file_well_formed_witness :
  file_ok (store_run (C := ScheduleExample.clock) Absent history).
Proof.
  apply (schedule_file_well_formed (C := ScheduleExample.clock) Absent history).
  - unfold history. repeat (constructor; [try exact I; split; split; discriminate|]). constructor.
  - intros db [= <-]. split; [constructor|]. split; [constructor|]. cbn. lia.
Defined.

Lemma closed_runs_are_history_witness :
  a_run 1 (Some 5) ∈ [a_run 1 (Some 5)]
  \/ exists l1 l2 mid, [at_0 (DeleteJob "j")] = l1 ++ l2
       /\ read_db (store_run (C := ScheduleExample.clock) (Holds {| version := 2; jobs := [ping]; runs := [a_run 1 (Some 5)] |}) l1) = Ok mid
       /\ length (runs mid) = 1000%nat
       /\ Forall (fun k => run_started_at (a_run 1 (Some 5)) <= run_started_at k) (runs mid).
Proof.
  eapply (closed_runs_are_history (C := ScheduleExample.clock)
            (Holds {| version := 2; jobs := [ping]; runs := [a_run 1 (Some 5)] |}) [at_0 (DeleteJob "j")]
            _ {| version := 2; jobs := []; runs := [a_run 1 (Some 5)] |});
    [reflexivity|cbn; left|discriminate|reflexivity].
Defined.

(** A schedule whose oldest row is still open. *)
Definition full : CronDatabase :=
  {| version := 2; jobs := [ping]; runs := a_run 0 None :: map (fun n => a_run n (Some 0)) (seq 1 999) |}.

(** The cap on run rows counts open rows too: recording the thousandth
    later run drops the row of a run that is still in flight, after which
    nothing lists it as running and its end can no longer be recorded. *)
Lemma open_run_dropped :
  list_running_runs (Holds full) = Ok [a_run 0 None]
  /\ exists db, (record_run None (a_run 1000 (Some 0)) (Holds full)).1 = Holds db
       /\ list_running_runs (Holds db) = Ok []
       /\ finalize_run None 0 "0" "success" None None (Holds db) = (Holds db, Returns (Ok false)).
Proof.
  split; [vm_compute; reflexivity|]. eexists. split; [vm_compute; reflexivity|].
  split; vm_compute; reflexivity.
Qed.
End CronStoreExample.
