(* ===== verification/CronTool.v ===== *)
(** * CronTool: the scheduling tool a run calls

    The six actions of the [Cron] tool (peko-rs/cron/src/tools: create, list,
    delete, update, trigger, history), the limits on jobs of runs that do not
    act for the owner, the port [CronRuntime] the tool is written against, and
    the daemon's implementation of that port over one schedule file per
    principal (peko-rs/core/src/daemon/cron_runtime.rs).  The clock is read
    once per call; new ids come from the caller, as [Uuid] gives them. *)

From Stdlib Require Import ZArith Lia Ascii.
From stdpp Require Import base tactics list gmap strings sorting.
From S2P Require Import Prelude Text Calendar Host ActingFor Schedule CronStore.

Open Scope Z_scope.
Local Open Scope rust_scope.

(** ** Commands: state, panics and errors *)

Definition Cmd (W A : Type) : Type := W -> W * Run (result A string).
Definition ret {W A} (a : A) : Cmd W A := fun w => (w, Returns (Ok a)).
Definition bail {W A} (e : string) : Cmd W A := fun w => (w, Returns (Err e)).
Definition cmd_bind {W A B} (c : Cmd W A) (k : A -> Cmd W B) : Cmd W B := fun w =>
  match c w with
  | (w', Returns (Ok a)) => k a w'
  | (w', Returns (Err e)) => (w', Returns (Err e))
  | (w', Panics) => (w', Panics)
  | (w', Unfinished) => (w', Unfinished)
  end.
Definition pure_run {W A} (r : Run (result A string)) : Cmd W A := fun w => (w, r).
Definition pure_result {W A} (r : result A string) : Cmd W A := fun w => (w, Returns r).
Notation "x <-$ c ; k" := (cmd_bind c (fun x => k)) (at level 90, c at next level, right associativity) : rust_scope.

(** ** Who may do what to a job *)

Definition SEEDED_JOB_IDS : list string := ["genesis"; "keepalive"; "memory"].
Definition by_owner_in_person (stamp : ActingFor) : bool :=
  is_owner stamp && match origin stamp with Ingress _ | Approval _ => true | _ => false end.
Definition seeded_job_refusal (id : string) (stamp : ActingFor) : option string :=
  if bool_decide (id ∈ SEEDED_JOB_IDS) && negb (by_owner_in_person stamp)
  then Some ("`" +:+ id +:+ "` is one of the runtime's own jobs; only the owner, in a message of their own, can delete or pause it. Retune it in place with `Cron action=update` (`interval_ms`, `cron`, `when`, `model`) instead.")
  else None.

Definition job_visible_to (j : CronJob) (stamp : ActingFor) : bool :=
  is_owner stamp
  || match created_by j with
     | Some creator => bool_decide (compartment creator = compartment stamp) && negb (bool_decide (compartment stamp = Detached))
     | None => false
     end.

Definition NON_OWNER_MAX_JOBS : nat := 5.
Definition NON_OWNER_MIN_INTERVAL : Z := 15 * min_ns.

Definition counts_against (id : string) (c : Compartment) (other : CronJob) : bool :=
  negb (bool_decide (job_id other = id)) && enabled other
  && match created_by other with Some creator => bool_decide (compartment creator = c) | None => false end.

Section Limits.
Context `{C : Chrono}.

Definition too_fast (s : ScheduleKind) (now : Z) : Run (result bool string) :=
  match s with
  | At _ => Returns (Ok false)
  | Every every_ms => d <-! or_panic (milliseconds (as_i64 every_ms)); Returns (Ok (d <? NON_OWNER_MIN_INTERVAL))
  | Idle minutes => d <-! or_panic (minutes_delta (as_i64 minutes)); Returns (Ok (d <? NON_OWNER_MIN_INTERVAL))
  | CronExpr _ _ =>
      first <-! calculate_next_run s now;
      match first with
      | Err e => Returns (Err e)
      | Ok first =>
          second <-! calculate_next_run s first;
          Returns (second <-? second; Ok (second - first <? NON_OWNER_MIN_INTERVAL))
      end
  end.

Definition check_non_owner_job (j : CronJob) (existing : list CronJob) (now : Z) : Run (result unit string) :=
  match created_by j with
  | None => Returns (Err "a cron job needs the stamp of the run that creates it")
  | Some creator =>
      if is_owner creator then Returns (Ok tt)
      else if bool_decide (compartment creator = Detached) then Returns (Err "an unattributed run cannot schedule cron jobs")
      else if match origin_session j with Some s => bool_decide (s = "") | None => true end
      then Returns (Err "a job created for someone other than the owner runs in that conversation; it cannot target the trunk")
      else
        fast <-! too_fast (schedule j) now;
        Returns (fast <-? fast;
                 if fast : bool then Err "jobs created for someone other than the owner repeat at most every 15 minutes"
                 else if enabled j && (NON_OWNER_MAX_JOBS <=? length (List.filter (counts_against (job_id j) (compartment creator)) existing))%nat
                 then Err "this conversation already has 5 enabled cron jobs; disable or delete one first"
                 else Ok tt)
  end.
End Limits.

(** ** The port *)

Class CronRuntime (W : Type) := {
  rt_add_job : Z -> CronJob -> Cmd W string;
  rt_delete_job : string -> string -> Cmd W unit;
  rt_list_jobs : Cmd W (list CronJob);
  rt_update_job : Z -> string -> string -> JobPatch -> Cmd W unit;
  rt_trigger_job : string -> string -> Cmd W string;
  rt_run_history : string -> string -> nat -> Cmd W (list CronRun);
  rt_owns_job_history : string -> string -> Cmd W bool;
}.

(** ** The actions *)

(** What a tool call carries of its run. *)
Record ToolContext := {
  ctx_principal_id : option string;
  ctx_session_id : option string;
  ctx_acting_for : option ActingFor;
}.
Definition acting_for (ctx : ToolContext) : ActingFor := default unattributed (ctx_acting_for ctx).

Record CronCreateArgs := {
  c_tool : option string;
  c_message : option string;
  c_model : option string;
  c_when : option FireWhen;
  c_params : option Json;
  c_wake_on_completion : option bool;
  c_timeout_secs : option Z;
  c_one_shot : option bool;
  c_label : option string;
  c_delay : option string;
  c_schedule : ScheduleParams;
}.
Record CronUpdateArgs := {
  u_id : option string;
  u_label : option string;
  u_enabled : option bool;
  u_wake_on_completion : option bool;
  u_model : option string;
  u_when : option FireWhen;
  u_message : option string;
  u_schedule : ScheduleParams;
}.
Inductive CronCall :=
  | Create (args : CronCreateArgs)
  | List_
  | Delete (id label : option string)
  | Update (args : CronUpdateArgs)
  | Trigger (id label : option string)
  | History (id label : option string) (limit : option Z).
Inductive CronAnswer :=
  | Registered (id label : string) (next : Z)
  | Listed (l : list CronJob)
  | Cancelled (id : string)
  | Updated (id : string) (p : JobPatch)
  | Triggered (id run : string)
  | Runs (id : string) (l : list CronRun).

Definition blank (s : string) : bool := bool_decide (trim s = "").
Definition create_action (a : CronCreateArgs) : result CronJobAction string :=
  match c_tool a, c_message a with
  | Some _, Some _ => Err "Cron action create: `tool` and `message` are mutually exclusive"
  | Some tool_name, None =>
      if is_some (c_model a) then
        Err "Cron action create: `model` applies to `message` jobs; a `tool` job runs a fixed tool call (give the tool its own model parameter, if it has one)"
      else if is_some (c_when a) then Err "Cron action create: `when` applies to `message` jobs; a `tool` job runs no turn"
      else if blank tool_name then Err "Cron action create `tool` must be a non-empty tool name"
      else Ok (SpawnTool tool_name (default (JObject []) (c_params a)) (c_wake_on_completion a) (c_timeout_secs a))
  | None, Some message =>
      if blank message then Err "Cron action create `message` must be non-empty"
      else Ok (Send message None (match c_model a with Some m => if blank m then None else Some m | None => None end) (c_when a))
  | None, None =>
      Err "Cron action create requires either `tool` (+ optional `params`) for a fixed tool call, or `message` for an LLM-driven agent turn at fire time"
  end.

Section Actions.
Context `{C : Chrono} {W : Type} `{R : CronRuntime W}.
(** The machine's time zone; the ids [Uuid] gives this call. *)
Context (local_timezone : option string) (new_id new_label : string).

Definition require_principal (what : string) (ctx : ToolContext) : Cmd W string :=
  match ctx_principal_id ctx with
  | Some p => ret p
  | None => bail ("Cron action " +:+ what +:+ " requires a Principal context")
  end.

Definition cron_create (ctx : ToolContext) (now : Z) (a : CronCreateArgs) : Cmd W CronAnswer :=
  p <-$ require_principal "create" ctx;
  act <-$ pure_result (create_action a);
  s <-$ pure_run (resolve_schedule local_timezone (c_delay a) (c_schedule a) now);
  let label := default ("cron-" +:+ new_label) (c_label a) in
  next <-$ pure_run (calculate_next_run s now);
  let j := {| job_id := "cron_" +:+ new_id; name := label; principal_id := p; schedule := s; action := act;
              delete_after_run := resolve_one_shot (c_one_shot a) s; enabled := true; job_created_at := now; next_run := next;
              last_run := None; last_status := None; run_count := 0; consecutive_failures := 0; max_retries := None;
              origin_session := ctx_session_id ctx; created_by := Some (acting_for ctx) |} in
  existing <-$ rt_list_jobs;
  _ <-$ pure_run (check_non_owner_job j existing now);
  id <-$ rt_add_job now j;
  ret (Registered id label next).

Definition named (p : string) (stamp : ActingFor) (label : string) (j : CronJob) : bool :=
  bool_decide (name j = label) && bool_decide (principal_id j = p) && job_visible_to j stamp.
Definition resolve_id_by_label (label p : string) (stamp : ActingFor) : Cmd W string :=
  l <-$ rt_list_jobs;
  match List.find (named p stamp label) l with
  | Some j => ret (job_id j)
  | None => bail ("Job with label '" +:+ label +:+ "' not found")
  end.
Definition belongs (p : string) (stamp : ActingFor) (id : string) (j : CronJob) : bool :=
  bool_decide (job_id j = id) && bool_decide (principal_id j = p) && job_visible_to j stamp.
Definition verify_id_belongs_to_principal (id p : string) (stamp : ActingFor) : Cmd W unit :=
  l <-$ rt_list_jobs;
  if existsb (belongs p stamp id) l then ret tt
  else bail ("Job '" +:+ id +:+ "' not found for Principal '" +:+ p +:+ "'").

(** [args.id.filter(|s| !s.is_empty())] *)
Definition given (id : option string) : option string :=
  match id with Some s => if bool_decide (s = "") then None else Some s | None => None end.
(** The job a call names, by id or by label. *)
Definition target_job (what : string) (ctx : ToolContext) (p : string) (id label : option string) : Cmd W string :=
  match given id, label with
  | Some id, _ => _ <-$ verify_id_belongs_to_principal id p (acting_for ctx); ret id
  | None, Some label => resolve_id_by_label label p (acting_for ctx)
  | None, None => bail ("Either id or label is required for Cron action " +:+ what)
  end.

Definition cron_delete (ctx : ToolContext) (id label : option string) : Cmd W CronAnswer :=
  p <-$ require_principal "delete" ctx;
  id <-$ target_job "delete" ctx p id label;
  match seeded_job_refusal id (acting_for ctx) with
  | Some refusal => bail refusal
  | None => _ <-$ rt_delete_job p id; ret (Cancelled id)
  end.

Definition asks_change (a : CronUpdateArgs) : bool :=
  is_some (u_enabled a) || is_some (u_wake_on_completion a) || is_some (u_model a) || is_some (u_when a)
  || is_some (u_message a) || is_some (p_interval_ms (u_schedule a)) || is_some (p_cron (u_schedule a))
  || is_some (p_timezone (u_schedule a)) || is_some (p_idle_ms (u_schedule a)).
Definition patch_of (a : CronUpdateArgs) (s : option ScheduleKind) : JobPatch :=
  {| p_enabled := u_enabled a; p_wake_on_completion := u_wake_on_completion a;
     p_model := (fun m => if bool_decide (trim m = "") then None else Some (trim m)) <$> u_model a;
     p_when := u_when a; p_schedule := s; p_message := u_message a |}.
Definition enables (a : CronUpdateArgs) : bool := match u_enabled a with Some b => b | None => false end.
Definition pauses (a : CronUpdateArgs) : bool := match u_enabled a with Some b => negb b | None => false end.
(** The job as the update would leave it, for the limits. *)
Definition as_updated (a : CronUpdateArgs) (s : option ScheduleKind) (j : CronJob) : CronJob :=
  let j := if enables a then with_enabled j true else j in
  match s with Some s => with_schedule j s (next_run j) | None => j end.
Definition cron_update (ctx : ToolContext) (now : Z) (a : CronUpdateArgs) : Cmd W CronAnswer :=
  p <-$ require_principal "update" ctx;
  _ <-$ (if asks_change a then ret tt
         else bail "Cron action update requires at least one field to change: `enabled`, `wake_on_completion`, `model`, `when`, `message`, `interval_ms`, `cron`, `timezone`, or `idle_ms`");
  id <-$ target_job "update" ctx p (u_id a) (u_label a);
  _ <-$ (match (if pauses a then seeded_job_refusal id (acting_for ctx) else None) with Some r => bail r | None => ret tt end);
  l <-$ rt_list_jobs;
  match List.find (fun j => bool_decide (job_id j = id) && bool_decide (principal_id j = p)) l with
  | None => bail ("Job '" +:+ id +:+ "' not found")
  | Some j =>
      s <-$ pure_result (resolve_new_schedule local_timezone (u_schedule a) (schedule j));
      _ <-$ (if enables a || is_some s then pure_run (check_non_owner_job (as_updated a s j) l now) else ret tt);
      _ <-$ rt_update_job now p id (patch_of a s);
      ret (Updated id (patch_of a s))
  end.

Definition cron_trigger (ctx : ToolContext) (id label : option string) : Cmd W CronAnswer :=
  p <-$ require_principal "trigger" ctx;
  id <-$ target_job "trigger" ctx p id label;
  run <-$ rt_trigger_job p id;
  ret (Triggered id run).

(** [limit.unwrap_or(10).clamp(1, 50)] *)
Definition history_limit (limit : option Z) : nat := Z.to_nat (Z.min 50 (Z.max 1 (default 10 limit))).
Definition cron_history (ctx : ToolContext) (id label : option string) (limit : option Z) : Cmd W CronAnswer :=
  p <-$ require_principal "history" ctx;
  id <-$ (match given id, label with
          | Some id, _ =>
              owns <-$ rt_owns_job_history p id;
              _ <-$ (if owns : bool then ret tt else bail ("Job '" +:+ id +:+ "' not found for Principal '" +:+ p +:+ "'"));
              _ <-$ (if is_owner (acting_for ctx) then ret tt else verify_id_belongs_to_principal id p (acting_for ctx));
              ret id
          | None, Some label => resolve_id_by_label label p (acting_for ctx)
          | None, None => bail "Either id or label is required for Cron action history"
          end);
  l <-$ rt_run_history p id (history_limit limit);
  ret (Runs id l).

Definition cron_list (ctx : ToolContext) : Cmd W CronAnswer :=
  p <-$ require_principal "list" ctx;
  l <-$ rt_list_jobs;
  ret (Listed (List.filter (fun j => job_visible_to j (acting_for ctx)) (List.filter (fun j => bool_decide (principal_id j = p)) l))).

Definition cron_call (ctx : ToolContext) (now : Z) (c : CronCall) : Cmd W CronAnswer :=
  match c with
  | Create a => cron_create ctx now a
  | List_ => cron_list ctx
  | Delete id label => cron_delete ctx id label
  | Update a => cron_update ctx now a
  | Trigger id label => cron_trigger ctx id label
  | History id label limit => cron_history ctx id label limit
  end.
End Actions.

(** ** The daemon's runtime *)

(** What the runtime's own texts say (core/src/principal/genesis.rs). *)
Definition KEEPALIVE_JOB_ID : string := "keepalive".
Definition MEMORY_JOB_ID : string := "memory".
Definition MEMORY_BRIEF_MARKER : string :=
  "[memory] Daily memory maintenance. The runtime supplies the current brief each time this job fires; replace this message to use your own.".
Definition LEGACY_MEMORY_BRIEF_PREFIX : string := "[memory] Daily memory maintenance for `".
Definition KEEPALIVE_TICK_PREFIX : string := "[keepalive] Supervision tick for `".
Definition carries_memory_brief (j : CronJob) : bool :=
  match action j with
  | Send message _ _ _ =>
      bool_decide (message = MEMORY_BRIEF_MARKER)
      || bool_decide (job_id j = MEMORY_JOB_ID) && starts_with LEGACY_MEMORY_BRIEF_PREFIX message
  | SpawnTool _ _ _ _ => false
  end.
Definition carries_keepalive_tick (j : CronJob) : bool :=
  bool_decide (job_id j = KEEPALIVE_JOB_ID)
  && match action j with Send message _ _ _ => starts_with KEEPALIVE_TICK_PREFIX message | SpawnTool _ _ _ _ => false end.
Definition fire_when (j : CronJob) : FireWhen :=
  match action j with
  | Send _ _ _ (Some w) => w
  | _ => if carries_keepalive_tick j then Attention else if carries_memory_brief j then Quiet else Always
  end.

(** A loaded principal: its runtime id, its name, and the DID its
    configuration gives when that can be read at once. *)
Record LoadedPrincipal := { pr_id : string; pr_name : string; pr_did : option string }.
Definition resolve_principal (loaded : list LoadedPrincipal) (id : string) : option LoadedPrincipal :=
  or_else (List.find (fun p => bool_decide (pr_id p = id)) loaded)
          (List.find (fun p => bool_decide (pr_did p = Some id)) loaded).

(** One schedule file per principal name. *)
Abbreviation Schedules := (gmap string ScheduleFile).
Definition file_of (w : Schedules) (name : string) : ScheduleFile := default Absent (w !! name).
Definition on_file {A} (name : string) (c : Cmd ScheduleFile A) : Cmd Schedules A := fun w =>
  let '(f, r) := c (file_of w name) in (<[name := f]> w, r).
Definition map_err {W A} (prefix : string) (c : Cmd W A) : Cmd W A := fun w =>
  match c w with
  | (w', Returns (Err e)) => (w', Returns (Err (prefix +:+ e)))
  | other => other
  end.

Section Daemon.
Context `{C : Chrono} (loaded : list LoadedPrincipal).
(** Why a model cannot be used; why a schedule cannot be written; how the
    engine answers a manual fire. *)
Context (model_refused : string -> option string) (write_refused : string -> option string)
        (execute_job_for_id : string -> string -> Cmd Schedules string).

Definition check_model (model : string) : Cmd Schedules unit :=
  match model_refused model with
  | Some e => bail ("model '" +:+ model +:+ "' is not usable: " +:+ e +:+ "; `ModelList` shows the configured models")
  | None => ret tt
  end.
(** [CronScheduler::new]: an absent file is made an empty one. *)
Definition new_scheduler (name : string) : Cmd Schedules unit :=
  on_file name (fun f => let '(f', r) := init_db (write_refused name) f in (f', Returns r)).
Definition scheduler (id : string) : Cmd Schedules string :=
  match resolve_principal loaded id with
  | None => bail ("Peko '" +:+ id +:+ "' is not loaded")
  | Some p => _ <-$ map_err "Cron DB error: " (new_scheduler (pr_name p)); ret (pr_name p)
  end.

Definition daemon_add_job (now : Z) (j : CronJob) : Cmd Schedules string :=
  match resolve_principal loaded (principal_id j) with
  | None => bail ("Principal '" +:+ principal_id j +:+ "' is not loaded")
  | Some p =>
      _ <-$ (match action j with Send _ _ (Some model) _ => check_model model | _ => ret tt end);
      _ <-$ map_err "Cron DB error: " (new_scheduler (pr_name p));
      _ <-$ map_err "Failed to add job: " (on_file (pr_name p) (add_job (write_refused (pr_name p)) now j));
      ret (job_id j)
  end.
Definition daemon_delete_job (p id : string) : Cmd Schedules unit :=
  n <-$ scheduler p;
  _ <-$ map_err "Failed to remove job: " (on_file n (delete_job (write_refused n) id));
  ret tt.
(** The patch as it is applied: a message job that took its [when] from the
    text it carries keeps it. *)
Definition pin_when (j : CronJob) (p : JobPatch) : JobPatch :=
  match p_message p, p_when p, action j with
  | Some _, None, Send _ _ _ None =>
      match fire_when j with
      | Always => p
      | w => {| p_enabled := p_enabled p; p_wake_on_completion := p_wake_on_completion p; p_model := p_model p;
                p_when := Some w; p_schedule := p_schedule p; p_message := p_message p |}
      end
  | _, _, _ => p
  end.
Definition daemon_update_job (now : Z) (pid id : string) (p : JobPatch) : Cmd Schedules unit :=
  _ <-$ (match p_model p with Some (Some model) => check_model model | _ => ret tt end);
  n <-$ scheduler pid;
  o <-$ map_err "Cron DB error: " (on_file n (fun f => (f, Returns (get_job id f))));
  match o with
  | None => bail ("Job " +:+ id +:+ " not found")
  | Some j =>
      if is_some (p_message p) && carries_memory_brief j then
        bail ("job " +:+ id +:+ " delivers the runtime's current memory brief, so its message stays; change its schedule, `when` or `model` here, or create a separate job for a routine of your own")
      else
        updated <-$ map_err "Failed to update job: "
                      (on_file n (update_job_fields (write_refused n) now id (pin_when j p)));
        if updated : bool then ret tt else bail ("Job " +:+ id +:+ " not found")
  end.
Definition daemon_run_history (p id : string) (limit : nat) : Cmd Schedules (list CronRun) :=
  n <-$ scheduler p;
  map_err "Failed to read run history: " (on_file n (fun f => (f, Returns (get_run_history id limit f)))).
Definition daemon_owns_job_history (p id : string) : Cmd Schedules bool :=
  match resolve_principal loaded p with
  | None => ret false
  | Some q =>
      _ <-$ map_err "Cron DB error: " (new_scheduler (pr_name q));
      o <-$ map_err "Cron DB error: " (on_file (pr_name q) (fun f => (f, Returns (get_job id f))));
      match o with
      | Some _ => ret true
      | None =>
          l <-$ map_err "Cron DB error: " (on_file (pr_name q) (fun f => (f, Returns (get_run_history id 1 f))));
          ret (match l with [] => false | _ => true end)
      end
  end.
(** One principal's turn in [list_jobs]: its jobs, or the first error kept. *)
Definition list_one (name : string) (acc : list CronJob * option string) (w : Schedules)
  : Schedules * (list CronJob * option string) :=
  match (_ <-$ new_scheduler name; on_file name (fun f => (f, Returns (list_jobs true f)))) w with
  | (w', Returns (Ok l)) => (w', (acc.1 ++ l, acc.2))
  | (w', Returns (Err e)) => (w', (acc.1, or_else acc.2 (Some (name +:+ ": " +:+ e))))
  | (w', _) => (w', acc)
  end.
Fixpoint list_each (names : list string) (acc : list CronJob * option string) (w : Schedules)
  : Schedules * (list CronJob * option string) :=
  match names with
  | [] => (w, acc)
  | n :: names => let '(w', acc') := list_one n acc w in list_each names acc' w'
  end.
Definition daemon_list_jobs : Cmd Schedules (list CronJob) := fun w =>
  let '(w', (l, first_err)) := list_each (map pr_name loaded) ([], None) w in
  (w', Returns (match first_err with Some e => Err ("Cron DB error: " +:+ e) | None => Ok l end)).

#[export] Instance daemon_runtime : CronRuntime Schedules := {
  rt_add_job := daemon_add_job;
  rt_delete_job := daemon_delete_job;
  rt_list_jobs := daemon_list_jobs;
  rt_update_job := daemon_update_job;
  rt_trigger_job := execute_job_for_id;
  rt_run_history := daemon_run_history;
  rt_owns_job_history := daemon_owns_job_history;
}.
End Daemon.

(** ** What the port promises *)

Section Laws.
Context {W : Type} (stored : W -> string -> list CronJob).
Definition same_jobs (w w' : W) : Prop := forall key, stored w' key = stored w key.
(** Only the schedule [key] changed, to [l]. *)
Definition only_changed (w w' : W) (key : string) (l : list CronJob) : Prop :=
  stored w' key = l /\ forall k, k <> key -> stored w' k = stored w k.

Lemma same_jobs_trans w w' w'' : same_jobs w w' -> same_jobs w' w'' -> same_jobs w w''.
Proof. intros H1 H2 key. by rewrite H2, H1. Qed.
End Laws.

(** [stored] is the jobs of each schedule, [key_of] the schedule a principal
    id names, [good] what holds of every state of the runtime. *)
Class CronRuntimeLaws {W : Type} (R : CronRuntime W) (stored : W -> string -> list CronJob) (key_of : string -> option string)
    (good : W -> Prop) : Prop := {
  good_ids : forall w key, good w -> NoDup (map job_id (stored w key));
  good_keys : forall w key j, good w -> j ∈ stored w key -> key_of (principal_id j) = Some key;
  list_jobs_law : forall w w' r, good w -> rt_list_jobs w = (w', r) ->
    good w' /\ same_jobs stored w w'
    /\ forall l, r = Returns (Ok l) -> (forall j, j ∈ l <-> exists key, j ∈ stored w key) /\ (forall key, stored w key ⊆+ l);
  add_job_law : forall now j w w' r, good w -> rt_add_job now j w = (w', r) ->
    good w' /\ (same_jobs stored w w'
                \/ exists key, key_of (principal_id j) = Some key /\ only_changed stored w w' key (stored w key ++ [j]));
  delete_job_law : forall p id w w' r, good w -> rt_delete_job p id w = (w', r) ->
    good w' /\ (same_jobs stored w w'
                \/ exists key, key_of p = Some key
                     /\ only_changed stored w w' key (List.filter (fun j => negb (is_job id j)) (stored w key)));
  update_job_law : forall now pid id p w w' r, good w -> rt_update_job now pid id p w = (w', r) ->
    good w' /\ (same_jobs stored w w'
                \/ exists key a j j' b, key_of pid = Some key /\ stored w key = a ++ j :: b /\ job_id j = id
                     /\ same_owner j j' /\ enabled j' = default (enabled j) (p_enabled p)
                     /\ only_changed stored w w' key (a ++ j' :: b));
  run_history_law : forall p id n w w' r, good w -> rt_run_history p id n w = (w', r) -> good w' /\ same_jobs stored w w';
  owns_history_law : forall p id w w' r, good w -> rt_owns_job_history p id w = (w', r) -> good w' /\ same_jobs stored w w';
}.

(** ** What a call may change *)

Section Client.
Context `{C : Chrono} {W : Type} `{R : CronRuntime W} {stored : W -> string -> list CronJob} {key_of : string -> option string}
        {good : W -> Prop} `{L : !CronRuntimeLaws R stored key_of good}.
Context (local_timezone : option string) (new_id new_label : string).
Abbreviation call := (cron_call local_timezone new_id new_label).

Lemma cmd_bind_inv {A B} (c : Cmd W A) (k : A -> Cmd W B) w w' r :
  cmd_bind c k w = (w', r) ->
  (exists a w1, c w = (w1, Returns (Ok a)) /\ k a w1 = (w', r))
  \/ (exists r0, c w = (w', r0) /\ forall a, r0 <> Returns (Ok a)) /\ forall b, r <> Returns (Ok b).
Proof.
  unfold cmd_bind. destruct (c w) as [w1 [[a|e]| |]].
  - left. eauto.
  - intros [= <- <-]. right. split; [|done]. by eexists.
  - intros [= <- <-]. right. split; [|done]. by eexists.
  - intros [= <- <-]. right. split; [|done]. by eexists.
Qed.

Lemma NoDup_same_id {l : list CronJob} {i j} : NoDup (map job_id l) -> i ∈ l -> j ∈ l -> job_id i = job_id j -> i = j.
Proof.
  induction l as [|x l IH]; cbn; [by intros _ ?%elem_of_nil|].
  rewrite NoDup_cons. intros [Hx Hl]. rewrite !elem_of_cons. intros [->|Hi] [->|Hj] Heq; [done| | |by auto].
  - destruct Hx. rewrite Heq, list_elem_of_In. apply in_map. by rewrite <- list_elem_of_In.
  - destruct Hx. rewrite <- Heq, list_elem_of_In. apply in_map. by rewrite <- list_elem_of_In.
Qed.

Lemma elem_of_filter_list {A} (f : A -> bool) (l : list A) x : x ∈ List.filter f l <-> x ∈ l /\ f x = true.
Proof. by rewrite !list_elem_of_In, filter_In. Qed.

(** One job, reached by a call of principal [p] acting for [stamp]. *)
Definition reachable (p : string) (stamp : ActingFor) (j : CronJob) : Prop :=
  principal_id j = p /\ job_visible_to j stamp = true.

Lemma target_job_spec what ctx p id label w w' r :
  good w -> target_job what ctx p id label w = (w', r) ->
  good w' /\ same_jobs stored w w'
  /\ forall i, r = Returns (Ok i) -> exists key j, j ∈ stored w key /\ job_id j = i /\ reachable p (acting_for ctx) j.
Proof.
  intros Hg. unfold target_job. destruct (given id) as [i|].
  - unfold verify_id_belongs_to_principal. intros Ht.
    apply cmd_bind_inv in Ht as [([] & w1 & Hv & [= <- <-])|[(r0 & Hv & Hr0) Hno]].
    + apply cmd_bind_inv in Hv as [(l & w2 & Hl & Hv)|[_ Hno]]; [|by destruct (Hno tt)].
      destruct (list_jobs_law w w2 _ Hg Hl) as (Hg2 & Hs & Hk). destruct (Hk l eq_refl) as [Hin _].
      destruct (existsb _ l) eqn:Hx; injection Hv as <-; [|done].
      split; [done|split; [done|]]. intros ? [= <-]. apply existsb_exists in Hx as (j & Hj & Hb).
      apply list_elem_of_In, Hin in Hj as [key Hj]. unfold belongs in Hb.
      rewrite !andb_true_iff, !bool_decide_eq_true in Hb. exists key, j. unfold reachable. naive_solver.
    + apply cmd_bind_inv in Hv as [(l & w2 & Hl & Hv)|[(r1 & Hl & _) _]].
      * destruct (list_jobs_law w w2 _ Hg Hl) as (Hg2 & Hs & _).
        destruct (existsb _ l); injection Hv as <- <-; [by destruct (Hr0 tt)|].
        split; [done|split; [done|]]. intros ? ->. by destruct (Hno i0).
      * destruct (list_jobs_law w w' _ Hg Hl) as (Hg2 & Hs & _). split; [done|split; [done|]].
        intros ? ->. by destruct (Hno i0).
  - destruct label as [label|]; [|intros [= <- <-]; done]. unfold resolve_id_by_label. intros Ht.
    apply cmd_bind_inv in Ht as [(l & w2 & Hl & Hv)|[(r1 & Hl & _) Hno]].
    + destruct (list_jobs_law w w2 _ Hg Hl) as (Hg2 & Hs & Hk). destruct (Hk l eq_refl) as [Hin _].
      destruct (List.find _ l) as [j|] eqn:Hf; injection Hv as <- <-; [|done].
      split; [done|split; [done|]]. intros ? [= <-]. apply find_some in Hf as [Hj Hb].
      apply list_elem_of_In, Hin in Hj as [key Hj]. unfold named in Hb.
      rewrite !andb_true_iff, !bool_decide_eq_true in Hb. exists key, j. unfold reachable. naive_solver.
    + destruct (list_jobs_law w w' _ Hg Hl) as (Hg2 & Hs & _). split; [done|split; [done|]].
      intros ? ->. by destruct (Hno i).
Qed.

(** Commands that only read the jobs. *)
Definition reads {A} (c : Cmd W A) : Prop :=
  forall w w' r, good w -> c w = (w', r) -> good w' /\ same_jobs stored w w'.
Lemma reads_bind {A B} (c : Cmd W A) (k : A -> Cmd W B) : reads c -> (forall a, reads (k a)) -> reads (cmd_bind c k).
Proof.
  intros Hc Hk w w' r Hg [(a & w1 & Ha & Hb)|[(r0 & Ha & _) _]]%cmd_bind_inv;
    destruct (Hc _ _ _ Hg Ha) as [Hg1 Hs1]; [|done].
  destruct (Hk a _ _ _ Hg1 Hb) as [Hg2 Hs2]. split; [done|]. by eapply same_jobs_trans.
Qed.
Lemma reads_ret {A} (a : A) : reads (ret a).
Proof. intros w w' r Hg [= <- _]. by split. Qed.
Lemma reads_bail {A} e : reads (bail e : Cmd W A).
Proof. intros w w' r Hg [= <- _]. by split. Qed.
Lemma reads_list : reads rt_list_jobs.
Proof. intros w w' r Hg Hc. destruct (list_jobs_law _ _ _ Hg Hc) as (? & ? & _). done. Qed.
Lemma reads_verify id p stamp : reads (verify_id_belongs_to_principal id p stamp).
Proof. apply reads_bind; [apply reads_list|]. intros l. destruct (existsb _ l); [apply reads_ret|apply reads_bail]. Qed.
Lemma reads_resolve label p stamp : reads (resolve_id_by_label label p stamp).
Proof. apply reads_bind; [apply reads_list|]. intros l. destruct (List.find _ l); [apply reads_ret|apply reads_bail]. Qed.
#[local] Hint Resolve reads_bind reads_ret reads_bail reads_list reads_verify reads_resolve : cron.

Lemma reads_history ctx id label limit : reads (cron_history ctx id label limit).
Proof.
  unfold cron_history, require_principal. apply reads_bind; [destruct (ctx_principal_id ctx); auto with cron|]. intros p.
  apply reads_bind; [|intros i; apply reads_bind; [intros ?????; by eapply run_history_law|auto with cron]].
  destruct (given id) as [i|]; [|destruct label; auto with cron].
  apply reads_bind; [intros ?????; by eapply owns_history_law|]. intros o.
  apply reads_bind; [destruct o; auto with cron|]. intros _.
  apply reads_bind; [destruct (is_owner _); auto with cron|auto with cron].
Qed.

Lemma only_changed_from w w1 w' key l : same_jobs stored w w1 -> only_changed stored w1 w' key l -> only_changed stored w w' key l.
Proof. intros Hs [Hk Ho]. split; [done|]. intros k Hne. by rewrite Ho, Hs. Qed.

(** How a call of [ctx] for principal [p] can leave the schedules. *)
Inductive call_effect (ctx : ToolContext) (p : string) (now : Z) (c : CronCall) (w w' : W) : Prop :=
  | effect_none : same_jobs stored w w' -> call_effect ctx p now c w w'
  | effect_added key j l :
      key_of p = Some key -> principal_id j = p -> created_by j = Some (acting_for ctx) ->
      (forall k, stored w k ⊆+ l) -> check_non_owner_job j l now = Returns (Ok tt) -> enabled j = true ->
      only_changed stored w w' key (stored w key ++ [j]) -> call_effect ctx p now c w w'
  | effect_removed key j :
      key_of p = Some key -> j ∈ stored w key -> reachable p (acting_for ctx) j ->
      seeded_job_refusal (job_id j) (acting_for ctx) = None ->
      only_changed stored w w' key (List.filter (fun x => negb (is_job (job_id j) x)) (stored w key)) ->
      call_effect ctx p now c w w'
  | effect_changed args key a j j' b l s :
      c = Update args -> key_of p = Some key -> stored w key = a ++ j :: b -> reachable p (acting_for ctx) j ->
      same_owner j j' -> enabled j' = default (enabled j) (u_enabled args) ->
      (u_enabled args = Some false -> seeded_job_refusal (job_id j) (acting_for ctx) = None) ->
      (forall k, stored w k ⊆+ l) ->
      (u_enabled args = Some true -> check_non_owner_job (as_updated args s j) l now = Returns (Ok tt)) ->
      only_changed stored w w' key (a ++ j' :: b) -> call_effect ctx p now c w w'
  | effect_fired key j w1 id label :
      c = Trigger id label -> same_jobs stored w w1 -> j ∈ stored w key -> reachable p (acting_for ctx) j ->
      w' = (rt_trigger_job p (job_id j) w1).1 -> call_effect ctx p now c w w'.

(** The steps that change no job are passed over. *)
Lemma after_pure_result {A B} (x : result A string) (k : A -> Cmd W B) w w' r :
  cmd_bind (pure_result x) k w = (w', r) -> w' = w \/ exists a, x = Ok a /\ k a w = (w', r).
Proof. destruct x as [a|e]; cbn; [eauto|]. intros [= <- _]. by left. Qed.
Lemma after_pure_run {A B} (x : Run (result A string)) (k : A -> Cmd W B) w w' r :
  cmd_bind (pure_run x) k w = (w', r) -> w' = w \/ exists a, x = Returns (Ok a) /\ k a w = (w', r).
Proof. destruct x as [[a|e]| |]; cbn; [eauto| | |]; intros [= <- _]; by left. Qed.
Lemma after_principal {B} what ctx (k : string -> Cmd W B) w w' r p :
  ctx_principal_id ctx = Some p -> cmd_bind (require_principal what ctx) k w = (w', r) -> k p w = (w', r).
Proof. unfold require_principal. intros ->. done. Qed.
Lemma after_list {B} (k : list CronJob -> Cmd W B) w w' r :
  good w -> cmd_bind rt_list_jobs k w = (w', r) ->
  same_jobs stored w w'
  \/ exists l w1, good w1 /\ same_jobs stored w w1 /\ k l w1 = (w', r)
       /\ (forall j, j ∈ l <-> exists key, j ∈ stored w key) /\ (forall key, stored w key ⊆+ l).
Proof.
  intros Hg [(l & w1 & Hl & Hk)|[(r0 & Hl & _) _]]%cmd_bind_inv;
    destruct (list_jobs_law _ _ _ Hg Hl) as (Hg1 & Hs & Hin); [right|by left].
  destruct (Hin l eq_refl). by exists l, w1.
Qed.
Lemma after_target {B} what ctx p id label (k : string -> Cmd W B) w w' r :
  good w -> cmd_bind (target_job what ctx p id label) k w = (w', r) ->
  same_jobs stored w w'
  \/ exists key j w1, good w1 /\ same_jobs stored w w1 /\ k (job_id j) w1 = (w', r)
       /\ j ∈ stored w key /\ reachable p (acting_for ctx) j.
Proof.
  intros Hg [(i & w1 & Ht & Hk)|[(r0 & Ht & _) _]]%cmd_bind_inv;
    destruct (target_job_spec _ _ _ _ _ _ _ _ Hg Ht) as (Hg1 & Hs & Hin); [right|by left].
  destruct (Hin i eq_refl) as (key & j & Hj & <- & Hr). by exists key, j, w1.
Qed.

Lemma bind_ret_state {A B} (c : Cmd W A) (b : A -> B) w w' r :
  cmd_bind c (fun a => ret (b a)) w = (w', r) -> exists r0, c w = (w', r0).
Proof. unfold cmd_bind, ret. destruct (c w) as [w1 [[a|e]| |]]; intros [= <- _]; eauto. Qed.

Lemma reachable_key w key p stamp j : good w -> j ∈ stored w key -> reachable p stamp j -> key_of p = Some key.
Proof. intros Hg Hj [<- _]. by eapply good_keys. Qed.

Lemma create_effect ctx p now a w w' r :
  good w -> ctx_principal_id ctx = Some p -> cron_create local_timezone new_id new_label ctx now a w = (w', r) ->
  call_effect ctx p now (Create a) w w'.
Proof.
  intros Hg Hp Hc. unfold cron_create in Hc. apply (after_principal _ _ _ _ _ _ _ Hp) in Hc.
  apply after_pure_result in Hc as [->|(act & _ & Hc)]; [by apply effect_none|].
  apply after_pure_run in Hc as [->|(s & _ & Hc)]; [by apply effect_none|].
  apply after_pure_run in Hc as [->|(next & _ & Hc)]; [by apply effect_none|].
  apply (after_list _ _ _ _ Hg) in Hc as [Hs|(l & w1 & Hg1 & Hs & Hc & _ & Hsub)]; [by apply effect_none|].
  apply after_pure_run in Hc as [->|([] & Hchk & Hc)]; [by apply effect_none|].
  apply bind_ret_state in Hc as [r0 Hc].
  destruct (add_job_law _ _ _ _ _ Hg1 Hc) as [_ [Hs'|(key & Hk & Ho)]].
  - apply effect_none. by eapply same_jobs_trans.
  - eapply effect_added; [exact Hk| | |exact Hsub|exact Hchk| |]; [done..|].
    rewrite <- Hs. by eapply only_changed_from.
Qed.

Lemma delete_effect ctx p now id label w w' r :
  good w -> ctx_principal_id ctx = Some p -> cron_delete ctx id label w = (w', r) ->
  call_effect ctx p now (Delete id label) w w'.
Proof.
  intros Hg Hp Hc. unfold cron_delete in Hc. apply (after_principal _ _ _ _ _ _ _ Hp) in Hc.
  apply (after_target _ _ _ _ _ _ _ _ _ Hg) in Hc as [Hs|(key & j & w1 & Hg1 & Hs & Hc & Hj & Hr)]; [by apply effect_none|].
  destruct (seeded_job_refusal _ _) eqn:Href; [injection Hc as <- _; by apply effect_none|].
  apply bind_ret_state in Hc as [r0 Hc].
  destruct (delete_job_law _ _ _ _ _ Hg1 Hc) as [_ [Hs'|(key' & Hk & Ho)]].
  - apply effect_none. by eapply same_jobs_trans.
  - pose proof (reachable_key _ _ _ _ _ Hg Hj Hr) as Hk'. rewrite Hk in Hk'. injection Hk' as ->.
    eapply effect_removed; [done..|]. rewrite <- Hs. by eapply only_changed_from.
Qed.

Lemma split_same_job w key a j0 b j : good w -> stored w key = a ++ j0 :: b -> j ∈ stored w key -> job_id j0 = job_id j -> j0 = j.
Proof.
  intros Hg Hl Hj Hid. apply (NoDup_same_id (good_ids w key Hg)); [|done|done]. rewrite Hl. set_solver.
Qed.

Lemma update_effect ctx p now args w w' r :
  good w -> ctx_principal_id ctx = Some p -> cron_update local_timezone ctx now args w = (w', r) ->
  call_effect ctx p now (Update args) w w'.
Proof.
  intros Hg Hp Hc. unfold cron_update in Hc. apply (after_principal _ _ _ _ _ _ _ Hp) in Hc.
  destruct (asks_change args); [|injection Hc as <- _; by apply effect_none]. cbn [cmd_bind ret] in Hc.
  apply (after_target _ _ _ _ _ _ _ _ _ Hg) in Hc as [Hs|(key & j & w1 & Hg1 & Hs & Hc & Hj & Hr)]; [by apply effect_none|].
  destruct (if pauses args then seeded_job_refusal (job_id j) (acting_for ctx) else None) eqn:Href;
    [injection Hc as <- _; by apply effect_none|]. cbn [cmd_bind ret] in Hc.
  apply (after_list _ _ _ _ Hg1) in Hc as [Hs1|(l & w2 & Hg2 & Hs1 & Hc & Hin & Hsub)];
    [apply effect_none; by eapply same_jobs_trans|].
  assert (Hs2 : same_jobs stored w w2) by (by eapply same_jobs_trans).
  destruct (List.find _ l) as [j0|] eqn:Hf; [|injection Hc as <- _; by apply effect_none].
  apply find_some in Hf as [Hj0 Hb]. rewrite andb_true_iff, !bool_decide_eq_true in Hb. destruct Hb as [Hid Hpid].
  apply list_elem_of_In, Hin in Hj0 as [key0 Hj0]. rewrite Hs in Hj0.
  pose proof (reachable_key _ _ _ _ _ Hg Hj Hr) as Hk.
  pose proof (good_keys _ _ _ Hg Hj0) as Hk0. rewrite Hpid, Hk in Hk0. injection Hk0 as <-.
  assert (j0 = j) as -> by (by apply (NoDup_same_id (good_ids w key Hg))).
  apply after_pure_result in Hc as [->|(s & _ & Hc)]; [by apply effect_none|].
  assert (Hchk : w' = w2 \/ (enables args || is_some s = true -> check_non_owner_job (as_updated args s j) l now = Returns (Ok tt))
            /\ cmd_bind (rt_update_job now p (job_id j) (patch_of args s)) (fun _ => ret (Updated (job_id j) (patch_of args s))) w2 = (w', r)).
  { destruct (enables args || is_some s); [|by right].
    apply after_pure_run in Hc as [?|([] & Hchk & Hc)]; [by left|]. by right. }
  clear Hc. destruct Hchk as [->|[Hchk Hc]]; [by apply effect_none|].
  apply bind_ret_state in Hc as [r0 Hc].
  destruct (update_job_law _ _ _ _ _ _ _ Hg2 Hc) as [_ [Hs3|(key' & a & j1 & j' & b & Hk' & Hl & Hid' & Ho & He & Hch)]];
    [apply effect_none; by eapply same_jobs_trans|].
  rewrite Hk in Hk'. injection Hk' as <-. rewrite Hs2 in Hl.
  assert (j1 = j) as -> by exact (split_same_job w key a j1 b j Hg Hl Hj Hid').
  eapply (effect_changed _ _ _ _ _ _ args key a j j' b l s); try done.
  - unfold pauses in Href. intros Hen. by rewrite Hen in Href.
  - intros k. rewrite <- Hs. apply Hsub.
  - intros Hen. apply Hchk. unfold enables. by rewrite Hen.
  - by eapply only_changed_from.
Qed.

Lemma cron_call_effect ctx p now c w w' r :
  good w -> ctx_principal_id ctx = Some p -> call ctx now c w = (w', r) -> call_effect ctx p now c w w'.
Proof.
  intros Hg Hp. destruct c as [a| |id label|args|id label|id label limit]; cbn [cron_call]; intros Hc.
  - by eapply create_effect.
  - unfold cron_list in Hc. apply (after_principal _ _ _ _ _ _ _ Hp), bind_ret_state in Hc as [r0 Hc].
    apply effect_none. by eapply list_jobs_law.
  - by eapply delete_effect.
  - by eapply update_effect.
  - unfold cron_trigger in Hc. apply (after_principal _ _ _ _ _ _ _ Hp) in Hc.
    apply (after_target _ _ _ _ _ _ _ _ _ Hg) in Hc as [Hs|(key & j & w1 & Hg1 & Hs & Hc & Hj & Hr)]; [by apply effect_none|].
    apply bind_ret_state in Hc as [r0 Hc]. eapply effect_fired; try done. by rewrite Hc.
  - apply effect_none. by eapply reads_history.
Qed.

(** Every state a call leaves is a state of the runtime again. *)
Definition keeps {A} (c : Cmd W A) : Prop := forall w w' r, good w -> c w = (w', r) -> good w'.
Lemma keeps_reads {A} (c : Cmd W A) : reads c -> keeps c.
Proof. intros Hc w w' r Hg Hw. by eapply Hc. Qed.
Lemma keeps_bind {A B} (c : Cmd W A) (k : A -> Cmd W B) : keeps c -> (forall a, keeps (k a)) -> keeps (cmd_bind c k).
Proof.
  intros Hc Hk w w' r Hg [(a & w1 & Ha & Hb)|[(r0 & Ha & _) _]]%cmd_bind_inv; [|by eapply Hc].
  eapply Hk; [|exact Hb]. by eapply Hc.
Qed.
Lemma keeps_pure_run {A} (x : Run (result A string)) : keeps (pure_run x : Cmd W A).
Proof. by intros w w' r Hg [= <- _]. Qed.
Lemma keeps_pure_result {A} (x : result A string) : keeps (pure_result x : Cmd W A).
Proof. by intros w w' r Hg [= <- _]. Qed.
Lemma keeps_principal what ctx : keeps (require_principal what ctx : Cmd W string).
Proof. unfold require_principal. destruct (ctx_principal_id ctx); by intros w w' r Hg [= <- _]. Qed.
Lemma keeps_target what ctx p id label : keeps (target_job what ctx p id label : Cmd W string).
Proof. intros w w' r Hg Ht. by eapply target_job_spec. Qed.
Lemma keeps_add now j : keeps (rt_add_job now j).
Proof. intros w w' r Hg Ht. apply (add_job_law _ _ _ _ _ Hg Ht). Qed.
Lemma keeps_delete p id : keeps (rt_delete_job p id).
Proof. intros w w' r Hg Ht. apply (delete_job_law _ _ _ _ _ Hg Ht). Qed.
Lemma keeps_update now p id x : keeps (rt_update_job now p id x).
Proof. intros w w' r Hg Ht. apply (update_job_law _ _ _ _ _ _ _ Hg Ht). Qed.
#[local] Hint Resolve keeps_reads keeps_bind keeps_pure_run keeps_pure_result keeps_principal keeps_target keeps_add keeps_delete
  keeps_update reads_history : cron.

Lemma cron_call_good ctx now c : (forall i label, c <> Trigger i label) -> keeps (call ctx now c).
Proof.
  intros Hnt. destruct c as [a| |id label|args|id label|id label limit]; cbn [cron_call]; [| | | |by destruct (Hnt id label)|].
  - unfold cron_create. auto 12 with cron.
  - unfold cron_list. auto with cron.
  - unfold cron_delete. apply keeps_bind; [auto with cron|]. intros p. apply keeps_bind; [auto with cron|]. intros i.
    destruct (seeded_job_refusal _ _); auto with cron.
  - unfold cron_update. apply keeps_bind; [auto with cron|]. intros p.
    apply keeps_bind; [destruct (asks_change args); auto with cron|]. intros _.
    apply keeps_bind; [auto with cron|]. intros i.
    apply keeps_bind; [destruct (if pauses args then _ else _); auto with cron|]. intros _.
    apply keeps_bind; [auto with cron|]. intros l. destruct (List.find _ l) as [j|]; [|auto with cron].
    apply keeps_bind; [auto with cron|]. intros s.
    apply keeps_bind; [destruct (enables args || is_some s); auto with cron|]. auto with cron.
  - auto with cron.
Qed.

Lemma no_principal_no_change ctx now c w w' r :
  good w -> ctx_principal_id ctx = None -> call ctx now c w = (w', r) -> w' = w.
Proof.
  intros Hg Hp. destruct c; cbn [cron_call];
    unfold cron_create, cron_list, cron_delete, cron_update, cron_trigger, cron_history, require_principal;
    rewrite Hp; cbn; by intros [= <- _].
Qed.

Lemma only_changed_elem w w' key l k j :
  only_changed stored w w' key l -> j ∈ stored w' k <-> (k = key /\ j ∈ l) \/ (k <> key /\ j ∈ stored w k).
Proof.
  intros [Hk Ho]. destruct (decide (k = key)) as [->|Hne].
  - rewrite Hk. naive_solver.
  - rewrite Ho by done. naive_solver.
Qed.

(** A creator sees the job it creates: an unattributed run creates none. *)
Lemma created_visible ctx j l now :
  created_by j = Some (acting_for ctx) -> check_non_owner_job j l now = Returns (Ok tt) -> job_visible_to j (acting_for ctx) = true.
Proof.
  unfold check_non_owner_job, job_visible_to. intros ->. destruct (is_owner _); [done|].
  case_bool_decide; [done|]. intros _. cbn. by rewrite bool_decide_eq_true_2.
Qed.

Lemma job_visible_same_owner j j' stamp : same_owner j j' -> job_visible_to j' stamp = job_visible_to j stamp.
Proof. unfold job_visible_to. by intros (_ & _ & -> & _). Qed.

(** C15. A call of the scheduling tool reaches its own principal's jobs that its
    run may see, and nothing else: of every other job (another principal's, or
    one created from another conversation, when the run does not act for the
    owner) the schedules hold after the call exactly what they held before,
    and every job they hold anew belongs to the calling principal and is one
    the run may see.  A manual fire hands the engine such a job only. *)
Theorem cron_call_confined (ctx : ToolContext) (now : Z) (c : CronCall) w w' r :
  good w -> call ctx now c w = (w', r) ->
  let mine j := exists p, ctx_principal_id ctx = Some p /\ principal_id j = p /\ job_visible_to j (acting_for ctx) = true in
  (exists id label key j p w1, c = Trigger id label /\ same_jobs stored w w1 /\ j ∈ stored w key /\ mine j
     /\ ctx_principal_id ctx = Some p /\ w' = (rt_trigger_job p (job_id j) w1).1)
  \/ (forall key j, j ∈ stored w key -> ~ mine j -> j ∈ stored w' key)
     /\ (forall key j, j ∈ stored w' key -> j ∈ stored w key \/ mine j).
Proof.
  intros Hg Hc mine. destruct (ctx_principal_id ctx) as [p|] eqn:Hp.
  2:{ right. apply no_principal_no_change in Hc as ->; [|done..]. naive_solver. }
  destruct (cron_call_effect _ _ _ _ _ _ _ Hg Hp Hc)
    as [Hs|key j l Hk Hpid Hcr Hsub Hchk Hen Ho|key j Hk Hj Hr Href Ho
       |args key a j j' b l s Hca Hk Hl Hr Hso Hen Hpau Hsub Hchk Ho|key j w1 id label Hca Hs Hj Hr Hw].
  - right. split; intros key j Hj; [by rewrite Hs|]. left. by rewrite <- Hs.
  - right. assert (mine j) by (exists p; split_and!; [done..|by eapply created_visible]).
    split; intros k i; rewrite (only_changed_elem _ _ _ _ _ _ Ho), elem_of_app, list_elem_of_singleton.
    + intros Hi Hno. destruct (decide (k = key)) as [->|]; naive_solver.
    + naive_solver.
  - right. assert (Hmine : mine j) by (destruct Hr; exists p; naive_solver).
    split; intros k i; rewrite (only_changed_elem _ _ _ _ _ _ Ho), elem_of_filter_list.
    + intros Hi Hno. destruct (decide (k = key)) as [->|]; [left|by right]. split_and!; [done|done|].
      unfold is_job. rewrite bool_decide_eq_false_2; [done|]. intros Heq. apply Hno.
      by rewrite (NoDup_same_id (good_ids w key Hg) Hi Hj Heq).
    + naive_solver.
  - right. assert (Hj : j ∈ stored w key) by (rewrite Hl; set_solver).
    assert (Hmine : mine j) by (destruct Hr; exists p; naive_solver).
    assert (Hmine' : mine j').
    { destruct Hmine as (q & Hq & Hpid & Hv). exists q. split; [done|]. rewrite (job_visible_same_owner j) by done.
      split; [|done]. by destruct Hso as (_ & -> & _). }
    split; intros k i; rewrite (only_changed_elem _ _ _ _ _ _ Ho), elem_of_app, elem_of_cons.
    + intros Hi Hno. destruct (decide (k = key)) as [->|]; [left|by right]. split; [done|].
      rewrite Hl, elem_of_app, elem_of_cons in Hi. destruct Hi as [?|[->|?]]; naive_solver.
    + intros [[-> [?|[->|?]]]|[_ ?]]; [left|by right|left|by left]; rewrite Hl; set_solver.
  - left. exists id, label, key, j, p, w1. split_and!; [done|done|done| |done|done]. destruct Hr. by exists p.
Qed.

(** The jobs the runtime seeds (genesis, keepalive, memory) outlive every
    call of a run that is not the owner in person: whatever the call, each of
    them is still scheduled in the same schedule, under the same id and creator,
    and is not paused if it was not. *)
Theorem seeded_jobs_survive (ctx : ToolContext) (now : Z) (c : CronCall) w w' r key j :
  good w -> call ctx now c w = (w', r) -> by_owner_in_person (acting_for ctx) = false ->
  j ∈ stored w key -> job_id j ∈ SEEDED_JOB_IDS ->
  (exists id label p i w1, c = Trigger id label /\ ctx_principal_id ctx = Some p /\ same_jobs stored w w1
     /\ w' = (rt_trigger_job p i w1).1)
  \/ exists j', j' ∈ stored w' key /\ same_owner j j' /\ (enabled j = true -> enabled j' = true).
Proof.
  intros Hg Hc Hby Hj Hseed. destruct (ctx_principal_id ctx) as [p|] eqn:Hp.
  2:{ right. apply no_principal_no_change in Hc as ->; [|done..]. by exists j. }
  assert (Hrefuse : forall i, i = job_id j -> seeded_job_refusal i (acting_for ctx) <> None).
  { intros i ->. unfold seeded_job_refusal. rewrite bool_decide_eq_true_2 by done. by rewrite Hby. }
  destruct (cron_call_effect _ _ _ _ _ _ _ Hg Hp Hc)
    as [Hs|key' j0 l Hk Hpid Hcr Hsub Hchk Hen Ho|key' j0 Hk Hj0 Hr Href Ho
       |args key' a j0 j' b l s Hca Hk Hl Hr Hso Hen Hpau Hsub Hchk Ho|key' j0 w1 id label Hca Hs Hj0 Hr Hw].
  - right. exists j. by rewrite Hs.
  - right. exists j. split; [|done]. apply (only_changed_elem _ _ _ _ _ _ Ho).
    destruct (decide (key = key')) as [->|]; [left|by right]. split; [done|]. set_solver.
  - right. exists j. split; [|done]. apply (only_changed_elem _ _ _ _ _ _ Ho).
    destruct (decide (key = key')) as [->|]; [left|by right]. split; [done|].
    rewrite elem_of_filter_list. split; [done|].
    unfold is_job. rewrite bool_decide_eq_false_2; [done|]. intros Heq. by destruct (Hrefuse (job_id j0)).
  - right. destruct (decide (key = key')) as [->|Hne].
    2:{ exists j. split; [|done]. apply (only_changed_elem _ _ _ _ _ _ Ho). by right. }
    rewrite Hl, elem_of_app, elem_of_cons in Hj. destruct Hj as [Hj|[->|Hj]].
    + exists j. split; [|done]. apply (only_changed_elem _ _ _ _ _ _ Ho). left. set_solver.
    + exists j'. split_and!; [apply (only_changed_elem _ _ _ _ _ _ Ho); left; set_solver|done|].
      rewrite Hen. destruct (u_enabled args) as [[]|]; [done| |done]. by destruct (Hrefuse (job_id j0)); auto.
    + exists j. split; [|done]. apply (only_changed_elem _ _ _ _ _ _ Ho). left. set_solver.
  - left. by exists id, label, p, (job_id j0), w1.
Qed.

(** ** The quota of a conversation *)

(** An enabled job created from conversation [c] by a run that did not act for
    the owner. *)
Definition guest_job (c : Compartment) (j : CronJob) : bool :=
  enabled j && match created_by j with Some creator => negb (is_owner creator) && bool_decide (compartment creator = c) | None => false end.
Definition guests (c : Compartment) (l : list CronJob) : nat := length (List.filter (guest_job c) l).

Lemma filter_app_list {A} (f : A -> bool) l k : List.filter f (l ++ k) = List.filter f l ++ List.filter f k.
Proof. induction l as [|x l IH]; cbn; [done|]. destruct (f x); cbn; by rewrite IH. Qed.

Lemma filter_submseteq {A} (f : A -> bool) (l k : list A) : l ⊆+ k -> List.filter f l ⊆+ List.filter f k.
Proof.
  induction 1 as [|x l k _ IH|x y l|x l k _ IH|l1 l2 l3 _ IH1 _ IH2]; cbn; [done| | | |by etrans].
  - destruct (f x); [by constructor|done].
  - destruct (f x), (f y); [apply submseteq_swap|done..].
  - destruct (f x); [by constructor|done].
Qed.

Lemma filter_length_mono {A} (f g : A -> bool) l :
  Forall (fun x => f x = true -> g x = true) l -> (length (List.filter f l) <= length (List.filter g l))%nat.
Proof. induction 1 as [|x l Hx _ IH]; cbn; [done|]. destruct (f x), (g x); cbn; try lia; by specialize (Hx eq_refl). Qed.

(** The other guests are among those the limit counts. *)
Lemma guests_counted id c (others l : list CronJob) :
  others ⊆+ l -> Forall (fun j => job_id j <> id) others -> (guests c others <= length (List.filter (counts_against id c) l))%nat.
Proof.
  intros Hsub Hne. apply (filter_submseteq (counts_against id c)), submseteq_length in Hsub.
  etrans; [|exact Hsub]. apply filter_length_mono. eapply Forall_impl; [exact Hne|]. cbn. intros j Hj.
  unfold guest_job, counts_against. rewrite bool_decide_eq_false_2 by done.
  destruct (enabled j), (created_by j); cbn; try done. by rewrite andb_true_iff; intros [_ ?].
Qed.

(** What the limits check when they pass for an enabled guest job. *)
Lemma check_guest j l now c :
  check_non_owner_job j l now = Returns (Ok tt) -> guest_job c j = true ->
  (length (List.filter (counts_against (job_id j) c) l) < 5)%nat.
Proof.
  unfold check_non_owner_job, guest_job. destruct (created_by j) as [cr|]; [|by rewrite andb_false_r].
  destruct (enabled j); [|done]. cbn [andb]. destruct (is_owner cr); [done|]. cbn [andb negb].
  intros Hc Hcc. apply bool_decide_eq_true in Hcc as <-. revert Hc.
  case_bool_decide; [done|]. destruct (match origin_session j with Some s => _ | None => true end); [done|].
  destruct (too_fast _ _) as [[[]|]| |]; cbn [run_bind rbind andb]; try done.
  destruct (Nat.leb_spec NON_OWNER_MAX_JOBS (length (List.filter (counts_against (job_id j) (compartment cr)) l))); [done|]. unfold NON_OWNER_MAX_JOBS in *. lia.
Qed.

Lemma guests_middle c a j b : guests c (a ++ j :: b) = (guests c (a ++ b) + if guest_job c j then 1 else 0)%nat.
Proof.
  unfold guests. rewrite !filter_app_list, !length_app. cbn. destruct (guest_job c j); cbn; lia.
Qed.

Lemma NoDup_others a j b : NoDup (map job_id (a ++ j :: b)) -> Forall (fun i => job_id i <> job_id j) (a ++ b).
Proof.
  rewrite <- Permutation_middle. cbn. rewrite NoDup_cons, list_elem_of_In, in_map_iff. intros [Hno _].
  apply Forall_forall. intros i Hi Heq. apply Hno. exists i. by rewrite <- list_elem_of_In.
Qed.

(** No conversation other than the owner's holds more than five enabled
    jobs in a principal's schedule, whatever its runs call and whoever enables
    its jobs again: the number of enabled jobs that runs not acting for the
    owner created from it stays at most five through every call. *)
Theorem conversation_quota_kept (ctx : ToolContext) (now : Z) (c : CronCall) w w' r key conv :
  good w -> call ctx now c w = (w', r) -> (forall i label, c <> Trigger i label) ->
  (guests conv (stored w key) <= 5)%nat -> (guests conv (stored w' key) <= 5)%nat.
Proof.
  intros Hg Hc Hnt Hq. pose proof (cron_call_good _ _ _ Hnt _ _ _ Hg Hc) as Hg'. destruct (ctx_principal_id ctx) as [p|] eqn:Hp.
  2:{ by apply no_principal_no_change in Hc as ->. }
  destruct (cron_call_effect _ _ _ _ _ _ _ Hg Hp Hc)
    as [Hs|key' j l Hk Hpid Hcr Hsub Hchk Hen [Hst Ho]|key' j Hk Hj Hr Href [Hst Ho]
       |args key' a j j' b l s Hca Hk Hl Hr Hso Hen Hpau Hsub Hchk [Hst Ho]|key' j w1 id label -> Hs Hj Hr Hw];
    [by rewrite Hs| | | |by destruct (Hnt id label)].
  all: destruct (decide (key = key')) as [->|Hne]; [rewrite Hst|by rewrite Ho].
  - rewrite guests_middle, app_nil_r. destruct (guest_job conv j) eqn:Hgj; [|lia].
    pose proof (check_guest _ _ _ _ Hchk Hgj) as Hlt.
    pose proof (good_ids w' key' Hg') as Hids. rewrite Hst in Hids. apply NoDup_others in Hids. rewrite app_nil_r in Hids.
    pose proof (guests_counted _ conv _ _ (Hsub key') Hids). lia.
  - etrans; [|exact Hq]. unfold guests. apply submseteq_length, filter_submseteq, sublist_submseteq.
    clear. induction (stored w key') as [|x k IH]; cbn; [done|]. destruct (negb _); by constructor.
  - rewrite Hl, guests_middle in Hq. rewrite guests_middle.
    destruct (guest_job conv j') eqn:Hgj; [|lia]. destruct (guest_job conv j) eqn:Hgj0; [lia|].
    assert (Hu : u_enabled args = Some true).
    { unfold guest_job in Hgj, Hgj0. destruct Hso as (_ & _ & Hcb & _). rewrite Hcb in Hgj.
      apply andb_prop in Hgj as [He Hg2]. rewrite Hg2, andb_true_r in Hgj0. rewrite Hen in He.
      destruct (u_enabled args) as [[]|]; [done|done|]. cbn in He. congruence. }
    assert (Hup : guest_job conv (as_updated args s j) = true /\ job_id (as_updated args s j) = job_id j).
    { unfold as_updated, enables. rewrite Hu. unfold guest_job in Hgj |- *. destruct Hso as (_ & _ & Hcb & _). rewrite Hcb in Hgj.
      apply andb_prop in Hgj as [_ Hg2]. destruct s; cbn; by rewrite Hg2. }
    destruct Hup as [Hup Hid]. pose proof (check_guest _ _ _ _ (Hchk Hu) Hup) as Hlt. rewrite Hid in Hlt.
    pose proof (good_ids w key' Hg) as Hids. rewrite Hl in Hids. apply NoDup_others in Hids.
    assert (Hsub' : a ++ b ⊆+ l).
    { etrans; [|exact (Hsub key')]. rewrite Hl. apply submseteq_app; [done|]. by constructor. }
    pose proof (guests_counted _ conv _ _ Hsub' Hids). lia.
Qed.
End Client.

(** ** The daemon keeps the promise *)

Section DaemonLaws.
Context `{C : Chrono} (loaded : list LoadedPrincipal) (model_refused write_refused : string -> option string)
        (execute_job_for_id : string -> string -> Cmd Schedules string).

Definition key_of (id : string) : option string := pr_name <$> resolve_principal loaded id.
Definition jobs_of (f : ScheduleFile) : list CronJob := match read_db f with Ok db => jobs db | Err _ => [] end.
(** The jobs the loaded principals' files hold. *)
Definition stored (w : Schedules) (key : string) : list CronJob :=
  if bool_decide (key ∈ map pr_name loaded) then jobs_of (file_of w key) else [].
Definition good (w : Schedules) : Prop :=
  forall key, NoDup (map job_id (stored w key)) /\ Forall (fun j => key_of (principal_id j) = Some key) (stored w key).

Lemma resolve_loaded id p : resolve_principal loaded id = Some p -> pr_name p ∈ map pr_name loaded.
Proof.
  unfold resolve_principal, or_else. intros Hr. rewrite list_elem_of_In. apply in_map.
  destruct (List.find _ loaded) eqn:Hf; [injection Hr as ->; apply find_some in Hf|apply find_some in Hr]; tauto.
Qed.
Lemma key_of_resolve id p : resolve_principal loaded id = Some p -> key_of id = Some (pr_name p).
Proof. unfold key_of. by intros ->. Qed.

Lemma stored_insert w n f key :
  n ∈ map pr_name loaded -> stored (<[n := f]> w) key = if decide (key = n) then jobs_of f else stored w key.
Proof.
  intros Hn. unfold stored, file_of. destruct (decide (key = n)) as [->|Hne].
  - rewrite bool_decide_eq_true_2 by done. by rewrite lookup_insert_eq.
  - by rewrite lookup_insert_ne.
Qed.

Lemma on_file_changed {A} n (c : Cmd ScheduleFile A) w w' r :
  n ∈ map pr_name loaded -> on_file n c w = (w', r) ->
  stored w n = jobs_of (file_of w n) /\ only_changed stored w w' n (jobs_of (c (file_of w n)).1).
Proof.
  intros Hn. unfold on_file. destruct (c (file_of w n)) as [f r0]. intros [= <- _]. split.
  - unfold stored. by rewrite bool_decide_eq_true_2.
  - split; [by rewrite stored_insert, decide_True|]. intros k Hne. by rewrite stored_insert, decide_False.
Qed.

Lemma only_changed_same w w' n l : only_changed stored w w' n l -> l = stored w n -> same_jobs stored w w'.
Proof. intros [Hk Ho] -> key. destruct (decide (key = n)) as [->|]; [done|by apply Ho]. Qed.

(** Commands that leave every schedule's jobs as they are. *)
Definition quiet {A} (c : Cmd Schedules A) : Prop := forall w w' r, c w = (w', r) -> same_jobs stored w w'.
Lemma quiet_ret {A} (a : A) : quiet (ret a).
Proof. by intros w w' r [= <- _]. Qed.
Lemma quiet_bail {A} e : quiet (bail e : Cmd Schedules A).
Proof. by intros w w' r [= <- _]. Qed.
Lemma quiet_map_err {A} e (c : Cmd Schedules A) : quiet c -> quiet (map_err e c).
Proof.
  intros Hc w w' r. unfold map_err. destruct (c w) as [w1 r1] eqn:Hw.
  destruct r1 as [[]| |]; intros [= <- _]; by eapply Hc.
Qed.
Lemma quiet_then {A B} (c : Cmd Schedules A) (k : A -> Cmd Schedules B) w w' r :
  quiet c -> cmd_bind c k w = (w', r) ->
  same_jobs stored w w' \/ exists a w1, c w = (w1, Returns (Ok a)) /\ same_jobs stored w w1 /\ k a w1 = (w', r).
Proof.
  intros Hq. unfold cmd_bind. destruct (c w) as [w1 r1] eqn:Hc. pose proof (Hq _ _ _ Hc).
  destruct r1 as [[a|e]| |]; [right; eauto|intros [= <- _]; by left..].
Qed.
Lemma quiet_bind {A B} (c : Cmd Schedules A) (k : A -> Cmd Schedules B) : quiet c -> (forall a, quiet (k a)) -> quiet (cmd_bind c k).
Proof.
  intros Hc Hk w w' r Hw. apply (quiet_then _ _ _ _ _ Hc) in Hw as [?|(a & w1 & _ & Hs & Hw)]; [done|].
  eapply same_jobs_trans; [exact Hs|]. by eapply Hk.
Qed.
Lemma quiet_read {A} n (g : ScheduleFile -> result A string) : n ∈ map pr_name loaded -> quiet (on_file n (fun f => (f, Returns (g f)))).
Proof.
  intros Hn w w' r Hw. destruct (on_file_changed _ _ _ _ _ Hn Hw) as [Hst Ho].
  apply (only_changed_same _ _ _ _ Ho). by rewrite Hst.
Qed.
Lemma quiet_new n : n ∈ map pr_name loaded -> quiet (new_scheduler write_refused n).
Proof.
  intros Hn w w' r Hw. destruct (on_file_changed _ _ _ _ _ Hn Hw) as [Hst Ho].
  apply (only_changed_same _ _ _ _ Ho). rewrite Hst. unfold init_db, write_db. by destruct (file_of w n), (write_refused n).
Qed.
Lemma quiet_model m : quiet (check_model model_refused m).
Proof. unfold check_model. destruct (model_refused m); [apply quiet_bail|apply quiet_ret]. Qed.
#[local] Hint Resolve quiet_ret quiet_bail quiet_map_err quiet_bind quiet_read quiet_new quiet_model : cron.

Lemma quiet_scheduler id : quiet (scheduler loaded write_refused id).
Proof.
  unfold scheduler. destruct (resolve_principal loaded id) as [p|] eqn:Hr; [|auto with cron].
  apply resolve_loaded in Hr. auto with cron.
Qed.
Lemma scheduler_name id w w1 n : scheduler loaded write_refused id w = (w1, Returns (Ok n)) -> n ∈ map pr_name loaded /\ key_of id = Some n.
Proof.
  unfold scheduler. destruct (resolve_principal loaded id) as [p|] eqn:Hr; [|done].
  unfold cmd_bind. destruct (map_err _ _ w) as [w2 [[[]|]| |]]; try done. intros [= _ <-].
  split; [by eapply resolve_loaded|by apply key_of_resolve].
Qed.
#[local] Hint Resolve quiet_scheduler : cron.

(** The state after a write whose answer is relabelled. *)
Lemma map_err_state {A} e (c : Cmd Schedules A) w w' r : map_err e c w = (w', r) -> exists r0, c w = (w', r0).
Proof. unfold map_err. destruct (c w) as [w1 [[]| |]]; intros [= <- _]; eauto. Qed.

Lemma same_good w w' : same_jobs stored w w' -> good w -> good w'.
Proof. intros Hs Hg key. rewrite Hs. apply Hg. Qed.
Lemma changed_good w w' n l :
  only_changed stored w w' n l -> good w -> NoDup (map job_id l) -> Forall (fun j => key_of (principal_id j) = Some n) l -> good w'.
Proof.
  intros [Hk Ho] Hg Hn Hf key. destruct (decide (key = n)) as [->|]; [by rewrite Hk|]. rewrite Ho by done. apply Hg.
Qed.

(** *** What the writes do to the jobs of a file *)

Lemma add_job_jobs refuse now j f :
  jobs_of (add_job refuse now j f).1 = jobs_of f
  \/ jobs_of (add_job refuse now j f).1 = jobs_of f ++ [j] /\ existsb (is_job (job_id j)) (jobs_of f) = false.
Proof.
  unfold add_job. destruct (rbind _ _); [|by left].
  match goal with |- context [mutate ?a ?b ?c] => destruct (mutate_post a b c) as [->|(db & db' & out & Hr & Hd & ->)]; [by left|] end.
  destruct (existsb _ _) eqn:Hx; [done|]. injection Hd as <- <-. right. unfold jobs_of. by rewrite Hr.
Qed.
Lemma delete_job_jobs refuse id f :
  jobs_of (delete_job refuse id f).1 = jobs_of f
  \/ jobs_of (delete_job refuse id f).1 = List.filter (fun j => negb (is_job id j)) (jobs_of f).
Proof.
  unfold delete_job.
  match goal with |- context [mutate ?a ?b ?c] => destruct (mutate_post a b c) as [->|(db & db' & out & Hr & Hd & ->)]; [by left|] end.
  injection Hd as <- <- _. right. unfold jobs_of. by rewrite Hr.
Qed.

Lemma patch_enabled_is p j : enabled (patch_wake p (patch_enabled p j)) = default (enabled j) (p_enabled p).
Proof.
  unfold patch_wake, patch_enabled. destruct (p_enabled p) as [[]|], (p_wake_on_completion p); cbn; by destruct (action j).
Qed.
Lemma apply_patch_enabled p now j j' : apply_patch p now j = Returns (Ok j') -> enabled j' = default (enabled j) (p_enabled p).
Proof.
  intros (j1 & j2 & H1 & H2 & _ & ->)%apply_patch_Ok. rewrite patch_enabled_is.
  apply patch_action_Ok in H2 as [[-> _]|(? & ? & ? & ? & ? & ? & _ & -> & _)];
    apply patch_schedule_Ok in H1 as [[_ ->]|(? & ? & _ & _ & ->)]; done.
Qed.
Lemma update_job_jobs refuse now id p f :
  jobs_of (update_job_fields refuse now id p f).1 = jobs_of f
  \/ exists a j j' b, jobs_of f = a ++ j :: b /\ jobs_of (update_job_fields refuse now id p f).1 = a ++ j' :: b
       /\ job_id j = id /\ same_owner j j' /\ enabled j' = default (enabled j) (p_enabled p).
Proof.
  unfold update_job_fields.
  match goal with |- context [mutate ?a ?b ?c] => destruct (mutate_post a b c) as [->|(db & db' & out & Hr & Hd & ->)]; [by left|] end.
  destruct (List.find _ _) as [j|] eqn:Hf; [|done].
  destruct (apply_patch p now j) as [[j'|]| |] eqn:Hp; [|done..]. cbn in Hd.
  apply change_job_spec in Hd as (a & j0 & b & Hl & -> & Hid & Hf'). rewrite Hf' in Hf. injection Hf as ->.
  right. exists a, j, j', b. unfold jobs_of. rewrite Hr. cbn. split_and!; [done..| |].
  - by eapply apply_patch_same_owner.
  - by eapply apply_patch_enabled.
Qed.
Lemma pin_when_enabled j p : p_enabled (pin_when j p) = p_enabled p.
Proof. unfold pin_when. destruct (p_message p), (p_when p), (action j) as [? ? ? []|]; try done. by destruct (fire_when j). Qed.

(** *** The listing *)

Definition all_jobs (w : Schedules) (names : list string) : list CronJob := concat (map (fun n => soonest_first (stored w n)) names).

Lemma list_one_spec n acc w w' acc' :
  n ∈ map pr_name loaded -> list_one write_refused n acc w = (w', acc') ->
  same_jobs stored w w' /\ (acc'.2 = None -> acc.2 = None /\ acc'.1 = acc.1 ++ soonest_first (stored w n)).
Proof.
  intros Hn. unfold list_one. destruct (cmd_bind _ _ w) as [w1 r] eqn:Hc.
  pose proof (quiet_bind _ _ (quiet_new n Hn) (fun _ => quiet_read n (list_jobs true) Hn) _ _ _ Hc) as Hs.
  assert (Hr : exists x, r = Returns x /\ (forall l, x = Ok l -> l = soonest_first (stored w n))).
  { apply (quiet_then _ _ _ _ _ (quiet_new n Hn)) in Hc as Hq.
    unfold cmd_bind, new_scheduler, on_file, init_db in Hc. unfold stored. rewrite bool_decide_eq_true_2 by done.
    destruct (file_of w n) eqn:Hf; cbn in Hc; [destruct (write_refused n); cbn in Hc|..]; unfold file_of in *;
      rewrite ?lookup_insert_eq in Hc; cbn in Hc; injection Hc as _ <-; eexists; (split; [done|]); cbn; naive_solver. }
  destruct Hr as ([l|e] & -> & Hl); intros [= <- <-]; (split; [done|]); cbn.
  - intros ->. by rewrite (Hl l).
  - by destruct acc.2.
Qed.

Lemma list_each_none names acc w w' acc' :
  Forall (fun n => n ∈ map pr_name loaded) names -> list_each write_refused names acc w = (w', acc') -> acc'.2 = None -> acc.2 = None.
Proof.
  intros Hn. revert acc w. induction Hn as [|n names Hn Hns IH]; intros acc w; cbn; [by intros [= _ <-]|].
  destruct (list_one _ n acc w) as [w1 acc1] eqn:H1. intros H2 Hnone.
  destruct (list_one_spec _ _ _ _ _ Hn H1) as [_ He]. apply He. by eapply IH.
Qed.

Lemma list_each_spec names acc w w' acc' :
  Forall (fun n => n ∈ map pr_name loaded) names -> list_each write_refused names acc w = (w', acc') ->
  same_jobs stored w w' /\ (acc'.2 = None -> acc'.1 = acc.1 ++ all_jobs w names).
Proof.
  intros Hn. revert acc w. induction Hn as [|n names Hn Hns IH]; intros acc w; cbn.
  - intros [= <- <-]. split; [done|]. intros _. by rewrite app_nil_r.
  - destruct (list_one _ n acc w) as [w1 acc1] eqn:H1. intros H2.
    destruct (list_one_spec _ _ _ _ _ Hn H1) as [Hs1 He1]. destruct (IH _ _ H2) as [Hs2 He2].
    split; [by eapply same_jobs_trans|]. intros Hnone. specialize (He2 Hnone).
    pose proof (list_each_none _ _ _ _ _ Hns H2 Hnone) as Hacc1.
    destruct (He1 Hacc1) as [_ Hl]. rewrite He2, Hl, <- app_assoc. f_equal. unfold all_jobs. cbn. f_equal.
    f_equal. apply map_ext. intros m. by rewrite Hs1.
Qed.

Lemma all_jobs_elem w j : j ∈ all_jobs w (map pr_name loaded) <-> exists key, j ∈ stored w key.
Proof.
  unfold all_jobs. rewrite list_elem_of_In, in_concat. split.
  - intros (l & Hl & Hj). apply in_map_iff in Hl as (n & <- & _). exists n.
    by rewrite <- list_elem_of_In, soonest_first_perm in Hj.
  - intros [key Hj]. exists (soonest_first (stored w key)). split.
    + apply in_map_iff. exists key. split; [done|]. rewrite <- list_elem_of_In.
      unfold stored in Hj. case_bool_decide; [done|]. by apply elem_of_nil in Hj.
    + apply list_elem_of_In. by rewrite soonest_first_perm.
Qed.
Lemma all_jobs_sub w key : stored w key ⊆+ all_jobs w (map pr_name loaded).
Proof.
  destruct (decide (key ∈ map pr_name loaded)) as [Hin|Hno].
  - unfold all_jobs. induction (map pr_name loaded) as [|n names IH]; [by apply elem_of_nil in Hin|]. cbn.
    apply elem_of_cons in Hin as [->|Hin].
    + rewrite <- (soonest_first_perm (stored w n)) at 1. by apply submseteq_inserts_r.
    + apply submseteq_inserts_l. by apply IH.
  - unfold stored. rewrite bool_decide_eq_false_2 by done. apply submseteq_nil_l.
Qed.

(** *** The instance *)

Lemma daemon_list_spec w w' r :
  daemon_list_jobs loaded write_refused w = (w', r) ->
  same_jobs stored w w' /\ forall l, r = Returns (Ok l) -> l = all_jobs w (map pr_name loaded).
Proof.
  unfold daemon_list_jobs. destruct (list_each _ _ _ w) as [w1 [l e]] eqn:Hl. intros [= <- <-].
  destruct (list_each_spec _ _ _ _ _ ltac:(by apply Forall_forall) Hl) as [Hs He]. split; [done|].
  intros l0. destruct e; [done|]. intros [= <-]. exact (He eq_refl).
Qed.

Lemma daemon_add_spec now j w w' r :
  good w -> daemon_add_job loaded model_refused write_refused now j w = (w', r) ->
  good w' /\ (same_jobs stored w w'
              \/ exists key, key_of (principal_id j) = Some key /\ only_changed stored w w' key (stored w key ++ [j])).
Proof.
  intros Hg. unfold daemon_add_job. destruct (resolve_principal loaded (principal_id j)) as [p|] eqn:Hr; [|intros [= <- _]; split; [done|by left]].
  pose proof (resolve_loaded _ _ Hr) as Hn. apply key_of_resolve in Hr.
  assert (Hdone : same_jobs stored w w' -> good w' /\ (same_jobs stored w w'
              \/ exists key, key_of (principal_id j) = Some key /\ only_changed stored w w' key (stored w key ++ [j]))).
  { intros Hs. split; [by eapply same_good|by left]. }
  intros Hc. apply quiet_then in Hc as [Hs|(u & w1 & _ & Hs1 & Hc)]; [by apply Hdone| |destruct (action j) as [? ? [] ?|]; auto with cron].
  apply quiet_then in Hc as [Hs|(u2 & w2 & _ & Hs2 & Hc)]; [apply Hdone; by eapply same_jobs_trans| |auto with cron].
  apply bind_ret_state in Hc as [r0 Hc]. apply map_err_state in Hc as [r1 Hc].
  assert (Hsw : same_jobs stored w w2) by (by eapply same_jobs_trans).
  destruct (on_file_changed _ _ _ _ _ Hn Hc) as [Hst Ho].
  destruct (add_job_jobs (write_refused (pr_name p)) now j (file_of w2 (pr_name p))) as [He|[He Hx]].
  - apply Hdone. eapply same_jobs_trans; [exact Hsw|]. apply (only_changed_same _ _ _ _ Ho). by rewrite Hst, He.
  - rewrite He, <- Hst in Ho. rewrite <- Hst, Hsw in Hx. rewrite Hsw in Ho.
    pose proof (only_changed_from _ _ _ _ _ Hsw Ho) as Ho'. split; [|right; eauto].
    destruct (Hg (pr_name p)) as [Hnd Hall]. apply (changed_good _ _ _ _ Ho' Hg).
    + rewrite map_app. apply NoDup_app. split_and!; [done| |apply NoDup_singleton].
      intros i Hi. cbn. rewrite list_elem_of_singleton. intros ->. rewrite list_elem_of_In, in_map_iff in Hi.
      destruct Hi as (j' & Hid & Hin). assert (existsb (is_job (job_id j)) (stored w (pr_name p)) = true); [|congruence].
      apply existsb_exists. exists j'. split; [done|]. by apply bool_decide_eq_true.
    + apply Forall_app. split; [done|]. by constructor.
Qed.

Lemma daemon_delete_spec p id w w' r :
  good w -> daemon_delete_job loaded write_refused p id w = (w', r) ->
  good w' /\ (same_jobs stored w w'
              \/ exists key, key_of p = Some key
                   /\ only_changed stored w w' key (List.filter (fun j => negb (is_job id j)) (stored w key))).
Proof.
  intros Hg Hc. unfold daemon_delete_job in Hc.
  apply quiet_then in Hc as [Hs|(n & w1 & Hn & Hs1 & Hc)]; [split; [by eapply same_good|by left]| |auto with cron].
  apply scheduler_name in Hn as [Hn Hk]. apply bind_ret_state in Hc as [r0 Hc]. apply map_err_state in Hc as [r1 Hc].
  destruct (on_file_changed _ _ _ _ _ Hn Hc) as [Hst Ho].
  destruct (delete_job_jobs (write_refused n) id (file_of w1 n)) as [He|He]; rewrite He, <- Hst, Hs1 in Ho;
    pose proof (only_changed_from _ _ _ _ _ Hs1 Ho) as Ho'.
  - assert (same_jobs stored w w') by (by apply (only_changed_same _ _ _ _ Ho')). split; [by eapply same_good|by left].
  - split; [|right; eauto]. destruct (Hg n) as [Hnd Hall]. apply (changed_good _ _ _ _ Ho' Hg); [by apply NoDup_map_filter|].
    rewrite Forall_forall in *. intros j [Hj _]%elem_of_filter_list. by apply Hall.
Qed.

Lemma daemon_update_spec now pid id p w w' r :
  good w -> daemon_update_job loaded model_refused write_refused now pid id p w = (w', r) ->
  good w' /\ (same_jobs stored w w'
              \/ exists key a j j' b, key_of pid = Some key /\ stored w key = a ++ j :: b /\ job_id j = id
                   /\ same_owner j j' /\ enabled j' = default (enabled j) (p_enabled p)
                   /\ only_changed stored w w' key (a ++ j' :: b)).
Proof.
  intros Hg Hc. unfold daemon_update_job in Hc.
  assert (Hdone : same_jobs stored w w' -> good w' /\ (same_jobs stored w w'
              \/ exists key a j j' b, key_of pid = Some key /\ stored w key = a ++ j :: b /\ job_id j = id
                   /\ same_owner j j' /\ enabled j' = default (enabled j) (p_enabled p)
                   /\ only_changed stored w w' key (a ++ j' :: b))).
  { intros Hs. split; [by eapply same_good|by left]. }
  apply quiet_then in Hc as [Hs|(u & w1 & _ & Hs1 & Hc)]; [by apply Hdone| |destruct (p_model p) as [[]|]; auto with cron].
  apply quiet_then in Hc as [Hs|(n & w2 & Hn & Hs2 & Hc)]; [apply Hdone; by eapply same_jobs_trans| |auto with cron].
  apply scheduler_name in Hn as [Hn Hk].
  apply quiet_then in Hc as [Hs|(o & w3 & _ & Hs3 & Hc)];
    [apply Hdone; repeat (eapply same_jobs_trans; [eassumption|]); done| |auto with cron].
  assert (Hsw : same_jobs stored w w3) by (repeat (eapply same_jobs_trans; [eassumption|]); done).
  destruct o as [j0|]; [|injection Hc as <- _; by apply Hdone].
  destruct (_ && _); [injection Hc as <- _; by apply Hdone|].
  assert (Hw : exists r1, on_file n (update_job_fields (write_refused n) now id (pin_when j0 p)) w3 = (w', r1)).
  { revert Hc. unfold cmd_bind. destruct (map_err _ _ w3) as [w4 r4] eqn:Hm. apply map_err_state in Hm.
    destruct r4 as [[[]|]| |]; by intros [= <- _]. }
  destruct Hw as [r1 Hw]. destruct (on_file_changed _ _ _ _ _ Hn Hw) as [Hst Ho].
  destruct (update_job_jobs (write_refused n) now id (pin_when j0 p) (file_of w3 n)) as [He|(a & j & j' & b & Hl & He & Hid & Hso & Hen)];
    rewrite He in Ho; pose proof (only_changed_from _ _ _ _ _ Hsw Ho) as Ho'.
  - apply Hdone. apply (only_changed_same _ _ _ _ Ho'). by rewrite <- Hst, Hsw.
  - rewrite <- Hst, Hsw in Hl. rewrite pin_when_enabled in Hen. split; [|right; by exists n, a, j, j', b].
    destruct (Hg n) as [Hnd Hall]. rewrite Hl in Hnd, Hall. apply (changed_good _ _ _ _ Ho' Hg).
    + by rewrite (same_ids a j).
    + apply Forall_app in Hall as [Ha Hb]. inversion Hb; subst. apply Forall_app. split; [done|]. constructor; [|done].
      destruct Hso as (_ & -> & _). done.
Qed.

#[export] Instance daemon_laws :
  CronRuntimeLaws (daemon_runtime loaded model_refused write_refused execute_job_for_id) stored key_of good.
Proof.
  split.
  - intros w key Hg. apply Hg.
  - intros w key j Hg Hj. destruct (Hg key) as [_ Hall]. rewrite Forall_forall in Hall. by apply Hall.
  - intros w w' r Hg Hl. destruct (daemon_list_spec _ _ _ Hl) as [Hs He]. split_and!; [by eapply same_good|done|].
    intros l Hr. rewrite (He l Hr). split; [apply all_jobs_elem|apply all_jobs_sub].
  - apply daemon_add_spec.
  - apply daemon_delete_spec.
  - apply daemon_update_spec.
  - intros p id n w w' r Hg Hc. assert (same_jobs stored w w'); [|split; [by eapply same_good|done]].
    cbn in Hc. unfold daemon_run_history in Hc. apply quiet_then in Hc as [?|(m & w1 & Hm & Hs & Hc)]; [done| |auto with cron].
    apply scheduler_name in Hm as [Hm _]. eapply same_jobs_trans; [exact Hs|].
    eapply (quiet_map_err _ _ (quiet_read m _ Hm)), Hc.
  - intros p id w w' r Hg Hc. assert (same_jobs stored w w'); [|split; [by eapply same_good|done]].
    cbn in Hc. unfold daemon_owns_job_history in Hc. destruct (resolve_principal loaded p) as [q|] eqn:Hr; [|by injection Hc as <- _].
    apply resolve_loaded in Hr. revert Hc.
    match goal with |- ?c w = _ -> _ => assert (Hq : quiet c); [|intros Hc; by apply (Hq _ _ _ Hc)] end.
    apply quiet_bind; [auto with cron|]. intros _. apply quiet_bind; [auto with cron|]. intros [j|]; auto with cron.
Qed.
End DaemonLaws.

(** ** A daemon with one principal *)

Module CronToolExample.
Import CronStoreExample.

Definition ada : LoadedPrincipal := {| pr_id := "prin_ada"; pr_name := "ada"; pr_did := Some "did:p" |}.
Definition guest : ActingFor :=
  {| actor := "user:hub:bob"; actor_name := None; trust := Untrusted; compartment := Conversation "dm_bob"; origin := Ingress None |}.
Definition keepalive : CronJob := a_job "keepalive" (Every 600000) (Send "tick" None None None).
Definition world : Schedules := {[ "ada" := Holds {| version := 2; jobs := [keepalive]; runs := [] |} ]}.
Definition never (p id : string) : Cmd Schedules string := bail "no engine".
#[local] Instance adas_runtime : CronRuntime Schedules :=
  daemon_runtime (C := ScheduleExample.clock) [ada] (fun _ => None) (fun _ => None) never.
#[local] Instance adas_laws : CronRuntimeLaws adas_runtime (stored [ada]) (key_of [ada]) (good [ada]) := daemon_laws [ada] _ _ never.
Definition bobs_call : ToolContext :=
  {| ctx_principal_id := Some "did:p"; ctx_session_id := Some "s1"; ctx_acting_for := Some guest |}.
Definition run_call (c : CronCall) : Schedules * Run (result CronAnswer string) :=
  cron_call (C := ScheduleExample.clock) None "1" "l" bobs_call 0 c world.
Definition remind : CronCall :=
  Create {| c_tool := None; c_message := Some "remind me"; c_model := None; c_when := None; c_params := None;
            c_wake_on_completion := None; c_timeout_secs := None; c_one_shot := None; c_label := Some "reminder";
            c_delay := None;
            c_schedule := {| p_at := None; p_interval_ms := Some 3600000; p_cron := None; p_timezone := None; p_idle_ms := None |} |}.

Lemma world_good : good [ada] world.
Proof.
  intros key. unfold stored. case_bool_decide as Hk; [|split; constructor].
  apply list_elem_of_singleton in Hk as ->. split; [apply NoDup_singleton|]. repeat constructor.
Qed.

(** The call works: the reminder is registered. *)
Example remind_registers : (run_call remind).2 = Returns (Ok (Registered "cron_1" "reminder" (3600000 * ms_ns))).
Proof. vm_compute. reflexivity. Qed.
(** Neither the seeded job nor another's is his to delete. *)
Example delete_refused : exists e, (run_call (Delete (Some "keepalive") None)).2 = Returns (Err e).
Proof. eexists. vm_compute. reflexivity. Qed.

Lemma cron_call_confined_witness :
  let mine j := exists p, ctx_principal_id bobs_call = Some p /\ principal_id j = p /\ job_visible_to j guest = true in
  (exists id label key j p w1, remind = Trigger id label /\ same_jobs (stored [ada]) world w1 /\ j ∈ stored [ada] world key /\ mine j
     /\ ctx_principal_id bobs_call = Some p /\ (run_call remind).1 = (rt_trigger_job p (job_id j) w1).1)
  \/ (forall key j, j ∈ stored [ada] world key -> ~ mine j -> j ∈ stored [ada] (run_call remind).1 key)
     /\ (forall key j, j ∈ stored [ada] (run_call remind).1 key -> j ∈ stored [ada] world key \/ mine j).
Proof.
  exact (cron_call_confined (C := ScheduleExample.clock) (L := adas_laws) None "1" "l" bobs_call 0 remind world
           (run_call remind).1 (run_call remind).2 world_good (surjective_pairing _)).
Defined.

Lemma seeded_jobs_survive_witness :
  (exists id label p i w1, Delete (Some "keepalive") None = Trigger id label /\ ctx_principal_id bobs_call = Some p
     /\ same_jobs (stored [ada]) world w1
     /\ (run_call (Delete (Some "keepalive") None)).1 = (rt_trigger_job p i w1).1)
  \/ exists j', j' ∈ stored [ada] (run_call (Delete (Some "keepalive") None)).1 "ada" /\ same_owner keepalive j'
       /\ (enabled keepalive = true -> enabled j' = true).
Proof.
  apply (seeded_jobs_survive (C := ScheduleExample.clock) (L := adas_laws) None "1" "l" bobs_call 0 (Delete (Some "keepalive") None) world
           _ (run_call (Delete (Some "keepalive") None)).2 "ada" keepalive);
    [exact world_good|apply surjective_pairing|reflexivity|cbn; left|right; left].
Defined.

Lemma conversation_quota_kept_witness :
  (guests (Conversation "dm_bob") (stored [ada] (run_call remind).1 "ada") <= 5)%nat.
Proof.
  apply (conversation_quota_kept (C := ScheduleExample.clock) (L := adas_laws) None "1" "l" bobs_call 0 remind world
           _ (run_call remind).2);
    [exact world_good|apply surjective_pairing|discriminate|vm_compute; lia].
Defined.
End CronToolExample.
