(* ===== verification/CronEngine.v ===== *)
(** * CronEngine: firing due jobs

    The engine of peko-rs/core/src/daemon/cron_engine (mod.rs, nudge.rs) and
    the waiting rules of peko-rs/core/src/principal/quiet_tick.rs, over the
    schedule file of one principal: admission of a run, the outcome of its
    turn or tool task, the end of a run with its next fire, its retry budget
    and its reaping, the recovery of runs a restart cut short, and the nudges
    other principals' posts give.  What a turn, a tool task or the task
    registry answers is an input. *)

From Stdlib Require Import ZArith Lia Ascii.
From stdpp Require Import base tactics list gmap strings sorting.
From S2P Require Import Prelude Text Calendar Host ActingFor Plan Retry Schedule CronStore CronTool.

Open Scope Z_scope.
Local Open Scope rust_scope.

(** ** Outcomes *)

(** tools-core/src/async_status.rs; a result is the data it carries. *)
Inductive AsyncTaskStatus :=
  | TaskPending
  | TaskRunning
  | Completed (data : option Json)
  | Failed (err : string)
  | Cancelled_
  | TimedOut (err : string).
Definition is_terminal (s : AsyncTaskStatus) : bool := match s with TaskPending | TaskRunning => false | _ => true end.
Definition async_as_str (s : AsyncTaskStatus) : string :=
  match s with
  | TaskPending => "pending" | TaskRunning => "running" | Completed _ => "completed" | Failed _ => "failed"
  | Cancelled_ => "cancelled" | TimedOut _ => "timed_out"
  end.

(** Status, output, error of a run. *)
Definition Outcome : Type := string * option string * option string.

Definition declared_failure (v : Json) : bool :=
  match index v "success" with JBool false => true | _ => false end
  || match index v "error" with JString s => negb (bool_decide (s = "")) | _ => false end.

Definition is_run_active_message (text : string) : bool := contains_str "has an active run in flight" text.

Section Outcomes.
(** [Value]'s text. *)
Context (json_text : Json -> string).

Definition map_async_status (s : AsyncTaskStatus) : Run Outcome :=
  match s with
  | Completed data =>
      let rendered := match data with Some v => json_text v | None => "<no result data>" end in
      match data with
      | Some v =>
          if declared_failure v then
            let err := match index v "error" with
                       | JString s => if bool_decide (s = "") then "tool reported success:false" else s
                       | _ => "tool reported success:false"
                       end in
            Returns ("failed", Some rendered, Some err)
          else Returns ("success", Some rendered, None)
      | None => Returns ("success", Some rendered, None)
      end
  | Failed err => Returns ("failed", None, Some err)
  | Cancelled_ => Returns ("cancelled", None, Some "cancelled by user")
  | TimedOut err => Returns ("timed_out", None, Some err)
  | TaskPending | TaskRunning => Panics
  end.

(** A probe of the task registry, and whether the wait is over by then. *)
Record Probe := { found : option AsyncTaskStatus; past_deadline : bool }.
Fixpoint await_task (task_id : string) (probes : list Probe) : Run Outcome :=
  match probes with
  | [] => Unfinished
  | p :: probes =>
      match found p with
      | Some s =>
          if is_terminal s then map_async_status s
          else if past_deadline p then Returns ("running", Some task_id, None)
          else await_task task_id probes
      | None => Returns ("running", Some task_id, None)
      end
  end.

(** What a tool fire meets: why it cannot run, how the principal's tooling
    installs, the dispatched task's id, and its probes. *)
Record SpawnFire := {
  sf_refused : option string;
  sf_install : result unit string;
  sf_dispatch : result string string;
  sf_probes : list Probe;
}.
Definition run_spawn_tool_job (e : SpawnFire) : Run (result Outcome string) :=
  match sf_refused e with
  | Some reason => Returns (Ok ("failed", None, Some reason))
  | None =>
      match (_ <-? sf_install e; sf_dispatch e) with
      | Err err => Returns (Err err)
      | Ok task_id => o <-! await_task task_id (sf_probes e); Returns (Ok o)
      end
  end.

(** What a message fire meets: the principal, the stamp, the session it fires
    in, and the turns' outcomes.  [sd_session_turn] is [None] when the job
    fires on the trunk; its outer error means that no driver could be built. *)
Record SendFire := {
  sd_manager : bool;
  sd_loaded : bool;
  sd_stamp : result unit string;
  sd_session_turn : option (result (result string string) string);
  sd_trunk_turn : result string string;
  (** conversations where other pekos' posts wait, with their turns *)
  sd_conversations : list (string * result unit string);
  (** whether anything of the trunk's own waits *)
  sd_trunk_waits : bool;
}.

Definition MAX_CONVERSATIONS_PER_FIRE : nat := 4.
Definition may_stay_quiet (j : CronJob) (now : Z) : bool :=
  match last_run j with Some last => (now - last) ÷ ms_ns <? ATTENTION_MAX_QUIET_MS | None => false end.
Definition trunk_due (e : SendFire) (j : CronJob) (now : Z) : bool :=
  bool_decide (length (sd_conversations e) = O)
  || negb (bool_decide (fire_when j = Attention))
  || negb (may_stay_quiet j now)
  || sd_trunk_waits e.
Definition conversation_turns (e : SendFire) : list (bool * string) :=
  map (fun c : string * result unit string =>
         match c.2 with
         | Ok _ => (true, "#" +:+ c.1 +:+ ": answered in its conversation")
         | Err err => (false, "#" +:+ c.1 +:+ ": " +:+ err)
         end) (take MAX_CONVERSATIONS_PER_FIRE (sd_conversations e)).
Definition run_keepalive (e : SendFire) (j : CronJob) (now : Z) : string * option string :=
  let answered := conversation_turns e in
  let left_over := (length (sd_conversations e) - MAX_CONVERSATIONS_PER_FIRE)%nat in
  let more := if (MAX_CONVERSATIONS_PER_FIRE <? length (sd_conversations e))%nat
              then [dec (Z.of_nat left_over) +:+ " more conversation(s) wait for the next fire"] else [] in
  let trunk := if trunk_due e j now
               then [match sd_trunk_turn e with Ok content => (true, content) | Err err => (false, "Scheduled turn failed: " +:+ err) end]
               else [] in
  let turns := answered ++ trunk in
  let status := if existsb fst turns || forallb fst turns then "success" else "failed" in
  (status, Some (join_with (String LF "") (map snd answered ++ more ++ map snd trunk))).

Definition run_send_job (e : SendFire) (j : CronJob) (now : Z) : result (string * option string) string :=
  if negb (sd_manager e) then Ok ("failed", Some "PrincipalManager not available")
  else if negb (sd_loaded e) then Err ("Peko '" +:+ principal_id j +:+ "' not loaded")
  else
    match (match action j with Send _ target _ _ => validate_send_target target | _ => Ok tt end) with
    | Err refusal => Ok ("failed", Some refusal)
    | Ok _ =>
        match sd_stamp e with
        | Err reason => Ok ("failed", Some reason)
        | Ok _ =>
            let on_trunk := match sd_trunk_turn e with
                            | Ok content => Ok ("success", Some content)
                            | Err err => Ok ("failed", Some ("Scheduled turn failed: " +:+ err))
                            end in
            match sd_session_turn e with
            | None => if bool_decide (job_id j = KEEPALIVE_JOB_ID) then Ok (run_keepalive e j now) else on_trunk
            | Some (Ok (Ok final_text)) => Ok ("success", Some final_text)
            | Some (Ok (Err err)) => Ok ("failed", Some ("origin-session turn error: " +:+ err))
            | Some (Err _) => on_trunk
            end
        end
    end.

Inductive Fire :=
  | SendFired (e : SendFire)
  | SpawnFired (e : SpawnFire).
(** The result of a fire, as [execute_reserved_job] sees it: a message turn's
    failure is in its output. *)
Definition fire_result (x : Fire) (j : CronJob) (now : Z) : Run (result Outcome string) :=
  match x with
  | SendFired e => Returns (r <-? run_send_job e j now; Ok (r.1, r.2, None))
  | SpawnFired e => run_spawn_tool_job e
  end.

(** Skipped and deferred fires are told apart from failures by the error. *)
Definition classify (r : result Outcome string) : Outcome :=
  let '(status, out, err) := match r with Ok o => o | Err e => ("failed", None, Some e) end in
  let status := if bool_decide (status = "failed") && match err with Some e => is_run_active_message e | None => false end
                then SKIPPED_STATUS else status in
  let status := if bool_decide (status = "failed") && match err with Some e => negb (bool_decide (failure_kind e = FAILED)) | None => false end
                then DEFERRED_STATUS else status in
  (status, out, err).
End Outcomes.

(** ** Runs *)

Section Engine.
Context `{C : Chrono} (json_text : Json -> string).
(** Why the schedule cannot be written, when it cannot. *)
Context (refused : option string).

Definition read {A} (g : ScheduleFile -> result A string) : Cmd ScheduleFile A := fun f => (f, Returns (g f)).
(** [let _ = ..]. *)
Definition ignore {A} (c : Cmd ScheduleFile A) : Cmd ScheduleFile unit := fun f =>
  match c f with
  | (f', Returns _) => (f', Returns (Ok tt))
  | (f', Panics) => (f', Panics)
  | (f', Unfinished) => (f', Unfinished)
  end.

Definition start_row (id : string) (j : CronJob) (now : Z) : CronRun :=
  {| run_id := id; run_job_id := job_id j; run_started_at := now; finished_at := None; status := "running";
     output := None; error := None |}.
(** Admission holds the engine's lock across the lookup and the write. *)
Definition reserve_run (new_id : string) (now : Z) (j : CronJob) : Cmd ScheduleFile (CronRun * bool) :=
  open <-$ read list_running_runs;
  match List.find (fun r => bool_decide (run_job_id r = job_id j)) open with
  | Some r => ret (r, false)
  | None =>
      let r := start_row new_id j now in
      _ <-$ record_run refused r;
      ret (r, true)
  end.

Definition DEFAULT_MAX_RETRIES : Z := 3.

(** The next fire after a run that ended with [status]. *)
Definition next_fire (j : CronJob) (st : string) (finished : Z) : Run (result Z string) :=
  match schedule j with
  | Every every_ms =>
      slot <-! (if bool_decide (st = "success") then interval_catch_up_slot (next_run j) every_ms finished else Returns None);
      match slot with
      | Some slot => Returns (Ok slot)
      | None => t <-! calculate_next_interval_anchored (next_run j) every_ms finished; Returns (Ok t)
      end
  | s => calculate_next_run s finished
  end.

(** The retry budget, read back after the run was counted; an unreadable
    schedule is passed over. *)
Definition enforce_budget (id st : string) : Cmd ScheduleFile unit := fun f =>
  match status_resets_failures st, get_job id f with
  | Some false, Ok (Some j) =>
      if default DEFAULT_MAX_RETRIES (max_retries j) <=? consecutive_failures j
      then ignore (set_job_enabled refused (job_id j) false) f
      else (f, Returns (Ok tt))
  | _, _ => (f, Returns (Ok tt))
  end.

(** [execute_reserved_job] after the fire: the outcome [o] closes or keeps the
    row, the schedule advances, the budget and one-shot jobs are settled.  The
    result is the status and whether the principal becomes organized. *)
Definition settle_run (j : CronJob) (id : string) (now : Z) (o : Outcome) : Cmd ScheduleFile (string * bool) :=
  let '(st, out, err) := o in
  _ <-$ (if bool_decide (st = "running") then attach_run_output refused id out err else finalize_run refused now id st out err);
  next <-$ pure_run (next_fire j st now);
  _ <-$ update_job_after_run refused now (job_id j) st next;
  _ <-$ enforce_budget (job_id j) st;
  _ <-$ (if delete_after_run j then delete_job refused (job_id j) else ret false);
  ret (st, bool_decide (st = "success") && bool_decide (job_id j = "genesis") && negb (is_some (origin_session j))
           && match action j with Send _ _ _ _ => true | SpawnTool _ _ _ _ => false end).
Definition execute_reserved_job (j : CronJob) (id : string) (finished : Z) (x : Fire) : Cmd ScheduleFile (string * bool) :=
  r <-$ (fun f => (f, match fire_result json_text x j finished with
                      | Returns r => Returns (Ok r)
                      | Panics => Panics
                      | Unfinished => Unfinished
                      end));
  settle_run j id finished (classify r).

(** ** Fires that wait *)

Definition quiet_hold (j : CronJob) (last_activity now : Z) : Run (option Z) :=
  quiet_at <-! or_panic (plus last_activity (QUIET_STRETCH_MS * ms_ns));
  if quiet_at <=? now then Returns None
  else
    after_last_turn <-! calculate_next_run (schedule j) (default (job_created_at j) (last_run j));
    let due := match after_last_turn with Ok t => t | Err _ => next_run j end in
    deadline <-! or_panic (plus (Z.min due (next_run j)) (QUIET_MAX_WAIT_MS * ms_ns));
    Returns (if now <? deadline then Some (Z.min quiet_at deadline) else None).

(** Another job of the principal that failed after this job's last turn. *)
Definition failed_since (j : CronJob) (l : list CronJob) : list string :=
  map name (List.filter (fun other =>
    negb (bool_decide (job_id other = job_id j)) && bool_decide (principal_id other = principal_id j)
    && match last_status other with
       | Some s => negb (bool_decide (s = QUIET_STATUS)) && negb (bool_decide (s = "running"))
                   && bool_decide (status_resets_failures s = Some false)
       | None => false
       end
    && match last_run other, last_run j with
       | Some failed_at, Some last_turn => last_turn <? failed_at
       | Some _, None => true
       | None, _ => false
       end) l).
(** Plan work a fire finds: active steps of plans changed since the last turn,
    and check-ins that came due since. *)
Definition plan_work (plans : list PlanRecord) (last_turn : option Z) (now : Z) : nat * nat :=
  (list_sum (map (fun p => length (active_nodes p now))
      (List.filter (fun p => match last_turn with Some last => last <? plan_updated_at p | None => true end) plans)),
   length (List.filter (fun n => match check_at n, last_turn with Some at_, Some last => last <? at_ | _, _ => true end)
             (concat (map (fun p => due_check_ins p now) plans)))).
(** [what_waits], as whether anything does; [posts] is the channel posts the
    session would see. *)
Definition something_waits (posts : nat) (owner : bool) (plans : list PlanRecord) (j : CronJob) (l : list CronJob) (now : Z) : bool :=
  (0 <? posts)%nat
  || owner && (let '(active, due) := plan_work plans (last_run j) now in (0 <? active)%nat || (0 <? due)%nat)
  || negb (bool_decide (failed_since j l = [])).

(** What a timer fire meets before it is admitted: the principal when it is
    loaded, until when its model or limit is unavailable, the posts and plans
    that wait, and when it was last active. *)
Record Waiting := {
  wt_loaded : bool;
  wt_disrupted_until : option Z;
  wt_stampable : bool;
  wt_owner : bool;
  wt_posts : nat;
  wt_plans : list PlanRecord;
  (** conversations that wait on the trunk's keepalive *)
  wt_conversations : nat;
  wt_trunk : bool;
  wt_last_activity : Z;
}.
Definition is_send (j : CronJob) : bool := match action j with Send _ _ _ _ => true | SpawnTool _ _ _ _ => false end.
Definition defer_for_disruption (j : CronJob) (e : Waiting) : Cmd ScheduleFile bool :=
  if is_send j && wt_loaded e then
    match wt_disrupted_until e with
    | Some until => _ <-$ record_deferred refused (job_id j) until; ret true
    | None => ret false
    end
  else ret false.
Definition hold_for_quiet (j : CronJob) (e : Waiting) (now : Z) : Cmd ScheduleFile bool :=
  until <-$ pure_run (o <-! quiet_hold j (wt_last_activity e) now; Returns (Ok o));
  match until with
  | None => ret false
  | Some until => _ <-$ record_quiet refused (job_id j) until; ret true
  end.
Definition attention_tick (j : CronJob) (e : Waiting) (now : Z) : Cmd ScheduleFile bool :=
  if negb (may_stay_quiet j now) || negb (wt_loaded e) then ret false
  else
    open <-$ read list_running_runs;
    if existsb (fun r => bool_decide (run_job_id r = job_id j)) open || negb (wt_stampable e) then ret false
    else
      l <-$ read (list_jobs true);
      if something_waits (wt_posts e) (wt_owner e) (wt_plans e) j l now then ret false
      else if bool_decide (job_id j = KEEPALIVE_JOB_ID) && wt_trunk e && (0 <? wt_conversations e)%nat then ret false
      else
        next <-$ pure_run (match schedule j with
                           | Every every_ms => t <-! calculate_next_interval_anchored (next_run j) every_ms now; Returns (Ok t)
                           | s => calculate_next_run s now
                           end);
        _ <-$ record_quiet refused (job_id j) next;
        ret true.
Definition quiet_tick (j : CronJob) (e : Waiting) (now : Z) : Cmd ScheduleFile bool :=
  if negb (is_send j) then ret false
  else match fire_when j with
       | Always => ret false
       | Quiet => hold_for_quiet j e now
       | Attention => attention_tick j e now
       end.

(** A timer fire; [None] when it ran nothing. *)
Definition execute_job (j : CronJob) (e : Waiting) (new_id : string) (now finished : Z) (x : Fire) : Cmd ScheduleFile (option (string * bool)) :=
  deferred <-$ defer_for_disruption j e;
  if deferred : bool then ret None
  else
    held <-$ quiet_tick j e now;
    if held : bool then ret None
    else
      admitted <-$ reserve_run new_id now j;
      if (admitted.2 : bool) then o <-$ execute_reserved_job j (run_id admitted.1) finished x; ret (Some o) else ret None.
(** A manual fire: no waiting, enabled or not. *)
Definition trigger_job (id new_id : string) (now finished : Z) (x : Fire) : Cmd ScheduleFile string :=
  o <-$ map_err "cron lookup: " (read (get_job id));
  match o with
  | None => bail ("job " +:+ id +:+ " not found")
  | Some j =>
      admitted <-$ reserve_run new_id now j;
      _ <-$ (if (admitted.2 : bool) then ignore (execute_reserved_job j (run_id admitted.1) finished x) else ret tt);
      ret (run_id admitted.1)
  end.

(** ** Recovery *)

Definition finalize_missing_task (now : Z) (r : CronRun) (task_id st : string) : Cmd ScheduleFile bool :=
  closed <-$ finalize_run refused now (run_id r) st (Some task_id)
              (Some ("async task " +:+ task_id +:+ " missing from registry; outcome unknown and may be partial"));
  if closed : bool then _ <-$ set_job_last_status refused now (run_job_id r) st; ret true else ret false.

Definition recover_one (now : Z) (r : CronRun) : Cmd ScheduleFile nat :=
  o <-$ read (get_job (run_job_id r));
  match o with
  | None => ret 0%nat
  | Some j =>
      let act := match action j with
                 | Send _ _ _ _ => Some "Send"
                 | SpawnTool _ _ _ _ => if is_some (output r) then None else Some "SpawnTool"
                 end in
      match act with
      | None => ret 0%nat
      | Some act =>
          closed <-$ finalize_run refused now (run_id r) INTERRUPTED_STATUS (output r)
                      (Some ("daemon restarted before cron " +:+ act +:+ " completed; outcome may be partial"));
          if closed : bool then _ <-$ set_job_last_status refused now (job_id j) INTERRUPTED_STATUS; ret 1%nat else ret 0%nat
      end
  end.
Fixpoint for_each {A} (g : A -> Cmd ScheduleFile nat) (l : list A) : Cmd ScheduleFile nat :=
  match l with
  | [] => ret 0%nat
  | a :: l => n <-$ g a; m <-$ for_each g l; ret (n + m)%nat
  end.
Definition recover_interrupted_runs (now : Z) : Cmd ScheduleFile nat :=
  open <-$ read list_running_runs; for_each (recover_one now) open.

(** The first time a lifetime opens the schedule. *)
Definition open_schedule (task_status : string -> option AsyncTaskStatus) (now : Z) : Cmd ScheduleFile unit :=
  _ <-$ recover_interrupted_runs now;
  open <-$ read list_running_runs;
  _ <-$ for_each (fun r => match output r with
                           | Some task_id =>
                               match task_status task_id with
                               | None => _ <-$ finalize_missing_task now r task_id INTERRUPTED_STATUS; ret 0%nat
                               | Some _ => ret 0%nat
                               end
                           | None => ret 0%nat
                           end) open;
  ret tt.

Definition reconcile_one (task_status : string -> option AsyncTaskStatus) (now : Z) (r : CronRun) : Cmd ScheduleFile nat :=
  match output r with
  | None => ret 0%nat
  | Some task_id =>
      match task_status task_id with
      | None => closed <-$ finalize_missing_task now r task_id "failed"; ret (if closed : bool then 1%nat else 0%nat)
      | Some s =>
          if is_terminal s then
            o <-$ pure_run (o <-! map_async_status json_text s; Returns (Ok o));
            closed <-$ finalize_run refused now (run_id r) o.1.1 o.1.2 o.2;
            if closed : bool then _ <-$ set_job_last_status refused now (run_job_id r) o.1.1; ret 1%nat else ret 0%nat
          else ret 0%nat
      end
  end.
Definition reconcile_running_runs (task_status : string -> option AsyncTaskStatus) (now : Z) : Cmd ScheduleFile nat :=
  open <-$ read list_running_runs; for_each (reconcile_one task_status now) open.
End Engine.

(** ** Nudges *)

Definition NUDGE_MIN_GAP : Z := 2 * min_ns.
Definition NUDGE_BUDGET_PER_HOUR : nat := 6.
Inductive NudgeOutcome := Moved (at_ : Z) | Pending_ | AlreadySooner | NotAttentionGated | OverBudget.
Record NudgeEntry := { spent : list Z; pending : bool }.
Abbreviation NudgeBook := (gmap string NudgeEntry).

Fixpoint drop_old (now : Z) (l : list Z) : list Z :=
  match l with
  | at_ :: l' => if hour_ns <=? now - at_ then drop_old now l' else l
  | [] => []
  end.
Definition entry_of (book : NudgeBook) (key : string) : NudgeEntry := default {| spent := []; pending := false |} (book !! key).
Definition try_spend (key : string) (now : Z) (book : NudgeBook) : NudgeBook * bool :=
  let e := entry_of book key in
  let l := drop_old now (spent e) in
  if (NUDGE_BUDGET_PER_HOUR <=? length l)%nat then (<[key := {| spent := l; pending := pending e |}]> book, false)
  else (<[key := {| spent := l ++ [now]; pending := pending e |}]> book, true).
Definition nudge_target (last_turn : option Z) (now : Z) : Z :=
  match last_turn with Some last => Z.max (last + NUDGE_MIN_GAP) now | None => now end.
Definition attention_gated (j : CronJob) : bool := enabled j && bool_decide (fire_when j = Attention).

(** The schedule and the book; a nudge is booked under the principal's id. *)
Definition nudge_attention (refused : option string) (key : string) (now : Z) (s : ScheduleFile * NudgeBook)
  : (ScheduleFile * NudgeBook) * Run (result NudgeOutcome string) :=
  let '(f, book) := s in
  match get_job KEEPALIVE_JOB_ID f with
  | Err e => (s, Returns (Err e))
  | Ok None => (s, Returns (Ok NotAttentionGated))
  | Ok (Some j) =>
      if negb (attention_gated j) then (s, Returns (Ok NotAttentionGated))
      else match list_running_runs f with
           | Err e => (s, Returns (Err e))
           | Ok open =>
               if existsb (fun r => bool_decide (run_job_id r = job_id j)) open then
                 if pending (entry_of book key) then (s, Returns (Ok Pending_))
                 else let '(book1, granted) := try_spend key now book in
                      if granted : bool
                      then ((f, <[key := {| spent := spent (entry_of book1 key); pending := true |}]> book1), Returns (Ok Pending_))
                      else ((f, book1), Returns (Ok OverBudget))
               else
                 let target := nudge_target (last_run j) now in
                 if next_run j <=? target then (s, Returns (Ok AlreadySooner))
                 else let '(book1, granted) := try_spend key now book in
                      if negb granted then ((f, book1), Returns (Ok OverBudget))
                      else let '(f1, moved) := bring_forward refused (job_id j) target f in
                           ((f1, book1),
                            m <-! moved; Returns (m <-? m; Ok (if m : bool then Moved target else AlreadySooner)))
           end
  end.
(** After a keepalive turn; errors are only logged. *)
Definition apply_pending_nudge (refused : option string) (key : string) (now : Z) (j : CronJob) (s : ScheduleFile * NudgeBook)
  : ScheduleFile * NudgeBook :=
  let '(f, book) := s in
  if negb (bool_decide (job_id j = KEEPALIVE_JOB_ID)) || negb (pending (entry_of book key)) then s
  else
    let book1 := <[key := {| spent := spent (entry_of book key); pending := false |}]> book in
    match get_job (job_id j) f with
    | Ok (Some updated) =>
        if attention_gated updated
        then ((bring_forward refused (job_id updated) (nudge_target (last_run updated) now) f).1, book1)
        else (f, book1)
    | _ => (f, book1)
    end.

(** ** One run in flight per job *)

Definition is_open (r : CronRun) : bool := bool_decide (status r = "running") && negb (is_some (finished_at r)).
Definition open_jobs (l : list CronRun) : list string := map run_job_id (List.filter is_open l).
(** No job has two runs in flight. *)
Definition single_flight (f : ScheduleFile) : Prop := forall db, read_db f = Ok db -> NoDup (open_jobs (runs db)).

Lemma NoDup_map_submseteq {A B} (g : A -> B) (l k : list A) : l ⊆+ k -> NoDup (map g k) -> NoDup (map g l).
Proof.
  intros [m Hm]%submseteq_Permutation Hk. rewrite Hm, map_app in Hk. by apply NoDup_app in Hk as (? & _).
Qed.

Lemma open_jobs_capped l x :
  NoDup (open_jobs (l ++ [x])) ->
  NoDup (open_jobs (if (MAX_RUNS <? length (l ++ [x]))%nat then take MAX_RUNS (newest_first (l ++ [x])) else l ++ [x])).
Proof.
  intros Hn. destruct (_ <? _)%nat; [|done]. unfold open_jobs in *. eapply NoDup_map_submseteq; [|exact Hn].
  apply filter_submseteq. rewrite <- (newest_first_perm (l ++ [x])) at 2.
  rewrite <- (take_drop MAX_RUNS (newest_first (l ++ [x]))) at 2. by apply submseteq_inserts_r.
Qed.

Lemma open_jobs_replace a x y b :
  run_job_id y = run_job_id x -> (is_open y = true -> is_open x = true) ->
  NoDup (open_jobs (a ++ x :: b)) -> NoDup (open_jobs (a ++ y :: b)).
Proof.
  intros Hj Ho. unfold open_jobs. rewrite !filter_app_list, !map_app. cbn.
  destruct (is_open y) eqn:Hy; [rewrite (Ho eq_refl); cbn; by rewrite Hj|].
  destruct (is_open x); [|done]. cbn. rewrite <- Permutation_middle. by rewrite NoDup_cons; intros [_ ?].
Qed.

Section Flights.
Context `{C : Chrono} (json_text : Json -> string).

(** Commands that keep it, whatever they answer. *)
Definition keeps_single {A} (c : Cmd ScheduleFile A) : Prop := forall f, single_flight f -> single_flight (c f).1.

Lemma changes_single e db db' :
  changes e db db' -> (forall r, op e <> RecordRun r) -> NoDup (open_jobs (runs db)) -> NoDup (open_jobs (runs db')).
Proof.
  intros Hc Hno Hn.
  destruct Hc as [r0 now j db Ha _ Hx|e db g a j b Hs Ho Hk|r0 now id db|r0 now x db|e db g a x b Hs Ho Hi Hj Hst]; cbn [runs set_runs set_jobs];
    [done..|by destruct (Hno x)|].
  rewrite Hs in Hn. eapply open_jobs_replace; [exact Hj| |exact Hn].
  unfold is_open. rewrite Ho. destruct Hst as [->|Hf]; [|destruct (finished_at (g x)); [by rewrite andb_false_r|done]].
  by intros [? _]%andb_prop; apply andb_true_intro.
Qed.
Lemma store_step_single f e : (forall r, op e <> RecordRun r) -> single_flight f -> single_flight (store_step f e).
Proof.
  intros Hno Hf db' Hr. destruct (read_store_step f e db' Hr) as [?|(db & Hr0 & Hc)]; [auto|].
  by eapply changes_single; [|..|apply Hf].
Qed.

Lemma keeps_single_op {A} (c : Cmd ScheduleFile A) (mk : ScheduleFile -> StoreEvent) :
  (forall f, (c f).1 = store_step f (mk f)) -> (forall f r, op (mk f) <> RecordRun r) -> keeps_single c.
Proof. intros He Hno f Hf. rewrite He. by apply store_step_single. Qed.
Lemma keeps_single_ret {A} (a : A) : keeps_single (ret a).
Proof. by intros f Hf. Qed.
Lemma keeps_single_bail {A} e : keeps_single (bail e : Cmd ScheduleFile A).
Proof. by intros f Hf. Qed.
Lemma keeps_single_read {A} (g : ScheduleFile -> result A string) : keeps_single (read g).
Proof. by intros f Hf. Qed.
Lemma keeps_single_pure {A} (r : Run (result A string)) : keeps_single (pure_run r : Cmd ScheduleFile A).
Proof. by intros f Hf. Qed.
Lemma keeps_single_bind {A B} (c : Cmd ScheduleFile A) (k : A -> Cmd ScheduleFile B) :
  keeps_single c -> (forall a, keeps_single (k a)) -> keeps_single (cmd_bind c k).
Proof.
  intros Hc Hk f Hf. pose proof (Hc f Hf) as H1. unfold cmd_bind. destruct (c f) as [f1 [[a|e]| |]]; cbn in *; [by apply Hk|done..].
Qed.
Lemma keeps_single_ignore {A} (c : Cmd ScheduleFile A) : keeps_single c -> keeps_single (ignore c).
Proof. intros Hc f Hf. pose proof (Hc f Hf) as H1. unfold ignore. by destruct (c f) as [f1 []]. Qed.
Lemma keeps_single_map_err {A} e (c : Cmd ScheduleFile A) : keeps_single c -> keeps_single (map_err e c).
Proof. intros Hc f Hf. pose proof (Hc f Hf) as H1. unfold map_err. by destruct (c f) as [f1 [[]| |]]. Qed.

Lemma keeps_single_finalize r now id st out err : keeps_single (finalize_run r now id st out err).
Proof. apply (keeps_single_op _ (fun _ => {| refused := r; at_time := now; op := FinalizeRun id st out err |})); done. Qed.
Lemma keeps_single_attach r id out err : keeps_single (attach_run_output r id out err).
Proof. apply (keeps_single_op _ (fun _ => {| refused := r; at_time := 0; op := AttachOutput id out err |})); done. Qed.
Lemma keeps_single_after_run r now id st next : keeps_single (update_job_after_run r now id st next).
Proof. apply (keeps_single_op _ (fun _ => {| refused := r; at_time := now; op := UpdateAfterRun id st next |})); done. Qed.
Lemma keeps_single_last_status r now id st : keeps_single (set_job_last_status r now id st).
Proof. apply (keeps_single_op _ (fun _ => {| refused := r; at_time := now; op := SetLastStatus id st |})); done. Qed.
Lemma keeps_single_enabled r id b : keeps_single (set_job_enabled r id b).
Proof. apply (keeps_single_op _ (fun _ => {| refused := r; at_time := 0; op := SetEnabled id b |})); done. Qed.
Lemma keeps_single_delete r id : keeps_single (delete_job r id).
Proof. apply (keeps_single_op _ (fun _ => {| refused := r; at_time := 0; op := DeleteJob id |})); done. Qed.
Lemma keeps_single_quiet r id next : keeps_single (record_quiet r id next).
Proof. apply (keeps_single_op _ (fun _ => {| refused := r; at_time := 0; op := RecordQuiet id next |})); done. Qed.
Lemma keeps_single_deferred r id next : keeps_single (record_deferred r id next).
Proof. apply (keeps_single_op _ (fun _ => {| refused := r; at_time := 0; op := RecordDeferred id next |})); done. Qed.

(** Admission records a row only for a job with none in flight. *)
Lemma keeps_single_reserve r new_id now j : keeps_single (reserve_run r new_id now j).
Proof.
  intros f Hf. unfold reserve_run, cmd_bind, read, list_running_runs. destruct (read_db f) as [db|e] eqn:Hr; cbn; [|done].
  destruct (List.find _ _) as [x|] eqn:Hfind; cbn; [done|].
  assert (Hrec : single_flight (record_run r (start_row new_id j now) f).1).
  { unfold record_run.
    match goal with |- context [mutate ?a ?b ?c] => destruct (mutate_post a b c) as [->|(db0 & db' & out & Hr0 & Hd & ->)]; [done|] end.
    rewrite Hr in Hr0. injection Hr0 as <-. injection Hd as <-. intros db1 [= <-]. cbn [runs set_runs].
    apply open_jobs_capped. unfold open_jobs. rewrite filter_app_list, map_app.
    change (map run_job_id (List.filter is_open [start_row new_id j now])) with [job_id j].
    apply NoDup_app. split_and!; [by apply Hf| |apply NoDup_singleton].
    intros i Hi. rewrite list_elem_of_singleton. intros ->. rewrite list_elem_of_In, in_map_iff in Hi.
    destruct Hi as (x & Hx & Hin). pose proof (find_none _ _ Hfind x Hin) as Hne. cbv beta in Hne. by apply bool_decide_eq_false in Hne. }
  by destruct (record_run r (start_row new_id j now) f) as [f1 [[[]|]| |]].
Qed.
Create HintDb flights.
#[local] Hint Resolve keeps_single_ret keeps_single_bail keeps_single_read keeps_single_pure keeps_single_bind keeps_single_ignore
  keeps_single_map_err keeps_single_finalize keeps_single_attach keeps_single_after_run keeps_single_last_status
  keeps_single_enabled keeps_single_delete keeps_single_quiet keeps_single_deferred keeps_single_reserve : flights.

Lemma keeps_single_budget r id st : keeps_single (enforce_budget r id st).
Proof.
  intros f Hf. unfold enforce_budget. destruct (status_resets_failures st) as [[]|]; [done| |done].
  destruct (get_job id f) as [[j|]|]; [|done..]. destruct (_ <=? _); [|done].
  by apply (keeps_single_ignore _ (keeps_single_enabled r (job_id j) false)).
Qed.
#[local] Hint Resolve keeps_single_budget : flights.
Lemma keeps_single_settle r j id now o : keeps_single (settle_run r j id now o).
Proof.
  unfold settle_run. destruct o as [[st out] err].
  repeat (apply keeps_single_bind; [|intros]); auto with flights; [by case_bool_decide; auto with flights|by destruct (delete_after_run j); auto with flights].
Qed.
#[local] Hint Resolve keeps_single_settle : flights.
Lemma keeps_single_reserved r j id finished x : keeps_single (execute_reserved_job json_text r j id finished x).
Proof. unfold execute_reserved_job. apply keeps_single_bind; [by intros f Hf|auto with flights]. Qed.
#[local] Hint Resolve keeps_single_reserved : flights.
Lemma keeps_single_for_each {A} (g : A -> Cmd ScheduleFile nat) l : (forall a, keeps_single (g a)) -> keeps_single (for_each g l).
Proof. intros Hg. induction l; cbn; auto 6 with flights. Qed.
Lemma keeps_single_missing r now x task_id st : keeps_single (finalize_missing_task r now x task_id st).
Proof. unfold finalize_missing_task. apply keeps_single_bind; [auto with flights|]. intros []; auto with flights. Qed.
#[local] Hint Resolve keeps_single_for_each keeps_single_missing : flights.
Lemma keeps_single_reconcile r ts now : keeps_single (reconcile_running_runs json_text r ts now).
Proof.
  unfold reconcile_running_runs. apply keeps_single_bind; [auto with flights|]. intros l. apply keeps_single_for_each. intros x.
  unfold reconcile_one. destruct (output x) as [t|]; [|auto with flights]. destruct (ts t) as [s|]; [|auto with flights].
  destruct (is_terminal s); [|auto with flights]. apply keeps_single_bind; [auto with flights|]. intros o.
  apply keeps_single_bind; [auto with flights|]. intros []; auto with flights.
Qed.
Lemma keeps_single_open r ts now : keeps_single (open_schedule r ts now).
Proof.
  unfold open_schedule, recover_interrupted_runs. apply keeps_single_bind; [apply keeps_single_bind; [auto with flights|]|].
  - intros l. apply keeps_single_for_each. intros x. unfold recover_one. apply keeps_single_bind; [auto with flights|].
    intros [j|]; [|auto with flights]. destruct (match action j with Send _ _ _ _ => _ | _ => _ end); [|auto with flights].
    apply keeps_single_bind; [auto with flights|]. intros []; auto with flights.
  - intros _. apply keeps_single_bind; [auto with flights|]. intros l. apply keeps_single_bind; [|auto with flights].
    apply keeps_single_for_each. intros x. destruct (output x) as [t|]; [|auto with flights]. destruct (ts t); auto with flights.
Qed.
Lemma keeps_single_execute r j e new_id now finished x : keeps_single (execute_job json_text r j e new_id now finished x).
Proof.
  unfold execute_job. apply keeps_single_bind.
  { unfold defer_for_disruption. destruct (_ && _), (wt_disrupted_until e); auto with flights. }
  intros []; [auto with flights|]. apply keeps_single_bind.
  { unfold quiet_tick. destruct (negb (is_send j)); [auto with flights|]. destruct (fire_when j); [auto with flights| |].
    - unfold attention_tick. destruct (_ || _); [auto with flights|]. apply keeps_single_bind; [auto with flights|]. intros l.
      destruct (_ || _); [auto with flights|]. apply keeps_single_bind; [auto with flights|]. intros k.
      destruct (something_waits _ _ _ _ _ _); [auto with flights|]. destruct (_ && _); auto with flights.
    - unfold hold_for_quiet. apply keeps_single_bind; [auto with flights|]. intros []; auto with flights. }
  intros []; [auto with flights|]. apply keeps_single_bind; [auto with flights|]. intros [y []]; cbn [fst snd]; auto with flights.
Qed.
Lemma keeps_single_trigger r id new_id now finished x : keeps_single (trigger_job json_text r id new_id now finished x).
Proof.
  unfold trigger_job. apply keeps_single_bind; [auto with flights|]. intros [j|]; [|auto with flights].
  apply keeps_single_bind; [auto with flights|]. intros [y []]; cbn [fst snd]; auto with flights.
Qed.

(** What the engine and the tools do to a schedule: whole fires, and the
    parts of a fire for those that overlap. *)
Inductive EngineOp :=
  | TimerFire (j : CronJob) (e : Waiting) (new_id : string) (now finished : Z) (x : Fire)
  | ManualFire (id new_id : string) (now finished : Z) (x : Fire)
  | Reserve (j : CronJob) (new_id : string) (now : Z)
  | Settle (j : CronJob) (id : string) (now : Z) (o : Outcome)
  | Reconcile (task_status : string -> option AsyncTaskStatus) (now : Z)
  | Reopen (task_status : string -> option AsyncTaskStatus) (now : Z)
  | ToolChange (o : StoreOp) (now : Z).
Definition engine_step (f : ScheduleFile) (x : option string * EngineOp) : ScheduleFile :=
  let r := x.1 in
  match x.2 with
  | TimerFire j e new_id now finished x => (execute_job json_text r j e new_id now finished x f).1
  | ManualFire id new_id now finished x => (trigger_job json_text r id new_id now finished x f).1
  | Reserve j new_id now => (reserve_run r new_id now j f).1
  | Settle j id now o => (settle_run r j id now o f).1
  | Reconcile ts now => (reconcile_running_runs json_text r ts now f).1
  | Reopen ts now => (open_schedule r ts now f).1
  | ToolChange o now =>
      match o with
      | RecordRun _ => f
      | _ => store_step f {| refused := r; at_time := now; op := o |}
      end
  end.

(** C20. No job ever has two running rows in its principal's schedule: through any
    interleaving of timer fires, manual fires, ends of runs in any order,
    restarts, reconciliations and changes by tools, with writes failing
    anywhere, at most one row of a job is open with status [running].  A run
    whose open row the cap of a thousand rows has dropped
    ([CronStoreExample.open_run_dropped]) is not among them. *)
Theorem one_running_row (f : ScheduleFile) (l : list (option string * EngineOp)) :
  single_flight f -> single_flight (foldl engine_step f l).
Proof.
  revert f. induction l as [|[r o] l IH]; intros f Hf; [done|]. apply IH. clear IH. unfold engine_step. cbn [fst snd].
  destruct o as [j e i now fin x|id i now fin x|j i now|j id now o|ts now|ts now|o now].
  - by apply keeps_single_execute.
  - by apply keeps_single_trigger.
  - by apply keeps_single_reserve.
  - by apply keeps_single_settle.
  - by apply keeps_single_reconcile.
  - by apply keeps_single_open.
  - destruct o; try done; by apply store_step_single.
Qed.
End Flights.

(** ** Waiting for a quiet stretch *)

Section QuietHold.
Context `{C : Chrono}.

Lemma quiet_hold_Some j act now until :
  quiet_hold j act now = Returns (Some until) ->
  exists due, calculate_next_run (schedule j) (default (job_created_at j) (last_run j)) = Returns due
    /\ now < until /\ until <= act + QUIET_STRETCH_MS * ms_ns
    /\ until <= match due with Ok t => t | Err _ => next_run j end + QUIET_MAX_WAIT_MS * ms_ns.
Proof.
  unfold quiet_hold, plus. destruct (representable (act + _)); cbn [or_panic run_bind]; [|done].
  destruct (Z.leb_spec (act + QUIET_STRETCH_MS * ms_ns) now); [done|].
  destruct (calculate_next_run _ _) as [due| |]; cbn [run_bind]; [|done..].
  destruct (representable _); cbn [or_panic run_bind]; [|done].
  set (d := match due with Ok t => t | Err _ => _ end).
  destruct (Z.ltb_spec now (Z.min d (next_run j) + QUIET_MAX_WAIT_MS * ms_ns)); [|done]. intros [= <-].
  exists due. split; [done|]. lia.
Qed.

(** A job held at each of the polls [l], as (last activity, time) pairs; a
    poll that lets it run ends the wait. *)
Fixpoint holds_through (j : CronJob) (l : list (Z * Z)) : option CronJob :=
  match l with
  | [] => Some j
  | (act, now) :: l =>
      match quiet_hold j act now with
      | Returns (Some until) => holds_through (held_back QUIET_STATUS until j) l
      | _ => None
      end
  end.

(** A fire that waits for a quiet stretch is not put off for ever: however
    often it is held, and whatever is said to the principal meanwhile, every
    hold ends within twelve hours of the slot that follows the job's last turn,
    later than the poll that made it and no later than the quiet stretch
    needs; so no poll past that deadline holds the fire. *)
Theorem quiet_fire_bounded (j j' : CronJob) (l : list (Z * Z)) (slot : Z) :
  calculate_next_run (schedule j) (default (job_created_at j) (last_run j)) = Returns (Ok slot) ->
  holds_through j l = Some j' ->
  forall act now until, quiet_hold j' act now = Returns (Some until) ->
    now < until /\ until <= slot + 12 * hour_ns /\ until <= act + 4 * hour_ns.
Proof.
  intros Hslot Hl.
  assert (Hslot' : calculate_next_run (schedule j') (default (job_created_at j') (last_run j')) = Returns (Ok slot)).
  { revert j Hslot Hl. induction l as [|[act now] l IH]; intros j Hslot; cbn; [by intros [= <-]|].
    destruct (quiet_hold j act now) as [[until|]| |]; [|done..]. by apply IH. }
  intros act now until (due & Hd & Hlt & Hact & Hle)%quiet_hold_Some. rewrite Hslot' in Hd. injection Hd as <-.
  unfold QUIET_STRETCH_MS, QUIET_MAX_WAIT_MS, ms_ns, hour_ns, min_ns, sec_ns in *. lia.
Qed.
End QuietHold.

(** ** The nudge budget *)

(** The times at which a principal's nudges were granted, in order. *)
Fixpoint granted (key : string) (book : NudgeBook) (times : list Z) : list Z :=
  match times with
  | [] => []
  | t :: times => let '(book', ok) := try_spend key t book in (if ok then [t] else []) ++ granted key book' times
  end.

Lemma drop_old_spec now l : StronglySorted Z.le l -> drop_old now l = List.filter (fun at_ => now - at_ <? hour_ns) l.
Proof.
  induction 1 as [|x l Hs IH Hx]; cbn; [done|].
  destruct (Z.leb_spec hour_ns (now - x)), (Z.ltb_spec (now - x) hour_ns); try lia; [done|].
  f_equal. symmetry. apply forallb_filter_id, forallb_forall. intros y Hy. rewrite Forall_forall in Hx.
  apply list_elem_of_In, Hx in Hy. apply Z.ltb_lt. lia.
Qed.

Definition within (lo hi : Z) (l : list Z) : nat := length (List.filter (fun t => (lo <? t) && (t <=? hi)) l).

Lemma within_app lo hi l k : within lo hi (l ++ k) = (within lo hi l + within lo hi k)%nat.
Proof. unfold within. by rewrite filter_app_list, length_app. Qed.

Lemma within_none lo hi l : Forall (fun t => hi < t) l -> within lo hi l = 0%nat.
Proof.
  unfold within. induction 1 as [|x l Hx _ IH]; cbn; [done|].
  destruct (Z.leb_spec x hi); [lia|]. by rewrite andb_false_r.
Qed.
(** Forgetting what lies an hour back changes no window that ends from now on. *)
Lemma within_recent now hi l :
  now <= hi -> within (hi - hour_ns) hi (List.filter (fun at_ => now - at_ <? hour_ns) l) = within (hi - hour_ns) hi l.
Proof.
  intros Hn. unfold within. induction l as [|x l IH]; cbn; [done|].
  destruct (Z.ltb_spec (now - x) hour_ns); cbn; [destruct ((hi - hour_ns <? x) && (x <=? hi)); cbn; by rewrite IH|].
  destruct (Z.ltb_spec (hi - hour_ns) x); [lia|]. exact IH.
Qed.
Lemma within_filter lo hi f l : (within lo hi (List.filter f l) <= within lo hi l)%nat.
Proof.
  unfold within. apply submseteq_length, filter_submseteq, sublist_submseteq.
  induction l as [|x l IH]; cbn; [done|]. destruct (f x); by constructor.
Qed.
Lemma within_length lo hi l : (within lo hi l <= length l)%nat.
Proof. unfold within. induction l as [|x l IH]; cbn; [lia|]. destruct (_ && _); cbn; lia. Qed.

Lemma StronglySorted_filter_Z f l : StronglySorted Z.le l -> StronglySorted Z.le (List.filter f l).
Proof.
  induction 1 as [|x l Hs IH Hx]; cbn; [constructor|]. destruct (f x); [|done]. constructor; [done|].
  rewrite Forall_forall in *. intros y [Hy _]%elem_of_filter_list. by apply Hx.
Qed.

Lemma entry_insert key e book : entry_of (<[key := e]> book) key = e.
Proof. unfold entry_of. by rewrite lookup_insert_eq. Qed.

Lemma granted_later key times : forall book t, Forall (fun x => t <= x) times -> Forall (fun x => t <= x) (granted key book times).
Proof.
  induction times as [|x times IH]; intros book t Hf; cbn; [constructor|]. inversion Hf; subst.
  destruct (try_spend key x book) as [book' []]; cbn; [constructor; [done|]|]; by apply IH.
Qed.

Lemma granted_within key times : forall book,
  StronglySorted Z.le times -> StronglySorted Z.le (spent (entry_of book key)) ->
  Forall (fun s => Forall (fun t => s <= t) times) (spent (entry_of book key)) ->
  (forall hi, within (hi - hour_ns) hi (spent (entry_of book key)) <= 6)%nat ->
  forall hi, (within (hi - hour_ns) hi (spent (entry_of book key) ++ granted key book times) <= 6)%nat.
Proof.
  induction times as [|x times IH]; intros book Ht Hs Hle Hw hi; cbn [granted]; [by rewrite app_nil_r|].
  inversion Ht as [|? ? Ht' Hx]; subst.
  assert (Hsx : Forall (fun s => s <= x) (spent (entry_of book key))) by (eapply Forall_impl; [exact Hle|]; cbn; by intros ? [? _]%Forall_cons).
  set (l := List.filter (fun at_ => x - at_ <? hour_ns) (spent (entry_of book key))).
  assert (Hsub : forall s, s ∈ l -> s ∈ spent (entry_of book key)) by (intros s [? _]%elem_of_filter_list; done).
  assert (Hl : StronglySorted Z.le l) by (by apply StronglySorted_filter_Z).
  assert (Hlx : Forall (fun s => s <= x) l) by (rewrite Forall_forall in *; auto).
  assert (Hlt : Forall (fun s => Forall (fun t => s <= t) times) l).
  { apply Forall_forall. intros s Hin. rewrite Forall_forall in Hle. by destruct (proj1 (Forall_cons _ _ _) (Hle s (Hsub s Hin))). }
  unfold try_spend. rewrite drop_old_spec by done. fold l.
  assert (Hstep : forall l' g book', spent (entry_of book' key) = l ++ l' -> g = l' ++ granted key book' times ->
            (forall h, within (h - hour_ns) h (spent (entry_of book' key) ++ granted key book' times) <= 6)%nat ->
            Forall (fun y => x <= y) l' -> (within (hi - hour_ns) hi (spent (entry_of book key) ++ g) <= 6)%nat).
  { intros l' g book' Hsp -> Hih Hl'. destruct (Z.le_gt_cases x hi) as [Hxh|Hxh].
    - rewrite within_app, <- (within_recent x), <- within_app by done. fold l. rewrite app_assoc, <- Hsp. apply Hih.
    - rewrite within_app, (within_none _ _ (l' ++ _)), Nat.add_0_r; [apply Hw|].
      assert (Forall (fun y => x <= y) (l' ++ granted key book' times)) as Hall.
      { apply Forall_app. split; [done|]. by apply granted_later. }
      eapply Forall_impl; [exact Hall|]. cbn. lia. }
  destruct (Nat.leb_spec NUDGE_BUDGET_PER_HOUR (length l)) as [Hb|Hb]; cbn [app].
  - eapply (Hstep [] _ (<[key := {| spent := l; pending := pending (entry_of book key) |}]> book));
      [by rewrite entry_insert, app_nil_r|done| |constructor].
    apply IH; [done|..]; rewrite entry_insert; cbn [spent]; [done|done|].
    intros h. etrans; [apply within_filter|apply Hw].
  - eapply (Hstep [x] _ (<[key := {| spent := l ++ [x]; pending := pending (entry_of book key) |}]> book));
      [by rewrite entry_insert|done| |by repeat constructor].
    apply IH; [done|..]; rewrite entry_insert; cbn [spent].
    + apply StronglySorted_app. split_and!; [|done|repeat constructor].
      intros a b Ha Hb'. apply list_elem_of_singleton in Hb' as ->. rewrite Forall_forall in Hlx. by apply Hlx.
    + apply Forall_app. split; [done|]. by constructor.
    + intros h. etrans; [apply within_length|]. rewrite length_app. cbn. unfold NUDGE_BUDGET_PER_HOUR in Hb. lia.
Qed.

(** Posts by other principals bring a principal's keepalive forward at most
    six times in any hour: of the grants its book makes at times that never go
    back, no more than six lie in any window of one hour. *)
Theorem nudges_at_most_six_an_hour (key : string) (book : NudgeBook) (times : list Z) (hi : Z) :
  StronglySorted Z.le times -> spent (entry_of book key) = [] ->
  (length (List.filter (fun t => (hi - hour_ns <? t)%Z && (t <=? hi)%Z) (granted key book times)) <= 6)%nat.
Proof.
  intros Ht Hs. pose proof (granted_within key times book Ht) as Hg. rewrite Hs in Hg.
  apply Hg; [constructor|constructor|]. intros h. cbn. lia.
Qed.

(** ** The end of a run *)

Lemma bind_ok {W A B} (c : Cmd W A) (k : A -> Cmd W B) w w1 a : c w = (w1, Returns (Ok a)) -> cmd_bind c k w = k a w1.
Proof. unfold cmd_bind. by intros ->. Qed.

Lemma mutate_ok {T} f (change : CronDatabase -> Run (result (CronDatabase * T * bool) string)) db db' out ch :
  read_db f = Ok db -> change db = Returns (Ok (db', out, ch)) ->
  mutate None f change = (if ch then Holds db' else f, Returns (Ok out)).
Proof. intros Hr Hc. unfold mutate. rewrite Hr, Hc. by destruct ch. Qed.

Lemma change_first_at {A} (p : A -> bool) g a x b :
  Forall (fun y => p y = false) a -> p x = true -> change_first p g (a ++ x :: b) = Some (a ++ g x :: b).
Proof. induction 1 as [|y a Hy _ IH]; cbn; intros Hp; [by rewrite Hp|]. rewrite Hy. by rewrite (IH Hp). Qed.
Lemma find_at {A} (p : A -> bool) a x b : Forall (fun y => p y = false) a -> p x = true -> List.find p (a ++ x :: b) = Some x.
Proof. induction 1 as [|y a Hy _ IH]; cbn; intros Hp; [by rewrite Hp|]. rewrite Hy. auto. Qed.

(** A schedule with one job [j0] of that id, between [a] and [b]. *)
Definition holds_job (f : ScheduleFile) (a : list CronJob) (j0 : CronJob) (b : list CronJob) : Prop :=
  exists db, read_db f = Ok db /\ jobs db = a ++ j0 :: b /\ Forall (fun k => job_id k <> job_id j0) (a ++ b).

Lemma not_is_job a b j0 : Forall (fun k => job_id k <> job_id j0) (a ++ b) ->
  Forall (fun k => is_job (job_id j0) k = false) a /\ Forall (fun k => is_job (job_id j0) k = false) b.
Proof.
  rewrite Forall_app. intros [Ha Hb]. split; eapply Forall_impl; try eassumption; intros k Hk; by apply bool_decide_eq_false.
Qed.

Lemma change_job_at f a j0 b g :
  holds_job f a j0 b -> job_id (g j0) = job_id j0 ->
  exists f', mutate None f (change_job (job_id j0) g) = (f', Returns (Ok true)) /\ holds_job f' a (g j0) b.
Proof.
  intros (db & Hr & Hl & Hne) Hid. destruct (not_is_job a b j0 Hne) as [Ha _].
  assert (Hc : change_job (job_id j0) g db = Returns (Ok (set_jobs db (a ++ g j0 :: b), true, true))).
  { unfold change_job. rewrite Hl, change_first_at; [done|done|]. by apply bool_decide_eq_true. }
  exists (Holds (set_jobs db (a ++ g j0 :: b))). split; [by rewrite (mutate_ok f _ _ _ _ _ Hr Hc)|].
  eexists. split; [done|]. split; [done|]. by rewrite Hid.
Qed.

Lemma row_change_jobs f a j0 b id g :
  holds_job f a j0 b -> exists f' o, mutate None f (change_open_run id g) = (f', Returns (Ok o)) /\ holds_job f' a j0 b.
Proof.
  intros (db & Hr & Hl & Hne).
  assert (Hc : exists db' out ch, change_open_run id g db = Returns (Ok (db', out, ch)) /\ jobs db' = jobs db).
  { unfold change_open_run. destruct (List.find _ _) as [r|]; [destruct (is_some (finished_at r))|]; [by eexists _, _, _| |by eexists _, _, _].
    destruct (change_first _ _ _); by eexists _, _, _. }
  destruct Hc as (db' & out & ch & Hc & Hj). rewrite (mutate_ok f _ _ _ _ _ Hr Hc). eexists _, out. split; [done|].
  destruct ch; [exists db'|exists db]; rewrite ?Hj; done.
Qed.

(** What the end of a run does to the count of failures in a row. *)
Definition failures_after (st : string) (failures : Z) : Z :=
  if decide (st = "success") then 0
  else if decide (st ∈ ["interrupted"; "skipped"; "deferred"]) then failures
  else (failures + 1) mod 2 ^ 32.
Definition is_failure (st : string) : bool := negb (bool_decide (st ∈ ["success"; "interrupted"; "skipped"; "deferred"])).
(** The job after a run that ended with [st], field by field; [budget] is how
    many failures in a row it may have. *)
Definition settled_job (budget : Z) (st : string) (next now : Z) (j0 : CronJob) : CronJob :=
  let failures := failures_after st (consecutive_failures j0) in
  {| job_id := job_id j0; name := name j0; principal_id := principal_id j0; schedule := schedule j0; action := action j0;
     delete_after_run := delete_after_run j0; enabled := if is_failure st && (budget <=? failures) then false else enabled j0;
     job_created_at := job_created_at j0; next_run := next; last_run := Some now; last_status := Some st;
     run_count := (run_count j0 + 1) mod 2 ^ 32; consecutive_failures := failures; max_retries := max_retries j0;
     origin_session := origin_session j0; created_by := created_by j0 |}.
(** When a job fires next after a run that ended with [st] at [now]: an interval
    job at the first slot of its grid after [now], or, when the run succeeded
    and overran, once more at the latest slot it missed. *)
Definition fires_next `{C : Chrono} (j : CronJob) (st : string) (now next : Z) : Prop :=
  match schedule j with
  | Every every_ms =>
      0 < every_ms <= i64_max -> representable (next_run j) = true ->
      representable (Z.max (next_run j) now + every_ms * ms_ns) = true ->
      exists k, let slot := fun i => next_run j + i * (every_ms * ms_ns) in
        1 <= k /\ now < slot k /\ (forall i, 1 <= i < k -> slot i <= now)
        /\ next = if bool_decide (st = "success") && (1 <? k) then slot (k - 1) else slot k
  | s => calculate_next_run s now = Returns (Ok next)
  end.

Lemma after_run_settled budget st next now j0 : max_retries j0 = Some budget ->
  settled_job budget st next now j0
  = let j1 := after_run st next now j0 in
    match status_resets_failures st with
    | Some false => if default 3 (max_retries j1) <=? consecutive_failures j1 then with_enabled j1 false else j1
    | _ => j1
    end.
Proof.
  intros Hb. unfold settled_job, failures_after, is_failure, after_run, count_failure, status_resets_failures, incr_u32.
  destruct j0. cbn in *. subst.
  destruct (decide (st = "success")) as [->|H1]; [by rewrite !bool_decide_true by set_solver|].
  rewrite (bool_decide_false (_ = _)) by done.
  destruct (decide (st ∈ ["interrupted"; "skipped"; "deferred"])) as [H2|H2].
  - rewrite (bool_decide_true (_ ∈ _)) by set_solver. cbn [negb andb].
    by repeat (apply elem_of_cons in H2 as [->|H2]; [done|]); apply elem_of_nil in H2.
  - rewrite (bool_decide_false (_ ∈ _)) by set_solver. cbn [negb andb].
    unfold INTERRUPTED_STATUS, SKIPPED_STATUS, DEFERRED_STATUS. rewrite !(bool_decide_false (_ = _)) by set_solver.
    cbn [orb default from_option id]. by destruct (_ <=? _).
Qed.

Section Settle.
Context `{C : Chrono}.

Lemma budget_at f a j1 b st :
  holds_job f a j1 b ->
  exists f', enforce_budget None (job_id j1) st f = (f', Returns (Ok tt))
    /\ holds_job f' a (match status_resets_failures st with
                       | Some false => if default 3 (max_retries j1) <=? consecutive_failures j1 then with_enabled j1 false else j1
                       | _ => j1
                       end) b.
Proof.
  intros Hh. unfold enforce_budget. destruct (status_resets_failures st) as [[]|]; [by exists f| |by exists f].
  assert (Hg : get_job (job_id j1) f = Ok (Some j1)).
  { destruct Hh as (db & Hr & Hl & Hne). unfold get_job. rewrite Hr. cbn. rewrite Hl, find_at; [done|by apply not_is_job in Hne as [? _]|].
    by apply bool_decide_eq_true. }
  rewrite Hg. unfold DEFAULT_MAX_RETRIES. destruct (_ <=? _); [|by exists f].
  destruct (change_job_at f a j1 b (fun j => with_enabled j false) Hh eq_refl) as (f' & Hm & Hh').
  exists f'. split; [|done]. unfold ignore, set_job_enabled. by rewrite Hm.
Qed.

Lemma delete_at f a j1 b :
  holds_job f a j1 b ->
  exists f' db, delete_job None (job_id j1) f = (f', Returns (Ok true)) /\ read_db f' = Ok db /\ jobs db = a ++ b.
Proof.
  intros (db & Hr & Hl & Hne). destruct (not_is_job a b j1 Hne) as [Ha Hb].
  assert (Hkeep : forall l, Forall (fun k => is_job (job_id j1) k = false) l -> List.filter (fun j => negb (is_job (job_id j1) j)) l = l).
  { induction 1 as [|k l Hk _ IH]; cbn; [done|]. by rewrite Hk; cbn; rewrite IH. }
  assert (Hf : List.filter (fun j => negb (is_job (job_id j1) j)) (jobs db) = a ++ b).
  { rewrite Hl, filter_app_list, (Hkeep a Ha). cbn. unfold is_job at 1. rewrite bool_decide_eq_true_2 by done. cbn. by rewrite (Hkeep b Hb). }
  exists (Holds (set_jobs db (a ++ b))), (set_jobs db (a ++ b)). split; [|done].
  unfold delete_job. erewrite mutate_ok; [|exact Hr|rewrite Hf; reflexivity].
  rewrite Hl, !length_app. cbn [length]. destruct (Nat.ltb_spec (length a + length b) (length a + S (length b))); [done|lia].
Qed.

Lemma next_fire_pinned `{!ChronoLaws C} j st now next : next_fire j st now = Returns (Ok next) -> fires_next j st now next.
Proof.
  unfold next_fire, fires_next. destruct (schedule j) as [| |every_ms|]; try done. intros H Hm Hr Hr'.
  assert (Hs : 0 < every_ms * ms_ns) by (unfold ms_ns; lia).
  pose proof (grid_slot_representable _ _ _ Hs Hr Hr') as Hk.
  rewrite anchored_is_grid, catch_up_is_grid in H by done.
  destruct (grid_index_spec (next_run j) (every_ms * ms_ns) now Hs) as (Hk1 & Habove & Hbelow).
  exists (grid_index (next_run j) (every_ms * ms_ns) now). cbv zeta. split_and!; try done.
  case_bool_decide; cbn [run_bind andb] in H |- *; [|by injection H as <-].
  destruct (1 <? _); cbn [run_bind] in H; by injection H as <-.
Qed.

End Settle.

(** ** Message turns that fail *)

(** A message job's turn is never settled as deferred or skipped, whatever
    it failed with: its failure text is handed on as the run's output, and the
    fire is classified by its error, which is empty.  So a turn that met an
    unreachable model, a spent quota or its peko's own limit counts against
    the job's retry budget like any failure. *)
Theorem message_turn_never_deferred (json_text : Json -> string) (e : SendFire) (j : CronJob) (now : Z) r :
  sd_loaded e = true -> fire_result json_text (SendFired e) j now = Returns r ->
  let st := (classify r).1.1 in
  (st = "success" \/ st = "failed") /\ st <> DEFERRED_STATUS /\ st <> SKIPPED_STATUS.
Proof.
  intros Hl. unfold fire_result. intros [= <-].
  assert (Hr : exists st out, run_send_job e j now = Ok (st, out) /\ (st = "success" \/ st = "failed")).
  { unfold run_send_job. rewrite Hl. cbn [negb]. destruct (sd_manager e); cbn [negb]; [|eauto].
    destruct (match action j with Send _ _ _ _ => _ | _ => _ end); [|eauto].
    destruct (sd_stamp e); [|eauto].
    destruct (sd_session_turn e) as [[[t|err]|err]|]; [eauto|eauto| |].
    - destruct (sd_trunk_turn e); eauto.
    - case_bool_decide; [|destruct (sd_trunk_turn e); eauto].
      unfold run_keepalive. eexists _, _. split; [done|]. destruct (_ || _); auto. }
  destruct Hr as (st & out & -> & Hst). cbn. rewrite !andb_false_r. destruct Hst as [->| ->]; split_and!; auto; discriminate.
Qed.

(** ** Concrete runs *)

Module CronEngineExample.
Import CronStoreExample.

Definition text_of (v : Json) : string := "...".
Definition refused_turn : SendFire :=
  {| sd_manager := true; sd_loaded := true; sd_stamp := Ok tt; sd_session_turn := None;
     sd_trunk_turn := Err "LLM error: 503 Service Unavailable"; sd_conversations := []; sd_trunk_waits := false |}.
(** The text is one the classifier takes for a disruption. *)
Example refusal_is_a_disruption : failure_kind "LLM error: 503 Service Unavailable" <> FAILED.
Proof. vm_compute. discriminate. Qed.

Lemma message_turn_never_deferred_witness :
  let st := (classify (Ok ("failed", Some "Scheduled turn failed: LLM error: 503 Service Unavailable", None))).1.1 in
  (st = "success" \/ st = "failed") /\ st <> DEFERRED_STATUS /\ st <> SKIPPED_STATUS.
Proof.
  apply (message_turn_never_deferred text_of refused_turn ping 0); [reflexivity|vm_compute; reflexivity].
Defined.

Lemma one_running_row_witness :
  single_flight (foldl (engine_step (C := ScheduleExample.clock) text_of) Absent
    [(None, ToolChange (AddJob ping) 0); (None, ManualFire "j" "r1" 1 2 (SendFired refused_turn)); (None, Reserve ping "r2" 3);
     (None, Reserve ping "r3" 4)]).
Proof.
  apply (one_running_row (C := ScheduleExample.clock) text_of Absent). intros db [= <-]. constructor.
Defined.

Lemma quiet_fire_bounded_witness : 0 < 60000 * ms_ns <= 60000 * ms_ns + 12 * hour_ns.
Proof.
  destruct (quiet_fire_bounded (C := ScheduleExample.clock) ping ping [] (60000 * ms_ns) eq_refl eq_refl
              (60000 * ms_ns - 4 * hour_ns) 0 (60000 * ms_ns)) as (H1 & H2 & _); [vm_compute; reflexivity|].
  split; assumption.
Defined.

Definition nudged_at : list Z := [1; 2; 3; 4; 5; 6; 7; 8].
Lemma nudges_at_most_six_an_hour_witness :
  (length (List.filter (fun t => (hour_ns - hour_ns <? t)%Z && (t <=? hour_ns)%Z) (granted "p" ∅ nudged_at)) <= 6)%nat.
Proof.
  unfold nudged_at. apply (nudges_at_most_six_an_hour "p" ∅ [1; 2; 3; 4; 5; 6; 7; 8] hour_ns); [|reflexivity].
  repeat (constructor; [|repeat (constructor; [lia|]); constructor]). constructor.
Defined.

Definition budgeted (budget : option Z) (failures : Z) : CronJob :=
  {| job_id := job_id ping; name := name ping; principal_id := principal_id ping; schedule := schedule ping; action := action ping;
     delete_after_run := false; enabled := true; job_created_at := 0; next_run := 0; last_run := None; last_status := None;
     run_count := 7; consecutive_failures := failures; max_retries := budget; origin_session := None; created_by := None |}.
Definition just (j : CronJob) : ScheduleFile := Holds {| version := 2; jobs := [j]; runs := [] |}.
(** A job that sets no budget is disabled at its third failure in a row. *)
Theorem unset_budget_is_three :
  let after failures := match read_db (settle_run (C := ScheduleExample.clock) None (budgeted None failures) "r1" 0
                                         ("failed", None, None) (just (budgeted None failures))).1 with
                        | Ok db => map enabled (jobs db) | Err _ => [] end in
  after 1 = [true] /\ after 2 = [false].
Proof. split; reflexivity. Qed.

(** A tool job, and one fire of it that outlives its wait and then fails. *)
Definition tool_job : CronJob := a_job "j" (Every 60000) (SpawnTool "Bash" (JObject []) None (Some 5)).
Definition slow_failure : list (option string * EngineOp) :=
  [(None, ManualFire "j" "r1" 0 1 (SpawnFired {| sf_refused := None; sf_install := Ok tt; sf_dispatch := Ok "t1";
                                                 sf_probes := [{| found := Some TaskRunning; past_deadline := true |}] |}));
   (None, Reconcile (fun _ => Some (TimedOut "too slow")) 2)].

(** One failed run can count twice against the retry budget: a tool task
    that outlives its wait is counted as a failure while it is still running,
    and again when its end is reconciled. *)
Lemma slow_failure_counts_twice :
  exists j, jobs <$> match read_db (foldl (engine_step (C := ScheduleExample.clock) text_of)
                             (Holds {| version := 2; jobs := [tool_job]; runs := [] |}) slow_failure) with
                     | Ok db => Some db | Err _ => None end = Some [j]
            /\ run_count j = 1 /\ consecutive_failures j = 2.
Proof. eexists. split; [vm_compute; reflexivity|split; reflexivity]. Qed.
End CronEngineExample.
